(* ===== verification/_CoqProject ===== *)
-Q . S2P
Prelude.v
Host.v
GoStrings.v
GoText.v
GoTime.v
GoDuration.v
Regexp.v
GoNet.v
ProviderTypes.v
Validation.v
ValidationFacts.v
ZfsNames.v
GoPath.v
PathConfine.v
InstanceLocks.v
InstanceLocksFacts.v
Jobs.v
JobsFacts.v
Registry.v
Discovery.v
Health.v
HealthFacts.v
ManifestTypes.v
ManifestParse.v
DepOrder.v
DepOrderFacts.v
DepCycle.v
ManifestValidator.v
StackStore.v
Stack.v
StackFacts.v
ManifestFacts.v
StackRuns.v
StackPersist.v
Backup.v
BackupFacts.v
BackupRetention.v
InstanceStore.v
InstanceStoreFacts.v
BackupRestart.v
BackupRuns.v
GoHttp.v
Auth.v
AuthFacts.v
Middleware.v
MiddlewareFacts.v
AuthLimits.v
ApiKeys.v
ApiKeysFacts.v
AuthRuns.v
InstanceHandlers.v
InstanceHandlersFacts.v
Files.v
GoWords.v
FwRules.v
Pf.v
PfFacts.v
FwManager.v
FwManagerFacts.v
FirewallRuns.v
CloudInit.v
Convert.v
ConvertFacts.v
Podman.v
PodmanOps.v
PodmanSnapshots.v
PodmanFacts.v
JailParams.v
JailNet.v
JailConfig.v
JailHooks.v
JailRctl.v
JailFacts.v
JailRctlFacts.v
JailNetFacts.v
JailMounts.v
JailImages.v
JailOps.v
JailFeatures.v
JailStartFacts.v
