(* ===== verification/Prelude.v ===== *)
(** * Hospitus: a verification development

    Hospitus is a daemon (with a CLI) that runs jails, virtual machines and
    containers on FreeBSD, Linux and macOS.  Requests reach it over HTTP or as
    TOML manifests, are validated, run as jobs, and act on instances through
    providers (one per hypervisor or runtime).  On top of the providers an
    orchestration layer deploys stacks of instances in dependency order, checks
    their health, restarts them and publishes them as services.  This library
    models the parts that carry this logic and that do not themselves drive
    external programs, and proves what makes each correct.

    ** Parts, and how they interact

    - The validators (pkg/validation) decide what may reach a command line, a
      path or a database; every other part relies on the names they accept.
    - A stack manifest (pkg/manifest) is decoded, given its defaults and checked as a
      whole before it reaches the stack manager.
    - A provider serializes work on an instance with the instance locks
      (pkg/provider/locks.go); the registry (pkg/provider/registry.go) finds the
      provider of an instance.
    - The job manager (pkg/job) runs long operations on worker goroutines.
    - The stack manager (pkg/orchestration/stack.go) computes the deployment
      order, creates and starts instances through their providers, records them
      in the store (internal/datastore/stacks.go), publishes them in the service
      registry (discovery.go), registers health checks and restart policies
      (health.go), and undoes all this when a step fails.
    - An HTTP request passes the middleware (internal/api/middleware.go): recovery,
      logging, limits, authentication (internal/auth) and permissions; the instance
      handlers (instance_handlers.go) then act on the providers and the tables.

    ** Files

    - [Prelude] (this file): Go errors and results, early-return bodies, sorting
      by a key, sums over maps, the hint database [go].  [GoStrings], [GoTime],
      [Regexp], [GoNet], [GoPath]: what the source uses of Go's strings, unicode/utf8,
      time, regexp, net and path/filepath packages, as executable functions with the
      lemmas about them (a regular expression is matched by derivatives, and the
      matcher is proved against the language).
    - [ProviderTypes], [ManifestTypes]: the structs of pkg/provider/provider.go
      and pkg/manifest/types.go, field by field; [errors.go]'s wrapper.
    - [Validation], [ValidationFacts]: every validator of validation.go, one
      definition each, its guards in the order of the source.
    - [ZfsNames]: zfs.go and pkg/dataset.  [PathConfine]: path.go.
    - [InstanceLocks], [InstanceLocksFacts]: locks.go.  The lock map is a heap of
      reference-counted entries; [Acquire] and [AcquireAll] are given once as
      sequential functions and once cut at their lock operations, as the step
      relation of any number of goroutines.
    - [Jobs], [JobsFacts]: job.go.  Jobs are addresses in a heap; [step]
      interleaves callers, workers, the cleanup and shutdown, and [None] is a
      panic nothing recovers (send on or close of a closed channel).
    - [Registry]: registry.go and registry_exec.go; the classes [IsProvider],
      [ProviderOps] and [MayExec] are the provider interfaces.
    - [Discovery]: discovery.go.  [Health], [HealthFacts]: health.go, with check
      loops, callers and drainers interleaved in [hstep].
    - [ManifestParse]: parser.go.  [DepCycle]: the validator's search for dependency
      cycles.  [ManifestValidator], [ManifestFacts]: validator.go, as lists of errors in
      the order the code appends them, and what an accepted manifest guarantees.
    - [DepOrder], [DepOrderFacts]: [buildDependencyOrder]; each loop over a map
      takes the order Go happens to visit it in as an argument.
    - [StackStore]: the class [StackStore] with its laws [StackStoreLaws], and
      the two SQLite tables as the instance that keeps them.
    - [Stack]: the stack manager, one definition per method, over the state of
      the manager, its collaborators and the machine.  [StackFacts] proves
      deployment and destruction against the interfaces ([ProviderLaws] for
      providers, [StackStoreLaws] for stores); [StackRuns] gives a sample machine
      that keeps the laws and evaluates runs on it; [StackPersist] relates what
      is written to what is read back after a restart.
    - [Host]: the class of what the code asks of the machine (processes, pipelines, files).
      [GoText], [GoDuration]: splitting, number texts and durations, with their round trips.
    - [Backup]: backup.go over [Host] and [BackupStore]; [BackupFacts], [BackupRetention]:
      its invariants.  [InstanceStore], [InstanceStoreFacts]: datastore.go, jobs.go,
      apikeys.go and backups.go as tables, which are an instance of [BackupStore];
      [BackupRestart] composes the two; [BackupRuns] evaluates both on a sample machine.
    - [GoHttp]: requests, what a handler writes, addresses and case folding.  [Auth],
      [AuthFacts]: auth.go, the keys as records in a heap, bcrypt as a class.
      [Middleware], [MiddlewareFacts], [AuthLimits]: middleware.go, each middleware a
      function from handlers to handlers, rate limiters as a class.  [ApiKeys],
      [ApiKeysFacts]: auth_key_handler.go and the start-up of server.go; [AuthRuns]
      evaluates them with a sample hash and a token bucket.
    - [InstanceHandlers], [InstanceHandlersFacts]: instance_handlers.go and
      what server.go does with instances, over the tables, the providers
      ([ProviderOps], [ProviderQueries]) and the firewall ([FirewallOps]).

    - [Files]: files read and written whole, as a class with laws, and the write through a
      temporary file.  [GoWords]: fields and lines of texts made of words.  [FwRules], [Pf],
      [PfFacts]: rules.go, pf.go and proxy.go; a rule file is a text, read as a list of blocks.
      [FwManager], [FwManagerFacts]: manager.go over the class [FwBackend], of which PF,
      nftables.go and iptables.go are instances, and [FwFrame], what a backend leaves alone.
      [FirewallRuns] evaluates them on a sample machine.
    - [CloudInit]: cloudinit.go, with a reader of quoted scalars.  [Convert], [ConvertFacts]:
      convert.go.  [Podman], [PodmanOps], [PodmanSnapshots], [PodmanFacts]: the podman
      provider over its cache of containers and the machine.
    - The jail provider (pkg/provider/jail), over [Host], [FileOps] and the class
      [JailFirewall].  [JailParams]: parameters.go.  [JailNet]: network_manager.go, dhcp.go
      and the daemon's configuration (pkg/config).  [JailConfig]: zfs.go and config.go.  [JailHooks]: hooks.go.  [JailRctl]: jail_rctl.go.  [JailMounts]: the
      fstab, mounts and disks, volumes.go.  [JailImages]: image.go,
      linux.go, crossarch.go.  [JailOps]: create.go, start.go, stop.go, delete.go,
      lifecycle.go, reconfigure.go, state.go.  [JailFeatures]: snapshot.go, clone.go,
      autostart.go, vnet.go, multinic.go, services.go, packages.go, jail_admin.go,
      traffic.go.  [JailFacts], [JailRctlFacts], [JailNetFacts],
      [JailStartFacts] hold the theorems.

    ** What the theorems show

    - Stacks: deployment is all or nothing (C1), destruction removes everything
      or keeps the record (C5), a deployed stack is restored after a restart
      (C34); the order is a topological order exactly when there is one
      (C2), the same for every order of Go's maps
      ([dependency_order_deterministic]), and each error means what it says
      ([dependency_errors_explained]).
    - Manifests: an accepted stack can be deployed in order (C26), its
      instances have ids no other accepted stack has ([accepted_stacks_have_distinct_ids]), and the
      validator's cycle search agrees with the deployment order (C27).
    - Locks: mutual exclusion (C3), no deadlock of [AcquireAll] (C30); [idle_entries_are_dropped],
      [acquire_all_round_trip].
    - Jobs: an accepted job runs exactly once (C4), its status only moves forward
      (C28), nothing panics (C29), the hook hears of each
      terminal state ([hook_reports_terminal_states]).
    - Health: the status is a function of the last checks ([health_after_checks]), transitions are
      delivered in order through a bounded queue ([transitions_delivered_in_order]), at most one
      loop per instance runs ([one_live_loop]), restarts stay within their budget
      (C37).
    - Discovery: the registry implements a map from stack and service ([registry_refines_map]),
      names resolve ([registered_service_resolves]); listings and environments do not depend on
      map order and generate only acceptable variables ([list_is_deterministic],
      [generated_env_is_accepted]).
    - Validation: what accepted names (C38), specifications
      ([accepted_spec_guarantees]), networks ([accepted_network_guarantees]), SSH destinations
      ([ssh_destination_safe]), variables ([accepted_env_is_safe]) and provider settings
      ([provider_config_walk]) guarantee.  Paths are confined by resolved components
      (C31, C32).
    - Backups: no operation, retention included, ever removes what an incremental backup
      builds on (C6); retention keeps every backup its policy promises
      (C7); one schedule runs per instance and channels are closed once
      ([one_schedule_per_instance]); a configuration is restored after a restart
      ([configuration_survives_restart]).
    - The datastore: keys, references and columns agree in every reachable state
      (C36), renaming is atomic ([rename_all_or_nothing]), no job is left
      running after a restart ([restart_closes_out_jobs]).
    - The API: a handler behind the middleware runs only for a live key with the permission its
      route demands (C11, C13), which is the exec
      permission for every route that runs commands ([exec_routes_need_exec_permission]); a
      client cannot choose the address it is counted under ([client_address_not_forgeable])
      and gets a bounded number of guesses (C35); a created key survives a
      restart ([created_key_survives_restart]); a response has one status and no handler's
      panic reaches the client half-written ([responses_are_whole]).
    - Instances: creation leaves no instance without a record (C12), and a
      configuration that reaches into the host needs an admin key
      (C14).
    - The firewall: identifiers identify mappings (C10), the operations on the
      text of a rule file are those on its list of blocks (C8), what is
      written for a mapping is listed as it was ([written_mappings_are_listed]) and loaded once
      ([loaded_rules_are_distinct]); the manager's files follow the accepted requests
      (C9) and hold valid rules only ([stored_rules_stay_valid]).
    - Manifests reach providers: a workload and the stack instance that says the same become the
      same specification (C21), a volume on a host path always counts as
      privileged (C20), user data is read below its directory
      ([user_data_is_confined]), and no value leaves its YAML scalar
      (C22).
    - Podman: a restore never loses the container (C23), the cache keeps
      every record under its name (C24), snapshot handles are accepted as
      they were given out ([snapshot_handles_are_accepted]), a recreated container has the
      environment of the original ([recreated_environment_is_whole]).
    - Jails: a start that fails has destroyed every interface and jail it created
      (C15); a handle reaches the dataset and snapshots of its own jail only
      (C17); a configuration without admin rights leaves every
      privileged parameter at its default (C18); limits
      are replaced whole or restored (C16); an address is leased to
      one jail only (C19) and every pool is enumerated (C33).
    - Where the code and its comments part: limits no jail is started under
      (C39), numbers a jail never sees ([stack_numbers_lost_on_jails]), settings a podman container never sees
      (C25), seeds written though declined ([declined_seed_is_written]), rules that lose their identifier
      (C40), stacks that cannot be destroyed
      ([missing_instance_blocks_destroy]), policies that survive a rollback
      ([rollback_keeps_restart_policy]), negative retention counts
      ([negative_retention_deletes_all]), canceled jobs that turn failed
      ([panic_overwrites_cancel]).

    ** Bounds, fuel and integers

    [resolve_loop] has as fuel one more than the length of the path, and C32
    shows it never runs out; [kahn] has the number of instances, and
    C2 shows that it always returns; [dfs] has one more than the
    number of instances, and C27 shows that it always returns;
    [pool_addresses] has 2^16+1, as no larger pool is entered, and C33
    shows that it ends; [duration_loop] and [blank_loop] have the length of the text, which each turn
    shortens.  All other recursion is structural.  Integers are [Z]:
    the counters modelled ([refs], restart and failure counts, deploy order) are
    far from the 64-bit range in any run, and sizes that a request chooses are
    compared before they are used.  Progress values are IEEE floats
    ([SpecFloat]), since NaN matters, and so are the fractions of sizes and
    durations.  Times are nanoseconds, given by the
    caller of each operation.

    ** What is not modelled

    Log output, the HTTP transport, SQL syntax and the processes the providers run.  Parameters
    stand for [filepath.EvalSymlinks], [encoding/json] on handles and manifests,
    [yaml.Marshal], [os.Root] and the value of an [int64] conversion out of range.
    The methods of the stack manager run one at a time here: two that overlap on
    one stack are not covered, and so with the operations of a provider, each of which holds
    the lock of its instance.  Not covered are the image catalog, the bhyve, qemu, vfkit and
    container providers, the storage and network managers, and of the jail provider consoles,
    export and metrics. *)

From stdpp Require Import base list gmap strings sorting relations.
From Stdlib Require Import ZArith Lia.

(** ** Go errors

    A Go [error] is a value: a package-level sentinel ([errors.New]), a
    formatted message ([fmt.Errorf] without [%w]), a message wrapping another
    error ([%w]), a struct of a named error type that unwraps to another error,
    or several joined ones ([errors.Join]).  Format strings and
    their arguments are kept apart, so no rendering is needed. *)
Inductive error :=
  | Sentinel (name : string)
  | Errorf (fmt : string) (args : list string)
  | Wrapf (fmt : string) (args : list string) (inner : error)
  | Typed (ty : string) (fields : list string) (inner : error)
  | Joined (errs : list error).

(** [errors.Is err target] for a sentinel [target]: the chain of wrapped
    errors (and every joined branch) is searched. *)
Fixpoint errors_Is (e : error) (target : string) : bool :=
  match e with
  | Sentinel n => bool_decide (n = target)
  | Errorf _ _ => false
  | Wrapf _ _ e' | Typed _ _ e' => errors_Is e' target
  | Joined es => existsb (fun e' => errors_Is e' target) es
  end.

(** [errors.As err &target] for a struct error type: whether the chain holds a
    value of that type. *)
Fixpoint errors_As (e : error) (ty : string) : bool :=
  match e with
  | Sentinel _ | Errorf _ _ => false
  | Wrapf _ _ e' => errors_As e' ty
  | Typed t _ e' => bool_decide (t = ty) || errors_As e' ty
  | Joined es => existsb (fun e' => errors_As e' ty) es
  end.

(** A [(T, error)] pair whose value is only meaningful when the error is nil. *)
Inductive result (A : Type) :=
  | Ok (a : A)
  | Err (e : error).
Arguments Ok {A} a.
Arguments Err {A} e.

Definition is_ok {A} (r : result A) : bool :=
  match r with Ok _ => true | Err _ => false end.

Declare Scope go_scope.
Delimit Scope go_scope with go.
Notation "'let*' x ':=' c 'in' k" :=
  (match c with Ok x => k | Err e => Err e end)
  (at level 10, x pattern, c at level 100, k at level 200) : go_scope.

(** ** Functions that return only an error

    [None] is the nil error.  A Go body made of guards that return early is a
    list of checks, and the first one that fails is the result. *)
Fixpoint first_error (checks : list (option error)) : option error :=
  match checks with
  | [] => None
  | Some e :: _ => Some e
  | None :: rest => first_error rest
  end.

Definition fail_if (b : bool) (e : error) : option error :=
  if b then Some e else None.

(** [if err := c; err != nil { return fmt.Errorf(fmt, err) }]. *)
Definition wrap (fmt : string) (args : list string) (c : option error) : option error :=
  option_map (Wrapf fmt args) c.

(** A block guarded by a condition: it runs its checks only when [b] holds. *)
Definition when (b : bool) (c : option error) : option error :=
  if b then c else None.

(** [for _, x := range l { if err := f(x); err != nil { return err } }]. *)
Definition for_each {A} (f : A -> option error) (l : list A) : option error :=
  first_error (map f l).

Definition is_nil (c : option error) : bool :=
  match c with None => true | Some _ => false end.

Create Rewrite HintDb go.

Lemma first_error_None checks :
  first_error checks = None <-> Forall (fun c => c = None) checks.
Proof.
  induction checks as [|[e|] checks IH]; simpl; split; intros H;
    try done; try constructor; try (by inversion H); try (by apply IH).
  inversion H; subst. by apply IH.
Qed.

(** The first failing check decides the error. *)
Lemma first_error_Some checks e :
  first_error checks = Some e <->
  exists pre post, checks = pre ++ Some e :: post /\ Forall (fun c => c = None) pre.
Proof.
  split.
  - induction checks as [|[e'|] checks IH]; simpl; intros H; simplify_eq.
    + by exists [], checks.
    + destruct (IH H) as (pre & post & -> & Hpre).
      exists (None :: pre), post. split; [done|by constructor].
  - intros (pre & post & -> & Hpre). induction Hpre; simpl; [done|by subst].
Qed.

Lemma first_error_cons_None c checks :
  first_error (c :: checks) = None <-> c = None /\ first_error checks = None.
Proof. destruct c; simpl; naive_solver. Qed.

Lemma first_error_nil : first_error [] = None <-> True.
Proof. done. Qed.

Lemma first_error_app xs ys :
  first_error (xs ++ ys) =
  match first_error xs with Some e => Some e | None => first_error ys end.
Proof. induction xs as [|[e|] xs IH]; simpl; done. Qed.

Lemma fail_if_None b e : fail_if b e = None <-> b = false.
Proof. destruct b; simpl; naive_solver. Qed.

Lemma wrap_None fmt args c : wrap fmt args c = None <-> c = None.
Proof. destruct c; simpl; naive_solver. Qed.

Lemma when_None b c : when b c = None <-> (b = true -> c = None).
Proof. destruct b; simpl; naive_solver. Qed.

Lemma for_each_None {A} (f : A -> option error) l :
  for_each f l = None <-> Forall (fun x => f x = None) l.
Proof. unfold for_each. rewrite first_error_None. apply Forall_map. Qed.

Lemma is_nil_true c : is_nil c = true <-> c = None.
Proof. destruct c; simpl; naive_solver. Qed.

(** A loop over a Go map visits its entries in an unspecified order: the
    verdict, though not which error is reported, is the same for every order. *)
Lemma for_each_Permutation {A} (f : A -> option error) l1 l2 :
  l1 ≡ₚ l2 -> for_each f l1 = None <-> for_each f l2 = None.
Proof. intros Hp. by rewrite !for_each_None, Hp. Qed.

#[export] Hint Rewrite @for_each_None : go.
#[export] Hint Rewrite first_error_cons_None first_error_nil fail_if_None wrap_None
  when_None negb_false_iff negb_true_iff : go.

(** Unfolds an accepted validator into the conjunction of its guards. *)
Ltac accepted := autorewrite with go.
Ltac accepted_in H := autorewrite with go in H.

(** ** Booleans and decisions *)

(** Case analysis on every boolean test in the goal or a hypothesis. *)
Ltac case_if :=
  match goal with
  | |- context [if ?b then _ else _] => let E := fresh "E" in destruct b eqn:E
  | H : context [if ?b then _ else _] |- _ => let E := fresh "E" in destruct b eqn:E
  end.

Ltac case_match_all :=
  repeat (case_match; simplify_eq/=; try done).

Lemma existsb_exists_iff {A} (f : A -> bool) l :
  existsb f l = true <-> exists x, x ∈ l /\ f x = true.
Proof.
  rewrite existsb_exists. split; intros (x & Hx & Hf); exists x;
    split; try done; by apply list_elem_of_In.
Qed.

Lemma existsb_false_iff {A} (f : A -> bool) l :
  existsb f l = false <-> Forall (fun x => f x = false) l.
Proof.
  induction l as [|x l IH]; simpl.
  - split; [constructor|done].
  - rewrite orb_false_iff, IH, Forall_cons. done.
Qed.

Lemma forallb_true_iff {A} (f : A -> bool) l :
  forallb f l = true <-> Forall (fun x => f x = true) l.
Proof.
  induction l as [|x l IH]; simpl.
  - split; [constructor|done].
  - rewrite andb_true_iff, IH, Forall_cons. done.
Qed.

(** ** Boolean filters *)

Lemma NoDup_map_filter {A B} (f : A -> B) (p : A -> bool) l :
  NoDup (map f l) -> NoDup (map f (List.filter p l)).
Proof.
  induction l as [|x l IH]; simpl; [done|]. intros [Hx Hl]%NoDup_cons.
  destruct (p x); simpl; [|by apply IH]. apply NoDup_cons. split; [|by apply IH].
  intros (y & E & Hy%list_elem_of_In)%list_elem_of_fmap. apply Hx. apply list_elem_of_fmap.
  exists y. split; [done|]. apply list_elem_of_In. apply filter_In in Hy as [Hy _]. done.
Qed.

Lemma filter_perm {A} (p : A -> bool) l1 l2 : l1 ≡ₚ l2 -> List.filter p l1 ≡ₚ List.filter p l2.
Proof.
  induction 1; simpl; repeat case_match; try constructor; try done; by etrans.
Qed.

(** ** Sorting Go strings

    [sort.Strings] orders by bytes, which is [String.le]; any sorted
    permutation is the same list, so the sorting algorithm does not matter. *)
Definition sort_strings (l : list string) : list string := merge_sort String.le l.

Lemma sort_strings_perm l : sort_strings l ≡ₚ l.
Proof. apply merge_sort_Permutation. Qed.

Lemma sort_strings_sorted l : StronglySorted String.le (sort_strings l).
Proof. apply (StronglySorted_merge_sort _). Qed.

Lemma sort_strings_proper l1 l2 : l1 ≡ₚ l2 -> sort_strings l1 = sort_strings l2.
Proof.
  intros Hp. apply (StronglySorted_unique String.le); auto using sort_strings_sorted.
  by rewrite !sort_strings_perm.
Qed.

#[export] Instance sort_strings_Proper :
  Proper ((≡ₚ) ==> (=)) sort_strings.
Proof. intros l1 l2 H. by apply sort_strings_proper. Qed.

Lemma elem_of_sort_strings x l : x ∈ sort_strings l <-> x ∈ l.
Proof. by rewrite sort_strings_perm. Qed.

Lemma length_sort_strings l : length (sort_strings l) = length l.
Proof. by rewrite sort_strings_perm. Qed.

Lemma NoDup_sort_strings l : NoDup (sort_strings l) <-> NoDup l.
Proof. by rewrite sort_strings_perm. Qed.

(** ** Sums over goroutines *)

Section total.
Context {A : Type} (f : A -> nat).

Definition total (m : gmap nat A) : nat := map_fold (fun _ a acc => f a + acc) 0 m.

Lemma total_insert_new m k a : m !! k = None -> total (<[k := a]> m) = f a + total m.
Proof.
  intros H. unfold total. rewrite map_fold_insert_L; [done| |done].
  intros. lia.
Qed.

Lemma total_delete m k a : m !! k = Some a -> total m = f a + total (delete k m).
Proof.
  intros H. rewrite <- (insert_delete_id m k a H) at 1. apply total_insert_new.
  apply lookup_delete_eq.
Qed.

(** Replacing one summand. *)
Lemma total_update m k a b : m !! k = Some a -> total (<[k := b]> m) + f a = total m + f b.
Proof.
  intros H. rewrite (total_delete m k a H), <- (insert_delete_eq m).
  rewrite total_insert_new by apply lookup_delete_eq. lia.
Qed.

Lemma total_ge m k a : m !! k = Some a -> f a <= total m.
Proof. intros H. rewrite (total_delete m k a H). lia. Qed.

Lemma total_ge_two m k1 k2 a b :
  k1 <> k2 -> m !! k1 = Some a -> m !! k2 = Some b -> f a + f b <= total m.
Proof.
  intros Hne H1 H2. rewrite (total_delete m k1 a H1).
  enough (f b <= total (delete k1 m)) by lia. apply (total_ge _ k2).
  by rewrite lookup_delete_ne.
Qed.

Lemma total_zero m : map_Forall (fun _ a => f a = 0) m -> total m = 0.
Proof.
  induction m as [|k a m Hk IH] using map_ind; intros H; [done|].
  rewrite total_insert_new by done. apply map_Forall_insert in H as [Ha Hm]; [|done].
  rewrite Ha, (IH Hm). done.
Qed.

Lemma total_pos m : 0 < total m -> exists k a, m !! k = Some a /\ 0 < f a.
Proof.
  induction m as [|k a m Hk IH] using map_ind; [unfold total; rewrite map_fold_empty; lia|].
  rewrite total_insert_new by done. intros H. destruct (decide (f a = 0)) as [E|E].
  - destruct IH as (k' & a' & H1 & H2); [lia|]. exists k', a'. split; [|done].
    rewrite lookup_insert_ne; [done|]. intros ->. congruence.
  - exists k, a. rewrite lookup_insert_eq. split; [done|lia].
Qed.
End total.

(** ** Sorting records by a key

    [sort.Slice] with a comparison of keys: when no two elements share a key,
    the result does not depend on the sorting algorithm or the input order. *)

Section sort_by.
Context {A K : Type} (key : A -> K) (R : K -> K -> Prop).
Context `{!RelDecision R, !Transitive R, !Total R, !AntiSymm (=) R}.

Definition by_key (a b : A) : Prop := R (key a) (key b).

#[local] Instance by_key_dec : RelDecision by_key.
Proof. intros a b. unfold by_key. apply _. Defined.
#[local] Instance by_key_trans : Transitive by_key.
Proof. intros a b c. unfold by_key. apply transitivity. Qed.
#[local] Instance by_key_total : Total by_key.
Proof. intros a b. unfold by_key. apply (base.total R). Qed.

Definition sort_by (l : list A) : list A := merge_sort by_key l.

Lemma sort_by_perm l : sort_by l ≡ₚ l.
Proof. apply merge_sort_Permutation. Qed.

Lemma sort_by_sorted l : StronglySorted by_key (sort_by l).
Proof. apply (StronglySorted_merge_sort _). Qed.

Lemma StronglySorted_map_key l : StronglySorted by_key l -> StronglySorted R (map key l).
Proof.
  induction 1 as [|a l Hs IH Ha]; simpl; constructor; [done|]. by rewrite Forall_map.
Qed.

Lemma StronglySorted_of_keys l : StronglySorted R (map key l) -> StronglySorted by_key l.
Proof.
  induction l as [|a l IH]; simpl; [constructor|]. intros Hs. inversion_clear Hs as [|? ? Hl Ha].
  constructor; [auto|]. by rewrite Forall_map in Ha.
Qed.

(** Elements of a list with distinct keys are determined by their keys. *)
Lemma same_keys_eq l1 l2 :
  NoDup (map key l1) -> l2 ⊆ l1 -> map key l1 = map key l2 -> l1 = l2.
Proof.
  intros Hnd Hsub Heq. apply list_eq. intros i.
  assert (key <$> l1 !! i = key <$> l2 !! i) as Hi.
  { change (fmap key (l1 !! i) = fmap key (l2 !! i)).
    rewrite <- !list_lookup_fmap. change (map key l1 !! i = map key l2 !! i). by rewrite Heq. }
  destruct (l1 !! i) as [a|] eqn:E1, (l2 !! i) as [b|] eqn:E2; simplify_eq/=; [|done].
  f_equal. assert (b ∈ l1) as [k Hk]%list_elem_of_lookup by (by eapply Hsub, list_elem_of_lookup_2).
  assert (i = k) as <-; [|congruence].
  eapply (NoDup_lookup (map key l1)); [done| |].
  - change (map key l1) with (key <$> l1). rewrite list_lookup_fmap, E1. reflexivity.
  - change (map key l1) with (key <$> l1). rewrite list_lookup_fmap, Hk. simpl. congruence.
Qed.

Lemma sorted_by_unique l1 l2 :
  NoDup (map key l1) -> l1 ≡ₚ l2 -> StronglySorted by_key l1 -> StronglySorted by_key l2 -> l1 = l2.
Proof.
  intros Hnd Hp H1 H2. apply same_keys_eq; [done| |].
  - intros x Hx. by rewrite Hp.
  - apply (StronglySorted_unique R); auto using StronglySorted_map_key. by rewrite Hp.
Qed.
End sort_by.

(** Pairs of strings in lexicographic order. *)
Definition pair_le (a b : string * string) : Prop :=
  if decide (a.1 = b.1) then String.le a.2 b.2 else String.le a.1 b.1.

#[export] Instance pair_le_dec : RelDecision pair_le.
Proof. intros a b. unfold pair_le. case_decide; apply _. Defined.

#[export] Instance pair_le_total : Total pair_le.
Proof.
  intros a b. unfold pair_le. destruct (decide (a.1 = b.1)) as [E|E].
  - rewrite decide_True by done. apply (base.total String.le).
  - rewrite decide_False by congruence. apply (base.total String.le).
Qed.

#[export] Instance pair_le_antisymm : AntiSymm (=) pair_le.
Proof.
  intros [a1 a2] [b1 b2]. unfold pair_le. simpl. destruct (decide (a1 = b1)) as [->|E].
  - rewrite decide_True by done. intros H1 H2. f_equal. by apply (anti_symm String.le).
  - rewrite decide_False by congruence. intros H1 H2. exfalso. apply E. by apply (anti_symm String.le).
Qed.

#[export] Instance pair_le_trans : Transitive pair_le.
Proof.
  intros [a1 a2] [b1 b2] [c1 c2]. unfold pair_le. simpl.
  destruct (decide (a1 = b1)) as [->|E1], (decide (b1 = c1)) as [->|E2].
  - apply transitivity.
  - done.
  - by rewrite decide_False.
  - intros H1 H2. rewrite decide_False; [by etrans|]. intros <-.
    apply E1. by apply (anti_symm String.le).
Qed.
