(* ===== verification/Host.v ===== *)
(** * The host: processes, pipelines and files

    Several components run external programs ([os/exec]) and touch the file
    system ([os], [path/filepath]).  They are written here against the class
    [Host] of a machine of type [W]: a command is its argument vector with the
    files its standard streams are connected to, and running one changes the
    machine and yields what the program printed and the error [Run] reports.
    Nothing is assumed of the programs in the class; what a theorem needs of one
    is a hypothesis of the theorem. *)

From stdpp Require Import base list gmap strings.
From Stdlib Require Import ZArith.
From S2P Require Import Prelude.

Local Open Scope Z_scope.

(** [exec.Command(argv[0], argv[1:]...)] with its environment (nil: the
    daemon's) and the files on its standard input and output. *)
Record cmd := {
  argv : list string;
  cmd_env : option (list string);
  cmd_stdin : option string;
  cmd_stdout : option string
}.

Definition Command (argv : list string) : cmd :=
  {| argv := argv; cmd_env := None; cmd_stdin := None; cmd_stdout := None |}.
Definition CommandTo (argv : list string) (file : string) : cmd :=
  {| argv := argv; cmd_env := None; cmd_stdin := None; cmd_stdout := Some file |}.
Definition CommandFrom (argv : list string) (file : string) : cmd :=
  {| argv := argv; cmd_env := None; cmd_stdin := Some file; cmd_stdout := None |}.

(** What a finished command leaves: its two streams, the two interleaved
    ([CombinedOutput]), and the error. *)
Record exit := { ex_stdout : string; ex_stderr : string; ex_combined : string; ex_err : option error }.

(** A producer piped into a consumer.  The code creates the pipe, starts the
    consumer, then the producer, and waits for both. *)
Inductive piped :=
  | NoPipe (e : error)
  | ConsumerNotStarted (e : error)
  | ProducerNotStarted (e : error) (consumer_out : string)
  | BothWaited (producer_err consumer_err : option error) (producer_out consumer_out : string).

(** [os.FileInfo], as far as it is looked at. *)
Record FileInfo := { fi_size : Z; fi_isdir : bool; fi_regular : bool; fi_perm : Z; fi_uid : option Z }.

Definition ErrNotExist : string := "fs.ErrNotExist".

Class Host (W : Type) := {
  exec : W -> cmd -> W * exit;
  pipeline : W -> cmd -> cmd -> W * piped;
  LookPath : W -> string -> option error;
  Stat : W -> string -> result FileInfo;
  Lstat : W -> string -> result FileInfo;
  EvalSymlinks : W -> string -> result string;
  MkdirAll : W -> string -> W * option error;
  CreateExcl : W -> string -> W * option error;
  Close : W -> string -> W * option error;
  OpenRead : W -> string -> option error;
  Remove : W -> string -> W * option error;
  Geteuid : W -> Z
}.

(** [if _, err := cmd.CombinedOutput(); err != nil]. *)
Definition succeeded (x : exit) : bool := is_nil (ex_err x).
