(* ===== verification/GoStrings.v ===== *)
(** * Go strings, bytes and UTF-8

    A Go string is a sequence of bytes: a [string] here is a sequence of
    8-bit [ascii] characters.  This file holds what the sources use of the
    packages [strings], [strconv] and [unicode/utf8]. *)

From stdpp Require Import base list sets strings.
From Stdlib Require Import Ascii ZArith Lia.
From S2P Require Import Prelude.

Local Open Scope Z_scope.

#[global] Arguments Ascii.eqb : simpl never.

(** ** Bytes *)

Definition bytes (s : string) : list ascii := String.list_ascii_of_string s.
Definition of_bytes (l : list ascii) : string := String.string_of_list_ascii l.

Lemma of_bytes_bytes s : of_bytes (bytes s) = s.
Proof. apply String.string_of_list_ascii_of_string. Qed.

Lemma bytes_of_bytes l : bytes (of_bytes l) = l.
Proof. apply String.list_ascii_of_string_of_list_ascii. Qed.

#[export] Instance bytes_inj : Inj (=) (=) bytes.
Proof. intros s t H. by rewrite <- (of_bytes_bytes s), H, of_bytes_bytes. Qed.

Lemma bytes_app s t : bytes (s +:+ t) = bytes s ++ bytes t.
Proof. unfold bytes. induction s as [|c s IH]; simpl; [done|]. by rewrite IH. Qed.

Lemma of_bytes_app l k : of_bytes (l ++ k) = of_bytes l +:+ of_bytes k.
Proof. unfold of_bytes. induction l as [|c l IH]; simpl; [done|]. by rewrite IH. Qed.

(** The numeric value of a byte. *)
Definition code (c : ascii) : Z := Z.of_N (N_of_ascii c).

Lemma code_inj c d : code c = code d -> c = d.
Proof.
  unfold code. intros H. apply N2Z.inj in H.
  by rewrite <- (ascii_N_embedding c), H, ascii_N_embedding.
Qed.

Lemma code_bound c : 0 <= code c < 256.
Proof. unfold code. pose proof (N_ascii_bounded c). lia. Qed.

(** [len s]: the number of bytes. *)
Definition len (s : string) : Z := Z.of_nat (length (bytes s)).

Lemma len_nonneg s : 0 <= len s.
Proof. unfold len. lia. Qed.

Lemma len_app s t : len (s +:+ t) = len s + len t.
Proof. unfold len. rewrite bytes_app, length_app. lia. Qed.

(** [s == t] on strings. *)
Definition streq (s t : string) : bool := bool_decide (s = t).

Lemma streq_true s t : streq s t = true <-> s = t.
Proof. apply bool_decide_eq_true. Qed.

Lemma streq_false s t : streq s t = false <-> s <> t.
Proof. apply bool_decide_eq_false. Qed.

Definition between (lo hi : ascii) (c : ascii) : bool :=
  (code lo <=? code c) && (code c <=? code hi).

Definition ascii_in (l : list ascii) (c : ascii) : bool :=
  existsb (Ascii.eqb c) l.

Lemma ascii_in_true l c : ascii_in l c = true <-> c ∈ l.
Proof.
  unfold ascii_in. rewrite existsb_exists_iff. split.
  - intros (d & Hd & E). apply Ascii.eqb_eq in E. by subst.
  - intros H. exists c. split; [done|apply Ascii.eqb_refl].
Qed.

Lemma ascii_in_false l c : ascii_in l c = false <-> c ∉ l.
Proof. rewrite <- not_true_iff_false, ascii_in_true. done. Qed.

(** Facts about single bytes are decided by running through all 256 of them. *)
Definition all_ascii : list ascii := map ascii_of_nat (seq 0 256).

Lemma all_ascii_complete c : c ∈ all_ascii.
Proof.
  unfold all_ascii. apply list_elem_of_fmap. exists (nat_of_ascii c).
  split; [by rewrite ascii_nat_embedding|].
  apply list_elem_of_In, in_seq. pose proof (nat_ascii_bounded c). lia.
Qed.

Lemma forall_ascii (P : ascii -> bool) :
  forallb P all_ascii = true -> forall c, P c = true.
Proof.
  rewrite forallb_true_iff, Forall_forall. intros H c. apply H, all_ascii_complete.
Qed.

(** An implication between two byte classes, checked on all bytes. *)
Lemma ascii_implies (P Q : ascii -> bool) :
  forallb (fun c => if P c then Q c else true) all_ascii = true ->
  forall c, P c = true -> Q c = true.
Proof.
  intros H c Hc. pose proof (forall_ascii (fun c => if P c then Q c else true) H c) as Hi.
  simpl in Hi. by rewrite Hc in Hi.
Qed.

(** ** Package [strings] *)

Fixpoint has_prefix_l (p s : list ascii) : bool :=
  match p, s with
  | [], _ => true
  | c :: p', d :: s' => Ascii.eqb c d && has_prefix_l p' s'
  | _ :: _, [] => false
  end.

Fixpoint contains_l (sub s : list ascii) : bool :=
  has_prefix_l sub s ||
  match s with [] => false | _ :: s' => contains_l sub s' end.

(** [strings.HasPrefix], [strings.Contains], [strings.ContainsAny] (for a set
    of ASCII characters, where matching runes and matching bytes coincide),
    [strings.ContainsRune] of the NUL rune. *)
Definition HasPrefix (s p : string) : bool := has_prefix_l (bytes p) (bytes s).
Definition Contains (s sub : string) : bool := contains_l (bytes sub) (bytes s).
Definition ContainsAny (s chars : string) : bool :=
  existsb (ascii_in (bytes chars)) (bytes s).
Definition ContainsNul (s : string) : bool := ascii_in (bytes s) zero.

Lemma has_prefix_l_spec p s : has_prefix_l p s = true <-> exists t, s = p ++ t.
Proof.
  revert s. induction p as [|c p IH]; intros s; simpl.
  - split; [by exists s|done].
  - destruct s as [|d s]; simpl.
    + split; [done|intros [t [=]]].
    + rewrite andb_true_iff, IH, Ascii.eqb_eq. split.
      * intros [-> [t ->]]. by exists t.
      * intros [t [= -> ->]]. eauto.
Qed.

Lemma contains_l_spec sub s :
  contains_l sub s = true <-> exists u v, s = u ++ sub ++ v.
Proof.
  induction s as [|c s IH]; simpl; rewrite orb_true_iff, has_prefix_l_spec.
  - split.
    + intros [[t Ht]|[=]]. by exists [], t.
    + intros (u & v & H). left.
      destruct u; simplify_eq/=. by exists v.
  - rewrite IH. split.
    + intros [[t Ht]|(u & v & ->)]; [by exists [], t|by exists (c :: u), v].
    + intros (u & v & H). destruct u as [|d u]; simplify_eq/=.
      * left. by exists v.
      * right. eauto.
Qed.

Lemma HasPrefix_spec s p : HasPrefix s p = true <-> exists t, s = p +:+ t.
Proof.
  unfold HasPrefix. rewrite has_prefix_l_spec. split.
  - intros [t Ht]. exists (of_bytes t). apply (inj bytes).
    by rewrite bytes_app, bytes_of_bytes.
  - intros [t ->]. exists (bytes t). by rewrite bytes_app.
Qed.

Lemma Contains_spec s sub : Contains s sub = true <-> exists u v, s = u +:+ (sub +:+ v).
Proof.
  unfold Contains. rewrite contains_l_spec. split.
  - intros (u & v & H). exists (of_bytes u), (of_bytes v). apply (inj bytes).
    by rewrite !bytes_app, !bytes_of_bytes.
  - intros (u & v & ->). exists (bytes u), (bytes v). by rewrite !bytes_app.
Qed.

Lemma ContainsAny_false s chars :
  ContainsAny s chars = false <-> Forall (fun c => c ∉ bytes chars) (bytes s).
Proof.
  unfold ContainsAny. rewrite existsb_false_iff.
  apply Forall_iff. intros c. apply ascii_in_false.
Qed.

Lemma ContainsNul_false s : ContainsNul s = false <-> zero ∉ bytes s.
Proof. apply ascii_in_false. Qed.

(** A single-character needle. *)
Lemma Contains_char s c :
  Contains s (String c EmptyString) = true <-> c ∈ bytes s.
Proof.
  unfold Contains. rewrite contains_l_spec. simpl. split.
  - intros (u & v & ->). set_solver.
  - intros H. apply list_elem_of_split in H as (u & v & ->). by exists u, v.
Qed.

(** Splitting at the first occurrence of a separator byte. *)
Fixpoint cut_l (c : ascii) (s : list ascii) : option (list ascii * list ascii) :=
  match s with
  | [] => None
  | d :: s' =>
      if Ascii.eqb c d then Some ([], s')
      else match cut_l c s' with
           | Some (a, b) => Some (d :: a, b)
           | None => None
           end
  end.

(** [strings.Cut(s, sep)] for a one-byte separator. *)
Definition Cut (s : string) (c : ascii) : option (string * string) :=
  match cut_l c (bytes s) with
  | Some (a, b) => Some (of_bytes a, of_bytes b)
  | None => None
  end.

Lemma cut_l_Some c s a b :
  cut_l c s = Some (a, b) <-> s = a ++ c :: b /\ c ∉ a.
Proof.
  revert a b. induction s as [|d s IH]; intros a b; simpl.
  - split; [done|]. intros [H _]. by destruct a.
  - destruct (Ascii.eqb_spec c d) as [->|Hne].
    + split.
      * intros [= <- <-]. split; [done|set_solver].
      * intros [H Hn]. destruct a; simplify_eq/=; [done|set_solver].
    + destruct (cut_l c s) as [[a' b']|] eqn:E.
      * pose proof (proj1 (IH a' b') eq_refl) as [-> Hn]. split.
        -- intros [= <- <-]. split; [done|set_solver].
        -- intros [H Hn']. destruct a as [|e a]; simplify_eq/=.
           assert (Some (a', b') = Some (a, b)) as [= -> ->]; [|done].
           apply IH. split; [done|set_solver].
      * split; [done|]. intros [H Hn]. destruct a as [|e a]; simplify_eq/=.
        assert (None = Some (a, b)) as [=]. apply IH. split; [done|set_solver].
Qed.

Lemma cut_l_None c s : cut_l c s = None <-> c ∉ s.
Proof.
  induction s as [|d s IH]; simpl; [set_solver|].
  destruct (Ascii.eqb_spec c d) as [->|Hne]; [set_solver|].
  destruct (cut_l c s) as [[a b]|] eqn:E.
  - split; [done|]. intros H. assert (c ∉ s) as H1%IH by set_solver. done.
  - split; [|done]. intros _. pose proof (proj1 IH eq_refl). set_solver.
Qed.

Lemma Cut_Some s c a b :
  Cut s c = Some (a, b) <-> s = a +:+ String c b /\ c ∉ bytes a.
Proof.
  unfold Cut. split.
  - destruct (cut_l c (bytes s)) as [[a' b']|] eqn:E; [|done].
    intros [= <- <-]. apply cut_l_Some in E as [E Hn].
    split; [|by rewrite bytes_of_bytes].
    apply (inj bytes). rewrite bytes_app. simpl. by rewrite !bytes_of_bytes.
  - intros [-> Hn]. rewrite bytes_app. simpl.
    rewrite (proj2 (cut_l_Some c _ (bytes a) (bytes b))) by done.
    by rewrite !of_bytes_bytes.
Qed.

Lemma Cut_None s c : Cut s c = None <-> c ∉ bytes s.
Proof.
  unfold Cut. rewrite <- cut_l_None.
  destruct (cut_l c (bytes s)) as [[a b]|]; naive_solver.
Qed.

(** Splitting at the last occurrence: what [strings.LastIndex] with a one-byte
    separator gives its callers, which slice on both sides of it. *)
Definition CutLast (s : string) (c : ascii) : option (string * string) :=
  match cut_l c (rev (bytes s)) with
  | Some (b, a) => Some (of_bytes (rev a), of_bytes (rev b))
  | None => None
  end.

Lemma CutLast_Some s c a b :
  CutLast s c = Some (a, b) <-> s = a +:+ String c b /\ c ∉ bytes b.
Proof.
  unfold CutLast. split.
  - destruct (cut_l c _) as [[b' a']|] eqn:E; [|done].
    intros [= <- <-]. apply cut_l_Some in E as [E Hn].
    apply (f_equal (@rev ascii)) in E. rewrite rev_involutive, rev_app_distr in E.
    simpl in E. rewrite <- app_assoc in E. simpl in E.
    split; [|by rewrite bytes_of_bytes, list_elem_of_In, <- in_rev, <- list_elem_of_In].
    apply (inj bytes). rewrite bytes_app. simpl. by rewrite !bytes_of_bytes.
  - intros [-> Hn]. rewrite bytes_app, rev_app_distr. simpl.
    rewrite <- app_assoc. simpl.
    rewrite (proj2 (cut_l_Some c _ (rev (bytes b)) (rev (bytes a)))).
    + by rewrite !rev_involutive, !of_bytes_bytes.
    + split; [done|]. by rewrite list_elem_of_In, <- in_rev, <- list_elem_of_In.
Qed.

(** [strings.CutPrefix]. *)
Fixpoint cut_prefix_l (p s : list ascii) : option (list ascii) :=
  match p, s with
  | [], _ => Some s
  | c :: p', d :: s' => if Ascii.eqb c d then cut_prefix_l p' s' else None
  | _ :: _, [] => None
  end.

Definition CutPrefix (s p : string) : option string :=
  option_map of_bytes (cut_prefix_l (bytes p) (bytes s)).

Lemma cut_prefix_l_Some p s r : cut_prefix_l p s = Some r <-> s = p ++ r.
Proof.
  revert s. induction p as [|c p IH]; intros s; simpl; [naive_solver|].
  destruct s as [|d s]; [naive_solver|].
  destruct (Ascii.eqb_spec c d) as [->|]; [rewrite IH; naive_solver|naive_solver].
Qed.

Lemma CutPrefix_Some s p r : CutPrefix s p = Some r <-> s = p +:+ r.
Proof.
  unfold CutPrefix. split.
  - destruct (cut_prefix_l _ _) as [r'|] eqn:E; [|done]. intros [= <-].
    apply cut_prefix_l_Some in E. apply (inj bytes).
    by rewrite bytes_app, bytes_of_bytes.
  - intros ->. rewrite bytes_app.
    rewrite (proj2 (cut_prefix_l_Some _ _ (bytes r)) eq_refl).
    simpl. by rewrite of_bytes_bytes.
Qed.

Fixpoint drop_while (p : ascii -> bool) (l : list ascii) : list ascii :=
  match l with
  | [] => []
  | c :: l' => if p c then drop_while p l' else l
  end.

(** [strings.TrimLeft], [strings.TrimRight] with a set of ASCII characters. *)
Definition TrimLeft (s cut : string) : string :=
  of_bytes (drop_while (ascii_in (bytes cut)) (bytes s)).
Definition TrimRight (s cut : string) : string :=
  of_bytes (rev (drop_while (ascii_in (bytes cut)) (rev (bytes s)))).

(** The encodings of the runes [unicode.IsSpace] accepts. *)
Definition space_encodings : list (list ascii) :=
  map (map ascii_of_nat)
    ([[9]; [10]; [11]; [12]; [13]; [32]; [194; 133]; [194; 160]; [225; 154; 128];
      [226; 128; 168]; [226; 128; 169]; [226; 128; 175]; [226; 129; 159]; [227; 128; 128]]
     ++ map (fun k => [226; 128; 128 + k]) (seq 0 11))%nat.

Fixpoint strip_one (encs : list (list ascii)) (s : list ascii) : option (list ascii) :=
  match encs with
  | [] => None
  | e :: encs' =>
      match cut_prefix_l e s with Some r => Some r | None => strip_one encs' s end
  end.

(** Removes leading encodings; every one is at least a byte long, so the length
    of the text bounds the number of rounds. *)
Fixpoint strip_all (fuel : nat) (encs : list (list ascii)) (s : list ascii) : list ascii :=
  match fuel with
  | O => s
  | S fuel' => match strip_one encs s with
               | Some r => strip_all fuel' encs r
               | None => s
               end
  end.

(** [strings.TrimSpace]. *)
Definition TrimSpace (s : string) : string :=
  let l := strip_all (length (bytes s)) space_encodings (bytes s) in
  of_bytes (rev (strip_all (length l) (map (@rev ascii) space_encodings) (rev l))).

(** [strings.ToUpper] on ASCII bytes. *)
Definition upper_byte (c : ascii) : ascii :=
  if between "a" "z" c then ascii_of_N (Z.to_N (code c - 32)) else c.
Definition ToUpper (s : string) : string := of_bytes (map upper_byte (bytes s)).

(** ** Decimal numbers *)

Definition is_digit (c : ascii) : bool := between "0" "9" c.

Definition digits_value (l : list ascii) : Z :=
  fold_left (fun acc c => acc * 10 + (code c - 48)) l 0.

Definition MaxInt64 : Z := 2 ^ 63 - 1.

(** [strconv.Atoi] on a non-empty run of digits: the value, or an error when
    it does not fit a 64-bit int. *)
Definition Atoi_digits (s : string) : option Z :=
  let v := digits_value (bytes s) in
  if v <=? MaxInt64 then Some v else None.

(** ** Package [unicode/utf8] *)

Definition RuneError : Z := 65533.

Definition cont_byte (lo hi : Z) (c : ascii) : bool := (lo <=? code c) && (code c <=? hi).

(** The runes [range] yields over a string, each with whether it was a valid
    encoding: an invalid byte yields [RuneError] and advances by one. *)
Fixpoint decode_runes (s : list ascii) : list (Z * bool) :=
  match s with
  | [] => []
  | c0 :: r0 =>
      let b0 := code c0 in
      let bad (_ : unit) := (RuneError, false) :: decode_runes r0 in
      if b0 <? 128 then (b0, true) :: decode_runes r0
      else if b0 <? 194 then bad tt
      else if b0 <? 224 then
        match r0 with
        | c1 :: r1 =>
            if cont_byte 128 191 c1
            then ((b0 - 192) * 64 + (code c1 - 128), true) :: decode_runes r1
            else bad tt
        | [] => bad tt
        end
      else if b0 <? 240 then
        match r0 with
        | c1 :: c2 :: r2 =>
            if cont_byte (if b0 =? 224 then 160 else 128)
                         (if b0 =? 237 then 159 else 191) c1
               && cont_byte 128 191 c2
            then ((b0 - 224) * 4096 + (code c1 - 128) * 64 + (code c2 - 128), true)
                 :: decode_runes r2
            else bad tt
        | _ => bad tt
        end
      else if b0 <? 245 then
        match r0 with
        | c1 :: c2 :: c3 :: r3 =>
            if cont_byte (if b0 =? 240 then 144 else 128)
                         (if b0 =? 244 then 143 else 191) c1
               && cont_byte 128 191 c2 && cont_byte 128 191 c3
            then ((b0 - 240) * 262144 + (code c1 - 128) * 4096
                  + (code c2 - 128) * 64 + (code c3 - 128), true) :: decode_runes r3
            else bad tt
        | _ => bad tt
        end
      else bad tt
  end.

(** [utf8.ValidString]. *)
Definition ValidString (s : string) : bool := forallb snd (decode_runes (bytes s)).

(** The runes of [for _, c := range s]. *)
Definition runes (s : string) : list Z := map fst (decode_runes (bytes s)).

(** [utf8.AppendRune]. *)
Definition byte_of (n : Z) : ascii := ascii_of_N (Z.to_N n).
Definition encode_rune (r : Z) : list ascii :=
  if (0 <=? r) && (r <=? 127) then [byte_of r]
  else if (0 <=? r) && (r <=? 2047) then [byte_of (192 + r / 64); byte_of (128 + r mod 64)]
  else if (r <? 0) || (1114111 <? r) || ((55296 <=? r) && (r <=? 57343)) then ["239"; "191"; "189"]%char
  else if r <=? 65535 then [byte_of (224 + r / 4096); byte_of (128 + (r / 64) mod 64); byte_of (128 + r mod 64)]
  else [byte_of (240 + r / 262144); byte_of (128 + (r / 4096) mod 64); byte_of (128 + (r / 64) mod 64); byte_of (128 + r mod 64)].

(** [unicode.ToLower], as far as ASCII goes: besides the capital letters, two
    runes have an ASCII lower case, the Kelvin sign and the dotted capital I.
    Every other rune above 127 lowers to one above 127, and is kept here. *)
Definition lower_rune (r : Z) : Z :=
  if (65 <=? r) && (r <=? 90) then r + 32
  else if r =? 8490 then 107 else if r =? 304 then 105 else r.

(** [strings.ToLower], with what was just said of runes above 127. *)
Definition ToLower (s : string) : string := of_bytes (flat_map encode_rune (map lower_rune (runes s))).

(** An ASCII-only string is valid UTF-8 and its runes are its bytes. *)
Lemma decode_runes_ascii l :
  Forall (fun c => code c < 128) l ->
  decode_runes l = map (fun c => (code c, true)) l.
Proof.
  induction 1 as [|c l Hc _ IH]; simpl; [done|].
  by rewrite (proj2 (Z.ltb_lt _ _) Hc), IH.
Qed.

Lemma ValidString_ascii s :
  Forall (fun c => code c < 128) (bytes s) -> ValidString s = true.
Proof.
  intros H. unfold ValidString. rewrite decode_runes_ascii by done.
  clear H. induction (bytes s); simpl; done.
Qed.

#[export] Hint Rewrite streq_true streq_false : go.
