(* ===== verification/GoText.v ===== *)
(** * Splitting, joining and numbers in text

    What the sources use of [strings] beyond [GoStrings] (splitting on a
    separator or on white space, joining, suffixes, replacement) and of [strconv]
    (decimal integers), with the round trips between printing and parsing. *)

From stdpp Require Import base list sets strings pretty.
From Stdlib Require Import Ascii ZArith Lia.
From S2P Require Import Prelude GoStrings.

Local Open Scope Z_scope.

(** ** Splitting and joining *)

(** [strings.Split(s, sep)] for a one-byte separator: never empty. *)
Fixpoint split_l (c : ascii) (s : list ascii) : list (list ascii) :=
  match s with
  | [] => [[]]
  | d :: s' =>
      if Ascii.eqb c d then [] :: split_l c s'
      else match split_l c s' with
           | w :: ws => (d :: w) :: ws
           | [] => [[d]]
           end
  end.

Fixpoint join_l (sep : list ascii) (ws : list (list ascii)) : list ascii :=
  match ws with
  | [] => []
  | [w] => w
  | w :: ws' => w ++ sep ++ join_l sep ws'
  end.

Definition Split (s : string) (c : ascii) : list string := map of_bytes (split_l c (bytes s)).
Definition JoinStrings (ws : list string) (sep : string) : string := of_bytes (join_l (bytes sep) (map bytes ws)).

Definition newline : ascii := "010"%char.
Definition Lines (s : string) : list string := Split s newline.

(** [strings.SplitN(s, sep, 2)], [strings.Cut]: at the first separator. *)
Definition SplitN2 (s : string) (c : ascii) : list string :=
  match Cut s c with Some (a, b) => [a; b] | None => [s] end.

(** [strings.Fields]: the maximal runs without white space.  [w] is the run
    being read, reversed.  White space is that of [unicode.IsSpace]; each of its
    encodings is at least a byte long. *)
Fixpoint fields_l (fuel : nat) (s w : list ascii) : list (list ascii) :=
  let flush := match w with [] => [] | _ => [rev w] end in
  match fuel, s with
  | _, [] => flush
  | O, _ => flush
  | S fuel', c :: s' =>
      match strip_one space_encodings s with
      | Some r => flush ++ fields_l fuel' r []
      | None => fields_l fuel' s' (c :: w)
      end
  end.
Definition Fields (s : string) : list string := map of_bytes (fields_l (length (bytes s)) (bytes s) []).

(** [strings.HasSuffix], [TrimPrefix], [TrimSuffix]. *)
Definition HasSuffix (s p : string) : bool := has_prefix_l (rev (bytes p)) (rev (bytes s)).
Definition TrimPrefix (s p : string) : string :=
  match cut_prefix_l (bytes p) (bytes s) with Some r => of_bytes r | None => s end.
Definition TrimSuffix (s p : string) : string :=
  match cut_prefix_l (rev (bytes p)) (rev (bytes s)) with Some r => of_bytes (rev r) | None => s end.

(** [strings.ReplaceAll] of a single byte. *)
Definition ReplaceByte (s : string) (c : ascii) (new : string) : string :=
  of_bytes (flat_map (fun d => if Ascii.eqb c d then bytes new else [d]) (bytes s)).

Lemma join_split c s : join_l [c] (split_l c s) = s.
Proof.
  induction s as [|d s IH]; simpl; [done|].
  destruct (Ascii.eqb_spec c d) as [->|Hne].
  - destruct (split_l d s) as [|w ws] eqn:E; [by destruct s; simpl in E; repeat case_match|].
    simpl in *. by rewrite <- IH.
  - destruct (split_l c s) as [|w ws] eqn:E; simpl in *; [by rewrite <- IH|].
    destruct ws; simpl in *; by rewrite <- IH.
Qed.

Lemma split_none c w : c ∉ w -> split_l c w = [w].
Proof.
  induction w as [|d w IH]; intros Hn; simpl; [done|].
  destruct (Ascii.eqb_spec c d) as [->|_]; [set_solver|]. by rewrite IH by set_solver.
Qed.

Lemma split_cons c w s : c ∉ w -> split_l c (w ++ c :: s) = w :: split_l c s.
Proof.
  induction w as [|d w IH]; intros Hn; simpl; [by rewrite Ascii.eqb_refl|].
  destruct (Ascii.eqb_spec c d) as [->|_]; [set_solver|]. by rewrite IH by set_solver.
Qed.

(** Joining and splitting are inverse on words without the separator. *)
Lemma split_l_join_l c ws : ws <> [] -> Forall (fun w => c ∉ w) ws -> split_l c (join_l [c] ws) = ws.
Proof.
  induction ws as [|w ws IH]; intros Hne Hf; [done|]. inversion_clear Hf as [|? ? Hw Hws].
  destruct ws as [|v ws]; [by apply split_none|]. change (join_l [c] (w :: v :: ws)) with (w ++ c :: join_l [c] (v :: ws)).
  rewrite split_cons by done. by rewrite IH.
Qed.

Lemma HasSuffix_spec s p : HasSuffix s p = true <-> exists t, s = t +:+ p.
Proof.
  unfold HasSuffix. rewrite has_prefix_l_spec. split.
  - intros [t Ht]. exists (of_bytes (rev t)). apply (inj bytes). rewrite bytes_app, bytes_of_bytes.
    apply (f_equal (@rev ascii)) in Ht. by rewrite rev_involutive, rev_app_distr, rev_involutive in Ht.
  - intros [t ->]. exists (rev (bytes t)). by rewrite bytes_app, rev_app_distr.
Qed.

(** ** Decimal integers *)

Definition Itoa (n : Z) : string := pretty n.

Definition ErrSyntax (s : string) : error := Typed "NumError" [s] (Sentinel "strconv.ErrSyntax").
Definition ErrRange (s : string) : error := Typed "NumError" [s] (Sentinel "strconv.ErrRange").

(** [strconv.ParseUint(s, 10, bits)]. *)
Definition ParseUint (s : string) (bits : Z) : result Z :=
  if bool_decide (bytes s = []) || negb (forallb is_digit (bytes s)) then Err (ErrSyntax s)
  else let v := digits_value (bytes s) in
       if 2 ^ bits <=? v then Err (ErrRange s) else Ok v.

(** [strconv.ParseInt(s, 10, bits)]; [strconv.Atoi] is the same at 64 bits. *)
Definition ParseInt (s : string) (bits : Z) : result Z :=
  let '(neg, l) := match bytes s with
                   | c :: l => if Ascii.eqb c "-" then (true, l)
                               else if Ascii.eqb c "+" then (false, l) else (false, c :: l)
                   | [] => (false, [])
                   end in
  if bool_decide (l = []) || negb (forallb is_digit l) then Err (ErrSyntax s)
  else let v := digits_value l in
       if neg then if 2 ^ (bits - 1) <? v then Err (ErrRange s) else Ok (- v)
       else if 2 ^ (bits - 1) <=? v then Err (ErrRange s) else Ok v.

Definition Atoi (s : string) : result Z := ParseInt s 64.

(** ** Facts on decimal rendering *)

Lemma digits_value_acc l a : fold_left (fun acc c => acc * 10 + (code c - 48)) l a = a * 10 ^ Z.of_nat (length l) + digits_value l.
Proof.
  unfold digits_value. revert a. induction l as [|c l IH]; intros a; simpl; [lia|].
  rewrite IH, (IH (0 * 10 + (code c - 48))). rewrite Nat2Z.inj_succ, Z.pow_succ_r by lia. lia.
Qed.

Lemma digits_value_cons c l : digits_value (c :: l) = (code c - 48) * 10 ^ Z.of_nat (length l) + digits_value l.
Proof. unfold digits_value at 1. simpl. rewrite digits_value_acc. lia. Qed.

Lemma digits_value_nonneg l : forallb is_digit l = true -> 0 <= digits_value l.
Proof.
  induction l as [|c l IH]; [done|]. simpl. intros [Hc Hl]%andb_true_iff. rewrite digits_value_cons.
  unfold is_digit, between in Hc. apply andb_true_iff in Hc as [H1 _]. apply Z.leb_le in H1.
  change (code "0"%char) with 48 in H1. specialize (IH Hl).
  assert (0 <= 10 ^ Z.of_nat (length l)) by (apply Z.pow_nonneg; lia). nia.
Qed.

Definition digit_char (n : N) : ascii := pretty_N_char n.

Lemma digit_char_ok n : (n < 10)%N -> is_digit (digit_char n) = true /\ code (digit_char n) = 48 + Z.of_N n.
Proof.
  intros H. destruct n as [|p]; [done|].
  do 4 (destruct p as [p|p|]; try done; try lia).
Qed.

Lemma pretty_N_go_digits x : forall s,
  exists ds, bytes (pretty_N_go x s) = ds ++ bytes s /\ forallb is_digit ds = true /\
    digits_value ds = Z.of_N x /\ ((0 < x)%N -> ds <> []).
Proof.
  induction (N.lt_wf_0 x) as [x _ IH]. intros s. destruct (decide (0 < x)%N) as [Hx|Hx].
  - rewrite pretty_N_go_step by done.
    destruct (IH (x `div` 10)%N ltac:(apply N.div_lt; lia) (String (pretty_N_char (x `mod` 10)) s)) as (ds & Hb & Hd & Hv & _).
    destruct (digit_char_ok (x `mod` 10)%N) as [Hc1 Hc2]; [apply N.mod_lt; lia|].
    exists (ds ++ [digit_char (x `mod` 10)%N]). split_and!.
    + rewrite Hb. simpl. by rewrite <- app_assoc.
    + rewrite forallb_app, Hd. simpl. by rewrite Hc1.
    + unfold digits_value in *. rewrite fold_left_app, Hv. simpl. rewrite Hc2.
      pose proof (N.div_mod x 10 ltac:(lia)). lia.
    + intros _. by destruct ds.
  - assert (x = 0%N) as -> by lia. exists []. done.
Qed.

Lemma pretty_N_digits n : exists ds, bytes (pretty n) = ds /\ ds <> [] /\ forallb is_digit ds = true /\ digits_value ds = Z.of_N n.
Proof.
  unfold pretty, pretty_N. case_decide as E.
  - subst. by exists ["0"%char].
  - destruct (pretty_N_go_digits n "") as (ds & Hb & Hd & Hv & Hne). exists ds.
    rewrite app_nil_r in Hb. split_and!; [done|apply Hne; lia|done|done].
Qed.

(** The digits of a number that is not negative. *)
Lemma Itoa_digits n : 0 <= n ->
  bytes (Itoa n) <> [] /\ forallb is_digit (bytes (Itoa n)) = true /\ digits_value (bytes (Itoa n)) = n.
Proof.
  intros Hn. unfold Itoa. destruct n as [|p|p]; [done| |lia].
  change (pretty (Z.pos p)) with (pretty (N.pos p)).
  destruct (pretty_N_digits (N.pos p)) as (ds & <- & H1 & H2 & H3). done.
Qed.

Lemma is_digit_not_sign c : is_digit c = true -> Ascii.eqb c "-" = false /\ Ascii.eqb c "+" = false.
Proof.
  intros H. pose proof (ascii_implies is_digit (fun c => negb (Ascii.eqb c "-") && negb (Ascii.eqb c "+")) ltac:(vm_compute; reflexivity) c H) as H'.
  apply andb_true_iff in H' as [H1 H2]. by apply negb_true_iff in H1, H2.
Qed.

Lemma ParseInt_Itoa n bits : 0 <= n < 2 ^ (bits - 1) -> ParseInt (Itoa n) bits = Ok n.
Proof.
  intros [Hn Hb]. destruct (Itoa_digits n Hn) as (Hne & Hd & Hv). unfold ParseInt.
  destruct (bytes (Itoa n)) as [|c l] eqn:E; [done|].
  assert (is_digit c = true) as [-> ->]%is_digit_not_sign by (simpl in Hd; by apply andb_true_iff in Hd as [? _]).
  rewrite bool_decide_eq_false_2 by done. rewrite Hd, Hv. simpl. by rewrite (proj2 (Z.leb_gt _ _)).
Qed.

Lemma ParseUint_Itoa n bits : 0 <= n < 2 ^ bits -> ParseUint (Itoa n) bits = Ok n.
Proof.
  intros [Hn Hb]. destruct (Itoa_digits n Hn) as (Hne & Hd & Hv). unfold ParseUint.
  rewrite bool_decide_eq_false_2 by done. rewrite Hd, Hv. simpl. by rewrite (proj2 (Z.leb_gt _ _)).
Qed.

Lemma Itoa_inj n m : Itoa n = Itoa m -> n = m.
Proof. apply (inj pretty). Qed.
