(* ===== verification/GoTime.v ===== *)
(** * Durations ([time.ParseDuration])

    A duration is a number of nanoseconds, an [int64].  The parser keeps
    [uint64] magnitudes, whose sum wraps, and computes fractions in [float64]. *)

From stdpp Require Import base list strings.
From Stdlib Require Import Ascii ZArith Lia Floats.SpecFloat.
From S2P Require Import Prelude GoStrings.

Local Open Scope Z_scope.

(** ** float64 *)

Definition f64_of_Z (n : Z) : spec_float := binary_normalize 53 1024 n 0 false.
Definition f64_mul : spec_float -> spec_float -> spec_float := SFmul 53 1024.
Definition f64_div : spec_float -> spec_float -> spec_float := SFdiv 53 1024.

(** The integer part of a finite float, as conversion to an integer type gives
    it when it is in range. *)
Definition f64_trunc (x : spec_float) : option Z :=
  match x with
  | S754_zero _ => Some 0
  | S754_finite neg m e =>
      let a := if e <? 0 then Z.pos m / 2 ^ (- e) else Z.pos m * 2 ^ e in
      Some (if neg then - a else a)
  | _ => None
  end.

(** ** Parsing *)

(** [leadingInt]: the value of the leading digits, or [None] above [1<<63]. *)
Fixpoint leadingInt (s : list ascii) (x : Z) : option (Z * list ascii) :=
  match s with
  | c :: s' =>
      if is_digit c then
        if 2 ^ 63 / 10 <? x then None
        else
          let x := x * 10 + (code c - 48) in
          if 2 ^ 63 <? x then None else leadingInt s' x
      else Some (x, s)
  | [] => Some (x, [])
  end.

(** [leadingFraction]: digits beyond what fits are skipped. *)
Fixpoint leadingFraction (s : list ascii) (x : Z) (scale : spec_float) (overflow : bool)
    : Z * spec_float * list ascii :=
  match s with
  | c :: s' =>
      if is_digit c then
        if overflow || ((2 ^ 63 - 1) / 10 <? x) then leadingFraction s' x scale true
        else
          let y := x * 10 + (code c - 48) in
          if 2 ^ 63 <? y then leadingFraction s' x scale true
          else leadingFraction s' y (f64_mul scale (f64_of_Z 10)) false
      else (x, scale, s)
  | [] => (x, scale, [])
  end.

(** The unit: everything up to the next digit or period. *)
Fixpoint leadingUnit (s : list ascii) : list ascii * list ascii :=
  match s with
  | c :: s' => if Ascii.eqb c "." || is_digit c then ([], s) else let '(u, r) := leadingUnit s' in (c :: u, r)
  | [] => ([], [])
  end.

Definition Nanosecond : Z := 1.
Definition Microsecond : Z := 1000.
Definition Millisecond : Z := 1000000.
Definition Second : Z := 1000000000.
Definition Minute : Z := 60 * Second.
Definition Hour : Z := 60 * Minute.

(** [unitMap], with both micro signs. *)
Definition unitMap (u : list ascii) : option Z :=
  let named s := bool_decide (u = bytes s) in
  if named "ns" then Some Nanosecond
  else if named "us" || bool_decide (u = ["194"; "181"; "s"]%char) || bool_decide (u = ["206"; "188"; "s"]%char) then Some Microsecond
  else if named "ms" then Some Millisecond
  else if named "s" then Some Second
  else if named "m" then Some Minute
  else if named "h" then Some Hour
  else None.

Definition invalid_duration (orig : string) : error := Errorf "time: invalid duration %q" [orig].

(** One number with its unit: its magnitude, and the rest. *)
Definition duration_term (orig : string) (s : list ascii) : result (Z * list ascii) :=
  match leadingInt s 0 with
  | None => Err (invalid_duration orig)
  | Some (v, s1) =>
      let pre := negb (length s =? length s1)%nat in
      let '(f, scale, s2, post) :=
        match s1 with
        | c :: s1' =>
            if Ascii.eqb c "." then
              let '(f, scale, r) := leadingFraction s1' 0 (f64_of_Z 1) false in
              (f, scale, r, negb (length s1' =? length r)%nat)
            else (0, f64_of_Z 1, s1, false)
        | [] => (0, f64_of_Z 1, s1, false)
        end in
      if negb pre && negb post then Err (invalid_duration orig)
      else
        let '(u, rest) := leadingUnit s2 in
        if bool_decide (u = []) then Err (Errorf "time: missing unit in duration %q" [orig])
        else
          match unitMap u with
          | None => Err (Errorf "time: unknown unit %q in duration %q" [of_bytes u; orig])
          | Some unit =>
              if 2 ^ 63 / unit <? v then Err (invalid_duration orig)
              else
                let v := v * unit in
                let v := if 0 <? f
                         then (v + default 0 (f64_trunc (f64_mul (f64_of_Z f) (f64_div (f64_of_Z unit) scale)))) mod 2 ^ 64
                         else v in
                if 2 ^ 63 <? v then Err (invalid_duration orig) else Ok (v, rest)
          end
  end.

(** The loop; each turn consumes a byte, so the length of the string is fuel
    enough ([duration_loop_fuel]). *)
Fixpoint duration_loop (fuel : nat) (orig : string) (s : list ascii) (d : Z) : result Z :=
  match s with
  | [] => Ok d
  | c :: _ =>
      match fuel with
      | O => Err (invalid_duration orig)
      | S fuel' =>
          if negb (Ascii.eqb c "." || is_digit c) then Err (invalid_duration orig)
          else
            match duration_term orig s with
            | Err e => Err e
            | Ok (v, rest) =>
                let d := (d + v) mod 2 ^ 64 in
                if 2 ^ 63 <? d then Err (invalid_duration orig) else duration_loop fuel' orig rest d
            end
      end
  end.

Definition duration_sign (s : list ascii) : bool * list ascii :=
  match s with
  | c :: s' => if Ascii.eqb c "-" then (true, s') else if Ascii.eqb c "+" then (false, s') else (false, s)
  | [] => (false, s)
  end.

Definition ParseDuration (orig : string) : result Z :=
  let '(neg, s) := duration_sign (bytes orig) in
  if bool_decide (s = bytes "0") then Ok 0
  else if bool_decide (s = []) then Err (invalid_duration orig)
  else
    match duration_loop (length s) orig s 0 with
    | Err e => Err e
    | Ok d =>
        if neg then Ok (- d)
        else if 2 ^ 63 - 1 <? d then Err (invalid_duration orig) else Ok d
    end.

(** ** Facts *)

Lemma leadingInt_length s : forall x v r, leadingInt s x = Some (v, r) -> (length r <= length s)%nat.
Proof.
  induction s as [|c s IH]; simpl; intros x v r; [by intros [= <- <-]|].
  destruct (is_digit c); [|by intros [= <- <-]]. destruct (2 ^ 63 / 10 <? x); [done|].
  destruct (2 ^ 63 <? _); [done|]. intros Hr%IH. lia.
Qed.

Lemma leadingFraction_length s : forall x sc o, (length (leadingFraction s x sc o).2 <= length s)%nat.
Proof.
  induction s as [|c s IH]; simpl; intros x sc o; [done|].
  destruct (is_digit c); [|done].
  destruct (o || _); [|destruct (2 ^ 63 <? _)]; eapply Nat.le_trans; try apply IH; lia.
Qed.

Lemma leadingUnit_length s : (length (leadingUnit s).1 + length (leadingUnit s).2 = length s)%nat.
Proof.
  induction s as [|c s IH]; simpl; [done|]. destruct (_ || _); [done|].
  destruct (leadingUnit s) as [u r]. simpl in *. lia.
Qed.

(** A term is not empty, and its magnitude is at most [1<<63]. *)
Lemma duration_term_spec orig s v rest :
  duration_term orig s = Ok (v, rest) -> (length rest < length s)%nat /\ v <= 2 ^ 63.
Proof.
  unfold duration_term. destruct (leadingInt s 0) as [[v0 s1]|] eqn:Ei; [|done].
  apply leadingInt_length in Ei. set (p := match s1 with [] => _ | _ :: _ => _ end).
  assert (length p.1.2 <= length s1)%nat as Hp.
  { unfold p. destruct s1 as [|c s1']; [done|]. destruct (Ascii.eqb c "."); [|done].
    pose proof (leadingFraction_length s1' 0 (f64_of_Z 1) false) as Hl.
    destruct (leadingFraction _ _ _ _) as [[f sc] r]. simpl in *. lia. }
  destruct p as [[[f sc] s2] post]. simpl in Hp.
  destruct (negb _ && negb post); [done|]. pose proof (leadingUnit_length s2) as Hu.
  destruct (leadingUnit s2) as [u r]. simpl in Hu. case_bool_decide as Hnil; [done|].
  destruct (unitMap u) as [unit|]; [|done]. destruct (2 ^ 63 / unit <? v0); [done|].
  set (v' := if 0 <? f then _ else _). destruct (Z.ltb_spec (2 ^ 63) v') as [H|H]; [done|].
  intros [= <- <-]. split; [|done]. destruct u; [done|]. simpl in Hu. lia.
Qed.

Lemma duration_loop_fuel orig n : forall m s d,
  (length s <= n)%nat -> (length s <= m)%nat -> duration_loop n orig s d = duration_loop m orig s d.
Proof.
  induction n as [|n IH]; intros m s d Hn Hm; destruct s as [|c s]; simpl in *; try done; [by destruct m|lia|by destruct m|].
  destruct m as [|m]; simpl; [lia|]. destruct (negb _); [done|].
  destruct (duration_term orig (c :: s)) as [[v rest]|e] eqn:Et; [|done].
  apply duration_term_spec in Et as [Hl _]. simpl in Hl. destruct (2 ^ 63 <? _); [done|]. apply IH; lia.
Qed.

Lemma duration_loop_range orig n : forall s d d',
  0 <= d <= 2 ^ 63 -> duration_loop n orig s d = Ok d' -> 0 <= d' <= 2 ^ 63.
Proof.
  induction n as [|n IH]; intros s d d' Hd; destruct s as [|c s]; simpl; try done; try by intros [= <-].
  destruct (negb _); [done|]. destruct (duration_term _ _) as [[v rest]|e]; [|done].
  destruct (Z.ltb_spec (2 ^ 63) ((d + v) mod 2 ^ 64)) as [H|H]; [done|]. apply IH.
  split; [|done]. apply Z.mod_pos_bound. lia.
Qed.

(** Every duration that parses is an [int64]. *)
Lemma ParseDuration_range s d : ParseDuration s = Ok d -> - 2 ^ 63 <= d < 2 ^ 63.
Proof.
  unfold ParseDuration. destruct (duration_sign (bytes s)) as [neg l].
  case_bool_decide; [intros [= <-]; lia|]. case_bool_decide; [done|].
  destruct (duration_loop (length l) s l 0) as [d0|e] eqn:El; [|done].
  apply duration_loop_range in El; [|lia]. destruct neg; [intros [= <-]; lia|].
  destruct (Z.ltb_spec (2 ^ 63 - 1) d0); [done|]. intros [= <-]. lia.
Qed.
