(* ===== verification/GoDuration.v ===== *)
(** * Printing durations

    [time.Duration.String], and its round trip with [time.ParseDuration] on
    durations of whole seconds. *)

From stdpp Require Import base list sets strings pretty.
From Stdlib Require Import Ascii ZArith Lia.
From S2P Require Import Prelude GoStrings GoText GoTime.

Local Open Scope Z_scope.

(** [fmtInt]. *)
Definition fmtInt (v : Z) : list ascii := bytes (Itoa v).

(** The last [prec] decimal digits of [v], most significant first. *)
Fixpoint low_digits (prec : nat) (v : Z) : list ascii :=
  match prec with
  | O => []
  | S p => low_digits p (v / 10) ++ [ascii_of_N (Z.to_N (48 + v mod 10))]
  end.

(** [fmtFrac]: the fraction without its trailing zeros, and the integer part. *)
Definition fmtFrac (v : Z) (prec : nat) : list ascii * Z :=
  let ds := rev (drop_while (Ascii.eqb "0") (rev (low_digits prec v))) in
  (match ds with [] => [] | _ => "."%char :: ds end, v / 10 ^ Z.of_nat prec).

Definition unsigned_duration (u : Z) : list ascii :=
  if u =? 0 then bytes "0s"
  else if u <? Second then
    let '(prec, unit) := if u <? Microsecond then (0%nat, ["n"; "s"]%char)
                         else if u <? Millisecond then (3%nat, ["194"; "181"; "s"]%char)
                         else (6%nat, ["m"; "s"]%char) in
    let '(frac, v) := fmtFrac u prec in fmtInt v ++ frac ++ unit
  else
    let '(frac, v) := fmtFrac u 9 in
    let secs := fmtInt (v mod 60) ++ frac ++ ["s"%char] in
    let m := v / 60 in
    if 0 <? m then
      let mins := fmtInt (m mod 60) ++ "m"%char :: secs in
      let h := m / 60 in
      if 0 <? h then fmtInt h ++ "h"%char :: mins else mins
    else secs.

(** [Duration.String]. *)
Definition DurationString (d : Z) : string :=
  of_bytes (if d <? 0 then "-"%char :: unsigned_duration (- d) else unsigned_duration d).

(** ** Reading a printed duration *)

Lemma leadingInt_digits ds : forall x r, forallb is_digit ds = true ->
  0 <= x -> fold_left (fun acc c => acc * 10 + (code c - 48)) ds x <= 2 ^ 63 ->
  (forall c r', r = c :: r' -> is_digit c = false) ->
  leadingInt (ds ++ r) x = Some (fold_left (fun acc c => acc * 10 + (code c - 48)) ds x, r).
Proof.
  induction ds as [|c ds IH]; intros x r Hd Hx Hle Hr; simpl.
  - destruct r as [|c r]; simpl; [done|]. by rewrite (Hr c r).
  - simpl in Hd. apply andb_true_iff in Hd as [Hc Hd]. rewrite Hc. simpl in Hle.
    assert (0 <= code c - 48 <= 9) as Hcode.
    { unfold is_digit, between in Hc. apply andb_true_iff in Hc as [H1 H2].
      apply Z.leb_le in H1, H2. change (code "0"%char) with 48 in H1. change (code "9"%char) with 57 in H2. lia. }
    rewrite digits_value_acc in Hle.
    pose proof (digits_value_nonneg ds Hd). assert (1 <= 10 ^ Z.of_nat (length ds)) by (apply Z.lt_pred_le, Z.pow_pos_nonneg; lia).
    assert (x * 10 + (code c - 48) <= 2 ^ 63) by nia.
    rewrite (proj2 (Z.ltb_ge _ _)); [|apply Z.div_le_lower_bound; lia].
    rewrite (proj2 (Z.ltb_ge _ _)) by lia. apply IH; [done|lia| |done]. by rewrite digits_value_acc.
Qed.

Lemma leadingInt_fmt v c r : 0 <= v <= 2 ^ 63 -> is_digit c = false ->
  leadingInt (fmtInt v ++ c :: r) 0 = Some (v, c :: r).
Proof.
  intros Hv Hc. destruct (Itoa_digits v ltac:(lia)) as (_ & Hd & Hval). unfold fmtInt.
  rewrite leadingInt_digits; [|done|lia|unfold digits_value in Hval; lia|by intros ? ? [= <- <-]].
  by unfold digits_value in Hval; rewrite Hval.
Qed.

(** The three units a whole number of seconds is printed with. *)
Ltac unit_cases H := revert H; rewrite !elem_of_cons, elem_of_nil; intros H; destruct H as [H|[H|[H|H]]]; [subst..|done].

(** One printed number with its one-letter unit. *)
Lemma duration_term_fmt orig v c unit r :
  0 <= v -> c ∈ ["s"; "m"; "h"]%char -> unitMap [c] = Some unit -> v * unit < 2 ^ 63 ->
  (forall d r', r = d :: r' -> is_digit d = true) ->
  duration_term orig (fmtInt v ++ c :: r) = Ok (v * unit, r).
Proof.
  intros Hv Hc Hu Hb Hr.
  assert (is_digit c = false /\ Ascii.eqb c "." = false) as [Hcd Hcdot] by (unit_cases Hc; done).
  assert (0 < unit) as Hup by (unit_cases Hc; vm_compute in Hu; injection Hu as <-; lia).
  unfold duration_term. rewrite leadingInt_fmt; [|nia|done].
  destruct (Itoa_digits v Hv) as (Hne & Hd & Hval).
  assert (negb (length (fmtInt v ++ c :: r) =? length (c :: r))%nat = true) as ->.
  { apply negb_true_iff, Nat.eqb_neq. rewrite length_app. unfold fmtInt. destruct (bytes (Itoa v)); [done|simpl; lia]. }
  rewrite Hcdot. simpl negb. simpl andb. cbv iota. simpl leadingUnit. rewrite Hcdot, Hcd. simpl orb. cbv iota.
  assert (leadingUnit r = ([], r)) as ->.
  { destruct r as [|d r]; simpl; [done|]. rewrite (Hr d r eq_refl). by rewrite orb_true_r. }
  rewrite bool_decide_eq_false_2 by done. rewrite Hu.
  assert (2 ^ 63 / unit <? v = false) as ->.
  { apply Z.ltb_ge. apply Z.div_le_lower_bound; lia. }
  rewrite (Z.ltb_irrefl 0), (proj2 (Z.ltb_ge (2 ^ 63) (v * unit))) by lia. done.
Qed.

Lemma fmtInt_head v : 0 <= v -> exists c l, fmtInt v = c :: l /\ is_digit c = true.
Proof.
  intros Hv. destruct (Itoa_digits v Hv) as (Hne & Hd & _). unfold fmtInt.
  destruct (bytes (Itoa v)) as [|c l]; [done|]. exists c, l. split; [done|].
  simpl in Hd. by apply andb_true_iff in Hd as [? _].
Qed.

Lemma duration_loop_term fuel orig v c unit r d :
  0 <= v -> c ∈ ["s"; "m"; "h"]%char -> unitMap [c] = Some unit -> 0 <= d -> d + v * unit < 2 ^ 63 ->
  (forall e r', r = e :: r' -> is_digit e = true) ->
  duration_loop (S fuel) orig (fmtInt v ++ c :: r) d = duration_loop fuel orig r (d + v * unit).
Proof.
  intros Hv Hc Hu Hd Hb Hr. destruct (fmtInt_head v Hv) as (e & l & He & Hed).
  assert (0 < unit) as Hup by (unit_cases Hc; vm_compute in Hu; injection Hu as <-; lia).
  pose proof (duration_term_fmt orig v c unit r Hv Hc Hu ltac:(nia) Hr) as Ht.
  rewrite He in *. simpl app in *. simpl. rewrite Hed, orb_true_r. simpl. rewrite Ht.
  rewrite Z.mod_small by nia. by rewrite (proj2 (Z.ltb_ge _ _)) by lia.
Qed.

Lemma low_digits_zero prec k : 0 <= k -> drop_while (Ascii.eqb "0") (rev (low_digits prec (k * 10 ^ Z.of_nat prec))) = [].
Proof.
  induction prec as [|p IH]; intros Hk; [done|].
  cbn [low_digits]. rewrite rev_app_distr, Nat2Z.inj_succ, Z.pow_succ_r by lia.
  replace (k * (10 * 10 ^ Z.of_nat p)) with (k * 10 ^ Z.of_nat p * 10) by lia.
  rewrite Z.mod_mul, Z.div_mul by lia. simpl. by apply IH.
Qed.

Lemma fmtFrac_whole k prec : 0 <= k -> fmtFrac (k * 10 ^ Z.of_nat prec) prec = ([], k).
Proof.
  intros Hk. unfold fmtFrac. rewrite low_digits_zero by done. simpl.
  rewrite Z.div_mul; [done|]. apply Z.pow_nonzero; lia.
Qed.

Lemma fmtInt_not_special v c l : 0 <= v -> Ascii.eqb c "0" = false ->
  duration_sign (fmtInt v ++ c :: l) = (false, fmtInt v ++ c :: l) /\
  bool_decide (fmtInt v ++ c :: l = bytes "0") = false /\ bool_decide (fmtInt v ++ c :: l = []) = false.
Proof.
  intros Hv Hc. destruct (fmtInt_head v Hv) as (e & l' & He & Hed). rewrite He. simpl.
  destruct (is_digit_not_sign e Hed) as [-> ->]. split; [done|]. split; [|done]. apply bool_decide_eq_false.
  intros [= -> E]. destruct l'; simplify_eq/=.
Qed.

Lemma duration_loop_nil n orig d : duration_loop n orig [] d = Ok d.
Proof. by destruct n. Qed.

Ltac more_fuel := match goal with |- context [duration_loop (length ?l) _ ?s] =>
  rewrite (duration_loop_fuel _ (length l) (S (S (S (length l)))) s) by lia end.

(** A printed duration of whole seconds is read back as it was. *)
Lemma ParseDuration_DurationString k : 0 <= k * Second < 2 ^ 63 -> ParseDuration (DurationString (k * Second)) = Ok (k * Second).
Proof.
  intros Hk. unfold DurationString. rewrite (proj2 (Z.ltb_ge _ _)) by lia.
  assert (0 <= k) as Hk0 by (unfold Second in Hk; lia).
  destruct (decide (k = 0)) as [->|Hne]; [done|]. unfold unsigned_duration.
  rewrite (proj2 (Z.eqb_neq _ _)), (proj2 (Z.ltb_ge _ _)) by (unfold Second; lia).
  change Second with (10 ^ Z.of_nat 9) at 1. rewrite fmtFrac_whole by done. simpl app. change (10 ^ Z.of_nat 9) with Second.
  assert (0 <= k mod 60) by (apply Z.mod_pos_bound; lia). assert (0 <= k / 60) by (apply Z.div_pos; lia).
  assert (0 <= k / 60 mod 60) by (apply Z.mod_pos_bound; lia). assert (0 <= k / 60 / 60) by (apply Z.div_pos; lia).
  pose proof (Z.div_mod k 60 ltac:(lia)). pose proof (Z.div_mod (k / 60) 60 ltac:(lia)).
  assert (forall e r', ([] : list ascii) = e :: r' -> is_digit e = true) by done.
  assert (forall v l e r', 0 <= v -> fmtInt v ++ l = e :: r' -> is_digit e = true) as Hhd.
  { intros v l e r' Hv He. destruct (fmtInt_head v Hv) as (c & l' & E & Hc). rewrite E in He. by simplify_eq/=. }
  assert ("s"%char ∈ ["s"; "m"; "h"]%char /\ "m"%char ∈ ["s"; "m"; "h"]%char /\ "h"%char ∈ ["s"; "m"; "h"]%char) as (Hs & Hm & Hh) by set_solver.
  unfold ParseDuration. rewrite bytes_of_bytes. repeat case_if;
    match goal with |- context [duration_sign (fmtInt ?v ++ ?c :: ?l)] =>
      destruct (fmtInt_not_special v c l) as (-> & -> & ->); [done|done|] end; more_fuel.
  - rewrite (duration_loop_term _ _ _ _ Hour), (duration_loop_term _ _ _ _ Minute), (duration_loop_term _ _ _ _ Second); try done; eauto; unfold Hour, Minute, Second in *; try lia.
    rewrite duration_loop_nil, (proj2 (Z.ltb_ge _ _)); [f_equal|]; lia.
  - rewrite (duration_loop_term _ _ _ _ Minute), (duration_loop_term _ _ _ _ Second); try done; eauto; unfold Hour, Minute, Second in *; try lia.
    rewrite duration_loop_nil, (proj2 (Z.ltb_ge _ _)); [f_equal|]; lia.
  - rewrite (duration_loop_term _ _ _ _ Second); try done; eauto; unfold Hour, Minute, Second in *; try lia.
    rewrite duration_loop_nil, (proj2 (Z.ltb_ge _ _)); [f_equal|]; lia.
Qed.
