(* ===== verification/Regexp.v ===== *)
(** * Package [regexp]: the fragment the validators use

    Every pattern in the sources is anchored at both ends and made of ASCII
    classes, so matching bytes and matching runes agree.  [lang] is the
    language of an expression; [MatchString] is an executable matcher by
    derivatives, proved to decide it. *)

From stdpp Require Import base list sets strings.
From Stdlib Require Import Ascii ZArith Lia.
From S2P Require Import Prelude GoStrings.

Inductive re :=
  | Empty
  | Eps
  | Cls (p : ascii -> bool)
  | Seq (r1 r2 : re)
  | Alt (r1 r2 : re)
  | Star (r : re)
  | UpTo (n : nat) (r : re).

(** [r?], [r{n}]. *)
Definition Opt (r : re) : re := Alt Eps r.
Fixpoint Times (n : nat) (r : re) : re :=
  match n with O => Eps | S n' => Seq r (Times n' r) end.
Definition Chr (c : ascii) : re := Cls (Ascii.eqb c).

Inductive lang : re -> list ascii -> Prop :=
  | lang_eps : lang Eps []
  | lang_cls p c : p c = true -> lang (Cls p) [c]
  | lang_seq r1 r2 s1 s2 : lang r1 s1 -> lang r2 s2 -> lang (Seq r1 r2) (s1 ++ s2)
  | lang_alt_l r1 r2 s : lang r1 s -> lang (Alt r1 r2) s
  | lang_alt_r r1 r2 s : lang r2 s -> lang (Alt r1 r2) s
  | lang_star_nil r : lang (Star r) []
  | lang_star_cons r s1 s2 : lang r s1 -> lang (Star r) s2 -> lang (Star r) (s1 ++ s2)
  | lang_upto_nil n r : lang (UpTo n r) []
  | lang_upto_cons n r s1 s2 :
      lang r s1 -> lang (UpTo n r) s2 -> lang (UpTo (S n) r) (s1 ++ s2).

#[export] Hint Constructors lang : core.

(** ** The matcher *)

Fixpoint nullable (r : re) : bool :=
  match r with
  | Empty | Cls _ => false
  | Eps | Star _ | UpTo _ _ => true
  | Seq r1 r2 => nullable r1 && nullable r2
  | Alt r1 r2 => nullable r1 || nullable r2
  end.

(** Constructors that keep derivatives small. *)
Definition mkSeq (r1 r2 : re) : re :=
  match r1 with Empty => Empty | Eps => r2 | _ => Seq r1 r2 end.
Definition mkAlt (r1 r2 : re) : re :=
  match r1, r2 with Empty, _ => r2 | _, Empty => r1 | _, _ => Alt r1 r2 end.

Fixpoint deriv (c : ascii) (r : re) : re :=
  match r with
  | Empty | Eps => Empty
  | Cls p => if p c then Eps else Empty
  | Seq r1 r2 =>
      let d := mkSeq (deriv c r1) r2 in
      if nullable r1 then mkAlt d (deriv c r2) else d
  | Alt r1 r2 => mkAlt (deriv c r1) (deriv c r2)
  | Star r1 => mkSeq (deriv c r1) (Star r1)
  | UpTo O _ => Empty
  | UpTo (S n) r1 => mkSeq (deriv c r1) (UpTo n r1)
  end.

Fixpoint matches (r : re) (s : list ascii) : bool :=
  match s with
  | [] => nullable r
  | c :: s' => matches (deriv c r) s'
  end.

(** [regexp.MustCompile(`^...$`).MatchString(s)]. *)
Definition MatchString (r : re) (s : string) : bool := matches r (bytes s).

(** ** Correctness of the matcher *)

Lemma lang_Empty s : ~ lang Empty s.
Proof. inversion 1. Qed.

Lemma lang_Eps s : lang Eps s <-> s = [].
Proof. split; [by inversion 1|by intros ->]. Qed.

Lemma lang_Cls p s : lang (Cls p) s <-> exists c, s = [c] /\ p c = true.
Proof. split; [inversion 1; eauto|intros (c & -> & H); eauto]. Qed.

Lemma lang_Seq r1 r2 s :
  lang (Seq r1 r2) s <-> exists s1 s2, s = s1 ++ s2 /\ lang r1 s1 /\ lang r2 s2.
Proof. split; [inversion 1; eauto 6|intros (s1 & s2 & -> & H1 & H2); eauto]. Qed.

Lemma lang_Alt r1 r2 s : lang (Alt r1 r2) s <-> lang r1 s \/ lang r2 s.
Proof. split; [inversion 1; eauto|intros [H|H]; eauto]. Qed.

Lemma lang_Opt r s : lang (Opt r) s <-> s = [] \/ lang r s.
Proof. unfold Opt. by rewrite lang_Alt, lang_Eps. Qed.

Lemma lang_mkSeq r1 r2 s : lang (mkSeq r1 r2) s <-> lang (Seq r1 r2) s.
Proof.
  destruct r1; simpl; try done; rewrite lang_Seq; split.
  - intros []%lang_Empty.
  - intros (s1 & s2 & _ & []%lang_Empty & _).
  - intros H. by exists [], s.
  - intros (s1 & s2 & -> & ->%lang_Eps & H). done.
Qed.

Lemma lang_mkAlt r1 r2 s : lang (mkAlt r1 r2) s <-> lang (Alt r1 r2) s.
Proof.
  rewrite lang_Alt. pose proof (lang_Empty s).
  destruct r1, r2; simpl; rewrite ?lang_Alt; tauto.
Qed.

Lemma nullable_spec r : nullable r = true <-> lang r [].
Proof.
  induction r as [| |p|r1 IH1 r2 IH2|r1 IH1 r2 IH2|r IH|n r IH]; simpl.
  - split; [done|by intros []%lang_Empty].
  - by split.
  - split; [done|]. intros (c & [=] & _)%lang_Cls.
  - rewrite andb_true_iff, IH1, IH2, lang_Seq. split.
    + intros [H1 H2]. by exists [], [].
    + intros (s1 & s2 & H & H1 & H2). symmetry in H.
      apply app_nil in H as [-> ->]. done.
  - by rewrite orb_true_iff, IH1, IH2, lang_Alt.
  - by split.
  - by split.
Qed.

Lemma lang_Star_cons r c s :
  lang (Star r) (c :: s) ->
  exists s1 s2, s = s1 ++ s2 /\ lang r (c :: s1) /\ lang (Star r) s2.
Proof.
  intros H. remember (Star r) as rs eqn:Hr. remember (c :: s) as w eqn:Hw.
  revert c s Hr Hw. induction H; intros c' s' Hr Hw; simplify_eq.
  destruct s1 as [|d s1]; simplify_eq/=; eauto 6.
Qed.

Lemma lang_UpTo_mono n m r s : n <= m -> lang (UpTo n r) s -> lang (UpTo m r) s.
Proof.
  intros Hle H. remember (UpTo n r) as ru eqn:Hr. revert n m Hle Hr.
  induction H; intros n' m' Hle Hr; simplify_eq; [constructor|].
  destruct m' as [|m']; [lia|]. constructor; [done|].
  eapply IHlang2; [|done]. lia.
Qed.

Lemma lang_UpTo_cons n r c s :
  lang (UpTo n r) (c :: s) ->
  exists m s1 s2, n = S m /\ s = s1 ++ s2 /\ lang r (c :: s1) /\ lang (UpTo m r) s2.
Proof.
  intros H. remember (UpTo n r) as ru eqn:Hr. remember (c :: s) as w eqn:Hw.
  revert n c s Hr Hw. induction H; intros n' c' s' Hr Hw; simplify_eq.
  destruct s1 as [|d s1]; simplify_eq/=; [|eauto 8].
  destruct (IHlang2 n c' s' eq_refl eq_refl) as (m & t1 & t2 & -> & -> & H1 & H2).
  exists (S m), t1, t2. split_and!; try done. eapply lang_UpTo_mono, H2. lia.
Qed.

Lemma deriv_spec c r s : lang (deriv c r) s <-> lang r (c :: s).
Proof.
  revert s. induction r as [| |p|r1 IH1 r2 IH2|r1 IH1 r2 IH2|r IH|n r IH];
    intros s; simpl.
  - split; by intros []%lang_Empty.
  - split; [by intros []%lang_Empty|by inversion 1].
  - rewrite lang_Cls. destruct (p c) eqn:E.
    + rewrite lang_Eps. split; [intros ->; eauto|by intros (d & [= <- ->] & _)].
    + split; [by intros []%lang_Empty|]. intros (d & [= <- ->] & Hd). congruence.
  - assert (lang (mkSeq (deriv c r1) r2) s <->
            exists s1 s2, s = s1 ++ s2 /\ lang r1 (c :: s1) /\ lang r2 s2) as Hd.
    { rewrite lang_mkSeq, lang_Seq. by setoid_rewrite IH1. }
    rewrite lang_Seq. destruct (nullable r1) eqn:E.
    + apply nullable_spec in E. rewrite lang_mkAlt, lang_Alt, Hd, IH2. split.
      * intros [(s1 & s2 & -> & H1 & H2)|H]; [by exists (c :: s1), s2|by exists [], (c :: s)].
      * intros ([|d s1] & s2 & H & H1 & H2); simplify_eq/=; eauto 6.
    + rewrite Hd. split.
      * intros (s1 & s2 & -> & H1 & H2). by exists (c :: s1), s2.
      * intros ([|d s1] & s2 & H & H1 & H2); simplify_eq/=; [|eauto].
        apply nullable_spec in H1. congruence.
  - by rewrite lang_mkAlt, !lang_Alt, IH1, IH2.
  - rewrite lang_mkSeq, lang_Seq. setoid_rewrite IH. split.
    + intros (s1 & s2 & -> & H1 & H2).
      change (c :: s1 ++ s2) with ((c :: s1) ++ s2). eauto.
    + intros (s1 & s2 & -> & H1 & H2)%lang_Star_cons. eauto.
  - destruct n as [|n].
    + split; [by intros []%lang_Empty|].
      intros (m & s1 & s2 & [=] & _)%lang_UpTo_cons.
    + rewrite lang_mkSeq, lang_Seq. setoid_rewrite IH. split.
      * intros (s1 & s2 & -> & H1 & H2).
        change (c :: s1 ++ s2) with ((c :: s1) ++ s2). eauto.
      * intros (m & s1 & s2 & [= <-] & -> & H1 & H2)%lang_UpTo_cons. eauto.
Qed.

(** The matcher decides the language of the expression. *)
Theorem matches_lang r s : matches r s = true <-> lang r s.
Proof.
  revert r. induction s as [|c s IH]; intros r; simpl.
  - apply nullable_spec.
  - by rewrite IH, deriv_spec.
Qed.

Lemma MatchString_lang r s : MatchString r s = true <-> lang r (bytes s).
Proof. apply matches_lang. Qed.

(** ** The shapes the validators use *)

Lemma lang_Star_Cls q s : lang (Star (Cls q)) s <-> Forall (fun c => q c = true) s.
Proof.
  split.
  - induction s as [|c s IH]; [constructor|].
    intros (s1 & s2 & -> & (d & [= <- ->] & Hc)%lang_Cls & H)%lang_Star_cons.
    constructor; [done|]. by apply IH.
  - induction 1 as [|c s Hc _ IH]; [constructor|].
    change (c :: s) with ([c] ++ s). eauto.
Qed.

Lemma lang_UpTo_Cls n q s :
  lang (UpTo n (Cls q)) s <-> Forall (fun c => q c = true) s /\ length s <= n.
Proof.
  revert n. induction s as [|c s IH]; intros n; simpl.
  - split; [split; [constructor|lia]|constructor].
  - split.
    + intros (m & s1 & s2 & -> & -> & (d & [= <- ->] & Hc)%lang_Cls & H)%lang_UpTo_cons.
      apply IH in H as [H1 H2]. simpl in *. split; [by constructor|lia].
    + intros [H Hn]. inversion H as [|? ? Hc Hs]; subst.
      destruct n as [|n]; [lia|]. change (c :: s) with ([c] ++ s).
      constructor; [by constructor|]. apply IH. split; [done|lia].
Qed.

(** [^p q{0,n}$] and [^p q*$]. *)
Lemma match_head_upto p q n s :
  MatchString (Seq (Cls p) (UpTo n (Cls q))) s = true <->
  exists c t, bytes s = c :: t /\ p c = true /\ Forall (fun d => q d = true) t
              /\ length t <= n.
Proof.
  rewrite MatchString_lang, lang_Seq. setoid_rewrite lang_Cls.
  setoid_rewrite lang_UpTo_Cls. split.
  - intros (s1 & s2 & E & (c & -> & Hp) & Hq & Hn). by exists c, s2.
  - intros (c & t & E & Hp & Hq & Hn). exists [c], t. split_and!; eauto.
Qed.

Lemma match_head_star p q s :
  MatchString (Seq (Cls p) (Star (Cls q))) s = true <->
  exists c t, bytes s = c :: t /\ p c = true /\ Forall (fun d => q d = true) t.
Proof.
  rewrite MatchString_lang, lang_Seq. setoid_rewrite lang_Cls.
  setoid_rewrite lang_Star_Cls. split.
  - intros (s1 & s2 & E & (c & -> & Hp) & Hq). by exists c, s2.
  - intros (c & t & E & Hp & Hq). exists [c], t. split_and!; eauto.
Qed.

(** Every byte of a match satisfies a class that covers all atoms. *)
Fixpoint covers (P : ascii -> bool) (r : re) : Prop :=
  match r with
  | Empty | Eps => True
  | Cls p => forall c, p c = true -> P c = true
  | Seq r1 r2 | Alt r1 r2 => covers P r1 /\ covers P r2
  | Star r1 | UpTo _ r1 => covers P r1
  end.

Lemma lang_covers P r s : covers P r -> lang r s -> Forall (fun c => P c = true) s.
Proof.
  intros HP H. induction H; simpl in *; destruct_and?;
    rewrite ?Forall_app; eauto.
Qed.

Lemma MatchString_covers P r s :
  covers P r -> MatchString r s = true -> Forall (fun c => P c = true) (bytes s).
Proof. rewrite MatchString_lang. apply lang_covers. Qed.
