(* ===== verification/GoNet.v ===== *)
(** * Package [net]: textual IP addresses

    [net.ParseIP] and [net.ParseCIDR] as the standard library implements them
    (through [netip.ParseAddr]): dotted-quad IPv4 without leading zeros, IPv6
    with one [::], an optional trailing dotted quad and an optional zone, which
    both entry points refuse.  An address is a list of bytes in 0..255. *)

From stdpp Require Import base list strings.
From Stdlib Require Import Ascii ZArith Lia.
From S2P Require Import Prelude GoStrings.

Local Open Scope Z_scope.

(** [parseIPv4Fields]: [prev] is the byte before the current one. *)
Fixpoint ipv4_fields (s : list ascii) (prev : option ascii) (val digLen : Z)
    (acc : list Z) : option (list Z) :=
  match s with
  | [] => if Z.of_nat (length acc) <? 3 then None else Some (acc ++ [val])
  | c :: r =>
      if is_digit c then
        if (digLen =? 1) && (val =? 0) then None
        else
          let val' := val * 10 + (code c - 48) in
          if 255 <? val' then None
          else ipv4_fields r (Some c) val' (digLen + 1) acc
      else if Ascii.eqb c "." then
        match prev, r with
        | None, _ | _, [] => None
        | Some p, _ =>
            if Ascii.eqb p "." then None
            else if Z.of_nat (length acc) =? 3 then None
            else ipv4_fields r (Some c) 0 0 (acc ++ [val])
        end
      else None
  end.

Definition parse_ipv4 (s : list ascii) : option (list Z) := ipv4_fields s None 0 0 [].

Definition hex_value (c : ascii) : option Z :=
  if between "0" "9" c then Some (code c - 48)
  else if between "a" "f" c then Some (code c - 87)
  else if between "A" "F" c then Some (code c - 55)
  else None.

(** One group of hexadecimal digits: its value, its length, what follows. *)
Fixpoint hex_group (s : list ascii) (off acc : Z) : option (Z * Z * list ascii) :=
  match s with
  | [] => Some (acc, off, [])
  | c :: r =>
      match hex_value c with
      | Some d =>
          let acc' := acc * 16 + d in
          if (3 <? off) || (65535 <? acc') then None
          else hex_group r (off + 1) acc'
      | None => Some (acc, off, s)
      end
  end.

(** The main loop of [parseIPv6]; each round adds two bytes, so eight rounds
    fill the sixteen of an address. *)
Fixpoint ipv6_loop (rounds : nat) (s : list ascii) (ip : list Z) (ell : option nat)
    : option (list ascii * list Z * option nat) :=
  match rounds with
  | O => Some (s, ip, ell)
  | S rounds' =>
      match hex_group s 0 0 with
      | None => None
      | Some (acc, off, rest) =>
          if off =? 0 then None
          else
            let ip' := ip ++ [acc / 256; acc mod 256] in
            match rest with
            | [] => Some ([], ip', ell)
            | c :: r =>
                if Ascii.eqb c "." then
                  match ell with
                  | None => if bool_decide (length ip = 12%nat)
                            then option_map (fun v => ([], ip ++ v, ell)) (parse_ipv4 s)
                            else None
                  | Some _ => if bool_decide (16 < length ip + 4)%nat then None
                              else option_map (fun v => ([], ip ++ v, ell)) (parse_ipv4 s)
                  end
                else if negb (Ascii.eqb c ":") then None
                else
                  match r with
                  | [] => None
                  | d :: r' =>
                      if Ascii.eqb d ":" then
                        match ell, r' with
                        | Some _, _ => None
                        | None, [] => Some ([], ip', Some (length ip'))
                        | None, _ => ipv6_loop rounds' r' ip' (Some (length ip'))
                        end
                      else ipv6_loop rounds' r ip' ell
                  end
            end
      end
  end.

Definition ipv6_finish (res : list ascii * list Z * option nat) : option (list Z) :=
  let '(rest, ip, ell) := res in
  match rest with
  | _ :: _ => None
  | [] =>
      if bool_decide (length ip < 16)%nat then
        match ell with
        | None => None
        | Some e => Some (take e ip ++ replicate (16 - length ip) 0 ++ drop e ip)
        end
      else match ell with None => Some ip | Some _ => None end
  end.

(** [parseIPv6] without its zone. *)
Definition parse_ipv6 (s : list ascii) : option (list Z) :=
  match s with
  | c :: d :: rest =>
      if Ascii.eqb c ":" && Ascii.eqb d ":" then
        match rest with
        | [] => Some (replicate 16 0)
        | _ => match ipv6_loop 8 rest [] (Some 0%nat) with
               | Some res => ipv6_finish res | None => None end
        end
      else match ipv6_loop 8 s [] None with
           | Some res => ipv6_finish res | None => None end
  | _ => match ipv6_loop 8 s [] None with
         | Some res => ipv6_finish res | None => None end
  end.

Inductive addr :=
  | V4 (b : list Z)
  | V6 (b : list Z) (zone : list ascii).

(** [netip.ParseAddr]: the first dot, colon or percent sign decides. *)
Fixpoint addr_kind (s : list ascii) : option ascii :=
  match s with
  | [] => None
  | c :: r => if ascii_in ["."%char; ":"%char; "%"%char] c then Some c else addr_kind r
  end.

Definition ParseAddr (s : list ascii) : option addr :=
  match addr_kind s with
  | Some c =>
      if Ascii.eqb c "." then option_map V4 (parse_ipv4 s)
      else if Ascii.eqb c ":" then
        match cut_l "%" s with
        | None => option_map (fun b => V6 b []) (parse_ipv6 s)
        | Some (a, []) => None
        | Some (a, z) => option_map (fun b => V6 b z) (parse_ipv6 a)
        end
      else None
  | None => None
  end.

Definition v4_prefix : list Z := [0;0;0;0;0;0;0;0;0;0;255;255].

(** [ip.As16], and [nil] for an address with a zone. *)
Definition as16 (a : addr) : option (list Z) :=
  match a with
  | V4 b => Some (v4_prefix ++ b)
  | V6 b [] => Some b
  | V6 _ _ => None
  end.

Definition bit_len (a : addr) : Z := match a with V4 _ => 32 | V6 _ _ => 128 end.

(** [net.ParseIP]: sixteen bytes, or nil. *)
Definition ParseIP (s : string) : option (list Z) :=
  match ParseAddr (bytes s) with Some a => as16 a | None => None end.

(** [dtoi]: decimal digits up to 0xFFFFFF; the value, how many were read. *)
Fixpoint dtoi (s : list ascii) (n i : Z) : option (Z * Z) :=
  match s with
  | c :: r =>
      if is_digit c then
        let n' := n * 10 + (code c - 48) in
        if 16777215 <=? n' then None else dtoi r n' (i + 1)
      else if i =? 0 then None else Some (n, i)
  | [] => if i =? 0 then None else Some (n, i)
  end.

(** [net.ParseCIDR]: the address and the prefix length. *)
Definition ParseCIDR (s : string) : option (list Z * Z) :=
  match cut_l "/" (bytes s) with
  | None => None
  | Some (a, mask) =>
      match ParseAddr a with
      | None => None
      | Some ad =>
          match as16 ad, dtoi mask 0 0 with
          | Some b, Some (n, i) =>
              if (i =? Z.of_nat (length mask)) && (n <=? bit_len ad)
              then Some (b, n) else None
          | _, _ => None
          end
      end
  end.

(** [ip.To4() != nil] for a sixteen-byte address. *)
Definition is_v4 (ip : list Z) : bool :=
  bool_decide (length ip = 16%nat) && bool_decide (take 12 ip = v4_prefix).

(** A parsed prefix always comes from text with a slash. *)
Lemma ParseCIDR_slash s r : ParseCIDR s = Some r -> "/"%char ∈ bytes s.
Proof.
  unfold ParseCIDR. destruct (cut_l "/" (bytes s)) as [[a m]|] eqn:E; [|done].
  apply cut_l_Some in E as [-> _]. intros _. rewrite elem_of_app. right. left.
Qed.

Lemma dtoi_nonneg s : forall n i n' i', 0 <= n -> dtoi s n i = Some (n', i') -> 0 <= n'.
Proof.
  induction s as [|c s IH]; intros n i n' i' Hn; simpl.
  - repeat case_if; naive_solver.
  - destruct (is_digit c) eqn:Hd; [|case_if; naive_solver].
    case_if; [done|]. apply IH.
    unfold is_digit, between in Hd. apply andb_true_iff in Hd as [Hd _].
    apply Z.leb_le in Hd. change (code "0") with 48 in Hd. lia.
Qed.

Lemma ParseCIDR_bits s b n : ParseCIDR s = Some (b, n) -> 0 <= n <= 128.
Proof.
  unfold ParseCIDR. repeat case_match; try done. intros [= <- <-].
  match goal with H : (_ && _) = true |- _ => apply andb_true_iff in H as [_ Hle] end.
  apply Z.leb_le in Hle. split; [eapply dtoi_nonneg; [|done]; lia|].
  destruct a; simpl in Hle; lia.
Qed.

Example parse_v4 : ParseIP "192.168.1.1" = Some (v4_prefix ++ [192;168;1;1]).
Proof. reflexivity. Qed.

Example parse_v4_bad :
  map ParseIP ["192.168.01.1"; "1.2.3"; "1.2.3.4.5"; "1..2.3"; "256.1.1.1"; "1.2.3.4/8"]
  = replicate 6 None.
Proof. reflexivity. Qed.

Example parse_v6 :
  ParseIP "2001:db8::1" = Some [32;1;13;184;0;0;0;0;0;0;0;0;0;0;0;1] /\
  ParseIP "::ffff:192.168.1.1" = Some (v4_prefix ++ [192;168;1;1]) /\
  ParseIP "::" = Some (replicate 16 0) /\
  map ParseIP ["1:2:3"; ":1"; "1::2::3"; "fe80::1%em0"; "12345::"; "1:2:3:4:5:6:7:8:9"]
  = replicate 6 None.
Proof. vm_compute. done. Qed.

Example parse_cidr :
  ParseCIDR "10.0.0.1/24" = Some (v4_prefix ++ [10;0;0;1], 24) /\
  map ParseCIDR ["10.0.0.1"; "10.0.0.1/33"; "10.0.0.1/"; "10.0.0.1/+8"] = replicate 4 None.
Proof. vm_compute. done. Qed.

(** ** A plain address holds only digits, dots and colons *)

Definition addr_char (c : ascii) : bool :=
  is_digit c || between "a" "f" c || between "A" "F" c || Ascii.eqb c "." || Ascii.eqb c ":".

Section foreign.
Variable x : ascii.
Hypothesis foreign : addr_char x = false.

Lemma foreign_parts : is_digit x = false /\ hex_value x = None /\ x <> "."%char /\ x <> ":"%char.
Proof.
  unfold addr_char in foreign. repeat apply orb_false_iff in foreign as [foreign ?].
  unfold hex_value. unfold is_digit in foreign. rewrite foreign.
  repeat match goal with H : _ = false |- _ => rewrite H end.
  split_and!; try done; by intros ->.
Qed.

Lemma ipv4_fields_foreign s : forall prev val dl acc r, ipv4_fields s prev val dl acc = Some r -> x ∉ s.
Proof.
  destruct foreign_parts as (Hd & _ & Hdot & _).
  induction s as [|c s IH]; intros prev val dl acc r; cbn [ipv4_fields].
  - intros _. by apply not_elem_of_nil.
  - intros H. rewrite not_elem_of_cons. destruct (is_digit c) eqn:Ec.
    + repeat case_match; try done. split; [congruence|by eapply IH].
    + destruct (Ascii.eqb_spec c ".") as [->|]; [|done]. repeat case_match; try done. split; [done|by eapply IH].
Qed.

Lemma hex_group_foreign s : forall off acc a o rest, hex_group s off acc = Some (a, o, rest) -> x ∈ s -> x ∈ rest.
Proof.
  destruct foreign_parts as (_ & Hh & _).
  induction s as [|c s IH]; intros off acc a o rest; cbn [hex_group].
  - intros [= <- <- <-]. done.
  - destruct (hex_value c) as [d|] eqn:Hd.
    + case_if; [done|]. intros H [<-|Hin]%elem_of_cons; [congruence|]. by eapply IH.
    + by intros [= <- <- <-].
Qed.

Lemma ipv6_loop_foreign n : forall s ip ell rest ip' ell',
  ipv6_loop n s ip ell = Some (rest, ip', ell') -> x ∈ s -> x ∈ rest.
Proof.
  destruct foreign_parts as (_ & _ & Hdot & Hcol).
  induction n as [|n IH]; intros s ip ell rest ip' ell'; cbn [ipv6_loop].
  - by intros [= <- <- <-].
  - destruct (hex_group s 0 0) as [[[acc off] r]|] eqn:Hg; [|done].
    intros H Hin. pose proof (hex_group_foreign _ _ _ _ _ _ Hg Hin) as Hr.
    assert (forall v, parse_ipv4 s = Some v -> False) as Hv4.
    { intros v Hv. by apply ipv4_fields_foreign in Hv. }
    destruct (off =? 0); [done|]. destruct r as [|c r]; [by apply elem_of_nil in Hr|].
    destruct (Ascii.eqb c ".").
    { destruct (parse_ipv4 s) eqn:E4; [by destruct (Hv4 l)|]. by repeat case_match. }
    destruct (Ascii.eqb_spec c ":") as [->|]; [|done]. simpl in H.
    apply elem_of_cons in Hr as [|Hr]; [done|].
    destruct r as [|d r]; [done|]. destruct (Ascii.eqb_spec d ":") as [->|].
    + apply elem_of_cons in Hr as [|Hr]; [done|].
      destruct ell as [e|]; [done|]. destruct r as [|e r]; [by apply elem_of_nil in Hr|].
      by eapply IH.
    + by eapply IH.
Qed.

Lemma parse_ipv6_foreign s b : parse_ipv6 s = Some b -> x ∉ s.
Proof.
  destruct foreign_parts as (_ & _ & _ & Hcol).
  assert (forall t ell, match ipv6_loop 8 t [] ell with
            | Some res => ipv6_finish res | None => None end = Some b -> x ∉ t) as Hl.
  { intros t ell. destruct (ipv6_loop 8 t [] ell) as [[[rest ip] e]|] eqn:E; [|done].
    intros H Hin. eapply ipv6_loop_foreign in Hin; [|exact E].
    destruct rest; [by apply elem_of_nil in Hin|done]. }
  unfold parse_ipv6. destruct s as [|c [|d rest]]; [by apply Hl..|].
  destruct (Ascii.eqb_spec c ":") as [->|]; [|by apply Hl].
  destruct (Ascii.eqb_spec d ":") as [->|]; cbn [andb]; [|by apply Hl].
  destruct rest as [|e rest]; [intros _; rewrite !not_elem_of_cons; split_and!; [done..|apply not_elem_of_nil]|].
  intros H%Hl. rewrite !not_elem_of_cons in *. done.
Qed.

Lemma ParseAddr_foreign s a b : ParseAddr s = Some a -> as16 a = Some b -> x ∉ s.
Proof.
  unfold ParseAddr. destruct (addr_kind s) as [c|]; [|done].
  destruct (Ascii.eqb c "."); [|destruct (Ascii.eqb c ":"); [|done]].
  - destruct (parse_ipv4 s) eqn:E; [|done]. intros _ _. by eapply ipv4_fields_foreign.
  - destruct (cut_l "%" s) as [[a' z]|].
    + destruct z; [done|]. destruct (parse_ipv6 a'); [|done]. by intros [= <-].
    + destruct (parse_ipv6 s) eqn:E; [|done]. intros _ _. by eapply parse_ipv6_foreign.
Qed.
End foreign.

Lemma ParseIP_chars s ip : ParseIP s = Some ip -> Forall (fun c => addr_char c = true) (bytes s).
Proof.
  unfold ParseIP. destruct (ParseAddr (bytes s)) as [a|] eqn:E; [|done]. intros Ha.
  apply Forall_forall. intros c Hc. destruct (addr_char c) eqn:Ec; [done|].
  by destruct (ParseAddr_foreign c Ec _ _ _ E Ha).
Qed.

Lemma dtoi_digits s : forall n i n' i', dtoi s n i = Some (n', i') -> i' = i + Z.of_nat (length s) -> forallb is_digit s = true.
Proof.
  induction s as [|c s IH]; intros n i n' i'; simpl; [done|]. intros H Hi.
  destruct (is_digit c) eqn:Ec; [|repeat case_match; simplify_eq; lia].
  case_match; [done|]. eapply IH; [done|lia].
Qed.

(** The text of a prefix: an address, a slash, digits. *)
Lemma ParseCIDR_chars s b n : ParseCIDR s = Some (b, n) ->
  exists a m, bytes s = a ++ "/"%char :: m /\ Forall (fun c => addr_char c = true) a /\ forallb is_digit m = true.
Proof.
  unfold ParseCIDR. destruct (cut_l "/" (bytes s)) as [[a m]|] eqn:Ec; [|done].
  apply cut_l_Some in Ec as [-> _]. destruct (ParseAddr a) as [ad|] eqn:Ea; [|done].
  destruct (as16 ad) as [b'|] eqn:E16; [|done]. destruct (dtoi m 0 0) as [[k i]|] eqn:Ed; [|done].
  destruct ((i =? Z.of_nat (length m)) && (k <=? bit_len ad)) eqn:El; [|done]. intros _.
  apply andb_true_iff in El as [El _]. apply Z.eqb_eq in El. exists a, m. split_and!; [done| |].
  - apply Forall_forall. intros c Hc. destruct (addr_char c) eqn:Ech; [done|]. by destruct (ParseAddr_foreign c Ech _ _ _ Ea E16).
  - eapply dtoi_digits; [done|lia].
Qed.

Lemma ParseIP_no_slash s ip : ParseIP s = Some ip -> "/"%char ∉ bytes s.
Proof. intros Hp%ParseIP_chars Hin. rewrite Forall_forall in Hp. by specialize (Hp _ Hin). Qed.
