(* ===== verification/ProviderTypes.v ===== *)
(** * Package [provider]: data types, states and errors

    The structs of pkg/provider/provider.go the modelled components exchange,
    the error wrapper of pkg/provider/errors.go and the state mapping of
    internal/api/models/state.go.  A Go map with string keys whose iteration
    order the code depends on is the list of its entries in the order they are
    visited; statements that must hold for every order say so. *)

From stdpp Require Import base list strings.
From Stdlib Require Import Ascii ZArith Lia.
From S2P Require Import Prelude GoStrings.

Local Open Scope Z_scope.

(** ** Dynamic values

    What an [interface{}] holds after decoding: a string, a [[]interface{}] or
    [map[string]interface{}] collection, a collection of some other element
    type (reached through [reflect]), a pointer, a whole number as JSON or Go code
    gives it ([float64], [int]) or as TOML gives it ([int64]), a bool, or another
    scalar that carries no text (float, time, nil). *)
Inductive value :=
  | VString (s : string)
  | VSlice (items : list value)
  | VMap (entries : list (string * value))
  | VTypedSlice (items : list value)
  | VTypedMap (entries : list (option string * value))
  | VPointer (target : option value)
  | VInt (n : Z)
  | VInt64 (n : Z)
  | VBool (b : bool)
  | VScalar.

(** ** Instances *)

Record InstanceHandle := {
  Handle_ID : string;
  Handle_Provider : string;
  Handle_Metadata : list (string * value)
}.

Record CloudInitConfig := {
  CI_UserData : string;
  CI_MetaData : string;
  CI_Network : string
}.

Record DiskSpec := {
  Disk_ID : string;
  Disk_Type : string;
  Disk_Path : string;
  Disk_SizeGB : Z;
  Disk_Bootable : bool;
  Disk_ReadOnly : bool;
  Disk_Cache : string;
  Disk_DeviceName : string;
  Disk_SectorSize : Z
}.

Record NetworkSpec := {
  Net_ID : string;
  Net_Type : string;
  Net_Bridge : string;
  Net_BridgeFlags : list string;
  Net_VLAN : Z;
  Net_MAC : string;
  Net_IPv4 : string;
  Net_IPv6 : string;
  Net_IPPool : string;
  Net_MTU : Z
}.

Record InstanceSpec := {
  Spec_Name : string;
  Spec_Description : string;
  Spec_CPUs : Z;
  Spec_MemoryMB : Z;
  Spec_MaxProc : Z;
  Spec_ReadBPS : Z;
  Spec_WriteBPS : Z;
  Spec_ReadIOPS : Z;
  Spec_WriteIOPS : Z;
  Spec_Image : string;
  Spec_OSType : string;
  Spec_OSVersion : string;
  Spec_Arch : string;
  Spec_CloudInit : option CloudInitConfig;
  Spec_Bootloader : string;
  Spec_Disks : list DiskSpec;
  Spec_Networks : list NetworkSpec;
  Spec_ProviderConfig : list (string * value);
  Spec_Labels : list (string * string);
  Spec_Annotations : list (string * string)
}.

Record StopOptions := { Stop_Force : bool; Stop_Timeout : Z }.

Record ExecOptions := {
  Exec_Command : string;
  Exec_Args : list string;
  Exec_Env : list (string * string);
  Exec_WorkingDir : string;
  Exec_User : string;
  Exec_Timeout : Z
}.

Record ExecResult := {
  ER_ExitCode : Z;
  ER_Stdout : string;
  ER_Stderr : string
}.

(** [InstanceState] is a string type: any string is a value of it. *)
Definition StateUnknown : string := "unknown".
Definition StateCreating : string := "creating".
Definition StateStopped : string := "stopped".
Definition StateStarting : string := "starting".
Definition StateRunning : string := "running".
Definition StatePaused : string := "paused".
Definition StateStopping : string := "stopping".
Definition StateMigrating : string := "migrating".
Definition StateDeleting : string := "deleting".
Definition StateError : string := "error".

(** ** Unified status (internal/api/models) *)

Inductive HospitusStatus :=
  | StatusOnline | StatusOffline | StatusPending | StatusError | StatusUnknown.

#[export] Instance HospitusStatus_eq_dec : EqDecision HospitusStatus.
Proof. solve_decision. Defined.

Definition MapInstanceState (state : string) : HospitusStatus :=
  if streq state StateRunning then StatusOnline
  else if streq state StateStopped then StatusOffline
  else if existsb (streq state) [StateCreating; StateStarting; StateStopping; StateDeleting]
  then StatusPending
  else if streq state StateError then StatusError
  else if streq state StatePaused then StatusOffline
  else StatusUnknown.

Definition MapNodeStatus (status : string) : HospitusStatus :=
  if existsb (streq status) ["online"; "active"] then StatusOnline
  else if existsb (streq status) ["offline"; "unreachable"] then StatusOffline
  else if existsb (streq status) ["unknown"; ""] then StatusUnknown
  else StatusError.

(** ** Provider errors *)

Definition NewProviderError (provider operation instanceID : string) (err : error) : error :=
  Typed "ProviderError" [provider; operation; instanceID] err.

Definition WrapError (providerName operation instanceID : string) (err : option error)
    : option error :=
  match err with
  | None => None
  | Some e =>
      if errors_As e "ProviderError" then Some e
      else Some (NewProviderError providerName operation instanceID e)
  end.

Definition ErrInstanceNotFound : error := Sentinel "instance not found".
Definition ErrInstanceExists : error := Sentinel "instance already exists".

Lemma WrapError_As p o i err e :
  WrapError p o i err = Some e -> errors_As e "ProviderError" = true.
Proof. unfold WrapError. repeat case_match; naive_solver. Qed.

Lemma WrapError_Is p o i err e t :
  WrapError p o i (Some err) = Some e -> errors_Is e t = errors_Is err t.
Proof. unfold WrapError. repeat case_match; naive_solver. Qed.
