(* ===== verification/Validation.v ===== *)
(** * Package [validation]: input validators (pkg/validation/validation.go)

    Every validator returns [None] for the nil error.  A body of early returns
    is the list of its guards, in the source's order, under [first_error]. *)

From stdpp Require Import base list sets strings pretty.
From Stdlib Require Import Ascii ZArith Lia.
From S2P Require Import Prelude GoStrings Regexp GoNet ProviderTypes.

Local Open Scope Z_scope.

(** ** Character classes and patterns *)

Definition lower (c : ascii) : bool := between "a" "z" c.
Definition alpha (c : ascii) : bool := lower c || between "A" "Z" c.
Definition alnum (c : ascii) : bool := alpha c || is_digit c.
Definition lower_digit (c : ascii) : bool := lower c || is_digit c.
Definition one_of (chars : string) (c : ascii) : bool := ascii_in (bytes chars) c.
Definition hex_digit (c : ascii) : bool :=
  is_digit c || between "A" "F" c || between "a" "f" c.

Definition ValidInstanceNameRegex : re :=
  Seq (Cls alnum) (UpTo 62 (Cls (fun c => alnum c || one_of "_-" c))).

Definition validSnapshotNameRegex : re :=
  Seq (Cls alnum) (UpTo 62 (Cls (fun c => alnum c || one_of "_.-" c))).

Definition validProviderNameRegex : re :=
  Seq (Cls lower) (UpTo 31 (Cls (fun c => lower_digit c || one_of "-" c))).

Definition labelSegment : re :=
  Seq (Cls lower_digit)
    (Opt (Seq (Star (Cls (fun c => lower_digit c || one_of "-." c)))
              (Cls lower_digit))).
Definition validLabelKeyRegex : re :=
  Seq labelSegment (Star (Seq (Chr "/") labelSegment)).

Definition validUsernameRegex : re :=
  Seq (Cls (fun c => lower c || one_of "_" c))
      (UpTo 31 (Cls (fun c => lower_digit c || one_of "_-" c))).

Definition validMACRegex : re :=
  Seq (Times 5 (Seq (Times 2 (Cls hex_digit)) (Chr ":"))) (Times 2 (Cls hex_digit)).

(** Quote, backslash, newline, carriage return and tab are written by code. *)
Definition commandInjectionChars : string :=
  of_bytes (bytes ";&|$`(){}[]<>" ++ [ascii_of_nat 92; ascii_of_nat 34; "'"%char;
                                      ascii_of_nat 10; ascii_of_nat 13; ascii_of_nat 9]).

(** ** Names *)

Definition ValidateInstanceName (name : string) : option error :=
  first_error [
    fail_if (streq name "") (Errorf "instance name cannot be empty" []);
    fail_if (63 <? len name) (Errorf "instance name too long (max 63 characters)" []);
    fail_if (negb (MatchString ValidInstanceNameRegex name))
      (Errorf "invalid instance name: must be 1-63 alphanumeric characters, dash, or underscore, starting with alphanumeric" [])].

Definition ValidateSnapshotName (name : string) : option error :=
  first_error [
    fail_if (streq name "") (Errorf "snapshot name cannot be empty" []);
    fail_if (63 <? len name) (Errorf "snapshot name too long (max 63 characters)" []);
    fail_if (negb (MatchString validSnapshotNameRegex name))
      (Errorf "invalid snapshot name: must be alphanumeric with dash, underscore, or dot (1-63 chars)" []);
    fail_if (Contains name "..") (Errorf "invalid snapshot name: path traversal not allowed" []);
    fail_if (HasPrefix name "/" || HasPrefix name "\")
      (Errorf "invalid snapshot name: cannot start with path separator" []);
    fail_if (ContainsAny name commandInjectionChars)
      (Errorf "invalid snapshot name: contains invalid characters" [])].

Definition ValidateProviderName (name : string) : option error :=
  first_error [
    fail_if (streq name "") (Errorf "provider name cannot be empty" []);
    fail_if (negb (MatchString validProviderNameRegex name))
      (Errorf "invalid provider name: must be lowercase alphanumeric with dashes (max 32 chars)" [])].

Definition ValidateResourceLimits (cpus memoryMB : Z) : option error :=
  first_error [
    fail_if (cpus <? 1) (Errorf "CPUs must be at least 1" []);
    fail_if (1024 <? cpus) (Errorf "CPUs cannot exceed 1024" []);
    fail_if (memoryMB <? 128) (Errorf "memory must be at least 128 MB" []);
    fail_if (4 * 1024 * 1024 <? memoryMB) (Errorf "memory cannot exceed 4 TB" [])].

Definition labelValueChars : string :=
  of_bytes ["'"%char; ascii_of_nat 34; ascii_of_nat 92; ";"%char].

Definition ValidateLabel (key val : string) : option error :=
  first_error [
    fail_if (streq key "") (Errorf "label key cannot be empty" []);
    fail_if (negb (MatchString validLabelKeyRegex key)) (Errorf "invalid label key format" []);
    fail_if (253 <? len key) (Errorf "label key too long (max 253 characters)" []);
    fail_if (253 <? len val) (Errorf "label value too long (max 253 characters)" []);
    fail_if (negb (ValidString val)) (Errorf "label value must be valid UTF-8" []);
    fail_if (ContainsAny val labelValueChars)
      (Errorf "label value contains invalid characters" [])].

Definition ValidateFilePath (path : string) (allowAbsolute : bool) : option error :=
  first_error [
    fail_if (streq path "") (Errorf "path cannot be empty" []);
    fail_if (Contains path "..") (Errorf "path cannot contain '..'" []);
    fail_if (negb allowAbsolute && (HasPrefix path "/" || HasPrefix path "\"))
      (Errorf "absolute paths not allowed" []);
    fail_if (ContainsNul path) (Errorf "path cannot contain null bytes" [])].

Definition ValidateIPAddress (ip : string) : option error :=
  if streq ip "" then Some (Errorf "IP address cannot be empty" [])
  else match ParseCIDR ip with
       | Some _ => None
       | None => match ParseIP ip with
                 | None => Some (Errorf "invalid IP address format: %s" [ip])
                 | Some _ => None
                 end
       end.

Definition validServiceName : re :=
  Seq (Cls alpha) (UpTo 63 (Cls (fun c => alnum c || one_of "_-" c))).

Definition ValidateServiceName (name : string) : option error :=
  fail_if (negb (MatchString validServiceName name))
    (Errorf "invalid service name %q: expected a plain rc.d script name" [name]).

Definition allowedParams : list string :=
  ["host.hostname"; "path"; "ip4.addr"; "ip6.addr"; "allow.raw_sockets"; "mount.devfs";
   "exec.start"; "exec.stop"; "persist"; "allow.chflags"; "allow.mount";
   "allow.set_hostname"; "allow.sysvipc"; "sysvmsg"; "sysvsem"; "sysvshm";
   "enforce_statfs"; "mount.fstab"; "allow.mount.linprocfs"; "allow.mount.linsysfs"].

Definition ValidateJailParameter (key : string) : option error :=
  fail_if (negb (existsb (streq key) allowedParams))
    (Errorf "jail parameter '%s' not allowed" [key]).

Definition ValidateJailParameterValue (val : string) : option error :=
  fail_if (ContainsAny val commandInjectionChars)
    (Errorf "parameter value contains invalid characters" []).

(** ** Provider configuration values *)

Definition validateConfigKey (k : string) : option error :=
  first_error [
    fail_if (ContainsNul k) (Errorf "provider config holds a key containing a null byte" []);
    fail_if (negb (ValidString k))
      (Errorf "provider config holds a key that is not valid UTF-8" [])].

(** The reflective walk over a typed collection; [rec] is the call back into
    [validateProviderConfigValue] with [nested] set. *)
Definition validateNestedCollection (rec : value -> option error) (v : value)
    : option error :=
  match v with
  | VTypedSlice items => for_each rec items
  | VTypedMap entries =>
      for_each (fun '(k, item) =>
        first_error [match k with Some s => validateConfigKey s | None => None end;
                     rec item]) entries
  | VPointer (Some t) => rec t
  | _ => None
  end.

Fixpoint validateProviderConfigValue (nested : bool) (v : value) {struct v} : option error :=
  match v with
  | VString s =>
      if negb nested then ValidateJailParameterValue s
      else first_error [
        fail_if (ContainsNul s) (Errorf "provider config value contains a null byte" []);
        fail_if (negb (ValidString s)) (Errorf "provider config value is not valid UTF-8" [])]
  | VSlice items => for_each (validateProviderConfigValue true) items
  | VMap entries =>
      for_each (fun '(k, item) =>
        first_error [validateConfigKey k; validateProviderConfigValue true item]) entries
  | VTypedSlice _ | VTypedMap _ | VPointer _ | VInt _ | VInt64 _ | VBool _ | VScalar =>
      validateNestedCollection (validateProviderConfigValue true) v
  end.

Definition ValidateProviderConfigEntry (key : string) (v : value) : option error :=
  first_error [
    fail_if (streq key "") (Errorf "provider config key cannot be empty" []);
    fail_if (negb (ValidString key)) (Errorf "provider config key must be valid UTF-8" []);
    fail_if (ContainsAny key (commandInjectionChars +:+ "/"))
      (Errorf "provider config key contains invalid characters" []);
    fail_if (128 <? len key) (Errorf "provider config key too long (max 128 characters)" []);
    validateProviderConfigValue false v].

(** ** Environment, interfaces, commands *)

Definition ValidEnvKeyRegex : re :=
  Seq (Cls (fun c => alpha c || one_of "_" c)) (Star (Cls (fun c => alnum c || one_of "_" c))).

Definition dangerousVars : list string :=
  ["PATH"; "LD_PRELOAD"; "LD_LIBRARY_PATH"; "DYLD_INSERT_LIBRARIES"; "DYLD_LIBRARY_PATH";
   "IFS"; "SHELL"; "ENV"; "BASH_ENV"].

Definition bad_control_rune (r : Z) : bool :=
  (r <? 32) && negb (r =? 9) && negb (r =? 10).

Definition ValidateEnvVar (key val : string) : option error :=
  first_error [
    fail_if (streq key "") (Errorf "environment variable name cannot be empty" []);
    fail_if (negb (MatchString ValidEnvKeyRegex key))
      (Errorf "invalid environment variable name: %s (must be alphanumeric with underscores, not starting with digit)" [key]);
    fail_if (existsb (streq (ToUpper key)) dangerousVars)
      (Errorf "environment variable %s is not allowed for security reasons" [key]);
    fail_if (ContainsNul val) (Errorf "environment variable value cannot contain null bytes" []);
    fail_if (existsb bad_control_rune (runes val))
      (Errorf "environment variable value contains invalid control character" [])].

Definition ValidInterfaceNameRegex : re :=
  Seq (Cls alpha) (UpTo 14 (Cls (fun c => alnum c || one_of "_-" c))).

Definition ValidateInterfaceName (name : string) : option error :=
  first_error [
    fail_if (streq name "") (Errorf "interface name cannot be empty" []);
    fail_if (15 <? len name) (Errorf "interface name too long (max 15 characters)" []);
    fail_if (negb (MatchString ValidInterfaceNameRegex name))
      (Errorf "invalid interface name: must be alphanumeric starting with letter (max 15 chars)" []);
    fail_if (ContainsAny name commandInjectionChars)
      (Errorf "interface name contains invalid characters" [])].

Definition ValidateBridgeName (name : string) : option error :=
  wrap "invalid bridge name: %w" [] (ValidateInterfaceName name).

Definition IsShellInterpreter (cmd : string) : bool :=
  let base := match CutLast cmd "/" with Some (_, b) => b | None => cmd end in
  existsb (streq base) ["sh"; "bash"; "dash"; "zsh"; "ksh"; "csh"; "tcsh"].

Definition ValidateExecCommand (cmd : string) : option error :=
  first_error [
    fail_if (streq cmd "") (Errorf "command cannot be empty" []);
    fail_if (ContainsAny cmd commandInjectionChars)
      (Errorf "command contains invalid characters" []);
    fail_if (Contains cmd "..") (Errorf "command cannot contain path traversal sequences" []);
    fail_if (negb (ValidString cmd)) (Errorf "command must be valid UTF-8" [])].

Definition ValidateExecArgument (arg : string) : option error :=
  first_error [
    fail_if (ContainsAny arg (of_bytes [zero; ascii_of_nat 13]))
      (Errorf "argument contains an invalid control character" []);
    fail_if (negb (ValidString arg)) (Errorf "argument must be valid UTF-8" [])].

Definition ValidateUsername (username : string) : option error :=
  first_error [
    fail_if (streq username "") (Errorf "username cannot be empty" []);
    fail_if (negb (MatchString validUsernameRegex username)) (Errorf "invalid username format" [])].

Definition ValidateExecOptions (opts : ExecOptions) : option error :=
  first_error [
    wrap "invalid command: %w" [] (ValidateExecCommand (Exec_Command opts));
    for_each (fun arg => wrap "invalid argument: %w" [] (ValidateExecArgument arg))
      (Exec_Args opts);
    when (negb (streq (Exec_User opts) ""))
      (wrap "invalid user: %w" [] (ValidateUsername (Exec_User opts)));
    when (negb (streq (Exec_WorkingDir opts) ""))
      (wrap "invalid working directory: %w" [] (ValidateFilePath (Exec_WorkingDir opts) true));
    for_each (fun '(k, v) => wrap "invalid environment variable: %w" [] (ValidateEnvVar k v))
      (Exec_Env opts)].

Definition validateSafeField (name val : string) : option error :=
  when (negb (streq val "")) (first_error [
    fail_if (negb (ValidString val)) (Errorf "%s must be valid UTF-8" [name]);
    fail_if (ContainsAny val commandInjectionChars)
      (Errorf "%s contains invalid characters" [name])]).

(** ** Disks and networks *)

Definition ValidateDiskSpec (disk : DiskSpec) : option error :=
  first_error [
    when (negb (streq (Disk_ID disk) "")) (first_error [
      fail_if (negb (ValidString (Disk_ID disk))) (Errorf "disk ID must be valid UTF-8" []);
      fail_if (ContainsAny (Disk_ID disk) commandInjectionChars)
        (Errorf "disk ID contains invalid characters" [])]);
    when (negb (streq (Disk_Path disk) "")) (first_error [
      fail_if (negb (ValidString (Disk_Path disk))) (Errorf "disk path must be valid UTF-8" []);
      fail_if (Contains (Disk_Path disk) "..")
        (Errorf "disk path contains path traversal sequences" [])]);
    when (negb (streq (Disk_DeviceName disk) "")) (first_error [
      fail_if (negb (ValidString (Disk_DeviceName disk)))
        (Errorf "device name must be valid UTF-8" []);
      fail_if (ContainsAny (Disk_DeviceName disk) commandInjectionChars)
        (Errorf "device name contains invalid characters" [])])].

Definition requirePrefixLength (addr : string) : option error :=
  fail_if (negb (Contains addr "/"))
    (Errorf "%s has no prefix length; write it as %s/24 or whatever the network uses" [addr; addr]).

Definition requireFamily (addr : string) (family : Z) : option error :=
  let ip := match ParseIP addr with
            | Some ip => Some ip
            | None => match ParseCIDR addr with Some (parsed, _) => Some parsed | None => None end
            end in
  match ip with
  | None => None
  | Some ip =>
      let isV4 := is_v4 ip in
      if (family =? 4) && negb isV4
      then Some (Errorf "%s is an IPv6 address in an IPv4 field" [addr])
      else if (family =? 6) && isV4
      then Some (Errorf "%s is an IPv4 address in an IPv6 field" [addr])
      else None
  end.

Definition allowedBridgePortFlags : list string :=
  ["private"; "-private"; "span"; "-span"; "sticky"; "-sticky"; "learn"; "-learn";
   "discover"; "-discover"].

Definition ValidateBridgeFlag (flag : string) : option error :=
  fail_if (negb (existsb (streq flag) allowedBridgePortFlags))
    (Errorf "bridge flag %q not allowed" [flag]).

Definition ValidateNetworkSpec (network : NetworkSpec) : option error :=
  first_error [
    when (negb (streq (Net_ID network) "")) (first_error [
      fail_if (negb (ValidString (Net_ID network))) (Errorf "network ID must be valid UTF-8" []);
      fail_if (ContainsAny (Net_ID network) commandInjectionChars)
        (Errorf "network ID contains invalid characters" [])]);
    when (negb (streq (Net_Bridge network) ""))
      (wrap "invalid bridge name: %w" [] (ValidateBridgeName (Net_Bridge network)));
    when (negb (streq (Net_MAC network) "")) (first_error [
      fail_if (negb (ValidString (Net_MAC network))) (Errorf "MAC address must be valid UTF-8" []);
      fail_if (negb (MatchString validMACRegex (Net_MAC network)))
        (Errorf "invalid MAC address format" [])]);
    when (negb (streq (Net_IPv4 network) "") && negb (streq (Net_IPv4 network) "dhcp"))
      (first_error [
        requireFamily (Net_IPv4 network) 4;
        wrap "invalid IPv4 address: %w" [] (ValidateIPAddress (Net_IPv4 network));
        wrap "invalid IPv4 address: %w" [] (requirePrefixLength (Net_IPv4 network))]);
    when (negb (streq (Net_IPv6 network) "")) (first_error [
      fail_if (existsb (streq (Net_IPv6 network)) ["dhcp"; "auto"; "slaac"])
        (Errorf "network IPv6 takes a static address; %q is not a supported value" [Net_IPv6 network]);
      requireFamily (Net_IPv6 network) 6;
      wrap "invalid IPv6 address: %w" [] (ValidateIPAddress (Net_IPv6 network));
      wrap "invalid IPv6 address: %w" [] (requirePrefixLength (Net_IPv6 network))]);
    for_each ValidateBridgeFlag (Net_BridgeFlags network);
    fail_if ((Net_VLAN network <? 0) || (4094 <? Net_VLAN network))
      (Errorf "invalid VLAN id %d (must be 0-4094)" [pretty (Net_VLAN network)])].

(** ** Whole instance specifications *)

Definition ValidateAnnotation (k v : string) : option error :=
  first_error [
    fail_if (negb (ValidString k)) (Errorf "annotation key must be valid UTF-8" []);
    fail_if (negb (ValidString v)) (Errorf "annotation value must be valid UTF-8" []);
    fail_if (253 <? len k) (Errorf "annotation key too long (max 253 characters)" []);
    fail_if (1000 <? len v) (Errorf "annotation value too long (max 1000 characters)" [])].

Definition ValidateCloudInit (ci : CloudInitConfig) : option error :=
  first_error [
    fail_if (negb (streq (CI_UserData ci) "") && negb (ValidString (CI_UserData ci)))
      (Errorf "cloud-init user data must be valid UTF-8" []);
    fail_if (negb (streq (CI_MetaData ci) "") && negb (ValidString (CI_MetaData ci)))
      (Errorf "cloud-init meta data must be valid UTF-8" []);
    fail_if (negb (streq (CI_Network ci) "") && negb (ValidString (CI_Network ci)))
      (Errorf "cloud-init network data must be valid UTF-8" [])].

Definition ValidateInstanceSpec (spec : InstanceSpec) : option error :=
  first_error [
    wrap "invalid instance name: %w" [] (ValidateInstanceName (Spec_Name spec));
    when (negb (streq (Spec_Description spec) "")) (first_error [
      fail_if (negb (ValidString (Spec_Description spec)))
        (Errorf "description must be valid UTF-8" []);
      fail_if (1000 <? len (Spec_Description spec))
        (Errorf "description too long (max 1000 characters)" [])]);
    when (negb (streq (Spec_Image spec) "")) (first_error [
      fail_if (negb (ValidString (Spec_Image spec))) (Errorf "image name must be valid UTF-8" []);
      fail_if (Contains (Spec_Image spec) "..")
        (Errorf "image name contains invalid characters" [])]);
    validateSafeField "OS type" (Spec_OSType spec);
    validateSafeField "OS version" (Spec_OSVersion spec);
    validateSafeField "architecture" (Spec_Arch spec);
    validateSafeField "bootloader" (Spec_Bootloader spec);
    match Spec_CloudInit spec with Some ci => ValidateCloudInit ci | None => None end;
    for_each (fun '(k, v) =>
      wrap "invalid provider config: %w" [] (ValidateProviderConfigEntry k v))
      (Spec_ProviderConfig spec);
    for_each (fun '(k, v) => wrap "invalid label: %w" [] (ValidateLabel k v)) (Spec_Labels spec);
    for_each (fun '(k, v) => ValidateAnnotation k v) (Spec_Annotations spec);
    for_each (fun disk => wrap "invalid disk spec: %w" [] (ValidateDiskSpec disk))
      (Spec_Disks spec);
    for_each (fun net => wrap "invalid network spec: %w" [] (ValidateNetworkSpec net))
      (Spec_Networks spec)].

(** ** SSH destinations *)

Definition sshHostRegex : re :=
  let word := Seq (Cls alnum) (Star (Cls (fun c => alnum c || one_of "._-" c))) in
  Seq (Opt (Seq word (Chr "@"))) word.

Definition zfsDatasetRegex : re :=
  Seq (Cls alnum) (Star (Cls (fun c => alnum c || one_of "_./-" c))).

(** [strings.SplitN(dest, ":", 2)] has two parts exactly when a colon occurs,
    and then cuts at the first one. *)
Definition ValidateSSHDestination (dest : string) : result (string * string) :=
  let bad := Err (Errorf "destination must be in format [user@]host:pool/dataset, got %q" [dest]) in
  match Cut dest ":" with
  | None => bad
  | Some (host, path) =>
      if streq host "" || streq path "" then bad
      else if negb (MatchString sshHostRegex host)
      then Err (Errorf "invalid SSH host %q: must match [user@]hostname" [host])
      else if negb (MatchString zfsDatasetRegex path)
      then Err (Errorf "invalid ZFS dataset path %q: must match pool/dataset" [path])
      else Ok (host, path)
  end.
