(* ===== verification/ValidationFacts.v ===== *)
(** * What the validators guarantee

    Exact languages of the name validators, safety of what they accept, the
    walk over nested provider configuration, and the guarantees a validated
    network, destination, environment and instance specification carry. *)

From stdpp Require Import base list sets strings.
From Stdlib Require Import Ascii ZArith Lia.
From S2P Require Import Prelude GoStrings Regexp GoNet ProviderTypes Validation.

Local Open Scope Z_scope.

(** ** Shared vocabulary *)

(** A byte no shell, path or option parser gives a meaning to. *)
Definition plain_char (c : ascii) : bool := alnum c || one_of "_-" c.
Definition dotted_char (c : ascii) : bool := alnum c || one_of "_.-" c.
Definition harmless (c : ascii) : bool :=
  (code c <? 128) && negb (ascii_in (bytes commandInjectionChars) c)
  && negb (ascii_in [zero] c).

Lemma dotted_harmless c : dotted_char c = true -> harmless c = true.
Proof.
  intros H. pose proof (forall_ascii (fun c => negb (dotted_char c) || harmless c)
    ltac:(vm_compute; reflexivity) c) as E. simpl in E. by rewrite H in E.
Qed.

Lemma plain_dotted c : plain_char c = true -> dotted_char c = true.
Proof.
  intros H. pose proof (forall_ascii (fun c => negb (plain_char c) || dotted_char c)
    ltac:(vm_compute; reflexivity) c) as E. simpl in E. by rewrite H in E.
Qed.

Lemma alnum_plain c : alnum c = true -> plain_char c = true.
Proof. unfold plain_char. by intros ->. Qed.

Lemma alpha_alnum c : alpha c = true -> alnum c = true.
Proof. unfold alnum. by intros ->. Qed.

#[export] Hint Resolve dotted_harmless plain_dotted alnum_plain alpha_alnum : core.

(** Text made of harmless bytes: valid UTF-8, no injection character, no NUL. *)
Definition safe_text (s : string) : Prop :=
  ValidString s = true /\ ContainsAny s commandInjectionChars = false
  /\ ContainsNul s = false.

Lemma harmless_safe s : Forall (fun c => harmless c = true) (bytes s) -> safe_text s.
Proof.
  intros H. unfold safe_text. split_and!.
  - apply ValidString_ascii. eapply Forall_impl; [done|]. intros c Hc. simpl in Hc.
    unfold harmless in Hc. rewrite !andb_true_iff in Hc. destruct Hc as [[Hc _] _].
    by apply Z.ltb_lt.
  - apply ContainsAny_false. eapply Forall_impl; [done|]. intros c Hc. simpl in Hc.
    unfold harmless in Hc. rewrite !andb_true_iff, !negb_true_iff in Hc.
    destruct Hc as [[_ Hc] _]. by apply ascii_in_false.
  - apply ContainsNul_false. rewrite Forall_forall in H. intros Hz.
    by specialize (H _ Hz).
Qed.

(** A name no file operation resolves outside its directory: one path
    component, not [..] nor anything containing it, not an option. *)
Definition safe_component (s : string) : Prop :=
  safe_text s /\ "/"%char ∉ bytes s /\ Contains s ".." = false
  /\ s <> "" /\ HasPrefix s "-" = false /\ HasPrefix s "." = false.

(** The shape [p q{0,n}] as a predicate on strings. *)
Definition shaped (p q : ascii -> bool) (n : nat) (s : string) : Prop :=
  exists c t, bytes s = c :: t /\ p c = true /\ Forall (fun d => q d = true) t
              /\ (length t <= n)%nat.

Lemma shaped_len p q n s : shaped p q n s -> 1 <= len s <= Z.of_nat n + 1.
Proof. intros (c & t & E & _ & _ & Hn). unfold len. rewrite E. simpl. lia. Qed.

Lemma shaped_nonempty p q n s : shaped p q n s -> s <> "".
Proof. intros (c & t & E & _) ->. done. Qed.

Lemma shaped_all p q n s P :
  (forall c, p c = true -> P c = true) -> (forall c, q c = true -> P c = true) ->
  shaped p q n s -> Forall (fun c => P c = true) (bytes s).
Proof.
  intros Hp Hq (c & t & -> & Hc & Ht & _). constructor; [auto|].
  eapply Forall_impl; eauto.
Qed.

Lemma shaped_safe_text p q n s :
  (forall c, p c = true -> dotted_char c = true) ->
  (forall c, q c = true -> dotted_char c = true) ->
  shaped p q n s -> safe_text s.
Proof.
  intros Hp Hq H. apply harmless_safe.
  apply (shaped_all p q n s harmless); [| |done]; auto.
Qed.

Lemma shaped_head p q n s c :
  shaped p q n s -> p c = false -> HasPrefix s (String c "") = false.
Proof.
  intros (d & t & E & Hd & _) Hc. unfold HasPrefix. rewrite E. simpl.
  destruct (Ascii.eqb_spec c d) as [->|]; [congruence|done].
Qed.

Lemma no_char (P : ascii -> bool) s c :
  Forall (fun d => P d = true) (bytes s) -> P c = false -> c ∉ bytes s.
Proof. rewrite Forall_forall. intros H Hc Hin. apply H in Hin. congruence. Qed.

(** A needle with a byte the text lacks does not occur. *)
Lemma Contains_absent s sub c :
  c ∈ bytes sub -> c ∉ bytes s -> Contains s sub = false.
Proof.
  intros Hsub Hs. destruct (Contains s sub) eqn:E; [|done].
  apply Contains_spec in E as (u & v & ->). rewrite !bytes_app in Hs. set_solver.
Qed.

(** ** The languages of the name validators *)

Lemma ValidateInstanceName_shape name :
  ValidateInstanceName name = None <-> shaped alnum plain_char 62 name.
Proof.
  unfold ValidateInstanceName, ValidInstanceNameRegex. accepted.
  rewrite match_head_upto. fold (shaped alnum plain_char 62 name). split; [tauto|].
  intros H. pose proof (shaped_len _ _ _ _ H). pose proof (shaped_nonempty _ _ _ _ H).
  split_and!; try done. apply Z.ltb_ge. lia.
Qed.

(** An accepted snapshot name has no use for the checks that follow the
    pattern, [..] apart. *)
Lemma ValidateSnapshotName_shape name :
  ValidateSnapshotName name = None <->
  shaped alnum dotted_char 62 name /\ Contains name ".." = false.
Proof.
  unfold ValidateSnapshotName, validSnapshotNameRegex. accepted.
  rewrite match_head_upto. fold (shaped alnum dotted_char 62 name). split; [tauto|].
  intros [H Hd]. pose proof (shaped_len _ _ _ _ H). pose proof (shaped_nonempty _ _ _ _ H).
  assert (safe_text name) as (_ & Hi & _).
  { eapply shaped_safe_text; [| |exact H]; auto. }
  split_and!; try done; [apply Z.ltb_ge; lia|].
  by rewrite !(shaped_head _ _ _ _ _ H).
Qed.

Lemma ValidateInterfaceName_shape name :
  ValidateInterfaceName name = None <-> shaped alpha plain_char 14 name.
Proof.
  unfold ValidateInterfaceName, ValidInterfaceNameRegex. accepted.
  rewrite match_head_upto. fold (shaped alpha plain_char 14 name). split; [tauto|].
  intros H. pose proof (shaped_len _ _ _ _ H). pose proof (shaped_nonempty _ _ _ _ H).
  assert (safe_text name) as (_ & Hi & _).
  { eapply shaped_safe_text; [| |exact H]; auto. }
  split_and!; try done. apply Z.ltb_ge. lia.
Qed.

Lemma ValidateBridgeName_shape name :
  ValidateBridgeName name = None <-> shaped alpha plain_char 14 name.
Proof. unfold ValidateBridgeName. rewrite wrap_None. apply ValidateInterfaceName_shape. Qed.

Lemma ValidateServiceName_shape name :
  ValidateServiceName name = None <-> shaped alpha plain_char 63 name.
Proof.
  unfold ValidateServiceName, validServiceName. accepted. apply match_head_upto.
Qed.

Lemma shaped_safe p n s :
  (forall c, p c = true -> alnum c = true) -> shaped p plain_char n s -> safe_component s.
Proof.
  intros Hp H.
  assert (Forall (fun c => plain_char c = true) (bytes s)) as Hall.
  { eapply shaped_all; [|done|exact H]. eauto. }
  unfold safe_component. split_and!.
  - apply harmless_safe. eapply Forall_impl; eauto.
  - by eapply no_char.
  - apply (Contains_absent _ _ "."); [set_solver|by eapply no_char].
  - by eapply shaped_nonempty.
  - eapply shaped_head; [done|]. destruct (p "-"%char) eqn:E; [|done]. by apply Hp in E.
  - eapply shaped_head; [done|]. destruct (p "."%char) eqn:E; [|done]. by apply Hp in E.
Qed.

Lemma snapshot_safe s :
  shaped alnum dotted_char 62 s -> Contains s ".." = false -> safe_component s.
Proof.
  intros H Hd.
  assert (Forall (fun c => dotted_char c = true) (bytes s)) as Hall.
  { eapply shaped_all; [|done|exact H]. eauto. }
  unfold safe_component. split_and!.
  - apply harmless_safe. eapply Forall_impl; eauto.
  - by eapply no_char.
  - done.
  - by eapply shaped_nonempty.
  - by eapply shaped_head.
  - by eapply shaped_head.
Qed.

(** ** Provider configuration: the walk reaches every text

    [texts] lists every string leaf and every string key of a value, at any
    depth and inside typed collections and pointers. *)
Fixpoint texts (v : value) : list string :=
  match v with
  | VString s => [s]
  | VSlice items | VTypedSlice items => concat (map texts items)
  | VMap entries => concat (map (fun '(k, item) => k :: texts item) entries)
  | VTypedMap entries =>
      concat (map (fun '(k, item) =>
        match k with Some s => [s] | None => [] end ++ texts item) entries)
  | VPointer (Some t) => texts t
  | VPointer None | VInt _ | VInt64 _ | VBool _ | VScalar => []
  end.

Definition clean_text (s : string) : Prop := ContainsNul s = false /\ ValidString s = true.

(** Induction over values that reaches the elements of collections. *)
Section value_induction.
Variable P : value -> Prop.
Hypothesis HString : forall s, P (VString s).
Hypothesis HSlice : forall l, Forall P l -> P (VSlice l).
Hypothesis HMap : forall l, Forall (fun e => P (snd e)) l -> P (VMap l).
Hypothesis HTypedSlice : forall l, Forall P l -> P (VTypedSlice l).
Hypothesis HTypedMap : forall l, Forall (fun e => P (snd e)) l -> P (VTypedMap l).
Hypothesis HPointer : forall t, match t with Some v => P v | None => True end -> P (VPointer t).
Hypothesis HInt : forall n, P (VInt n).
Hypothesis HInt64 : forall n, P (VInt64 n).
Hypothesis HBool : forall b, P (VBool b).
Hypothesis HScalar : P VScalar.

Fixpoint value_ind_deep (v : value) : P v :=
  match v with
  | VString s => HString s
  | VSlice l => HSlice l (list_ind (Forall P) (Forall_nil_2 P)
      (fun x _ IH => Forall_cons_2 P x _ (value_ind_deep x) IH) l)
  | VMap l => HMap l ((fix go l := match l return Forall (fun e => P (snd e)) l with
      | [] => Forall_nil_2 _
      | (k, x) :: l' => Forall_cons_2 _ (k, x) l' (value_ind_deep x) (go l') end) l)
  | VTypedSlice l => HTypedSlice l ((fix go l := match l return Forall P l with
      | [] => Forall_nil_2 _
      | x :: l' => Forall_cons_2 _ x l' (value_ind_deep x) (go l') end) l)
  | VTypedMap l => HTypedMap l ((fix go l := match l return Forall (fun e => P (snd e)) l with
      | [] => Forall_nil_2 _
      | (k, x) :: l' => Forall_cons_2 _ (k, x) l' (value_ind_deep x) (go l') end) l)
  | VPointer (Some t) => HPointer (Some t) (value_ind_deep t)
  | VPointer None => HPointer None I
  | VInt n => HInt n
  | VInt64 n => HInt64 n
  | VBool b => HBool b
  | VScalar => HScalar
  end.
End value_induction.

Lemma validateConfigKey_None k : validateConfigKey k = None <-> clean_text k.
Proof. unfold validateConfigKey, clean_text. accepted. tauto. Qed.

Lemma Forall_concat_map {A B} (P : B -> Prop) (f : A -> list B) l :
  Forall P (concat (map f l)) <-> Forall (fun x => Forall P (f x)) l.
Proof. rewrite Forall_concat. apply Forall_map. Qed.

(** A loop of checks agrees with a pointwise property when each check does. *)
Lemma for_each_Forall_iff {A} (f : A -> option error) (Q : A -> Prop) l :
  Forall (fun x => f x = None <-> Q x) l -> for_each f l = None <-> Forall Q l.
Proof.
  rewrite for_each_None. induction 1 as [|x l Hx _ IH]; [by rewrite !Forall_nil|].
  by rewrite !Forall_cons, Hx, IH.
Qed.

Lemma nested_walk_complete v :
  validateProviderConfigValue true v = None <-> Forall clean_text (texts v).
Proof.
  induction v using value_ind_deep;
    cbn [validateProviderConfigValue validateNestedCollection texts negb].
  - accepted. rewrite Forall_singleton. unfold clean_text. tauto.
  - rewrite Forall_concat_map. by apply for_each_Forall_iff.
  - rewrite Forall_concat_map. apply for_each_Forall_iff.
    eapply Forall_impl; [done|]. intros [k x] IH. cbn [snd] in IH. accepted.
    rewrite validateConfigKey_None, Forall_cons, IH. tauto.
  - rewrite Forall_concat_map. by apply for_each_Forall_iff.
  - rewrite Forall_concat_map. apply for_each_Forall_iff.
    eapply Forall_impl; [done|]. intros [[k|] x] IH; cbn [snd] in IH; cbn [app]; accepted.
    + rewrite validateConfigKey_None, Forall_cons, IH. tauto.
    + rewrite IH. tauto.
  - destruct t as [t|]; [done|]. by rewrite Forall_nil.
  - by rewrite Forall_nil.
  - by rewrite Forall_nil.
  - by rewrite Forall_nil.
  - by rewrite Forall_nil.
Qed.

(** ** UTF-8: a byte below 128 is always a rune of its own *)

Lemma decode_runes_low n : forall s c, (length s <= n)%nat ->
  c ∈ s -> code c < 128 -> (code c, true) ∈ decode_runes s.
Proof.
  induction n as [|n IH]; intros s c Hn Hin Hc; destruct s as [|c0 r0];
    simpl in Hn; try (by inversion Hin); try lia.
  assert (forall k r, (length r <= n)%nat -> c ∈ r -> (code c, true) ∈ k :: decode_runes r)
    as Hrest by (intros; right; apply IH; done).
  assert (forall lo hi d, 128 <= lo -> cont_byte lo hi d = true -> c <> d) as Hcont.
  { intros lo hi d Hlo Hd ->. unfold cont_byte in Hd. lia. }
  simpl. destruct (Z.ltb_spec (code c0) 128) as [Hlow|Hhigh].
  - apply elem_of_cons in Hin as [->|Hin]; [left|apply Hrest; [lia|done]].
  - assert (c ∈ r0) as Hin0.
    { apply elem_of_cons in Hin as [->|Hin]; [lia|done]. }
    assert ((code c, true) ∈ (RuneError, false) :: decode_runes r0) as Hbad
      by (apply Hrest; [lia|done]). clear Hin.
    repeat case_match; try exact Hbad; subst; simpl in Hn;
      repeat match goal with
      | H : (_ && _) = true |- _ => apply andb_true_iff in H as [? ?]
      end;
      apply Hrest; try lia;
      repeat match goal with
      | H : c ∈ ?d :: ?r |- _ => apply elem_of_cons in H as [H|H];
          [exfalso; eapply (fun lo hi Hlo Hd => Hcont lo hi _ Hlo Hd H); [|eassumption]; lia|]
      end; done.
Qed.

Lemma low_byte_rune s c : c ∈ bytes s -> code c < 128 -> code c ∈ runes s.
Proof.
  intros Hin Hc. unfold runes. apply list_elem_of_fmap. exists (code c, true).
  split; [done|]. eapply decode_runes_low; [|done|done]. reflexivity.
Qed.

(** ** Properties: names *)

(** The name validators accept exactly these languages: an instance name is
    an alphanumeric followed by at most 62 alphanumerics, dashes or
    underscores; a snapshot name may also hold dots but never two in a row; an
    interface or bridge name starts with a letter and has at most 15
    characters; an rc.d service name starts with a letter and has at most 64. *)
Theorem name_validator_languages (name : string) :
  (ValidateInstanceName name = None <-> shaped alnum plain_char 62 name) /\
  (ValidateSnapshotName name = None <->
     shaped alnum dotted_char 62 name /\ Contains name ".." = false) /\
  (ValidateBridgeName name = None <-> shaped alpha plain_char 14 name) /\
  (ValidateServiceName name = None <-> shaped alpha plain_char 63 name).
Proof.
  split_and!; [apply ValidateInstanceName_shape|apply ValidateSnapshotName_shape
    |apply ValidateBridgeName_shape|apply ValidateServiceName_shape].
Qed.



(** ** Properties: provider configuration and environment *)

(** A provider configuration entry is accepted exactly when its key is
    non-empty, valid UTF-8, at most 128 bytes and free of shell and path
    characters, and its value is either a top-level string without injection
    characters or a structure whose every string and every string key, at any
    depth and through typed collections and pointers, is NUL-free valid UTF-8. *)
Theorem provider_config_walk (key : string) (v : value) :
  ValidateProviderConfigEntry key v = None <->
  key <> "" /\ ValidString key = true /\
  ContainsAny key (commandInjectionChars +:+ "/") = false /\ len key <= 128 /\
  match v with
  | VString s => ContainsAny s commandInjectionChars = false
  | _ => Forall clean_text (texts v)
  end.
Proof.
  unfold ValidateProviderConfigEntry. accepted. rewrite Z.ltb_ge.
  assert (validateProviderConfigValue false v = None <->
    match v with
    | VString s => ContainsAny s commandInjectionChars = false
    | _ => Forall clean_text (texts v)
    end) as ->; [|tauto].
  destruct v as [s| | | | | | | | |];
    [|match goal with |- _ <-> Forall _ (texts ?w) => exact (nested_walk_complete w) end..].
  unfold validateProviderConfigValue, ValidateJailParameterValue. simpl. by accepted.
Qed.

(** An accepted environment variable has a POSIX name that is none of the
    loader and shell variables in any letter case, and a value in which every
    byte below 32 is a tab or a newline. *)
Theorem accepted_env_is_safe (key val : string) :
  ValidateEnvVar key val = None ->
  MatchString ValidEnvKeyRegex key = true /\ ToUpper key ∉ dangerousVars /\
  (forall c, c ∈ bytes val -> code c < 32 -> code c = 9 \/ code c = 10).
Proof.
  unfold ValidateEnvVar. accepted. intros (_ & Hk & Hd & _ & Hv & _). split_and!; [done| |].
  - intros Hin. rewrite existsb_false_iff, Forall_forall in Hd.
    apply Hd in Hin. by apply streq_false in Hin.
  - intros c Hin Hc. rewrite existsb_false_iff, Forall_forall in Hv.
    apply low_byte_rune in Hin; [|lia]. apply Hv in Hin. unfold bad_control_rune in Hin. lia.
Qed.

Lemma accepted_env_is_safe_witness :
  ValidateEnvVar "DB_HOST" "10.0.0.5" = None /\ ToUpper "DB_HOST" ∉ dangerousVars.
Proof.
  split; [vm_compute; reflexivity|].
  refine (proj1 (proj2 (accepted_env_is_safe "DB_HOST" "10.0.0.5" _))).
  vm_compute. reflexivity.
Defined.

(** ** Properties: SSH destinations *)

Lemma word_shape s :
  lang (Seq (Cls alnum) (Star (Cls (fun c => alnum c || one_of "._-" c)))) s ->
  exists c t, s = c :: t /\ alnum c = true /\ Forall (fun d => dotted_char d = true) (c :: t).
Proof.
  intros (s1 & s2 & -> & (c & -> & Hc)%lang_Cls & H%lang_Star_Cls)%lang_Seq.
  exists c, s2. split_and!; try done. constructor; [auto|].
  eapply Forall_impl; [done|]. intros d Hd. simpl in Hd.
  unfold dotted_char. pose proof (forall_ascii (fun d =>
    implb (alnum d || one_of "._-" d) (alnum d || one_of "_.-" d))
    ltac:(vm_compute; reflexivity) d) as E. simpl in E. by rewrite Hd in E.
Qed.

Definition ssh_char (c : ascii) : bool := dotted_char c || one_of "@/" c.

Lemma ssh_char_harmless c : ssh_char c = true -> harmless c = true.
Proof.
  intros H. pose proof (forall_ascii (fun c => implb (ssh_char c) (harmless c))
    ltac:(vm_compute; reflexivity) c) as E. simpl in E. by rewrite H in E.
Qed.

Lemma alnum_head_not_option c t : alnum c = true -> HasPrefix (of_bytes (c :: t)) "-" = false.
Proof.
  intros Hc. unfold HasPrefix. rewrite bytes_of_bytes. simpl.
  destruct (Ascii.eqb_spec "-" c) as [<-|]; [by vm_compute in Hc|done].
Qed.

Lemma ssh_host_shape h :
  MatchString sshHostRegex h = true ->
  Forall (fun c => ssh_char c = true) (bytes h) /\ HasPrefix h "-" = false.
Proof.
  rewrite MatchString_lang. unfold sshHostRegex. intros (u & w & E & Hu & Hw)%lang_Seq.
  apply word_shape in Hw as (c & t & -> & Hc & Hct).
  assert (forall l, Forall (fun d => dotted_char d = true) l ->
                    Forall (fun d => ssh_char d = true) l) as Hd.
  { intros l Hl. eapply Forall_impl; [done|]. intros d Hd. unfold ssh_char.
    simpl in Hd. by rewrite Hd. }
  rewrite <- (of_bytes_bytes h), E, bytes_of_bytes.
  apply lang_Opt in Hu as [->|(s1 & s2 & -> & Hu & (a & -> & Ha)%lang_Cls)%lang_Seq].
  - split; [apply Hd, Hct|by apply alnum_head_not_option].
  - apply word_shape in Hu as (c' & t' & -> & Hc' & Hct').
    apply Ascii.eqb_eq in Ha as <-.
    split; [|by apply alnum_head_not_option].
    rewrite !Forall_app. split_and!; [by apply Hd| |by apply Hd].
    by repeat constructor.
Qed.

(** A destination that is accepted splits, at its first colon, into exactly
    the host and dataset returned; neither can be read as a command-line
    option, and both are free of shell metacharacters and NUL bytes. *)
Theorem ssh_destination_safe (dest host path : string) :
  ValidateSSHDestination dest = Ok (host, path) ->
  dest = host +:+ ":" +:+ path /\ safe_text host /\ safe_text path /\
  HasPrefix host "-" = false /\ HasPrefix path "-" = false.
Proof.
  unfold ValidateSSHDestination.
  destruct (Cut dest ":") as [[h p]|] eqn:Hcut; [|done].
  destruct (streq h "" || streq p ""); [done|].
  destruct (MatchString sshHostRegex h) eqn:Hh; [|done].
  destruct (MatchString zfsDatasetRegex p) eqn:Hp; [|done].
  simpl. intros [= -> ->]. apply Cut_Some in Hcut as [-> _].
  apply ssh_host_shape in Hh as [Hh1 Hh2].
  apply match_head_star in Hp as (c & t & E & Hc & Ht).
  split_and!; try done.
  - apply harmless_safe. eapply Forall_impl; [exact Hh1|]. apply ssh_char_harmless.
  - apply harmless_safe. rewrite E. constructor; [auto|].
    eapply Forall_impl; [exact Ht|]. intros d Hd. apply ssh_char_harmless.
    pose proof (forall_ascii (fun d => implb (alnum d || one_of "_./-" d) (ssh_char d))
      ltac:(vm_compute; reflexivity) d) as E'. simpl in E', Hd. by rewrite Hd in E'.
  - rewrite <- (of_bytes_bytes path), E. by apply alnum_head_not_option.
Qed.

Lemma ssh_destination_safe_witness :
  ValidateSSHDestination "root@host:zroot/bk" = Ok ("root@host", "zroot/bk") /\
  HasPrefix "root@host" "-" = false.
Proof.
  split; [vm_compute; reflexivity|].
  destruct (ssh_destination_safe "root@host:zroot/bk" "root@host" "zroot/bk") as (_ & _ & _ & H & _);
    [vm_compute; reflexivity|exact H].
Defined.

(** ** Properties: networks *)

Lemma static_address_parses addr family :
  requireFamily addr family = None -> ValidateIPAddress addr = None ->
  requirePrefixLength addr = None ->
  exists b bits, ParseCIDR addr = Some (b, bits) /\ 0 <= bits <= 128 /\
    (family = 4 -> is_v4 b = true) /\ (family = 6 -> is_v4 b = false).
Proof.
  unfold requirePrefixLength. accepted. intros Hf Hip Hslash.
  apply Contains_char in Hslash.
  assert (ParseIP addr = None) as Hnone.
  { destruct (ParseIP addr) eqn:E; [|done]. by apply ParseIP_no_slash in E. }
  unfold ValidateIPAddress in Hip. unfold requireFamily in Hf. rewrite Hnone in Hf, Hip.
  destruct (streq addr ""); [done|].
  destruct (ParseCIDR addr) as [[b bits]|] eqn:Hc; [|done].
  exists b, bits. pose proof (ParseCIDR_bits _ _ _ Hc).
  split_and!; [done|lia|lia|intros ->..]; simpl in Hf; by destruct (is_v4 b).
Qed.

(** An accepted network has a bridge name that is safe on an [ifconfig]
    command line, an IPv4 field that is empty, the word [dhcp], or an address
    with a prefix length whose sixteen-byte form is IPv4, an IPv6 field that
    is empty or an address with a prefix length that is not IPv4, only
    allow-listed bridge flags and a VLAN id in 0..4094. *)
Theorem accepted_network_guarantees (n : NetworkSpec) :
  ValidateNetworkSpec n = None ->
  (Net_Bridge n <> "" -> safe_component (Net_Bridge n)) /\
  (Net_IPv4 n <> "" -> Net_IPv4 n <> "dhcp" ->
     exists b bits, ParseCIDR (Net_IPv4 n) = Some (b, bits) /\ is_v4 b = true) /\
  (Net_IPv6 n <> "" ->
     exists b bits, ParseCIDR (Net_IPv6 n) = Some (b, bits) /\ is_v4 b = false) /\
  Forall (fun f => f ∈ allowedBridgePortFlags) (Net_BridgeFlags n) /\
  0 <= Net_VLAN n <= 4094.
Proof.
  unfold ValidateNetworkSpec. accepted.
  rewrite !andb_true_iff, !negb_true_iff, !streq_false.
  intros (_ & Hb & _ & H4 & H6 & Hfl & Hv & _). split_and!.
  - intros Hne%Hb. apply ValidateBridgeName_shape in Hne. eapply shaped_safe; [|exact Hne]; auto.
  - intros Hne Hnd. destruct (H4 (conj Hne Hnd)) as (Hf & Hip & Hp & _).
    destruct (static_address_parses _ _ Hf Hip Hp) as (b & bits & Hc & _ & Hv4 & _). eauto.
  - intros Hne. destruct (H6 Hne) as (_ & Hf & Hip & Hp & _).
    destruct (static_address_parses _ _ Hf Hip Hp) as (b & bits & Hc & _ & _ & Hv6). eauto.
  - eapply Forall_impl; [exact Hfl|]. intros f Hf. unfold ValidateBridgeFlag in Hf.
    accepted_in Hf. apply existsb_exists_iff in Hf as (g & Hg & ->%streq_true). done.
  - lia.
  - lia.
Qed.

Definition sample_network (ipv4 : string) : NetworkSpec :=
  {| Net_ID := "net0"; Net_Type := "bridge"; Net_Bridge := "hospitus-nat";
     Net_BridgeFlags := ["private"]; Net_VLAN := 10; Net_MAC := "58:9c:fc:00:00:01";
     Net_IPv4 := ipv4; Net_IPv6 := "2001:db8::1/64"; Net_IPPool := ""; Net_MTU := 1500 |}.

Lemma accepted_network_guarantees_witness :
  ValidateNetworkSpec (sample_network "10.0.0.5/24") = None /\
  safe_component "hospitus-nat".
Proof.
  split; [vm_compute; reflexivity|].
  destruct (accepted_network_guarantees (sample_network "10.0.0.5/24")) as [H _];
    [vm_compute; reflexivity|]. apply H. discriminate.
Defined.

(** The family check looks at the parsed bytes only, so an IPv4-mapped IPv6
    address written in IPv6 notation, with a prefix length beyond 32, passes
    as the IPv4 address of a network. *)
Theorem ipv4_field_accepts_mapped_ipv6 :
  ValidateNetworkSpec (sample_network "::ffff:10.0.0.5/120") = None.
Proof. vm_compute. reflexivity. Qed.

(** A label key may hold any number of slashes: it is accepted when it is
    at most 253 bytes and every slash-separated segment is one. *)
Theorem label_key_many_slashes (a b c val : string) :
  MatchString labelSegment a = true -> MatchString labelSegment b = true ->
  MatchString labelSegment c = true ->
  len a + len b + len c <= 251 -> ValidateLabel "k" val = None ->
  ValidateLabel (a +:+ "/" +:+ b +:+ "/" +:+ c) val = None.
Proof.
  rewrite !MatchString_lang. intros Ha Hb Hc Hlen Hv.
  unfold ValidateLabel in *. revert Hv. accepted. intros (_ & _ & _ & Hv).
  split_and!; try apply Hv.
  - destruct a; [|done]. exfalso. by apply nullable_spec in Ha.
  - rewrite MatchString_lang, !bytes_app. unfold validLabelKeyRegex.
    constructor; [done|]. rewrite app_assoc. constructor; [by repeat constructor|].
    rewrite <- (app_nil_r (bytes c)), app_assoc. constructor; [by repeat constructor|constructor].
  - rewrite !len_app. change (len "/") with 1. apply Z.ltb_ge. lia.
Qed.

Lemma label_key_many_slashes_witness :
  ValidateLabel "a/b/c" "v" = None.
Proof.
  apply (label_key_many_slashes "a" "b" "c" "v"); try (vm_compute; reflexivity).
  vm_compute. discriminate.
Defined.

(** ** Properties: instance specifications *)

(** Two specifications that differ only in the order their maps are visited. *)
Definition same_spec (s1 s2 : InstanceSpec) : Prop :=
  Spec_Name s1 = Spec_Name s2 /\ Spec_Description s1 = Spec_Description s2 /\
  Spec_Image s1 = Spec_Image s2 /\ Spec_OSType s1 = Spec_OSType s2 /\
  Spec_OSVersion s1 = Spec_OSVersion s2 /\ Spec_Arch s1 = Spec_Arch s2 /\
  Spec_Bootloader s1 = Spec_Bootloader s2 /\ Spec_CloudInit s1 = Spec_CloudInit s2 /\
  Spec_Disks s1 = Spec_Disks s2 /\ Spec_Networks s1 = Spec_Networks s2 /\
  Spec_ProviderConfig s1 ≡ₚ Spec_ProviderConfig s2 /\
  Spec_Labels s1 ≡ₚ Spec_Labels s2 /\ Spec_Annotations s1 ≡ₚ Spec_Annotations s2.

(** Whether a specification is accepted does not depend on the order Go
    visits its maps, and an accepted one has a safe name, provider
    configuration keys without shell characters, disk paths without [..] and
    networks that are accepted one by one. *)
Theorem accepted_spec_guarantees (s1 s2 : InstanceSpec) :
  same_spec s1 s2 ->
  (ValidateInstanceSpec s1 = None <-> ValidateInstanceSpec s2 = None) /\
  (ValidateInstanceSpec s1 = None ->
     safe_component (Spec_Name s1) /\
     Forall (fun e => ValidateProviderConfigEntry (fst e) (snd e) = None) (Spec_ProviderConfig s1) /\
     Forall (fun d => Disk_Path d <> "" -> Contains (Disk_Path d) ".." = false) (Spec_Disks s1) /\
     Forall (fun n => ValidateNetworkSpec n = None) (Spec_Networks s1)).
Proof.
  intros (Hn & Hde & Hi & Ho & Hov & Ha & Hbl & Hci & Hd & Hnet & Hpc & Hl & Han).
  split.
  - unfold ValidateInstanceSpec.
    rewrite Hn, Hde, Hi, Ho, Hov, Ha, Hbl, Hci, Hd, Hnet. accepted. by rewrite Hpc, Hl, Han.
  - unfold ValidateInstanceSpec. accepted.
    intros (Hname & _ & _ & _ & _ & _ & _ & _ & Hc & _ & _ & Hdisks & Hnets & _). split_and!.
    + apply ValidateInstanceName_shape in Hname. eapply shaped_safe; [|exact Hname]; auto.
    + eapply Forall_impl; [exact Hc|]. intros [k v] H. by apply wrap_None in H.
    + eapply Forall_impl; [exact Hdisks|]. intros d H%wrap_None Hp.
      unfold ValidateDiskSpec in H. accepted_in H. by apply H.
    + eapply Forall_impl; [exact Hnets|]. intros n H. by apply wrap_None in H.
Qed.

Definition sample_spec (labels : list (string * string)) : InstanceSpec :=
  {| Spec_Name := "web"; Spec_Description := ""; Spec_CPUs := 2; Spec_MemoryMB := 512;
     Spec_MaxProc := 0; Spec_ReadBPS := 0; Spec_WriteBPS := 0; Spec_ReadIOPS := 0;
     Spec_WriteIOPS := 0; Spec_Image := "14.3-RELEASE"; Spec_OSType := "freebsd";
     Spec_OSVersion := "14.3"; Spec_Arch := "amd64"; Spec_CloudInit := None;
     Spec_Bootloader := ""; Spec_Disks := []; Spec_Networks := [sample_network "dhcp"];
     Spec_ProviderConfig := [("mounts", VTypedSlice [VMap [("src", VString "/data")]])];
     Spec_Labels := labels; Spec_Annotations := [] |}.

Lemma accepted_spec_guarantees_witness :
  ValidateInstanceSpec (sample_spec [("app", "web"); ("env", "prod")]) = None /\
  ValidateInstanceSpec (sample_spec [("env", "prod"); ("app", "web")]) = None.
Proof.
  split; [vm_compute; reflexivity|].
  apply (accepted_spec_guarantees (sample_spec [("app", "web"); ("env", "prod")])
           (sample_spec [("env", "prod"); ("app", "web")])).
  - unfold same_spec, sample_spec; simpl. split_and!; try reflexivity. apply perm_swap.
  - vm_compute. reflexivity.
Defined.
