(* ===== verification/ZfsNames.v ===== *)
(** * ZFS names: compression values and the dataset layout

    pkg/validation/zfs.go and pkg/dataset/dataset.go. *)

From stdpp Require Import base list sets strings pretty.
From Stdlib Require Import Ascii ZArith Lia.
From S2P Require Import Prelude GoStrings.

Local Open Scope Z_scope.

(** ** Compression (pkg/validation/zfs.go) *)

Definition compressionLevel (rest : string) : option Z :=
  match bytes rest with
  | [] => None
  | c :: t =>
      if negb (bool_decide (t = [])) && Ascii.eqb c "0" then None
      else if negb (forallb is_digit (c :: t)) then None
      else Atoi_digits rest
  end.

Definition validZstdFastLevel (level : Z) : bool :=
  if (1 <=? level) && (level <=? 10) then true
  else if (20 <=? level) && (level <=? 100) && (Z.rem level 10 =? 0) then true
  else if (level =? 500) || (level =? 1000) then true
  else false.

Definition ValidZFSCompression (value : string) : bool :=
  if existsb (streq value) ["on"; "off"; "lz4"; "zle"; "lzjb"; "gzip"; "zstd"; "zstd-fast"]
  then true
  else match CutPrefix value "gzip-" with
  | Some rest => match bytes rest with
                 | [c] => between "1" "9" c
                 | _ => false
                 end
  | None =>
      match CutPrefix value "zstd-fast-" with
      | Some rest => match compressionLevel rest with
                     | Some level => validZstdFastLevel level
                     | None => false
                     end
      | None =>
          match CutPrefix value "zstd-" with
          | Some rest => match compressionLevel rest with
                         | Some level => (1 <=? level) && (level <=? 19)
                         | None => false
                         end
          | None => false
          end
      end
  end.

(** ** Dataset layout (pkg/dataset/dataset.go)

    [env] is the value of HOSPITUS_ZFS_PARENT, empty when it is unset. *)

Definition defaultParent : string := "zroot/hospitus".

Definition Parent (env : string) : string :=
  let v := TrimRight (TrimSpace env) "/" in
  if streq v "" then defaultParent else v.

Definition Pool (env : string) : string :=
  match Cut (Parent env) "/" with Some (a, _) => a | None => Parent env end.

Definition Child (env sub : string) : string := Parent env +:+ "/" +:+ TrimLeft sub "/".

(** ** Lemmas *)

Lemma digits_value_snoc l c : digits_value (l ++ [c]) = digits_value l * 10 + (code c - 48).
Proof. unfold digits_value. by rewrite fold_left_app. Qed.

Lemma is_digit_code c : is_digit c = true -> 48 <= code c <= 57.
Proof.
  unfold is_digit, between. change (code "0") with 48. change (code "9") with 57. lia.
Qed.

(** Without a leading zero, the value grows with the number of digits. *)
Lemma digits_value_lower c l :
  49 <= code c -> forallb is_digit l = true ->
  10 ^ Z.of_nat (length l) <= digits_value (c :: l).
Proof.
  intros Hc. induction l as [|d l IH] using rev_ind; intros Hl.
  - unfold digits_value. simpl. lia.
  - rewrite forallb_app in Hl. simpl in Hl. apply andb_true_iff in Hl as [Hl Hd].
    apply andb_true_iff in Hd as [Hd%is_digit_code _].
    rewrite app_comm_cons, digits_value_snoc, length_app. simpl.
    replace (Z.of_nat (length l + 1)) with (Z.of_nat (length l) + 1) by lia.
    rewrite Z.pow_add_r by lia. specialize (IH Hl). lia.
Qed.

Definition digit_chars : list ascii := bytes "0123456789".

(** All digit strings of at most [n] digits. *)
Fixpoint digit_strings (n : nat) : list (list ascii) :=
  match n with
  | O => [[]]
  | S n' => [] :: concat (map (fun c => map (cons c) (digit_strings n')) digit_chars)
  end.

Lemma is_digit_elem c : is_digit c = true -> c ∈ digit_chars.
Proof.
  intros H. apply ascii_in_true.
  pose proof (forall_ascii (fun c => implb (is_digit c) (ascii_in digit_chars c))
    ltac:(vm_compute; reflexivity) c) as E. simpl in E. by rewrite H in E.
Qed.

Lemma digit_strings_complete n l :
  forallb is_digit l = true -> (length l <= n)%nat -> l ∈ digit_strings n.
Proof.
  revert l. induction n as [|n IH]; intros [|c l] Hd Hn;
    cbn [digit_strings forallb length] in *; try lia; [left..|].
  apply andb_true_iff in Hd as [Hc Hd]. right. apply list_elem_of_In, in_concat.
  exists (map (cons c) (digit_strings n)). split.
  - apply (in_map (fun c => map (cons c) (digit_strings n))). by apply list_elem_of_In, is_digit_elem.
  - apply (in_map (cons c)). apply list_elem_of_In, IH; [done|lia].
Qed.

(** A level of at most 1000 has at most four digits. *)
Lemma compressionLevel_short rest level :
  compressionLevel rest = Some level -> level <= 1000 -> bytes rest ∈ digit_strings 4.
Proof.
  unfold compressionLevel, Atoi_digits. destruct (bytes rest) as [|c t] eqn:E; [done|].
  destruct (negb _ && _) eqn:Hz; [done|].
  destruct (forallb is_digit (c :: t)) eqn:Hd; [|done]. simpl negb. cbn iota.
  intros H Hle. case_if; [|done]. injection H as <-.
  apply digit_strings_complete; [done|]. destruct t as [|d t]; [simpl; lia|].
  simpl in Hd. apply andb_true_iff in Hd as [Hc Hd].
  assert (49 <= code c) as H49.
  { apply is_digit_code in Hc. destruct (Z.eq_dec (code c) 48) as [E48|]; [|lia].
    change 48 with (code "0") in E48. apply code_inj in E48 as ->. done. }
  pose proof (digits_value_lower c (d :: t) H49 Hd) as Hlow.
  assert (Z.of_nat (length (d :: t)) < 4) as Hlt; [|simpl in *; lia].
  apply (Z.pow_lt_mono_r_iff 10); lia.
Qed.

(** The values [zfs set compression=] accepts. *)
Definition zfs_compression_values : list string :=
  ["on"; "off"; "lz4"; "zle"; "lzjb"; "gzip"; "zstd"; "zstd-fast"]
  ++ map (fun n => "gzip-" +:+ pretty n) (seqZ 1 9)
  ++ map (fun n => "zstd-" +:+ pretty n) (seqZ 1 19)
  ++ map (fun n => "zstd-fast-" +:+ pretty n)
       (seqZ 1 10 ++ [20; 30; 40; 50; 60; 70; 80; 90; 100; 500; 1000]).

(** Levels outside a finite table are refused, those inside are looked up. *)
Lemma level_listed (pre : string) (ok : Z -> bool) (rest : string) (level : Z) :
  forallb (fun l => match compressionLevel (of_bytes l) with
                    | Some v => if ok v then existsb (streq (pre +:+ of_bytes l)) zfs_compression_values
                              else true
                    | None => true end) (digit_strings 4) = true ->
  compressionLevel rest = Some level -> ok level = true -> level <= 1000 ->
  pre +:+ rest ∈ zfs_compression_values.
Proof.
  rewrite forallb_true_iff, Forall_forall. intros Hall Hl Hok Hle.
  specialize (Hall _ (compressionLevel_short _ _ Hl Hle)).
  rewrite of_bytes_bytes, Hl, Hok in Hall.
  apply existsb_exists_iff in Hall as (v & Hv & ->%streq_true). done.
Qed.

Lemma validZstdFastLevel_le level : validZstdFastLevel level = true -> level <= 1000.
Proof. unfold validZstdFastLevel. repeat case_if; lia. Qed.

(** The compression values accepted are exactly the property values zfs
    registers, leading zeros, signs and out-of-table levels excluded. *)
Theorem compression_values_exact (v : string) :
  ValidZFSCompression v = true <-> v ∈ zfs_compression_values.
Proof.
  split.
  - unfold ValidZFSCompression. destruct (existsb (streq v) _) eqn:Hb.
    { intros _. apply existsb_exists_iff in Hb as (w & Hw & ->%streq_true).
      apply elem_of_app. by left. }
    clear Hb. destruct (CutPrefix v "gzip-") as [rest|] eqn:Hg.
    { apply CutPrefix_Some in Hg as ->. intros H.
      destruct (bytes rest) as [|c [|]] eqn:E; [done| |done].
      rewrite <- (of_bytes_bytes rest), E.
      pose proof (forall_ascii (fun c => implb (between "1" "9" c)
        (existsb (streq ("gzip-" +:+ of_bytes [c])) zfs_compression_values))
        ltac:(vm_compute; reflexivity) c) as Hc. cbv beta in Hc. rewrite H in Hc. unfold implb in Hc.
      apply existsb_exists_iff in Hc as (w & Hw & ->%streq_true). done. }
    destruct (CutPrefix v "zstd-fast-") as [rest|] eqn:Hf.
    { apply CutPrefix_Some in Hf as ->. destruct (compressionLevel rest) as [l|] eqn:Hl; [|done].
      intros Hok. apply (level_listed "zstd-fast-" validZstdFastLevel rest l);
        [vm_compute; reflexivity|done|done|by apply validZstdFastLevel_le]. }
    destruct (CutPrefix v "zstd-") as [rest|] eqn:Hz; [|done].
    apply CutPrefix_Some in Hz as ->. destruct (compressionLevel rest) as [l|] eqn:Hl; [|done].
    intros Hok. apply (level_listed "zstd-" (fun l => (1 <=? l) && (l <=? 19)) rest l);
      [vm_compute; reflexivity|done|done|lia].
  - intros H. revert v H. rewrite <- Forall_forall.
    apply forallb_true_iff. vm_compute. reflexivity.
Qed.

Lemma Parent_nonempty env : Parent env <> "".
Proof. unfold Parent. case_if; [done|]. by apply streq_false in E. Qed.

(** Every dataset the layout derives lies in the pool it reports. *)
Lemma Child_in_pool env sub :
  exists rest, Child env sub = Pool env +:+ "/" +:+ rest /\ "/"%char ∉ bytes (Pool env).
Proof.
  unfold Child, Pool. destruct (Cut (Parent env) "/") as [[a b]|] eqn:E.
  - apply Cut_Some in E as [-> Hn]. exists (b +:+ "/" +:+ TrimLeft sub "/").
    split; [|done]. apply (inj bytes).
    change (String "/" b) with ("/" +:+ b). rewrite !bytes_app. by rewrite <- !app_assoc.
  - apply Cut_None in E. by exists (TrimLeft sub "/").
Qed.
