(* ===== verification/GoPath.v ===== *)
(** * Package [path/filepath] on Unix

    [Clean], [Join], [Dir], [Base], [Abs] and [Rel].  In this file and in
    PathConfine.v a path is its list of bytes.  [Clean] is stated on the
    slash-separated components: empty and [.] ones are dropped, a [..] removes
    the component before it and is dropped at the root. *)

From stdpp Require Import base list sets strings.
From Stdlib Require Import Ascii ZArith Lia.
From S2P Require Import Prelude GoStrings.

Abbreviation path := (list ascii).

Definition slash : ascii := "/"%char.
Definition dot : path := ["."%char].
Definition dotdot : path := ["."%char; "."%char].

Fixpoint split_path (s : path) : list path :=
  match s with
  | [] => [[]]
  | c :: s' =>
      if Ascii.eqb c slash then [] :: split_path s'
      else match split_path s' with
           | w :: ws => (c :: w) :: ws
           | [] => [[c]]
           end
  end.

Fixpoint join_path (ws : list path) : path :=
  match ws with
  | [] => []
  | [w] => w
  | w :: ws' => w ++ slash :: join_path ws'
  end.

Definition IsAbs (s : path) : bool :=
  match s with c :: _ => Ascii.eqb c slash | [] => false end.

(** One component of [Clean]; [out] is the cleaned prefix, reversed. *)
Definition clean_step (rooted : bool) (out : list path) (w : path) : list path :=
  if bool_decide (w = []) || bool_decide (w = dot) then out
  else if bool_decide (w = dotdot) then
    match out with
    | top :: rest => if bool_decide (top = dotdot) then w :: out else rest
    | [] => if rooted then [] else [w]
    end
  else w :: out.

Definition clean_comps (rooted : bool) (ws : list path) : list path :=
  rev (fold_left (clean_step rooted) ws []).

Definition Clean (s : path) : path :=
  let out := clean_comps (IsAbs s) (split_path s) in
  if IsAbs s then slash :: join_path out
  else if bool_decide (out = []) then dot else join_path out.

(** [Join(a, b)]: leading empty elements are skipped, the rest is cleaned. *)
Definition Join (a b : path) : path :=
  if bool_decide (a = []) then (if bool_decide (b = []) then [] else Clean b)
  else Clean (a ++ slash :: b).

(** Everything up to and including the last slash, and what follows it. *)
Definition split_last (s : path) : path * path :=
  match cut_l slash (rev s) with
  | Some (b, a) => (rev a ++ [slash], rev b)
  | None => ([], s)
  end.

Definition Dir (s : path) : path := Clean (fst (split_last s)).

Definition Base (s : path) : path :=
  if bool_decide (s = []) then dot
  else
    let s' := rev (drop_while (Ascii.eqb slash) (rev s)) in
    let b := snd (split_last s') in
    if bool_decide (b = []) then [slash] else b.

(** [Abs]: a relative path is taken from the working directory [cwd]. *)
Definition Abs (cwd s : path) : path := if IsAbs s then Clean s else Join cwd s.

Fixpoint strip_common (b t : list path) : list path * list path :=
  match b, t with
  | x :: b', y :: t' => if bool_decide (x = y) then strip_common b' t' else (b, t)
  | _, _ => (b, t)
  end.

(** The components of a cleaned path. *)
Definition comps (s : path) : list path :=
  if IsAbs s then
    match s with [_] => [] | _ :: s' => split_path s' | [] => [] end
  else if bool_decide (s = dot) then [] else split_path s.

Definition Rel (basepath targpath : path) : result path :=
  let bse := Clean basepath in
  let targ := Clean targpath in
  if bool_decide (targ = bse) then Ok dot
  else if negb (Bool.eqb (IsAbs bse) (IsAbs targ)) then Err (Errorf "Rel: can't make relative" [])
  else
    let '(b, t) := strip_common (comps bse) (comps targ) in
    match b with
    | [] => Ok (join_path t)
    | x :: _ =>
        if negb (bool_decide (t = [])) && bool_decide (x = dotdot)
        then Err (Errorf "Rel: can't make relative" [])
        else Ok (join_path (replicate (length b) dotdot ++ t))
    end.

(** ** Absolute clean paths *)

(** A component of a cleaned absolute path. *)
Definition good_comp (w : path) : Prop :=
  w <> [] /\ w <> dot /\ w <> dotdot /\ slash ∉ w.

Definition abs_path (ws : list path) : path := slash :: join_path ws.

Lemma split_no_slash w : slash ∉ w -> split_path w = [w].
Proof.
  induction w as [|c w IH]; simpl; intros H; [done|].
  apply not_elem_of_cons in H as [Hc Hw]. rewrite (IH Hw).
  destruct (Ascii.eqb_spec c slash); congruence.
Qed.

Lemma split_app w s : slash ∉ w -> split_path (w ++ slash :: s) = w :: split_path s.
Proof.
  induction w as [|c w IH]; simpl; intros H; [done|].
  apply not_elem_of_cons in H as [Hc Hw]. rewrite (IH Hw).
  destruct (Ascii.eqb_spec c slash); congruence.
Qed.

Lemma split_no_slash_comps s : Forall (fun w => slash ∉ w) (split_path s).
Proof.
  induction s as [|c s IH]; simpl; [by repeat constructor; apply not_elem_of_nil|].
  destruct (Ascii.eqb_spec c slash) as [->|Hne].
  - constructor; [apply not_elem_of_nil|done].
  - destruct (split_path s) as [|w ws]; [by constructor; [set_solver|]|].
    inversion IH; subst. constructor; [set_solver|done].
Qed.

Lemma split_join ws : ws <> [] -> Forall (fun w => slash ∉ w) ws -> split_path (join_path ws) = ws.
Proof.
  induction ws as [|w ws IH]; intros Hne H; [done|]. inversion H; subst.
  destruct ws as [|w' ws]; simpl; [by apply split_no_slash|].
  rewrite split_app by done. f_equal. by apply IH.
Qed.

Lemma split_join_snoc ws : Forall (fun w => slash ∉ w) ws -> ws <> [] ->
  split_path (join_path ws ++ [slash]) = ws ++ [[]].
Proof.
  induction ws as [|w ws IH]; intros H Hne; [done|]. inversion H; subst.
  destruct ws as [|w' ws]; simpl; [by rewrite split_app|].
  rewrite <- app_assoc. simpl. rewrite split_app by done. f_equal. by apply IH.
Qed.

Lemma good_no_slash ws : Forall good_comp ws -> Forall (fun w => slash ∉ w) ws.
Proof. intros H. eapply Forall_impl; [done|]. by intros w (_ & _ & _ & ?). Qed.

Lemma clean_step_good r out w : good_comp w -> clean_step r out w = w :: out.
Proof.
  intros (H1 & H2 & H3 & _). unfold clean_step.
  by rewrite !bool_decide_eq_false_2.
Qed.

Lemma fold_clean_good r ws out :
  Forall good_comp ws -> fold_left (clean_step r) ws out = rev ws ++ out.
Proof.
  intros H. revert out. induction H as [|w ws Hw _ IH]; intros out; simpl; [done|].
  rewrite clean_step_good, IH by done. by rewrite <- app_assoc.
Qed.

(** Components that contribute nothing. *)
Lemma clean_step_nil r out : clean_step r out [] = out.
Proof. done. Qed.

Lemma clean_rooted_good ws :
  Forall (fun w => slash ∉ w) ws -> Forall good_comp (clean_comps true ws).
Proof.
  intros H. unfold clean_comps. apply Forall_rev.
  assert (forall out, Forall good_comp out ->
            Forall good_comp (fold_left (clean_step true) ws out)) as Hg; [|by apply Hg].
  induction H as [|w ws Hw _ IH]; intros out Hout; simpl; [done|]. apply IH.
  unfold clean_step. repeat case_bool_decide; simpl; try done.
  - destruct out as [|top rest]; [done|]. inversion Hout; subst.
    case_bool_decide; [|done]. subst. unfold good_comp in *. naive_solver.
  - by constructor.
Qed.

(** Two ways of writing the same rooted path: with empty components between. *)
Lemma Clean_rooted s ws :
  IsAbs s = true -> clean_comps true (split_path s) = ws -> Clean s = abs_path ws.
Proof. intros Ha <-. unfold Clean. by rewrite Ha. Qed.

Lemma split_abs ws :
  Forall good_comp ws -> split_path (abs_path ws) = [] :: match ws with [] => [[]] | _ => ws end.
Proof.
  intros H%good_no_slash. unfold abs_path. simpl. f_equal.
  destruct ws; [done|]. by apply split_join.
Qed.

Lemma Clean_abs ws : Forall good_comp ws -> Clean (abs_path ws) = abs_path ws.
Proof.
  intros H. apply Clean_rooted; [done|]. rewrite split_abs by done.
  unfold clean_comps. simpl. rewrite clean_step_nil.
  destruct ws as [|w ws]; [done|]. rewrite fold_clean_good by done.
  by rewrite app_nil_r, rev_involutive.
Qed.

(** [Clean] of an absolute path has this form. *)
Lemma Clean_abs_form s : IsAbs s = true -> exists ws, Forall good_comp ws /\ Clean s = abs_path ws.
Proof.
  intros H. exists (clean_comps true (split_path s)). split.
  - apply clean_rooted_good, split_no_slash_comps.
  - by apply Clean_rooted.
Qed.

Lemma comps_abs ws : Forall good_comp ws -> comps (abs_path ws) = ws.
Proof.
  intros H. unfold comps, abs_path. simpl.
  destruct ws as [|w ws]; [done|].
  pose proof (split_join (w :: ws) ltac:(done) (good_no_slash _ H)) as Hs.
  destruct (join_path (w :: ws)) as [|c s] eqn:E; [|done].
  simpl in Hs. simplify_eq. inversion H as [|? ? [Hw _]]; done.
Qed.

Lemma join_nonempty ws : Forall good_comp ws -> ws <> [] -> join_path ws <> [].
Proof.
  intros H Hne E. pose proof (split_join ws Hne (good_no_slash _ H)) as Hs.
  rewrite E in Hs. simpl in Hs. subst. inversion H as [|? ? [Hw _]]; done.
Qed.

Lemma abs_path_inj ws vs :
  Forall good_comp ws -> Forall good_comp vs -> abs_path ws = abs_path vs -> ws = vs.
Proof. intros Hw Hv E. by rewrite <- (comps_abs ws), E, comps_abs. Qed.

Lemma join_app ws vs : ws <> [] -> vs <> [] ->
  join_path (ws ++ vs) = join_path ws ++ slash :: join_path vs.
Proof.
  intros Hws Hvs. induction ws as [|w ws IH]; [done|].
  destruct ws as [|w' ws]; simpl in *; [by destruct vs|].
  rewrite IH by done. by rewrite <- app_assoc.
Qed.

Lemma cut_rev_last a b :
  slash ∉ b -> cut_l slash (rev (a ++ slash :: b)) = Some (rev b, rev a).
Proof.
  intros H. apply cut_l_Some. rewrite rev_app_distr. simpl. rewrite <- app_assoc.
  split; [done|]. by rewrite list_elem_of_In, <- in_rev, <- list_elem_of_In.
Qed.

Lemma split_last_app a b : slash ∉ b -> split_last (a ++ slash :: b) = (a ++ [slash], b).
Proof. intros H. unfold split_last. by rewrite cut_rev_last, !rev_involutive. Qed.

Lemma abs_path_snoc ws w : abs_path (ws ++ [w]) =
  match ws with [] => [] | _ => abs_path ws end ++ slash :: w.
Proof.
  unfold abs_path. destruct ws as [|v ws]; [done|]. by rewrite join_app.
Qed.

(** The parent and last component of an absolute clean path. *)
Lemma Dir_snoc ws w : Forall good_comp (ws ++ [w]) -> Dir (abs_path (ws ++ [w])) = abs_path ws.
Proof.
  intros [Hws Hw]%Forall_app. apply Forall_singleton in Hw as (_ & _ & _ & Hs).
  unfold Dir. rewrite abs_path_snoc, split_last_app by done. simpl.
  destruct ws as [|v ws]; [done|]. apply Clean_rooted; [done|].
  change (abs_path (v :: ws) ++ [slash]) with (slash :: (join_path (v :: ws) ++ [slash])).
  cbn [split_path]. change (Ascii.eqb slash slash) with true. cbn iota.
  rewrite split_join_snoc by (by try apply good_no_slash).
  unfold clean_comps. cbn [fold_left]. rewrite clean_step_nil, fold_left_app.
  rewrite (fold_clean_good _ (v :: ws)) by done. cbn [fold_left].
  by rewrite clean_step_nil, app_nil_r, rev_involutive.
Qed.

Lemma Dir_root : Dir (abs_path []) = abs_path [].
Proof. reflexivity. Qed.

Lemma Base_snoc ws w : Forall good_comp (ws ++ [w]) -> Base (abs_path (ws ++ [w])) = w.
Proof.
  intros [Hws Hw]%Forall_app. apply Forall_singleton in Hw as (Hne & _ & _ & Hs).
  unfold Base. rewrite bool_decide_eq_false_2 by done. rewrite abs_path_snoc.
  assert (forall a, drop_while (Ascii.eqb slash) (rev (a ++ slash :: w)) = rev (a ++ slash :: w)) as Hd.
  { intros a. rewrite rev_app_distr. simpl. rewrite <- app_assoc.
    destruct (rev w) as [|c r] eqn:E.
    - apply (f_equal (@rev ascii)) in E. by rewrite rev_involutive in E.
    - simpl. destruct (Ascii.eqb_spec slash c) as [<-|]; [|done]. exfalso. apply Hs.
      apply list_elem_of_In, in_rev. rewrite E. by left. }
  rewrite Hd, rev_involutive, split_last_app by done. simpl.
  by rewrite bool_decide_eq_false_2.
Qed.

(** Re-attaching missing components. *)
Lemma split_app_join ws vs :
  Forall good_comp ws -> Forall good_comp vs -> vs <> [] ->
  Clean (abs_path ws ++ slash :: join_path vs) = abs_path (ws ++ vs).
Proof.
  intros Hws Hvs Hne. apply Clean_rooted; [done|].
  unfold abs_path. cbn [app split_path]. change (Ascii.eqb slash slash) with true. cbn iota.
  unfold clean_comps. cbn [fold_left]. rewrite clean_step_nil.
  assert (split_path (join_path ws ++ slash :: join_path vs) =
          match ws with [] => [[]] | _ => ws end ++ vs) as ->.
  { destruct ws as [|w ws].
    - simpl. by rewrite split_join by (by try apply good_no_slash).
    - rewrite <- join_app by done. apply split_join; [done|].
      by apply good_no_slash, Forall_app. }
  rewrite fold_left_app. destruct ws as [|w ws].
  - simpl. rewrite clean_step_nil, fold_clean_good by done. by rewrite app_nil_r, rev_involutive.
  - rewrite !fold_clean_good by done. rewrite app_nil_r, rev_app_distr, !rev_involutive. done.
Qed.

Lemma Join_abs ws vs :
  Forall good_comp ws -> Forall good_comp vs -> vs <> [] ->
  Join (abs_path ws) (join_path vs) = abs_path (ws ++ vs).
Proof.
  intros. unfold Join. rewrite bool_decide_eq_false_2 by done. by apply split_app_join.
Qed.

Lemma Clean_relative ws s :
  ws <> [] -> Forall good_comp ws -> IsAbs s = false ->
  clean_comps false (split_path s) = ws -> Clean s = join_path ws.
Proof.
  intros Hne Hg Ha E. unfold Clean. rewrite Ha, E. by rewrite bool_decide_eq_false_2.
Qed.

Lemma good_not_abs w s : good_comp w -> IsAbs (w ++ s) = false.
Proof.
  intros (Hne & _ & _ & Hs). destruct w as [|c w]; [done|]. simpl.
  destruct (Ascii.eqb_spec c slash) as [->|]; [|done]. set_solver.
Qed.

Lemma Join_relative w vs :
  good_comp w -> Forall good_comp vs -> Join w (join_path vs) = join_path (w :: vs).
Proof.
  intros Hw Hvs. pose proof Hw as (Hne & _ & _ & Hs). unfold Join.
  rewrite bool_decide_eq_false_2 by done.
  apply Clean_relative; [done|by constructor|by apply good_not_abs|].
  rewrite split_app by done. unfold clean_comps. cbn [fold_left].
  rewrite clean_step_good by done. destruct vs as [|v vs]; [done|].
  rewrite split_join by (by try apply good_no_slash). rewrite fold_clean_good by done.
  by rewrite rev_app_distr, rev_involutive.
Qed.

(** ** Relative paths between absolute clean ones *)

Lemma strip_common_prefix b t :
  fst (strip_common b t) = [] <-> exists r, t = b ++ r.
Proof.
  revert t. induction b as [|x b IH]; intros t; simpl.
  - split; [by exists t|by destruct t].
  - destruct t as [|y t]; simpl.
    + split; [done|by intros [r [=]]].
    + case_bool_decide as E; [subst; rewrite IH; naive_solver|].
      split; [done|]. intros [r [= <- _]]. done.
Qed.

Lemma strip_common_rest b t : exists p, t = p ++ snd (strip_common b t).
Proof.
  revert t. induction b as [|x b IH]; intros t; simpl.
  - by exists []; destruct t.
  - destruct t as [|y t]; simpl; [by exists []|]. case_bool_decide; [|by exists []].
    destruct (IH t) as [p Hp]. exists (y :: p). simpl. by f_equal.
Qed.

Lemma strip_common_base b t : exists p, b = p ++ fst (strip_common b t).
Proof.
  revert t. induction b as [|x b IH]; intros t; simpl.
  - by exists []; destruct t.
  - destruct t as [|y t]; simpl; [by exists []|]. case_bool_decide; [|by exists []].
    destruct (IH t) as [p Hp]. exists (x :: p). simpl. by f_equal.
Qed.

(** A relative path that climbs out: [..] alone or leading. *)
Definition climbs (rel : path) : bool :=
  bool_decide (rel = dotdot) || has_prefix_l (dotdot ++ [slash]) rel.

Lemma climbs_dotdots n t : climbs (join_path (replicate (S n) dotdot ++ t)) = true.
Proof.
  unfold climbs. destruct (replicate n dotdot ++ t) as [|w ws] eqn:E; simpl; rewrite E.
  - done.
  - apply orb_true_iff. right. by destruct w.
Qed.

Lemma join_no_climb ws : Forall good_comp ws -> climbs (join_path ws) = false.
Proof.
  intros H. destruct ws as [|w ws]; [done|]. inversion H as [|? ? (Hne & Hd & Hdd & Hs) _]; subst.
  unfold climbs. apply orb_false_iff. split.
  - apply bool_decide_eq_false. intros E. destruct ws; simpl in E; [done|].
    apply (f_equal (fun l => slash ∈ l)) in E.
    assert (slash ∈ dotdot) as Hin by (rewrite <- E; set_solver). set_solver.
  - destruct (has_prefix_l _ _) eqn:E; [|done]. apply has_prefix_l_spec in E as [t E].
    pose proof (split_join (w :: ws) ltac:(done) (good_no_slash _ H)) as Hj. rewrite E in Hj.
    rewrite <- app_assoc in Hj. simpl ([slash] ++ t) in Hj. rewrite split_app in Hj by set_solver.
    by injection Hj as <-.
Qed.

(** [Rel] between absolute clean paths stays below the base exactly when the
    base's components are a prefix of the target's. *)
Lemma Rel_abs b t :
  Forall good_comp b -> Forall good_comp t -> b <> t ->
  exists rel, Rel (abs_path b) (abs_path t) = Ok rel /\
    (climbs rel = false <-> exists r, t = b ++ r).
Proof.
  intros Hb Ht Hne. unfold Rel. rewrite !Clean_abs by done.
  rewrite bool_decide_eq_false_2 by (intros E; by apply Hne, abs_path_inj).
  change (IsAbs (abs_path b)) with true. change (IsAbs (abs_path t)) with true. cbn [Bool.eqb negb].
  rewrite !comps_abs by done.
  pose proof (strip_common_prefix b t) as Hp. pose proof (strip_common_rest b t) as [pt Ht'].
  pose proof (strip_common_base b t) as [pb Hb'].
  destruct (strip_common b t) as [b' t']. simpl in *.
  assert (Forall good_comp t') as Hg by (by rewrite Ht', Forall_app in Ht; destruct Ht).
  destruct b' as [|x b']; [exists (join_path t')|].
  - split; [done|]. rewrite join_no_climb by done. naive_solver.
  - assert (good_comp x) as Hx.
    { rewrite Hb', Forall_app, Forall_cons in Hb. tauto. }
    assert (bool_decide (x = dotdot) = false) as ->
      by (apply bool_decide_eq_false; unfold good_comp in Hx; tauto).
    rewrite andb_false_r. eexists. split; [reflexivity|].
    change (length (x :: b')) with (S (length b')). rewrite climbs_dotdots.
    split; [done|]. intros Hr. apply Hp in Hr. done.
Qed.
