(* ===== verification/PathConfine.v ===== *)
(** * Path confinement (pkg/validation/path.go)

    [EvalSymlinks] asks the operating system and is a parameter, as is the
    working directory.  What the code relies on is what its documentation
    says: the result for an absolute path is absolute and clean. *)

From stdpp Require Import base list sets strings.
From Stdlib Require Import Ascii ZArith Lia.
From S2P Require Import Prelude GoStrings GoPath.

Definition ErrNotExist : string := "fs.ErrNotExist".

Section confine.
Variable cwd : path.
Variable EvalSymlinks : path -> result path.

(** The loop of [ResolvePath]: [None] when the fuel runs out. *)
Fixpoint resolve_loop (fuel : nat) (p abs current missing : path) : option (result path) :=
  match fuel with
  | O => None
  | S fuel' =>
      match EvalSymlinks current with
      | Ok resolved =>
          if bool_decide (missing = []) then Some (Ok resolved)
          else Some (Ok (Join resolved missing))
      | Err evalErr =>
          if negb (errors_Is evalErr ErrNotExist)
          then Some (Err (Wrapf "cannot resolve %q: %w" [of_bytes p] evalErr))
          else
            let parent := Dir current in
            if bool_decide (parent = current) then Some (Ok abs)
            else resolve_loop fuel' p abs parent (Join (Base current) missing)
      end
  end.

Definition ResolvePath (p : path) : option (result path) :=
  if bool_decide (p = []) then Some (Err (Errorf "path cannot be empty" []))
  else let abs := Clean (Abs cwd p) in resolve_loop (S (length abs)) p abs abs [].

Definition PathWithin (p root : path) : option (result bool) :=
  match ResolvePath p with
  | None => None
  | Some (Err e) => Some (Err e)
  | Some (Ok resolvedPath) =>
      match ResolvePath root with
      | None => None
      | Some (Err e) => Some (Err e)
      | Some (Ok resolvedRoot) =>
          if bool_decide (resolvedPath = resolvedRoot) then Some (Ok true)
          else match Rel resolvedRoot resolvedPath with
               | Err _ => Some (Ok false)
               | Ok rel =>
                   Some (Ok (negb (bool_decide (rel = dotdot))
                             && negb (has_prefix_l (dotdot ++ [slash]) rel)))
               end
      end
  end.

Fixpoint PathWithinAny (p : path) (roots : list path) : option (result bool) :=
  match roots with
  | [] => Some (Ok false)
  | root :: roots' =>
      if bool_decide (root = []) then PathWithinAny p roots'
      else match PathWithin p root with
           | None => None
           | Some (Err e) => Some (Err e)
           | Some (Ok true) => Some (Ok true)
           | Some (Ok false) => PathWithinAny p roots'
           end
  end.

(** The outer option is the fuel, the inner one the error. *)
Definition EnsurePathWithin (p root : path) : option (option error) :=
  match PathWithin p root with
  | None => None
  | Some (Err e) => Some (Some e)
  | Some (Ok within) =>
      Some (if negb within
            then Some (Errorf "path %q is outside %q" [of_bytes p; of_bytes root]) else None)
  end.

Hypothesis cwd_abs : IsAbs cwd = true.
Hypothesis EvalSymlinks_clean : forall q r,
  IsAbs q = true -> EvalSymlinks q = Ok r -> IsAbs r = true /\ Clean r = r.

(** ** The specification of [ResolvePath]

    Walking the components [ws] of the absolute path from the longest
    prefix: the first one the system resolves is resolved and the remaining
    components are re-attached; when none exists the path stays as it is. *)
Fixpoint resolve_spec (p : path) (abs : path) (pre suf : list path) (k : nat) : result path :=
  match EvalSymlinks (abs_path pre) with
  | Ok r => Ok (match suf with [] => r | _ => abs_path (comps r ++ suf) end)
  | Err e =>
      if negb (errors_Is e ErrNotExist) then Err (Wrapf "cannot resolve %q: %w" [of_bytes p] e)
      else match k, rev pre with
           | S k', w :: rpre => resolve_spec p abs (rev rpre) (w :: suf) k'
           | _, _ => Ok abs
           end
  end.

Lemma EvalSymlinks_form ws r : EvalSymlinks (abs_path ws) = Ok r ->
  exists rs, Forall good_comp rs /\ r = abs_path rs.
Proof.
  intros H. apply EvalSymlinks_clean in H as [Ha Hc]; [|done].
  destruct (Clean_abs_form r Ha) as (rs & Hg & E). exists rs. split; [done|congruence].
Qed.

Lemma resolve_loop_spec ws : forall suf fuel p abs,
  Forall good_comp ws -> Forall good_comp suf -> length ws < fuel ->
  resolve_loop fuel p abs (abs_path ws) (join_path suf) =
  Some (resolve_spec p abs ws suf (length ws)).
Proof.
  induction ws as [|w ws IH] using rev_ind; intros suf fuel p abs Hws Hsuf Hlt;
    (destruct fuel as [|fuel]; [lia|]); cbn [resolve_loop].
  - cbn [resolve_spec length]. destruct (EvalSymlinks (abs_path [])) as [r|e] eqn:He.
    + apply EvalSymlinks_form in He as (rs & Hrs & ->).
      destruct suf as [|v suf]; [done|].
      rewrite bool_decide_eq_false_2 by (by apply join_nonempty).
      by rewrite Join_abs, comps_abs.
    + case_if; [done|]. by rewrite Dir_root, bool_decide_eq_true_2.
  - rewrite length_app in *. simpl in Hlt.
    replace (length ws + length [w]) with (S (length ws)) by (simpl; lia).
    cbn [resolve_spec]. rewrite rev_app_distr. cbn [rev app].
    destruct (EvalSymlinks (abs_path (ws ++ [w]))) as [r|e] eqn:He.
    + apply EvalSymlinks_form in He as (rs & Hrs & ->).
      destruct suf as [|v suf]; [done|].
      rewrite bool_decide_eq_false_2 by (by apply join_nonempty).
      by rewrite Join_abs, comps_abs.
    + case_if; [done|]. rewrite Dir_snoc, Base_snoc by done.
      rewrite bool_decide_eq_false_2.
      * pose proof Hws as [Hw1 Hw2]%Forall_app. rewrite Forall_singleton in Hw2.
        rewrite Join_relative, rev_involutive by done. apply IH; [done|by constructor|lia].
      * intros E'. apply abs_path_inj in E'; [|by apply Forall_app in Hws as [? _]|done].
        apply (f_equal length) in E'. rewrite length_app in E'. simpl in E'. lia.
Qed.

Lemma Abs_form p : p <> [] -> exists ws, Forall good_comp ws /\ Clean (Abs cwd p) = abs_path ws.
Proof.
  intros Hp. apply Clean_abs_form. unfold Abs. destruct (IsAbs p) eqn:E.
  - destruct (Clean_abs_form p E) as (ws & _ & ->). done.
  - unfold Join. destruct cwd as [|c cwd']; [done|].
    rewrite bool_decide_eq_false_2 by done.
    destruct (Clean_abs_form ((c :: cwd') ++ slash :: p)) as (ws & _ & ->); done.
Qed.

Lemma length_abs_path ws : Forall good_comp ws -> length ws < S (length (abs_path ws)).
Proof.
  intros H. unfold abs_path. simpl. enough (length ws <= length (join_path ws)) by lia.
  induction H as [|w ws (Hne & _) _ IH]; [simpl; lia|].
  destruct w as [|c w]; [done|]. destruct ws as [|v ws]; [simpl; lia|].
  cbn [join_path app length] in *. rewrite length_app. simpl in *. lia.
Qed.

Lemma ResolvePath_spec p ws :
  p <> [] -> Forall good_comp ws -> Clean (Abs cwd p) = abs_path ws ->
  ResolvePath p = Some (resolve_spec p (abs_path ws) ws [] (length ws)).
Proof.
  intros Hp Hg E. unfold ResolvePath. rewrite bool_decide_eq_false_2, E by done.
  apply (resolve_loop_spec ws []); [done|done|by apply length_abs_path].
Qed.

Lemma resolve_spec_form p n : forall pre suf r ws,
  Forall good_comp pre -> Forall good_comp suf -> Forall good_comp ws ->
  resolve_spec p (abs_path ws) pre suf n = Ok r ->
  exists rs, Forall good_comp rs /\ r = abs_path rs.
Proof.
  induction n as [|n IH]; intros pre suf r ws Hpre Hsuf Hws; cbn [resolve_spec];
    destruct (EvalSymlinks (abs_path pre)) as [q|e] eqn:He.
  1,3: apply EvalSymlinks_form in He as (rs & Hrs & ->); intros [= <-];
       rewrite comps_abs by done; destruct suf as [|v suf]; [by exists rs|];
       exists (rs ++ v :: suf); split; [by apply Forall_app|done].
  - case_if; [done|]. intros [= <-]. by exists ws.
  - case_if; [done|]. destruct (rev pre) as [|w rpre] eqn:Hr; [intros [= <-]; by exists ws|].
    apply Forall_rev in Hpre. rewrite Hr in Hpre. inversion Hpre; subst.
    apply IH; [by apply Forall_rev|by constructor|done].
Qed.

(** A resolved path is always absolute and clean, and the walk always ends. *)
Lemma ResolvePath_form p :
  exists res, ResolvePath p = Some res /\
    forall r, res = Ok r -> exists rs, Forall good_comp rs /\ r = abs_path rs.
Proof.
  destruct (decide (p = [])) as [->|Hp].
  - eexists. split; [reflexivity|done].
  - destruct (Abs_form p Hp) as (ws & Hg & E). rewrite (ResolvePath_spec p ws) by done.
    eexists. split; [reflexivity|]. intros r Hr. by eapply resolve_spec_form in Hr.
Qed.

(** The decision made on two resolved paths. *)
Lemma PathWithin_decides p root ps rs :
  Forall good_comp ps -> Forall good_comp rs ->
  ResolvePath p = Some (Ok (abs_path ps)) -> ResolvePath root = Some (Ok (abs_path rs)) ->
  exists b, PathWithin p root = Some (Ok b) /\ (b = true <-> exists t, ps = rs ++ t).
Proof.
  intros Hps Hrs Hp Hr. unfold PathWithin. rewrite Hp, Hr.
  case_bool_decide as E.
  - apply abs_path_inj in E as ->; [|done..]. exists true. split; [done|].
    split; [|done]. intros _. exists []. by rewrite app_nil_r.
  - assert (rs <> ps) as Hne by (by intros ->).
    destruct (Rel_abs rs ps Hrs Hps Hne) as (rel & -> & Hc).
    eexists. split; [reflexivity|]. rewrite <- Hc. unfold climbs.
    rewrite orb_false_iff, andb_true_iff, !negb_true_iff. done.
Qed.
End confine.

(** ** Properties *)

(** C32: the walk up the ancestors terminates for every path, with the fuel the
    definition gives it, and its result is that of the specification: the
    longest prefix of the path's components the system resolves is replaced by
    its target and the missing components are re-attached, an error other than
    "does not exist" is reported, and a path with no existing ancestor is
    returned in absolute clean form. *)
Theorem ResolvePath_correct (cwd : path) (EvalSymlinks : path -> result path)
    (cwd_abs : IsAbs cwd = true)
    (Hclean : forall q r, IsAbs q = true -> EvalSymlinks q = Ok r -> IsAbs r = true /\ Clean r = r)
    (p : path) (Hp : p <> []) :
  exists ws, Forall good_comp ws /\ Clean (Abs cwd p) = abs_path ws /\
    ResolvePath cwd EvalSymlinks p =
    Some (resolve_spec EvalSymlinks p (abs_path ws) ws [] (length ws)).
Proof.
  destruct (Abs_form cwd cwd_abs p Hp) as (ws & Hg & E). exists ws.
  split_and!; [done|done|]. by apply ResolvePath_spec.
Qed.


(** A host with [/], [/data] and [/data/link], a link to [/etc]. *)
Definition sample_host (q : path) : result path :=
  let s := of_bytes q in
  if existsb (streq s) ["/"; "/data"; "/etc"] then Ok q
  else if streq s "/data/link" then Ok (bytes "/etc")
  else Err (Sentinel ErrNotExist).

Lemma sample_host_clean q r : IsAbs q = true -> sample_host q = Ok r -> IsAbs r = true /\ Clean r = r.
Proof.
  unfold sample_host. intros _. destruct (existsb _ _) eqn:E.
  - intros [= <-]. apply existsb_exists_iff in E as (s & Hs & E%streq_true).
    apply (f_equal bytes) in E. rewrite bytes_of_bytes in E. subst.
    rewrite !elem_of_cons in Hs. destruct Hs as [-> | [-> | [-> | Hs%elem_of_nil]]]; done.
  - case_if; [|done]. by intros [= <-].
Qed.

Lemma ResolvePath_correct_witness :
  exists ws, Clean (Abs (bytes "/") (bytes "/data/new")) = abs_path ws /\
    ResolvePath (bytes "/") sample_host (bytes "/data/new") = Some (Ok (bytes "/data/new")).
Proof.
  destruct (ResolvePath_correct (bytes "/") sample_host eq_refl sample_host_clean
              (bytes "/data/new") ltac:(discriminate)) as (ws & _ & E & _).
  exists ws. split; [exact E|vm_compute; reflexivity].
Defined.


Example symlink_out_is_outside :
  PathWithin (bytes "/") sample_host (bytes "/data/link/passwd") (bytes "/data") = Some (Ok false) /\
  PathWithin (bytes "/") sample_host (bytes "/database") (bytes "/data") = Some (Ok false) /\
  PathWithin (bytes "/") sample_host (bytes "/etc") (bytes "/") = Some (Ok true).
Proof. vm_compute. done. Qed.

(** Several roots: the answer yes comes from one of them. *)
Lemma PathWithinAny_true cwd EvalSymlinks p roots :
  PathWithinAny cwd EvalSymlinks p roots = Some (Ok true) ->
  exists root, root ∈ roots /\ root <> [] /\ PathWithin cwd EvalSymlinks p root = Some (Ok true).
Proof.
  induction roots as [|root roots IH]; simpl; [done|].
  case_bool_decide; [intros H'; destruct (IH H') as (r & ? & ?); exists r; set_solver|].
  destruct (PathWithin cwd EvalSymlinks p root) as [[[]|]|] eqn:E; try done.
  - intros _. exists root. set_solver.
  - intros H'. destruct (IH H') as (r & ? & ?). exists r. set_solver.
Qed.

Lemma EnsurePathWithin_nil cwd EvalSymlinks p root :
  EnsurePathWithin cwd EvalSymlinks p root = Some None <->
  PathWithin cwd EvalSymlinks p root = Some (Ok true).
Proof.
  unfold EnsurePathWithin. destruct (PathWithin _ _ _ _) as [[[]|]|]; naive_solver.
Qed.
