(* ===== verification/InstanceLocks.v ===== *)
(** * Per-instance locks (pkg/provider/locks.go)

    The shared state is the [locks] map from a name to an entry, the entries
    living in a heap because goroutines keep pointers to them after the map has
    changed.  An entry is a channel of capacity one, [tok] saying whether it
    holds a token, and a count of the callers interested in it.  Each region
    the code runs under [l.mu], each channel operation, and each context test is
    one function; [step] interleaves them for any number of goroutines. *)

From stdpp Require Import base list sets gmap strings relations.
From Stdlib Require Import ZArith Lia.
From S2P Require Import Prelude.

Record entry := { tok : bool; refs : Z }.
Record InstanceLocks := { heap : gmap nat entry; next : nat; locks : gmap string nat }.

(** The zero value. *)
Definition no_locks : InstanceLocks := {| heap := ∅; next := 0; locks := ∅ |}.

Definition set_tok (b : bool) (ent : entry) : entry := {| tok := b; refs := refs ent |}.
Definition add_refs (d : Z) (ent : entry) : entry := {| tok := tok ent; refs := refs ent + d |}.

(** ** Operations *)

(** The first region of [Acquire]: find or create the entry, count the caller. *)
Definition register (l : InstanceLocks) (name : string) : InstanceLocks * nat :=
  match locks l !! name with
  | Some e =>
      ({| heap := alter (add_refs 1) e (heap l); next := next l; locks := locks l |}, e)
  | None =>
      let e := next l in
      ({| heap := <[e := {| tok := false; refs := 1 |}]> (heap l);
          next := S e; locks := <[name := e]> (locks l) |}, e)
  end.

(** [entry.ch <- struct{}{}] when it does not block. *)
Definition try_send (l : InstanceLocks) (e : nat) : option InstanceLocks :=
  match heap l !! e with
  | Some ent =>
      if tok ent then None
      else Some {| heap := <[e := set_tok true ent]> (heap l); next := next l; locks := locks l |}
  | None => None
  end.

(** [<-entry.ch] by the holder. *)
Definition recv (l : InstanceLocks) (e : nat) : InstanceLocks :=
  {| heap := alter (set_tok false) e (heap l); next := next l; locks := locks l |}.

Definition drop (l : InstanceLocks) (name : string) (e : nat) : InstanceLocks :=
  let h := alter (add_refs (-1)) e (heap l) in
  {| heap := h; next := next l;
     locks := match h !! e with
              | Some ent => if (refs ent =? 0)%Z then delete name (locks l) else locks l
              | None => locks l
              end |}.

(** What one call of [Acquire] does when no other goroutine runs: it finds the
    name in the context, fails because the context has ended, takes the lock,
    or blocks with the caller registered. *)
Inductive acquired :=
  | AlreadyHeld
  | Failed (l : InstanceLocks)
  | Acquired (l : InstanceLocks) (e : nat)
  | Blocked (l : InstanceLocks).

Definition Acquire (l : InstanceLocks) (ctx : list string) (done : bool) (name : string) : acquired :=
  if bool_decide (name ∈ ctx) then AlreadyHeld
  else
    let '(l1, e) := register l name in
    if done then Failed (drop l1 name e)
    else match try_send l1 e with
         | Some l2 => Acquired l2 e
         | None => Blocked l1
         end.

Definition release (l : InstanceLocks) (name : string) (e : nat) : InstanceLocks :=
  drop (recv l e) name e.

(** The order [AcquireAll] locks in: empty and repeated names skipped, sorted. *)
Fixpoint unique_names (seen names : list string) : list string :=
  match names with
  | [] => []
  | n :: ns =>
      if bool_decide (n = "") || bool_decide (n ∈ seen) then unique_names seen ns
      else n :: unique_names (n :: seen) ns
  end.

Definition lock_order (names : list string) : list string := sort_strings (unique_names [] names).

(** [releaseAll]: the most recent lock first. *)
Fixpoint release_all (l : InstanceLocks) (held : list (string * nat)) : InstanceLocks :=
  match held with
  | [] => l
  | (n, e) :: held' => release_all (release l n e) held'
  end.

(** The loop of [AcquireAll]; [held] is what this call has taken so far, most
    recent first, and [ctx] the names the context marks. *)
Fixpoint acquire_loop (l : InstanceLocks) (ctx : list string) (done : bool)
    (held : list (string * nat)) (names : list string)
    : option (InstanceLocks * list (string * nat)) * InstanceLocks :=
  match names with
  | [] => (Some (l, held), l)
  | n :: ns =>
      match Acquire l ctx done n with
      | AlreadyHeld => acquire_loop l ctx done held ns
      | Acquired l' e => acquire_loop l' (n :: ctx) done ((n, e) :: held) ns
      | Failed l' => (None, release_all l' held)
      | Blocked l' => (None, l')
      end
  end.

Definition AcquireAll (l : InstanceLocks) (ctx : list string) (done : bool) (names : list string)
    : option (InstanceLocks * list (string * nat)) * InstanceLocks :=
  acquire_loop l ctx done [] (lock_order names).

(** ** Goroutines *)

Inductive phase :=
  | Running
  | Waiting (name : string) (e : nat)
  | Dropping (name : string) (e : nat).

(** A goroutine: the locks its context marks, the names its current
    [AcquireAll] has still to take, and where it is. *)
Record thread := { holds : list (string * nat); todo : list string; pc : phase }.

Definition held_names (h : list (string * nat)) : list string := map fst h.

Record system := { shared : InstanceLocks; threads : gmap nat thread }.

(** [allowed held names]: which calls goroutines make while holding locks. *)
Inductive step (allowed : list string -> list string -> Prop) : system -> system -> Prop :=
  | S_call l ts t h names :
      ts !! t = Some {| holds := h; todo := []; pc := Running |} ->
      allowed (held_names h) names ->
      step allowed {| shared := l; threads := ts |}
        {| shared := l;
           threads := <[t := {| holds := h; todo := lock_order names; pc := Running |}]> ts |}
  | S_already l ts t h n r :
      ts !! t = Some {| holds := h; todo := n :: r; pc := Running |} ->
      n ∈ held_names h ->
      step allowed {| shared := l; threads := ts |}
        {| shared := l; threads := <[t := {| holds := h; todo := r; pc := Running |}]> ts |}
  | S_register l ts t h n r l' e :
      ts !! t = Some {| holds := h; todo := n :: r; pc := Running |} ->
      n ∉ held_names h -> register l n = (l', e) ->
      step allowed {| shared := l; threads := ts |}
        {| shared := l'; threads := <[t := {| holds := h; todo := r; pc := Waiting n e |}]> ts |}
  | S_cancel l ts t h r n e :
      ts !! t = Some {| holds := h; todo := r; pc := Waiting n e |} ->
      step allowed {| shared := l; threads := ts |}
        {| shared := l; threads := <[t := {| holds := h; todo := []; pc := Dropping n e |}]> ts |}
  | S_take l ts t h r n e l' :
      ts !! t = Some {| holds := h; todo := r; pc := Waiting n e |} ->
      try_send l e = Some l' ->
      step allowed {| shared := l; threads := ts |}
        {| shared := l'; threads := <[t := {| holds := (n, e) :: h; todo := r; pc := Running |}]> ts |}
  | S_release l ts t h1 h2 n e :
      ts !! t = Some {| holds := h1 ++ (n, e) :: h2; todo := []; pc := Running |} ->
      step allowed {| shared := l; threads := ts |}
        {| shared := recv l e;
           threads := <[t := {| holds := h1 ++ h2; todo := []; pc := Dropping n e |}]> ts |}
  | S_drop l ts t h r n e :
      ts !! t = Some {| holds := h; todo := r; pc := Dropping n e |} ->
      step allowed {| shared := l; threads := ts |}
        {| shared := drop l n e; threads := <[t := {| holds := h; todo := r; pc := Running |}]> ts |}.

(** Every goroutine starts outside any operation. *)
Definition initial (s : system) : Prop :=
  shared s = no_locks /\
  map_Forall (fun _ th => th = {| holds := []; todo := []; pc := Running |}) (threads s).

Definition reachable (allowed : list string -> list string -> Prop) (s : system) : Prop :=
  exists s0, initial s0 /\ rtc (step allowed) s0 s.
