(* ===== verification/InstanceLocksFacts.v ===== *)
(** * Correctness of the instance locks

    An invariant of every interleaving ties the reference counts and tokens to
    what the goroutines hold; from it follow mutual exclusion, that idle
    entries are dropped, and, for goroutines that take their locks with one
    [AcquireAll] at a time, that the locks cannot deadlock. *)

From stdpp Require Import base list sets gmap strings relations sorting.
From Stdlib Require Import ZArith Lia.
From S2P Require Import Prelude InstanceLocks.

(** ** The invariant *)

Definition hold_count (e : nat) (th : thread) : nat :=
  length (filter (fun p => p.2 = e) (holds th)).

Definition pc_refers (p : phase) (n : string) (e : nat) : Prop :=
  match p with Waiting n' e' | Dropping n' e' => n' = n /\ e' = e | Running => False end.

Definition pc_count (e : nat) (p : phase) : nat :=
  match p with
  | Waiting _ e' | Dropping _ e' => if decide (e' = e) then 1 else 0
  | Running => 0
  end.

Definition ref_count (e : nat) (th : thread) : nat := hold_count e th + pc_count e (pc th).

(** A goroutine refers to entry [e] under name [n]. *)
Definition refers (th : thread) (n : string) (e : nat) : Prop :=
  (n, e) ∈ holds th \/ pc_refers (pc th) n e.

Record lock_inv (s : system) : Prop := {
  inv_refs : forall e ent, heap (shared s) !! e = Some ent ->
    refs ent = Z.of_nat (total (ref_count e) (threads s));
  inv_tok : forall e ent, heap (shared s) !! e = Some ent ->
    total (hold_count e) (threads s) = if tok ent then 1 else 0;
  inv_live : forall n e, locks (shared s) !! n = Some e ->
    exists ent, heap (shared s) !! e = Some ent /\ (0 < refs ent)%Z;
  inv_named : forall t th n e, threads s !! t = Some th -> refers th n e ->
    locks (shared s) !! n = Some e;
  inv_inj : forall n n' e, locks (shared s) !! n = Some e ->
    locks (shared s) !! n' = Some e -> n = n';
  inv_next : forall e, next (shared s) <= e -> heap (shared s) !! e = None
}.

Lemma hold_count_pos e th : 0 < hold_count e th <-> exists n, (n, e) ∈ holds th.
Proof.
  unfold hold_count. split.
  - destruct (filter _ (holds th)) as [|[n e'] l] eqn:E; simpl; [lia|]. intros _.
    assert ((n, e') ∈ filter (fun p => p.2 = e) (holds th)) as H by (rewrite E; left).
    apply list_elem_of_filter in H as [<- H]. eauto.
  - intros [n Hn]. destruct (filter _ (holds th)) eqn:E; simpl; [|lia].
    assert ((n, e) ∈ filter (fun p => p.2 = e) (holds th)) as H
      by (apply list_elem_of_filter; done).
    rewrite E in H. by apply elem_of_nil in H.
Qed.

Lemma ref_count_pos e th : 0 < ref_count e th <-> exists n, refers th n e.
Proof.
  unfold ref_count, refers. pose proof (hold_count_pos e th) as H. split.
  - intros Hp. destruct (decide (0 < hold_count e th)) as [Hh|Hh].
    + apply H in Hh as [n Hn]. eauto.
    + assert (0 < pc_count e (pc th)) as Hc by lia. unfold pc_count in Hc. unfold pc_refers.
      destruct (pc th) as [|n e'|n e']; [lia|exists n..]; case_decide; naive_solver lia.
  - intros [n [Hn|Hn]].
    + assert (0 < hold_count e th) by (apply H; eauto). lia.
    + unfold pc_count. destruct (pc th); simpl in Hn; [done|..]; destruct Hn as [_ ->];
        rewrite decide_True by done; lia.
Qed.

Lemma hold_count_app e h1 h2 n e' t p :
  hold_count e {| holds := h1 ++ (n, e') :: h2; todo := t; pc := p |} =
  hold_count e {| holds := h1 ++ h2; todo := t; pc := p |} + if decide (e' = e) then 1 else 0.
Proof.
  unfold hold_count. simpl. rewrite !filter_app, filter_cons. simpl.
  case_decide; rewrite !length_app; simpl; lia.
Qed.

Lemma lock_inv_initial s : initial s -> lock_inv s.
Proof.
  intros [Hs Ht]. constructor; rewrite ?Hs; simpl; intros *;
    rewrite ?lookup_empty; try done.
  intros Hth%Ht. subst. intros [H%elem_of_nil|[]]. done.
Qed.

(** ** Preservation, one lemma per kind of step *)

Section preserve.
Context (l : InstanceLocks) (ts : gmap nat thread).
Context (Hinv : lock_inv {| shared := l; threads := ts |}).

Lemma refs_of e ent : heap l !! e = Some ent -> refs ent = Z.of_nat (total (ref_count e) ts).
Proof. apply (inv_refs _ Hinv). Qed.

Lemma tok_of e ent : heap l !! e = Some ent ->
  total (hold_count e) ts = if tok ent then 1 else 0.
Proof. apply (inv_tok _ Hinv). Qed.

Lemma named t th n e : ts !! t = Some th -> refers th n e -> locks l !! n = Some e.
Proof. apply (inv_named _ Hinv). Qed.

Lemma live n e : locks l !! n = Some e -> exists ent, heap l !! e = Some ent /\ (0 < refs ent)%Z.
Proof. apply (inv_live _ Hinv). Qed.

(** The goroutine keeps its references; the shared state does not change. *)
Lemma preserve_same t th th' :
  ts !! t = Some th ->
  holds th' = holds th -> (forall e, pc_count e (pc th') = pc_count e (pc th)) ->
  (forall n e, pc_refers (pc th') n e -> pc_refers (pc th) n e) ->
  lock_inv {| shared := l; threads := <[t := th']> ts |}.
Proof.
  intros Ht Hh Hc Hr.
  assert (forall e, hold_count e th' = hold_count e th) as Hhc
    by (intros e; unfold hold_count; by rewrite Hh).
  constructor; simpl; try apply Hinv.
  - intros e ent He. rewrite (refs_of e ent He).
    pose proof (total_update (ref_count e) ts t th th' Ht) as E.
    unfold ref_count in E at 2 4. rewrite Hhc, Hc in E. f_equal. lia.
  - intros e ent He. rewrite <- (tok_of e ent He).
    pose proof (total_update (hold_count e) ts t th th' Ht). rewrite Hhc in *. lia.
  - intros t' th0 n e Hl Href. destruct (decide (t = t')) as [->|Hne].
    + rewrite lookup_insert_eq in Hl. simplify_eq. apply (named t' th); [done|].
      unfold refers in *. rewrite Hh in Href. naive_solver.
    + rewrite lookup_insert_ne in Hl by done. by apply (named t' th0).
Qed.

(** The references of one goroutine after an update of another. *)
Lemma named_update t th th' (ls : gmap string nat) :
  ts !! t = Some th ->
  (forall n e, refers th' n e -> ls !! n = Some e) ->
  (forall t0 th0 n e, t0 <> t -> ts !! t0 = Some th0 -> refers th0 n e -> ls !! n = Some e) ->
  forall t0 th0 n e, <[t := th']> ts !! t0 = Some th0 -> refers th0 n e -> ls !! n = Some e.
Proof.
  intros Ht H1 H2 t0 th0 n e Hl Href. destruct (decide (t = t0)) as [->|Hne].
  - rewrite lookup_insert_eq in Hl. simplify_eq. by apply H1.
  - rewrite lookup_insert_ne in Hl by done. by eapply H2.
Qed.

(** A goroutine that starts waiting for [e] adds one reference to it and holds nothing more. *)
Lemma waiting_counts t h n r e :
  ts !! t = Some {| holds := h; todo := n :: r; pc := Running |} ->
  let ts' := <[t := {| holds := h; todo := r; pc := Waiting n e |}]> ts in
  (forall e', total (ref_count e') ts' = total (ref_count e') ts + if decide (e = e') then 1 else 0) /\
  (forall e', total (hold_count e') ts' = total (hold_count e') ts).
Proof.
  intros Ht. set (th' := {| holds := h; todo := r; pc := Waiting n e |}). split; intros e'.
  - pose proof (total_update (ref_count e') ts t _ th' Ht) as E.
    unfold ref_count, hold_count in *. simpl in *. case_decide; lia.
  - pose proof (total_update (hold_count e') ts t _ th' Ht) as E.
    unfold hold_count in *. simpl in *. lia.
Qed.

(** Nobody refers to an entry that has not been allocated. *)
Lemma fresh_unnamed n' : locks l !! n' <> Some (next l).
Proof. intros Hn'. destruct (live n' _ Hn') as (ent & He & _). by rewrite (inv_next _ Hinv) in He. Qed.

Lemma fresh_unused : total (ref_count (next l)) ts = 0 /\ total (hold_count (next l)) ts = 0.
Proof.
  assert (total (ref_count (next l)) ts = 0) as Hzero.
  { apply total_zero. intros t0 th0 Ht0. destruct (decide (0 < ref_count (next l) th0)) as [Hp|]; [|lia]. exfalso.
    apply ref_count_pos in Hp as [n' Hn']. eapply fresh_unnamed, named; eauto. }
  split; [done|]. apply total_zero. intros t0 th0 Ht0.
  pose proof (total_ge (ref_count (next l)) ts t0 th0 Ht0). unfold ref_count in *. lia.
Qed.

(** Registering for an entry that exists. *)
Lemma preserve_register_known t h n r e :
  ts !! t = Some {| holds := h; todo := n :: r; pc := Running |} -> locks l !! n = Some e ->
  lock_inv {| shared := {| heap := alter (add_refs 1) e (heap l); next := next l; locks := locks l |};
              threads := <[t := {| holds := h; todo := r; pc := Waiting n e |}]> ts |}.
Proof.
  intros Ht Hn. destruct (waiting_counts t h n r e Ht) as [Hrefs Hholds].
  destruct (live n e Hn) as (ent & Hent & Hpos). constructor; simpl.
  - intros e' ent' He'. rewrite Hrefs. apply lookup_alter_Some in He'.
    destruct He' as [(<- & ent0 & H0 & ->)|(Hne & H0)].
    + simpl. rewrite (refs_of _ _ H0), decide_True by done. lia.
    + rewrite (refs_of _ _ H0), decide_False by done. lia.
  - intros e' ent' He'. rewrite Hholds. apply lookup_alter_Some in He'.
    destruct He' as [(<- & ent0 & H0 & ->)|(Hne & H0)]; by rewrite (tok_of _ _ H0).
  - intros n' e' Hn'. destruct (live n' e' Hn') as (ent' & He' & Hp').
    destruct (decide (e = e')) as [<-|Hne].
    + exists (add_refs 1 ent'). rewrite lookup_alter_eq, He'. split; [done|simpl; lia].
    + exists ent'. by rewrite lookup_alter_ne.
  - eapply (named_update t _ _ _ Ht).
    + intros n' e' [Hin|[<- <-]]; [|done]. eapply named; [exact Ht|by left].
    + intros t0 th0 n' e' _ Ht0 Href. by eapply named.
  - apply Hinv.
  - intros e' Hle. rewrite lookup_alter_ne; [by apply (inv_next _ Hinv)|].
    intros <-. by rewrite (inv_next _ Hinv) in Hent.
Qed.

(** Registering with a new entry. *)
Lemma preserve_register_new t h n r :
  ts !! t = Some {| holds := h; todo := n :: r; pc := Running |} -> locks l !! n = None ->
  lock_inv {| shared := {| heap := <[next l := {| tok := false; refs := 1 |}]> (heap l); next := S (next l);
                           locks := <[n := next l]> (locks l) |};
              threads := <[t := {| holds := h; todo := r; pc := Waiting n (next l) |}]> ts |}.
Proof.
  intros Ht Hn. destruct (waiting_counts t h n r (next l) Ht) as [Hrefs Hholds]. destruct fresh_unused as [Hzero Hzeroh].
  constructor; simpl.
  - intros e' ent' He'. rewrite Hrefs. destruct (decide (next l = e')) as [<-|Hne].
    + rewrite lookup_insert_eq in He'. simplify_eq. simpl. lia.
    + rewrite lookup_insert_ne in He' by done. rewrite (refs_of _ _ He'). lia.
  - intros e' ent' He'. rewrite Hholds. destruct (decide (next l = e')) as [<-|Hne].
    + rewrite lookup_insert_eq in He'. simplify_eq. simpl. lia.
    + rewrite lookup_insert_ne in He' by done. by rewrite (tok_of _ _ He').
  - intros n' e' Hn'. destruct (decide (n = n')) as [<-|Hne].
    + rewrite lookup_insert_eq in Hn'. simplify_eq. rewrite lookup_insert_eq.
      eexists. split; [done|simpl; lia].
    + rewrite lookup_insert_ne in Hn' by done. destruct (live n' e' Hn') as (ent' & He' & Hp').
      exists ent'. rewrite lookup_insert_ne; [done|]. intros <-.
      by rewrite (inv_next _ Hinv) in He'.
  - eapply (named_update t _ _ _ Ht).
    + intros n' e' [Hin|[<- <-]]; [|by rewrite lookup_insert_eq].
      assert (locks l !! n' = Some e') as Hl by (eapply named; [exact Ht|by left]).
      rewrite lookup_insert_ne by congruence. done.
    + intros t0 th0 n' e' _ Ht0 Href. assert (locks l !! n' = Some e') as Hl by (by eapply named).
      rewrite lookup_insert_ne by congruence. done.
  - intros n1 n2 e' H1 H2. rewrite lookup_insert in H1. rewrite lookup_insert in H2.
    repeat case_decide; simplify_eq; try done; try (exfalso; by eapply fresh_unnamed).
    by eapply (inv_inj _ Hinv).
  - intros e' Hle. rewrite lookup_insert_ne by lia. apply (inv_next _ Hinv). simpl. lia.
Qed.

Lemma preserve_register t h n r l' e :
  ts !! t = Some {| holds := h; todo := n :: r; pc := Running |} ->
  register l n = (l', e) ->
  lock_inv {| shared := l'; threads := <[t := {| holds := h; todo := r; pc := Waiting n e |}]> ts |}.
Proof.
  intros Ht Hreg. unfold register in Hreg. destruct (locks l !! n) as [e0|] eqn:Hn; simplify_eq.
  - by apply preserve_register_known.
  - by apply preserve_register_new.
Qed.

Lemma preserve_take t h r n e l' :
  ts !! t = Some {| holds := h; todo := r; pc := Waiting n e |} ->
  try_send l e = Some l' ->
  lock_inv {| shared := l'; threads := <[t := {| holds := (n, e) :: h; todo := r; pc := Running |}]> ts |}.
Proof.
  intros Ht Hsend. set (th' := {| holds := (n, e) :: h; todo := r; pc := Running |}).
  unfold try_send in Hsend. destruct (heap l !! e) as [ent|] eqn:He; [|done].
  destruct (tok ent) eqn:Htok; simplify_eq.
  assert (forall e', total (hold_count e') (<[t := th']> ts) =
            total (hold_count e') ts + if decide (e = e') then 1 else 0) as Hholds.
  { intros e'. pose proof (total_update (hold_count e') ts t _ th' Ht) as E.
    pose proof (hold_count_app e' [] h n e r Running). simpl in *.
    unfold hold_count in *. simpl in *. lia. }
  assert (forall e', total (ref_count e') (<[t := th']> ts) = total (ref_count e') ts) as Hrefs.
  { intros e'. pose proof (total_update (ref_count e') ts t _ th' Ht) as E.
    pose proof (hold_count_app e' [] h n e r Running). simpl in *.
    unfold ref_count, hold_count in *. simpl in *. lia. }
  constructor; simpl.
  - intros e' ent' He'. rewrite Hrefs. rewrite lookup_insert in He'. case_decide; simplify_eq.
    + simpl. by apply refs_of.
    + by apply refs_of.
  - intros e' ent' He'. rewrite Hholds. rewrite lookup_insert in He'. case_decide; simplify_eq.
    + simpl. by rewrite (tok_of _ _ He), Htok.
    + rewrite (tok_of _ _ He'). lia.
  - intros n' e' Hn'. destruct (live n' e' Hn') as (ent' & He' & Hp').
    rewrite lookup_insert. case_decide; simplify_eq; eauto.
  - eapply (named_update t _ _ _ Ht).
    + intros n' e' [[E|Hin]%elem_of_cons|[]]; simplify_eq.
      * eapply named; [exact Ht|by right].
      * eapply named; [exact Ht|by left].
    + intros t0 th0 n' e' _ Ht0 Href. by eapply named.
  - apply (inv_inj _ Hinv).
  - intros e' Hle. rewrite lookup_insert_ne; [by apply (inv_next _ Hinv)|].
    intros <-. by rewrite (inv_next _ Hinv) in He.
Qed.

Lemma preserve_release t h1 h2 n e :
  ts !! t = Some {| holds := h1 ++ (n, e) :: h2; todo := []; pc := Running |} ->
  lock_inv {| shared := recv l e;
              threads := <[t := {| holds := h1 ++ h2; todo := []; pc := Dropping n e |}]> ts |}.
Proof.
  intros Ht. set (th' := {| holds := h1 ++ h2; todo := []; pc := Dropping n e |}).
  assert (locks l !! n = Some e) as Hn.
  { eapply named; [exact Ht|]. left. simpl. set_solver. }
  destruct (live n e Hn) as (ent & He & Hpos).
  assert (forall e', total (hold_count e') (<[t := th']> ts) + (if decide (e = e') then 1 else 0) =
            total (hold_count e') ts) as Hholds.
  { intros e'. pose proof (total_update (hold_count e') ts t _ th' Ht) as E.
    rewrite hold_count_app in E. unfold hold_count in *. simpl in *. lia. }
  assert (forall e', total (ref_count e') (<[t := th']> ts) = total (ref_count e') ts) as Hrefs.
  { intros e'. pose proof (total_update (ref_count e') ts t _ th' Ht) as E.
    unfold ref_count in E at 2 4. rewrite hold_count_app in E.
    unfold hold_count in *. simpl in *. lia. }
  constructor; simpl.
  - intros e' ent' He'. rewrite Hrefs. apply lookup_alter_Some in He'.
    destruct He' as [(<- & ent0 & H0 & ->)|(Hne & H0)]; by apply refs_of in H0.
  - intros e' ent' He'. specialize (Hholds e'). apply lookup_alter_Some in He'.
    destruct He' as [(<- & ent0 & H0 & ->)|(Hne & H0)]; pose proof (tok_of _ _ H0) as Htk.
    + rewrite decide_True in Hholds by done. simpl. destruct (tok ent0); lia.
    + rewrite decide_False in Hholds by done. lia.
  - intros n' e' Hn'. destruct (live n' e' Hn') as (ent' & He' & Hp').
    destruct (decide (e = e')) as [<-|Hne].
    + exists (set_tok false ent'). rewrite lookup_alter_eq, He'. done.
    + exists ent'. by rewrite lookup_alter_ne.
  - eapply (named_update t _ _ _ Ht).
    + intros n' e' [Hin|[<- <-]]; [|done].
      eapply named; [exact Ht|]. left. simpl in *. set_solver.
    + intros t0 th0 n' e' _ Ht0 Href. by eapply named.
  - apply (inv_inj _ Hinv).
  - intros e' Hle. rewrite lookup_alter_ne; [by apply (inv_next _ Hinv)|].
    intros <-. by rewrite (inv_next _ Hinv) in He.
Qed.

(** Names other than [n] keep their entry, and [n] too unless it became idle. *)
Lemma drop_locks n e ent : locks l !! n = Some e -> heap l !! e = Some ent -> (0 < refs ent)%Z ->
  (forall n' e', locks (drop l n e) !! n' = Some e' -> locks l !! n' = Some e' /\ (e' = e -> (0 < refs (add_refs (-1) ent))%Z)) /\
  (forall n' e', locks l !! n' = Some e' -> (e' = e -> refs ent <> 1%Z) -> locks (drop l n e) !! n' = Some e').
Proof.
  intros Hn He Hpos.
  assert (alter (add_refs (-1)) e (heap l) !! e = Some (add_refs (-1) ent)) as Halt
    by (by rewrite lookup_alter_eq, He).
  unfold drop. simpl. rewrite Halt. simpl. destruct (Z.eqb_spec (refs ent + -1) 0) as [Hz|Hz]; split; intros n' e'.
  - intros [Hne Hl]%lookup_delete_Some. split; [done|]. intros ->. exfalso. apply Hne. by eapply (inv_inj _ Hinv).
  - intros Hl Hr. rewrite lookup_delete_ne; [done|]. intros <-. simplify_eq. specialize (Hr eq_refl). lia.
  - intros Hl. split; [done|]. intros _. lia.
  - done.
Qed.

Lemma preserve_drop t h r n e :
  ts !! t = Some {| holds := h; todo := r; pc := Dropping n e |} ->
  lock_inv {| shared := drop l n e;
              threads := <[t := {| holds := h; todo := r; pc := Running |}]> ts |}.
Proof.
  intros Ht. set (th' := {| holds := h; todo := r; pc := Running |}).
  assert (locks l !! n = Some e) as Hn by (eapply named; [exact Ht|by right]).
  destruct (live n e Hn) as (ent & He & Hpos).
  assert (forall e', total (hold_count e') (<[t := th']> ts) = total (hold_count e') ts) as Hholds.
  { intros e'. pose proof (total_update (hold_count e') ts t _ th' Ht) as E.
    unfold hold_count in *. simpl in *. lia. }
  assert (forall e', total (ref_count e') (<[t := th']> ts) + (if decide (e = e') then 1 else 0) =
            total (ref_count e') ts) as Hrefs.
  { intros e'. pose proof (total_update (ref_count e') ts t _ th' Ht) as E.
    unfold ref_count, hold_count in *. simpl in *. lia. }
  pose proof (refs_of _ _ He) as Hre. pose proof (Hrefs e) as Hre'.
  rewrite decide_True in Hre' by done.
  assert (alter (add_refs (-1)) e (heap l) !! e = Some (add_refs (-1) ent)) as Halt
    by (by rewrite lookup_alter_eq, He).
  destruct (drop_locks n e ent Hn He Hpos) as [Hback Hfwd].
  constructor; simpl threads.
  - intros e' ent' He'. simpl in He'. specialize (Hrefs e'). apply lookup_alter_Some in He'.
    destruct He' as [(<- & ent0 & H0 & ->)|(Hne & H0)]; rewrite ?(refs_of _ _ H0).
    + rewrite decide_True in Hrefs by done. simpl. rewrite (refs_of _ _ H0). lia.
    + rewrite decide_False in Hrefs by done. lia.
  - intros e' ent' He'. rewrite Hholds. simpl in He'. apply lookup_alter_Some in He'.
    destruct He' as [(<- & ent0 & H0 & ->)|(Hne & H0)]; by rewrite (tok_of _ _ H0).
  - intros n' e' [Hn' Hr']%Hback. destruct (live n' e' Hn') as (ent' & He' & Hp').
    simpl. destruct (decide (e = e')) as [<-|Hne].
    + exists (add_refs (-1) ent). split; [done|]. by apply Hr'.
    + exists ent'. by rewrite lookup_alter_ne.
  - intros t0 th0 n' e' Ht0 Href. apply Hfwd.
    + destruct (decide (t = t0)) as [->|Hne].
      * rewrite lookup_insert_eq in Ht0. simplify_eq. destruct Href as [Hin|[]].
        eapply named; [exact Ht|by left].
      * rewrite lookup_insert_ne in Ht0 by done. by eapply named.
    + intros ->. pose proof (total_ge (ref_count e) _ _ _ Ht0).
      assert (0 < ref_count e th0) by (apply ref_count_pos; eauto). lia.
  - intros n1 n2 e' [H1 _]%Hback [H2 _]%Hback. by eapply (inv_inj _ Hinv).
  - intros e' Hle. simpl in *. rewrite lookup_alter_ne; [by apply (inv_next _ Hinv)|].
    intros <-. by rewrite (inv_next _ Hinv) in He.
Qed.
End preserve.

Lemma lock_inv_step allowed s s' : lock_inv s -> step allowed s s' -> lock_inv s'.
Proof.
  intros Hinv Hstep. destruct Hstep; eauto using preserve_register, preserve_take,
    preserve_release, preserve_drop; by eapply preserve_same.
Qed.

Lemma reachable_ind_inv allowed (I : system -> Prop) :
  (forall s, initial s -> I s) -> (forall s s', I s -> step allowed s s' -> I s') ->
  forall s, reachable allowed s -> I s.
Proof.
  intros Hi Hs s (s0 & H0 & Hr). apply Hi in H0.
  induction Hr as [|s0 s1 s2 Hst _ IH]; eauto.
Qed.

Lemma reachable_lock_inv allowed s : reachable allowed s -> lock_inv s.
Proof. apply reachable_ind_inv; eauto using lock_inv_initial, lock_inv_step. Qed.

(** ** The order [AcquireAll] locks in *)

Definition slt (a b : string) : Prop := String.le a b /\ a <> b.

Lemma slt_trans a b c : slt a b -> slt b c -> slt a c.
Proof.
  intros [H1 N1] [H2 N2]. split; [by etrans|]. intros ->.
  apply N1. by apply (anti_symm String.le).
Qed.

Lemma slt_le_irrefl a b : slt a b -> String.le b a -> False.
Proof. intros [H1 N1] H2. by apply N1, (anti_symm String.le). Qed.

Lemma elem_of_unique_names seen names n :
  n ∈ unique_names seen names <-> n ∈ names /\ n <> "" /\ n ∉ seen.
Proof.
  revert seen. induction names as [|m names IH]; intros seen; simpl; [set_solver|].
  destruct (bool_decide (m = "") || bool_decide (m ∈ seen)) eqn:E.
  - rewrite IH. apply orb_true_iff in E. rewrite !bool_decide_eq_true in E. set_solver.
  - rewrite elem_of_cons, IH. apply orb_false_iff in E.
    rewrite !bool_decide_eq_false in E. destruct (decide (n = m)); set_solver.
Qed.

Lemma NoDup_unique_names seen names : NoDup (unique_names seen names).
Proof.
  revert seen. induction names as [|m names IH]; intros seen; simpl; [constructor|].
  case_if; [done|]. constructor; [|done]. rewrite elem_of_unique_names. set_solver.
Qed.

Lemma sorted_strict l : StronglySorted String.le l -> NoDup l -> StronglySorted slt l.
Proof.
  induction 1 as [|x l _ IH Hx]; intros Hnd; [constructor|]. apply NoDup_cons in Hnd as [Hn Hnd].
  constructor; [by apply IH|]. rewrite Forall_forall in *. intros y Hy.
  split; [by apply Hx|]. by intros ->.
Qed.

Lemma lock_order_sorted names : StronglySorted slt (lock_order names).
Proof.
  apply sorted_strict; [apply sort_strings_sorted|].
  apply NoDup_sort_strings, NoDup_unique_names.
Qed.

Lemma elem_of_lock_order names n : n ∈ lock_order names <-> n ∈ names /\ n <> "".
Proof. unfold lock_order. rewrite elem_of_sort_strings, elem_of_unique_names. set_solver. Qed.

(** ** Mutual exclusion and no leak *)

Lemma holders_agree s t1 t2 th1 th2 n e1 e2 :
  lock_inv s -> threads s !! t1 = Some th1 -> threads s !! t2 = Some th2 ->
  (n, e1) ∈ holds th1 -> (n, e2) ∈ holds th2 -> t1 = t2.
Proof.
  intros Hinv H1 H2 Hh1 Hh2.
  assert (locks (shared s) !! n = Some e1) as L1 by (eapply (inv_named _ Hinv); [exact H1|by left]).
  assert (locks (shared s) !! n = Some e2) as L2 by (eapply (inv_named _ Hinv); [exact H2|by left]).
  simplify_eq. destruct (inv_live _ Hinv _ _ L1) as (ent & He & _).
  destruct (decide (t1 = t2)) as [|Hne]; [done|]. exfalso.
  pose proof (total_ge_two (hold_count e1) _ _ _ _ _ Hne H1 H2) as Hge.
  pose proof (inv_tok _ Hinv _ _ He) as Htok.
  assert (0 < hold_count e1 th1) by (apply hold_count_pos; eauto).
  assert (0 < hold_count e1 th2) by (apply hold_count_pos; eauto).
  destruct (tok ent); lia.
Qed.

(** C3: in every interleaving of any number of goroutines, whatever they lock
    and in whatever order, with cancellations and nested calls, at most one
    holds a given instance: two goroutines that both hold the name are the
    same one. *)
Theorem mutual_exclusion (s : system) (t1 t2 : nat) (th1 th2 : thread) (n : string) (e1 e2 : nat) :
  reachable (fun _ _ => True) s ->
  threads s !! t1 = Some th1 -> threads s !! t2 = Some th2 ->
  (n, e1) ∈ holds th1 -> (n, e2) ∈ holds th2 -> t1 = t2.
Proof. intros Hr. eapply holders_agree. by eapply reachable_lock_inv. Qed.

(** The map holds no entry for an instance nobody is interested in: every
    name in it is one some goroutine holds, waits for or is about to drop, and
    its count is the number of such references. *)
Theorem idle_entries_are_dropped (s : system) (n : string) (e : nat) :
  reachable (fun _ _ => True) s -> locks (shared s) !! n = Some e ->
  exists t th ent, threads s !! t = Some th /\ refers th n e /\
    heap (shared s) !! e = Some ent /\ refs ent = Z.of_nat (total (ref_count e) (threads s)).
Proof.
  intros Hr Hn. pose proof (reachable_lock_inv _ _ Hr) as Hinv.
  destruct (inv_live _ Hinv _ _ Hn) as (ent & He & Hpos).
  pose proof (inv_refs _ Hinv _ _ He) as Hrefs.
  destruct (total_pos (ref_count e) (threads s)) as (t & th & Ht & Hp); [lia|].
  apply ref_count_pos in Hp as [n' Hn']. pose proof (inv_named _ Hinv _ _ _ _ Ht Hn') as Hn2.
  rewrite (inv_inj _ Hinv _ _ _ Hn Hn2). eauto 10.
Qed.

(** ** Deadlock freedom *)

(** A goroutine starts an operation holding nothing, or repeats one on
    instances it already holds, as a restart that stops and starts does. *)
Definition one_at_a_time (held names : list string) : Prop :=
  held = [] \/ (forall n, n ∈ names -> n ∈ held).

Definition ordered (th : thread) : Prop :=
  let held := held_names (holds th) in
  match pc th with
  | Waiting n _ =>
      (forall m, m ∈ held -> slt m n) /\ (forall k, k ∈ todo th -> slt n k)
      /\ StronglySorted slt (todo th)
  | _ => (forall k, k ∈ todo th -> k ∈ held) \/
         ((forall m k, m ∈ held -> k ∈ todo th -> slt m k) /\ StronglySorted slt (todo th))
  end.

Definition all_ordered (s : system) : Prop := map_Forall (fun _ th => ordered th) (threads s).

Lemma all_ordered_update s t th th' l' :
  all_ordered s -> threads s !! t = Some th -> (ordered th -> ordered th') ->
  all_ordered {| shared := l'; threads := <[t := th']> (threads s) |}.
Proof.
  intros Ha Ht Hi. apply map_Forall_insert_2; [|done]. apply Hi. by eapply Ha.
Qed.

Lemma all_ordered_step s s' :
  all_ordered s -> step one_at_a_time s s' -> all_ordered s'.
Proof.
  intros Ha Hstep.
  destruct Hstep; (eapply (all_ordered_update {| shared := l; threads := ts |}); [done|eassumption|]);
    unfold ordered; simpl.
  - intros _. match goal with H : one_at_a_time _ _ |- _ => destruct H as [->|Hsub] end.
    + right. split; [set_solver|apply lock_order_sorted].
    + left. intros k [Hk _]%elem_of_lock_order. by apply Hsub.
  - intros [Hs|[Hm Hs]]; [left; set_solver|]. exfalso.
    destruct (Hm n n) as [_ Hne]; [done|left|done].
  - intros [Hs|[Hm Hs]]; [exfalso; set_solver|]. inversion Hs as [|? ? Hr Hn]; subst.
    rewrite Forall_forall in Hn. split_and!; [intros m Hin; apply Hm; [done|left]|done|done].
  - intros _. left. set_solver.
  - intros (Hm & Hk & Hs). right. split; [|done].
    intros m k [->|Hin]%elem_of_cons Hk'; [by apply Hk|]. eapply slt_trans; eauto.
  - intros _. left. set_solver.
  - done.
Qed.

Lemma reachable_ordered s : reachable one_at_a_time s -> all_ordered s.
Proof.
  apply reachable_ind_inv; [|apply all_ordered_step].
  intros s0 [_ Hi] t th Ht. rewrite (Hi t th Ht). left. simpl. set_solver.
Qed.

Lemma greatest_string (l : list string) :
  l <> [] -> exists m, m ∈ l /\ forall x, x ∈ l -> String.le x m.
Proof.
  induction l as [|a l IH]; [done|]. intros _. destruct l as [|b l].
  - exists a. set_solver.
  - destruct IH as (m & Hm & Hle); [done|]. destruct (base.total String.le a m) as [H|H].
    + exists m. set_solver.
    + exists a. split; [left|]. intros x [->|Hx]%elem_of_cons; [done|]. etrans; [|done]. by apply Hle.
Qed.

Definition waiting_name (th : thread) : list string :=
  match pc th with Waiting n _ => [n] | _ => [] end.

Definition waiting_names (s : system) : list string :=
  concat (map (fun p => waiting_name p.2) (map_to_list (threads s))).

Lemma elem_of_waiting_names s n :
  n ∈ waiting_names s <-> exists t th e, threads s !! t = Some th /\ pc th = Waiting n e.
Proof.
  unfold waiting_names. rewrite list_elem_of_In, in_concat. split.
  - intros (l & Hl & Hn). apply in_map_iff in Hl as ([t th] & <- & Hp).
    apply list_elem_of_In, elem_of_map_to_list in Hp. unfold waiting_name in Hn. simpl in Hn.
    exists t, th. destruct (pc th) as [|m e|m e]; simpl in Hn; try done.
    destruct Hn as [<-|[]]. eauto.
  - intros (t & th & e & Ht & Hp). exists (waiting_name th). split.
    + apply in_map_iff. exists (t, th). split; [done|].
      by apply list_elem_of_In, elem_of_map_to_list.
    + unfold waiting_name. rewrite Hp. by left.
Qed.

(** A goroutine that can proceed: it can take the lock it waits for, has a
    drop to finish, or is running with locks it will release. *)
Definition can_proceed (s : system) (th : thread) : Prop :=
  (exists n e l', pc th = Waiting n e /\ try_send (shared s) e = Some l') \/
  (exists n e, pc th = Dropping n e) \/ (pc th = Running /\ holds th <> []).

(** C30: goroutines that take their instances with one [AcquireAll] cannot
    deadlock, whatever names they give and in whatever order: as long as one
    waits, some goroutine can proceed, be it the one waiting for the greatest
    name, whose holder waits for nothing. *)
Theorem no_deadlock (s : system) (t : nat) (th : thread) (n : string) (e : nat) :
  reachable one_at_a_time s -> threads s !! t = Some th -> pc th = Waiting n e ->
  exists t' th', threads s !! t' = Some th' /\ can_proceed s th'.
Proof.
  intros Hr Ht Hpc. pose proof (reachable_lock_inv _ _ Hr) as Hinv.
  pose proof (reachable_ordered _ Hr) as Hord.
  destruct (greatest_string (waiting_names s)) as (m & Hm & Hmax).
  { intros E. assert (n ∈ waiting_names s) as Hn by (apply elem_of_waiting_names; eauto).
    rewrite E in Hn. by apply elem_of_nil in Hn. }
  apply elem_of_waiting_names in Hm as (t1 & th1 & e1 & Ht1 & Hpc1).
  assert (locks (shared s) !! m = Some e1) as Hl.
  { eapply (inv_named _ Hinv); [exact Ht1|]. right. by rewrite Hpc1. }
  destruct (inv_live _ Hinv _ _ Hl) as (ent & He & _).
  destruct (tok ent) eqn:Htok.
  - pose proof (inv_tok _ Hinv _ _ He) as Hone. rewrite Htok in Hone.
    destruct (total_pos (hold_count e1) (threads s)) as (t2 & th2 & Ht2 & Hp); [lia|].
    apply hold_count_pos in Hp as [m' Hh].
    assert (locks (shared s) !! m' = Some e1) as Hl'
      by (eapply (inv_named _ Hinv); [exact Ht2|by left]).
    rewrite <- (inv_inj _ Hinv _ _ _ Hl Hl') in Hh. exists t2, th2. split; [done|].
    unfold can_proceed. destruct (pc th2) as [|k e2|k e2] eqn:Hpc2; [|exfalso|by right; left; eauto].
    + right. right. split; [done|]. intros E. rewrite E in Hh. by apply elem_of_nil in Hh.
    + specialize (Hord t2 th2 Ht2). unfold ordered in Hord. rewrite Hpc2 in Hord.
      destruct Hord as [Hlt _]. apply (slt_le_irrefl m k).
      * apply Hlt. unfold held_names. apply list_elem_of_fmap. by exists (m, e1).
      * apply Hmax, elem_of_waiting_names. eauto.
  - exists t1, th1. split; [done|]. left. exists m, e1. eexists. split; [done|].
    unfold try_send. by rewrite He, Htok.
Qed.

(** ** [AcquireAll] run alone *)

Lemma register_new l n : locks l !! n = None ->
  register l n =
  ({| heap := <[next l := {| tok := false; refs := 1 |}]> (heap l);
      next := S (next l); locks := <[n := next l]> (locks l) |}, next l).
Proof. intros H. unfold register. by rewrite H. Qed.

Lemma Acquire_free l ctx n : locks l !! n = None -> n ∉ ctx ->
  exists l', Acquire l ctx false n = Acquired l' (next l) /\
    locks l' = <[n := next l]> (locks l) /\ next l' = S (next l) /\
    heap l' = <[next l := {| tok := true; refs := 1 |}]> (heap l).
Proof.
  intros Hl Hc. unfold Acquire. rewrite bool_decide_eq_false_2, register_new by done.
  unfold try_send. simpl. rewrite lookup_insert_eq. eexists. split; [reflexivity|].
  simpl. by rewrite insert_insert_eq.
Qed.

(** Releasing a lock taken by the only interested caller removes its entry. *)
Lemma release_alone l n e :
  heap l !! e = Some {| tok := true; refs := 1 |} ->
  locks (release l n e) = delete n (locks l).
Proof.
  intros He. unfold release, drop, recv. simpl. by rewrite !lookup_alter_eq, He.
Qed.

Lemma release_frame l n e e' : e <> e' -> heap (release l n e) !! e' = heap l !! e'.
Proof. intros Hne. unfold release, drop, recv. simpl. by rewrite !lookup_alter_ne. Qed.

(** What an [AcquireAll] has taken so far: entries only it refers to, under
    names the map [m] it started from does not have. *)
Definition with_held (m : gmap string nat) (held : list (string * nat)) : gmap string nat :=
  foldr (fun p acc => <[p.1 := p.2]> acc) m held.

Record owns (m : gmap string nat) (l : InstanceLocks) (held : list (string * nat)) : Prop := {
  own_names : NoDup (held_names held);
  own_entries : NoDup (map snd held);
  own_each : Forall (fun p => m !! p.1 = None /\ p.2 < next l /\
                      heap l !! p.2 = Some {| tok := true; refs := 1 |}) held;
  own_locks : locks l = with_held m held
}.

Lemma with_held_None m held n :
  m !! n = None -> n ∉ held_names held -> with_held m held !! n = None.
Proof.
  intros Hm. induction held as [|[k e] held IH]; simpl; [done|]. intros Hn.
  apply not_elem_of_cons in Hn as [Hk Hn]. rewrite lookup_insert_ne by done. by apply IH.
Qed.

Lemma owns_release m l held : owns m l held -> locks (release_all l held) = m.
Proof.
  revert l. induction held as [|[n e] held IH]; intros l [Hn He Hf Hl]; [done|].
  simpl in *. apply NoDup_cons in Hn as [Hnn Hn]. apply NoDup_cons in He as [Hne He].
  inversion Hf as [|? ? (Hm & Hlt & Hent) Hf']; subst. simpl in *.
  change (locks (release_all (release l n e) held) = m).
  apply IH. constructor; [done|done| |].
  - rewrite Forall_forall in *. intros [k e'] Hin. destruct (Hf' _ Hin) as (H1 & H2 & H3). simpl in *.
    split_and!; [done|done|].
    transitivity (heap l !! e'); [apply (release_frame l n e)|done]. intros <-. apply Hne.
    apply list_elem_of_fmap. by exists (k, e).
  - rewrite (release_alone _ _ _ Hent), Hl, delete_insert_id; [done|]. by apply with_held_None.
Qed.

Lemma owns_acquire m l held ctx n :
  owns m l held -> m !! n = None -> n ∉ held_names held -> n ∉ ctx ->
  exists l', Acquire l ctx false n = Acquired l' (next l) /\ owns m l' ((n, next l) :: held).
Proof.
  intros [Hn He Hf Hl] Hm Hh Hc.
  destruct (Acquire_free l ctx n) as (l' & HA & Hlocks & Hnext & Hheap); [|done|].
  { rewrite Hl. by apply with_held_None. }
  exists l'. split; [done|]. constructor; simpl.
  - by apply NoDup_cons.
  - apply NoDup_cons. split; [|done]. intros ([k e'] & Heq & Hin)%list_elem_of_fmap.
    rewrite Forall_forall in Hf. apply Hf in Hin as (_ & Hlt & _). simpl in *. lia.
  - rewrite Hnext, Hheap. constructor.
    + simpl. rewrite lookup_insert_eq. split_and!; [done|lia|done].
    + eapply Forall_impl; [exact Hf|]. intros [k e'] (H1 & H2 & H3). simpl in *.
      split_and!; [done|lia|]. rewrite lookup_insert_ne by lia. done.
  - by rewrite Hlocks, Hl.
Qed.

Lemma acquire_loop_free m names : forall l ctx held,
  owns m l held -> NoDup names ->
  (forall n, n ∈ names -> m !! n = None /\ n ∉ held_names held /\ n ∉ ctx) ->
  exists l' held', acquire_loop l ctx false held names = (Some (l', held'), l') /\
    owns m l' held' /\ held_names held' = rev names ++ held_names held.
Proof.
  induction names as [|n names IH]; intros l ctx held Ho Hnd Hn; simpl.
  - eauto 10.
  - apply NoDup_cons in Hnd as [Hnn Hnd].
    destruct (owns_acquire m l held ctx n Ho) as (l1 & HA & Ho1); [apply Hn; left..|].
    rewrite HA. destruct (IH l1 (n :: ctx) _ Ho1 Hnd) as (l' & held' & Hl & Ho' & Hh).
    + intros k Hk. destruct (Hn k) as (H1 & H2 & H3); [by right|]. simpl. set_solver.
    + exists l', held'. split_and!; [done|done|]. rewrite Hh. simpl. by rewrite <- app_assoc.
Qed.

(** Called when none of its instances is locked, [AcquireAll] takes every
    non-empty name once, in sorted order, and [releaseAll] leaves the lock map
    exactly as it was; called with a context that has ended it takes nothing
    and leaves the map as it was. *)
Theorem acquire_all_round_trip (l : InstanceLocks) (ctx names : list string) :
  (forall n, n ∈ names -> n <> "" -> locks l !! n = None /\ n ∉ ctx) ->
  (exists l' held, AcquireAll l ctx false names = (Some (l', held), l') /\
     held_names held = rev (lock_order names) /\
     locks (release_all l' held) = locks l) /\
  (lock_order names <> [] ->
     exists l', AcquireAll l ctx true names = (None, l') /\ locks l' = locks l).
Proof.
  intros Hfree. split.
  - destruct (acquire_loop_free (locks l) (lock_order names) l ctx []) as (l' & held & HA & Ho & Hh).
    + by constructor; try constructor.
    + apply NoDup_sort_strings, NoDup_unique_names.
    + intros n [Hn Hne]%elem_of_lock_order. destruct (Hfree n Hn Hne). set_solver.
    + exists l', held. split_and!; [done|by rewrite Hh, app_nil_r|by apply owns_release].
  - unfold AcquireAll. destruct (lock_order names) as [|n ns] eqn:E; [done|]. intros _.
    assert (n ∈ lock_order names) as Hn by (rewrite E; left).
    apply elem_of_lock_order in Hn as [Hn Hne]. destruct (Hfree n Hn Hne) as [Hl Hc].
    cbn [acquire_loop]. unfold Acquire. rewrite bool_decide_eq_false_2, register_new by done.
    eexists. split; [reflexivity|]. simpl. rewrite lookup_alter_eq, lookup_insert_eq. simpl.
    by rewrite delete_insert_id.
Qed.

(** ** Witnesses *)

Definition idle : thread := {| holds := []; todo := []; pc := Running |}.

Definition two_idle : system := {| shared := no_locks; threads := {[1 := idle; 2 := idle]} |}.

(** Goroutine 1 has taken [web], goroutine 2 waits for it. *)
Definition contended : system :=
  {| shared := {| heap := {[0 := {| tok := true; refs := 2 |}]}; next := 1; locks := {["web" := 0]} |};
     threads := {[1 := {| holds := [("web", 0)]; todo := []; pc := Running |};
                  2 := {| holds := []; todo := []; pc := Waiting "web" 0 |}]} |}.

Lemma two_idle_initial : initial two_idle.
Proof.
  split; [done|]. intros t th. simpl. intros [[<- <-]|[_ [<- <-]%lookup_singleton_Some]]%lookup_insert_Some; done.
Qed.

Lemma contended_reachable allowed :
  (forall names, allowed [] names) -> reachable allowed contended.
Proof.
  intros Ha. exists two_idle. split; [apply two_idle_initial|].
  unfold two_idle, idle.
  eapply rtc_l; [eapply (S_call allowed _ _ 1 [] ["web"]); [reflexivity|apply Ha]|].
  eapply rtc_l; [eapply (S_register allowed _ _ 1); [reflexivity|vm_compute; set_solver|reflexivity]|].
  eapply rtc_l; [eapply (S_take allowed _ _ 1); [reflexivity|reflexivity]|].
  eapply rtc_l; [eapply (S_call allowed _ _ 2 [] ["web"]); [reflexivity|apply Ha]|].
  eapply rtc_l; [eapply (S_register allowed _ _ 2); [reflexivity|vm_compute; set_solver|reflexivity]|].
  match goal with |- rtc _ ?a ?b => assert (a = b) as ->; [|done] end.
  vm_compute. reflexivity.
Qed.

Lemma mutual_exclusion_witness : 1 = 1.
Proof.
  apply (mutual_exclusion contended 1 1 {| holds := [("web", 0)]; todo := []; pc := Running |}
           {| holds := [("web", 0)]; todo := []; pc := Running |} "web" 0 0);
    [by apply contended_reachable|reflexivity|reflexivity|left|left].
Defined.

Lemma idle_entries_are_dropped_witness :
  exists t th ent, threads contended !! t = Some th /\ refers th "web" 0 /\
    heap (shared contended) !! 0 = Some ent /\
    refs ent = Z.of_nat (total (ref_count 0) (threads contended)).
Proof.
  apply (idle_entries_are_dropped contended "web" 0); [by apply contended_reachable|reflexivity].
Defined.

Lemma no_deadlock_witness :
  exists t' th', threads contended !! t' = Some th' /\ can_proceed contended th'.
Proof.
  apply (no_deadlock contended 2 {| holds := []; todo := []; pc := Waiting "web" 0 |} "web" 0);
    [apply contended_reachable; by left|reflexivity|reflexivity].
Defined.

Lemma acquire_all_round_trip_witness :
  exists l' held, AcquireAll no_locks [] false ["web"; "db"; "web"; ""] = (Some (l', held), l') /\
    held_names held = ["web"; "db"] /\ locks (release_all l' held) = ∅.
Proof.
  destruct (acquire_all_round_trip no_locks [] ["web"; "db"; "web"; ""]) as [H _].
  - intros n _ _. split; [reflexivity|set_solver].
  - exact H.
Defined.
