(* ===== verification/Jobs.v ===== *)
(** * Asynchronous jobs (pkg/job/job.go)

    Jobs live in a heap, because the manager's map, its queue, the workers and
    the callers all keep pointers to them.  Each region the code runs under
    [jm.mu] or [job.mu] is one function on the manager or on the job, with the
    clock reading it takes as an argument; [step] interleaves them for any
    number of workers and callers.  Closing a closed channel and sending on a
    closed one panic, which the functions report as [None]. *)

From stdpp Require Import base list gmap strings relations.
From Stdlib Require Import ZArith Lia Ascii SpecFloat.
From S2P Require Import Prelude GoStrings GoTime ProviderTypes.

(** ** Jobs *)

Inductive JobStatus :=
  | JobStatusPending | JobStatusRunning | JobStatusCompleted | JobStatusFailed | JobStatusCancelled.

#[export] Instance JobStatus_eq_dec : EqDecision JobStatus.
Proof. solve_decision. Defined.

(** The string each constant is. *)
Definition status_string (st : JobStatus) : string :=
  match st with
  | JobStatusPending => "pending" | JobStatusRunning => "running"
  | JobStatusCompleted => "completed" | JobStatusFailed => "failed"
  | JobStatusCancelled => "canceled"
  end.

(** Times are nanoseconds.  [cancel] says whether the cancel function has been
    stored, [ctx_canceled] whether the job's own context has been canceled and
    [done_closed] whether its [done] channel has been closed. *)
Record Job := {
  ID : string;
  Type_ : string;
  Description : string;
  Status : JobStatus;
  Progress : spec_float;
  Message : string;
  Result : option (list (string * value));
  Error : string;
  CreatedAt : Z;
  StartedAt : option Z;
  CompletedAt : option Z;
  Metadata : option (gmap string string);
  cancel : bool;
  ctx_canceled : bool;
  done_closed : bool
}.

Definition set_status (st : JobStatus) (msg : string) (j : Job) : Job :=
  {| ID := ID j; Type_ := Type_ j; Description := Description j; Status := st;
     Progress := Progress j; Message := msg; Result := Result j; Error := Error j;
     CreatedAt := CreatedAt j; StartedAt := StartedAt j; CompletedAt := CompletedAt j;
     Metadata := Metadata j; cancel := cancel j; ctx_canceled := ctx_canceled j;
     done_closed := done_closed j |}.

Definition set_progress (p : spec_float) (j : Job) : Job :=
  {| ID := ID j; Type_ := Type_ j; Description := Description j; Status := Status j;
     Progress := p; Message := Message j; Result := Result j; Error := Error j;
     CreatedAt := CreatedAt j; StartedAt := StartedAt j; CompletedAt := CompletedAt j;
     Metadata := Metadata j; cancel := cancel j; ctx_canceled := ctx_canceled j;
     done_closed := done_closed j |}.

Definition set_result (r : option (list (string * value))) (err : string) (j : Job) : Job :=
  {| ID := ID j; Type_ := Type_ j; Description := Description j; Status := Status j;
     Progress := Progress j; Message := Message j; Result := r; Error := err;
     CreatedAt := CreatedAt j; StartedAt := StartedAt j; CompletedAt := CompletedAt j;
     Metadata := Metadata j; cancel := cancel j; ctx_canceled := ctx_canceled j;
     done_closed := done_closed j |}.

Definition set_times (started completed : option Z) (j : Job) : Job :=
  {| ID := ID j; Type_ := Type_ j; Description := Description j; Status := Status j;
     Progress := Progress j; Message := Message j; Result := Result j; Error := Error j;
     CreatedAt := CreatedAt j; StartedAt := started; CompletedAt := completed;
     Metadata := Metadata j; cancel := cancel j; ctx_canceled := ctx_canceled j;
     done_closed := done_closed j |}.

Definition set_channels (has_cancel canceled closed : bool) (j : Job) : Job :=
  {| ID := ID j; Type_ := Type_ j; Description := Description j; Status := Status j;
     Progress := Progress j; Message := Message j; Result := Result j; Error := Error j;
     CreatedAt := CreatedAt j; StartedAt := StartedAt j; CompletedAt := CompletedAt j;
     Metadata := Metadata j; cancel := has_cancel; ctx_canceled := canceled;
     done_closed := closed |}.

(** [float64] constants. *)
Definition float_zero : spec_float := S754_zero false.
Definition float_one : spec_float := S754_finite false 4503599627370496 (-52).

(** The two clamps of [UpdateProgress], after the NaN test. *)
Definition clamp_progress (progress : spec_float) : spec_float :=
  let p := match progress with S754_nan => float_zero | _ => progress end in
  let p := if SFltb p float_zero then float_zero else p in
  if SFltb float_one p then float_one else p.

Definition UpdateProgress (progress : spec_float) (message : string) (j : Job) : Job :=
  set_progress (clamp_progress progress) (set_status (Status j) message j).

Definition SetResult (result : option (list (string * value))) (j : Job) : Job :=
  set_result result (Error j) j.

(** [cancelFn()]. *)
Definition call_cancel (j : Job) : Job := set_channels (cancel j) true (done_closed j) j.

(** [close(job.done)]. *)
Definition close_done (j : Job) : option Job :=
  if done_closed j then None else Some (set_channels (cancel j) (ctx_canceled j) true j).

Definition snapshotStatus (j : Job) : JobStatus := Status j.

Record JobRecord := {
  R_ID : string; R_Type : string; R_Description : string; R_Status : JobStatus;
  R_Progress : spec_float; R_Message : string; R_Result : option (list (string * value));
  R_Error : string; R_CreatedAt : Z; R_StartedAt : option Z; R_CompletedAt : option Z;
  R_Metadata : option (gmap string string)
}.

Definition Snapshot (j : Job) : JobRecord :=
  {| R_ID := ID j; R_Type := Type_ j; R_Description := Description j; R_Status := Status j;
     R_Progress := Progress j; R_Message := Message j; R_Result := Result j;
     R_Error := Error j; R_CreatedAt := CreatedAt j; R_StartedAt := StartedAt j;
     R_CompletedAt := CompletedAt j; R_Metadata := Metadata j |}.

(** ** The manager *)

Definition ErrJobNotFound : error := Sentinel "job not found".
Definition ErrQueueFull : error := Sentinel "job queue is full".
Definition ErrJobNotCancellable : error := Sentinel "job cannot be canceled".
Definition ErrShuttingDown : error := Sentinel "job manager is shutting down".
Definition ErrJobActive : error := Sentinel "job is active".

(** [queue] holds the jobs of the queued tasks; a task's function may do
    anything, so it is not recorded.  [jm_canceled] says whether [jm.ctx] has
    been canceled. *)
Record JobManager := {
  heap : gmap nat Job;
  next : nat;
  jobs : gmap string nat;
  queue : list nat;
  queue_size : nat;
  queue_closed : bool;
  stop_closed : bool;
  shuttingDown : bool;
  jm_canceled : bool
}.

Record JobManagerConfig := {
  Workers : Z; QueueSize : Z; CleanupInterval : Z; MaxJobAge : Z
}.

Definition DefaultJobManagerConfig : JobManagerConfig :=
  {| Workers := 4; QueueSize := 100; CleanupInterval := 5 * Minute; MaxJobAge := 24 * Hour |}.

(** The defaults [NewJobManager] fills in. *)
Definition with_defaults (cfg : JobManagerConfig) : JobManagerConfig :=
  {| Workers := if (Workers cfg <=? 0)%Z then 4 else Workers cfg;
     QueueSize := if (QueueSize cfg <=? 0)%Z then 100 else QueueSize cfg;
     CleanupInterval := if (CleanupInterval cfg <=? 0)%Z then 5 * Minute else CleanupInterval cfg;
     MaxJobAge := if (MaxJobAge cfg <=? 0)%Z then 24 * Hour else MaxJobAge cfg |}.

Definition NewJobManager (cfg : JobManagerConfig) : JobManager :=
  {| heap := ∅; next := 0; jobs := ∅; queue := [];
     queue_size := Z.to_nat (QueueSize (with_defaults cfg));
     queue_closed := false; stop_closed := false; shuttingDown := false; jm_canceled := false |}.

Definition with_heap (jm : JobManager) (h : gmap nat Job) : JobManager :=
  {| heap := h; next := next jm; jobs := jobs jm; queue := queue jm;
     queue_size := queue_size jm; queue_closed := queue_closed jm;
     stop_closed := stop_closed jm; shuttingDown := shuttingDown jm;
     jm_canceled := jm_canceled jm |}.

Definition with_jobs (jm : JobManager) (m : gmap string nat) : JobManager :=
  {| heap := heap jm; next := next jm; jobs := m; queue := queue jm;
     queue_size := queue_size jm; queue_closed := queue_closed jm;
     stop_closed := stop_closed jm; shuttingDown := shuttingDown jm;
     jm_canceled := jm_canceled jm |}.

Definition with_queue (jm : JobManager) (q : list nat) : JobManager :=
  {| heap := heap jm; next := next jm; jobs := jobs jm; queue := q;
     queue_size := queue_size jm; queue_closed := queue_closed jm;
     stop_closed := stop_closed jm; shuttingDown := shuttingDown jm;
     jm_canceled := jm_canceled jm |}.

Definition with_shutdown (jm : JobManager) (qclosed stop down canceled : bool) : JobManager :=
  {| heap := heap jm; next := next jm; jobs := jobs jm; queue := queue jm;
     queue_size := queue_size jm; queue_closed := qclosed;
     stop_closed := stop; shuttingDown := down; jm_canceled := canceled |}.

(** [hex.EncodeToString]. *)
Definition hex_char (n : nat) : ascii :=
  nth n ["0"; "1"; "2"; "3"; "4"; "5"; "6"; "7"; "8"; "9"; "a"; "b"; "c"; "d"; "e"; "f"]%char "0"%char.

Fixpoint hex_encode (bs : list ascii) : string :=
  match bs with
  | [] => ""
  | b :: bs' =>
      String (hex_char (nat_of_ascii b / 16)) (String (hex_char (nat_of_ascii b mod 16)) (hex_encode bs'))
  end.

Definition new_job (now : Z) (id jobType description : string) (metadata : option (gmap string string)) : Job :=
  {| ID := id; Type_ := jobType; Description := description; Status := JobStatusPending;
     Progress := float_zero; Message := ""; Result := None; Error := ""; CreatedAt := now;
     StartedAt := None; CompletedAt := None; Metadata := metadata;
     cancel := false; ctx_canceled := false; done_closed := false |}.

(** [Submit], with the random bytes it reads: [None] is the panic of a send on
    a closed queue.  A refused job is garbage, so only an accepted one is
    allocated. *)
Definition Submit (jm : JobManager) (now : Z) (random : result (list ascii))
    (jobType description : string) (metadata : option (gmap string string))
    : option (JobManager * result nat) :=
  match random with
  | Err e => Some (jm, Err (Wrapf "failed to generate job ID: %w" [] e))
  | Ok b =>
      let id := String.append "job-" (hex_encode b) in
      if shuttingDown jm then Some (jm, Err ErrShuttingDown)
      else if queue_closed jm then None
      else if decide (length (queue jm) < queue_size jm) then
        let a := next jm in
        Some ({| heap := <[a := new_job now id jobType description metadata]> (heap jm);
                 next := S a; jobs := <[id := a]> (jobs jm); queue := queue jm ++ [a];
                 queue_size := queue_size jm; queue_closed := queue_closed jm;
                 stop_closed := stop_closed jm; shuttingDown := shuttingDown jm;
                 jm_canceled := jm_canceled jm |}, Ok a)
      else Some (with_jobs jm (delete id (jobs jm)),
                 Err (Wrapf "%w, try again later" [] ErrQueueFull))
  end.

Definition GetJob (jm : JobManager) (id : string) : result nat :=
  match jobs jm !! id with
  | Some a => Ok a
  | None => Err (Wrapf "%w: %s" [id] ErrJobNotFound)
  end.

Definition job_of (jm : JobManager) (a : nat) : option Job := heap jm !! a.

(** Go visits a map in no particular order: the results below are about the
    set of jobs, in the order [map_to_list] gives. *)
Definition ListJobs (jm : JobManager) (status : option JobStatus) : list nat :=
  List.filter (fun a => match status with
                        | None => true
                        | Some st => bool_decide (snapshotStatus <$> job_of jm a = Some st)
                        end) (map_to_list (jobs jm)).*2.

(** [CancelJob], first region: the lookup is [GetJob]; second region, under
    [job.mu], which also reads the cancel function to call afterwards. *)
Definition cancel_mark (now : Z) (j : Job) : result (Job * bool) :=
  if negb (bool_decide (Status j = JobStatusRunning)) && negb (bool_decide (Status j = JobStatusPending))
  then Err (Wrapf "%w: status is %s" [status_string (Status j)] ErrJobNotCancellable)
  else Ok (set_times (StartedAt j) (Some now) (set_status JobStatusCancelled "Canceled by user" j), cancel j).

(** [CancelJob] run without interruption, up to the hook. *)
Definition CancelJob (jm : JobManager) (now : Z) (id : string) : JobManager * option error :=
  match GetJob jm id with
  | Err e => (jm, Some e)
  | Ok a =>
      match job_of jm a with
      | None => (jm, None)
      | Some j =>
          match cancel_mark now j with
          | Err e => (jm, Some e)
          | Ok (j', true) => (with_heap jm (<[a := call_cancel j']> (heap jm)), None)
          | Ok (j', false) => (with_heap jm (<[a := j']> (heap jm)), None)
          end
      end
  end.

Definition DeleteJob (jm : JobManager) (id : string) : JobManager * option error :=
  match jobs jm !! id with
  | None => (jm, Some (Wrapf "%w: %s" [id] ErrJobNotFound))
  | Some a =>
      match snapshotStatus <$> job_of jm a with
      | Some (JobStatusRunning as st) | Some (JobStatusPending as st) =>
          (jm, Some (Wrapf "cannot delete active job: %w: status is %s" [status_string st] ErrJobActive))
      | _ => (with_jobs jm (delete id (jobs jm)), None)
      end
  end.

(** [stats[k]++] for every job, then the two totals. *)
Definition count_status (jm : JobManager) (stats : gmap string Z) (a : nat) : gmap string Z :=
  match job_of jm a with
  | Some j => <[status_string (snapshotStatus j) := (default 0 (stats !! status_string (snapshotStatus j)) + 1)%Z]> stats
  | None => stats
  end.

Definition Stats (jm : JobManager) : gmap string Z :=
  let stats := foldl (count_status jm) ∅ (map_to_list (jobs jm)).*2 in
  let stats := <["total" := Z.of_nat (size (jobs jm))]> stats in
  <["queue_depth" := Z.of_nat (length (queue jm))]> stats.

(** The body of [shutdownOnce.Do], in its two channel operations. *)
Definition shutdown_stop (jm : JobManager) : option JobManager :=
  if stop_closed jm then None else Some (with_shutdown jm (queue_closed jm) true true (jm_canceled jm)).

Definition shutdown_queue (jm : JobManager) : option JobManager :=
  if queue_closed jm then None
  else Some (with_shutdown jm true (stop_closed jm) (shuttingDown jm) (jm_canceled jm)).

(** [jm.cancelAll()]. *)
Definition cancelAll (jm : JobManager) : JobManager :=
  with_shutdown jm (queue_closed jm) (stop_closed jm) (shuttingDown jm) true.

(** ** Executing a job *)

(** The start of [executeJob]; [None] when the job was canceled before. *)
Definition execute_begin (now : Z) (j : Job) : option Job :=
  if decide (Status j = JobStatusCancelled) then None
  else Some (set_channels true (ctx_canceled j) (done_closed j)
              (set_times (Some now) (CompletedAt j) (set_status JobStatusRunning "Starting..." j))).

(** What [executeJob] does once the function has returned [err]; the boolean
    says whether the hook is then called. *)
Definition execute_finish (jm_done : bool) (now : Z) (err : option string) (j : Job) : Job * bool :=
  if decide (Status j = JobStatusCancelled) then
    (set_times (StartedAt j) (Some (default now (CompletedAt j))) (set_status JobStatusCancelled "Canceled" j), false)
  else
    let j := set_times (StartedAt j) (Some now) j in
    (match err with
     | Some e =>
         if ctx_canceled j || jm_done then set_status JobStatusCancelled "Canceled" j
         else set_result (Result j) e (set_status JobStatusFailed "Failed" j)
     | None => set_progress float_one (set_status JobStatusCompleted "Completed" j)
     end, true).

(** The deferred recovery of a panic [r]. *)
Definition execute_panic (now : Z) (r : string) (j : Job) : Job :=
  set_times (StartedAt j) (Some now)
    (set_result (Result j) (String.append "panic: " r) (set_status JobStatusFailed "Failed (panic)" j)).

(** The deferred [close(job.done)], then the deferred [cancel()]. *)
Definition execute_end (j : Job) : option Job := call_cancel <$> close_done j.

(** ** Cleanup *)

Definition terminal (st : JobStatus) : bool :=
  match st with JobStatusCompleted | JobStatusFailed | JobStatusCancelled => true | _ => false end.

Definition expired (cutoff : Z) (j : Job) : bool :=
  terminal (Status j) && match CompletedAt j with Some t => (t <? cutoff)%Z | None => false end.

(** One pass of the loop of [cleanupOldJobs] over the entry [id]. *)
Definition cleanup_one (cutoff : Z) (acc : JobManager * Z) (p : string * nat) : JobManager * Z :=
  match job_of acc.1 p.2 with
  | Some j => if expired cutoff j then (with_jobs acc.1 (delete p.1 (jobs acc.1)), (acc.2 + 1)%Z) else acc
  | None => acc
  end.

Definition cleanupOldJobs (jm : JobManager) (now maxAge : Z) : JobManager * Z :=
  foldl (cleanup_one (now - maxAge)%Z) (jm, 0%Z) (map_to_list (jobs jm)).

(** ** Interleavings *)

(** Where a goroutine is: a caller outside the manager, inside [CancelJob]
    after the lookup or after the critical region (with the cancel function it
    read), inside [Shutdown]; a worker waiting for a task, about to run one,
    running its function, about to call the hook, about to close [done]
    (directly, or through the deferred functions), or gone. *)
Inductive pc :=
  | Caller
  | Canceling (a : nat)
  | Marked (a : nat) (has_cancel : bool)
  | ClosingQueue
  | ShutDown
  | Worker
  | Start (a : nat)
  | Run (a : nat)
  | Notify (a : nat)
  | Skip (a : nat)
  | Finish (a : nat)
  | Gone.

(** The whole program: the manager, its goroutines, the clock, whether
    [shutdownOnce] has run, and the jobs the hook was called on, latest first. *)
Record system := {
  jm : JobManager;
  threads : gmap nat pc;
  clock : Z;
  once : bool;
  hooked : list nat
}.

Definition put (s : system) (m : JobManager) (t : nat) (c : pc) : system :=
  {| jm := m; threads := <[t := c]> (threads s); clock := clock s; once := once s; hooked := hooked s |}.

Definition hook (s : system) (a : nat) : system :=
  {| jm := jm s; threads := threads s; clock := clock s; once := once s; hooked := a :: hooked s |}.

Definition store (m : JobManager) (a : nat) (j : Job) : JobManager := with_heap m (<[a := j]> (heap m)).

(** One step of some goroutine; [None] is a panic nothing recovers. *)
Inductive step : system -> option system -> Prop :=
  | S_tick s now : (clock s <= now)%Z ->
      step s (Some {| jm := jm s; threads := threads s; clock := now; once := once s; hooked := hooked s |})
  | S_submit s t random ty d md m r :
      threads s !! t = Some Caller -> Submit (jm s) (clock s) random ty d md = Some (m, r) ->
      step s (Some (put s m t Caller))
  | S_submit_panic s t random ty d md :
      threads s !! t = Some Caller -> Submit (jm s) (clock s) random ty d md = None -> step s None
  | S_update s a j p msg :
      heap (jm s) !! a = Some j ->
      step s (Some {| jm := store (jm s) a (UpdateProgress p msg j); threads := threads s;
                      clock := clock s; once := once s; hooked := hooked s |})
  | S_set_result s a j r :
      heap (jm s) !! a = Some j ->
      step s (Some {| jm := store (jm s) a (SetResult r j); threads := threads s;
                      clock := clock s; once := once s; hooked := hooked s |})
  | S_delete s t id :
      threads s !! t = Some Caller -> step s (Some (put s (DeleteJob (jm s) id).1 t Caller))
  | S_cleanup s t maxAge :
      threads s !! t = Some Caller -> step s (Some (put s (cleanupOldJobs (jm s) (clock s) maxAge).1 t Caller))
  | S_cancel s t id a :
      threads s !! t = Some Caller -> GetJob (jm s) id = Ok a -> step s (Some (put s (jm s) t (Canceling a)))
  | S_mark s t a j :
      threads s !! t = Some (Canceling a) -> heap (jm s) !! a = Some j ->
      step s (Some (match cancel_mark (clock s) j with
                    | Ok (j', c) => put s (store (jm s) a j') t (Marked a c)
                    | Err _ => put s (jm s) t Caller
                    end))
  | S_marked s t a c j :
      threads s !! t = Some (Marked a c) -> heap (jm s) !! a = Some j ->
      step s (Some (hook (put s (if c then store (jm s) a (call_cancel j) else jm s) t Caller) a))
  | S_shutdown s t :
      threads s !! t = Some Caller -> once s = false ->
      step s (match shutdown_stop (jm s) with
              | Some m => Some {| jm := m; threads := <[t := ClosingQueue]> (threads s);
                                  clock := clock s; once := true; hooked := hooked s |}
              | None => None
              end)
  | S_close_queue s t :
      threads s !! t = Some ClosingQueue ->
      step s (match shutdown_queue (jm s) with Some m => Some (put s m t ShutDown) | None => None end)
  | S_shutdown_again s t :
      threads s !! t = Some Caller -> once s = true -> queue_closed (jm s) = true ->
      step s (Some (put s (jm s) t ShutDown))
  | S_cancel_all s t :
      threads s !! t = Some ShutDown -> step s (Some (put s (cancelAll (jm s)) t Caller))
  | S_receive s t a q :
      threads s !! t = Some Worker -> queue (jm s) = a :: q ->
      step s (Some (put s (with_queue (jm s) q) t (Start a)))
  | S_leave s t :
      threads s !! t = Some Worker -> queue (jm s) = [] -> (queue_closed (jm s) || stop_closed (jm s)) = true ->
      step s (Some (put s (jm s) t Gone))
  | S_begin s t a j :
      threads s !! t = Some (Start a) -> heap (jm s) !! a = Some j ->
      step s (Some (match execute_begin (clock s) j with
                    | Some j' => put s (store (jm s) a j') t (Run a)
                    | None => put s (jm s) t (Skip a)
                    end))
  | S_return s t a j err j' n :
      threads s !! t = Some (Run a) -> heap (jm s) !! a = Some j ->
      execute_finish (jm_canceled (jm s)) (clock s) err j = (j', n) ->
      step s (Some (put s (store (jm s) a j') t (if n then Notify a else Finish a)))
  | S_panic s t a j r :
      threads s !! t = Some (Run a) -> heap (jm s) !! a = Some j ->
      step s (Some (put s (store (jm s) a (execute_panic (clock s) r j)) t (Notify a)))
  | S_notify s t a :
      threads s !! t = Some (Notify a) -> step s (Some (hook (put s (jm s) t (Finish a)) a))
  | S_skip s t a j :
      threads s !! t = Some (Skip a) -> heap (jm s) !! a = Some j ->
      step s (match close_done j with Some j' => Some (put s (store (jm s) a j') t Worker) | None => None end)
  | S_finish s t a j :
      threads s !! t = Some (Finish a) -> heap (jm s) !! a = Some j ->
      step s (match execute_end j with Some j' => Some (put s (store (jm s) a j') t Worker) | None => None end).

(** [NewJobManager] with the workers it starts and any number of callers. *)
Definition initial (cfg : JobManagerConfig) (s : system) : Prop :=
  jm s = NewJobManager cfg /\ once s = false /\ hooked s = [] /\
  map_Forall (fun _ c => c = Caller \/ c = Worker) (threads s).

Inductive reachable (cfg : JobManagerConfig) : system -> Prop :=
  | R_start s : initial cfg s -> reachable cfg s
  | R_step s s' : reachable cfg s -> step s (Some s') -> reachable cfg s'.
