(* ===== verification/JobsFacts.v ===== *)
(** * Correctness of the job manager

    Invariants of every interleaving of callers, workers and job functions:
    each accepted job is executed exactly once, no channel is closed twice and
    none is sent on after it was closed, the status only moves forward, and the
    hook hears of every terminal state. *)

From stdpp Require Import base list gmap strings relations.
From Stdlib Require Import ZArith Lia SpecFloat.
From S2P Require Import Prelude GoStrings GoTime ProviderTypes Jobs.

(** ** Progress *)

(** [0 <= p <= 1] as floats, which excludes NaN. *)
Definition unit_interval (p : spec_float) : bool := SFleb float_zero p && SFleb p float_one.

Lemma SFleb_of_not_SFltb k e0 p :
  SFltb (S754_finite false k e0) p = false -> p <> S754_nan -> SFleb p (S754_finite false k e0) = true.
Proof.
  unfold SFltb, SFleb. destruct p as [[]|[]| |[] m e]; simpl; try done.
  destruct (Z.compare_spec e0 e) as [<-|H|H]; try done.
  - intros H _. rewrite Z.compare_refl. change (Pos.compare_cont Eq m k) with (m ?= k)%positive.
    change (Pos.compare_cont Eq k m) with (k ?= m)%positive in H.
    rewrite Pos.compare_antisym. by destruct (k ?= m)%positive.
  - intros _ _. apply Z.compare_lt_iff in H. by rewrite H.
Qed.

Lemma clamp_progress_unit p : unit_interval (clamp_progress p) = true.
Proof.
  unfold clamp_progress, unit_interval.
  set (q := match p with S754_nan => float_zero | _ => p end).
  assert (q <> S754_nan) as Hq by (by destruct p).
  destruct (SFltb q float_zero) eqn:E0; [reflexivity|].
  destruct (SFltb float_one q) eqn:E1; [reflexivity|].
  apply andb_true_iff. split; [|by apply SFleb_of_not_SFltb].
  unfold SFltb, SFleb in *. by destruct q as [[]|[]| |[] m e].
Qed.

(** ** Operations on the map *)

Lemma cleanup_fold cutoff jm0 l : forall m n,
  exists m' n', foldl (cleanup_one cutoff) (with_jobs jm0 m, n) l = (with_jobs jm0 m', n') /\
    (forall id a, m' !! id = Some a <->
       m !! id = Some a /\ ~ exists a' j, (id, a') ∈ l /\ heap jm0 !! a' = Some j /\ expired cutoff j = true).
Proof.
  induction l as [|[id a] l IH]; intros m n; simpl.
  - exists m, n. split; [done|]. intros id a. split; [|tauto]. intros H. split; [done|].
    intros (a' & j & H'%elem_of_nil & _). done.
  - unfold cleanup_one at 2. simpl. unfold job_of. simpl.
    destruct (heap jm0 !! a) as [j|] eqn:Ha; [destruct (expired cutoff j) eqn:Ex|].
    1: destruct (IH (delete id m) (n + 1)%Z) as (m' & n' & E & H).
    2,3: destruct (IH m n) as (m' & n' & E & H).
    all: exists m', n'; split; [exact E|]; intros id' b; rewrite H.
    + rewrite lookup_delete_Some. split.
      * intros [[Hne Hm] Hno]. split; [done|]. intros (a' & j' & Hin & Hj & He).
        apply elem_of_cons in Hin as [[= -> ->]|Hin]; naive_solver.
      * intros [Hm Hno]. split; [split; [|done]|].
        -- intros ->. apply Hno. exists a, j. split_and!; [left|done|done].
        -- intros (a' & j' & Hin & Hj & He). apply Hno. exists a', j'. split_and!; [by right|done|done].
    + split; intros [Hm Hno]; (split; [done|]); intros (a' & j' & Hin & Hj & He); apply Hno; exists a', j'.
      * apply elem_of_cons in Hin as [[= -> ->]|Hin]; [congruence|done].
      * split_and!; [by right|done|done].
    + split; intros [Hm Hno]; (split; [done|]); intros (a' & j' & Hin & Hj & He); apply Hno; exists a', j'.
      * apply elem_of_cons in Hin as [[= -> ->]|Hin]; [congruence|done].
      * split_and!; [by right|done|done].
Qed.

(** The cleanup counts what it deletes. *)
Lemma cleanup_count cutoff jm0 l : forall m n,
  NoDup l.*1 -> (forall id a, (id, a) ∈ l -> m !! id = Some a) ->
  ((foldl (cleanup_one cutoff) (with_jobs jm0 m, n) l).2 +
   Z.of_nat (size (jobs (foldl (cleanup_one cutoff) (with_jobs jm0 m, n) l).1)) = n + Z.of_nat (size m))%Z.
Proof.
  induction l as [|[id a] l IH]; intros m n Hnd Hin; [done|]. cbn [foldl].
  apply NoDup_cons in Hnd as [Hid Hnd].
  assert (forall id' a', (id', a') ∈ l -> m !! id' = Some a') as Hl by (intros; apply Hin; by right).
  unfold cleanup_one at 2 4. cbn [fst snd]. unfold job_of. change (heap (with_jobs jm0 m)) with (heap jm0).
  destruct (heap jm0 !! a) as [j|]; [|by apply IH]. destruct (expired cutoff j); [|by apply IH].
  change (with_jobs (with_jobs jm0 m) (delete id (jobs (with_jobs jm0 m)))) with (with_jobs jm0 (delete id m)).
  rewrite IH; [|done|].
  - assert (m !! id = Some a) as Hm by (apply Hin; left).
    rewrite <- (insert_delete_id m id a Hm) at 2. rewrite map_size_insert_None by apply lookup_delete_eq. lia.
  - intros id' a' H'. rewrite lookup_delete_ne; [by apply Hl|]. intros <-.
    apply Hid. apply list_elem_of_fmap. by exists (id, a').
Qed.

Lemma with_jobs_id m : with_jobs m (jobs m) = m.
Proof. by destruct m. Qed.

(** What the cleanup keeps. *)
Lemma cleanup_spec jm0 now maxAge :
  exists m n, cleanupOldJobs jm0 now maxAge = (with_jobs jm0 m, n) /\
    (forall id a, m !! id = Some a <->
       jobs jm0 !! id = Some a /\
       ~ exists j, heap jm0 !! a = Some j /\ expired (now - maxAge) j = true).
Proof.
  unfold cleanupOldJobs.
  destruct (cleanup_fold (now - maxAge) jm0 (map_to_list (jobs jm0)) (jobs jm0) 0) as (m & n & E & H).
  rewrite with_jobs_id in E. exists m, n. split; [done|]. intros id a. rewrite H. split.
  - intros [Hm Hno]. split; [done|]. intros (j & Hj & He). apply Hno. exists a, j.
    split_and!; [by apply elem_of_map_to_list|done|done].
  - intros [Hm Hno]. split; [done|]. intros (a' & j & Hin%elem_of_map_to_list & Hj & He). naive_solver.
Qed.

Lemma DeleteJob_spec jm0 id :
  exists m, (DeleteJob jm0 id).1 = with_jobs jm0 m /\ m ⊆ jobs jm0.
Proof.
  unfold DeleteJob. destruct (jobs jm0 !! id) as [a|]; simpl.
  - destruct (snapshotStatus <$> job_of jm0 a) as [[]|]; simpl;
      try (exists (jobs jm0); split; [by rewrite with_jobs_id|done]);
      (exists (delete id (jobs jm0)); split; [done|apply delete_subseteq]).
  - exists (jobs jm0). split; [by rewrite with_jobs_id|done].
Qed.

(** ** The queue and the shutdown *)

Definition closing (c : pc) : nat := match c with ClosingQueue => 1 | _ => 0 end.

Record queue_inv (s : system) : Prop := {
  q_once : once s = stop_closed (jm s);
  q_down : shuttingDown (jm s) = stop_closed (jm s);
  q_closing : total closing (threads s) + Nat.b2n (queue_closed (jm s)) = Nat.b2n (stop_closed (jm s));
  q_bound : length (queue (jm s)) <= queue_size (jm s);
  q_gone : forall t, threads s !! t = Some Gone -> queue (jm s) = [] /\ stop_closed (jm s) = true
}.

Lemma queue_inv_initial cfg s : initial cfg s -> queue_inv s.
Proof.
  intros (Hj & Ho & _ & Ht). constructor; rewrite ?Hj, ?Ho; simpl; try done; [| |].
  - rewrite total_zero; [done|]. intros t c Hc. apply Ht in Hc as [->| ->]; done.
  - lia.
  - intros t Hc. apply Ht in Hc as [?|?]; done.
Qed.

(** A step that changes neither the channels nor the shutdown flags, and whose
    goroutine neither holds the queue's close nor leaves. *)
Lemma queue_inv_quiet s t c c' m :
  queue_inv s -> threads s !! t = Some c -> closing c = 0 -> closing c' = 0 -> c' <> Gone ->
  queue m = queue (jm s) -> queue_size m = queue_size (jm s) -> queue_closed m = queue_closed (jm s) ->
  stop_closed m = stop_closed (jm s) -> shuttingDown m = shuttingDown (jm s) ->
  forall h, queue_inv {| jm := m; threads := <[t := c']> (threads s); clock := clock s;
                         once := once s; hooked := h |}.
Proof.
  intros [H1 H2 H3 H4 H5] Ht Hc Hc' Hg E1 E2 E3 E4 E5 h.
  constructor; simpl; rewrite ?E1, ?E2, ?E3, ?E4, ?E5; try done.
  - pose proof (total_update closing _ _ _ c' Ht). lia.
  - intros t' [[<- ->]|[_ Hx]]%lookup_insert_Some; [done|eauto].
Qed.

Ltac quiet := eapply queue_inv_quiet; try eassumption; try done.

Lemma queue_inv_submit s t random ty d md m r :
  queue_inv s -> threads s !! t = Some Caller ->
  Submit (jm s) (clock s) random ty d md = Some (m, r) -> queue_inv (put s m t Caller).
Proof.
  intros Hi Ht. unfold Submit, put. destruct random as [b|e]; [|intros [= <- <-]; quiet].
  destruct (shuttingDown (jm s)) eqn:Hd; [intros [= <- <-]; quiet|].
  destruct (queue_closed (jm s)) eqn:Hq; [done|]. case_decide as Hl; [|intros [= <- <-]; quiet].
  intros [= <- <-]. destruct Hi as [H1 H2 H3 H4 H5]. constructor; simpl; try congruence.
  - pose proof (total_update closing _ _ _ Caller Ht). rewrite Hq in *. simpl in *. lia.
  - rewrite length_app. simpl. lia.
  - intros t' [[_ ?]|[_ Hx]]%lookup_insert_Some; [done|].
    destruct (H5 _ Hx) as [_ Hs]. congruence.
Qed.

(** The sum [f] over the goroutines after the current one has moved to [c']. *)
Ltac moved f c' :=
  match goal with
  | H : threads ?s !! ?t = Some _ |- _ => pose proof (total_update f _ _ _ c' H)
  end.

Lemma queue_inv_step s s' : queue_inv s -> step s (Some s') -> queue_inv s'.
Proof.
  intros Hi Hs. inversion Hs; subst; clear Hs; unfold put, hook; simpl.
  - destruct Hi. by constructor.
  - by eapply queue_inv_submit.
  - destruct Hi. by constructor.
  - destruct Hi. by constructor.
  - destruct (DeleteJob_spec (jm s) id) as (m & -> & _). quiet.
  - destruct (cleanup_spec (jm s) (clock s) maxAge) as (m & n & -> & _). quiet.
  - quiet.
  - destruct (cancel_mark (clock s) j) as [[j' c]|e]; quiet.
  - destruct c; quiet.
  - revert H. unfold shutdown_stop. destruct (stop_closed (jm s)) eqn:E; [done|]. intros [= <-].
    destruct Hi as [I1 I2 I3 I4 I5]. constructor; simpl; try done.
    + moved closing ClosingQueue. rewrite E in *. simpl in *.
      destruct (queue_closed (jm s)); simpl in *; lia.
    + intros t' [[_ ?]|[_ Hx]]%lookup_insert_Some; [done|]. split; [by eapply I5|done].
  - revert H. unfold shutdown_queue. destruct (queue_closed (jm s)) eqn:E; [done|]. intros [= <-].
    destruct Hi as [I1 I2 I3 I4 I5]. constructor; simpl; try done.
    + moved closing ShutDown. rewrite E in *. simpl in *. lia.
    + intros t' [[_ ?]|[_ Hx]]%lookup_insert_Some; [done|]. by eapply I5.
  - quiet.
  - quiet.
  - destruct Hi as [I1 I2 I3 I4 I5]. constructor; simpl; try done.
    + moved closing (Start a). simpl in *. lia.
    + match goal with H : queue (jm s) = _ |- _ => rewrite H in I4 end. simpl in I4. lia.
    + intros t' [[_ ?]|[_ Hx]]%lookup_insert_Some; [done|]. destruct (I5 _ Hx). congruence.
  - destruct Hi as [I1 I2 I3 I4 I5]. constructor; simpl; try done.
    + moved closing Gone. simpl in *. lia.
    + intros t' _. split; [done|]. destruct (stop_closed (jm s)); [done|].
      destruct (queue_closed (jm s)); simpl in *; [lia|done].
  - destruct (execute_begin (clock s) j) as [j'|]; quiet.
  - destruct n; quiet.
  - quiet.
  - quiet.
  - destruct (close_done j) as [j'|]; [|done]. simplify_eq. quiet.
  - destruct (execute_end j) as [j'|]; [|done]. simplify_eq. quiet.
Qed.

Lemma reachable_queue_inv cfg s : reachable cfg s -> queue_inv s.
Proof. induction 1; eauto using queue_inv_initial, queue_inv_step. Qed.

(** ** One execution per job *)

Definition hit (a b : nat) : nat := if decide (a = b) then 1 else 0.

(** The goroutine has the task of job [b] in hand. *)
Definition owner (b : nat) (c : pc) : nat :=
  match c with Start a | Run a | Notify a | Skip a | Finish a => hit a b | _ => 0 end.

(** The goroutine is about to call the hook on job [b]. *)
Definition pending (b : nat) (c : pc) : nat :=
  match c with Marked a _ | Notify a => hit a b | _ => 0 end.

Definition hits (b : nat) (l : list nat) : nat := length (filter (eq b) l).

(** The tasks of job [b] still to be finished, and the hook calls made or due. *)
Definition tasks (s : system) (b : nat) : nat := hits b (queue (jm s)) + total (owner b) (threads s).
Definition reports (s : system) (b : nat) : nat := hits b (hooked s) + total (pending b) (threads s).

(** How often a job of that status is reported: once when it has ended, and
    possibly twice when a panic turned a canceled job into a failed one. *)
Definition reports_ok (st : JobStatus) (n : nat) : Prop :=
  match st with
  | JobStatusPending | JobStatusRunning => n = 0
  | JobStatusCompleted | JobStatusCancelled => n = 1
  | JobStatusFailed => n = 1 \/ n = 2
  end.

Definition fresh (st : JobStatus) : bool :=
  match st with JobStatusPending | JobStatusCancelled => true | _ => false end.
Definition begun (st : JobStatus) : bool :=
  match st with JobStatusRunning | JobStatusCancelled => true | _ => false end.
Definition canceled (st : JobStatus) : bool :=
  match st with JobStatusCancelled => true | _ => false end.

Definition status_in (h : gmap nat Job) (a : nat) (P : JobStatus -> bool) : Prop :=
  exists j, h !! a = Some j /\ P (Status j) = true.

Definition thread_ok (h : gmap nat Job) (c : pc) : Prop :=
  match c with
  | Canceling a | Marked a _ => is_Some (h !! a)
  | Start a => status_in h a fresh
  | Run a => status_in h a begun
  | Notify a | Finish a => status_in h a terminal
  | Skip a => status_in h a canceled
  | _ => True
  end.

Record job_ok (s : system) (a : nat) (j : Job) : Prop := {
  jo_once : tasks s a + Nat.b2n (done_closed j) = 1;
  jo_done : done_closed j = true -> terminal (Status j) = true;
  jo_reports : reports_ok (Status j) (reports s a);
  jo_progress : unit_interval (Progress j) = true
}.

Record job_inv (s : system) : Prop := {
  j_next : forall a, next (jm s) <= a -> heap (jm s) !! a = None;
  j_none : forall a, heap (jm s) !! a = None -> tasks s a = 0 /\ reports s a = 0;
  j_some : forall a j, heap (jm s) !! a = Some j -> job_ok s a j;
  j_threads : forall t c, threads s !! t = Some c -> thread_ok (heap (jm s)) c;
  j_queue : forall a, a ∈ queue (jm s) -> status_in (heap (jm s)) a fresh;
  j_ids : forall id a, jobs (jm s) !! id = Some a -> exists j, heap (jm s) !! a = Some j /\ ID j = id
}.

Lemma hits_pos b l : b ∈ l -> 0 < hits b l.
Proof.
  intros H. unfold hits. assert (b ∈ filter (eq b) l) as Hb by (by apply list_elem_of_filter).
  destruct (filter (eq b) l); [by apply elem_of_nil in Hb|simpl; lia].
Qed.

Lemma hits_cons b a l : hits b (a :: l) = hit a b + hits b l.
Proof. unfold hits, hit. rewrite filter_cons. repeat case_decide; simpl; congruence. Qed.

Lemma hits_snoc b a l : hits b (l ++ [a]) = hits b l + hit a b.
Proof.
  unfold hits, hit. rewrite filter_app, length_app, filter_cons, filter_nil.
  repeat case_decide; simpl; congruence.
Qed.

Lemma hit_eq a : hit a a = 1.
Proof. unfold hit. by rewrite decide_True. Qed.

Lemma hit_ne a b : b <> a -> hit a b = 0.
Proof. intros H. unfold hit. by rewrite decide_False. Qed.

Lemma job_inv_initial cfg s : initial cfg s -> job_inv s.
Proof.
  intros (Hj & Ho & Hh & Ht).
  assert (forall f : pc -> nat, f Caller = 0 -> f Worker = 0 -> total f (threads s) = 0) as H0.
  { intros f H1 H2. apply total_zero. intros t c [->| ->]%Ht; done. }
  constructor; rewrite ?Hj; simpl; try done.
  - intros a _. unfold tasks, reports. rewrite Hj, Hh, !H0 by done. done.
  - intros t c [->| ->]%Ht; done.
  - intros a Ha. by apply elem_of_nil in Ha.
Qed.

(** How another goroutine than the one running a job may change its status. *)
Definition evolves (st st' : JobStatus) : Prop :=
  st' = st \/ (terminal st = false /\ st' = JobStatusCancelled).

Lemma status_in_insert h a j j' b P :
  h !! a = Some j -> (b = a -> P (Status j) = true -> P (Status j') = true) ->
  status_in h b P -> status_in (<[a := j']> h) b P.
Proof.
  intros Ha HP (k & Hk & Hp). destruct (decide (b = a)) as [->|Hne].
  - exists j'. rewrite lookup_insert_eq. split; [done|]. apply HP; [done|]. congruence.
  - exists k. by rewrite lookup_insert_ne.
Qed.

Lemma thread_ok_insert h a j j' c :
  h !! a = Some j -> evolves (Status j) (Status j') \/ owner a c = 0 ->
  thread_ok h c -> thread_ok (<[a := j']> h) c.
Proof.
  intros Ha He. destruct c as [|b|b k| | | |b|b|b|b|b|]; simpl in *; try done.
  1,2: intros [k' Hk]; destruct (decide (b = a)) as [->|Hne];
    [rewrite lookup_insert_eq|rewrite lookup_insert_ne]; eauto.
  all: apply (status_in_insert _ _ _ _ _ _ Ha); intros ->; rewrite hit_eq in He;
    destruct He as [[->|[Ht ->]]|?]; try done; by destruct (Status j).
Qed.

Lemma tasks_split s t c b : threads s !! t = Some c ->
  tasks s b = hits b (queue (jm s)) + owner b c + total (owner b) (delete t (threads s)).
Proof. intros Ht. unfold tasks. rewrite (total_delete _ _ _ _ Ht). lia. Qed.

(** A job's only owner: no other goroutine has its task, nor the queue. *)
Lemma sole_owner s t c a j :
  job_inv s -> threads s !! t = Some c -> heap (jm s) !! a = Some j -> owner a c = 1 ->
  a ∉ queue (jm s) /\ forall t' c', t' <> t -> threads s !! t' = Some c' -> owner a c' = 0.
Proof.
  intros Hi Ht Ha Ho. pose proof (jo_once _ _ _ (j_some _ Hi _ _ Ha)) as H1. split.
  - intros Hq%hits_pos. rewrite (tasks_split _ _ _ _ Ht) in H1. lia.
  - intros t' c' Hne Ht'. unfold tasks in H1.
    pose proof (total_ge_two (owner a) _ _ _ _ _ Hne Ht' Ht). lia.
Qed.

(** What a goroutine may do to job [a] while moving from [c] to [c'] and
    extending the hook's calls to [h']. *)
Record update_ok (s : system) (c c' : pc) (a : nat) (j j' : Job) (h' : list nat) : Prop := {
  u_status : evolves (Status j) (Status j') \/ owner a c = 1;
  u_owner : forall b, b <> a -> owner b c' = owner b c;
  u_pending : forall b, b <> a -> pending b c' + hits b h' = pending b c + hits b (hooked s);
  u_once : owner a c' + Nat.b2n (done_closed j') = owner a c + Nat.b2n (done_closed j);
  u_reports : forall n, reports_ok (Status j) (pending a c + hits a (hooked s) + n) ->
                reports_ok (Status j') (pending a c' + hits a h' + n);
  u_done : done_closed j' = true -> terminal (Status j') = true;
  u_progress : unit_interval (Progress j') = true;
  u_id : ID j' = ID j
}.

Lemma job_inv_update s t c c' a j j' h' :
  job_inv s -> threads s !! t = Some c -> heap (jm s) !! a = Some j ->
  update_ok s c c' a j j' h' -> thread_ok (<[a := j']> (heap (jm s))) c' ->
  job_inv {| jm := store (jm s) a j'; threads := <[t := c']> (threads s); clock := clock s;
             once := once s; hooked := h' |}.
Proof.
  intros Hi Ht Ha [U1 U2 U3 U4 U5 U6 U7 U8] Hc'.
  assert (owner a c = 1 -> a ∉ queue (jm s) /\
    forall t' k, t' <> t -> threads s !! t' = Some k -> owner a k = 0) as Hsole
    by (by apply (sole_owner s t c a j)).
  destruct Hi as [I1 I2 I3 I4 I5 I6].
  assert (forall b, total (owner b) (<[t := c']> (threads s)) + owner b c =
                    total (owner b) (threads s) + owner b c') as To
    by (intros b; by apply total_update).
  assert (forall b, total (pending b) (<[t := c']> (threads s)) + pending b c =
                    total (pending b) (threads s) + pending b c') as Tp
    by (intros b; by apply total_update).
  constructor; simpl.
  - intros b Hb. rewrite lookup_insert_ne by (intros ->; rewrite I1 in Ha; done). auto.
  - intros b [Hb Hne]%lookup_insert_None. destruct (I2 b Hb) as [E1 E2].
    specialize (To b). specialize (Tp b). specialize (U2 b ltac:(done)). specialize (U3 b ltac:(done)).
    unfold tasks, reports in *. simpl. lia.
  - intros b k [[<- <-]|[Hne Hb]]%lookup_insert_Some.
    + destruct (I3 _ _ Ha) as [O1 O2 O3 O4]. specialize (To a). specialize (Tp a).
      constructor; [|done| |done]; unfold tasks, reports in *; simpl; [lia|].
      rewrite <- (Nat.add_comm (total _ _)) in O3. rewrite (total_delete _ _ _ _ Ht) in O3, Tp.
      replace (hits a h' + _) with (pending a c' + hits a h' + total (pending a) (delete t (threads s))) by lia.
      apply U5. by replace (_ + _) with (pending a c + total (pending a) (delete t (threads s)) + hits a (hooked s)) by lia.
    + destruct (I3 _ _ Hb) as [O1 O2 O3 O4]. specialize (To b). specialize (Tp b).
      specialize (U2 b ltac:(done)). specialize (U3 b ltac:(done)).
      constructor; [|done| |done]; unfold tasks, reports in *; simpl; [lia|].
      by replace (hits b h' + _) with (hits b (hooked s) + total (pending b) (threads s)) by lia.
  - intros t' k [[<- <-]|[Hne Hk]]%lookup_insert_Some; [done|].
    apply (thread_ok_insert _ _ _ _ _ Ha); [|eauto]. destruct U1 as [?|Ho]; [by left|right].
    destruct (Hsole Ho) as [_ H]. by apply (H t').
  - intros b Hb. apply (status_in_insert _ _ _ _ _ _ Ha); [|auto]. intros ->.
    destruct U1 as [[->|[_ ->]]|Ho]; [done|done|]. by destruct (Hsole Ho).
  - intros id b (k & Hk & Hid)%I6. destruct (decide (b = a)) as [->|Hne].
    + exists j'. rewrite lookup_insert_eq. split; [done|]. rewrite Ha in Hk. congruence.
    + exists k. by rewrite lookup_insert_ne.
Qed.

Lemma store_id m a j : heap m !! a = Some j -> store m a j = m.
Proof. intros H. unfold store, with_heap. rewrite insert_id by done. by destruct m. Qed.

(** Steps that touch no job and no queue. *)
Lemma job_inv_move s t c c' m o :
  job_inv s -> threads s !! t = Some c ->
  (forall b, owner b c' = owner b c) -> (forall b, pending b c' = pending b c) ->
  thread_ok (heap (jm s)) c' ->
  heap m = heap (jm s) -> next m = next (jm s) -> queue m = queue (jm s) -> jobs m ⊆ jobs (jm s) ->
  job_inv {| jm := m; threads := <[t := c']> (threads s); clock := clock s; once := o; hooked := hooked s |}.
Proof.
  intros [I1 I2 I3 I4 I5 I6] Ht Ho Hp Hc' E1 E2 E3 E4.
  assert (forall b, total (owner b) (<[t := c']> (threads s)) = total (owner b) (threads s)) as To.
  { intros b. pose proof (total_update (owner b) _ _ _ c' Ht). specialize (Ho b). lia. }
  assert (forall b, total (pending b) (<[t := c']> (threads s)) = total (pending b) (threads s)) as Tp.
  { intros b. pose proof (total_update (pending b) _ _ _ c' Ht). specialize (Hp b). lia. }
  constructor; simpl; rewrite ?E1, ?E2, ?E3.
  - done.
  - intros a Ha. unfold tasks, reports. simpl. rewrite To, Tp, E3. by apply I2.
  - intros a j Ha. destruct (I3 a j Ha) as [O1 O2 O3 O4]. constructor; [|done| |done].
    + unfold tasks. simpl. by rewrite To, E3.
    + unfold reports. simpl. by rewrite Tp.
  - intros t' k [[<- <-]|[_ Hk]]%lookup_insert_Some; [done|eauto].
  - done.
  - intros id a Hj. apply I6. by eapply lookup_weaken.
Qed.

Lemma job_inv_receive s t a q :
  job_inv s -> threads s !! t = Some Worker -> queue (jm s) = a :: q ->
  job_inv (put s (with_queue (jm s) q) t (Start a)).
Proof.
  intros [I1 I2 I3 I4 I5 I6] Ht Hq.
  assert (forall b, tasks (put s (with_queue (jm s) q) t (Start a)) b = tasks s b) as Ta.
  { intros b. unfold tasks. simpl. rewrite Hq, hits_cons.
    pose proof (total_update (owner b) _ _ _ (Start a) Ht). simpl in *. lia. }
  assert (forall b, reports (put s (with_queue (jm s) q) t (Start a)) b = reports s b) as Re.
  { intros b. unfold reports. simpl. pose proof (total_update (pending b) _ _ _ (Start a) Ht). simpl in *. lia. }
  constructor; simpl; try done.
  - intros b Hb. rewrite Ta, Re. auto.
  - intros b j Hb. destruct (I3 b j Hb) as [O1 O2 O3 O4]. constructor; rewrite ?Ta, ?Re; done.
  - intros t' k [[<- <-]|[_ Hk]]%lookup_insert_Some; [|eauto]. simpl. apply I5. rewrite Hq. left.
  - intros b Hb. apply I5. rewrite Hq. by right.
Qed.

(** A job function, or anyone with the pointer, changing progress or result. *)
Lemma job_inv_write s a j j' :
  job_inv s -> heap (jm s) !! a = Some j ->
  Status j' = Status j -> done_closed j' = done_closed j -> ID j' = ID j ->
  unit_interval (Progress j') = true ->
  job_inv {| jm := store (jm s) a j'; threads := threads s; clock := clock s;
             once := once s; hooked := hooked s |}.
Proof.
  intros [I1 I2 I3 I4 I5 I6] Ha E1 E2 E3 E4. constructor; simpl.
  - intros b Hb. rewrite lookup_insert_ne by (intros ->; rewrite I1 in Ha; done). auto.
  - intros b [Hb _]%lookup_insert_None. by apply I2.
  - intros b k [[<- <-]|[_ Hb]]%lookup_insert_Some.
    + destruct (I3 _ _ Ha) as [O1 O2 O3 O4]. constructor; rewrite ?E1, ?E2; done.
    + by destruct (I3 _ _ Hb) as [O1 O2 O3 O4]; constructor.
  - intros t k Hk. apply (thread_ok_insert _ _ _ _ _ Ha); [by left; left|eauto].
  - intros b Hb. apply (status_in_insert _ _ _ _ _ _ Ha); [by rewrite E1|auto].
  - intros id b (k & Hk & Hid)%I6. destruct (decide (b = a)) as [->|Hne].
    + exists j'. rewrite lookup_insert_eq. split; [done|]. congruence.
    + exists k. by rewrite lookup_insert_ne.
Qed.

Lemma thread_ok_fresh h a j c : h !! a = None -> thread_ok h c -> thread_ok (<[a := j]> h) c.
Proof.
  intros Ha. assert (forall b P, status_in h b P -> status_in (<[a := j]> h) b P) as H.
  { intros b P (k & Hk & Hp). exists k. split; [|done]. rewrite lookup_insert_ne; [done|congruence]. }
  destruct c as [|b|b k| | | |b|b|b|b|b|]; simpl in *; try done; try apply H.
  all: intros [k' Hk]; rewrite lookup_insert_ne by congruence; eauto.
Qed.

Lemma job_inv_submit s t random ty d md m r :
  job_inv s -> threads s !! t = Some Caller ->
  Submit (jm s) (clock s) random ty d md = Some (m, r) -> job_inv (put s m t Caller).
Proof.
  intros Hi Ht. unfold Submit, put.
  destruct random as [b|e]; [|intros [= <- <-]; by eapply job_inv_move].
  destruct (shuttingDown (jm s)); [intros [= <- <-]; by eapply job_inv_move|].
  destruct (queue_closed (jm s)) eqn:Hqc; [done|].
  case_decide; intros [= <- <-]; [|eapply job_inv_move; try done; simpl; apply delete_subseteq].
  set (id := String.append "job-" (hex_encode b)). set (j := new_job _ _ _ _ _).
  destruct Hi as [I1 I2 I3 I4 I5 I6].
  assert (heap (jm s) !! next (jm s) = None) as Hn by (by apply I1).
  rewrite (insert_id (threads s)) by done.
  constructor; simpl.
  - intros a Hle. rewrite lookup_insert_ne by lia. apply I1. lia.
  - intros a [Ha Hne]%lookup_insert_None. destruct (I2 a Ha) as [E1 E2].
    unfold tasks, reports in *. simpl. rewrite hits_snoc, hit_ne by done. lia.
  - intros a k [[<- <-]|[Hne Ha]]%lookup_insert_Some.
    + destruct (I2 _ Hn) as [E1 E2]. unfold tasks, reports in *.
      constructor; unfold tasks, reports; simpl; rewrite ?hits_snoc, ?hit_eq; done || lia.
    + destruct (I3 _ _ Ha) as [O1 O2 O3 O4]. unfold tasks, reports in *.
      constructor; unfold tasks, reports; simpl; rewrite ?hits_snoc, ?(hit_ne _ a) by done; done || lia.
  - intros t' k Hk. apply thread_ok_fresh; eauto.
  - intros a [Ha| ->%list_elem_of_singleton]%elem_of_app.
    + destruct (I5 a Ha) as (k & Hk & Hf). exists k. split; [|done].
      rewrite lookup_insert_ne; [done|]. intros <-. congruence.
    + exists j. by rewrite lookup_insert_eq.
  - intros id' a [[<- <-]|[Hne Ha]]%lookup_insert_Some.
    + exists j. by rewrite lookup_insert_eq.
    + destruct (I6 _ _ Ha) as (k & Hk & Hid). exists k. split; [|done].
      rewrite lookup_insert_ne; [done|]. intros <-. congruence.
Qed.

Lemma update_same s c c' a j h' :
  job_ok s a j ->
  (forall b, owner b c' = owner b c) ->
  (forall b, pending b c' + hits b h' = pending b c + hits b (hooked s)) ->
  update_ok s c c' a j j h'.
Proof.
  intros [O1 O2 O3 O4] Ho Hp. constructor; try done; auto.
  - left. by left.
  - intros n. by rewrite Hp.
Qed.

Lemma status_in_here h a j (P : JobStatus -> bool) : P (Status j) = true -> status_in (<[a := j]> h) a P.
Proof. intros H. exists j. by rewrite lookup_insert_eq. Qed.

(** The pieces of [update_ok] for the step at hand. *)
Ltac update_tac :=
  constructor; simpl in *;
  [ | intros ? ?; rewrite ?hit_ne by done; done
    | intros ? ?; rewrite ?hits_cons, ?hit_ne by done; done
    | rewrite ?hit_eq; try done; try lia
    | intros n; rewrite ?hits_cons, ?hit_eq; simpl
    | | | try done ].

Lemma cancel_mark_ok s t a j :
  job_inv s -> threads s !! t = Some (Canceling a) -> heap (jm s) !! a = Some j ->
  job_inv (match cancel_mark (clock s) j with
           | Ok (j', c) => put s (store (jm s) a j') t (Marked a c)
           | Err _ => put s (jm s) t Caller
           end).
Proof.
  intros Hi Ht Ha. pose proof (j_some _ Hi _ _ Ha) as [O1 O2 O3 O4].
  destruct (cancel_mark (clock s) j) as [[j' c]|e] eqn:E; [|by eapply job_inv_move].
  unfold cancel_mark in E. destruct (Status j) eqn:Es; simpl in E; simplify_eq;
    (eapply job_inv_update; [done|done|done| |simpl; rewrite lookup_insert_eq; eauto]);
    update_tac; try done; try (left; right; by rewrite Es); rewrite Es; simpl; lia.
Qed.

Lemma marked_ok s t a c j :
  job_inv s -> threads s !! t = Some (Marked a c) -> heap (jm s) !! a = Some j ->
  job_inv (hook (put s (if c then store (jm s) a (call_cancel j) else jm s) t Caller) a).
Proof.
  intros Hi Ht Ha. pose proof (j_some _ Hi _ _ Ha) as [O1 O2 O3 O4]. unfold hook, put. simpl.
  assert (forall j', Status j' = Status j -> done_closed j' = done_closed j -> ID j' = ID j ->
    Progress j' = Progress j -> update_ok s (Marked a c) Caller a j j' (a :: hooked s)) as H.
  { intros j' E1 E2 E3 E4. update_tac; try congruence.
    - left. left. congruence.
    - rewrite E1, E2. done. }
  destruct c.
  - eapply job_inv_update; [done|done|done|by apply H|done].
  - rewrite <- (store_id (jm s) a j Ha). eapply job_inv_update; [done|done|done|by apply H|done].
Qed.

Lemma begin_ok s t a j :
  job_inv s -> threads s !! t = Some (Start a) -> heap (jm s) !! a = Some j ->
  job_inv (match execute_begin (clock s) j with
           | Some j' => put s (store (jm s) a j') t (Run a)
           | None => put s (jm s) t (Skip a)
           end).
Proof.
  intros Hi Ht Ha. pose proof (j_some _ Hi _ _ Ha) as Hok. pose proof Hok as [O1 O2 O3 O4].
  pose proof (j_threads _ Hi _ _ Ht) as (j0 & Hj & Hf). rewrite Ha in Hj. simplify_eq.
  unfold execute_begin. case_decide as Es.
  - unfold put. rewrite <- (store_id (jm s) a j0 Ha). eapply job_inv_update; try done.
    + by apply update_same.
    + apply status_in_here. by rewrite Es.
  - eapply job_inv_update; try done; [|by apply status_in_here].
    update_tac; try done.
    + right. apply hit_eq.
    + by destruct (Status j0).
    + destruct (Status j0); try done; intros Hd; by specialize (O2 Hd).
Qed.

Lemma return_ok s t a j err j' n :
  job_inv s -> threads s !! t = Some (Run a) -> heap (jm s) !! a = Some j ->
  execute_finish (jm_canceled (jm s)) (clock s) err j = (j', n) ->
  job_inv (put s (store (jm s) a j') t (if n then Notify a else Finish a)).
Proof.
  intros Hi Ht Ha. pose proof (j_some _ Hi _ _ Ha) as [O1 O2 O3 O4].
  pose proof (j_threads _ Hi _ _ Ht) as (j0 & Hj & Hf). rewrite Ha in Hj. simplify_eq.
  unfold execute_finish. case_decide as Es.
  - intros [= <- <-]. eapply job_inv_update; try done; [|by apply status_in_here].
    update_tac; try done.
    + left. left. by rewrite Es.
    + by rewrite Es.
  - intros [= <- <-]. assert (Status j0 = JobStatusRunning) as Er by (by destruct (Status j0)).
    destruct err as [e|]; simpl; [destruct (ctx_canceled j0 || jm_canceled (jm s))|];
      (eapply job_inv_update; try done; [|by apply status_in_here]); update_tac; try done;
      try (right; apply hit_eq); rewrite Er; simpl; lia.
Qed.

Lemma panic_ok s t a j r :
  job_inv s -> threads s !! t = Some (Run a) -> heap (jm s) !! a = Some j ->
  job_inv (put s (store (jm s) a (execute_panic (clock s) r j)) t (Notify a)).
Proof.
  intros Hi Ht Ha. pose proof (j_some _ Hi _ _ Ha) as [O1 O2 O3 O4].
  pose proof (j_threads _ Hi _ _ Ht) as (j0 & Hj & Hf). rewrite Ha in Hj. simplify_eq.
  eapply job_inv_update; try done; [|by apply status_in_here]. update_tac; try done.
  - right. apply hit_eq.
  - destruct (Status j0); simpl; try done; lia.
Qed.

Lemma notify_ok s t a :
  job_inv s -> threads s !! t = Some (Notify a) -> job_inv (hook (put s (jm s) t (Finish a)) a).
Proof.
  intros Hi Ht. pose proof (j_threads _ Hi _ _ Ht) as (j & Ha & Hf). unfold hook, put. simpl.
  rewrite <- (store_id (jm s) a j Ha). eapply job_inv_update; try done; [|by apply status_in_here].
  apply update_same; [by apply j_some|done|]. intros b. rewrite hits_cons. simpl. lia.
Qed.

Lemma owner_not_closed s t c a j :
  job_inv s -> threads s !! t = Some c -> heap (jm s) !! a = Some j -> owner a c = 1 ->
  done_closed j = false.
Proof.
  intros Hi Ht Ha Ho. pose proof (jo_once _ _ _ (j_some _ Hi _ _ Ha)) as H.
  rewrite (tasks_split _ _ _ _ Ht) in H. destruct (done_closed j); simpl in *; [lia|done].
Qed.

Lemma close_ok s t c a j j' :
  job_inv s -> threads s !! t = Some c -> c = Skip a \/ c = Finish a -> heap (jm s) !! a = Some j ->
  Status j' = Status j -> done_closed j' = true -> ID j' = ID j -> Progress j' = Progress j ->
  job_inv (put s (store (jm s) a j') t Worker).
Proof.
  intros Hi Ht Hc Ha E1 E2 E3 E4. pose proof (j_some _ Hi _ _ Ha) as [O1 O2 O3 O4].
  assert (done_closed j = false) as Hd.
  { eapply owner_not_closed; [done|done|done|]. destruct Hc as [->| ->]; apply hit_eq. }
  assert (terminal (Status j) = true) as Hterm.
  { pose proof (j_threads _ Hi _ _ Ht) as H. destruct Hc as [->| ->];
      destruct H as (j0 & Hj & Hf); rewrite Ha in Hj; simplify_eq; [by destruct (Status j0)|done]. }
  eapply job_inv_update; try done.
  destruct Hc as [->| ->]; update_tac; try congruence;
    try (left; left; congruence); try (rewrite E2, Hd; done); by rewrite E1.
Qed.

Lemma job_inv_step s s' : job_inv s -> step s (Some s') -> job_inv s'.
Proof.
  intros Hi Hs. inversion Hs; subst; clear Hs; unfold put, hook; simpl.
  - destruct Hi as [I1 I2 I3 I4 I5 I6]. constructor; simpl; try done.
    intros a j Ha. by destruct (I3 a j Ha); constructor.
  - by eapply job_inv_submit.
  - eapply job_inv_write; try done. apply clamp_progress_unit.
  - eapply job_inv_write; try done. simpl. by eapply (jo_progress s a j), j_some.
  - destruct (DeleteJob_spec (jm s) id) as (m & -> & Hm). by eapply job_inv_move.
  - destruct (cleanup_spec (jm s) (clock s) maxAge) as (m & n & -> & Hm).
    eapply job_inv_move; try done. apply map_subseteq_spec. intros id a. apply Hm.
  - eapply job_inv_move; try done. simpl.
    match goal with H : GetJob _ _ = _ |- _ => revert H end. unfold GetJob.
    destruct (jobs (jm s) !! id) as [b|] eqn:E; [|done]. intros [= <-].
    destruct (j_ids _ Hi _ _ E) as (j & Hj & _). eauto.
  - by apply cancel_mark_ok.
  - by apply marked_ok.
  - revert H. unfold shutdown_stop. destruct (stop_closed (jm s)); [done|]. intros [= <-].
    by eapply job_inv_move.
  - revert H. unfold shutdown_queue. destruct (queue_closed (jm s)); [done|]. intros [= <-].
    by eapply job_inv_move.
  - by eapply job_inv_move.
  - by eapply job_inv_move.
  - by apply job_inv_receive.
  - by eapply job_inv_move.
  - by apply begin_ok.
  - by eapply return_ok.
  - by apply panic_ok.
  - by apply notify_ok.
  - revert H. unfold close_done. destruct (done_closed j); [done|]. intros [= <-].
    eapply close_ok; try done. by left.
  - revert H. unfold execute_end, close_done. destruct (done_closed j); [done|]. intros [= <-].
    eapply close_ok; try done. by right.
Qed.

Lemma reachable_job_inv cfg s : reachable cfg s -> job_inv s.
Proof. induction 1; eauto using job_inv_initial, job_inv_step. Qed.

(** ** Theorems *)

(** C29: no interleaving of submissions, cancellations, deletions, cleanups,
    shutdowns and executions panics: the queue is never sent on after it was
    closed, and neither it, [stopCh] nor a job's [done] is ever closed twice. *)
Theorem job_manager_never_panics (cfg : JobManagerConfig) (s : system) (r : option system) :
  reachable cfg s -> step s r -> exists s', r = Some s'.
Proof.
  intros Hr Hs. pose proof (reachable_queue_inv _ _ Hr) as Q. pose proof (reachable_job_inv _ _ Hr) as J.
  destruct Hs; eauto.
  - exfalso. revert H0. unfold Submit. destruct random; [|done].
    destruct (shuttingDown (jm s)) eqn:E; [done|]. destruct (queue_closed (jm s)) eqn:Eq; [|by case_decide].
    rewrite (q_down _ Q) in E. pose proof (q_closing _ Q) as H1. rewrite E, Eq in H1. simpl in H1. lia.
  - unfold shutdown_stop. rewrite <- (q_once _ Q), H0. eauto.
  - unfold shutdown_queue. pose proof (q_closing _ Q) as H1. pose proof (total_ge closing _ _ _ H) as H2.
    destruct (queue_closed (jm s)); [|eauto]. destruct (stop_closed (jm s)); simpl in *; lia.
  - unfold close_done. erewrite owner_not_closed by (eauto using hit_eq). eauto.
  - unfold execute_end, close_done. erewrite owner_not_closed by (eauto using hit_eq). simpl. eauto.
Qed.

(** C4: an accepted job is executed exactly once. Until its [done] channel is
    closed its task is in the queue or with one worker, never both or twice;
    after that it is nowhere; and a worker only leaves when the queue is empty
    for good, so once one has left and no task is in hand every job accepted
    has ended in a terminal state with [done] closed. *)
Theorem accepted_jobs_run_once (cfg : JobManagerConfig) (s : system) (a : nat) (j : Job) :
  reachable cfg s -> heap (jm s) !! a = Some j ->
  hits a (queue (jm s)) + total (owner a) (threads s) = (if done_closed j then 0 else 1) /\
  (done_closed j = true -> terminal (Status j) = true) /\
  (forall t, threads s !! t = Some Gone ->
     queue (jm s) = [] /\ (total (owner a) (threads s) = 0 -> done_closed j = true)).
Proof.
  intros Hr Ha. pose proof (reachable_queue_inv _ _ Hr) as Q.
  destruct (j_some _ (reachable_job_inv _ _ Hr) _ _ Ha) as [O1 O2 _ _]. unfold tasks in O1.
  split_and!; [|done|].
  - destruct (done_closed j); simpl in *; lia.
  - intros t Ht. destruct (q_gone _ Q _ Ht) as [Hq _]. split; [done|]. intros H0.
    rewrite H0, Hq in O1. by destruct (done_closed j).
Qed.

(** The moves a job's status can make in one step. *)
Definition forward (st st' : JobStatus) : bool :=
  match st, st' with
  | JobStatusPending, (JobStatusPending | JobStatusRunning | JobStatusCancelled) => true
  | JobStatusRunning, JobStatusPending => false
  | JobStatusRunning, _ => true
  | JobStatusCancelled, (JobStatusCancelled | JobStatusFailed) => true
  | JobStatusCompleted, JobStatusCompleted | JobStatusFailed, JobStatusFailed => true
  | _, _ => false
  end.

Lemma forward_refl st : forward st st = true.
Proof. by destruct st. Qed.

Lemma forward_insert (h : gmap nat Job) a b j0 j j' :
  h !! b = Some j0 -> h !! a = Some j -> forward (Status j) (Status j') = true ->
  exists k, <[a := j']> h !! b = Some k /\ forward (Status j0) (Status k) = true.
Proof.
  intros Hb Ha Hf. destruct (decide (a = b)) as [->|Hne].
  - exists j'. rewrite lookup_insert_eq. split; [done|]. congruence.
  - exists j0. rewrite lookup_insert_ne by done. split; [done|apply forward_refl].
Qed.

(** C28: a job's status only moves forward: from pending to running or
    canceled, from running to completed, failed or canceled; a completed or
    failed job never changes again, and a canceled one is never reported as
    completed or running, whatever its function returns (a panic of the
    function may still turn it into a failed one). *)
Theorem status_moves_forward (cfg : JobManagerConfig) (s s' : system) (b : nat) (j0 : Job) :
  reachable cfg s -> step s (Some s') -> heap (jm s) !! b = Some j0 ->
  exists k, heap (jm s') !! b = Some k /\ forward (Status j0) (Status k) = true.
Proof.
  intros Hr Hs Hb. pose proof (reachable_job_inv _ _ Hr) as J.
  assert (exists k, heap (jm s) !! b = Some k /\ forward (Status j0) (Status k) = true) as Hsame
    by eauto using forward_refl.
  inversion Hs; subst; clear Hs; simpl; try exact Hsame;
    try match goal with H : threads s !! _ = Some _ |- _ => rename H into Ht end.
  - match goal with H : Submit _ _ _ _ _ _ = _ |- _ => revert H end.
    unfold Submit. destruct random; [|by intros [= <- _]].
    destruct (shuttingDown (jm s)); [by intros [= <- _]|]. destruct (queue_closed (jm s)); [done|].
    case_decide; [|by intros [= <- _]]. intros [= <- _]. simpl. exists j0.
    rewrite lookup_insert_ne; [by rewrite forward_refl|].
    intros <-. by rewrite (j_next _ J) in Hb.
  - eapply forward_insert; [done|done|apply forward_refl].
  - eapply forward_insert; [done|done|apply forward_refl].
  - by destruct (DeleteJob_spec (jm s) id) as (m & -> & _).
  - by destruct (cleanup_spec (jm s) (clock s) maxAge) as (m & n & -> & _).
  - destruct (cancel_mark (clock s) j) as [[j' c]|e] eqn:E; [|exact Hsame].
    eapply forward_insert; [done..|]. unfold cancel_mark in E.
    destruct (Status j) eqn:Es; simpl in E; simplify_eq; done.
  - destruct c; [|exact Hsame]. eapply forward_insert; [done|done|apply forward_refl].
  - unfold shutdown_stop in *. destruct (stop_closed (jm s)); simplify_eq. exact Hsame.
  - unfold shutdown_queue in *. destruct (queue_closed (jm s)); simplify_eq. exact Hsame.
  - unfold execute_begin. case_decide; [exact Hsame|]. eapply forward_insert; [done..|].
    pose proof (j_threads _ J _ _ Ht) as (j1 & Hj & Hf). simplify_eq/=. by destruct (Status j).
  - pose proof (j_threads _ J _ _ Ht) as (j1 & Hj & Hf). simplify_eq/=.
    eapply forward_insert; [done..|]. unfold execute_finish in *.
    destruct (Status j) eqn:Es; simplify_eq/=; try done.
    destruct err; [destruct (_ || _)|]; done.
  - pose proof (j_threads _ J _ _ Ht) as (j1 & Hj & Hf). simplify_eq/=.
    eapply forward_insert; [done..|]. simpl. by destruct (Status j).
  - unfold close_done in *. destruct (done_closed j); simplify_eq.
    eapply forward_insert; [done|done|apply forward_refl].
  - unfold execute_end, close_done in *. destruct (done_closed j); simplify_eq/=.
    eapply forward_insert; [done|done|apply forward_refl].
Qed.

(** The hook hears of every terminal state and of nothing else. The calls
    made or about to be made on a job are none while it is pending or running,
    exactly one once it is completed or canceled, and one or two once it has
    failed; its progress is always between 0 and 1, and never NaN, whatever
    the job function reports. *)
Theorem hook_reports_terminal_states (cfg : JobManagerConfig) (s : system) (a : nat) (j : Job) :
  reachable cfg s -> heap (jm s) !! a = Some j ->
  (terminal (Status j) = false -> reports s a = 0) /\
  (Status j = JobStatusCompleted \/ Status j = JobStatusCancelled -> reports s a = 1) /\
  (Status j = JobStatusFailed -> reports s a = 1 \/ reports s a = 2) /\
  unit_interval (Progress j) = true.
Proof.
  intros Hr Ha. destruct (j_some _ (reachable_job_inv _ _ Hr) _ _ Ha) as [_ _ O3 O4].
  destruct (Status j); simpl in O3; naive_solver.
Qed.

(** The cleanup removes from the map exactly the jobs in a terminal state
    that ended before the cutoff, counts them, and changes nothing else. *)
Theorem cleanup_removes_expired (m : JobManager) (now maxAge : Z) :
  exists m' n, cleanupOldJobs m now maxAge = (with_jobs m m', n) /\
    (forall id a, m' !! id = Some a <->
       jobs m !! id = Some a /\
       ~ exists j, heap m !! a = Some j /\ terminal (Status j) = true /\
           exists t, CompletedAt j = Some t /\ (t < now - maxAge)%Z) /\
    n = (Z.of_nat (size (jobs m)) - Z.of_nat (size m'))%Z.
Proof.
  pose proof (cleanup_count (now - maxAge) m (map_to_list (jobs m)) (jobs m) 0) as Hn.
  destruct (cleanup_spec m now maxAge) as (m' & n & E & H). exists m', n. split; [done|]. split.
  - intros id a. rewrite H. apply and_iff_compat_l, not_iff_compat.
    apply exist_proper. intros j. unfold expired. rewrite andb_true_iff.
    apply and_iff_compat_l, and_iff_compat_l. destruct (CompletedAt j) as [t|]; [|naive_solver].
    rewrite Z.ltb_lt. naive_solver.
  - unfold cleanupOldJobs in E. rewrite with_jobs_id, E in Hn. simpl in Hn.
    rewrite Z.add_0_l in Hn.
    rewrite <- Hn; [lia|apply NoDup_fst_map_to_list|by intros; apply elem_of_map_to_list].
Qed.

(** What [Submit] does in a state the program can be in. It never panics;
    it refuses when the manager is shutting down and when the queue is full,
    which it is exactly when it holds its capacity; otherwise the new job is
    pending, found by [GetJob] under its id and last in the queue. *)
Theorem submit_outcomes (cfg : JobManagerConfig) (s : system) (now : Z) (b : list Ascii.ascii)
    (ty d : string) (md : option (gmap string string)) :
  reachable cfg s ->
  length (queue (jm s)) <= queue_size (jm s) /\
  ((shuttingDown (jm s) = true /\ Submit (jm s) now (Ok b) ty d md = Some (jm s, Err ErrShuttingDown)) \/
   (shuttingDown (jm s) = false /\ length (queue (jm s)) = queue_size (jm s) /\
    exists m e, Submit (jm s) now (Ok b) ty d md = Some (m, Err e) /\ errors_Is e "job queue is full" = true /\
      queue m = queue (jm s) /\ heap m = heap (jm s)) \/
   (shuttingDown (jm s) = false /\ length (queue (jm s)) < queue_size (jm s) /\
    exists m a j, Submit (jm s) now (Ok b) ty d md = Some (m, Ok a) /\
      heap (jm s) !! a = None /\ heap m !! a = Some j /\ Status j = JobStatusPending /\
      GetJob m (ID j) = Ok a /\ queue m = queue (jm s) ++ [a])).
Proof.
  intros Hr. pose proof (reachable_queue_inv _ _ Hr) as Q. pose proof (reachable_job_inv _ _ Hr) as J.
  split; [apply Q|]. unfold Submit. destruct (shuttingDown (jm s)) eqn:E; [by left|right].
  destruct (queue_closed (jm s)) eqn:Eq.
  { rewrite (q_down _ Q) in E. pose proof (q_closing _ Q) as H. rewrite E, Eq in H. simpl in H. lia. }
  pose proof (q_bound _ Q). case_decide; [right|left].
  - split_and!; [done|done|]. eexists _, _, _. split_and!; [reflexivity| |apply lookup_insert_eq|done| |done].
    + by apply (j_next _ J).
    + unfold GetJob. simpl. by rewrite lookup_insert_eq.
  - split_and!; [done|lia|]. by eexists _, _.
Qed.

(** ** A run in which a canceled job panics *)

(** A caller (0) and a worker (1). *)
Definition sys0 : system :=
  {| jm := NewJobManager DefaultJobManagerConfig; threads := {[0 := Caller; 1 := Worker]};
     clock := 0; once := false; hooked := [] |}.

Definition a_job (st : JobStatus) (msg err : string) (completed : option Z) : Job :=
  {| ID := "job-00"; Type_ := "instance.create"; Description := "web"; Status := st;
     Progress := float_zero; Message := msg; Result := None; Error := err; CreatedAt := 0;
     StartedAt := Some 0%Z; CompletedAt := completed; Metadata := None;
     cancel := true; ctx_canceled := bool_decide (completed = Some 0%Z); done_closed := false |}.

Definition one_job (j : Job) (c0 c1 : pc) (h : list nat) : system :=
  {| jm := {| heap := {[0 := j]}; next := 1; jobs := {["job-00" := 0]}; queue := [];
              queue_size := 100; queue_closed := false; stop_closed := false;
              shuttingDown := false; jm_canceled := false |};
     threads := {[0 := c0; 1 := c1]}; clock := 0; once := false; hooked := h |}.

Definition running_sys : system := one_job (a_job JobStatusRunning "Starting..." "" None) Caller (Run 0) [].
Definition canceled_sys : system :=
  one_job (a_job JobStatusCancelled "Canceled by user" "" (Some 0%Z)) Caller (Run 0) [0].
Definition panicked_sys : system :=
  one_job (a_job JobStatusFailed "Failed (panic)" "panic: boom" (Some 0%Z)) Caller (Finish 0) [0; 0].

Lemma sys0_initial : initial DefaultJobManagerConfig sys0.
Proof.
  split_and!; try done. simpl.
  intros t c [[<- <-]|[_ [<- <-]%lookup_singleton_Some]]%lookup_insert_Some; auto.
Qed.

(** A step whose result is given in another form. *)
Lemma R_step_eq cfg s s1 s2 : reachable cfg s -> step s (Some s1) -> s1 = s2 -> reachable cfg s2.
Proof. intros Hr Hs <-. by eapply R_step. Qed.

Lemma running_reachable : reachable DefaultJobManagerConfig running_sys.
Proof.
  assert (reachable DefaultJobManagerConfig (put sys0 (match Submit (jm sys0) 0 (Ok [Ascii.zero]) "instance.create" "web" None
    with Some (m, _) => m | None => jm sys0 end) 0 Caller)) as H1.
  { eapply R_step; [apply R_start, sys0_initial|].
    eapply (S_submit sys0 0 (Ok [Ascii.zero]) "instance.create" "web" None); reflexivity. }
  eapply R_step_eq in H1; [|eapply (S_receive _ 1 0 []); reflexivity|reflexivity].
  eapply R_step_eq in H1; [|eapply (S_begin _ 1 0); reflexivity|reflexivity].
  enough (forall s, reachable DefaultJobManagerConfig s -> s = running_sys ->
          reachable DefaultJobManagerConfig running_sys) as Hc.
  { eapply Hc; [exact H1|]. vm_compute. reflexivity. }
  by intros s Hs ->.
Qed.

Lemma canceled_reachable : reachable DefaultJobManagerConfig canceled_sys.
Proof.
  pose proof running_reachable as H1.
  eapply R_step_eq in H1; [|eapply (S_cancel _ 0 "job-00" 0); reflexivity|reflexivity].
  eapply R_step_eq in H1; [|eapply (S_mark _ 0 0); reflexivity|reflexivity].
  eapply R_step_eq in H1; [|eapply (S_marked _ 0 0 true); reflexivity|vm_compute; reflexivity].
  exact H1.
Qed.

(** A job that was canceled, and reported as canceled, and whose function
    then panics is turned into a failed one and reported a second time. *)
Theorem panic_overwrites_cancel :
  exists s s', reachable DefaultJobManagerConfig s /\ reachable DefaultJobManagerConfig s' /\
    (Status <$> heap (jm s) !! 0) = Some JobStatusCancelled /\ hooked s = [0] /\
    (Status <$> heap (jm s') !! 0) = Some JobStatusFailed /\ hooked s' = [0; 0] /\
    rtc (fun x y => step x (Some y)) s s'.
Proof.
  exists canceled_sys, panicked_sys.
  assert (rtc (fun x y => step x (Some y)) canceled_sys panicked_sys) as Hrtc.
  { eapply rtc_l; [eapply (S_panic _ 1 0 _ "boom"); reflexivity|].
    eapply rtc_l; [eapply (S_notify _ 1 0); reflexivity|].
    match goal with |- rtc _ ?a ?b => assert (a = b) as ->; [vm_compute; reflexivity|done] end. }
  split_and!; try done; [apply canceled_reachable|].
  revert Hrtc. generalize panicked_sys. intros s' Hrtc.
  pose proof canceled_reachable as H. induction Hrtc; eauto using R_step.
Qed.

(** ** Witnesses *)

Lemma job_manager_never_panics_witness :
  exists s', Some (put running_sys (jm running_sys) 0 (Canceling 0)) = Some s'.
Proof.
  eapply (job_manager_never_panics DefaultJobManagerConfig running_sys);
    [apply running_reachable|by eapply (S_cancel running_sys 0 "job-00" 0)].
Defined.

Lemma accepted_jobs_run_once_witness :
  hits 0 (queue (jm running_sys)) + total (owner 0) (threads running_sys) = 1.
Proof.
  apply (accepted_jobs_run_once DefaultJobManagerConfig running_sys 0
           (a_job JobStatusRunning "Starting..." "" None)); [apply running_reachable|reflexivity].
Defined.

Lemma status_moves_forward_witness :
  exists k, heap (jm (put running_sys (jm running_sys) 0 (Canceling 0))) !! 0 = Some k /\
    forward JobStatusRunning (Status k) = true.
Proof.
  apply (status_moves_forward DefaultJobManagerConfig running_sys _ 0
           (a_job JobStatusRunning "Starting..." "" None));
    [apply running_reachable|by eapply (S_cancel running_sys 0 "job-00" 0)|reflexivity].
Defined.

Lemma hook_reports_terminal_states_witness : reports canceled_sys 0 = 1.
Proof.
  apply (hook_reports_terminal_states DefaultJobManagerConfig canceled_sys 0
           (a_job JobStatusCancelled "Canceled by user" "" (Some 0%Z)));
    [apply canceled_reachable|reflexivity|by right].
Defined.

Lemma submit_outcomes_witness : length (queue (jm running_sys)) <= 100.
Proof.
  apply (submit_outcomes DefaultJobManagerConfig running_sys 0 [] "" "" None), running_reachable.
Defined.
