(* ===== verification/Registry.v ===== *)
(** * The provider registry (pkg/provider/registry.go) and the exec dispatch
      (pkg/orchestration/registry_exec.go)

    A provider is any type with the two queries the registry asks it: its
    metadata, and a health check that answers within the timeout or not. *)

From stdpp Require Import base list gmap strings.
From Stdlib Require Import ZArith Lia.
From S2P Require Import Prelude GoStrings ProviderTypes.

Record ProviderMetadata := {
  M_Name : string; M_Version : string; M_Type : string; M_Author : string;
  M_Description : string; M_Homepage : string; M_License : string;
  M_MinAPIVersion : string; M_MaxAPIVersion : string
}.

Record ProviderCapabilities := {
  SupportsSnapshots : bool; SupportsMigration : bool; SupportsLiveMigration : bool;
  SupportsCloning : bool; SupportsPause : bool; SupportsConsole : bool; SupportsVNC : bool;
  SupportsSerial : bool; SupportsGPUPassthrough : bool; SupportsUSBPassthrough : bool;
  SupportsPCIPassthrough : bool; SupportsNUMA : bool; SupportsBallooning : bool;
  NetworkTypes : list string; MaxNetworkInterfaces : Z; DiskTypes : list string; MaxDisks : Z;
  SupportsHotplugDisk : bool; SupportedArchitectures : list string; SupportsCrossArch : bool;
  MaxCPUs : Z; MaxMemoryMB : Z; PlatformFeatures : list (string * value)
}.

Record ProviderInfo := {
  PI_Name : string; PI_Type : string; PI_Version : string; PI_Author : string;
  PI_Description : string; PI_Available : bool; PI_Capabilities : ProviderCapabilities
}.

(** What the registry needs of a provider. [HealthCheck] is what arrives within
    [providerHealthTimeout]: nothing, a nil error, or an error. *)
Class IsProvider (P : Type) := {
  Metadata : P -> ProviderMetadata;
  Capabilities : P -> ProviderCapabilities;
  HealthCheck : P -> option (option error)
}.

(** The operations of a provider that act on instances, over the state [W] of
    the machine. *)
Class ProviderOps (P W : Type) := {
  CreateInstance : P -> W -> InstanceSpec -> W * result InstanceHandle;
  DeleteInstance : P -> W -> InstanceHandle -> bool -> W * option error;
  StartInstance : P -> W -> InstanceHandle -> W * option error;
  StopInstance : P -> W -> InstanceHandle -> StopOptions -> W * option error
}.

Section registry.
Context {P : Type} `{IsProvider P}.

Definition Registry := gmap string P.

Definition NewRegistry : Registry := ∅.

(** [None] for the nil interface. *)
Definition Register (r : Registry) (provider : option P) : Registry * option error :=
  match provider with
  | None => (r, Some (Errorf "provider cannot be nil" []))
  | Some p =>
      let name := M_Name (Metadata p) in
      if streq name "" then (r, Some (Errorf "provider name cannot be empty" []))
      else match r !! name with
           | Some _ => (r, Some (Errorf "provider %s already registered" [name]))
           | None => (<[name := p]> r, None)
           end
  end.

Definition Unregister (r : Registry) (name : string) : Registry * option error :=
  match r !! name with
  | None => (r, Some (Errorf "provider %s not found" [name]))
  | Some _ => (delete name r, None)
  end.

Definition Get (r : Registry) (name : string) : result P :=
  match r !! name with
  | None => Err (Errorf "provider %s not found" [name])
  | Some p => Ok p
  end.

Definition healthy (p : P) : bool :=
  match HealthCheck p with Some None => true | _ => false end.

Definition IsAvailable (r : Registry) (name : string) : bool :=
  match Get r name with Ok p => healthy p | Err _ => false end.

Definition info_of (p : P) : ProviderInfo :=
  {| PI_Name := M_Name (Metadata p); PI_Type := M_Type (Metadata p);
     PI_Version := M_Version (Metadata p); PI_Author := M_Author (Metadata p);
     PI_Description := M_Description (Metadata p); PI_Available := healthy p;
     PI_Capabilities := Capabilities p |}.

(** In the order the map is visited. *)
Definition List (r : Registry) : list ProviderInfo := map info_of (map_to_list r).*2.

(** ** Facts *)

(** A provider is stored under its own, non-empty, name. *)
Definition registry_wf (r : Registry) : Prop :=
  map_Forall (fun name p => name = M_Name (Metadata p) /\ name <> "") r.

Lemma registry_wf_new : registry_wf NewRegistry.
Proof. apply map_Forall_empty. Qed.

Lemma Register_wf r p : registry_wf r -> registry_wf (Register r p).1.
Proof.
  intros Hr. unfold Register. destruct p as [p|]; [|done].
  destruct (streq _ _) eqn:E; [done|]. destruct (r !! _) eqn:El; [done|]. simpl.
  apply map_Forall_insert; [done|]. apply streq_false in E. done.
Qed.

Lemma Unregister_wf r name : registry_wf r -> registry_wf (Unregister r name).1.
Proof.
  intros Hr. unfold Unregister. destruct (r !! name); [|done]. by apply map_Forall_delete.
Qed.

(** Registering never replaces: it succeeds exactly for a non-empty new name,
    and then only that name's lookup changes. *)
Lemma Register_spec r p :
  let name := M_Name (Metadata p) in
  ((Register r (Some p)).2 = None <-> name <> "" /\ r !! name = None) /\
  ((Register r (Some p)).2 = None -> (Register r (Some p)).1 = <[name := p]> r) /\
  ((Register r (Some p)).2 <> None -> (Register r (Some p)).1 = r).
Proof.
  simpl. unfold Register. destruct (streq _ _) eqn:E.
  - apply streq_true in E. naive_solver.
  - apply streq_false in E. destruct (r !! _); naive_solver.
Qed.

(** A provider is listed once, under the name it is stored at. *)
Lemma List_names r : registry_wf r -> map PI_Name (List r) ≡ₚ (map_to_list r).*1.
Proof.
  intros Hr. unfold List. rewrite map_map. simpl.
  assert (forall k v, (k, v) ∈ map_to_list r -> M_Name (Metadata v) = k) as Hk.
  { intros k v Hkv%elem_of_map_to_list. symmetry. by apply (Hr k v). }
  revert Hk. generalize (map_to_list r) as l. intros l Hk.
  induction l as [|[k v] l IH]; simpl; [done|].
  rewrite (Hk k v) by left. constructor. apply IH. intros k' v' H'. apply Hk. by right.
Qed.
End registry.

(** ** [registryExecProvider] *)

(** A provider that may offer [ExecCommand]: the type assertion
    [prov.(provider.ExecProvider)] is the option. *)
Class MayExec (P W : Type) := {
  ExecProvider : P -> option (W -> InstanceHandle -> ExecOptions -> W * (option ExecResult * option error))
}.

Section exec.
Context {P W : Type} `{IsProvider P, MayExec P W}.

(** [None] for a dispatcher without a registry. *)
Definition execFor (registry : option (Registry (P := P))) (handle : InstanceHandle)
    : result (W -> InstanceHandle -> ExecOptions -> W * (option ExecResult * option error)) :=
  match registry with
  | None => Err (Errorf "no provider registry to reach instance %s" [Handle_ID handle])
  | Some r =>
      match Get r (Handle_Provider handle) with
      | Err e => Err (Wrapf "provider %s is not available: %w" [Handle_Provider handle] e)
      | Ok prov =>
          match ExecProvider (W := W) prov with
          | None => Err (Errorf "provider %s cannot run a command inside an instance" [Handle_Provider handle])
          | Some exec => Ok exec
          end
      end
  end.

Definition ExecCommand (registry : option (Registry (P := P))) (w : W) (handle : InstanceHandle)
    (opts : ExecOptions) : W * (option ExecResult * option error) :=
  match execFor registry handle with
  | Err e => (w, (None, Some e))
  | Ok exec => exec w handle opts
  end.

(** A command reaches the provider the handle names, and no other. *)
Lemma ExecCommand_dispatch r w handle opts p exec :
  r !! Handle_Provider handle = Some p -> ExecProvider p = Some exec ->
  ExecCommand (Some r) w handle opts = exec w handle opts.
Proof. intros Hr He. unfold ExecCommand, execFor, Get. by rewrite Hr, He. Qed.

(** When it cannot be reached nothing runs. *)
Lemma ExecCommand_unreachable registry w handle opts e :
  execFor registry handle = Err e -> ExecCommand registry w handle opts = (w, (None, Some e)).
Proof. intros He. unfold ExecCommand. by rewrite He. Qed.
End exec.
