(* ===== verification/Discovery.v ===== *)
(** * Service discovery (pkg/orchestration/discovery.go)

    The registry owns the records it holds (it copies them in and out), so it
    is a map of values.  [ListServices] takes the services in the order the Go map
    was visited; its result does not depend on that order. *)

From stdpp Require Import base list gmap strings pretty sorting.
From Stdlib Require Import Ascii ZArith Lia.
From S2P Require Import Prelude GoStrings Regexp ProviderTypes Validation ValidationFacts.

Local Open Scope Z_scope.

(** [HealthStatus] of health.go; [HealthNone] is the empty string and [HealthOther] any other value a database may hold. *)
Inductive HealthStatus :=
  | HealthNone
  | HealthOther (s : string)
  | HealthStatusHealthy | HealthStatusUnhealthy | HealthStatusStarting | HealthStatusUnknown.

#[export] Instance HealthStatus_eq_dec : EqDecision HealthStatus.
Proof. solve_decision. Defined.

Record ServicePort := { Port : Z; Protocol : string; Port_Name : string }.

Record ServiceInfo := {
  Svc_Name : string;
  Svc_StackName : string;
  Addresses : list string;
  Ports : list ServicePort;
  Svc_Status : string;
  Health : HealthStatus;
  Svc_Labels : option (gmap string string)
}.

(** ** The registry *)

Notation ServiceRegistry := (gmap string ServiceInfo).

Definition NewServiceRegistry : ServiceRegistry := ∅.

Definition serviceKey (stackName serviceName : string) : string :=
  if streq stackName "" then serviceName else stackName +:+ ("/" +:+ serviceName).

Definition RegisterService (sr : ServiceRegistry) (info : ServiceInfo) : ServiceRegistry :=
  <[serviceKey (Svc_StackName info) (Svc_Name info) := info]> sr.

Definition UnregisterService (sr : ServiceRegistry) (stackName serviceName : string) : ServiceRegistry :=
  delete (serviceKey stackName serviceName) sr.

Definition GetService (sr : ServiceRegistry) (stackName serviceName : string) : option ServiceInfo :=
  sr !! serviceKey stackName serviceName.

Definition set_health (h : HealthStatus) (svc : ServiceInfo) : ServiceInfo :=
  {| Svc_Name := Svc_Name svc; Svc_StackName := Svc_StackName svc; Addresses := Addresses svc;
     Ports := Ports svc; Svc_Status := Svc_Status svc; Health := h; Svc_Labels := Svc_Labels svc |}.

Definition set_svc_status (st : string) (svc : ServiceInfo) : ServiceInfo :=
  {| Svc_Name := Svc_Name svc; Svc_StackName := Svc_StackName svc; Addresses := Addresses svc;
     Ports := Ports svc; Svc_Status := st; Health := Health svc; Svc_Labels := Svc_Labels svc |}.

Definition UpdateHealth (sr : ServiceRegistry) (stackName serviceName : string) (health : HealthStatus)
    : ServiceRegistry := alter (set_health health) (serviceKey stackName serviceName) sr.

Definition UpdateStatus (sr : ServiceRegistry) (stackName serviceName status : string)
    : ServiceRegistry := alter (set_svc_status status) (serviceKey stackName serviceName) sr.

(** What the comparison of [List] looks at: the stack name, then the name. *)
Definition svc_key (svc : ServiceInfo) : string * string := (Svc_StackName svc, Svc_Name svc).

(** [List], with the services in the order [range] visits them. *)
Definition ListServices (range : list ServiceInfo) (stackName : string) : list ServiceInfo :=
  sort_by svc_key pair_le
    (List.filter (fun svc => streq stackName "" || streq (Svc_StackName svc) stackName) range).

(** ** Resolving names *)

Definition parseServiceName (name : string) : string * string :=
  match Cut name "/" with
  | Some (stack, svc) => (stack, svc)
  | None =>
      match CutLast name "." with
      | Some (svc, stack) => (stack, svc)
      | None => ("", name)
      end
  end.

Definition Resolve (sr : ServiceRegistry) (name : string) : result (list string) :=
  let '(stackName, serviceName) := parseServiceName name in
  match GetService sr stackName serviceName with
  | None => Err (Errorf "service not found: %s" [name])
  | Some info =>
      match Addresses info with
      | [] => Err (Errorf "service has no addresses: %s" [name])
      | _ => Ok (Addresses info)
      end
  end.

(** [net.JoinHostPort]. *)
Definition JoinHostPort (host port : string) : string :=
  if Contains host ":" then "[" +:+ (host +:+ ("]:" +:+ port)) else host +:+ (":" +:+ port).

(** The port loop of [ResolveWithPort]; [i] is the index. *)
Fixpoint find_port (portName : string) (i : nat) (ports : list ServicePort) : option ServicePort :=
  match ports with
  | [] => None
  | p :: ps =>
      if streq (Port_Name p) portName || (streq portName "" && bool_decide (i = 0%nat))
      then Some p else find_port portName (S i) ps
  end.

Definition ResolveWithPort (sr : ServiceRegistry) (name portName : string) : result (list string) :=
  let '(stackName, serviceName) := parseServiceName name in
  match GetService sr stackName serviceName with
  | None => Err (Errorf "service not found: %s" [name])
  | Some info =>
      match find_port portName 0 (Ports info) with
      | None => Err (Errorf "port not found: %s" [portName])
      | Some port => Ok (map (fun addr => JoinHostPort addr (pretty (Port port))) (Addresses info))
      end
  end.

(** ** Environment variables *)

(** What one rune contributes to a sanitized name. *)
Definition sanitize_rune (c : Z) : list ascii :=
  if (65 <=? c) && (c <=? 90) then [ascii_of_N (Z.to_N c)]
  else if (97 <=? c) && (c <=? 122) then [ascii_of_N (Z.to_N (c - 32))]
  else if (48 <=? c) && (c <=? 57) then [ascii_of_N (Z.to_N c)]
  else if (c =? 45) || (c =? 95) || (c =? 46) then ["_"%char]
  else [].

Definition sanitizeEnvName (name : string) : string :=
  let result := flat_map sanitize_rune (runes name) in
  of_bytes (match result with
            | [] => ["_"%char]
            | c :: _ => if between "0" "9" c then "_"%char :: result else result
            end).

(** The variables one service contributes. *)
Definition named_port_env (prefix : string) (env : gmap string string) (p : ServicePort) : gmap string string :=
  if streq (Port_Name p) "" then env
  else <[prefix +:+ ("_" +:+ (sanitizeEnvName (Port_Name p) +:+ "_PORT")) := pretty (Port p)]> env.

Definition service_env (stackName : string) (env : gmap string string) (svc : ServiceInfo) : gmap string string :=
  let prefix := sanitizeEnvName (Svc_Name svc) in
  let prefix := if negb (streq (Svc_StackName svc) "") && negb (streq (Svc_StackName svc) stackName)
                then sanitizeEnvName (Svc_StackName svc) +:+ ("_" +:+ prefix) else prefix in
  let env := match Addresses svc with
             | [] => env
             | addr :: _ => <[prefix +:+ "_HOST" := addr]> env
             end in
  match Ports svc with
  | [] => env
  | port :: _ =>
      let env := <[prefix +:+ "_PORT" := pretty (Port port)]> env in
      let env := match Addresses svc with
                 | [] => env
                 | addr :: _ => <[prefix +:+ "_ADDR" := JoinHostPort addr (pretty (Port port))]> env
                 end in
      foldl (named_port_env prefix) env (Ports svc)
  end.

Definition BuildEnv (range : list ServiceInfo) (stackName : string) : gmap string string :=
  foldl (service_env stackName) ∅ (ListServices range stackName).

(** ** Keys *)

Lemma serviceKey_inj st n st' n' :
  "/"%char ∉ bytes st -> "/"%char ∉ bytes st' -> "/"%char ∉ bytes n -> "/"%char ∉ bytes n' ->
  serviceKey st n = serviceKey st' n' -> st = st' /\ n = n'.
Proof.
  intros H1 H2 H3 H4. unfold serviceKey.
  assert (forall a b c, "/"%char ∉ bytes c -> a +:+ ("/" +:+ b) = c -> False) as Hno.
  { intros a b c Hc <-. apply Hc. rewrite bytes_app. apply elem_of_app. right. simpl. left. }
  destruct (streq st "") eqn:E, (streq st' "") eqn:E'; rewrite ?streq_true in *.
  - subst. done.
  - intros ->. exfalso. by eapply (Hno _ _ _ H3).
  - intros <-. exfalso. by eapply (Hno _ _ _ H4).
  - intros H. assert (Cut (st +:+ ("/" +:+ n)) "/" = Some (st, n)) as C1 by (by apply Cut_Some).
    assert (Cut (st' +:+ ("/" +:+ n')) "/" = Some (st', n')) as C2 by (by apply Cut_Some).
    rewrite H in C1. rewrite C1 in C2. by simplify_eq.
Qed.

(** The names a manifest or the API admits for instances. *)
Definition plain_name (s : string) : Prop := ValidateInstanceName s = None.

Lemma plain_name_chars s : plain_name s -> s <> "" /\ "/"%char ∉ bytes s /\ "."%char ∉ bytes s.
Proof.
  unfold plain_name. rewrite ValidateInstanceName_shape. intros H.
  assert (Forall (fun c => plain_char c = true) (bytes s)) as Ha.
  { eapply shaped_all; [| |exact H]; [|done]. intros c. unfold plain_char. intros ->. done. }
  split_and!; [by eapply shaped_nonempty|by eapply (no_char plain_char)..].
Qed.

(** ** The registry as a map from stack and service names *)

Inductive svc_op :=
  | OpRegister (info : ServiceInfo)
  | OpUnregister (stackName serviceName : string)
  | OpHealth (stackName serviceName : string) (h : HealthStatus)
  | OpStatus (stackName serviceName status : string).

Definition run_op (sr : ServiceRegistry) (o : svc_op) : ServiceRegistry :=
  match o with
  | OpRegister info => RegisterService sr info
  | OpUnregister st n => UnregisterService sr st n
  | OpHealth st n h => UpdateHealth sr st n h
  | OpStatus st n s => UpdateStatus sr st n s
  end.

(** What the operations mean. *)
Definition spec_op (m : gmap (string * string) ServiceInfo) (o : svc_op) : gmap (string * string) ServiceInfo :=
  match o with
  | OpRegister info => <[svc_key info := info]> m
  | OpUnregister st n => delete (st, n) m
  | OpHealth st n h => alter (set_health h) (st, n) m
  | OpStatus st n s => alter (set_svc_status s) (st, n) m
  end.

Definition slash_free (p : string * string) : Prop := "/"%char ∉ bytes p.1 /\ "/"%char ∉ bytes p.2.

Definition op_names (o : svc_op) : string * string :=
  match o with
  | OpRegister info => svc_key info
  | OpUnregister st n | OpHealth st n _ | OpStatus st n _ => (st, n)
  end.

Definition agree (sr : ServiceRegistry) (m : gmap (string * string) ServiceInfo) : Prop :=
  forall st n, slash_free (st, n) -> GetService sr st n = m !! (st, n).

Lemma serviceKey_ne p q : slash_free p -> slash_free q -> p <> q ->
  serviceKey p.1 p.2 <> serviceKey q.1 q.2.
Proof.
  destruct p as [a b], q as [c d]. intros [H1 H2] [H3 H4] Hne He. simpl in *.
  apply serviceKey_inj in He as [-> ->]; done.
Qed.

Lemma run_op_agree sr m o : slash_free (op_names o) -> agree sr m -> agree (run_op sr o) (spec_op m o).
Proof.
  intros Ho Hag st n Hs. specialize (Hag st n Hs). unfold GetService in *.
  destruct (decide ((st, n) = op_names o)) as [E|E].
  - destruct o; simpl in *; simplify_eq; unfold RegisterService, UnregisterService, UpdateHealth, UpdateStatus.
    + unfold svc_key in *. simplify_eq/=.
      by rewrite !lookup_insert_eq.
    + by rewrite !lookup_delete_eq.
    + rewrite !lookup_alter_eq. by rewrite Hag.
    + rewrite !lookup_alter_eq. by rewrite Hag.
  - pose proof (serviceKey_ne _ _ Ho Hs (not_eq_sym E)) as Hk. simpl in Hk.
    destruct o; simpl in *; unfold RegisterService, UnregisterService, UpdateHealth, UpdateStatus.
    + rewrite !lookup_insert_ne; auto.
    + rewrite !lookup_delete_ne; auto.
    + rewrite !lookup_alter_ne; auto.
    + rewrite !lookup_alter_ne; auto.
Qed.

(** The service registry implements a finite map from (stack, service) to
    the service's record: whatever operations are run on it, with names without
    a slash, [Get] answers what that map holds, so services of different stacks
    never answer for one another. *)
Theorem registry_refines_map (ops : list svc_op) (st n : string) :
  Forall (fun o => slash_free (op_names o)) ops -> slash_free (st, n) ->
  GetService (foldl run_op NewServiceRegistry ops) st n = foldl spec_op ∅ ops !! (st, n).
Proof.
  intros Hops. enough (forall sr m, agree sr m -> agree (foldl run_op sr ops) (foldl spec_op m ops)) as H.
  { apply H. intros st' n' _. unfold GetService, NewServiceRegistry. by rewrite !lookup_empty. }
  induction Hops as [|o ops Ho Hops IH]; simpl; intros sr m Hag; [done|].
  apply IH. by apply run_op_agree.
Qed.

Lemma registry_refines_map_witness :
  GetService (foldl run_op NewServiceRegistry [OpUnregister "shop" "web"]) "shop" "web" = None.
Proof.
  apply (registry_refines_map [OpUnregister "shop" "web"] "shop" "web").
  - constructor; [split; apply ascii_in_false; reflexivity|constructor].
  - split; apply ascii_in_false; reflexivity.
Defined.

(** ** Names and resolution *)

Lemma parse_key st n : plain_name st -> plain_name n -> parseServiceName (serviceKey st n) = (st, n).
Proof.
  intros (Hst & Hs & _)%plain_name_chars (_ & Hn & _)%plain_name_chars.
  unfold parseServiceName, serviceKey. rewrite (proj2 (streq_false st "")) by done.
  change ("/" +:+ n) with (String "/" n). by rewrite (proj2 (Cut_Some _ _ st n)).
Qed.

Lemma parse_dotted st n : plain_name st -> plain_name n ->
  parseServiceName (n +:+ ("." +:+ st)) = (st, n).
Proof.
  intros (_ & Hs & Hd)%plain_name_chars (_ & Hn & _)%plain_name_chars. unfold parseServiceName.
  rewrite (proj2 (Cut_None _ _)).
  - change ("." +:+ st) with (String "." st). by rewrite (proj2 (CutLast_Some _ _ n st)).
  - rewrite !bytes_app, !elem_of_app. simpl. set_solver.
Qed.

Lemma parse_bare n : plain_name n -> parseServiceName n = ("", n).
Proof.
  intros (_ & Hn & Hd)%plain_name_chars. unfold parseServiceName.
  rewrite (proj2 (Cut_None _ _)) by done.
  destruct (CutLast n ".") as [[a b]|] eqn:E; [|done].
  apply CutLast_Some in E as [-> _]. exfalso. apply Hd. rewrite bytes_app. simpl. set_solver.
Qed.

(** A service registered under accepted names resolves, in both documented
    forms, [stack/service] and [service.stack], to the addresses it was
    registered with; parsing a name undoes building it. *)
Theorem registered_service_resolves (sr : ServiceRegistry) (info : ServiceInfo) :
  let st := Svc_StackName info in
  let n := Svc_Name info in
  plain_name st -> plain_name n -> Addresses info <> [] ->
  parseServiceName (serviceKey st n) = (st, n) /\ parseServiceName n = ("", n) /\
  Resolve (RegisterService sr info) (st +:+ ("/" +:+ n)) = Ok (Addresses info) /\
  Resolve (RegisterService sr info) (n +:+ ("." +:+ st)) = Ok (Addresses info).
Proof.
  intros st n Hst Hn Ha. pose proof (parse_key st n Hst Hn) as Hp.
  assert (serviceKey st n = st +:+ ("/" +:+ n)) as Hk.
  { unfold serviceKey. rewrite (proj2 (streq_false st "")); [done|]. by apply plain_name_chars. }
  assert (forall name, parseServiceName name = (st, n) ->
            Resolve (RegisterService sr info) name = Ok (Addresses info)) as Hr.
  { intros name E. unfold Resolve. rewrite E. unfold GetService, RegisterService.
    rewrite lookup_insert_eq. by destruct (Addresses info). }
  split_and!; [done|by apply parse_bare|apply Hr; by rewrite <- Hk|by apply Hr, parse_dotted].
Qed.

Definition web_service : ServiceInfo :=
  {| Svc_Name := "web"; Svc_StackName := "shop"; Addresses := ["10.0.0.5"];
     Ports := [{| Port := 8080; Protocol := "tcp"; Port_Name := "http" |}];
     Svc_Status := "running"; Health := HealthNone; Svc_Labels := None |}.

Lemma registered_service_resolves_witness :
  Resolve (RegisterService ∅ web_service) "web.shop" = Ok ["10.0.0.5"].
Proof.
  apply (registered_service_resolves ∅ web_service); [vm_compute; reflexivity..|done].
Defined.

(** ** Listing *)

(** Every record is stored under its own key. *)
Definition registry_wf (sr : ServiceRegistry) : Prop :=
  map_Forall (fun k svc => k = serviceKey (Svc_StackName svc) (Svc_Name svc)) sr.

Lemma run_op_wf sr o : registry_wf sr -> registry_wf (run_op sr o).
Proof.
  intros Hw. destruct o; simpl.
  - by apply map_Forall_insert_2.
  - by apply map_Forall_delete.
  - intros k svc. unfold UpdateHealth. rewrite lookup_alter_Some.
    intros [(<- & svc' & Hl & ->)|[_ Hl]]; by apply (Hw _ _ Hl).
  - intros k svc. unfold UpdateStatus. rewrite lookup_alter_Some.
    intros [(<- & svc' & Hl & ->)|[_ Hl]]; by apply (Hw _ _ Hl).
Qed.

Lemma ops_wf ops : registry_wf (foldl run_op NewServiceRegistry ops).
Proof.
  assert (registry_wf NewServiceRegistry) as H0 by apply map_Forall_empty. revert H0.
  generalize NewServiceRegistry. induction ops as [|o os IH]; simpl; intros r Hr; [done|].
  apply IH. by apply run_op_wf.
Qed.

Lemma wf_distinct sr range :
  registry_wf sr -> range ≡ₚ (map_to_list sr).*2 -> NoDup (map svc_key range).
Proof.
  intros Hw Hp. rewrite Hp. clear range Hp.
  assert (forall k svc, (k, svc) ∈ map_to_list sr -> k = serviceKey (Svc_StackName svc) (Svc_Name svc)) as Hk
    by (intros k svc H%elem_of_map_to_list; by apply (Hw k svc)).
  pose proof (NoDup_fst_map_to_list sr) as Hnd. revert Hk Hnd. generalize (map_to_list sr) as l.
  intros l Hk. induction l as [|[k svc] l IH]; simpl; [constructor|].
  rewrite !NoDup_cons. intros [Hn Hnd]. split.
  - intros (svc' & E & ([k' ?] & -> & Hin)%list_elem_of_fmap)%list_elem_of_fmap. apply Hn.
    simpl in *. apply list_elem_of_fmap. eexists. split; [|exact Hin]. simpl.
    rewrite (Hk k svc), (Hk k' _) by (by left || by right). unfold svc_key in E. simpl in E.
    injection E as -> ->. done.
  - apply IH; [|done]. intros k' svc' H'. apply Hk. by right.
Qed.

(** [List] returns exactly the services of the stack (of all stacks for the
    empty name), sorted by stack and name, and the result, like the environment
    built from it, is the same whatever order the map is visited in, and
    whatever sorting algorithm [sort.Slice] uses. *)
Theorem list_is_deterministic (ops : list svc_op) (range1 range2 : list ServiceInfo) (stackName : string) :
  let sr := foldl run_op NewServiceRegistry ops in
  range1 ≡ₚ (map_to_list sr).*2 -> range2 ≡ₚ (map_to_list sr).*2 ->
  ListServices range1 stackName = ListServices range2 stackName /\
  BuildEnv range1 stackName = BuildEnv range2 stackName /\
  (forall svc, svc ∈ ListServices range1 stackName <->
     sr !! serviceKey (Svc_StackName svc) (Svc_Name svc) = Some svc /\
     (stackName = "" \/ Svc_StackName svc = stackName)) /\
  (forall l, l ≡ₚ ListServices range1 stackName -> StronglySorted (by_key svc_key pair_le) l ->
     l = ListServices range1 stackName).
Proof.
  intros sr H1 H2.
  pose proof (ops_wf ops) as Hw. fold sr in Hw.
  pose proof (wf_distinct sr range1 Hw H1) as Hd.
  assert (ListServices range1 stackName = ListServices range2 stackName) as He.
  { apply (sorted_by_unique svc_key pair_le); try (apply sort_by_sorted; apply _).
    - unfold ListServices. rewrite sort_by_perm. by apply NoDup_map_filter.
    - unfold ListServices. rewrite !sort_by_perm. apply filter_perm. by rewrite H1, H2. }
  split_and!; [done|unfold BuildEnv; by rewrite He| |].
  - intros svc. unfold ListServices. rewrite sort_by_perm, list_elem_of_In, filter_In, <- list_elem_of_In.
    rewrite H1, orb_true_iff, !streq_true. apply and_iff_compat_r. split.
    + intros ([k v] & -> & Hin%elem_of_map_to_list)%list_elem_of_fmap. simpl.
      by rewrite <- (Hw _ _ Hin).
    + intros Hl%elem_of_map_to_list. apply list_elem_of_fmap. by eexists (_, _).
  - intros l Hp Hs. symmetry. apply (sorted_by_unique svc_key pair_le); [|done|apply sort_by_sorted; apply _|done].
    unfold ListServices. rewrite sort_by_perm. by apply NoDup_map_filter.
Qed.

Lemma list_is_deterministic_witness :
  ListServices [web_service] "shop" = ListServices [web_service] "shop".
Proof.
  refine (proj1 (list_is_deterministic [OpRegister web_service] [web_service] [web_service] "shop" _ _));
    vm_compute; reflexivity.
Defined.

(** ** Variable names *)

Definition env_char (c : ascii) : bool := between "A" "Z" c || is_digit c || Ascii.eqb "_" c.
Definition env_head (c : ascii) : bool := between "A" "Z" c || Ascii.eqb "_" c.

(** An upper-case variable name. *)
Definition env_name (s : string) : Prop :=
  exists c t, bytes s = c :: t /\ env_head c = true /\ Forall (fun d => env_char d = true) t.

Lemma env_head_char c : env_head c = true -> env_char c = true.
Proof. unfold env_head, env_char. destruct (between "A" "Z" c), (is_digit c); simpl; try done. Qed.

Lemma sanitize_rune_chars r : Forall (fun c => env_char c = true) (sanitize_rune r).
Proof.
  assert (forall lo hi, 0 <= lo -> hi < 256 -> forall c, lo <= c <= hi ->
    code (ascii_of_N (Z.to_N c)) = c) as Hc.
  { intros lo hi H0 H1 c H2. unfold code. rewrite N_ascii_embedding; lia. }
  unfold sanitize_rune, env_char, between, is_digit.
  destruct ((65 <=? r) && (r <=? 90)) eqn:E1.
  { apply andb_true_iff in E1 as [?%Z.leb_le ?%Z.leb_le]. constructor; [|constructor].
    unfold between. rewrite (Hc 65 90) by lia. apply orb_true_iff. left. apply orb_true_iff. left.
    apply andb_true_iff. split; apply Z.leb_le; [change (code "A") with 65|change (code "Z") with 90]; lia. }
  destruct ((97 <=? r) && (r <=? 122)) eqn:E2.
  { apply andb_true_iff in E2 as [?%Z.leb_le ?%Z.leb_le]. constructor; [|constructor].
    unfold between. rewrite (Hc 65 90) by lia. apply orb_true_iff. left. apply orb_true_iff. left.
    apply andb_true_iff. split; apply Z.leb_le; [change (code "A") with 65|change (code "Z") with 90]; lia. }
  destruct ((48 <=? r) && (r <=? 57)) eqn:E3.
  { apply andb_true_iff in E3 as [?%Z.leb_le ?%Z.leb_le]. constructor; [|constructor].
    unfold between. rewrite (Hc 48 57) by lia. apply orb_true_iff. left. apply orb_true_iff. right.
    apply andb_true_iff. split; apply Z.leb_le; [change (code "0") with 48|change (code "9") with 57]; lia. }
  destruct (_ || _); repeat constructor.
Qed.

Lemma sanitizeEnvName_env_name name : env_name (sanitizeEnvName name).
Proof.
  unfold sanitizeEnvName, env_name.
  assert (Forall (fun c => env_char c = true) (flat_map sanitize_rune (runes name))) as H.
  { induction (runes name) as [|r rs IH]; simpl; [constructor|].
    apply Forall_app. split; [apply sanitize_rune_chars|done]. }
  rewrite bytes_of_bytes. destruct (flat_map _ _) as [|c l]; [by exists "_"%char, []|].
  apply Forall_cons in H as [Hc Hl]. destruct (between "0" "9" c) eqn:E.
  - exists "_"%char, (c :: l). split_and!; [done|done|by constructor].
  - exists c, l. split_and!; [done| |done]. unfold env_char, is_digit in Hc. unfold env_head.
    rewrite E, orb_false_r in Hc. done.
Qed.

Lemma env_name_app s t : env_name s -> Forall (fun d => env_char d = true) (bytes t) -> env_name (s +:+ t).
Proof.
  intros (c & l & E & Hc & Hl) Ht. exists c, (l ++ bytes t). rewrite bytes_app, E.
  split_and!; [done|done|by apply Forall_app].
Qed.

Lemma env_name_chars s : env_name s -> Forall (fun d => env_char d = true) (bytes s).
Proof. intros (c & l & -> & Hc & Hl). constructor; [by apply env_head_char|done]. Qed.

Definition env_suffixes : list string := ["_HOST"; "_PORT"; "_ADDR"].

(** A generated variable: a sanitized prefix and one of the three suffixes. *)
Definition generated (k : string) : Prop :=
  exists p suf, env_name p /\ suf ∈ env_suffixes /\ k = p +:+ suf.

(** The last five bytes, which no forbidden variable shares with a suffix. *)
Definition last_five (s : string) : list ascii := take 5 (rev (bytes s)).

Lemma last_five_app p suf : suf ∈ env_suffixes -> last_five (p +:+ suf) = rev (bytes suf).
Proof.
  intros H. unfold last_five. rewrite bytes_app, rev_app_distr.
  assert (length (rev (bytes suf)) = 5%nat) as Hl.
  { unfold env_suffixes in H. repeat (apply elem_of_cons in H as [->|H]; [done|]). by apply elem_of_nil in H. }
  rewrite take_app_le by lia. apply take_ge. lia.
Qed.

Lemma env_name_upper s : env_name s -> ToUpper s = s.
Proof.
  intros H%env_name_chars. unfold ToUpper. rewrite <- (of_bytes_bytes s) at 2. f_equal.
  induction H as [|c l Hc Hl IH]; simpl; [done|]. f_equal; [|done].
  apply Ascii.eqb_eq. revert c Hc.
  by apply (ascii_implies env_char (fun c => Ascii.eqb (upper_byte c) c)).
Qed.

Lemma suffix_chars suf : suf ∈ env_suffixes -> Forall (fun d => env_char d = true) (bytes suf).
Proof.
  intros Hs. unfold env_suffixes in Hs.
  repeat (apply elem_of_cons in Hs as [->|Hs]; [repeat constructor|]). by apply elem_of_nil in Hs.
Qed.

Lemma generated_env_name k : generated k -> env_name k.
Proof.
  intros (p & suf & Hp & Hs & ->). apply env_name_app; [done|by apply suffix_chars].
Qed.

Lemma generated_accepted k : generated k -> ValidateEnvVar k "" = None.
Proof.
  intros Hg. pose proof (generated_env_name k Hg) as Hn. unfold ValidateEnvVar. accepted.
  split_and!; try done.
  - intros ->. by destruct Hn as (c & t & E & _).
  - unfold ValidEnvKeyRegex. apply match_head_star. destruct Hn as (c & t & E & Hc & Ht).
    exists c, t. split_and!; [done| |eapply Forall_impl; [exact Ht|]].
    + by apply (ascii_implies env_head (fun c => alpha c || one_of "_" c)).
    + by apply (ascii_implies env_char (fun c => alnum c || one_of "_" c)).
  - apply existsb_false_iff, Forall_forall. intros v Hv. rewrite (env_name_upper k Hn).
    apply streq_false. intros ->. destruct Hg as (p & suf & _ & Hs & E).
    assert (last_five v = rev (bytes suf)) as Hl by (rewrite E; by apply last_five_app).
    revert Hl. unfold env_suffixes in Hs. unfold dangerousVars in Hv.
    repeat (apply elem_of_cons in Hs as [->|Hs];
      [repeat (apply elem_of_cons in Hv as [->|Hv]; [done|]); by apply elem_of_nil in Hv|]).
    by apply elem_of_nil in Hs.
Qed.

Lemma env_name_join p q : env_name p -> env_name q -> env_name (p +:+ ("_" +:+ q)).
Proof.
  intros Hp Hq%env_name_chars. apply env_name_app; [done|]. rewrite bytes_app. by constructor.
Qed.

(** Every key of [env] is a generated variable. *)
Definition all_generated (env : gmap string string) : Prop := map_Forall (fun k _ => generated k) env.

Lemma all_generated_insert env p suf v :
  env_name p -> suf ∈ env_suffixes -> all_generated env -> all_generated (<[p +:+ suf := v]> env).
Proof. intros Hp Hs He. apply map_Forall_insert_2; [|done]. by exists p, suf. Qed.

Lemma named_port_generated p env port :
  env_name p -> all_generated env -> all_generated (named_port_env p env port).
Proof.
  intros Hp He. unfold named_port_env. destruct (streq _ _); [done|].
  apply map_Forall_insert_2; [|done].
  exists (p +:+ ("_" +:+ sanitizeEnvName (Port_Name port))), "_PORT". split_and!.
  - apply env_name_join; [done|apply sanitizeEnvName_env_name].
  - unfold env_suffixes. set_solver.
  - apply (inj bytes). by rewrite !bytes_app, <- !app_assoc.
Qed.

Lemma service_env_generated stackName env svc :
  all_generated env -> all_generated (service_env stackName env svc).
Proof.
  intros He. unfold service_env.
  set (prefix := if negb _ && negb _ then _ else _).
  assert (env_name prefix) as Hp.
  { unfold prefix. case_match; [apply env_name_join|]; apply sanitizeEnvName_env_name. }
  assert ("_HOST" ∈ env_suffixes /\ "_PORT" ∈ env_suffixes /\ "_ADDR" ∈ env_suffixes) as (Sh & Sp & Sa)
    by (unfold env_suffixes; set_solver).
  assert (forall ports env', all_generated env' ->
            all_generated (foldl (named_port_env prefix) env' ports)) as Hf.
  { induction ports as [|q qs IH]; simpl; intros env' H'; [done|]. by apply IH, named_port_generated. }
  destruct (Addresses svc), (Ports svc) as [|port ports]; [done|apply Hf|by apply all_generated_insert|apply Hf];
    auto using all_generated_insert.
Qed.

(** Every variable [BuildEnv] generates, whatever bytes the services, stacks
    and ports are named with, has a name [ValidateEnvVar] accepts: a POSIX
    variable name, and none of the variables forbidden for security reasons. *)
Theorem generated_env_is_accepted (range : list ServiceInfo) (stackName k v : string) :
  BuildEnv range stackName !! k = Some v -> ValidateEnvVar k "" = None.
Proof.
  intros Hk. apply generated_accepted.
  enough (all_generated (BuildEnv range stackName)) as H by (by apply (H k v)).
  unfold BuildEnv. assert (all_generated ∅) as H0 by apply map_Forall_empty. revert H0.
  generalize (∅ : gmap string string). induction (ListServices range stackName) as [|svc l IH];
    simpl; intros env He; [done|]. by apply IH, service_env_generated.
Qed.

Lemma generated_env_is_accepted_witness : ValidateEnvVar "SHOP_WEB_HTTP_PORT" "" = None.
Proof.
  apply (generated_env_is_accepted [web_service] "" _ "8080"). vm_compute. reflexivity.
Defined.
