(* ===== verification/Health.v ===== *)
(** * Health checks and automatic restart (pkg/orchestration/health.go)

    The checker's maps and its transition queue are one state, each region run
    under [hc.mu] or [hc.notifyMu] one function on it.  Stop channels are
    numbered, with a record of the ones closed, so that closing one twice,
    which panics, shows as [None].  A boolean result says whether the caller
    starts the goroutine that drains the queue. *)

From stdpp Require Import base list gmap strings pretty.
From Stdlib Require Import ZArith Lia.
From S2P Require Import Prelude GoStrings GoTime ProviderTypes Registry Discovery.

Local Open Scope Z_scope.

Definition defaultHealthCheckInterval : Z := 30 * Second.
Definition defaultHealthCheckTimeout : Z := 10 * Second.
Definition maxPendingNotifications : nat := 1024.
Definition defaultHealthRetries : Z := 3.

Record HealthCheckConfig := {
  Command : list string;
  Interval : Z;
  Timeout : Z;
  Retries : Z;
  StartPeriod : Z
}.

Record HealthCheckResult := {
  HR_InstanceID : string;
  HR_Status : HealthStatus;
  HR_Message : string;
  CheckedAt : Z;
  Duration : Z;
  HR_ExitCode : Z
}.

(** A queued delivery: the callbacks it will call, and the transition. *)
Record delivery := {
  to_call : list nat;
  instance : string;
  from_status : HealthStatus;
  to_status : HealthStatus
}.

(** Callbacks are numbered. *)
Record HealthChecker := {
  configs : gmap string HealthCheckConfig;
  results : gmap string HealthCheckResult;
  failCounts : gmap string Z;
  stopChans : gmap string nat;
  closed : gset nat;
  next_chan : nat;
  callbacks : list nat;
  notifyQueue : list delivery;
  notifyBusy : bool
}.

Definition NewHealthChecker : HealthChecker :=
  {| configs := ∅; results := ∅; failCounts := ∅; stopChans := ∅; closed := ∅; next_chan := 0;
     callbacks := []; notifyQueue := []; notifyBusy := false |}.

Definition OnHealthChange (hc : HealthChecker) (cb : nat) : HealthChecker :=
  {| configs := configs hc; results := results hc; failCounts := failCounts hc;
     stopChans := stopChans hc; closed := closed hc; next_chan := next_chan hc;
     callbacks := callbacks hc ++ [cb]; notifyQueue := notifyQueue hc; notifyBusy := notifyBusy hc |}.

Definition with_data (hc : HealthChecker) (cs : gmap string HealthCheckConfig)
    (rs : gmap string HealthCheckResult) (fs : gmap string Z) : HealthChecker :=
  {| configs := cs; results := rs; failCounts := fs;
     stopChans := stopChans hc; closed := closed hc; next_chan := next_chan hc;
     callbacks := callbacks hc; notifyQueue := notifyQueue hc; notifyBusy := notifyBusy hc |}.

Definition with_chans (hc : HealthChecker) (sc : gmap string nat) (cl : gset nat) (n : nat) : HealthChecker :=
  {| configs := configs hc; results := results hc; failCounts := failCounts hc;
     stopChans := sc; closed := cl; next_chan := n;
     callbacks := callbacks hc; notifyQueue := notifyQueue hc; notifyBusy := notifyBusy hc |}.

Definition with_queue (hc : HealthChecker) (q : list delivery) (b : bool) : HealthChecker :=
  {| configs := configs hc; results := results hc; failCounts := failCounts hc;
     stopChans := stopChans hc; closed := closed hc; next_chan := next_chan hc;
     callbacks := callbacks hc; notifyQueue := q; notifyBusy := b |}.

(** [close(stop)]. *)
Definition close_chan (hc : HealthChecker) (c : nat) : option HealthChecker :=
  if decide (c ∈ closed hc) then None else Some (with_chans hc (stopChans hc) ({[c]} ∪ closed hc) (next_chan hc)).

(** [if stop, ok := hc.stopChans[id]; ok { close(stop); delete(hc.stopChans, id) }],
    which is also the whole of [StopChecking]. *)
Definition StopChecking (hc : HealthChecker) (instanceID : string) : option HealthChecker :=
  match stopChans hc !! instanceID with
  | None => Some hc
  | Some c =>
      match close_chan hc c with
      | None => None
      | Some hc' => Some (with_chans hc' (delete instanceID (stopChans hc')) (closed hc') (next_chan hc'))
      end
  end.

Definition RegisterInstance (hc : HealthChecker) (now : Z) (instanceID : string) (config : HealthCheckConfig)
    : option HealthChecker :=
  match StopChecking hc instanceID with
  | None => None
  | Some hc' =>
      Some (with_data hc' (<[instanceID := config]> (configs hc'))
              (<[instanceID := {| HR_InstanceID := instanceID; HR_Status := HealthStatusStarting; HR_Message := "";
                                  CheckedAt := now; Duration := 0; HR_ExitCode := 0 |}]> (results hc'))
              (<[instanceID := 0]> (failCounts hc')))
  end.

Definition UnregisterInstance (hc : HealthChecker) (instanceID : string) : option HealthChecker :=
  match StopChecking hc instanceID with
  | None => None
  | Some hc' =>
      Some (with_data hc' (delete instanceID (configs hc')) (delete instanceID (results hc'))
              (delete instanceID (failCounts hc')))
  end.

(** [StartChecking]: the configuration and stop channel of the loop it starts,
    if it starts one. *)
Definition StartChecking (hc : HealthChecker) (instanceID : string)
    : option (HealthChecker * option (HealthCheckConfig * nat)) :=
  match configs hc !! instanceID with
  | None => Some (hc, None)
  | Some config =>
      match (match stopChans hc !! instanceID with
             | Some old => close_chan hc old
             | None => Some hc
             end) with
      | None => None
      | Some hc' =>
          let stop := next_chan hc' in
          Some (with_chans hc' (<[instanceID := stop]> (stopChans hc')) (closed hc') (S stop), Some (config, stop))
      end
  end.

Definition GetHealth (hc : HealthChecker) (instanceID : string) : option HealthCheckResult :=
  results hc !! instanceID.

Definition HasHealthCheck (hc : HealthChecker) (instanceID : string) : bool :=
  bool_decide (is_Some (configs hc !! instanceID)).

Definition GetAllHealth (hc : HealthChecker) : gmap string HealthCheckResult := results hc.

(** ** Transitions *)

Definition notify (hc : HealthChecker) (instanceID : string) (from to : HealthStatus) : HealthChecker * bool :=
  if decide (from = to) then (hc, false)
  else match callbacks hc with
       | [] => (hc, false)
       | cbs =>
           let q := if decide (maxPendingNotifications <= length (notifyQueue hc))%nat
                    then tail (notifyQueue hc) else notifyQueue hc in
           (with_queue hc (q ++ [{| to_call := cbs; instance := instanceID; from_status := from; to_status := to |}])
              true, negb (notifyBusy hc))
       end.

(** One turn of [drainNotifications]: the delivery it makes, or none and the
    goroutine ends. *)
Definition drain_one (hc : HealthChecker) : HealthChecker * option delivery :=
  match notifyQueue hc with
  | [] => (with_queue hc [] false, None)
  | d :: q => (with_queue hc q (notifyBusy hc), Some d)
  end.

(** ** Checks *)

Definition old_status (hc : HealthChecker) (instanceID : string) : HealthStatus :=
  match results hc !! instanceID with Some r => HR_Status r | None => HealthNone end.

Definition updateStatus (hc : HealthChecker) (now : Z) (instanceID : string) (status : HealthStatus)
    (message : string) : HealthChecker * bool :=
  let hc' := with_data hc (configs hc)
    (<[instanceID := {| HR_InstanceID := instanceID; HR_Status := status; HR_Message := message;
                        CheckedAt := now; Duration := 0; HR_ExitCode := 0 |}]> (results hc)) (failCounts hc) in
  notify hc' instanceID (old_status hc instanceID) status.

Definition retries_of (config : HealthCheckConfig) : Z :=
  if Retries config <=? 0 then defaultHealthRetries else Retries config.

Definition timeout_of (config : HealthCheckConfig) : Z :=
  if Timeout config <=? 0 then defaultHealthCheckTimeout else Timeout config.

(** The interval of [checkLoop]'s ticker. *)
Definition interval_of (config : HealthCheckConfig) : Z :=
  if Interval config <=? 0 then defaultHealthCheckInterval else Interval config.

(** The command [runCheck] executes. *)
Definition check_options (config : HealthCheckConfig) : option ExecOptions :=
  match Command config with
  | [] => None
  | c :: args =>
      Some {| Exec_Command := c; Exec_Args := args; Exec_Env := []; Exec_WorkingDir := "";
              Exec_User := ""; Exec_Timeout := 0 |}
  end.

Section checks.
(** [err.Error()]. *)
Context (error_text : error -> string).

(** The region of [runCheck] after the command has returned. *)
Definition record_check (hc : HealthChecker) (now duration : Z) (instanceID : string)
    (config : HealthCheckConfig) (result : option ExecResult) (err : option error) : HealthChecker * bool :=
  let oldStatus := old_status hc instanceID in
  let exitCode := match result with Some r => ER_ExitCode r | None => 0 end in
  let mk st code msg := {| HR_InstanceID := instanceID; HR_Status := st; HR_Message := msg;
                           CheckedAt := now; Duration := duration; HR_ExitCode := code |} in
  let '(fails, newResult) :=
    if negb (is_nil err) || negb (exitCode =? 0) then
      let fails := default 0 (failCounts hc !! instanceID) + 1 in
      let errMsg := match err with Some e => error_text e | None => "" end in
      (fails, mk (if retries_of config <=? fails then HealthStatusUnhealthy
                  else match oldStatus with HealthNone => HealthStatusUnknown | st => st end) exitCode
                 ("Check failed: " +:+ (errMsg +:+ (" (exit code: " +:+ (pretty exitCode +:+ ")")))))
    else (0, mk HealthStatusHealthy 0 "Health check passed") in
  let hc' := with_data hc (configs hc) (<[instanceID := newResult]> (results hc))
               (<[instanceID := fails]> (failCounts hc)) in
  notify hc' instanceID oldStatus (HR_Status newResult).

(** [runCheck] run without interruption: [exec] is the provider's
    [ExecCommand] and [after] the clock once it has returned. *)
Definition runCheck {W : Type}
    (exec : W -> InstanceHandle -> ExecOptions -> W * (option ExecResult * option error))
    (w : W) (hc : HealthChecker) (start after : Z) (handle : InstanceHandle) (config : HealthCheckConfig)
    : W * (HealthChecker * bool) :=
  match check_options config with
  | None => (w, updateStatus hc start (Handle_ID handle) HealthStatusUnknown "No health check command configured")
  | Some opts =>
      let '(w', (result, err)) := exec w handle opts in
      (w', record_check hc after (after - start) (Handle_ID handle) config result err)
  end.
End checks.

(** ** Automatic restart *)

Record RestartPolicy := {
  Enabled : bool;
  MaxRestarts : Z;
  RestartDelay : Z;
  ResetCounterAfter : Z
}.

Record AutoRestarter (P : Type) := {
  ar_provider : option P;
  restartPolicy : gmap string RestartPolicy;
  targets : gmap string (P * InstanceHandle);
  restartCounts : gmap string Z;
  healthySince : gmap string Z;
  lastRestart : gmap string Z
}.
Arguments ar_provider {P}. Arguments restartPolicy {P}. Arguments targets {P}.
Arguments restartCounts {P}. Arguments healthySince {P}. Arguments lastRestart {P}.

Section restart.
Context {P : Type}.

Definition NewAutoRestarter (prov : option P) : AutoRestarter P :=
  {| ar_provider := prov; restartPolicy := ∅; targets := ∅; restartCounts := ∅;
     healthySince := ∅; lastRestart := ∅ |}.

Definition with_counts (ar : AutoRestarter P) (counts since last : gmap string Z) : AutoRestarter P :=
  {| ar_provider := ar_provider ar; restartPolicy := restartPolicy ar; targets := targets ar;
     restartCounts := counts; healthySince := since; lastRestart := last |}.

Definition SetPolicy (ar : AutoRestarter P) (instanceID : string) (policy : RestartPolicy) : AutoRestarter P :=
  {| ar_provider := ar_provider ar; restartPolicy := <[instanceID := policy]> (restartPolicy ar);
     targets := targets ar; restartCounts := restartCounts ar; healthySince := healthySince ar;
     lastRestart := lastRestart ar |}.

Definition SetPolicyFor (ar : AutoRestarter P) (prov : P) (handle : InstanceHandle) (policy : RestartPolicy)
    : AutoRestarter P :=
  {| ar_provider := ar_provider ar;
     restartPolicy := <[Handle_ID handle := policy]> (restartPolicy ar);
     targets := <[Handle_ID handle := (prov, handle)]> (targets ar);
     restartCounts := restartCounts ar; healthySince := healthySince ar; lastRestart := lastRestart ar |}.

Definition RemovePolicy (ar : AutoRestarter P) (instanceID : string) : AutoRestarter P :=
  {| ar_provider := ar_provider ar; restartPolicy := delete instanceID (restartPolicy ar);
     targets := delete instanceID (targets ar); restartCounts := delete instanceID (restartCounts ar);
     healthySince := delete instanceID (healthySince ar); lastRestart := delete instanceID (lastRestart ar) |}.

Definition GetRestartCount (ar : AutoRestarter P) (instanceID : string) : Z :=
  default 0 (restartCounts ar !! instanceID).

(** The part of [onHealthChange] after the transition is known to be one to
    unhealthy; the boolean says whether a restart is started. *)
Definition consider_restart (ar : AutoRestarter P) (now healthyFor : Z) (instanceID : string)
    (policy : RestartPolicy) : AutoRestarter P * bool :=
  let ar := if (0 <? ResetCounterAfter policy) && (ResetCounterAfter policy <? healthyFor)
            then with_counts ar (<[instanceID := 0]> (restartCounts ar)) (healthySince ar) (lastRestart ar)
            else ar in
  if (0 <? MaxRestarts policy) && (MaxRestarts policy <=? GetRestartCount ar instanceID) then (ar, false)
  else match lastRestart ar !! instanceID with
       | Some t => (ar, negb (now - t <? RestartDelay policy))
       | None => (ar, true)
       end.

Definition onHealthChange (ar : AutoRestarter P) (now : Z) (instanceID : string) (newStatus : HealthStatus)
    : AutoRestarter P * bool :=
  match restartPolicy ar !! instanceID with
  | None => (ar, false)
  | Some policy =>
      if negb (Enabled policy) then (ar, false)
      else if decide (newStatus = HealthStatusHealthy) then
        match healthySince ar !! instanceID with
        | Some _ => (ar, false)
        | None => (with_counts ar (restartCounts ar) (<[instanceID := now]> (healthySince ar)) (lastRestart ar), false)
        end
      else
        let healthyFor := match healthySince ar !! instanceID with Some since => now - since | None => 0 end in
        let ar := with_counts ar (restartCounts ar) (delete instanceID (healthySince ar)) (lastRestart ar) in
        if decide (newStatus = HealthStatusUnhealthy) then consider_restart ar now healthyFor instanceID policy
        else (ar, false)
  end.

(** The first region of [restartInstance]. *)
Definition mark_restart (ar : AutoRestarter P) (now : Z) (instanceID : string) : AutoRestarter P :=
  with_counts ar (<[instanceID := GetRestartCount ar instanceID + 1]> (restartCounts ar))
    (healthySince ar) (<[instanceID := now]> (lastRestart ar)).

(** What the restart acts on. *)
Definition restart_target (ar : AutoRestarter P) (instanceID : string) : option (P * InstanceHandle) :=
  match targets ar !! instanceID with
  | Some t => Some t
  | None =>
      match ar_provider ar with
      | Some p => Some (p, {| Handle_ID := instanceID; Handle_Provider := ""; Handle_Metadata := [] |})
      | None => None
      end
  end.

(** [restartInstance]; [ended] says whether its context ends before the pause
    between stop and start does. *)
Definition restartInstance {W : Type} `{ProviderOps P W} (ar : AutoRestarter P) (w : W) (now : Z)
    (ended : bool) (instanceID : string) : AutoRestarter P * W :=
  let ar := mark_restart ar now instanceID in
  match restart_target ar instanceID with
  | None => (ar, w)
  | Some (prov, handle) =>
      let '(w, err) := StopInstance prov w handle {| Stop_Force := false; Stop_Timeout := 0 |} in
      match err with
      | Some _ => (ar, w)
      | None => if ended then (ar, w) else (ar, (StartInstance prov w handle).1)
      end
  end.
End restart.
