(* ===== verification/HealthFacts.v ===== *)
(** * Correctness of health checking

    The verdict after any sequence of checks, the life of the check loops and
    of their stop channels, the delivery of transitions, and the restart
    budget. *)

From stdpp Require Import base list gmap strings pretty relations.
From Stdlib Require Import ZArith Lia.
From S2P Require Import Prelude GoStrings GoTime ProviderTypes Registry Discovery Health.

Local Open Scope Z_scope.

(** ** Verdicts *)

Record check := {
  c_id : string; c_config : HealthCheckConfig; c_now : Z; c_duration : Z;
  c_result : option ExecResult; c_err : option error
}.

(** A check fails when the command could not be run or did not exit with 0. *)
Definition failed (c : check) : bool :=
  negb (is_nil (c_err c)) || negb (match c_result c with Some r => ER_ExitCode r | None => 0 end =? 0).

(** The outcomes of the checks of one instance, in order. *)
Definition outcomes (id : string) (cs : list check) : list bool :=
  map failed (List.filter (fun c => streq (c_id c) id) cs).

(** How many failures in a row end a sequence of outcomes. *)
Fixpoint leading (l : list bool) : nat :=
  match l with true :: r => S (leading r) | _ => 0%nat end.
Definition streak (l : list bool) : nat := leading (rev l).

(** The status a sequence of outcomes leads to from [st]. *)
Definition verdict (st : HealthStatus) (retries : Z) (l : list bool) : HealthStatus :=
  if decide (l = []) then st
  else if decide (streak l = 0%nat) then HealthStatusHealthy
  else if retries <=? Z.of_nat (streak l) then HealthStatusUnhealthy
  else if decide (streak l = length l) then st else HealthStatusHealthy.

Section verdicts.
Context (error_text : error -> string).

Definition apply_check (hc : HealthChecker) (c : check) : HealthChecker :=
  (record_check error_text hc (c_now c) (c_duration c) (c_id c) (c_config c) (c_result c) (c_err c)).1.

Lemma notify_data hc id from to :
  configs (notify hc id from to).1 = configs hc /\ results (notify hc id from to).1 = results hc /\
  failCounts (notify hc id from to).1 = failCounts hc.
Proof. unfold notify. case_decide; [done|]. by destruct (callbacks hc). Qed.

Lemma apply_check_frame hc c id : c_id c <> id ->
  old_status (apply_check hc c) id = old_status hc id /\
  failCounts (apply_check hc c) !! id = failCounts hc !! id.
Proof.
  intros Hne. unfold apply_check, record_check, old_status.
  destruct (_ || _); match goal with |- context [notify ?h ?i ?f ?t] =>
    destruct (notify_data h i f t) as (_ & -> & ->) end; simpl; by rewrite !lookup_insert_ne.
Qed.

Lemma apply_check_fails hc c :
  failCounts (apply_check hc c) !! c_id c =
  Some (if failed c then default 0 (failCounts hc !! c_id c) + 1 else 0).
Proof.
  unfold apply_check, record_check, failed.
  destruct (_ || _); match goal with |- context [notify ?h ?i ?f ?t] =>
    destruct (notify_data h i f t) as (_ & _ & ->) end; simpl; by rewrite lookup_insert_eq.
Qed.

Lemma apply_check_status hc c :
  old_status (apply_check hc c) (c_id c) =
  if failed c then
    if retries_of (c_config c) <=? default 0 (failCounts hc !! c_id c) + 1 then HealthStatusUnhealthy
    else match old_status hc (c_id c) with HealthNone => HealthStatusUnknown | st => st end
  else HealthStatusHealthy.
Proof.
  unfold apply_check, record_check, failed. fold (old_status hc (c_id c)).
  destruct (_ || _); unfold old_status at 1; match goal with |- context [notify ?h ?i ?f ?t] =>
    destruct (notify_data h i f t) as (_ & -> & _) end; simpl; rewrite lookup_insert_eq;
    [by destruct (_ <=? _), (old_status hc (c_id c))|done].
Qed.

Lemma streak_snoc l b : streak (l ++ [b]) = if b then S (streak l) else 0%nat.
Proof. unfold streak. rewrite rev_app_distr. by destruct b. Qed.

Lemma streak_le l : (streak l <= length l)%nat.
Proof.
  unfold streak. rewrite <- length_rev. induction (rev l) as [|[] r IH]; simpl; lia.
Qed.

(** One more outcome. *)
Lemma verdict_snoc st r l b : 0 < r ->
  verdict st r (l ++ [b]) =
  if b then if r <=? Z.of_nat (streak l) + 1 then HealthStatusUnhealthy else verdict st r l
  else HealthStatusHealthy.
Proof.
  intros Hr. unfold verdict. rewrite decide_False by (by destruct l). rewrite streak_snoc. destruct b; [|done].
  rewrite decide_False by done. rewrite Nat2Z.inj_succ, <- Z.add_1_r.
  destruct (Z.leb_spec r (Z.of_nat (streak l) + 1)) as [H|H]; [done|].
  rewrite length_app. simpl. pose proof (streak_le l). destruct (decide (l = [])) as [->|Hl].
  - done.
  - destruct (decide (streak l = 0%nat)) as [E|E].
    + rewrite decide_False; [done|]. destruct l; simpl in *; [done|lia].
    + destruct (Z.leb_spec r (Z.of_nat (streak l))) as [H1|H1]; [lia|].
      destruct (decide (streak l = length l)) as [E1|E1]; [rewrite decide_True by lia|rewrite decide_False by lia]; done.
Qed.

Lemma outcomes_snoc id cs c :
  outcomes id (cs ++ [c]) = if streq (c_id c) id then outcomes id cs ++ [failed c] else outcomes id cs.
Proof.
  unfold outcomes. rewrite List.filter_app, map_app. simpl. destruct (streq (c_id c) id); [done|apply app_nil_r].
Qed.

Lemma verdict_not_none st r l : st <> HealthNone -> verdict st r l <> HealthNone.
Proof. intros H. unfold verdict. repeat case_decide; try done; by destruct (r <=? _). Qed.

Lemma retries_of_pos config : 0 < retries_of config.
Proof. unfold retries_of, defaultHealthRetries. destruct (Z.leb_spec (Retries config) 0); lia. Qed.

(** After any sequence of checks, of this and other instances, an instance
    that was just registered is healthy if its last check passed, unhealthy
    exactly if its last [retries] checks all failed, and otherwise keeps the
    status it had before the failures in progress; the failure count is the
    number of consecutive failures. *)
Theorem health_after_checks (hc : HealthChecker) (now : Z) (id : string) (config : HealthCheckConfig)
    (hc' : HealthChecker) (cs : list check) :
  RegisterInstance hc now id config = Some hc' ->
  Forall (fun c => c_id c = id -> c_config c = config) cs ->
  let final := foldl apply_check hc' cs in
  failCounts final !! id = Some (Z.of_nat (streak (outcomes id cs))) /\
  old_status final id = verdict HealthStatusStarting (retries_of config) (outcomes id cs).
Proof.
  intros Hreg. assert (failCounts hc' !! id = Some 0 /\ old_status hc' id = HealthStatusStarting) as [Hf Hs].
  { unfold RegisterInstance in Hreg. destruct (StopChecking hc id) as [h|]; [|done].
    injection Hreg as <-. unfold old_status. simpl. by rewrite !lookup_insert_eq. }
  clear Hreg hc. induction cs as [|c cs IH] using rev_ind; simpl; [done|].
  rewrite Forall_app, Forall_singleton. intros [Hcs Hc]. destruct (IH Hcs) as [If Is].
  rewrite foldl_snoc, outcomes_snoc. destruct (streq (c_id c) id) eqn:E.
  - apply streq_true in E. rewrite <- E in *. specialize (Hc eq_refl).
    rewrite apply_check_fails, apply_check_status, If, Is, streak_snoc, verdict_snoc, Hc by apply retries_of_pos.
    simpl. destruct (failed c); [|done]. split; [f_equal; lia|].
    destruct (retries_of config <=? _); [done|].
    pose proof (verdict_not_none HealthStatusStarting (retries_of config) (outcomes (c_id c) cs)).
    destruct (verdict _ _ _); try done. by destruct H.
  - apply streq_false in E. destruct (apply_check_frame (foldl apply_check hc' cs) c id E) as [-> ->]. done.
Qed.
End verdicts.

(** ** Check loops, callers and the drainer *)

Inductive stage := Starting | Ticking | Checking.

(** A [checkLoop] goroutine: its instance, stop channel and configuration. *)
Record loop := { l_id : string; l_chan : nat; l_config : HealthCheckConfig; l_stage : stage }.

(** The program: the checker, the running loops, the drainers (goroutines in
    [drainNotifications], with the delivery one is making), the transitions
    queued so far and those whose delivery has begun. *)
Record hsystem := {
  hc : HealthChecker;
  loops : gmap nat loop;
  drainers : gmap nat (option delivery);
  produced : list delivery;
  delivered : list delivery
}.

(** The transition a change of an instance's status queues. *)
Definition transition (h h' : HealthChecker) (id : string) : list delivery :=
  if decide (old_status h id = old_status h' id) then []
  else match callbacks h with
       | [] => []
       | cbs => [{| to_call := cbs; instance := id; from_status := old_status h id; to_status := old_status h' id |}]
       end.

(** The system after a call that changed the status of [id], with the drainer
    it starts, numbered [d]. *)
Definition fired (s : hsystem) (r : HealthChecker * bool) (id : string) (ls : gmap nat loop) (d : nat) : hsystem :=
  {| hc := r.1; loops := ls; drainers := if r.2 then <[d := None]> (drainers s) else drainers s;
     produced := produced s ++ transition (hc s) r.1 id; delivered := delivered s |}.

Definition with_hc (s : hsystem) (h : HealthChecker) (ls : gmap nat loop) : hsystem :=
  {| hc := h; loops := ls; drainers := drainers s; produced := produced s; delivered := delivered s |}.

Definition at_stage (l : loop) (st : stage) : loop :=
  {| l_id := l_id l; l_chan := l_chan l; l_config := l_config l; l_stage := st |}.

Section system.
Context (error_text : error -> string).

(** One step of a caller, a loop or a drainer; [None] is a panic. *)
Inductive hstep : hsystem -> option hsystem -> Prop :=
  | H_register s now id config :
      hstep s ((fun h => with_hc s h (loops s)) <$> RegisterInstance (hc s) now id config)
  | H_unregister s id :
      hstep s ((fun h => with_hc s h (loops s)) <$> UnregisterInstance (hc s) id)
  | H_stop s id :
      hstep s ((fun h => with_hc s h (loops s)) <$> StopChecking (hc s) id)
  | H_listen s cb : hstep s (Some (with_hc s (OnHealthChange (hc s) cb) (loops s)))
  | H_start s id g : loops s !! g = None ->
      hstep s (match StartChecking (hc s) id with
               | None => None
               | Some (h, None) => Some (with_hc s h (loops s))
               | Some (h, Some (config, c)) =>
                   Some (with_hc s h (<[g := {| l_id := id; l_chan := c; l_config := config; l_stage := Starting |}]> (loops s)))
               end)
  | H_ready s g l now d : loops s !! g = Some l -> l_stage l = Starting -> drainers s !! d = None ->
      hstep s (Some (fired s (updateStatus (hc s) now (l_id l) HealthStatusUnknown "Initial check pending")
                       (l_id l) (<[g := at_stage l Ticking]> (loops s)) d))
  | H_tick s g l : loops s !! g = Some l -> l_stage l = Ticking ->
      hstep s (Some (with_hc s (hc s) (<[g := at_stage l Checking]> (loops s))))
  | H_checked s g l now dur res err d : loops s !! g = Some l -> l_stage l = Checking -> drainers s !! d = None ->
      hstep s (Some (fired s
                (match check_options (l_config l) with
                 | None => updateStatus (hc s) now (l_id l) HealthStatusUnknown "No health check command configured"
                 | Some _ => record_check error_text (hc s) now dur (l_id l) (l_config l) res err
                 end) (l_id l) (<[g := at_stage l Ticking]> (loops s)) d))
  | H_exit s g l : loops s !! g = Some l -> l_stage l <> Checking -> l_chan l ∈ closed (hc s) ->
      hstep s (Some (with_hc s (hc s) (delete g (loops s))))
  | H_context s g l : loops s !! g = Some l -> l_stage l <> Checking ->
      hstep s (Some (with_hc s (hc s) (delete g (loops s))))
  | H_drain s d : drainers s !! d = Some None ->
      hstep s (Some (match drain_one (hc s) with
                     | (h, None) => {| hc := h; loops := loops s; drainers := delete d (drainers s);
                                       produced := produced s; delivered := delivered s |}
                     | (h, Some v) => {| hc := h; loops := loops s; drainers := <[d := Some v]> (drainers s);
                                         produced := produced s; delivered := delivered s ++ [v] |}
                     end))
  | H_deliver s d v : drainers s !! d = Some (Some v) ->
      hstep s (Some {| hc := hc s; loops := loops s; drainers := <[d := None]> (drainers s);
                       produced := produced s; delivered := delivered s |}).

Definition hstart : hsystem :=
  {| hc := NewHealthChecker; loops := ∅; drainers := ∅; produced := []; delivered := [] |}.

Inductive hreachable : hsystem -> Prop :=
  | HR_start : hreachable hstart
  | HR_step s s' : hreachable s -> hstep s (Some s') -> hreachable s'.

(** *** Stop channels *)

Record chan_inv (s : hsystem) : Prop := {
  ch_open : forall id c, stopChans (hc s) !! id = Some c -> c ∉ closed (hc s) /\ (c < next_chan (hc s))%nat;
  ch_inj : forall id id' c, stopChans (hc s) !! id = Some c -> stopChans (hc s) !! id' = Some c -> id = id';
  ch_closed : forall c, c ∈ closed (hc s) -> (c < next_chan (hc s))%nat;
  ch_loops : forall g l, loops s !! g = Some l -> (l_chan l < next_chan (hc s))%nat;
  ch_live : forall g l, loops s !! g = Some l -> l_chan l ∉ closed (hc s) ->
    stopChans (hc s) !! l_id l = Some (l_chan l);
  ch_distinct : forall g g' l l', loops s !! g = Some l -> loops s !! g' = Some l' ->
    l_chan l = l_chan l' -> g = g'
}.

(** The channels of a checker after an operation that does not touch them. *)
Definition same_chans (h h' : HealthChecker) : Prop :=
  stopChans h' = stopChans h /\ closed h' = closed h /\ next_chan h' = next_chan h.

Lemma notify_chans h id from to : same_chans h (notify h id from to).1.
Proof. unfold notify. case_decide; [done|]. by destruct (callbacks h). Qed.

Lemma updateStatus_chans h now id st msg : same_chans h (updateStatus h now id st msg).1.
Proof. unfold updateStatus. apply (notify_chans (with_data h _ _ _)). Qed.

Lemma record_check_chans h now dur id config res err :
  same_chans h (record_check error_text h now dur id config res err).1.
Proof. unfold record_check. destruct (_ || _); apply (notify_chans (with_data h _ _ _)). Qed.

Lemma chan_inv_same s h ls ds p v :
  chan_inv s -> same_chans (hc s) h ->
  (forall g l, ls !! g = Some l -> exists l0, loops s !! g = Some l0 /\ l_id l0 = l_id l /\ l_chan l0 = l_chan l) ->
  chan_inv {| hc := h; loops := ls; drainers := ds; produced := p; delivered := v |}.
Proof.
  intros [C1 C2 C3 C4 C5 C6] (E1 & E2 & E3) Hl. constructor; simpl; rewrite ?E1, ?E2, ?E3; try done.
  - intros g l (l0 & H0 & _ & <-)%Hl. eauto.
  - intros g l (l0 & H0 & <- & <-)%Hl. eauto.
  - intros g g' l l' (l0 & H0 & _ & <-)%Hl (l1 & H1 & _ & <-)%Hl. eauto.
Qed.

Lemma loops_same s g l st : loops s !! g = Some l -> forall g' l',
  <[g := at_stage l st]> (loops s) !! g' = Some l' ->
  exists l0, loops s !! g' = Some l0 /\ l_id l0 = l_id l' /\ l_chan l0 = l_chan l'.
Proof. intros Hl g' l' [[<- <-]|[_ H]]%lookup_insert_Some; eauto. Qed.

(** Closing an instance's channel keeps the invariant, and cannot panic. *)
Lemma StopChecking_inv s id : chan_inv s ->
  exists h, StopChecking (hc s) id = Some h /\ chan_inv (with_hc s h (loops s)) /\
    stopChans h !! id = None.
Proof.
  intros [C1 C2 C3 C4 C5 C6]. unfold StopChecking.
  destruct (stopChans (hc s) !! id) as [c|] eqn:E; [|exists (hc s); by destruct s].
  unfold close_chan. destruct (C1 _ _ E) as [Hc Hn]. rewrite decide_False by done. simpl.
  eexists. split_and!; [reflexivity| |apply lookup_delete_eq].
  constructor; simpl; try done.
  - intros id' c' [Hne Hl]%lookup_delete_Some. destruct (C1 _ _ Hl). split; [|done].
    rewrite not_elem_of_union, not_elem_of_singleton. split; [|done]. intros ->. apply Hne. eauto.
  - intros id' id'' c' [_ H1]%lookup_delete_Some [_ H2]%lookup_delete_Some. eauto.
  - intros c' [->%elem_of_singleton|Hc']%elem_of_union; eauto.
  - intros g l Hl Hno. rewrite not_elem_of_union, not_elem_of_singleton in Hno. destruct Hno as [Hne Hno].
    rewrite lookup_delete_ne; [by eapply C5|]. intros ->. specialize (C5 _ _ Hl Hno). congruence.
Qed.

Lemma StartChecking_inv s id g : chan_inv s -> loops s !! g = None ->
  exists s', match StartChecking (hc s) id with
             | None => None
             | Some (h, None) => Some (with_hc s h (loops s))
             | Some (h, Some (config, c)) =>
                 Some (with_hc s h (<[g := {| l_id := id; l_chan := c; l_config := config; l_stage := Starting |}]> (loops s)))
             end = Some s' /\ chan_inv s'.
Proof.
  intros Hinv Hg. unfold StartChecking. destruct (configs (hc s) !! id) as [config|]; [|by destruct s; eauto].
  destruct Hinv as [C1 C2 C3 C4 C5 C6].
  assert (exists h, match stopChans (hc s) !! id with Some old => close_chan (hc s) old | None => Some (hc s) end = Some h /\
    stopChans h = stopChans (hc s) /\ next_chan h = next_chan (hc s) /\
    (forall c, c ∈ closed h <-> c ∈ closed (hc s) \/ stopChans (hc s) !! id = Some c)) as (h & -> & E1 & E2 & E3).
  { destruct (stopChans (hc s) !! id) as [c|] eqn:E.
    - unfold close_chan. destruct (C1 _ _ E) as [Hc _]. rewrite decide_False by done.
      eexists. split_and!; [reflexivity|done|done|]. intros c'. simpl. set_solver.
    - exists (hc s). split_and!; [done..|]. naive_solver. }
  eexists. split; [reflexivity|]. constructor; simpl; rewrite ?E1, ?E2.
  - intros id' c' [[<- <-]|[Hne Hl]]%lookup_insert_Some.
    + split; [|lia]. rewrite E3. intros [H%C3|H%C1]; lia.
    + destruct (C1 _ _ Hl). split; [|lia]. rewrite E3. naive_solver.
  - intros id1 id2 c [[<- <-]|[Hne1 H1]]%lookup_insert_Some [[<- E]|[Hne2 H2]]%lookup_insert_Some; [done|..].
    + apply C1 in H2. lia.
    + apply C1 in H1. lia.
    + eauto.
  - intros c. rewrite E3. intros [H%C3|[_ H]%C1]; lia.
  - intros g' l [[<- <-]|[_ Hl]]%lookup_insert_Some; simpl; [lia|]. apply C4 in Hl. lia.
  - intros g' l [[<- <-]|[_ Hl]]%lookup_insert_Some Hno; simpl; [by rewrite lookup_insert_eq|].
    rewrite E3 in Hno. assert (stopChans (hc s) !! l_id l = Some (l_chan l)) as H by (apply (C5 g'); tauto).
    rewrite lookup_insert_ne; [done|]. intros ->. tauto.
  - intros g1 g2 l1 l2 [[<- <-]|[_ H1]]%lookup_insert_Some [[<- <-]|[_ H2]]%lookup_insert_Some; simpl; intros Hc; [done|..].
    + apply C4 in H2. lia.
    + apply C4 in H1. lia.
    + eauto.
Qed.

(** No step panics, and every step keeps the invariant. *)
Lemma chan_inv_step s r : chan_inv s -> hstep s r -> exists s', r = Some s' /\ chan_inv s'.
Proof.
  intros Hinv Hs. assert (forall ls, (forall g l, ls !! g = Some l -> exists l0, loops s !! g = Some l0 /\
    l_id l0 = l_id l /\ l_chan l0 = l_chan l) -> forall h, same_chans (hc s) h -> forall ds p v,
    chan_inv {| hc := h; loops := ls; drainers := ds; produced := p; delivered := v |}) as Hsame.
  { intros ls Hls h Hh ds p v. by eapply chan_inv_same. }
  assert (forall g l, loops s !! g = Some l -> exists l0, loops s !! g = Some l0 /\ l_id l0 = l_id l /\
    l_chan l0 = l_chan l) as Hid by eauto.
  destruct Hs; simpl.
  - destruct (StopChecking_inv s id Hinv) as (h & E & Hi & _). unfold RegisterInstance. rewrite E. simpl.
    eexists. split; [reflexivity|]. eapply (chan_inv_same (with_hc s h (loops s))); eauto. done.
  - destruct (StopChecking_inv s id Hinv) as (h & E & Hi & _). unfold UnregisterInstance. rewrite E. simpl.
    eexists. split; [reflexivity|]. eapply (chan_inv_same (with_hc s h (loops s))); eauto. done.
  - destruct (StopChecking_inv s id Hinv) as (h & E & Hi & _). rewrite E. simpl. eauto.
  - eexists. split; [reflexivity|]. by apply Hsame.
  - by apply StartChecking_inv.
  - eexists. split; [reflexivity|]. apply Hsame; [by apply loops_same|apply updateStatus_chans].
  - eexists. split; [reflexivity|]. apply Hsame; [by apply loops_same|done].
  - eexists. split; [reflexivity|]. apply Hsame; [by apply loops_same|].
    destruct (check_options _); [apply record_check_chans|apply updateStatus_chans].
  - eexists. split; [reflexivity|]. apply Hsame; [|done]. intros g' l' [_ H']%lookup_delete_Some. eauto.
  - eexists. split; [reflexivity|]. apply Hsame; [|done]. intros g' l' [_ H']%lookup_delete_Some. eauto.
  - eexists. split; [reflexivity|]. unfold drain_one. destruct (notifyQueue (hc s)); by apply Hsame.
  - eexists. split; [reflexivity|]. by apply Hsame.
Qed.

Lemma reachable_chan_inv s : hreachable s -> chan_inv s.
Proof.
  induction 1 as [|s s' _ IH Hs]; [by constructor|].
  destruct (chan_inv_step s (Some s') IH Hs) as (s'' & [= <-] & H). done.
Qed.

(** Whatever callers do, no stop channel is closed twice (nothing panics),
    and a loop that has not been told to stop is the current one of its
    instance: an instance has at most one, and none after [StopChecking]. *)
Theorem one_live_loop (s : hsystem) (r : option hsystem) :
  hreachable s -> hstep s r ->
  (exists s', r = Some s') /\
  (forall g g' l l', loops s !! g = Some l -> loops s !! g' = Some l' -> l_id l = l_id l' ->
     l_chan l ∉ closed (hc s) -> l_chan l' ∉ closed (hc s) -> g = g') /\
  (forall id g l h, StopChecking (hc s) id = Some h -> loops s !! g = Some l -> l_id l = id ->
     l_chan l ∈ closed h).
Proof.
  intros Hr%reachable_chan_inv Hs. split_and!.
  - destruct (chan_inv_step s r Hr Hs) as (s' & -> & _). eauto.
  - intros g g' l l' Hl Hl' E N N'. apply (ch_distinct _ Hr g g' l l' Hl Hl').
    pose proof (ch_live _ Hr _ _ Hl N) as H1. pose proof (ch_live _ Hr _ _ Hl' N') as H2. congruence.
  - intros id g l h E Hl <-. destruct (StopChecking_inv s (l_id l) Hr) as (h' & E' & Hi & Hno).
    rewrite E in E'. simplify_eq. destruct (decide (l_chan l ∈ closed h')) as [|N]; [done|].
    pose proof (ch_live _ Hi g l Hl N) as H. simpl in H. congruence.
Qed.

(** *** Deliveries *)

Record deliver_inv (s : hsystem) : Prop := {
  d_split : exists old, produced s = old ++ notifyQueue (hc s) /\ delivered s `sublist_of` old;
  d_len : (length (notifyQueue (hc s)) <= maxPendingNotifications)%nat;
  d_busy : size (drainers s) = if notifyBusy (hc s) then 1%nat else 0%nat;
  d_wake : notifyQueue (hc s) <> [] -> notifyBusy (hc s) = true;
  d_all : produced s = delivered s ++ notifyQueue (hc s) \/ (maxPendingNotifications < length (produced s))%nat
}.

(** What a call that may queue a transition does to the queue. *)
Definition queued (h : HealthChecker) (r : HealthChecker * bool) (id : string) : Prop :=
  (transition h r.1 id = [] /\ notifyQueue r.1 = notifyQueue h /\ notifyBusy r.1 = notifyBusy h /\ r.2 = false) \/
  (exists v, transition h r.1 id = [v] /\
     notifyQueue r.1 = (if decide (maxPendingNotifications <= length (notifyQueue h))%nat
                        then tail (notifyQueue h) else notifyQueue h) ++ [v] /\
     notifyBusy r.1 = true /\ r.2 = negb (notifyBusy h)).

Lemma notify_queued h rs fs id to :
  old_status (with_data h (configs h) rs fs) id = to ->
  queued h (notify (with_data h (configs h) rs fs) id (old_status h id) to) id.
Proof.
  intros Hto. unfold queued, transition.
  assert (old_status (notify (with_data h (configs h) rs fs) id (old_status h id) to).1 id = to) as ->.
  { unfold old_status. destruct (notify_data (with_data h (configs h) rs fs) id (old_status h id) to)
      as (_ & E & _). unfold old_status in E. by rewrite E. }
  unfold notify. destruct (decide (old_status h id = to)) as [E|E]; [by left|]. simpl.
  destruct (callbacks h) as [|cb cbs]; [by left|right]. eexists. split; [reflexivity|]. done.
Qed.

Lemma updateStatus_queued h now id st msg : queued h (updateStatus h now id st msg) id.
Proof. apply notify_queued. unfold old_status. simpl. by rewrite lookup_insert_eq. Qed.

Lemma record_check_queued h now dur id config res err :
  queued h (record_check error_text h now dur id config res err) id.
Proof.
  unfold record_check. destruct (_ || _); apply notify_queued; unfold old_status; simpl; by rewrite lookup_insert_eq.
Qed.

Lemma deliver_inv_same s h ls :
  deliver_inv s -> notifyQueue h = notifyQueue (hc s) -> notifyBusy h = notifyBusy (hc s) ->
  deliver_inv (with_hc s h ls).
Proof. intros [D1 D2 D3 D4 D5] E1 E2. constructor; simpl; by rewrite ?E1, ?E2. Qed.

Lemma sublist_app_r {A} (l k k' : list A) : l `sublist_of` k -> l `sublist_of` k ++ k'.
Proof. intros H. by apply sublist_inserts_r. Qed.

Lemma deliver_inv_fired s r id ls d :
  deliver_inv s -> drainers s !! d = None -> queued (hc s) r id -> deliver_inv (fired s r id ls d).
Proof.
  intros [(old & Hp & Hs) D2 D3 D4 D5] Hd [(Ht & Hq & Hb & Hr)|(v & Ht & Hq & Hb & Hr)]; constructor; simpl;
    rewrite ?Ht, ?Hq, ?Hb, ?Hr, ?app_nil_r; try done; eauto.
  - rewrite Hp. case_decide as Hl.
    + destruct (notifyQueue (hc s)) as [|x q]; simpl in *; [unfold maxPendingNotifications in Hl; lia|].
      exists (old ++ [x]). split; [by rewrite <- !app_assoc|by apply sublist_app_r].
    + exists old. by rewrite <- app_assoc.
  - rewrite length_app. simpl. case_decide as Hl; [|lia].
    destruct (notifyQueue (hc s)) as [|x q]; simpl in *; unfold maxPendingNotifications in *; lia.
  - destruct (notifyBusy (hc s)); simpl; [done|]. by rewrite map_size_insert_None, D3.
  - case_decide as Hl.
    + right. rewrite Hp, !length_app. simpl. lia.
    + rewrite length_app. destruct D5 as [->|H]; [left; by rewrite <- app_assoc|right; lia].
Qed.

Lemma StopChecking_queue h id h' : StopChecking h id = Some h' ->
  notifyQueue h' = notifyQueue h /\ notifyBusy h' = notifyBusy h.
Proof.
  unfold StopChecking, close_chan. destruct (stopChans h !! id); [|naive_solver].
  case_decide; [done|]. by intros [= <-].
Qed.

Lemma StartChecking_queue h id h' o : StartChecking h id = Some (h', o) ->
  notifyQueue h' = notifyQueue h /\ notifyBusy h' = notifyBusy h.
Proof.
  unfold StartChecking, close_chan. destruct (configs h !! id); [|naive_solver].
  destruct (stopChans h !! id); [case_decide|]; by intros [= <- _].
Qed.

Lemma deliver_inv_drain s d : deliver_inv s -> drainers s !! d = Some None ->
  deliver_inv (match drain_one (hc s) with
               | (h, None) => {| hc := h; loops := loops s; drainers := delete d (drainers s);
                                 produced := produced s; delivered := delivered s |}
               | (h, Some v) => {| hc := h; loops := loops s; drainers := <[d := Some v]> (drainers s);
                                   produced := produced s; delivered := delivered s ++ [v] |}
               end).
Proof.
  intros [(old & Hp & Hs) D2 D3 D4 D5] Hd.
  assert (size (drainers s) = S (size (delete d (drainers s)))) as Hsz.
  { rewrite <- (insert_delete_id _ _ _ Hd) at 1. by rewrite map_size_insert_None by apply lookup_delete_eq. }
  unfold drain_one. destruct (notifyQueue (hc s)) as [|v q] eqn:Eq; constructor; simpl; eauto; try done.
  - destruct (notifyBusy (hc s)); lia.
  - exists (old ++ [v]). rewrite <- app_assoc. split; [done|by apply sublist_app].
  - simpl in D2. lia.
  - rewrite map_size_insert_Some; [done|eauto].
  - destruct D5 as [->|?]; [left; by rewrite <- app_assoc|by right].
Qed.

Lemma deliver_inv_step s s' : deliver_inv s -> hstep s (Some s') -> deliver_inv s'.
Proof.
  intros Hi Hs. inversion Hs; subst; clear Hs.
  - unfold RegisterInstance in *. destruct (StopChecking (hc s) id) as [h|] eqn:E; simplify_eq/=.
    apply StopChecking_queue in E as [E1 E2]. by apply deliver_inv_same.
  - unfold UnregisterInstance in *. destruct (StopChecking (hc s) id) as [h|] eqn:E; simplify_eq/=.
    apply StopChecking_queue in E as [E1 E2]. by apply deliver_inv_same.
  - destruct (StopChecking (hc s) id) as [h|] eqn:E; simplify_eq/=.
    apply StopChecking_queue in E as [E1 E2]. by apply deliver_inv_same.
  - by apply deliver_inv_same.
  - destruct (StartChecking (hc s) id) as [[h [[config c]|]]|] eqn:E; simplify_eq/=;
      apply StartChecking_queue in E as [E1 E2]; by apply deliver_inv_same.
  - apply deliver_inv_fired; [done|done|apply updateStatus_queued].
  - by apply deliver_inv_same.
  - apply deliver_inv_fired; [done|done|]. destruct (check_options _);
      [apply record_check_queued|apply updateStatus_queued].
  - by apply deliver_inv_same.
  - by apply deliver_inv_same.
  - by apply deliver_inv_drain.
  - destruct Hi as [D1 D2 D3 D4 D5]. constructor; simpl; try done.
    rewrite map_size_insert_Some; [done|eauto].
Qed.

Lemma reachable_deliver_inv s : hreachable s -> deliver_inv s.
Proof.
  induction 1 as [|s s' _ IH Hs]; [|by eapply deliver_inv_step].
  constructor; simpl; try done; [by exists []|unfold maxPendingNotifications; lia|by left].
Qed.

(** Status transitions are delivered in the order they were produced, by
    one goroutine at a time: what was delivered is a subsequence of what was
    produced and precedes what is queued, the queue holds the latest ones and
    never more than 1024, a non-empty queue always has its drainer, and
    nothing is lost before more than 1024 transitions were produced. *)
Theorem transitions_delivered_in_order (s : hsystem) :
  hreachable s ->
  (exists old, produced s = old ++ notifyQueue (hc s) /\ delivered s `sublist_of` old) /\
  (length (notifyQueue (hc s)) <= 1024)%nat /\ (size (drainers s) <= 1)%nat /\
  (notifyQueue (hc s) <> [] -> size (drainers s) = 1%nat) /\
  ((length (produced s) <= 1024)%nat -> produced s = delivered s ++ notifyQueue (hc s)).
Proof.
  intros Hr%reachable_deliver_inv. destruct Hr as [D1 D2 D3 D4 D5]. split_and!; [done|done| | |].
  - rewrite D3. destruct (notifyBusy (hc s)); lia.
  - intros Hq. by rewrite D3, D4.
  - intros Hl. destruct D5 as [?|H]; [done|]. unfold maxPendingNotifications in H. lia.
Qed.
End system.

(** ** The restart budget *)

Section budget.
Context {P : Type} (id : string) (policy : RestartPolicy).

(** A transition to [e_status] observed at [e_seen]; a restart it starts is
    counted at [e_done]. *)
Record event := { e_seen : Z; e_done : Z; e_status : HealthStatus }.

(** The restarter handles an event, and the goroutine it starts has counted
    its restart before the next one; [log] are the times of the restarts,
    latest first. *)
Definition react (st : AutoRestarter P * list Z) (e : event) : AutoRestarter P * list Z :=
  let '(ar, log) := st in
  let '(ar', go) := onHealthChange ar (e_seen e) id (e_status e) in
  if go then (mark_restart ar' (e_done e) id, e_done e :: log) else (ar', log).

(** Restarts at least [RestartDelay] apart. *)
Fixpoint spaced (log : list Z) : Prop :=
  match log with
  | t2 :: ((t1 :: _) as rest) => RestartDelay policy <= t2 - t1 /\ spaced rest
  | _ => True
  end.

Record budget_inv (st : AutoRestarter P * list Z) : Prop := {
  b_policy : restartPolicy st.1 !! id = Some policy;
  b_count : 0 <= GetRestartCount st.1 id <= Z.of_nat (length st.2);
  b_limit : 0 < MaxRestarts policy -> GetRestartCount st.1 id <= MaxRestarts policy;
  b_total : ResetCounterAfter policy <= 0 -> GetRestartCount st.1 id = Z.of_nat (length st.2);
  b_last : lastRestart st.1 !! id = head st.2;
  b_spaced : spaced st.2
}.

Lemma consider_restart_inv ar log now later healthyFor :
  budget_inv (ar, log) -> now <= later ->
  budget_inv (let '(ar', go) := consider_restart ar now healthyFor id policy in
              if go then (mark_restart ar' later id, later :: log) else (ar', log)).
Proof.
  intros [B1 B2 B3 B4 B5 B6] Hl. unfold consider_restart. simpl in *.
  set (ar1 := if (0 <? ResetCounterAfter policy) && _ then _ else _).
  assert (restartPolicy ar1 !! id = Some policy /\ lastRestart ar1 !! id = head log /\
          0 <= GetRestartCount ar1 id <= Z.of_nat (length log) /\
          (0 < MaxRestarts policy -> GetRestartCount ar1 id <= MaxRestarts policy) /\
          (ResetCounterAfter policy <= 0 -> GetRestartCount ar1 id = Z.of_nat (length log)))
    as (A1 & A2 & A3 & A4 & A5).
  { unfold ar1. destruct ((0 <? ResetCounterAfter policy) && _) eqn:E; [|done].
    apply andb_true_iff in E as [E%Z.ltb_lt _]. unfold GetRestartCount. simpl.
    rewrite lookup_insert_eq. simpl. split_and!; try done; lia. }
  clearbody ar1. clear ar B1 B2 B3 B4 B5.
  assert (budget_inv (ar1, log)) as Hskip by (by constructor).
  destruct ((0 <? MaxRestarts policy) && _) eqn:E; [done|].
  assert (spaced (later :: log) -> budget_inv (mark_restart ar1 later id, later :: log)) as Hgo.
  { intros Hsp. constructor; unfold mark_restart, GetRestartCount in *; simpl; rewrite ?lookup_insert_eq; simpl;
      try done; try lia. }
  rewrite A2. destruct log as [|t log]; simpl; [by apply Hgo|].
  destruct (now - t <? RestartDelay policy) eqn:Ed; simpl; [done|].
  apply Hgo. apply Z.ltb_ge in Ed. simpl in *. split; [lia|done].
Qed.

Lemma react_inv st e : budget_inv st -> e_seen e <= e_done e -> budget_inv (react st e).
Proof.
  destruct st as [ar log]. intros Hi Hl. unfold react, onHealthChange.
  destruct (restartPolicy ar !! id) as [p|] eqn:Hp; [|done].
  pose proof (b_policy _ Hi) as Hp'. simpl in Hp'. rewrite Hp in Hp'. simplify_eq.
  destruct (Enabled policy); [|done]. simpl. case_decide.
  { destruct (healthySince ar !! id); [done|]. by destruct Hi; constructor. }
  case_decide; [|by destruct Hi; constructor].
  apply (consider_restart_inv (with_counts ar _ (delete id (healthySince ar)) _)); [|done].
  by destruct Hi; constructor.
Qed.

Lemma run_inv events : forall st, budget_inv st -> Forall (fun e => e_seen e <= e_done e) events ->
  budget_inv (foldl react st events).
Proof.
  induction events as [|e events IH]; simpl; intros st Hi Hf; [done|].
  apply Forall_cons in Hf as [He Hf]. apply IH; [|done]. by apply react_inv.
Qed.
End budget.


(** ** A check that outlives its instance *)

Definition curl_check : HealthCheckConfig :=
  {| Command := ["curl"; "-f"; "http://localhost"]; Interval := Second; Timeout := Second; Retries := 1; StartPeriod := 0 |}.

Lemma hreachable_eq error_text s r s' :
  hreachable error_text s -> hstep error_text s r -> r = Some s' -> hreachable error_text s'.
Proof. intros Hr Hs ->. by eapply HR_step. Qed.

(** A check still running when its instance is unregistered brings the
    instance back: its result is stored under an id that is no longer
    registered, and [GetHealth] and [GetAllHealth], which list registered
    instances, answer for it. *)
Theorem late_check_revives_instance (error_text : error -> string) :
  exists s h, hreachable error_text s /\ configs (hc s) !! "web" = None /\
    GetHealth (hc s) "web" = None /\
    hstep error_text s (Some h) /\ configs (hc h) !! "web" = None /\
    HR_Status <$> GetHealth (hc h) "web" = Some HealthStatusHealthy /\
    is_Some (GetAllHealth (hc h) !! "web").
Proof.
  pose (l st := {| l_id := "web"; l_chan := 0; l_config := curl_check; l_stage := st |}).
  pose proof (HR_start error_text) as Hr.
  eapply hreachable_eq in Hr; [|apply (H_register error_text hstart 0 "web" curl_check)|reflexivity].
  eapply hreachable_eq in Hr; [|apply (H_start error_text _ "web" 0); reflexivity|vm_compute; reflexivity].
  eapply hreachable_eq in Hr; [|apply (H_ready error_text _ 0 (l Starting) 0 0); reflexivity|vm_compute; reflexivity].
  eapply hreachable_eq in Hr; [|apply (H_tick error_text _ 0 (l Ticking)); reflexivity|vm_compute; reflexivity].
  eapply hreachable_eq in Hr; [|apply (H_unregister error_text _ "web")|vm_compute; reflexivity].
  eexists _, _. split_and!; [exact Hr|reflexivity|reflexivity| | | |].
  - eapply (H_checked error_text _ 0 (l Checking) 1 1 (Some {| ER_ExitCode := 0; ER_Stdout := ""; ER_Stderr := "" |}) None 0);
      reflexivity.
  - reflexivity.
  - reflexivity.
  - vm_compute. eauto.
Qed.

Lemma health_after_checks_witness :
  old_status (foldl (apply_check (fun _ => "")) (default NewHealthChecker (RegisterInstance NewHealthChecker 0 "web" curl_check))
     [{| c_id := "web"; c_config := curl_check; c_now := 1; c_duration := 1; c_result := None;
         c_err := Some (Errorf "timeout" []) |}]) "web" = HealthStatusUnhealthy.
Proof.
  apply (health_after_checks (fun _ => "") NewHealthChecker 0 "web" curl_check
           (default NewHealthChecker (RegisterInstance NewHealthChecker 0 "web" curl_check))
           [{| c_id := "web"; c_config := curl_check; c_now := 1; c_duration := 1; c_result := None;
               c_err := Some (Errorf "timeout" []) |}]); [vm_compute; reflexivity|].
  by constructor.
Defined.

Lemma one_live_loop_witness : exists s', Some (with_hc hstart (OnHealthChange NewHealthChecker 7) ∅) = Some s'.
Proof.
  apply (one_live_loop (fun _ => "") hstart); [apply HR_start|apply (H_listen (fun _ => "") hstart 7)].
Defined.

Lemma transitions_delivered_in_order_witness :
  produced (with_hc hstart (OnHealthChange NewHealthChecker 7) ∅) =
  delivered hstart ++ notifyQueue (OnHealthChange NewHealthChecker 7).
Proof.
  apply (transitions_delivered_in_order (fun _ => "") (with_hc hstart (OnHealthChange NewHealthChecker 7) ∅));
    [|simpl; lia].
  eapply HR_step; [apply HR_start|apply (H_listen (fun _ => "") hstart 7)].
Defined.

