(* ===== verification/ManifestTypes.v ===== *)
(** * Manifest types (pkg/manifest/types.go)

    The records a decoded manifest is made of.  Field names carry a prefix of
    their struct.  A nil pointer is [None]; a map is its list of entries. *)

From stdpp Require Import base list strings.
From Stdlib Require Import ZArith.
From S2P Require Import Prelude ProviderTypes.

Record ImageSpec := { Img_Source : string; Img_Arch : string }.
Record ResourceSpec := { Res_CPU : Z; Res_Memory : string }.

Record IPConfig := { IP_Mode : string; IP_Address : string; IP_Gateway : string; IP_DNS : list string }.
Record PortConfig := { PC_Host : Z; PC_Container : Z; PC_Protocol : string }.

Record ManifestNetwork := {
  MN_Name : string; MN_Type : string; MN_Bridge : string; MN_BridgeFlags : list string;
  MN_VLAN : Z; MN_MAC : string; MN_IPPool : string; MN_MTU : Z;
  MN_IP : option IPConfig; MN_Ports : list PortConfig
}.

Record RootDiskSpec := { RD_Size : string; RD_Type : string; RD_Path : string }.
Record ZFSConfig := { ZC_Compression : string; ZC_Quota : string }.
Record VolumeSpec := {
  Vol_Name : string; Vol_Size : string; Vol_MountPath : string; Vol_HostPath : string;
  Vol_ReadOnly : bool; Vol_ZFS : option ZFSConfig
}.
Record StorageSpec := { RootDisk : option RootDiskSpec; Volumes : list VolumeSpec }.

Record RestartSpec := {
  RS_Enabled : bool; RS_MaxRestarts : Z; RS_Delay : string; RS_ResetAfter : string
}.
Record HealthCheckSpec := {
  HS_Command : list string; HS_Interval : string; HS_Timeout : string; HS_Retries : Z; HS_StartPeriod : string
}.
Record AutostartConfig := { AS_Enabled : bool; AS_Priority : Z; AS_Delay : string }.
Record HookSpec := { HK_Type : string; HK_Commands : list string; HK_OnFailure : string }.
Record HooksConfig := {
  HK_PreStart : string; HK_PostStart : string; HK_PreStop : string;
  HK_PreCreate : list HookSpec; HK_PostCreate : list HookSpec
}.
Record LifecycleSpec := {
  StopTimeout : Z; Autostart : option AutostartConfig; Hooks : option HooksConfig;
  HealthCheck_ : option HealthCheckSpec; Restart : option RestartSpec
}.

Record CloudInitUser := {
  CU_Name : string; CU_SSHAuthorizedKeys : list string; CU_Sudo : string; CU_Doas : string;
  CU_Shell : string; CU_Groups : list string; CU_LockPasswd : bool; CU_PlainTextPasswd : string
}.
Record CloudInitSpec := {
  CS_Enabled : option bool; CS_Hostname : string; CS_Users : list CloudInitUser;
  CS_Packages : list string; CS_RunCMD : list string; CS_SSHAuthorizedKeys : list string;
  CS_UserData : string; CS_UserDataFile : string
}.

Record ProviderConfig := {
  PV_OSType : string; PV_OSVersion : string; PV_Parameters : list (string * value);
  PV_Bootloader : string; PV_ConsoleType : string; PV_Passthrough : list string;
  PV_VNC : string; PV_DiskDriver : string; PV_Machine : string; PV_CPU : string;
  PV_Command : list string
}.

Record DependsOnConfig := { Services : list string; Condition : string }.

Definition DependsOnConditionHealthy : string := "healthy".
Definition DependsOnConditionStarted : string := "started".

Record InstanceConfig := {
  Inst_Name : string;
  Inst_Provider : string;
  Inst_Image : ImageSpec;
  Inst_Resources : ResourceSpec;
  Inst_Networks : list ManifestNetwork;
  Inst_Storage : StorageSpec;
  Inst_CloudInit : option CloudInitSpec;
  Inst_Lifecycle : LifecycleSpec;
  Inst_Environment : list (string * string);
  Inst_ProviderOverrides : list (string * ProviderConfig);
  Inst_DependsOn : option DependsOnConfig
}.

Record StackMeta := { SM_APIVersion : string; SM_Name : string }.
Record StackManifest := { Manifest_Stack : StackMeta; Manifest_Instances : list InstanceConfig }.

Record WorkloadMeta := {
  WM_APIVersion : string; WM_Name : string; WM_Description : string;
  WM_Labels : list (string * string); WM_Annotations : list (string * string)
}.
Record ProviderSpec := { PS_Type : string }.

Record WorkloadManifest := {
  W_Workload : WorkloadMeta;
  W_Provider : ProviderSpec;
  W_Image : ImageSpec;
  W_Resources : ResourceSpec;
  W_Networks : list ManifestNetwork;
  W_Storage : StorageSpec;
  W_CloudInit : option CloudInitSpec;
  W_Lifecycle : LifecycleSpec;
  W_Environment : list (string * string);
  W_ProviderOverrides : list (string * ProviderConfig)
}.

(** A parsed manifest, without where and when it was read. *)
Record ParsedManifest := {
  PM_Workload : option WorkloadManifest; PM_Stack : option StackManifest; PM_APIVersion : string
}.

Definition APIVersion : string := "hospitus.io/v1".
Definition ProviderTypeJail : string := "jail".
Definition ProviderTypeBhyve : string := "bhyve".
Definition ProviderTypeQEMU : string := "qemu".
Definition ProviderTypePodman : string := "podman".
Definition ImageTypeFreeBSD : string := "freebsd".
Definition ImageTypeOCI : string := "oci".
Definition ImageTypeCloud : string := "cloud".
Definition ImageTypeISO : string := "iso".
Definition NetworkTypeBridge : string := "bridge".
Definition NetworkTypeNAT : string := "nat".
Definition NetworkTypeMacvlan : string := "macvlan".
Definition NetworkTypeVXLAN : string := "vxlan".
Definition NetworkTypeNone : string := "none".
Definition IPModeDHCP : string := "dhcp".
Definition IPModeStatic : string := "static".
Definition IPModeNone : string := "none".
Definition DiskTypeAuto : string := "auto".
Definition DiskTypeZVOL : string := "zvol".
Definition DiskTypeQCOW2 : string := "qcow2".
Definition DiskTypeRaw : string := "raw".
Definition DiskTypePhysical : string := "physical".

(** The entry of a map held as its entries. *)
Definition assoc {A} (k : string) (m : list (string * A)) : option A :=
  snd <$> List.find (fun e => bool_decide (e.1 = k)) m.

(** The services an instance depends on. *)
Definition services_of (inst : InstanceConfig) : list string :=
  match Inst_DependsOn inst with Some d => Services d | None => [] end.
