(* ===== verification/ManifestParse.v ===== *)
(** * Reading manifests (pkg/manifest/parser.go)

    Sizes, durations and image sources; the defaults; and the scan that tells a
    workload from a stack before the file is decoded.  Decoding itself is the
    TOML library's. *)

From stdpp Require Import base list strings.
From Stdlib Require Import Ascii ZArith Lia Floats.SpecFloat.
From S2P Require Import Prelude GoStrings GoTime Regexp ProviderTypes ManifestTypes.

Local Open Scope Z_scope.

(** ** Sizes *)

Fixpoint span (p : ascii -> bool) (l : list ascii) : list ascii * list ascii :=
  match l with
  | c :: l' => if p c then let '(a, b) := span p l' in (c :: a, b) else ([], l)
  | [] => ([], [])
  end.

Definition re_space (c : ascii) : bool := ascii_in ["009"; "010"; "012"; "013"; " "]%char c.

(** The submatches of the expression for sizes: the digits before and after the
    point, and the unit.  At each place at most one alternative can go on, so
    reading from left to right finds the match if there is one. *)
Definition size_unit (l : list ascii) : list ascii * list ascii :=
  match l with
  | c :: l' =>
      if ascii_in (bytes "KMGT") c then
        match l' with
        | i :: l'' => if Ascii.eqb i "i" then ([c; i], l'') else ([c], l')
        | [] => ([c], [])
        end
      else ([], l)
  | [] => ([], [])
  end.

Definition size_end (l : list ascii) : bool :=
  match l with
  | [] => true
  | [c] => Ascii.eqb c "B" || Ascii.eqb c "b"
  | _ => false
  end.

Definition size_match (l : list ascii) : option (list ascii * list ascii * list ascii) :=
  let '(digits, r) := span is_digit l in
  if bool_decide (digits = []) then None
  else
    let '(fraction, r, ok) :=
      match r with
      | c :: r' => if Ascii.eqb c "." then let '(f, r'') := span is_digit r' in (f, r'', negb (bool_decide (f = [])))
                   else ([], r, true)
      | [] => ([], r, true)
      end in
    let '(unit, r) := size_unit (drop_while re_space r) in
    if ok && size_end r then Some (digits, fraction, unit) else None.

(** [strconv.ParseFloat] of digits with a point: the float nearest to [m / 10^k]. *)
Definition f64_of_decimal (m : Z) (k : nat) : spec_float :=
  if m <=? 0 then S754_zero false
  else let '(q, e, l) := SFdiv_core_binary 53 1024 m 0 (10 ^ Z.of_nat k) 0 in binary_round_aux 53 1024 false q e l.

Definition size_multiplier (unit : string) : option Z :=
  if streq unit "" then Some 1
  else if streq unit "K" then Some 1000
  else if streq unit "KI" then Some 1024
  else if streq unit "M" then Some (1000 * 1000)
  else if streq unit "MI" then Some (1024 * 1024)
  else if streq unit "G" then Some (1000 * 1000 * 1000)
  else if streq unit "GI" then Some (1024 * 1024 * 1024)
  else if streq unit "T" then Some (1000 * 1000 * 1000 * 1000)
  else if streq unit "TI" then Some (1024 * 1024 * 1024 * 1024)
  else None.

Section sizes.
(** The value of [int64(x)] for an [x] out of range, which Go leaves to the
    implementation. *)
Context (int64_overflow : spec_float -> Z).

Definition int64_of_f64 (x : spec_float) : Z :=
  match f64_trunc x with
  | Some n => if (- 2 ^ 63 <=? n) && (n <? 2 ^ 63) then n else int64_overflow x
  | None => int64_overflow x
  end.

Definition ParseMemorySize (size : string) : result Z :=
  if streq size "" then Err (Errorf "empty size string" [])
  else
    match size_match (bytes (TrimSpace size)) with
    | None => Err (Errorf "invalid size format: %s" [size])
    | Some (digits, fraction, unit) =>
        match f64_of_decimal (digits_value (digits ++ fraction)) (length fraction) with
        | S754_infinity _ => Err (Errorf "invalid number in size: %s" [size])
        | value =>
            match size_multiplier (ToUpper (of_bytes unit)) with
            | None => Err (Errorf "unknown unit: %s" [ToUpper (of_bytes unit)])
            | Some multiplier => Ok (int64_of_f64 (f64_mul value (f64_of_Z multiplier)))
            end
        end
    end.

(** Go's division truncates towards zero. *)
Definition ParseMemoryToMB (size : string) : result Z :=
  match ParseMemorySize size with
  | Err e => Err e
  | Ok b => Ok (Z.quot b (1024 * 1024))
  end.
End sizes.

Definition manifest_ParseDuration (s : string) : result Z :=
  if streq s "" then Ok 0 else ParseDuration s.

(** ** Image sources *)

Definition ParseImageSource (source : string) : result (string * string) :=
  if streq source "" then Err (Errorf "empty image source" [])
  else if streq source "none" then Ok ("none", "none")
  else
    match Cut source ":" with
    | None => Err (Errorf "invalid image source format: %s (expected type:reference)" [source])
    | Some (t, reference) =>
        let imageType := ToLower t in
        if negb (existsb (streq imageType) [ImageTypeFreeBSD; ImageTypeOCI; ImageTypeCloud; ImageTypeISO])
        then Err (Errorf "unknown image type: %s (valid: freebsd, oci, cloud, iso)" [imageType])
        else if streq reference "" then Err (Errorf "empty image reference in: %s" [source])
        else Ok (imageType, reference)
    end.

(** ** Defaults *)

Definition default_image (img : ImageSpec) : ImageSpec :=
  {| Img_Source := Img_Source img; Img_Arch := if streq (Img_Arch img) "" then "amd64" else Img_Arch img |}.

Definition default_resources (r : ResourceSpec) : ResourceSpec :=
  {| Res_CPU := if Res_CPU r =? 0 then 1 else Res_CPU r;
     Res_Memory := if streq (Res_Memory r) "" then "512Mi" else Res_Memory r |}.

Definition default_ip (ip : IPConfig) : IPConfig :=
  {| IP_Mode := if streq (IP_Mode ip) "" then IPModeDHCP else IP_Mode ip; IP_Address := IP_Address ip;
     IP_Gateway := IP_Gateway ip; IP_DNS := IP_DNS ip |}.

Definition default_port (p : PortConfig) : PortConfig :=
  {| PC_Host := PC_Host p; PC_Container := PC_Container p;
     PC_Protocol := if streq (PC_Protocol p) "" then "tcp" else PC_Protocol p |}.

Definition default_network (n : ManifestNetwork) : ManifestNetwork :=
  {| MN_Name := MN_Name n; MN_Type := if streq (MN_Type n) "" then NetworkTypeBridge else MN_Type n;
     MN_Bridge := MN_Bridge n; MN_BridgeFlags := MN_BridgeFlags n; MN_VLAN := MN_VLAN n; MN_MAC := MN_MAC n;
     MN_IPPool := MN_IPPool n; MN_MTU := MN_MTU n; MN_IP := default_ip <$> MN_IP n;
     MN_Ports := map default_port (MN_Ports n) |}.

Definition cloudInitSectionEmpty (c : CloudInitSpec) : bool :=
  bool_decide (length (CS_Users c) = 0%nat) && bool_decide (length (CS_Packages c) = 0%nat) &&
  bool_decide (length (CS_RunCMD c) = 0%nat) && bool_decide (length (CS_SSHAuthorizedKeys c) = 0%nat) &&
  streq (CS_UserData c) "" && streq (CS_UserDataFile c) "".

Definition default_cloud_init (name : string) (c : CloudInitSpec) : CloudInitSpec :=
  {| CS_Enabled := match CS_Enabled c with
                   | None => if cloudInitSectionEmpty c then None else Some true
                   | e => e
                   end;
     CS_Hostname := if streq (CS_Hostname c) "" then name else CS_Hostname c;
     CS_Users := CS_Users c; CS_Packages := CS_Packages c; CS_RunCMD := CS_RunCMD c;
     CS_SSHAuthorizedKeys := CS_SSHAuthorizedKeys c; CS_UserData := CS_UserData c; CS_UserDataFile := CS_UserDataFile c |}.

Definition default_root_disk (d : RootDiskSpec) : RootDiskSpec :=
  {| RD_Size := RD_Size d; RD_Type := if streq (RD_Type d) "" then DiskTypeAuto else RD_Type d; RD_Path := RD_Path d |}.

Definition default_autostart (a : AutostartConfig) : AutostartConfig :=
  {| AS_Enabled := AS_Enabled a; AS_Priority := if AS_Priority a =? 0 then 50 else AS_Priority a; AS_Delay := AS_Delay a |}.

Definition applyWorkloadDefaults (m : WorkloadManifest) : WorkloadManifest :=
  let meta := W_Workload m in
  {| W_Workload := {| WM_APIVersion := if streq (WM_APIVersion meta) "" then APIVersion else WM_APIVersion meta;
                      WM_Name := WM_Name meta; WM_Description := WM_Description meta;
                      WM_Labels := WM_Labels meta; WM_Annotations := WM_Annotations meta |};
     W_Provider := W_Provider m; W_Image := default_image (W_Image m); W_Resources := default_resources (W_Resources m);
     W_Networks := map default_network (W_Networks m);
     W_Storage := {| RootDisk := default_root_disk <$> RootDisk (W_Storage m); Volumes := Volumes (W_Storage m) |};
     W_CloudInit := default_cloud_init (WM_Name meta) <$> W_CloudInit m;
     W_Lifecycle := {| StopTimeout := StopTimeout (W_Lifecycle m); Autostart := default_autostart <$> Autostart (W_Lifecycle m);
                       Hooks := Hooks (W_Lifecycle m); HealthCheck_ := HealthCheck_ (W_Lifecycle m);
                       Restart := Restart (W_Lifecycle m) |};
     W_Environment := W_Environment m; W_ProviderOverrides := W_ProviderOverrides m |}.

Definition default_depends_on (d : DependsOnConfig) : DependsOnConfig :=
  {| Services := Services d; Condition := if streq (Condition d) "" then DependsOnConditionStarted else Condition d |}.

Definition applyInstanceDefaults (inst : InstanceConfig) : InstanceConfig :=
  {| Inst_Name := Inst_Name inst; Inst_Provider := Inst_Provider inst; Inst_Image := default_image (Inst_Image inst);
     Inst_Resources := default_resources (Inst_Resources inst); Inst_Networks := map default_network (Inst_Networks inst);
     Inst_Storage := Inst_Storage inst; Inst_CloudInit := default_cloud_init (Inst_Name inst) <$> Inst_CloudInit inst;
     Inst_Lifecycle := Inst_Lifecycle inst; Inst_Environment := Inst_Environment inst;
     Inst_ProviderOverrides := Inst_ProviderOverrides inst; Inst_DependsOn := default_depends_on <$> Inst_DependsOn inst |}.

(** ** Which kind of manifest *)

Definition newline : ascii := "010".
Definition basic_delim : list ascii := ["034"; "034"; "034"]%char.
Definition literal_delim : list ascii := ["039"; "039"; "039"]%char.

Fixpoint count (c : ascii) (l : list ascii) : nat :=
  match l with [] => 0 | d :: l' => if Ascii.eqb d c then S (count c l') else count c l' end.

(** What is before and after the first occurrence of [delim]. *)
Fixpoint cut_at (delim l : list ascii) : option (list ascii * list ascii) :=
  if has_prefix_l delim l then Some ([], drop (length delim) l)
  else match l with
       | [] => None
       | c :: l' => match cut_at delim l' with Some (a, b) => Some (c :: a, b) | None => None end
       end.

(** The body of a single-line string, up to its quote or the end of the line. *)
Fixpoint single_line (quote : ascii) (l : list ascii) : list ascii * list ascii :=
  match l with
  | [] => ([], [])
  | c :: l' =>
      if Ascii.eqb c quote || Ascii.eqb c newline then ([], l)
      else if Ascii.eqb quote "034" && Ascii.eqb c "\" then
        match l' with
        | d :: l'' => let '(a, b) := single_line quote l'' in (c :: d :: a, b)
        | [] => ([c], [])
        end
      else let '(a, b) := single_line quote l' in (c :: a, b)
  end.

(** [blankMultilineStrings]; every turn consumes a byte, so the length is fuel enough. *)
Fixpoint blank_loop (fuel : nat) (l : list ascii) : list ascii :=
  match fuel, l with
  | S fuel', c :: l' =>
      if Ascii.eqb c "#" then
        match cut_l newline l with
        | None => l
        | Some (a, b) => a ++ blank_loop fuel' (newline :: b)
        end
      else if has_prefix_l basic_delim l || has_prefix_l literal_delim l then
        let delim := if Ascii.eqb c "039" then literal_delim else basic_delim in
        let body := drop 3 l in
        match cut_at delim body with
        | None => delim ++ repeat newline (count newline body)
        | Some (a, b) => delim ++ repeat newline (count newline a) ++ delim ++ blank_loop fuel' b
        end
      else if Ascii.eqb c "034" || Ascii.eqb c "039" then
        let '(a, b) := single_line c l' in
        match b with
        | d :: b' => if Ascii.eqb d c then c :: a ++ c :: blank_loop fuel' b' else c :: a ++ blank_loop fuel' b
        | [] => c :: a
        end
      else c :: blank_loop fuel' l'
  | _, _ => []
  end.

Definition blankMultilineStrings (content : string) : string :=
  of_bytes (blank_loop (length (bytes content)) (bytes content)).

(** The lines of a text. *)
Fixpoint lines (l : list ascii) : list (list ascii) :=
  match l with
  | [] => [[]]
  | c :: l' =>
      match lines l' with
      | x :: xs => if Ascii.eqb c newline then [] :: x :: xs else (c :: x) :: xs
      | [] => []
      end
  end.

(** A line that is the header of the table [name], with at most a comment after it. *)
Definition section_line (name : string) : re :=
  let blank := Star (Cls (fun c => Ascii.eqb c " " || Ascii.eqb c "009")) in
  Seq blank (Seq (foldr (fun c r => Seq (Chr c) r) Eps (bytes ("[" +:+ name +:+ "]")))
    (Seq blank (Seq (Opt (Seq (Chr "#") (Star (Cls (fun c => negb (Ascii.eqb c newline)))))) (Opt (Chr "013"))))).

Definition has_section (name content : string) : bool :=
  existsb (matches (section_line name)) (lines (bytes content)).

Definition detectManifestType (data : string) : result string :=
  let content := blankMultilineStrings data in
  let hasWorkload := has_section "workload" content in
  let hasStack := has_section "stack" content in
  if hasWorkload && hasStack then Err (Errorf "manifest cannot contain both [workload] and [stack] sections" [])
  else if hasWorkload then Ok "workload"
  else if hasStack then Ok "stack"
  else Err (Errorf "manifest must contain either [workload] or [stack] section" []).

(** ** Facts *)

Lemma count_app c l k : count c (l ++ k) = (count c l + count c k)%nat.
Proof. induction l as [|d l IH]; simpl; [done|]. destruct (Ascii.eqb d c); lia. Qed.

Lemma count_repeat c n : count c (repeat c n) = n.
Proof. induction n as [|n IH]; simpl; [done|]. by rewrite Ascii.eqb_refl, IH. Qed.

Lemma cut_at_spec delim l a b : cut_at delim l = Some (a, b) -> l = a ++ delim ++ b.
Proof.
  assert (forall l, has_prefix_l delim l = true -> l = delim ++ drop (length delim) l) as Hp.
  { intros k [t ->]%has_prefix_l_spec. by rewrite drop_app_length. }
  revert a b. induction l as [|c l IH]; simpl; intros a b.
  - destruct (has_prefix_l delim []) eqn:E; [|done]. intros [= <- <-]. simpl. by apply Hp.
  - destruct (has_prefix_l delim (c :: l)) eqn:E; [intros [= <- <-]; simpl; by apply Hp|].
    destruct (cut_at delim l) as [[x y]|]; [|done]. intros [= <- <-]. simpl. f_equal. by apply IH.
Qed.

Lemma single_line_spec q n : forall l, (length l <= n)%nat ->
  let '(a, b) := single_line q l in l = a ++ b.
Proof.
  induction n as [|n IH]; intros [|c l] Hn; simpl in *; try done; [lia|].
  destruct (Ascii.eqb c q || _); [done|]. destruct (_ && _).
  - destruct l as [|d l]; [done|]. specialize (IH l). simpl in Hn.
    destruct (single_line q l) as [a b]. simpl. do 2 f_equal. apply IH. lia.
  - specialize (IH l). destruct (single_line q l) as [a b]. simpl. f_equal. apply IH. lia.
Qed.

(** With fuel enough, blanking keeps every line break. *)
Lemma blank_loop_count fuel : forall l, (length l <= fuel)%nat -> count newline (blank_loop fuel l) = count newline l.
Proof.
  induction fuel as [|fuel IH]; intros [|c l] Hn; cbn [length] in Hn; try done; [lia|]. cbn [blank_loop].
  destruct (Ascii.eqb c "#") eqn:E1.
  { destruct (cut_l newline (c :: l)) as [[a b]|] eqn:Ec; [|done]. apply cut_l_Some in Ec as [Ec Hnot].
    rewrite Ec, !count_app, IH; [done|].
    destruct a as [|x a]; [simpl in Ec; injection Ec as -> _; by vm_compute in E1|].
    injection Ec as _ Ec. apply (f_equal length) in Ec. rewrite length_app in Ec. cbn [length] in *. lia. }
  destruct (has_prefix_l basic_delim (c :: l) || has_prefix_l literal_delim (c :: l)) eqn:E2.
  { set (delim := if Ascii.eqb c "039" then literal_delim else basic_delim).
    assert (c :: l = delim ++ drop 3 (c :: l)) as Hd.
    { unfold delim. apply orb_true_iff in E2 as [H|H]; apply has_prefix_l_spec in H as [t Ht]; rewrite Ht;
        injection Ht as -> _; reflexivity. }
    assert (length delim = 3%nat /\ count newline delim = 0%nat) as [Hl Hz] by (unfold delim; by destruct (Ascii.eqb c "039")).
    revert Hd. generalize (drop 3 (c :: l)). intros body Hd. rewrite Hd.
    assert (length l = S (S (length body))) as Hlen.
    { apply (f_equal length) in Hd. rewrite length_app, Hl in Hd. simpl in Hd. lia. }
    destruct (cut_at delim body) as [[a b]|] eqn:Ec.
    - apply cut_at_spec in Ec. rewrite Ec, !count_app, count_repeat, IH; [lia|].
      apply (f_equal length) in Ec. rewrite !length_app in Ec. lia.
    - rewrite !count_app, count_repeat. lia. }
  destruct (Ascii.eqb c "034" || Ascii.eqb c "039") eqn:E3.
  { pose proof (single_line_spec c (length l) l (Nat.le_refl _)) as Hs. destruct (single_line c l) as [a b].
    subst l. rewrite length_app in Hn. cbn [count]. destruct b as [|d b].
    - by rewrite app_nil_r.
    - cbn [length] in Hn. rewrite count_app. destruct (Ascii.eqb d c) eqn:Ed.
      + apply Ascii.eqb_eq in Ed as ->. cbn [count]. rewrite count_app. cbn [count].
        rewrite IH by lia. by destruct (Ascii.eqb c newline).
      + cbn [count]. rewrite count_app, IH by (cbn [length]; lia). cbn [count]. by destruct (Ascii.eqb c newline). }
  cbn [count]. rewrite IH by lia. done.
Qed.

(** Blanking the bodies of multiline strings keeps the line structure of the
    document: the result has exactly the line breaks of the input. *)
Theorem blanking_keeps_lines (content : string) :
  count newline (bytes (blankMultilineStrings content)) = count newline (bytes content).
Proof. unfold blankMultilineStrings. rewrite bytes_of_bytes. by apply blank_loop_count. Qed.

(** A size beyond [int64] is accepted, with whatever value the conversion gives. *)
Lemma size_overflow_accepted (int64_overflow : spec_float -> Z) :
  ParseMemorySize int64_overflow "16777216Ti" = Ok (int64_overflow (S754_finite false (2 ^ 52) 12)).
Proof. reflexivity. Qed.
