(* ===== verification/DepOrder.v ===== *)
(** * The deployment order of a stack ([buildDependencyOrder], pkg/orchestration/stack.go)

    Go visits a map in an unspecified order, which may differ each time: each
    loop over one takes the order from [range], any function that lists the
    entries of a map, given the number of the visit. *)

From stdpp Require Import base list gmap strings sorting.
From Stdlib Require Import ZArith Lia.
From S2P Require Import Prelude ProviderTypes ManifestTypes.

Local Open Scope Z_scope.

Definition range_fn := nat -> gmap string (list string) -> list (string * list string).

(** What Go guarantees of a loop over a map. *)
Definition range_ok (range : range_fn) : Prop := forall k m, range k m ≡ₚ map_to_list m.

(** The maps [deps] and [byName]; a later instance replaces one of its name. *)
Definition deps_of (instances : list InstanceConfig) : gmap string (list string) :=
  foldl (fun m inst => <[Inst_Name inst := services_of inst]> m) ∅ instances.

Definition byName_of (instances : list InstanceConfig) : gmap string InstanceConfig :=
  foldl (fun m inst => <[Inst_Name inst := inst]> m) ∅ instances.

(** The first unknown reference the validation loop meets. *)
Definition unknown_dependency (byName : gmap string InstanceConfig) (entries : list (string * list string))
    : option error :=
  for_each (fun e => for_each (fun d =>
      fail_if (bool_decide (byName !! d = None))
        (Errorf "instance %q depends on unknown service %q" [e.1; d])) e.2) entries.

(** The body of the innermost loop: [d] is a dependency of [depName]. *)
Definition relax_one (name depName : string) (st : gmap string Z * list string) (d : string)
    : gmap string Z * list string :=
  if decide (d = name) then
    let k := default 0 (st.1 !! depName) - 1 in
    (<[depName := k]> st.1, if decide (k = 0) then st.2 ++ [depName] else st.2)
  else st.

(** Reduce the in-degree of the dependents of [name]. *)
Definition relax (name : string) (st : gmap string Z * list string) (entry : string * list string)
    : gmap string Z * list string :=
  foldl (relax_one name entry.1) st entry.2.

(** The loop [for len(queue) > 0]; [None] when [fuel] passes do not empty it. *)
Fixpoint kahn (range : range_fn) (deps : gmap string (list string)) (byName : gmap string InstanceConfig)
    (fuel : nat) (queue : list string) (inDegree : gmap string Z) (result : list InstanceConfig)
    : option (list InstanceConfig) :=
  match queue with
  | [] => Some result
  | name :: queue' =>
      match fuel with
      | O => None
      | S fuel' =>
          let result' := match byName !! name with Some inst => result ++ [inst] | None => result end in
          let '(inDegree', newQueue) := foldl (relax name) (inDegree, []) (range (S fuel) deps) in
          kahn range deps byName fuel' (queue' ++ sort_strings newQueue) inDegree' result'
      end
  end.

(** [inDegree] before the loop, and the names it starts from. *)
Definition initial_degrees (deps : gmap string (list string)) : gmap string Z :=
  (fun depList => Z.of_nat (length depList)) <$> deps.

Definition initial_queue (entries : list (string * list string)) (inDegree : gmap string Z) : list string :=
  sort_strings (List.filter (fun name => bool_decide (inDegree !! name = Some 0)) entries.*1).

(** The first repeated name. *)
Fixpoint duplicate_name (seen : list string) (instances : list InstanceConfig) : option string :=
  match instances with
  | [] => None
  | inst :: rest =>
      if decide (Inst_Name inst ∈ seen) then Some (Inst_Name inst)
      else duplicate_name (Inst_Name inst :: seen) rest
  end.

(** The outer [None] is a loop that does not end, which [order_total] excludes. *)
Definition buildDependencyOrder (range : range_fn) (instances : list InstanceConfig)
    : option (result (list InstanceConfig)) :=
  let deps := deps_of instances in
  let byName := byName_of instances in
  match unknown_dependency byName (range 0%nat deps) with
  | Some e => Some (Err e)
  | None =>
      let inDegree := initial_degrees deps in
      match kahn range deps byName (length instances) (initial_queue (range 1%nat deps) inDegree) inDegree [] with
      | None => None
      | Some result =>
          match (if decide (size byName = length instances) then None else duplicate_name [] instances) with
          | Some name => Some (Err (Errorf "duplicate instance name %q in stack" [name]))
          | None =>
              if decide (length result = length instances) then Some (Ok result)
              else Some (Err (Errorf "circular dependency detected" []))
          end
      end
  end.
