(* ===== verification/DepOrderFacts.v ===== *)
(** * Correctness of the deployment order

    Kahn's loop always ends, its result is a topological order of the
    instances, it fails only when there is none, and the order does not depend
    on how Go visits its maps. *)

From stdpp Require Import base list gmap strings sorting.
From Stdlib Require Import ZArith Lia.
From S2P Require Import Prelude ProviderTypes ManifestTypes DepOrder.

Local Open Scope Z_scope.

(** ** Counting *)

(** How often [x] occurs in [l], and how many elements of [l] are outside [P]. *)
Definition occ (x : string) (l : list string) : Z := Z.of_nat (length (filter (fun y => y = x) l)).
Definition remaining (P l : list string) : Z := Z.of_nat (length (filter (fun y => y ∉ P) l)).

Lemma occ_cons x y l : occ x (y :: l) = (if decide (y = x) then 1 else 0) + occ x l.
Proof. unfold occ. rewrite filter_cons. case_decide; cbn [length]; lia. Qed.

Lemma occ_nonneg x l : 0 <= occ x l.
Proof. unfold occ. lia. Qed.

Lemma remaining_nonneg P l : 0 <= remaining P l.
Proof. unfold remaining. lia. Qed.

Lemma remaining_nil l : remaining [] l = Z.of_nat (length l).
Proof.
  unfold remaining. induction l as [|x l IH]; [done|]. rewrite filter_cons.
  rewrite decide_True by apply not_elem_of_nil. cbn [length]. lia.
Qed.

Lemma remaining_snoc P x l : x ∉ P -> remaining (P ++ [x]) l = remaining P l - occ x l.
Proof.
  intros Hx. unfold remaining. induction l as [|y l IH]; [done|].
  rewrite !filter_cons, occ_cons.
  destruct (decide (y = x)) as [->|Hne].
  - rewrite decide_False by set_solver. rewrite decide_True by done. cbn [length]. lia.
  - destruct (decide (y ∉ P)) as [H|H].
    + rewrite decide_True by set_solver. cbn [length]. lia.
    + rewrite decide_False by set_solver. lia.
Qed.

Lemma remaining_zero P l : remaining P l = 0 <-> Forall (fun d => d ∈ P) l.
Proof.
  unfold remaining. induction l as [|y l IH]; [split; [constructor|done]|].
  rewrite filter_cons, Forall_cons. destruct (decide (y ∉ P)) as [H|H].
  - cbn [length]. split; [lia|]. by intros [? _].
  - rewrite IH. split; [|tauto]. intros Hf. split; [|done]. by destruct (decide (y ∈ P)).
Qed.

Lemma occ_le_remaining P x l : x ∉ P -> occ x l <= remaining P l.
Proof.
  intros Hx. pose proof (remaining_nonneg (P ++ [x]) l). rewrite remaining_snoc in * by done. lia.
Qed.

(** ** One pass of the loop *)

Lemma relax_one_spec name n ds : forall deg nq k,
  deg !! n = Some k -> occ name ds <= k ->
  exists deg' nq', foldl (relax_one name n) (deg, nq) ds = (deg', nq') /\
    deg' !! n = Some (k - occ name ds) /\ (forall m, m <> n -> deg' !! m = deg !! m) /\
    nq' = nq ++ (if decide (0 < occ name ds /\ occ name ds = k) then [n] else []).
Proof.
  induction ds as [|d ds IH]; intros deg nq k Hk Hle; cbn [foldl].
  - exists deg, nq. change (occ name []) with 0. rewrite Z.sub_0_r, decide_False by lia. by rewrite app_nil_r.
  - rewrite occ_cons in *. unfold relax_one at 2. cbn [fst snd]. pose proof (occ_nonneg name ds).
    destruct (decide (d = name)) as [->|Hne].
    + rewrite Hk. change (default 0 (Some k)) with k.
      destruct (IH (<[n := k - 1]> deg) (if decide (k - 1 = 0) then nq ++ [n] else nq) (k - 1))
        as (deg' & nq' & -> & H1 & H2 & H3); [by rewrite lookup_insert_eq|lia|].
      exists deg', nq'. split_and!; [done|rewrite H1; f_equal; lia| |].
      * intros m Hm. by rewrite H2, lookup_insert_ne.
      * rewrite H3. destruct (decide (k - 1 = 0)).
        -- rewrite decide_False by lia. rewrite decide_True by lia. by rewrite app_nil_r.
        -- destruct (decide (0 < occ name ds /\ occ name ds = k - 1)).
           ++ by rewrite decide_True by lia.
           ++ by rewrite decide_False by lia.
    + destruct (IH deg nq k Hk) as (deg' & nq' & -> & H1 & H2 & H3); [lia|].
      exists deg', nq'. split_and!; [done|rewrite H1; f_equal; lia|done|]. rewrite H3.
      destruct (decide (0 < occ name ds /\ occ name ds = k)).
      * by rewrite decide_True by lia.
      * by rewrite decide_False by lia.
Qed.

(** The dependents of [name] that become ready, in the order visited. *)
Definition newly_ready (name : string) (deg : gmap string Z) (entries : list (string * list string)) : list string :=
  (filter (fun e => 0 < occ name e.2 /\ deg !! e.1 = Some (occ name e.2)) entries).*1.

Lemma newly_ready_perm name deg e1 e2 : e1 ≡ₚ e2 -> newly_ready name deg e1 ≡ₚ newly_ready name deg e2.
Proof. intros H. unfold newly_ready. by rewrite H. Qed.

Lemma newly_ready_ext name deg deg' entries :
  (forall e, e ∈ entries -> deg !! e.1 = deg' !! e.1) ->
  newly_ready name deg entries = newly_ready name deg' entries.
Proof.
  intros H. unfold newly_ready. f_equal. induction entries as [|e es IH]; [done|].
  rewrite !filter_cons, IH by (intros; apply H; by right).
  destruct (decide (0 < occ name e.2 /\ deg !! e.1 = Some (occ name e.2))) as [D|D];
    rewrite (H e) in D by left; [by rewrite decide_True|by rewrite decide_False].
Qed.

(** What the pass for [name] does to the in-degrees and to the queue. *)
Lemma relax_spec name entries : forall deg nq,
  NoDup entries.*1 ->
  (forall n ds, (n, ds) ∈ entries -> exists k, deg !! n = Some k /\ occ name ds <= k) ->
  exists deg' nq', foldl (relax name) (deg, nq) entries = (deg', nq') /\
    (forall n ds k, (n, ds) ∈ entries -> deg !! n = Some k -> deg' !! n = Some (k - occ name ds)) /\
    (forall m, m ∉ entries.*1 -> deg' !! m = deg !! m) /\
    nq' = nq ++ newly_ready name deg entries.
Proof.
  induction entries as [|[n ds] es IH]; intros deg nq Hnd Hk.
  - exists deg, nq. split_and!; [done| |done|by rewrite app_nil_r]. intros ? ? ? []%elem_of_nil.
  - apply NoDup_cons in Hnd as [Hn Hnd]. destruct (Hk n ds) as (k & Hdk & Hle); [left|].
    destruct (relax_one_spec name n ds deg nq k Hdk Hle) as (deg1 & nq1 & E1 & H1 & H2 & H3).
    assert (forall m ds', (m, ds') ∈ es -> m <> n) as Hne.
    { intros m ds' Hm ->. apply Hn. apply list_elem_of_fmap. by exists (n, ds'). }
    destruct (IH deg1 nq1 Hnd) as (deg' & nq' & E2 & G1 & G2 & G3).
    { intros m ds' Hm. rewrite H2 by (by eapply Hne). apply Hk. by right. }
    exists deg', nq'. split_and!.
    + cbn [foldl]. unfold relax at 2. cbn [fst snd]. by rewrite E1.
    + intros m ds' k' [[= -> ->]|Hm]%elem_of_cons Hk'.
      * rewrite G2 by done. rewrite H1. by simplify_eq.
      * rewrite (G1 m ds' k') by (done || by rewrite H2 by (by eapply Hne)). done.
    + intros m Hm. apply not_elem_of_cons in Hm as [Hm1 Hm2]. rewrite G2 by done. by apply H2.
    + rewrite G3, H3, <- app_assoc. f_equal.
      rewrite (newly_ready_ext name deg1 deg es).
      2:{ intros [m ds'] Hm. apply H2. by eapply Hne. }
      unfold newly_ready. rewrite filter_cons. cbn [fst snd]. rewrite Hdk.
      destruct (decide (0 < occ name ds /\ occ name ds = k)) as [D|D].
      * rewrite decide_True by (split; [lia|f_equal; lia]). done.
      * rewrite decide_False; [done|]. intros [? ?]. simplify_eq. lia.
Qed.

(** ** The loop *)

(** Each name of [P] comes after everything it depends on. *)
Definition ordered (deps : gmap string (list string)) (P : list string) : Prop :=
  forall i n ds, P !! i = Some n -> deps !! n = Some ds -> Forall (fun d => d ∈ take i P) ds.

(** [P] are the names taken from the queue so far. *)
Record kahn_inv (deps : gmap string (list string)) (P queue : list string) (deg : gmap string Z) : Prop := {
  k_nodup : NoDup (P ++ queue);
  k_degree : forall n, deg !! n = remaining P <$> deps !! n;
  k_ready : forall n, n ∈ P ++ queue <-> exists ds, deps !! n = Some ds /\ Forall (fun d => d ∈ P) ds;
  k_order : ordered deps P
}.

Lemma ordered_snoc deps P name ds :
  ordered deps P -> deps !! name = Some ds -> Forall (fun d => d ∈ P) ds -> ordered deps (P ++ [name]).
Proof.
  intros Ho Hd Hf i n ds' Hi Hds. apply lookup_app_Some in Hi as [Hi|[Hlen Hi]].
  - rewrite take_app_le by (apply lookup_lt_Some in Hi; lia). eauto.
  - destruct (i - length P)%nat eqn:E; [|done]. simpl in Hi. injection Hi as ->.
    rewrite take_app_ge by lia. rewrite Hds in Hd. injection Hd as ->. rewrite E. simpl.
    rewrite app_nil_r. done.
Qed.

(** One pass keeps the invariant, whatever order the map is visited in, and
    queues the same names in the same order. *)
Lemma kahn_step deps P name queue deg entries :
  kahn_inv deps P (name :: queue) deg -> entries ≡ₚ map_to_list deps ->
  exists deg' nq', foldl (relax name) (deg, []) entries = (deg', nq') /\
    deg' = (remaining (P ++ [name]) <$> deps) /\
    sort_strings nq' = sort_strings (newly_ready name deg (map_to_list deps)) /\
    kahn_inv deps (P ++ [name]) (queue ++ sort_strings nq') deg'.
Proof.
  intros [K1 K2 K3 K4] Hp.
  assert (name ∉ P) as HnP by (apply NoDup_app in K1 as (_ & Hd & _); intros H; apply (Hd name H); left).
  assert (forall n ds, (n, ds) ∈ entries <-> deps !! n = Some ds) as He.
  { intros n ds. rewrite Hp. apply elem_of_map_to_list. }
  assert (NoDup entries.*1) as Hnd by (rewrite Hp; apply NoDup_fst_map_to_list).
  destruct (relax_spec name entries deg [] Hnd) as (deg' & nq' & E & H1 & H2 & H3).
  { intros n ds Hin%He. exists (remaining P ds). split; [by rewrite K2, Hin|by apply occ_le_remaining]. }
  simpl in H3. exists deg', nq'. split; [done|].
  assert (forall n, deg' !! n = remaining (P ++ [name]) <$> deps !! n) as Hdeg.
  { intros n. destruct (deps !! n) as [ds|] eqn:Ed; simpl.
    - rewrite (H1 n ds (remaining P ds)); [|by apply He|by rewrite K2, Ed]. by rewrite remaining_snoc.
    - rewrite H2; [by rewrite K2, Ed|]. intros ([n' ds] & -> & Hin%He)%list_elem_of_fmap. by simplify_eq/=. }
  assert (forall n, n ∈ nq' <-> exists ds, deps !! n = Some ds /\ 0 < occ name ds /\ remaining P ds = occ name ds) as Hnq.
  { intros n. subst nq'. unfold newly_ready. rewrite list_elem_of_fmap. split.
    - intros ([n' ds] & -> & [[Ho Hk] Hin]%list_elem_of_filter). simpl in *. apply He in Hin.
      exists ds. rewrite K2, Hin in Hk. simpl in Hk. split_and!; [done|done|congruence].
    - intros (ds & Hd & Ho & Hk). exists (n, ds). split; [done|]. apply list_elem_of_filter. simpl.
      rewrite K2, Hd. simpl. rewrite Hk. split; [done|by apply He]. }
  split_and!.
  - apply map_eq. intros n. by rewrite Hdeg, lookup_fmap.
  - subst nq'. by rewrite (newly_ready_perm _ _ _ _ Hp).
  - assert (forall n, n ∈ P ++ name :: queue <-> n ∈ (P ++ [name]) ++ queue) as Hmem
      by (intros n; rewrite <- app_assoc; done).
    constructor.
    + rewrite app_assoc. apply NoDup_app. split_and!.
      * by rewrite <- app_assoc.
      * intros n Hn Hs. rewrite elem_of_sort_strings in Hs. apply Hnq in Hs as (ds & Hd & Ho & Hk).
        apply Hmem, K3 in Hn as (ds' & Hd' & Hf%remaining_zero). simplify_eq. lia.
      * apply NoDup_sort_strings. subst nq'. unfold newly_ready. 
        eapply sublist_NoDup; [exact Hnd|]. apply fmap_sublist, sublist_filter.
    + done.
    + intros n. rewrite app_assoc, elem_of_app, <- Hmem, elem_of_sort_strings, K3, Hnq. split.
      * intros [(ds & Hd & Hf)|(ds & Hd & Ho & Hk)]; exists ds; (split; [done|]).
        -- eapply Forall_impl; [exact Hf|]. intros d Hd'. simpl in *. set_solver.
        -- apply remaining_zero. rewrite remaining_snoc by done. lia.
      * intros (ds & Hd & Hf%remaining_zero). rewrite remaining_snoc in Hf by done.
        destruct (decide (occ name ds = 0)) as [E0|E0].
        -- left. exists ds. split; [done|]. apply remaining_zero. lia.
        -- right. exists ds. pose proof (occ_nonneg name ds). split_and!; [done|lia|lia].
    + assert (name ∈ P ++ name :: queue) as (ds & Hd & Hf)%K3 by set_solver. by eapply ordered_snoc.
Qed.

Lemma taken_bound deps P queue deg : kahn_inv deps P queue deg -> (length P + length queue <= size deps)%nat.
Proof.
  intros [K1 _ K3 _]. rewrite <- length_app, <- (length_map_to_list deps).
  rewrite <- (length_fmap fst (map_to_list deps)). apply submseteq_length, NoDup_submseteq; [done|].
  intros n (ds & Hd & _)%K3. apply list_elem_of_fmap. exists (n, ds). by rewrite elem_of_map_to_list.
Qed.

(** With as many passes as there are names the loop ends, with the same result
    for every way of visiting the maps. *)
Lemma kahn_spec deps byName fuel : forall P queue deg,
  kahn_inv deps P queue deg -> (size deps <= length P + fuel)%nat ->
  (forall n, is_Some (deps !! n) -> is_Some (byName !! n)) ->
  exists P' deg', kahn_inv deps P' [] deg' /\
    forall range, range_ok range ->
      kahn range deps byName fuel queue deg (omap (byName !!.) P) = Some (omap (byName !!.) P').
Proof.
  induction fuel as [|fuel IH]; intros P queue deg Hinv Hf Hby.
  - pose proof (taken_bound _ _ _ _ Hinv) as Hb. destruct queue as [|name queue]; [|simpl in Hb; lia].
    exists P, deg. split; [done|]. by intros range _.
  - destruct queue as [|name queue]; [exists P, deg; split; [done|]; by intros range _|].
    destruct (kahn_step _ _ _ _ _ _ Hinv (Permutation_refl _)) as (deg1 & nq1 & _ & Hd1 & Hq1 & Hinv1).
    rewrite Hq1 in Hinv1.
    destruct (IH _ _ _ Hinv1) as (P' & deg' & Hinv' & Hk); [rewrite length_app; simpl; lia|done|].
    exists P', deg'. split; [done|]. intros range Hr.
    destruct (kahn_step _ _ _ _ _ (range (S (S fuel)) deps) Hinv (Hr _ _)) as (deg2 & nq2 & E2 & Hd2 & Hq2 & _).
    cbn [kahn]. rewrite E2, Hq2, Hd2, <- Hd1. rewrite <- (Hk range Hr). f_equal.
    rewrite omap_app. simpl.
    assert (is_Some (byName !! name)) as [inst Hi].
    { apply Hby. assert (name ∈ P ++ name :: queue) as (ds & Hd & _)%(k_ready _ _ _ _ Hinv) by set_solver. eauto. }
    by rewrite Hi.
Qed.

Lemma kahn_inv_initial deps entries :
  entries ≡ₚ map_to_list deps ->
  kahn_inv deps [] (initial_queue entries (initial_degrees deps)) (initial_degrees deps) /\
  initial_queue entries (initial_degrees deps) = initial_queue (map_to_list deps) (initial_degrees deps).
Proof.
  intros Hp. assert (forall n, initial_degrees deps !! n = remaining [] <$> deps !! n) as Hd.
  { intros n. unfold initial_degrees. rewrite lookup_fmap. destruct (deps !! n); simpl; [|done].
    by rewrite remaining_nil. }
  assert (forall n, n ∈ initial_queue entries (initial_degrees deps) <->
            exists ds, deps !! n = Some ds /\ Forall (fun d => d ∈ []) ds) as Hq.
  { intros n. unfold initial_queue. rewrite elem_of_sort_strings, list_elem_of_In, filter_In, bool_decide_eq_true.
    rewrite <- list_elem_of_In, Hd. split.
    - intros [_ Hz]. destruct (deps !! n) as [ds|]; [|done]. simpl in Hz. exists ds. split; [done|].
      apply remaining_zero. congruence.
    - intros (ds & Hn & Hz%remaining_zero). rewrite Hn. simpl. rewrite Hz. split; [|done].
      apply list_elem_of_fmap. exists (n, ds). by rewrite Hp, elem_of_map_to_list. }
  split.
  - constructor; [|done|done|by intros ? ? ? ?].
    simpl. unfold initial_queue. apply NoDup_sort_strings. 
    assert (NoDup entries.*1) as Hnd by (rewrite Hp; apply NoDup_fst_map_to_list).
    revert Hnd. rewrite !NoDup_ListNoDup. apply List.NoDup_filter.
  - unfold initial_queue. apply sort_strings_proper, filter_perm. by rewrite Hp.
Qed.

(** ** The maps built from the instances *)

Notation names := (map Inst_Name).

Lemma byName_snoc l x : byName_of (l ++ [x]) = <[Inst_Name x := x]> (byName_of l).
Proof. unfold byName_of. by rewrite foldl_app. Qed.

Lemma deps_snoc l x : deps_of (l ++ [x]) = <[Inst_Name x := services_of x]> (deps_of l).
Proof. unfold deps_of. by rewrite foldl_app. Qed.

Lemma deps_byName l : deps_of l = services_of <$> byName_of l.
Proof.
  induction l as [|x l IH] using rev_ind; [done|]. by rewrite byName_snoc, deps_snoc, IH, fmap_insert.
Qed.

Lemma byName_Some l n inst : byName_of l !! n = Some inst -> inst ∈ l /\ Inst_Name inst = n.
Proof.
  induction l as [|x l IH] using rev_ind; [done|]. rewrite byName_snoc.
  intros [[<- <-]|[Hne H]]%lookup_insert_Some; [set_solver|]. destruct (IH H). set_solver.
Qed.

Lemma byName_is_Some l n : is_Some (byName_of l !! n) <-> n ∈ names l.
Proof.
  induction l as [|x l IH] using rev_ind; [split; [by intros []|by intros ?%elem_of_nil]|].
  rewrite byName_snoc, map_app, elem_of_app, <- IH, lookup_insert_is_Some. simpl.
  rewrite list_elem_of_singleton. destruct (decide (Inst_Name x = n)); naive_solver.
Qed.

Lemma byName_distinct l inst : NoDup (names l) -> inst ∈ l -> byName_of l !! Inst_Name inst = Some inst.
Proof.
  intros Hnd Hin. assert (is_Some (byName_of l !! Inst_Name inst)) as [i' Hi].
  { apply byName_is_Some, list_elem_of_fmap. eauto. }
  destruct (byName_Some _ _ _ Hi) as [Hin' Hn]. rewrite Hi. f_equal.
  apply list_elem_of_lookup in Hin as [a Ha]. apply list_elem_of_lookup in Hin' as [b Hb].
  assert (a = b) as ->; [|congruence]. eapply (NoDup_lookup (names l)); [done| |].
  - change (Inst_Name <$> l) with (names l). change (names l) with (Inst_Name <$> l).
    rewrite list_lookup_fmap, Ha. reflexivity.
  - change (names l) with (Inst_Name <$> l). rewrite list_lookup_fmap, Hb. simpl. congruence.
Qed.

Lemma size_list_to_set_NoDup (l : list string) :
  size (list_to_set l : gset string) = length l -> NoDup l.
Proof.
  induction l as [|x l IH]; simpl; [constructor|]. intros Hs.
  assert (size (list_to_set l : gset string) <= length l)%nat as Hle.
  { clear. induction l as [|y l IH]; simpl; [done|].
    pose proof (size_union_alt ({[y]} : gset string) (list_to_set l)) as H. rewrite H, size_singleton.
    pose proof (subseteq_size (list_to_set l ∖ {[y]} : gset string) (list_to_set l) ltac:(set_solver)). lia. }
  destruct (decide (x ∈ l)) as [Hx|Hx].
  - exfalso. assert ({[x]} ∪ list_to_set l = (list_to_set l : gset string)) as E by set_solver.
    rewrite E in Hs. lia.
  - rewrite size_union, size_singleton in Hs by set_solver. constructor; [done|]. apply IH. lia.
Qed.

Lemma size_byName l : size (byName_of l) = size (list_to_set (names l) : gset string).
Proof.
  rewrite <- (size_dom (byName_of l)). f_equal. apply set_eq. intros n.
  rewrite elem_of_dom, elem_of_list_to_set. apply byName_is_Some.
Qed.

Lemma size_byName_distinct l : size (byName_of l) = length l <-> NoDup (names l).
Proof.
  rewrite size_byName. rewrite <- (length_map Inst_Name l). split; [apply size_list_to_set_NoDup|].
  intros H. by apply size_list_to_set.
Qed.

Lemma size_byName_le l : (size (byName_of l) <= length l)%nat.
Proof.
  induction l as [|x l IH] using rev_ind; [done|]. rewrite byName_snoc, length_app. simpl.
  destruct (byName_of l !! Inst_Name x) eqn:E.
  - rewrite map_size_insert_Some by eauto. lia.
  - rewrite map_size_insert_None by done. lia.
Qed.

Lemma duplicate_name_None l : forall seen,
  duplicate_name seen l = None <-> NoDup (names l) /\ Forall (fun n => n ∉ seen) (names l).
Proof.
  induction l as [|x l IH]; intros seen; simpl; [split; [split; constructor|done]|].
  rewrite NoDup_cons, Forall_cons. case_decide as Hd; [naive_solver|]. rewrite IH.
  rewrite !Forall_forall. setoid_rewrite not_elem_of_cons. naive_solver.
Qed.

Lemma unknown_dependency_None byName entries :
  unknown_dependency byName entries = None <->
  forall n ds d, (n, ds) ∈ entries -> d ∈ ds -> is_Some (byName !! d).
Proof.
  unfold unknown_dependency. rewrite for_each_None, Forall_forall. split.
  - intros H n ds d Hin Hd. specialize (H _ Hin). rewrite for_each_None, Forall_forall in H.
    specialize (H _ Hd). rewrite fail_if_None, bool_decide_eq_false in H.
    destruct (byName !! d); [eauto|done].
  - intros H [n ds] Hin. rewrite for_each_None, Forall_forall. intros d Hd.
    rewrite fail_if_None, bool_decide_eq_false. simpl in Hd. destruct (H n ds d Hin Hd) as [? ->]. done.
Qed.

(** ** Theorems *)

(** Every instance comes after the services it depends on. *)
Definition topological (l : list InstanceConfig) : Prop :=
  forall i inst, l !! i = Some inst -> Forall (fun d => d ∈ names (take i l)) (services_of inst).

(** A deployment order: all the instances, no name twice, dependencies first. *)
Definition valid_order (instances l : list InstanceConfig) : Prop :=
  l ≡ₚ instances /\ NoDup (names l) /\ topological l.

Lemma names_omap l P : (forall n, n ∈ P -> is_Some (byName_of l !! n)) -> names (omap (byName_of l !!.) P) = P.
Proof.
  induction P as [|n P IH]; intros H; [done|]. simpl.
  destruct (H n) as [inst Hi]; [left|]. rewrite Hi. simpl. f_equal.
  - by apply (byName_Some l).
  - apply IH. intros m Hm. apply H. by right.
Qed.

(** What the loop computes, for every way of visiting the maps. *)
Lemma kahn_run instances : exists P deg,
  kahn_inv (deps_of instances) P [] deg /\ names (omap (byName_of instances !!.) P) = P /\
  forall range, range_ok range ->
    kahn range (deps_of instances) (byName_of instances) (length instances)
      (initial_queue (range 1%nat (deps_of instances)) (initial_degrees (deps_of instances)))
      (initial_degrees (deps_of instances)) [] = Some (omap (byName_of instances !!.) P).
Proof.
  destruct (kahn_inv_initial (deps_of instances) _ (Permutation_refl _)) as [Hinv _].
  destruct (kahn_spec (deps_of instances) (byName_of instances) (length instances) _ _ _ Hinv)
    as (P & deg & HP & Hk).
  - rewrite deps_byName, map_size_fmap. pose proof (size_byName_le instances). lia.
  - intros n. rewrite deps_byName, lookup_fmap, fmap_is_Some. done.
  - exists P, deg. split_and!; [done| |].
    + apply names_omap. intros n Hn. assert (n ∈ P ++ []) as (ds & Hd & _)%(k_ready _ _ _ _ HP) by set_solver.
      rewrite deps_byName, lookup_fmap in Hd. destruct (byName_of instances !! n); [eauto|done].
    + intros range Hr. rewrite (proj2 (kahn_inv_initial _ _ (Hr 1%nat _))). by apply Hk.
Qed.

Lemma valid_order_deps instances l :
  valid_order instances l -> NoDup (names instances) /\
  forall n ds d, deps_of instances !! n = Some ds -> d ∈ ds -> is_Some (byName_of instances !! d).
Proof.
  intros (Hp & Hnd & Ht). split; [by rewrite <- Hp|]. intros n ds d Hd Hin.
  rewrite deps_byName, lookup_fmap in Hd. destruct (byName_of instances !! n) as [inst|] eqn:E; [|done].
  simpl in Hd. injection Hd as <-. apply byName_Some in E as [Hi _]. rewrite <- Hp in Hi.
  apply list_elem_of_lookup in Hi as [i Hi]. specialize (Ht i inst Hi). rewrite Forall_forall in Ht.
  specialize (Ht d Hin). apply byName_is_Some. rewrite <- Hp.
  apply list_elem_of_fmap in Ht as (x & -> & Hx). apply list_elem_of_fmap. exists x. split; [done|].
  by eapply (elem_of_take (A := InstanceConfig)) in Hx as (j & Hj & _); apply list_elem_of_lookup_2 in Hj.
Qed.

(** If there is a valid order, the loop takes every name. *)
Lemma kahn_complete instances l P deg :
  kahn_inv (deps_of instances) P [] deg -> valid_order instances l ->
  forall i inst, l !! i = Some inst -> Inst_Name inst ∈ P.
Proof.
  intros HP (Hp & Hnd & Ht) i. induction i as [i IH] using lt_wf_ind. intros inst Hi.
  assert (Inst_Name inst ∈ P ++ []) as H; [|by rewrite app_nil_r in H].
  apply (k_ready _ _ _ _ HP). exists (services_of inst). split.
  - rewrite deps_byName, lookup_fmap, byName_distinct; [done|by rewrite <- Hp|].
    rewrite <- Hp. by eapply list_elem_of_lookup_2.
  - eapply Forall_impl; [apply (Ht i inst Hi)|]. simpl. intros d (x & -> & Hx)%list_elem_of_fmap.
    apply elem_of_take in Hx as (j & Hj & Hlt). by apply (IH j).
Qed.

(** An order of full length over distinct names is valid. *)
Lemma kahn_sound instances P deg :
  kahn_inv (deps_of instances) P [] deg -> names (omap (byName_of instances !!.) P) = P ->
  length (omap (byName_of instances !!.) P) = length instances ->
  valid_order instances (omap (byName_of instances !!.) P).
Proof.
  intros HP HN Hlen. set (order := omap (byName_of instances !!.) P) in *.
  assert (NoDup P) as HPnd by (pose proof (k_nodup _ _ _ _ HP) as H; by rewrite app_nil_r in H).
  pose proof (taken_bound _ _ _ _ HP) as Hb. simpl in Hb.
  rewrite deps_byName, map_size_fmap in Hb. rewrite <- HN, length_map, Hlen in Hb.
  assert (NoDup (names instances)) as Hnd.
  { apply size_byName_distinct. pose proof (size_byName_le instances). lia. }
  assert (order ⊆ instances) as Hsub.
  { intros x (n & _ & Hx)%list_elem_of_omap. by apply byName_Some in Hx as [? _]. }
  assert (NoDup order) as Hno by (apply (NoDup_fmap_1 Inst_Name); change (NoDup (names order)); by rewrite HN).
  split_and!.
  - apply submseteq_length_Permutation; [by apply NoDup_submseteq|lia].
  - by rewrite HN.
  - intros i inst Hi. assert (P !! i = Some (Inst_Name inst)) as HPi.
    { rewrite <- HN. change (names order) with (Inst_Name <$> order). by rewrite list_lookup_fmap, Hi. }
    assert (names (take i order) = take i P) as ->.
    { rewrite <- HN. change (fmap Inst_Name (take i order) = take i (fmap Inst_Name order)). by rewrite fmap_take. }
    apply (k_order _ _ _ _ HP i (Inst_Name inst)); [done|].
    rewrite deps_byName, lookup_fmap, byName_distinct; [done|done|].
    apply Hsub. by eapply list_elem_of_lookup_2.
Qed.

(** The four outcomes. *)
Lemma order_cases range instances : range_ok range ->
  let unknown := unknown_dependency (byName_of instances) (range 0%nat (deps_of instances)) in
  (exists e, buildDependencyOrder range instances = Some (Err e) /\ unknown = Some e) \/
  (exists n, buildDependencyOrder range instances =
               Some (Err (Errorf "duplicate instance name %q in stack" [n])) /\
             ~ NoDup (names instances)) \/
  (buildDependencyOrder range instances = Some (Err (Errorf "circular dependency detected" [])) /\
     unknown = None /\ NoDup (names instances) /\ forall l, ~ valid_order instances l) \/
  (exists order, buildDependencyOrder range instances = Some (Ok order) /\ valid_order instances order).
Proof.
  intros Hr unknown. unfold buildDependencyOrder. fold unknown.
  destruct unknown as [e|]; [left; eauto|right].
  destruct (kahn_run instances) as (P & deg & HP & HN & Hk). rewrite (Hk range Hr).
  destruct (decide (size (byName_of instances) = length instances)) as [Hs|Hs].
  2:{ left. rewrite size_byName_distinct in Hs. destruct (duplicate_name [] instances) as [n|] eqn:E; [eauto|].
      by apply duplicate_name_None in E as [? _]. }
  right. destruct (decide (length (omap (byName_of instances !!.) P) = length instances)) as [Hlen|Hlen].
  - right. eexists. split; [reflexivity|]. by eapply kahn_sound.
  - left. split_and!; [done|done|by apply size_byName_distinct|].
    intros l Hl. apply Hlen. pose proof Hl as (Hp & Hnd & _).
    rewrite <- (length_map Inst_Name (omap _ _)), HN. apply Nat.le_antisymm.
    + pose proof (taken_bound _ _ _ _ HP) as Hb. simpl in Hb. rewrite deps_byName, map_size_fmap in Hb. lia.
    + rewrite <- Hp, <- (length_map Inst_Name). apply submseteq_length, NoDup_submseteq; [done|].
      intros n (inst & -> & [i Hi]%list_elem_of_lookup)%list_elem_of_fmap. by eapply kahn_complete.
Qed.

(** The entry the unknown-service error reports. *)
Lemma unknown_dependency_Some byName entries e :
  unknown_dependency byName entries = Some e ->
  exists n ds d, (n, ds) ∈ entries /\ d ∈ ds /\ byName !! d = None /\
    e = Errorf "instance %q depends on unknown service %q" [n; d].
Proof.
  unfold unknown_dependency, for_each. intros (pre & post & E & _)%first_error_Some.
  assert (Some e ∈ map (fun e0 : string * list string => first_error (map (fun d =>
      fail_if (bool_decide (byName !! d = None))
        (Errorf "instance %q depends on unknown service %q" [e0.1; d])) e0.2)) entries) as Hin
    by (rewrite E; set_solver).
  apply list_elem_of_fmap in Hin as ([n ds] & He & Hin). symmetry in He.
  apply first_error_Some in He as (pre' & post' & E' & _). cbn [fst snd] in E'.
  assert (Some e ∈ map (fun d => fail_if (bool_decide (byName !! d = None))
        (Errorf "instance %q depends on unknown service %q" [n; d])) ds) as Hin' by (rewrite E'; set_solver).
  apply list_elem_of_fmap in Hin' as (d & He & Hd). exists n, ds, d. unfold fail_if in He.
  destruct (bool_decide _) eqn:Eb; [|done]. apply bool_decide_eq_true in Eb. by simplify_eq.
Qed.

(** C2: [buildDependencyOrder] always returns. When it succeeds the result is
    the instances of the stack, each once, every one after the services it
    depends on; when it fails, no such order exists. *)
Theorem dependency_order_correct (range : range_fn) (instances : list InstanceConfig) :
  range_ok range ->
  exists r, buildDependencyOrder range instances = Some r /\
    match r with
    | Ok order => valid_order instances order
    | Err _ => forall l, ~ valid_order instances l
    end.
Proof.
  intros Hr. destruct (order_cases range instances Hr)
    as [(e & Hb & Hu)|[(n & Hb & Hnd)|[(Hb & _ & _ & Hno)|(order & Hb & Hv)]]];
    rewrite Hb; (eexists; split; [reflexivity|]); [| |done|done]; intros l Hl;
    destruct (valid_order_deps _ _ Hl) as [Hnd' Hdeps]; [|done].
  apply unknown_dependency_Some in Hu as (n & ds & d & Hin & Hd & Hno & _).
  rewrite (Hr _ _), elem_of_map_to_list in Hin. destruct (Hdeps n ds d Hin Hd). congruence.
Qed.

(** The order does not depend on the order Go visits its maps in: two runs
    over the same manifest both succeed, with the same order, or both fail, and
    when they fail for a repeated name or a cycle they report the same error. *)
Theorem dependency_order_deterministic (range1 range2 : range_fn) (instances : list InstanceConfig) :
  range_ok range1 -> range_ok range2 ->
  (exists order, buildDependencyOrder range1 instances = Some (Ok order) /\
                 buildDependencyOrder range2 instances = Some (Ok order)) \/
  (exists e1 e2, buildDependencyOrder range1 instances = Some (Err e1) /\
                 buildDependencyOrder range2 instances = Some (Err e2) /\
                 (unknown_dependency (byName_of instances) (range1 0%nat (deps_of instances)) = None -> e1 = e2)).
Proof.
  intros H1 H2. unfold buildDependencyOrder.
  assert (unknown_dependency (byName_of instances) (range1 0%nat (deps_of instances)) = None <->
          unknown_dependency (byName_of instances) (range2 0%nat (deps_of instances)) = None) as Hu.
  { rewrite !unknown_dependency_None. setoid_rewrite (H1 0%nat). setoid_rewrite (H2 0%nat). done. }
  destruct (unknown_dependency _ (range1 _ _)) as [e1|], (unknown_dependency _ (range2 _ _)) as [e2|];
    try (exfalso; naive_solver).
  { right. exists e1, e2. done. }
  destruct (kahn_run instances) as (P & deg & _ & _ & Hk). rewrite (Hk range1 H1), (Hk range2 H2).
  destruct (if decide _ then None else _); [right; eauto 10|]. case_decide; [left|right]; eauto 10.
Qed.

(** What the three failures mean. The unknown-service error names an
    instance of the manifest and a service it depends on that is not in it;
    the duplicate error names a name two instances share; and a cycle is
    reported only for distinct names and known services that have no order. *)
Theorem dependency_errors_explained (range : range_fn) (instances : list InstanceConfig) (fmt : string) (args : list string) :
  range_ok range -> buildDependencyOrder range instances = Some (Err (Errorf fmt args)) ->
  (fmt = "instance %q depends on unknown service %q" /\
     exists inst d, args = [Inst_Name inst; d] /\ inst ∈ instances /\ d ∈ services_of inst /\ d ∉ names instances) \/
  (fmt = "duplicate instance name %q in stack" /\ ~ NoDup (names instances)) \/
  (fmt = "circular dependency detected" /\ NoDup (names instances) /\
     Forall (fun inst => Forall (fun d => d ∈ names instances) (services_of inst)) instances /\
     forall l, ~ valid_order instances l).
Proof.
  intros Hr Hb. assert (forall n ds, (n, ds) ∈ range 0%nat (deps_of instances) ->
      exists inst, inst ∈ instances /\ Inst_Name inst = n /\ services_of inst = ds) as Hent.
  { intros n ds Hin. rewrite (Hr _ _), elem_of_map_to_list, deps_byName, lookup_fmap in Hin.
    destruct (byName_of instances !! n) as [inst|] eqn:E; [|done]. simpl in Hin. injection Hin as <-.
    apply byName_Some in E as [? ?]. eauto. }
  destruct (order_cases range instances Hr)
    as [(e & Hb' & Hu)|[(n & Hb' & Hnd)|[(Hb' & Hu & Hnd & Hno)|(order & Hb' & Hv)]]];
    rewrite Hb' in Hb; simplify_eq.
  - left. apply unknown_dependency_Some in Hu as (n & ds & d & Hin & Hd & Hno & [= -> ->]). split; [done|].
    destruct (Hent n ds Hin) as (inst & Hi & <- & <-). exists inst, d. split_and!; try done.
    rewrite <- byName_is_Some, Hno. by intros [].
  - right. left. done.
  - right. right. split_and!; try done. apply Forall_forall. intros inst Hi. apply Forall_forall. intros d Hd.
    rewrite unknown_dependency_None in Hu. apply byName_is_Some.
    apply (Hu (Inst_Name inst) (services_of inst)); [|done].
    rewrite (Hr _ _), elem_of_map_to_list, deps_byName, lookup_fmap, byName_distinct; done.
Qed.

(** ** Witnesses *)

Definition inst_of (name : string) (deps : list string) : InstanceConfig :=
  {| Inst_Name := name; Inst_Provider := "jail";
     Inst_Image := {| Img_Source := "freebsd:14.3-RELEASE"; Img_Arch := "amd64" |};
     Inst_Resources := {| Res_CPU := 1; Res_Memory := "512Mi" |}; Inst_Networks := [];
     Inst_Storage := {| RootDisk := None; Volumes := [] |}; Inst_CloudInit := None;
     Inst_Lifecycle := {| StopTimeout := 10; Autostart := None; Hooks := None; HealthCheck_ := None; Restart := None |};
     Inst_Environment := []; Inst_ProviderOverrides := [];
     Inst_DependsOn := match deps with [] => None | _ => Some {| Services := deps; Condition := "started" |} end |}.

(** A way of visiting maps. *)
Definition listed : range_fn := fun _ m => map_to_list m.

Lemma listed_ok : range_ok listed.
Proof. intros k m. reflexivity. Qed.

Lemma dependency_order_correct_witness :
  valid_order [inst_of "web" ["db"]; inst_of "db" []] [inst_of "db" []; inst_of "web" ["db"]].
Proof.
  destruct (dependency_order_correct listed [inst_of "web" ["db"]; inst_of "db" []] listed_ok) as (r & Hb & Hv).
  vm_compute in Hb. injection Hb as <-. exact Hv.
Defined.

Lemma dependency_order_deterministic_witness :
  (exists order, buildDependencyOrder listed [inst_of "web" ["db"]; inst_of "db" []] = Some (Ok order) /\
     buildDependencyOrder (fun k m => rev (map_to_list m)) [inst_of "web" ["db"]; inst_of "db" []] = Some (Ok order)).
Proof.
  destruct (dependency_order_deterministic listed (fun k m => rev (map_to_list m))
    [inst_of "web" ["db"]; inst_of "db" []] listed_ok) as [H|(e1 & e2 & H & _)].
  - intros k m. simpl. symmetry. apply Permutation_rev.
  - exact H.
  - vm_compute in H. discriminate.
Defined.

Lemma dependency_errors_explained_witness :
  ~ valid_order [inst_of "web" ["db"]; inst_of "db" ["web"]] [].
Proof.
  destruct (dependency_errors_explained listed [inst_of "web" ["db"]; inst_of "db" ["web"]]
    "circular dependency detected" [] listed_ok) as [[[=] _]|[[[=] _]|(_ & _ & _ & H)]];
    [vm_compute; reflexivity|apply H].
Defined.
