(* ===== verification/DepCycle.v ===== *)
(** * The validator's search for dependency cycles ([detectDependencyCycle],
      pkg/manifest/validator.go)

    A depth-first search with three colors.  Its verdict is compared with the
    deployment order of the stack manager, which uses another algorithm. *)

From stdpp Require Import base list gmap strings.
From Stdlib Require Import Lia.
From S2P Require Import Prelude ProviderTypes ManifestTypes DepOrder DepOrderFacts.

(** ** The search *)

(** The set [exists]. *)
Definition exists_of (instances : list InstanceConfig) : gset string := list_to_set (map Inst_Name instances).

(** The map [graph]: the dependencies of each instance that are in the manifest. *)
Definition graph_of (instances : list InstanceConfig) : gmap string (list string) :=
  foldl (fun g inst =>
    foldl (fun g dep =>
      if bool_decide (dep ∈ exists_of instances)
      then <[Inst_Name inst := default [] (g !! Inst_Name inst) ++ [dep]]> g else g)
    g (services_of inst)) ∅ instances.

Inductive color := white | gray | black.

#[export] Instance color_eq_dec : EqDecision color.
Proof. solve_decision. Defined.

(** A node that is not in the map is white, Go's zero value. *)
Definition color_of (colors : gmap string color) (n : string) : color := default white (colors !! n).

(** The end of [path] from the first [next] on, closed with [next]. *)
Fixpoint cycle_from (next : string) (path : list string) : option (list string) :=
  match path with
  | [] => None
  | n :: rest => if decide (n = next) then Some ((n :: rest) ++ [next]) else cycle_from next rest
  end.

(** What [dfs] returns: the colors, or a cycle. *)
Inductive visited := Explored (colors : gmap string color) | Found (cycle : list string).

Section search.
Context (graph : gmap string (list string)).

(** The loop over the neighbours of a node, given the search of one of them. *)
Definition visit (search : string -> gmap string color -> list string -> option visited) (path : list string)
    : list string -> gmap string color -> option visited :=
  fix loop nexts colors :=
    match nexts with
    | [] => Some (Explored colors)
    | next :: rest =>
        match color_of colors next with
        | gray => match cycle_from next path with Some c => Some (Found c) | None => loop rest colors end
        | white =>
            match search next colors path with
            | Some (Explored colors') => loop rest colors'
            | r => r
            end
        | black => loop rest colors
        end
    end.

(** [dfs].  It restores [path] when it returns without a cycle, so the path is an
    argument.  [None] is fuel that ran out. *)
Fixpoint dfs (fuel : nat) (node : string) (colors : gmap string color) (path : list string) : option visited :=
  match fuel with
  | O => None
  | S fuel' =>
      match visit (dfs fuel') (path ++ [node]) (default [] (graph !! node)) (<[node := gray]> colors) with
      | Some (Explored colors') => Some (Explored (<[node := black]> colors'))
      | r => r
      end
  end.

(** The loop over the instances. *)
Fixpoint search_all (fuel : nat) (nodes : list string) (colors : gmap string color) : option visited :=
  match nodes with
  | [] => Some (Explored colors)
  | name :: rest =>
      match color_of colors name with
      | white =>
          match dfs fuel name colors [] with
          | Some (Explored colors') => search_all fuel rest colors'
          | r => r
          end
      | _ => search_all fuel rest colors
      end
  end.
End search.

(** The cycle found, or the empty list.  Every call of [dfs] colors a white
    instance, so one more than their number is fuel enough. *)
Definition detectDependencyCycle (instances : list InstanceConfig) : option (list string) :=
  match search_all (graph_of instances) (S (length instances)) (map Inst_Name instances) ∅ with
  | Some (Found c) => Some c
  | Some (Explored _) => Some []
  | None => None
  end.

(** ** What the search maintains *)

(** Consecutive nodes are joined by edges. *)
Definition walk (edges : string -> list string) (l : list string) : Prop :=
  forall i a b, l !! i = Some a -> l !! S i = Some b -> b ∈ edges a.

(** A closed walk of at least one edge. *)
Definition is_cycle (edges : string -> list string) (c : list string) : Prop :=
  exists x l, c = x :: l ++ [x] /\ walk edges c.

(** Every node comes after those it has edges to. *)
Definition sinks_first (edges : string -> list string) (l : list string) : Prop :=
  forall i n, l !! i = Some n -> Forall (fun d => d ∈ take i l) (edges n).

Lemma walk_snoc edges l a b : walk edges (l ++ [a]) -> b ∈ edges a -> walk edges (l ++ [a; b]).
Proof.
  intros Hw Hb i x y Hx Hy. destruct (decide (S i < length (l ++ [a]))) as [Hlt|Hge].
  - replace (l ++ [a; b]) with ((l ++ [a]) ++ [b]) in Hx, Hy by (by rewrite <- app_assoc).
    rewrite lookup_app_l in Hx by lia. rewrite lookup_app_l in Hy by lia. by apply (Hw i).
  - rewrite length_app in Hge. simpl in Hge. apply lookup_lt_Some in Hy as Hl. rewrite length_app in Hl. simpl in Hl.
    assert (i = length l) as -> by lia. rewrite list_lookup_middle in Hx by done.
    replace (l ++ [a; b]) with ((l ++ [a]) ++ [b]) in Hy by (by rewrite <- app_assoc).
    rewrite list_lookup_middle in Hy by (rewrite length_app; simpl; lia). by simplify_eq.
Qed.

Lemma walk_suffix edges l k : walk edges (l ++ k) -> walk edges k.
Proof.
  intros Hw i a b Ha Hb. apply (Hw (length l + i)%nat); rewrite lookup_app_r by lia; [|].
  - by replace (length l + i - length l)%nat with i by lia.
  - by replace (S (length l + i) - length l)%nat with (S i) by lia.
Qed.

Lemma cycle_from_Some next path c : cycle_from next path = Some c ->
  exists p s, path = p ++ next :: s /\ c = next :: s ++ [next].
Proof.
  induction path as [|n rest IH]; simpl; [done|]. case_decide as E.
  - intros [= <-]. exists [], rest. by subst.
  - intros (p & s & -> & ->)%IH. by exists (n :: p), s.
Qed.

Lemma cycle_from_None next path : cycle_from next path = None -> next ∉ path.
Proof.
  induction path as [|n rest IH]; simpl; [intros _; apply not_elem_of_nil|].
  case_decide as E; [done|]. intros H%IH. apply not_elem_of_cons. naive_solver.
Qed.

Section facts.
Context (graph : gmap string (list string)) (U : gset string).
Context (graph_closed : forall n ds, graph !! n = Some ds -> Forall (fun d => d ∈ U) ds).

Definition edges (n : string) : list string := default [] (graph !! n).

Lemma edges_closed n d : d ∈ edges n -> d ∈ U.
Proof.
  unfold edges. destruct (graph !! n) as [ds|] eqn:E; simpl; [|by intros ?%elem_of_nil].
  pose proof (graph_closed n ds E) as Hf. rewrite Forall_forall in Hf. apply Hf.
Qed.

(** The gray nodes are those on the path, and the black ones, in the order they
    were finished, have only finished ones behind them. *)
Record dfs_inv (colors : gmap string color) (path fin : list string) : Prop := {
  di_gray : forall n, color_of colors n = gray <-> n ∈ path;
  di_black : forall n, color_of colors n = black <-> n ∈ fin;
  di_walk : walk edges path;
  di_fin : NoDup fin;
  di_known : forall n, n ∈ fin -> n ∈ U;
  di_sinks : sinks_first edges fin
}.

Definition whites (colors : gmap string color) : nat :=
  size (filter (fun n => color_of colors n = white) U).

Lemma color_insert colors n c m :
  color_of (<[n := c]> colors) m = if decide (n = m) then c else color_of colors m.
Proof. unfold color_of. case_decide as E; [subst; by rewrite lookup_insert_eq|by rewrite lookup_insert_ne]. Qed.

Lemma whites_gray colors n : color_of colors n = white -> n ∈ U ->
  S (whites (<[n := gray]> colors)) = whites colors.
Proof.
  intros Hw Hn. unfold whites.
  assert (filter (fun m => color_of colors m = white) U =
          {[n]} ∪ filter (fun m => color_of (<[n := gray]> colors) m = white) U) as ->.
  { apply set_eq. intros m. rewrite elem_of_union, elem_of_singleton, !elem_of_filter, color_insert.
    destruct (decide (n = m)) as [->|Hne]; naive_solver. }
  rewrite size_union, size_singleton; [done|].
  intros m Hm%elem_of_singleton. subst m. rewrite elem_of_filter, color_insert, decide_True by done. naive_solver.
Qed.

Lemma whites_black colors n : color_of colors n <> white -> whites (<[n := black]> colors) = whites colors.
Proof.
  intros Hw. unfold whites. f_equal. apply set_eq. intros m. rewrite !elem_of_filter, color_insert.
  destruct (decide (n = m)) as [->|]; naive_solver.
Qed.

(** What a search from [node] gives. *)
Definition searched (colors : gmap string color) (path fin targets : list string) (r : option visited) : Prop :=
  match r with
  | Some (Found c) => is_cycle edges c
  | Some (Explored colors') => exists fin', dfs_inv colors' path fin' /\ fin ⊆ fin' /\
      Forall (fun n => n ∈ fin') targets /\ (whites colors' <= whites colors)%nat
  | None => False
  end.

Lemma searched_cons colors colors1 path fin fin1 n targets r :
  searched colors1 path fin1 targets r -> fin ⊆ fin1 -> n ∈ fin1 -> (whites colors1 <= whites colors)%nat ->
  searched colors path fin (n :: targets) r.
Proof.
  intros Hr Hs Hn Hw. destruct r as [[colors'|c]|]; [|done|done]. destruct Hr as (fin' & Hi & Hs' & Ht & Hw').
  exists fin'. split_and!; [done|set_solver|constructor; [set_solver|done]|lia].
Qed.

(** The loop over neighbours, when the search of one of them is right. *)
Lemma visit_spec search f p node :
  (forall next colors fin, dfs_inv colors (p ++ [node]) fin -> color_of colors next = white -> next ∈ edges node ->
     (whites colors <= f)%nat -> searched colors (p ++ [node]) fin [next] (search next colors (p ++ [node]))) ->
  forall nexts colors fin, dfs_inv colors (p ++ [node]) fin -> Forall (fun n => n ∈ edges node) nexts ->
    (whites colors <= f)%nat ->
    searched colors (p ++ [node]) fin nexts (visit search (p ++ [node]) nexts colors).
Proof.
  intros Hs. induction nexts as [|next rest IH]; intros colors fin Hi He Hf; cbn [visit].
  { exists fin. by split_and!. }
  apply Forall_cons in He as [He1 He]. destruct (color_of colors next) eqn:Ec.
  - pose proof (Hs next colors fin Hi Ec He1 Hf) as Hn.
    destruct (search next colors (p ++ [node])) as [[colors1|c]|]; [|done|done].
    destruct Hn as (fin1 & Hi1 & Hsub & Ht & Hw). apply Forall_cons in Ht as [Ht _].
    apply (searched_cons _ colors1 _ _ fin1); [apply IH; [done|done|lia]|done|done|done].
  - destruct (cycle_from next (p ++ [node])) as [c|] eqn:Eq.
    + apply cycle_from_Some in Eq as (q & s & Hp & ->). exists next, s. split; [done|].
      pose proof (di_walk _ _ _ Hi) as Hw. rewrite Hp in Hw. apply walk_suffix in Hw.
      destruct s as [|y s _] using rev_ind.
      * assert (node = next) as -> by (by apply app_inj_tail in Hp as [_ ->]). by apply (walk_snoc _ [] next next).
      * rewrite app_comm_cons, app_assoc in Hp. apply app_inj_tail in Hp as [_ <-].
        rewrite <- app_assoc. apply (walk_snoc _ (next :: s) node next); [done|done].
    + apply cycle_from_None in Eq. by apply (di_gray _ _ _ Hi) in Ec.
  - apply (di_black _ _ _ Hi) in Ec. apply (searched_cons _ colors _ _ fin); [by apply IH|done|done|done].
Qed.

(** Entering a node, and leaving it. *)
Lemma dfs_inv_enter colors path fin node :
  dfs_inv colors path fin -> color_of colors node = white -> walk edges (path ++ [node]) ->
  dfs_inv (<[node := gray]> colors) (path ++ [node]) fin.
Proof.
  intros [I1 I2 I3 I4 I5 I6] Hw Hwalk. constructor; try done; intros n; rewrite color_insert.
  - rewrite elem_of_app, list_elem_of_singleton, <- I1. destruct (decide (node = n)); naive_solver.
  - rewrite <- I2. destruct (decide (node = n)) as [->|]; [|done]. rewrite Hw. naive_solver.
Qed.

Lemma dfs_inv_leave colors path fin node :
  dfs_inv colors (path ++ [node]) fin -> node ∉ path -> node ∈ U -> Forall (fun n => n ∈ fin) (edges node) ->
  dfs_inv (<[node := black]> colors) path (fin ++ [node]).
Proof.
  intros [I1 I2 I3 I4 I5 I6] Hn HU He.
  assert (color_of colors node = gray) as Hg by (apply I1; set_solver).
  assert (node ∉ fin) as Hnf by (intros Hin%I2; congruence).
  constructor.
  - intros n. rewrite color_insert. destruct (decide (node = n)) as [<-|Hne]; [naive_solver|].
    rewrite I1, elem_of_app, list_elem_of_singleton. naive_solver.
  - intros n. rewrite color_insert, elem_of_app, list_elem_of_singleton. destruct (decide (node = n)) as [<-|Hne]; [naive_solver|].
    rewrite I2. naive_solver.
  - intros i a b Ha Hb. apply (I3 i); by apply lookup_app_l_Some.
  - apply NoDup_app. split_and!; [done| |apply NoDup_singleton]. set_solver.
  - set_solver.
  - intros i n [Hi|[Hge Hi]]%lookup_app_Some.
    + eapply Forall_impl; [by apply I6|]. intros d Hd. rewrite take_app_le; [done|]. apply lookup_lt_Some in Hi. lia.
    + apply list_lookup_singleton_Some in Hi as [Hi <-]. assert (i = length fin) as -> by lia. by rewrite take_app_length.
Qed.

Lemma dfs_spec fuel : forall node colors path fin,
  dfs_inv colors path fin -> color_of colors node = white -> node ∈ U -> walk edges (path ++ [node]) ->
  (whites colors <= fuel)%nat -> searched colors path fin [node] (dfs graph fuel node colors path).
Proof.
  induction fuel as [|fuel IH]; intros node colors path fin Hi Hw HU Hwalk Hf.
  { pose proof (whites_gray _ _ Hw HU). lia. }
  pose proof (whites_gray _ _ Hw HU) as Hwh. cbn [dfs]. fold (edges node).
  pose proof (dfs_inv_enter _ _ _ _ Hi Hw Hwalk) as Hi1.
  assert (node ∉ path) as Hnp by (intros Hin%(di_gray _ _ _ Hi); congruence).
  pose proof (visit_spec (dfs graph fuel) fuel path node) as Hv.
  assert (searched (<[node:=gray]> colors) (path ++ [node]) fin (edges node)
    (visit (dfs graph fuel) (path ++ [node]) (edges node) (<[node:=gray]> colors))) as Hr.
  { apply Hv; [|done|by apply Forall_forall|lia]. intros next colors' fin' Hi' Hw' He Hf'.
    apply IH; [done|done|by eapply edges_closed| |done]. rewrite <- app_assoc. apply walk_snoc; [|done]. apply (di_walk _ _ _ Hi'). }
  destruct (visit _ _ _ _) as [[colors'|c]|]; [|done|done].
  destruct Hr as (fin' & Hi' & Hsub & Ht & Hw'). exists (fin' ++ [node]).
  split_and!; [by apply dfs_inv_leave|set_solver|apply Forall_singleton; set_solver|].
  rewrite whites_black; [lia|]. assert (color_of colors' node = gray) as -> by (apply (di_gray _ _ _ Hi'); set_solver). done.
Qed.

Lemma search_all_spec fuel nodes : forall colors fin,
  dfs_inv colors [] fin -> Forall (fun n => n ∈ U) nodes -> (whites colors <= fuel)%nat ->
  searched colors [] fin nodes (search_all graph fuel nodes colors).
Proof.
  induction nodes as [|n nodes IH]; intros colors fin Hi Hn Hf; cbn [search_all].
  { exists fin. by split_and!. }
  apply Forall_cons in Hn as [Hn1 Hn]. destruct (color_of colors n) eqn:Ec.
  - assert (walk edges ([] ++ [n])) as Hwalk by (by intros [|i] a b).
    pose proof (dfs_spec fuel n colors [] fin Hi Ec Hn1 Hwalk Hf) as Hr.
    destruct (dfs graph fuel n colors []) as [[colors1|c]|]; [|done|done].
    destruct Hr as (fin1 & Hi1 & Hsub & Ht & Hw). apply Forall_cons in Ht as [Ht _].
    apply (searched_cons _ colors1 _ _ fin1); [apply IH; [done|done|lia]|done|done|done].
  - by apply (di_gray _ _ _ Hi), elem_of_nil in Ec.
  - apply (di_black _ _ _ Hi) in Ec. apply (searched_cons _ colors _ _ fin); [by apply IH|done|done|done].
Qed.
End facts.

(** ** The graph of a manifest *)

Lemma graph_inner_spec (E : gset string) name ds : forall (g : gmap string (list string)) n d,
  d ∈ default [] (foldl (fun g dep => if bool_decide (dep ∈ E) then <[name := default [] (g !! name) ++ [dep]]> g else g) g ds !! n) <->
  d ∈ default [] (g !! n) \/ (n = name /\ d ∈ ds /\ d ∈ E).
Proof.
  induction ds as [|x ds IH]; intros g n d; cbn [foldl]; [set_solver|]. rewrite IH.
  case_bool_decide as Hx; [|set_solver]. destruct (decide (n = name)) as [->|Hne].
  - rewrite lookup_insert_eq. simpl. set_solver.
  - rewrite lookup_insert_ne by done. naive_solver.
Qed.

Lemma graph_fold_spec (E : gset string) l : forall (g : gmap string (list string)) n d,
  d ∈ default [] (foldl (fun g inst => foldl (fun g dep =>
      if bool_decide (dep ∈ E) then <[Inst_Name inst := default [] (g !! Inst_Name inst) ++ [dep]]> g else g)
    g (services_of inst)) g l !! n) <->
  d ∈ default [] (g !! n) \/ exists inst, inst ∈ l /\ Inst_Name inst = n /\ d ∈ services_of inst /\ d ∈ E.
Proof.
  induction l as [|x l IH]; intros g n d; cbn [foldl]; [set_solver|]. rewrite IH, graph_inner_spec.
  setoid_rewrite elem_of_cons. naive_solver.
Qed.

(** The edges are the dependencies of the instances of a name that are in the manifest. *)
Lemma edges_spec instances n d :
  d ∈ edges (graph_of instances) n <->
  exists inst, inst ∈ instances /\ Inst_Name inst = n /\ d ∈ services_of inst /\ d ∈ map Inst_Name instances.
Proof.
  unfold edges, graph_of. rewrite graph_fold_spec. unfold exists_of. setoid_rewrite elem_of_list_to_set.
  rewrite lookup_empty. simpl. rewrite elem_of_nil. naive_solver.
Qed.

Lemma graph_known instances n ds :
  graph_of instances !! n = Some ds -> Forall (fun d => d ∈ exists_of instances) ds.
Proof.
  intros E. apply Forall_forall. intros d Hd. assert (d ∈ edges (graph_of instances) n) as (i & _ & _ & _ & H)%edges_spec
    by (unfold edges; by rewrite E). unfold exists_of. by apply elem_of_list_to_set.
Qed.

(** [detectDependencyCycle] always returns: a cycle of the manifest, or nothing
    and then the names have an order with dependencies first. *)
Lemma detect_spec instances : exists c, detectDependencyCycle instances = Some c /\
  (is_cycle (edges (graph_of instances)) c \/
   c = [] /\ exists fin, NoDup fin /\ fin ≡ₚ elements (exists_of instances) /\ sinks_first (edges (graph_of instances)) fin).
Proof.
  unfold detectDependencyCycle. set (U := exists_of instances). set (g := graph_of instances).
  assert (dfs_inv g U ∅ [] []) as Hi.
  { constructor; try (intros n; unfold color_of; rewrite lookup_empty; split; [done|by intros ?%elem_of_nil]).
    - by intros i a b Ha.
    - constructor.
    - by intros n ?%elem_of_nil.
    - by intros i n Hn. }
  assert (whites U ∅ <= S (length instances))%nat as Hf.
  { unfold whites. etrans; [apply (subseteq_size _ U); intros x; rewrite elem_of_filter; tauto|]. unfold U, exists_of.
    rewrite <- size_byName. pose proof (size_byName_le instances). lia. }
  assert (Forall (fun n => n ∈ U) (map Inst_Name instances)) as Hn.
  { apply Forall_forall. intros n Hn. by apply elem_of_list_to_set. }
  pose proof (search_all_spec g U (graph_known instances) (S (length instances)) _ ∅ [] Hi Hn Hf) as Hr.
  destruct (search_all _ _ _ _) as [[colors|c]|]; [|exists c; by split; [|left]|done].
  destruct Hr as (fin & Hi' & _ & Ht & _). exists []. split; [done|]. right. split; [done|]. exists fin.
  split_and!; [apply (di_fin _ _ _ _ _ Hi')| |apply (di_sinks _ _ _ _ _ Hi')].
  apply NoDup_Permutation; [apply (di_fin _ _ _ _ _ Hi')|apply NoDup_elements|]. intros n. rewrite elem_of_elements. split.
  - apply (di_known _ _ _ _ _ Hi').
  - intros HU%elem_of_list_to_set. rewrite Forall_forall in Ht. by apply Ht.
Qed.

(** ** Agreement with the deployment order *)

Notation names := (map Inst_Name).

(** Names in an order with dependencies first give a deployment order. *)
Lemma order_of_names instances P :
  NoDup (names instances) -> P ≡ₚ names instances ->
  (forall i n inst, P !! i = Some n -> byName_of instances !! n = Some inst -> Forall (fun d => d ∈ take i P) (services_of inst)) ->
  valid_order instances (omap (byName_of instances !!.) P).
Proof.
  intros Hnd HP Hord. set (order := omap (byName_of instances !!.) P).
  assert (names order = P) as HN by (apply names_omap; intros n; rewrite HP; apply byName_is_Some).
  assert (NoDup P) as HPn by (by rewrite HP).
  assert (order ⊆ instances) as Hsub.
  { intros x (n & _ & Hx)%list_elem_of_omap. by apply byName_Some in Hx as [? _]. }
  assert (NoDup order) as Hno by (apply (NoDup_fmap_1 Inst_Name); change (NoDup (names order)); by rewrite HN).
  split_and!; [|by rewrite HN|].
  - apply submseteq_length_Permutation; [by apply NoDup_submseteq|].
    rewrite <- (length_map Inst_Name order), HN, HP, length_map. done.
  - intros i inst Hi. assert (P !! i = Some (Inst_Name inst)) as HPi.
    { rewrite <- HN. change (names order) with (Inst_Name <$> order). by rewrite list_lookup_fmap, Hi. }
    assert (names (take i order) = take i P) as ->.
    { rewrite <- HN. change (fmap Inst_Name (take i order) = take i (fmap Inst_Name order)). by rewrite fmap_take. }
    apply (Hord i (Inst_Name inst)); [done|]. apply byName_distinct; [done|]. apply Hsub. by eapply list_elem_of_lookup_2.
Qed.

(** Along a walk, positions in a deployment order go down. *)
Lemma walk_descends instances l c x p :
  valid_order instances l -> walk (edges (graph_of instances)) c -> c !! 0%nat = Some x -> names l !! p = Some x ->
  forall j b q, c !! j = Some b -> names l !! q = Some b -> (q + j <= p)%nat.
Proof.
  intros (Hp & Hnd & Ht) Hw Hx Hpx. induction j as [|j IH]; intros b q Hb Hq.
  - simplify_eq. rewrite (NoDup_lookup _ q p x Hnd Hq Hpx). lia.
  - apply lookup_lt_Some in Hb as Hl. destruct (lookup_lt_is_Some_2 c j) as [a Ha]; [lia|].
    pose proof (Hw j a b Ha Hb) as (inst & Hin & Hn & Hd & _)%edges_spec. rewrite <- Hp in Hin.
    apply list_elem_of_lookup in Hin as [k Hk].
    assert (names l !! k = Some a) as Hka by (change (names l) with (Inst_Name <$> l); rewrite list_lookup_fmap, Hk; simpl; by rewrite Hn).
    specialize (IH a k Ha Hka). specialize (Ht k inst Hk). rewrite Forall_forall in Ht. specialize (Ht b Hd).
    change (names (take k l)) with (Inst_Name <$> take k l) in Ht. rewrite fmap_take in Ht.
    apply elem_of_take in Ht as (r & Hr & Hlt). change (Inst_Name <$> l) with (names l) in Hr.
    rewrite (NoDup_lookup _ q r b Hnd Hq Hr). lia.
Qed.

Lemma order_has_no_cycle instances l c :
  valid_order instances l -> ~ is_cycle (edges (graph_of instances)) c.
Proof.
  intros Hv (x & m & -> & Hw). pose proof Hv as (Hp & Hnd & _).
  assert (exists p, names l !! p = Some x) as [p Hpx].
  { apply list_elem_of_lookup. rewrite Hp.
    destruct (lookup_lt_is_Some_2 (x :: m ++ [x]) 1) as [b Hb]; [simpl; rewrite length_app; simpl; lia|].
    pose proof (Hw 0%nat x b eq_refl Hb) as (inst & Hin & Hn & _)%edges_spec. apply list_elem_of_fmap. eauto. }
  pose proof (walk_descends instances l _ x p Hv Hw eq_refl Hpx (S (length m)) x p) as H.
  assert ((x :: m ++ [x]) !! S (length m) = Some x) as Hl by (simpl; by rewrite list_lookup_middle).
  specialize (H Hl Hpx). lia.
Qed.

(** When no cycle is found, and names are distinct and dependencies known, there is an order. *)
Lemma acyclic_has_order instances :
  NoDup (names instances) -> (forall inst d, inst ∈ instances -> d ∈ services_of inst -> d ∈ names instances) ->
  detectDependencyCycle instances = Some [] -> exists l, valid_order instances l.
Proof.
  intros Hnd Hknown Hd. destruct (detect_spec instances) as (c & Hc & Hspec). rewrite Hd in Hc. injection Hc as <-.
  destruct Hspec as [(x & m & [=] & _)|(_ & fin & Hf & Hp & Hs)].
  exists (omap (byName_of instances !!.) fin). apply order_of_names; [done| |].
  - apply NoDup_Permutation; [done|done|]. intros n. rewrite Hp, elem_of_elements. apply elem_of_list_to_set.
  - intros i n inst Hi Hn. apply byName_Some in Hn as [Hin Hn]. pose proof (Hs i n Hi) as Hall.
    rewrite Forall_forall in *. intros d Hdd. apply Hall, edges_spec. exists inst. eauto 10.
Qed.

(** C27: the validator's depth-first search and the stack manager's topological
    sort agree. [detectDependencyCycle] always returns; for a manifest with
    distinct names and known dependencies it reports nothing exactly when
    [buildDependencyOrder] succeeds, and what it reports otherwise is a cycle:
    each name depends on the next, and the last is the first. *)
Theorem cycle_check_agrees_with_order (range : range_fn) (instances : list InstanceConfig) :
  range_ok range -> NoDup (names instances) ->
  (forall inst d, inst ∈ instances -> d ∈ services_of inst -> d ∈ names instances) ->
  exists c, detectDependencyCycle instances = Some c /\
    (c = [] <-> exists order, buildDependencyOrder range instances = Some (Ok order)) /\
    (c <> [] -> exists x l, c = x :: l ++ [x] /\ forall i a b, c !! i = Some a -> c !! S i = Some b ->
       exists inst, inst ∈ instances /\ Inst_Name inst = a /\ b ∈ services_of inst).
Proof.
  intros Hr Hnd Hknown. destruct (detect_spec instances) as (c & Hc & Hspec). exists c. split; [done|]. split.
  - split.
    + intros ->. destruct (acyclic_has_order instances Hnd Hknown Hc) as [l Hl].
      destruct (order_cases range instances Hr) as [(e & Hb & Hu)|[(n & Hb & Hn)|[(Hb & _ & _ & Hno)|(order & Hb & _)]]];
        [|done|by destruct (Hno l)|eauto].
      apply unknown_dependency_Some in Hu as (n & ds & d & Hin & Hd & Hno & _).
      rewrite (Hr _ _), elem_of_map_to_list in Hin. destruct (valid_order_deps _ _ Hl) as [_ Hdeps].
      destruct (Hdeps n ds d Hin Hd). congruence.
    + intros (order & Hb).
      destruct (order_cases range instances Hr) as [(e & Hb' & _)|[(n & Hb' & _)|[(Hb' & _)|(order' & Hb' & Hv)]]];
        rewrite Hb' in Hb; try done. destruct Hspec as [Hcyc|[-> _]]; [|done]. by destruct (order_has_no_cycle _ _ _ Hv Hcyc).
  - intros Hne. destruct Hspec as [(x & l & -> & Hw)|[-> _]]; [|done]. exists x, l. split; [done|].
    intros i a b Ha Hb. pose proof (Hw i a b Ha Hb) as (inst & Hin & Hn & Hd & _)%edges_spec. eauto.
Qed.

Lemma cycle_check_agrees_with_order_witness :
  exists x l, ["web"; "db"; "web"] = x :: l ++ [x].
Proof.
  destruct (cycle_check_agrees_with_order listed [inst_of "web" ["db"]; inst_of "db" ["web"]] listed_ok)
    as (c & Hc & _ & Hcyc).
  - apply (bool_decide_unpack _). vm_compute. exact I.
  - intros inst d Hin Hd. apply elem_of_cons in Hin as [->|Hin]; [simpl in Hd |- *; set_solver|].
    apply list_elem_of_singleton in Hin as ->. simpl in Hd |- *. set_solver.
  - vm_compute in Hc. injection Hc as <-. destruct Hcyc as (x & l & E & _); [discriminate|]. exists x, l. exact E.
Defined.
