(* ===== verification/ManifestValidator.v ===== *)
(** * The manifest validator (pkg/manifest/validator.go)

    Each check returns the list of what it finds wrong, in the order the code
    appends it.  A message is kept as its format and arguments. *)

From stdpp Require Import base list gmap strings pretty.
From Stdlib Require Import Ascii ZArith Lia Floats.SpecFloat.
From S2P Require Import Prelude GoStrings GoTime Regexp GoNet ProviderTypes Validation ManifestTypes ManifestParse DepOrder DepOrderFacts DepCycle.

Local Open Scope Z_scope.

Record ValidationError := { VE_Field : string; VE_Message : error }.

Definition report (b : bool) (field : string) (message : error) : list ValidationError :=
  if b then [{| VE_Field := field; VE_Message := message |}] else [].

Definition says (fmt : string) : error := Errorf fmt [].

(** The error of a result, under a field. *)
Definition report_err {A} (r : result A) (field : string) : list ValidationError :=
  match r with Ok _ => [] | Err e => [{| VE_Field := field; VE_Message := e |}] end.

(** A loop over a slice that appends what [f] finds at each index. *)
Fixpoint each_from {A} (i : nat) (f : nat -> A -> list ValidationError) (l : list A) : list ValidationError :=
  match l with [] => [] | x :: l' => f i x ++ each_from (S i) f l' end.
Definition each {A} := @each_from A 0.

(** [name[i]]. *)
Definition indexed (name : string) (i : nat) : string := name +:+ "[" +:+ pretty i +:+ "]".

Definition slices_Contains (l : list string) (s : string) : bool := existsb (streq s) l.

Definition commas (l : list string) : string := String.concat ", " l.

(** [field]. *)
Definition join_field (prefix name : string) : string :=
  if streq prefix "" then name else prefix +:+ "." +:+ name.

(** ** Names *)

Definition valid_name_regex : re :=
  Alt (Seq (Cls lower) (Seq (Star (Cls (fun c => lower_digit c || one_of "-" c))) (Cls lower_digit))) (Cls lower).

Definition isValidName (name : string) : bool :=
  if streq name "" || (63 <? len name) then false else MatchString valid_name_regex (ToLower name).

Definition isValidUsername (name : string) : bool :=
  if streq name "" || (32 <? len name) then false
  else MatchString (Seq (Cls (fun c => lower c || one_of "_" c)) (Star (Cls (fun c => lower_digit c || one_of "_-" c)))) name.

Record Validator := { SupportedProviders : list string }.

Definition NewValidator : Validator :=
  {| SupportedProviders := [ProviderTypeJail; ProviderTypeBhyve; ProviderTypeQEMU; ProviderTypePodman] |}.

Definition isValidProvider (v : Validator) (provider : string) : bool := slices_Contains (SupportedProviders v) provider.

(** ** The parts of an instance *)

Definition validateAPIVersion (field value : string) : list ValidationError :=
  report (negb (streq value "" || streq value APIVersion)) field
    (Errorf "unknown manifest version %q; this build understands %s" [value; APIVersion]).

Definition validateWorkloadMeta (m : WorkloadMeta) : list ValidationError :=
  validateAPIVersion "workload.api_version" (WM_APIVersion m) ++
  (if streq (WM_Name m) "" then report true "workload.name" (says "name is required")
   else report (negb (isValidName (WM_Name m))) "workload.name"
          (says "invalid name format (must be alphanumeric with hyphens, max 63 chars)")).

Definition validateProvider (v : Validator) (p : ProviderSpec) : list ValidationError :=
  if streq (PS_Type p) "" then report true "provider.type" (says "provider type is required")
  else report (negb (isValidProvider v (PS_Type p))) "provider.type"
         (Errorf "unknown provider: %s (valid: %s)" [PS_Type p; commas (SupportedProviders v)]).

(** The map [compatible]. *)
Definition compatible (providerType : string) : option (list string) :=
  if streq providerType ProviderTypeJail then Some [ImageTypeFreeBSD]
  else if streq providerType ProviderTypeBhyve then Some [ImageTypeFreeBSD; ImageTypeCloud; ImageTypeISO]
  else if streq providerType ProviderTypeQEMU then Some [ImageTypeFreeBSD; ImageTypeCloud; ImageTypeISO]
  else if streq providerType ProviderTypePodman then Some [ImageTypeOCI]
  else None.

Definition validateImageProviderCompat (imageType providerType : string) : list ValidationError :=
  if streq providerType "" then []
  else
    match compatible providerType with
    | None => []
    | Some validTypes =>
        report (negb (slices_Contains validTypes imageType)) "image.source"
          (Errorf "image type '%s' is not compatible with provider '%s' (valid: %s)" [imageType; providerType; commas validTypes])
    end.

Definition validArchs : list string := ["amd64"; "arm64"; "riscv64"; "i386"].

Definition validateImage (img : ImageSpec) (providerType osType : string) : list ValidationError :=
  if streq (Img_Source img) "" then
    report (negb (streq providerType ProviderTypeJail && streq osType "linux")) "image.source" (says "image source is required")
  else if streq (Img_Source img) "none" then []
  else
    match ParseImageSource (Img_Source img) with
    | Err e => [{| VE_Field := "image.source"; VE_Message := e |}]
    | Ok (imageType, _) =>
        validateImageProviderCompat imageType providerType ++
        report (negb (streq (Img_Arch img) "") && negb (slices_Contains validArchs (Img_Arch img))) "image.arch"
          (Errorf "unsupported architecture: %s (valid: %s)" [Img_Arch img; commas validArchs])
    end.

Definition validNetworkTypes : list string :=
  [NetworkTypeBridge; NetworkTypeNAT; NetworkTypeMacvlan; NetworkTypeVXLAN; NetworkTypeNone].
Definition validModes : list string := [IPModeDHCP; IPModeStatic; IPModeNone].
Definition validDiskTypes : list string := [DiskTypeAuto; DiskTypeZVOL; DiskTypeQCOW2; DiskTypeRaw; DiskTypePhysical].
Definition validCompressions : list string := ["lz4"; "gzip"; "zstd"; "lzjb"; "off"; ""].

Definition validateIP (ip : IPConfig) (prefix : string) : list ValidationError :=
  report (negb (streq (IP_Mode ip) "") && negb (slices_Contains validModes (IP_Mode ip))) (prefix +:+ ".ip.mode")
    (Errorf "invalid IP mode: %s (valid: %s)" [IP_Mode ip; commas validModes]) ++
  (if streq (IP_Mode ip) IPModeStatic then
     if streq (IP_Address ip) "" then report true (prefix +:+ ".ip.address") (says "static IP requires address")
     else report (bool_decide (ParseCIDR (IP_Address ip) = None)) (prefix +:+ ".ip.address") (says "invalid CIDR format")
   else []) ++
  each (fun i dns => report (bool_decide (ParseIP dns = None)) (indexed (prefix +:+ ".ip.dns") i)
                       (Errorf "invalid DNS IP: %s" [dns])) (IP_DNS ip).

Definition validatePort (prefix : string) (i : nat) (port : PortConfig) : list ValidationError :=
  let portPrefix := indexed (prefix +:+ ".ports") i in
  report ((PC_Host port <=? 0) || (65535 <? PC_Host port)) (portPrefix +:+ ".host") (says "host port must be 1-65535") ++
  report ((PC_Container port <=? 0) || (65535 <? PC_Container port)) (portPrefix +:+ ".container")
    (says "container port must be 1-65535") ++
  report (negb (streq (PC_Protocol port) "") && negb (streq (PC_Protocol port) "tcp") && negb (streq (PC_Protocol port) "udp"))
    (portPrefix +:+ ".protocol") (says "protocol must be tcp or udp").

Definition validateNetwork (n : ManifestNetwork) (prefix : string) : list ValidationError :=
  report (streq (MN_Name n) "") (prefix +:+ ".name") (says "network name is required") ++
  report (negb (streq (MN_Type n) "") && negb (slices_Contains validNetworkTypes (MN_Type n))) (prefix +:+ ".type")
    (Errorf "invalid network type: %s (valid: %s)" [MN_Type n; commas validNetworkTypes]) ++
  (match MN_IP n with Some ip => validateIP ip prefix | None => [] end) ++
  each (validatePort prefix) (MN_Ports n).

Section sizes.
Context (int64_overflow : spec_float -> Z).

Definition validateResources (r : ResourceSpec) : list ValidationError :=
  report (Res_CPU r <? 0) "resources.cpu" (says "CPU count cannot be negative") ++
  report (256 <? Res_CPU r) "resources.cpu" (says "CPU count exceeds maximum (256)") ++
  (if streq (Res_Memory r) "" then []
   else match ParseMemoryToMB int64_overflow (Res_Memory r) with
        | Err e => [{| VE_Field := "resources.memory"; VE_Message := e |}]
        | Ok mb => report (mb <? 64) "resources.memory" (says "memory must be at least 64Mi")
        end).

Definition validateVolume (i : nat) (vol : VolumeSpec) : list ValidationError :=
  let prefix := indexed "storage.volumes" i in
  report (streq (Vol_Name vol) "") (prefix +:+ ".name") (says "volume name is required") ++
  (if streq (Vol_MountPath vol) "" then report true (prefix +:+ ".mount_path") (says "mount path is required")
   else report (negb (HasPrefix (Vol_MountPath vol) "/")) (prefix +:+ ".mount_path") (says "mount path must be absolute")) ++
  report (streq (Vol_Size vol) "" && streq (Vol_HostPath vol) "") (prefix +:+ ".size")
    (says "size is required for non-host volumes") ++
  (if streq (Vol_Size vol) "" then [] else report_err (ParseMemorySize int64_overflow (Vol_Size vol)) (prefix +:+ ".size")) ++
  (match Vol_ZFS vol with
   | Some z => report (negb (streq (ZC_Compression z) "") && negb (slices_Contains validCompressions (ZC_Compression z)))
                 (prefix +:+ ".zfs.compression") (Errorf "invalid compression: %s" [ZC_Compression z])
   | None => []
   end).

Definition validateStorage (s : StorageSpec) : list ValidationError :=
  (match RootDisk s with
   | Some d =>
       (if streq (RD_Size d) "" then [] else report_err (ParseMemorySize int64_overflow (RD_Size d)) "storage.root_disk.size") ++
       report (negb (streq (RD_Type d) "") && negb (slices_Contains validDiskTypes (RD_Type d))) "storage.root_disk.type"
         (Errorf "invalid disk type: %s (valid: %s)" [RD_Type d; commas validDiskTypes])
   | None => []
   end) ++
  each validateVolume (Volumes s).

(** A duration that is given has to parse. *)
Definition validate_duration (field value : string) : list ValidationError :=
  if streq value "" then [] else report_err (manifest_ParseDuration value) field.

Definition exec_quoted : string := String "034"%char ("exec" +:+ String "034"%char "").

Definition validateHook (prefix : string) (i : nat) (hook : HookSpec) : list ValidationError :=
  let field := indexed prefix i in
  (if streq (HK_Type hook) "exec" then []
   else if streq (HK_Type hook) "" then
     report true (field +:+ ".type") (says ("hook type is required; the only type that runs is " +:+ exec_quoted))
   else report true (field +:+ ".type")
          (Errorf ("unknown hook type %q; the only type that runs is " +:+ exec_quoted) [HK_Type hook])) ++
  report (bool_decide (length (HK_Commands hook) = 0%nat)) (field +:+ ".commands") (says "hook has no commands to run") ++
  report (negb (streq (HK_OnFailure hook) "") && negb (streq (HK_OnFailure hook) "continue")
          && negb (streq (HK_OnFailure hook) "stop")) (field +:+ ".on_failure")
    (Errorf "on_failure must be %q or %q, not %q" ["continue"; "stop"; HK_OnFailure hook]).

Definition validateHooks (hooks : list HookSpec) (prefix : string) : list ValidationError :=
  each (validateHook prefix) hooks.

Definition validateLifecycle (prefix : string) (l : LifecycleSpec) : list ValidationError :=
  (match Autostart l with
   | Some a =>
       report ((AS_Priority a <? 0) || (100 <? AS_Priority a)) (join_field prefix "lifecycle.autostart.priority")
         (says "priority must be 0-100") ++
       validate_duration (join_field prefix "lifecycle.autostart.delay") (AS_Delay a)
   | None => []
   end) ++
  (match HealthCheck_ l with
   | Some h =>
       validate_duration (join_field prefix "lifecycle.health_check.interval") (HS_Interval h) ++
       validate_duration (join_field prefix "lifecycle.health_check.timeout") (HS_Timeout h) ++
       validate_duration (join_field prefix "lifecycle.health_check.start_period") (HS_StartPeriod h) ++
       report (HS_Retries h <? 0) (join_field prefix "lifecycle.health_check.retries") (says "retries cannot be negative")
   | None => []
   end) ++
  (match Restart l with
   | Some r =>
       validate_duration (join_field prefix "lifecycle.restart.delay") (RS_Delay r) ++
       validate_duration (join_field prefix "lifecycle.restart.reset_after") (RS_ResetAfter r) ++
       report (RS_MaxRestarts r <? 0) (join_field prefix "lifecycle.restart.max_restarts")
         (says "max_restarts cannot be negative")
   | None => []
   end) ++
  (match Hooks l with
   | Some h => validateHooks (HK_PreCreate h) "lifecycle.hooks.pre_create" ++
               validateHooks (HK_PostCreate h) "lifecycle.hooks.post_create"
   | None => []
   end).

Definition validateUser (prefix : string) (i : nat) (user : CloudInitUser) : list ValidationError :=
  let userPrefix := indexed (prefix +:+ ".users") i in
  if streq (CU_Name user) "" then report true (userPrefix +:+ ".name") (says "user name is required")
  else report (negb (isValidUsername (CU_Name user))) (userPrefix +:+ ".name") (says "invalid username format").

Definition validateCloudInit (c : CloudInitSpec) (providerType prefix : string) : list ValidationError :=
  if negb (streq providerType "") && negb (streq providerType ProviderTypeBhyve) && negb (streq providerType ProviderTypeQEMU)
  then report true prefix (Errorf "cloud-init is only supported for bhyve and qemu providers, not %s" [providerType])
  else
    match CS_Enabled c with
    | Some true =>
        each (validateUser prefix) (CS_Users c) ++
        report (negb (streq (CS_UserData c) "") && negb (streq (CS_UserDataFile c) "")) prefix
          (says "user_data and user_data_file are mutually exclusive")
    | _ => []
    end.

(** ** Whole manifests *)

Definition override_os (overrides : list (string * ProviderConfig)) (provider : string) : string :=
  match assoc provider overrides with Some o => PV_OSType o | None => "" end.

Definition validateWorkload (v : Validator) (m : WorkloadManifest) : list ValidationError :=
  validateWorkloadMeta (W_Workload m) ++
  validateProvider v (W_Provider m) ++
  validateImage (W_Image m) (PS_Type (W_Provider m)) (override_os (W_ProviderOverrides m) (PS_Type (W_Provider m))) ++
  validateResources (W_Resources m) ++
  each (fun i n => validateNetwork n (indexed "networks" i)) (W_Networks m) ++
  validateStorage (W_Storage m) ++
  validateLifecycle "" (W_Lifecycle m) ++
  (match W_CloudInit m with Some c => validateCloudInit c (PS_Type (W_Provider m)) "cloud_init" | None => [] end).

(** One instance of a stack, given the names of those before it. *)
Definition validateInstance (v : Validator) (seen : gset string) (i : nat) (inst : InstanceConfig) : list ValidationError :=
  let prefix := indexed "instances" i in
  (if streq (Inst_Name inst) "" then report true (prefix +:+ ".name") (says "name is required")
   else report (bool_decide (Inst_Name inst ∈ seen)) (prefix +:+ ".name")
          (Errorf "duplicate instance name: %s" [Inst_Name inst])) ++
  (if streq (Inst_Provider inst) "" then report true (prefix +:+ ".provider") (says "provider is required")
   else report (negb (isValidProvider v (Inst_Provider inst))) (prefix +:+ ".provider")
          (Errorf "unknown provider: %s" [Inst_Provider inst])) ++
  validateImage (Inst_Image inst) (Inst_Provider inst) (override_os (Inst_ProviderOverrides inst) (Inst_Provider inst)) ++
  validateResources (Inst_Resources inst) ++
  each (fun j n => validateNetwork n (indexed (prefix +:+ ".networks") j)) (Inst_Networks inst) ++
  (match Inst_CloudInit inst with
   | Some c => validateCloudInit c (Inst_Provider inst) (prefix +:+ ".cloud_init")
   | None => []
   end) ++
  validateStorage (Inst_Storage inst) ++
  validateLifecycle prefix (Inst_Lifecycle inst).

(** The first pass, with the map [instanceNames]. *)
Fixpoint validateInstances (v : Validator) (instanceNames : gset string) (i : nat) (l : list InstanceConfig)
    : list ValidationError * gset string :=
  match l with
  | [] => ([], instanceNames)
  | inst :: l' =>
      let errs := validateInstance v instanceNames i inst in
      let names := if streq (Inst_Name inst) "" then instanceNames else {[Inst_Name inst]} ∪ instanceNames in
      let '(rest, names) := validateInstances v names (S i) l' in (errs ++ rest, names)
  end.

(** The second pass. *)
Definition validateDependencies (instanceNames : gset string) (i : nat) (inst : InstanceConfig) : list ValidationError :=
  concat (map (fun dep =>
    report (negb (bool_decide (dep ∈ instanceNames))) (indexed "instances" i +:+ ".depends_on.services")
      (Errorf "unknown dependency: %s" [dep]) ++
    report (streq dep (Inst_Name inst)) (indexed "instances" i +:+ ".depends_on.services")
      (says "instance cannot depend on itself")) (services_of inst)).

Definition validateStack (v : Validator) (m : StackManifest) : list ValidationError :=
  validateAPIVersion "stack.api_version" (SM_APIVersion (Manifest_Stack m)) ++
  (if streq (SM_Name (Manifest_Stack m)) "" then report true "stack.name" (says "name is required")
   else report (negb (isValidName (SM_Name (Manifest_Stack m)))) "stack.name"
          (says "invalid name format (must be alphanumeric with hyphens)")) ++
  report (bool_decide (length (Manifest_Instances m) = 0%nat)) "instances" (says "at least one instance is required") ++
  let '(errs, instanceNames) := validateInstances v ∅ 0 (Manifest_Instances m) in
  errs ++ each (validateDependencies instanceNames) (Manifest_Instances m) ++
  match detectDependencyCycle (Manifest_Instances m) with
  | Some (n :: c) => report true "instances.depends_on"
                       (Errorf "dependency cycle detected: %s" [String.concat " -> " (n :: c)])
  | _ => []
  end.

Definition Validate (v : Validator) (manifest : ParsedManifest) : list ValidationError :=
  (match PM_Workload manifest with Some w => validateWorkload v w | None => [] end) ++
  (match PM_Stack manifest with Some s => validateStack v s | None => [] end).
End sizes.
