(* ===== verification/StackStore.v ===== *)
(** * Stack persistence (internal/datastore/stacks.go)

    [StackStore] is the interface pkg/orchestration/stack.go declares,
    [StackStoreLaws] what its users rely on.  The implementation runs SQL over
    two tables (internal/datastore/migrations/registry.go): [stacks], keyed by
    name, and [stack_instances], keyed by stack and instance name, with a
    cascading foreign key.  A statement can also fail for reasons of the
    database's own; the failures to come are part of the state. *)

From stdpp Require Import base list gmap strings sorting.
From Stdlib Require Import ZArith Lia.
From S2P Require Import Prelude.

Record StackRecord := {
  SR_Name : string; SR_Status : string; SR_Manifest : string; SR_CreatedAt : Z; SR_UpdatedAt : Z
}.

Record StackInstanceRecord := {
  IR_StackName : string; IR_InstanceName : string; IR_InstanceID : string; IR_Provider : string;
  IR_DependsOn : list string; IR_Status : string; IR_Health : string; IR_Handle : string;
  IR_DeployOrder : Z
}.

Definition inst_key (r : StackInstanceRecord) : string * string := (IR_StackName r, IR_InstanceName r).

Class StackStore (D : Type) := {
  CreateStack : D -> Z -> StackRecord -> D * option error;
  GetStack : D -> string -> D * result (option StackRecord);
  ListStacks : D -> D * result (list StackRecord);
  UpdateStackStatus : D -> Z -> string -> string -> D * option error;
  DeleteStack : D -> string -> D * option error;
  CreateStackInstance : D -> StackInstanceRecord -> D * option error;
  GetStackInstances : D -> string -> D * result (list StackInstanceRecord);
  UpdateStackInstanceStatus : D -> string -> string -> string -> D * option error;
  UpdateStackInstanceHealth : D -> string -> string -> string -> D * option error;
  DeleteStackInstance : D -> string -> string -> D * option error;
  DeleteStackInstances : D -> string -> D * option error
}.

(** What a store holds, and what a successful call does to it; a failed call
    changes nothing. *)
Class StackStoreLaws (D : Type) `{StackStore D} := {
  stack_rows : D -> gmap string StackRecord;
  instance_rows : D -> gmap (string * string) StackInstanceRecord;
  unchanged (d d' : D) : Prop := stack_rows d' = stack_rows d /\ instance_rows d' = instance_rows d;
  CreateStack_law d now r :
    match CreateStack d now r with
    | (d', None) => stack_rows d !! SR_Name r = None /\
        stack_rows d' = <[SR_Name r := {| SR_Name := SR_Name r; SR_Status := SR_Status r; SR_Manifest := SR_Manifest r;
                                          SR_CreatedAt := now; SR_UpdatedAt := now |}]> (stack_rows d) /\
        instance_rows d' = instance_rows d
    | (d', Some _) => unchanged d d'
    end;
  UpdateStackStatus_law d now name status :
    match UpdateStackStatus d now name status with
    | (d', None) => exists r, stack_rows d !! name = Some r /\
        stack_rows d' = <[name := {| SR_Name := SR_Name r; SR_Status := status; SR_Manifest := SR_Manifest r;
                                     SR_CreatedAt := SR_CreatedAt r; SR_UpdatedAt := now |}]> (stack_rows d) /\
        instance_rows d' = instance_rows d
    | (d', Some _) => unchanged d d'
    end;
  DeleteStack_law d name :
    match DeleteStack d name with
    | (d', None) => is_Some (stack_rows d !! name) /\ stack_rows d' = delete name (stack_rows d) /\
        instance_rows d' = filter (fun p => p.1.1 <> name) (instance_rows d)
    | (d', Some _) => unchanged d d'
    end;
  CreateStackInstance_law d r :
    match CreateStackInstance d r with
    | (d', None) => instance_rows d !! inst_key r = None /\ is_Some (stack_rows d !! IR_StackName r) /\
        stack_rows d' = stack_rows d /\ instance_rows d' = <[inst_key r := r]> (instance_rows d)
    | (d', Some _) => unchanged d d'
    end;
  GetStackInstances_law d name :
    match GetStackInstances d name with
    | (d', Ok l) => unchanged d d' /\ (forall r, r ∈ l <-> exists k, instance_rows d !! (name, k) = Some r) /\
        StronglySorted (fun a b => (IR_DeployOrder a <= IR_DeployOrder b)%Z) l
    | (d', Err _) => unchanged d d'
    end;
  DeleteStackInstance_law d name inst :
    match DeleteStackInstance d name inst with
    | (d', None) => stack_rows d' = stack_rows d /\ instance_rows d' = delete (name, inst) (instance_rows d)
    | (d', Some _) => unchanged d d'
    end
}.

(** ** The SQLite implementation *)

Record Datastore := {
  stacks : gmap string StackRecord;
  stack_instances : gmap (string * string) StackInstanceRecord;
  faults : list (option error)
}.

(** One statement: the failure the database reports for it, if any. *)
Definition statement (ds : Datastore) : Datastore * option error :=
  match faults ds with
  | [] => (ds, None)
  | f :: fs => ({| stacks := stacks ds; stack_instances := stack_instances ds; faults := fs |}, f)
  end.

Definition with_tables (ds : Datastore) (st : gmap string StackRecord)
    (si : gmap (string * string) StackInstanceRecord) : Datastore :=
  {| stacks := st; stack_instances := si; faults := faults ds |}.

Definition constraint_failed : error := Errorf "constraint failed" [].

(** [INSERT INTO stacks]. *)
Definition ds_CreateStack (ds : Datastore) (now : Z) (stack : StackRecord) : Datastore * option error :=
  let '(ds, fault) := statement ds in
  let fail e := Some (Wrapf "failed to create stack %s: %w" [SR_Name stack] e) in
  match fault with
  | Some e => (ds, fail e)
  | None =>
      match stacks ds !! SR_Name stack with
      | Some _ => (ds, fail constraint_failed)
      | None =>
          (with_tables ds (<[SR_Name stack := {| SR_Name := SR_Name stack; SR_Status := SR_Status stack;
             SR_Manifest := SR_Manifest stack; SR_CreatedAt := now; SR_UpdatedAt := now |}]> (stacks ds))
             (stack_instances ds), None)
      end
  end.

Definition ds_GetStack (ds : Datastore) (name : string) : Datastore * result (option StackRecord) :=
  let '(ds, fault) := statement ds in
  match fault with
  | Some e => (ds, Err (Wrapf "failed to get stack %s: %w" [name] e))
  | None => (ds, Ok (stacks ds !! name))
  end.

(** [ORDER BY created_at]. *)
Definition ds_ListStacks (ds : Datastore) : Datastore * result (list StackRecord) :=
  let '(ds, fault) := statement ds in
  match fault with
  | Some e => (ds, Err (Wrapf "failed to list stacks: %w" [] e))
  | None => (ds, Ok (sort_by SR_CreatedAt Z.le (map_to_list (stacks ds)).*2))
  end.

Definition ds_UpdateStackStatus (ds : Datastore) (now : Z) (name status : string) : Datastore * option error :=
  let '(ds, fault) := statement ds in
  match fault with
  | Some e => (ds, Some (Wrapf "failed to update stack status %s: %w" [name] e))
  | None =>
      match stacks ds !! name with
      | None => (ds, Some (Errorf "stack %s not found" [name]))
      | Some r =>
          (with_tables ds (<[name := {| SR_Name := SR_Name r; SR_Status := status; SR_Manifest := SR_Manifest r;
             SR_CreatedAt := SR_CreatedAt r; SR_UpdatedAt := now |}]> (stacks ds)) (stack_instances ds), None)
      end
  end.

(** The rows of the stack go with it. *)
Definition ds_DeleteStack (ds : Datastore) (name : string) : Datastore * option error :=
  let '(ds, fault) := statement ds in
  match fault with
  | Some e => (ds, Some (Wrapf "failed to delete stack %s: %w" [name] e))
  | None =>
      match stacks ds !! name with
      | None => (ds, Some (Errorf "stack %s not found" [name]))
      | Some _ =>
          (with_tables ds (delete name (stacks ds)) (filter (fun p => p.1.1 <> name) (stack_instances ds)), None)
      end
  end.

Definition ds_CreateStackInstance (ds : Datastore) (inst : StackInstanceRecord) : Datastore * option error :=
  let '(ds, fault) := statement ds in
  let fail e := Some (Wrapf "failed to create stack instance %s/%s: %w" [IR_StackName inst; IR_InstanceName inst] e) in
  match fault with
  | Some e => (ds, fail e)
  | None =>
      match stack_instances ds !! inst_key inst, stacks ds !! IR_StackName inst with
      | None, Some _ => (with_tables ds (stacks ds) (<[inst_key inst := inst]> (stack_instances ds)), None)
      | _, _ => (ds, fail constraint_failed)
      end
  end.

(** [WHERE stack_name = ? ORDER BY deploy_order]. *)
Definition ds_GetStackInstances (ds : Datastore) (stackName : string) : Datastore * result (list StackInstanceRecord) :=
  let '(ds, fault) := statement ds in
  match fault with
  | Some e => (ds, Err (Wrapf "failed to get stack instances for %s: %w" [stackName] e))
  | None =>
      (ds, Ok (sort_by IR_DeployOrder Z.le
                 (map_to_list (filter (fun p => p.1.1 = stackName) (stack_instances ds))).*2))
  end.

Definition set_row (f : StackInstanceRecord -> StackInstanceRecord) (ds : Datastore) (k : string * string)
    : option Datastore :=
  match stack_instances ds !! k with
  | Some r => Some (with_tables ds (stacks ds) (<[k := f r]> (stack_instances ds)))
  | None => None
  end.

Definition row_status (status : string) (r : StackInstanceRecord) : StackInstanceRecord :=
  {| IR_StackName := IR_StackName r; IR_InstanceName := IR_InstanceName r; IR_InstanceID := IR_InstanceID r;
     IR_Provider := IR_Provider r; IR_DependsOn := IR_DependsOn r; IR_Status := status;
     IR_Health := IR_Health r; IR_Handle := IR_Handle r; IR_DeployOrder := IR_DeployOrder r |}.

Definition row_health (health : string) (r : StackInstanceRecord) : StackInstanceRecord :=
  {| IR_StackName := IR_StackName r; IR_InstanceName := IR_InstanceName r; IR_InstanceID := IR_InstanceID r;
     IR_Provider := IR_Provider r; IR_DependsOn := IR_DependsOn r; IR_Status := IR_Status r;
     IR_Health := health; IR_Handle := IR_Handle r; IR_DeployOrder := IR_DeployOrder r |}.

Definition ds_UpdateStackInstanceStatus (ds : Datastore) (stackName instanceName status : string) : Datastore * option error :=
  let '(ds, fault) := statement ds in
  match fault with
  | Some e => (ds, Some (Wrapf "failed to update stack instance status %s/%s: %w" [stackName; instanceName] e))
  | None =>
      match set_row (row_status status) ds (stackName, instanceName) with
      | Some ds' => (ds', None)
      | None => (ds, Some (Errorf "stack instance %s/%s not found" [stackName; instanceName]))
      end
  end.

Definition ds_UpdateStackInstanceHealth (ds : Datastore) (stackName instanceName health : string) : Datastore * option error :=
  let '(ds, fault) := statement ds in
  match fault with
  | Some e => (ds, Some (Wrapf "failed to update stack instance health %s/%s: %w" [stackName; instanceName] e))
  | None =>
      match set_row (row_health health) ds (stackName, instanceName) with
      | Some ds' => (ds', None)
      | None => (ds, Some (Errorf "stack instance %s/%s not found" [stackName; instanceName]))
      end
  end.

Definition ds_DeleteStackInstance (ds : Datastore) (stackName instanceName : string) : Datastore * option error :=
  let '(ds, fault) := statement ds in
  match fault with
  | Some e => (ds, Some (Wrapf "failed to delete stack instance %s/%s: %w" [stackName; instanceName] e))
  | None => (with_tables ds (stacks ds) (delete (stackName, instanceName) (stack_instances ds)), None)
  end.

Definition ds_DeleteStackInstances (ds : Datastore) (stackName : string) : Datastore * option error :=
  let '(ds, fault) := statement ds in
  match fault with
  | Some e => (ds, Some (Wrapf "failed to delete stack instances for %s: %w" [stackName] e))
  | None => (with_tables ds (stacks ds) (filter (fun p => p.1.1 <> stackName) (stack_instances ds)), None)
  end.

#[export] Instance Datastore_StackStore : StackStore Datastore := {
  CreateStack := ds_CreateStack;
  GetStack := ds_GetStack;
  ListStacks := ds_ListStacks;
  UpdateStackStatus := ds_UpdateStackStatus;
  DeleteStack := ds_DeleteStack;
  CreateStackInstance := ds_CreateStackInstance;
  GetStackInstances := ds_GetStackInstances;
  UpdateStackInstanceStatus := ds_UpdateStackInstanceStatus;
  UpdateStackInstanceHealth := ds_UpdateStackInstanceHealth;
  DeleteStackInstance := ds_DeleteStackInstance;
  DeleteStackInstances := ds_DeleteStackInstances
}.

Lemma statement_tables ds : stacks (statement ds).1 = stacks ds /\ stack_instances (statement ds).1 = stack_instances ds.
Proof. unfold statement. by destruct (faults ds). Qed.

(** Runs the statement at the head of a call. *)
Ltac run_statement :=
  match goal with
  | |- context [statement ?ds] =>
      let H1 := fresh "Hst" in let H2 := fresh "Hsi" in
      destruct (statement_tables ds) as [H1 H2]; destruct (statement ds) as [? [?|]]; simpl in *;
      rewrite <- ?H1, <- ?H2
  end.

#[export] Instance Datastore_laws : StackStoreLaws Datastore.
Proof.
  refine {| stack_rows := stacks; instance_rows := stack_instances |}.
  - intros ds now r. simpl. unfold ds_CreateStack. run_statement; [done|].
    destruct (_ !! SR_Name r) eqn:E; by rewrite ?Hst, ?Hsi in *.
  - intros ds now name status. simpl. unfold ds_UpdateStackStatus. run_statement; [done|].
    destruct (_ !! name) as [r|] eqn:E; [exists r|]; by rewrite ?Hst, ?Hsi in *.
  - intros ds name. simpl. unfold ds_DeleteStack. run_statement; [done|].
    destruct (_ !! name) as [r|] eqn:E; rewrite ?Hst, ?Hsi in *; [|done]. split_and!; eauto.
  - intros ds r. simpl. unfold ds_CreateStackInstance. run_statement; [done|].
    destruct (stack_instances _ !! _) eqn:E; [done|]. destruct (stacks _ !! _) eqn:E'; [|done].
    simpl. rewrite ?Hst, ?Hsi in *. split_and!; eauto.
  - intros ds name. simpl. unfold ds_GetStackInstances. run_statement; [done|]. split; [done|]. split.
    + intros r. rewrite sort_by_perm, list_elem_of_fmap. split.
      * intros ([[st k] r'] & -> & [Hp Hl]%elem_of_map_to_list%map_lookup_filter_Some). simpl in *. subst. eauto.
      * intros (k & Hk). exists ((name, k), r). split; [done|]. apply elem_of_map_to_list, map_lookup_filter_Some. done.
    + apply (sort_by_sorted IR_DeployOrder Z.le).
  - intros ds name inst. simpl. unfold ds_DeleteStackInstance. run_statement; [done|]. done.
Defined.
