(* ===== verification/Stack.v ===== *)
(** * The stack manager (pkg/orchestration/stack.go)

    The manager's state is its stacks, the registries and checkers it was given,
    the store, and the machine its providers act on.  Each operation is the
    whole method, run without another call to the manager in between; what it
    waits for (its context, the checks of dependencies, the clock) comes as
    arguments.  Provider and store are used through [ProviderOps] and
    [StackStore]. *)

From stdpp Require Import base list gmap strings.
From Stdlib Require Import Ascii ZArith Lia.
From S2P Require Import Prelude GoStrings GoTime ProviderTypes Registry Discovery Health ManifestTypes DepOrder StackStore.

Local Open Scope Z_scope.

(** ** Data *)

Definition StackStatusPending : string := "pending".
Definition StackStatusDeploying : string := "deploying".
Definition StackStatusRunning : string := "running".
Definition StackStatusDegraded : string := "degraded".
Definition StackStatusStopped : string := "stopped".
Definition StackStatusFailed : string := "failed".
Definition StackStatusDestroying : string := "destroying".

Definition stackInstanceDelimiter : string := "_".

Definition instance_id (stackName instName : string) : string :=
  stackName +:+ (stackInstanceDelimiter +:+ instName).

Record StackInstance := {
  SI_Name : string; SI_InstanceID : string; SI_Provider : string; SI_DependsOn : list string;
  SI_Status : string; SI_Health : HealthStatus; SI_Handle : InstanceHandle
}.

Record Stack := {
  St_Name : string; St_Instances : list StackInstance; St_Status : string; St_CreatedAt : Z; St_UpdatedAt : Z
}.

Record createdInstance := { CI_Name : string; CI_Handle : InstanceHandle; CI_Provider : string }.

Definition with_instances (s : Stack) (l : list StackInstance) (now : Z) : Stack :=
  {| St_Name := St_Name s; St_Instances := l; St_Status := St_Status s;
     St_CreatedAt := St_CreatedAt s; St_UpdatedAt := now |}.

Definition with_status (s : Stack) (st : string) (now : Z) : Stack :=
  {| St_Name := St_Name s; St_Instances := St_Instances s; St_Status := st;
     St_CreatedAt := St_CreatedAt s; St_UpdatedAt := now |}.

Definition ErrStackNotFound : error := Sentinel "stack not found".

(** The string a health status is, and back. *)
Definition health_string (h : HealthStatus) : string :=
  match h with
  | HealthNone => "" | HealthOther s => s | HealthStatusHealthy => "healthy"
  | HealthStatusUnhealthy => "unhealthy" | HealthStatusStarting => "starting" | HealthStatusUnknown => "unknown"
  end.

Definition health_of_string (s : string) : HealthStatus :=
  if streq s "" then HealthNone else if streq s "healthy" then HealthStatusHealthy
  else if streq s "unhealthy" then HealthStatusUnhealthy else if streq s "starting" then HealthStatusStarting
  else if streq s "unknown" then HealthStatusUnknown else HealthOther s.

Section stack.
Context {P W D : Type} `{IsProvider P, ProviderOps P W, StackStore D}.

(** [encoding/json] on handles and manifests, and the conversion of
    pkg/manifest/convert.go. *)
Context (encode_handle : InstanceHandle -> result string) (decode_handle : string -> result InstanceHandle).
Context (encode_manifest : StackManifest -> result string).
Context (InstanceConfigToSpec : InstanceConfig -> string -> result InstanceSpec).
Context (range : range_fn).

Record StackManager := {
  sm_stacks : gmap string Stack;
  sm_registry : Registry (P := P);
  sm_store : option D;
  sm_services : ServiceRegistry;
  sm_health : option HealthChecker;
  sm_restarter : option (AutoRestarter P);
  sm_world : W;
  cloudInitRoot : string
}.

Definition set_stacks (sm : StackManager) (m : gmap string Stack) : StackManager :=
  {| sm_stacks := m; sm_registry := sm_registry sm; sm_store := sm_store sm; sm_services := sm_services sm;
     sm_health := sm_health sm; sm_restarter := sm_restarter sm; sm_world := sm_world sm;
     cloudInitRoot := cloudInitRoot sm |}.
Definition set_store (sm : StackManager) (d : D) : StackManager :=
  {| sm_stacks := sm_stacks sm; sm_registry := sm_registry sm; sm_store := Some d; sm_services := sm_services sm;
     sm_health := sm_health sm; sm_restarter := sm_restarter sm; sm_world := sm_world sm;
     cloudInitRoot := cloudInitRoot sm |}.
Definition set_services (sm : StackManager) (sr : ServiceRegistry) : StackManager :=
  {| sm_stacks := sm_stacks sm; sm_registry := sm_registry sm; sm_store := sm_store sm; sm_services := sr;
     sm_health := sm_health sm; sm_restarter := sm_restarter sm; sm_world := sm_world sm;
     cloudInitRoot := cloudInitRoot sm |}.
Definition set_checker (sm : StackManager) (hc : HealthChecker) : StackManager :=
  {| sm_stacks := sm_stacks sm; sm_registry := sm_registry sm; sm_store := sm_store sm; sm_services := sm_services sm;
     sm_health := Some hc; sm_restarter := sm_restarter sm; sm_world := sm_world sm;
     cloudInitRoot := cloudInitRoot sm |}.
Definition set_restarter (sm : StackManager) (ar : AutoRestarter P) : StackManager :=
  {| sm_stacks := sm_stacks sm; sm_registry := sm_registry sm; sm_store := sm_store sm; sm_services := sm_services sm;
     sm_health := sm_health sm; sm_restarter := Some ar; sm_world := sm_world sm;
     cloudInitRoot := cloudInitRoot sm |}.
Definition set_world (sm : StackManager) (w : W) : StackManager :=
  {| sm_stacks := sm_stacks sm; sm_registry := sm_registry sm; sm_store := sm_store sm; sm_services := sm_services sm;
     sm_health := sm_health sm; sm_restarter := sm_restarter sm; sm_world := w;
     cloudInitRoot := cloudInitRoot sm |}.

(** A call to the health checker when there is one.  The calls close stop
    channels, and closing one twice would panic, but never do. *)
Definition on_checker (sm : StackManager) (f : HealthChecker -> option HealthChecker) : StackManager :=
  match sm_health sm with
  | Some hc => set_checker sm (default hc (f hc))
  | None => sm
  end.

Definition start_checking (instanceID : string) (hc : HealthChecker) : option HealthChecker :=
  fst <$> StartChecking hc instanceID.

Definition NewStackManager (registry : Registry (P := P)) (store : option D) (w : W) : StackManager :=
  {| sm_stacks := ∅; sm_registry := registry; sm_store := store; sm_services := NewServiceRegistry;
     sm_health := None; sm_restarter := None; sm_world := w; cloudInitRoot := "" |}.

Definition SetCloudInitRoot (sm : StackManager) (root : string) : StackManager :=
  {| sm_stacks := sm_stacks sm; sm_registry := sm_registry sm; sm_store := sm_store sm; sm_services := sm_services sm;
     sm_health := sm_health sm; sm_restarter := sm_restarter sm; sm_world := sm_world sm; cloudInitRoot := root |}.

(** [callback] is the number under which the checker knows [onHealthChange]. *)
Definition SetHealthChecker (sm : StackManager) (hc : HealthChecker) (callback : nat) : StackManager :=
  set_checker sm (OnHealthChange hc callback).

Definition SetAutoRestarter (sm : StackManager) (ar : AutoRestarter P) : StackManager := set_restarter sm ar.

(** ** Status *)

(** A failure to persist is logged and ignored. *)
Definition updateStackStatus (sm : StackManager) (now : Z) (stackName status : string) : StackManager :=
  let sm := set_stacks sm (alter (fun s => with_status s status now) stackName (sm_stacks sm)) in
  match sm_store sm with
  | Some d => set_store sm (UpdateStackStatus d now stackName status).1
  | None => sm
  end.

Definition updateStackHealthStatus (s : Stack) (now : Z) : Stack :=
  if streq (St_Status s) StackStatusStopped || streq (St_Status s) StackStatusDestroying then s
  else
    let anyUnhealthy := existsb (fun i => bool_decide (SI_Health i = HealthStatusUnhealthy)) (St_Instances s) in
    let allHealthy := forallb (fun i => bool_decide (SI_Health i = HealthStatusHealthy)) (St_Instances s) in
    with_status s (if anyUnhealthy then StackStatusDegraded
                   else if allHealthy then StackStatusRunning else St_Status s) now.

Definition set_inst_health (h : HealthStatus) (i : StackInstance) : StackInstance :=
  {| SI_Name := SI_Name i; SI_InstanceID := SI_InstanceID i; SI_Provider := SI_Provider i;
     SI_DependsOn := SI_DependsOn i; SI_Status := SI_Status i; SI_Health := h; SI_Handle := SI_Handle i |}.

(** The first instance with the id gets the new health. *)
Fixpoint mark_health (instanceID : string) (h : HealthStatus) (l : list StackInstance)
    : option (string * list StackInstance) :=
  match l with
  | [] => None
  | i :: l' =>
      if streq (SI_InstanceID i) instanceID then Some (SI_Name i, set_inst_health h i :: l')
      else match mark_health instanceID h l' with
           | Some (n, l'') => Some (n, i :: l'')
           | None => None
           end
  end.

(** [onHealthChange], visiting the stacks in the order of [entries]. *)
Fixpoint onHealthChange_loop (sm : StackManager) (now : Z) (entries : list (string * Stack))
    (instanceID : string) (newStatus : HealthStatus) : StackManager :=
  match entries with
  | [] => sm
  | (k, s) :: rest =>
      match mark_health instanceID newStatus (St_Instances s) with
      | Some (name, l) =>
          let s' := updateStackHealthStatus (with_instances s l (St_UpdatedAt s)) now in
          set_services (set_stacks sm (<[k := s']> (sm_stacks sm)))
            (UpdateHealth (sm_services sm) (St_Name s) name newStatus)
      | None => onHealthChange_loop sm now rest instanceID newStatus
      end
  end.

Definition onHealthChange (sm : StackManager) (now : Z) (instanceID : string) (newStatus : HealthStatus) : StackManager :=
  onHealthChange_loop sm now (map_to_list (sm_stacks sm)) instanceID newStatus.

(** ** Converting manifests *)

Definition parseDurationDefault (s : string) (def : Z) : Z :=
  if streq s "" then def
  else match ParseDuration s with
       | Ok d => if d <=? 0 then def else d
       | Err _ => def
       end.

Definition healthSpecToConfig (spec : option HealthCheckSpec) : option HealthCheckConfig :=
  match spec with
  | None => None
  | Some h =>
      match HS_Command h with
      | [] => None
      | _ =>
          Some {| Command := HS_Command h;
                  Interval := parseDurationDefault (HS_Interval h) (30 * Second);
                  Timeout := parseDurationDefault (HS_Timeout h) (10 * Second);
                  Retries := if HS_Retries h <=? 0 then defaultHealthRetries else HS_Retries h;
                  StartPeriod := parseDurationDefault (HS_StartPeriod h) 0 |}
      end
  end.

Definition restartDefaultDelay : Z := 30 * Second.

Definition restartSpecToPolicy (spec : option RestartSpec) : option RestartPolicy :=
  match spec with
  | None => None
  | Some r =>
      if negb (RS_Enabled r) then None
      else Some {| Enabled := true; MaxRestarts := RS_MaxRestarts r;
                   RestartDelay := if streq (RS_Delay r) "" then restartDefaultDelay
                                   else match ParseDuration (RS_Delay r) with Ok d => d | Err _ => restartDefaultDelay end;
                   ResetCounterAfter := if streq (RS_ResetAfter r) "" then 0
                                        else match ParseDuration (RS_ResetAfter r) with Ok d => d | Err _ => 0 end |}
  end.

Definition set_spec_name (spec : InstanceSpec) (name : string) : InstanceSpec :=
  {| Spec_Name := name; Spec_Description := Spec_Description spec; Spec_CPUs := Spec_CPUs spec;
     Spec_MemoryMB := Spec_MemoryMB spec; Spec_MaxProc := Spec_MaxProc spec; Spec_ReadBPS := Spec_ReadBPS spec;
     Spec_WriteBPS := Spec_WriteBPS spec; Spec_ReadIOPS := Spec_ReadIOPS spec; Spec_WriteIOPS := Spec_WriteIOPS spec;
     Spec_Image := Spec_Image spec; Spec_OSType := Spec_OSType spec; Spec_OSVersion := Spec_OSVersion spec;
     Spec_Arch := Spec_Arch spec; Spec_CloudInit := Spec_CloudInit spec; Spec_Bootloader := Spec_Bootloader spec;
     Spec_Disks := Spec_Disks spec; Spec_Networks := Spec_Networks spec;
     Spec_ProviderConfig := Spec_ProviderConfig spec; Spec_Labels := Spec_Labels spec;
     Spec_Annotations := Spec_Annotations spec |}.

Definition instanceToSpec (sm : StackManager) (inst : InstanceConfig) (instanceID : string) : result InstanceSpec :=
  match InstanceConfigToSpec inst (cloudInitRoot sm) with
  | Err e => Err e
  | Ok spec => Ok (set_spec_name spec instanceID)
  end.

(** ** Discovery *)

Definition network_address (net : ManifestNetwork) : list string :=
  match MN_IP net with
  | Some ip => if streq (IP_Address ip) "" then [] else [IP_Address ip]
  | None => []
  end.

Definition network_ports (net : ManifestNetwork) : list ServicePort :=
  map (fun p => {| Port := PC_Container p; Protocol := PC_Protocol p; Port_Name := "" |}) (MN_Ports net).

Definition registerService (sm : StackManager) (stackName : string) (inst : InstanceConfig) : StackManager :=
  set_services sm (RegisterService (sm_services sm)
    {| Svc_Name := Inst_Name inst; Svc_StackName := stackName;
       Addresses := flat_map network_address (Inst_Networks inst);
       Ports := flat_map network_ports (Inst_Networks inst);
       Svc_Status := "running"; Health := HealthStatusStarting; Svc_Labels := Some ∅ |}).

(** ** Rollback *)

Definition forgetRolledBackInstance (sm : StackManager) (stackName instanceName : string) : StackManager :=
  let sm := set_stacks sm (alter (fun s =>
      with_instances s (List.filter (fun si => negb (streq (SI_Name si) instanceName)) (St_Instances s)) (St_UpdatedAt s))
      stackName (sm_stacks sm)) in
  let sm := on_checker sm (fun hc => UnregisterInstance hc (instance_id stackName instanceName)) in
  let sm := set_services sm (UnregisterService (sm_services sm) stackName instanceName) in
  match sm_store sm with
  | Some d => set_store sm (DeleteStackInstance d stackName instanceName).1
  | None => sm
  end.

Definition rollback_one (stackName : string) (sm : StackManager) (ch : createdInstance) : StackManager :=
  match Get (sm_registry sm) (CI_Provider ch) with
  | Err _ => sm
  | Ok prov =>
      let '(w, _) := StopInstance prov (sm_world sm) (CI_Handle ch) {| Stop_Force := true; Stop_Timeout := 0 |} in
      let '(w, _) := DeleteInstance prov w (CI_Handle ch) false in
      forgetRolledBackInstance (set_world sm w) stackName (CI_Name ch)
  end.

Definition rollbackCreatedInstances (sm : StackManager) (stackName : string) (createdHandles : list createdInstance)
    : StackManager := foldl (rollback_one stackName) sm createdHandles.

(** ** Waiting for dependencies *)

Definition quoted (s : string) : string := String "034"%char (s +:+ String "034"%char "").

(** What the wait sees: the context's error, if it ends during the brief wait
    that is all there is without a checker; else the checker at each turn of
    the polling loop, and the error (the timeout, or the context's) that ends the
    loop after the last of these turns if none finds all healthy. *)
Record wait := { brief : option error; polls : list HealthChecker; gives_up : error }.

Definition all_healthy (hc : HealthChecker) (stackName : string) (deps : list string) : bool :=
  forallb (fun dep => match GetHealth hc (instance_id stackName dep) with
                      | Some r => bool_decide (HR_Status r = HealthStatusHealthy)
                      | None => false
                      end) deps.

Fixpoint wait_loop (stackName : string) (deps : list string) (polls : list HealthChecker) (stop : error)
    : option error :=
  match polls with
  | [] => Some stop
  | hc :: rest => if all_healthy hc stackName deps then None else wait_loop stackName deps rest stop
  end.

Definition waitForDependencies (sm : StackManager) (stackName : string) (deps : list string) (w : wait) : option error :=
  match sm_health sm with
  | None => brief w
  | Some hc =>
      match for_each (fun dep => fail_if (negb (HasHealthCheck hc (instance_id stackName dep)))
               (Errorf ("instance %q is depended on with condition " +:+ quoted "healthy" +:+ " but declares no lifecycle.health_check") [dep])) deps with
      | Some e => Some e
      | None => wait_loop stackName deps (polls w) (gives_up w)
      end
  end.

(** ** Deployment *)

(** A failed deployment undoes what it created. *)
Definition deploy_failed (sm : StackManager) (now : Z) (stackName : string) (created : list createdInstance) (e : error)
    : StackManager * option error :=
  (updateStackStatus (rollbackCreatedInstances sm stackName created) now stackName StackStatusFailed, Some e).

(** The part of [DeployStack] before the loop: the stack, and its record. *)
Definition deploy_begin (sm : StackManager) (now : Z) (m : StackManifest) : StackManager * option error :=
  let stackName := SM_Name (Manifest_Stack m) in
  match sm_stacks sm !! stackName with
  | Some _ => (sm, Some (Errorf "stack %s already exists" [stackName]))
  | None =>
      let sm := set_stacks sm (<[stackName := {| St_Name := stackName; St_Instances := []; St_Status := StackStatusDeploying;
                                                 St_CreatedAt := now; St_UpdatedAt := now |}]> (sm_stacks sm)) in
      match sm_store sm with
      | None => (sm, None)
      | Some d =>
          let '(d, err) := CreateStack d now
            {| SR_Name := stackName; SR_Status := StackStatusDeploying;
               SR_Manifest := match encode_manifest m with Ok j => j | Err _ => "" end;
               SR_CreatedAt := 0; SR_UpdatedAt := 0 |} in
          let sm := set_store sm d in
          match err with
          | Some e => (set_stacks sm (delete stackName (sm_stacks sm)), Some (Wrapf "failed to persist stack: %w" [] e))
          | None => (sm, None)
          end
      end
  end.

(** Creating and starting one instance: the provider, the handle, and what is
    now to be undone on failure. *)
Definition deploy_create (sm : StackManager) (stackName : string) (inst : InstanceConfig) (created : list createdInstance)
    : StackManager * list createdInstance * result (P * InstanceHandle) :=
  match Get (sm_registry sm) (Inst_Provider inst) with
  | Err e => (sm, created, Err (Wrapf "provider %s not available: %w" [Inst_Provider inst] e))
  | Ok prov =>
      match instanceToSpec sm inst (instance_id stackName (Inst_Name inst)) with
      | Err e => (sm, created, Err (Wrapf "instance %s: %w" [Inst_Name inst] e))
      | Ok spec =>
          let '(w, res) := CreateInstance prov (sm_world sm) spec in
          let sm := set_world sm w in
          match res with
          | Err e => (sm, created, Err (Wrapf "failed to create instance %s: %w" [Inst_Name inst] e))
          | Ok handle =>
              let created := created ++ [{| CI_Name := Inst_Name inst; CI_Handle := handle; CI_Provider := Inst_Provider inst |}] in
              let '(w, err) := StartInstance prov (sm_world sm) handle in
              let sm := set_world sm w in
              match err with
              | Some e => (sm, created, Err (Wrapf "failed to start instance %s: %w" [Inst_Name inst] e))
              | None => (sm, created, Ok (prov, handle))
              end
          end
      end
  end.

(** Recording it in the stack and in the store. *)
Definition deploy_record (sm : StackManager) (now : Z) (stackName : string) (inst : InstanceConfig)
    (handle : InstanceHandle) : StackManager * option error :=
  let si := {| SI_Name := Inst_Name inst; SI_InstanceID := instance_id stackName (Inst_Name inst);
               SI_Provider := Inst_Provider inst; SI_DependsOn := services_of inst; SI_Status := "running";
               SI_Health := HealthStatusStarting; SI_Handle := handle |} in
  let sm := set_stacks sm (alter (fun s => with_instances s (St_Instances s ++ [si]) now) stackName (sm_stacks sm)) in
  let deployOrder := match sm_stacks sm !! stackName with Some s => Z.of_nat (length (St_Instances s)) | None => 0 end in
  match sm_store sm with
  | None => (sm, None)
  | Some d =>
      match encode_handle handle with
      | Err e => (sm, Some (Wrapf "failed to encode handle for instance %s in stack %s: %w" [Inst_Name inst; stackName] e))
      | Ok h =>
          let '(d, err) := CreateStackInstance d
            {| IR_StackName := stackName; IR_InstanceName := Inst_Name inst;
               IR_InstanceID := instance_id stackName (Inst_Name inst); IR_Provider := Inst_Provider inst;
               IR_DependsOn := services_of inst; IR_Status := "running";
               IR_Health := health_string HealthStatusStarting; IR_Handle := h; IR_DeployOrder := deployOrder |} in
          (set_store sm d,
           match err with
           | Some e => Some (Wrapf "failed to record instance %s in stack %s: %w" [Inst_Name inst; stackName] e)
           | None => None
           end)
      end
  end.

(** Discovery, health check and restart policy of a deployed instance. *)
Definition deploy_watch (sm : StackManager) (now : Z) (stackName : string) (inst : InstanceConfig) (prov : P)
    (handle : InstanceHandle) : StackManager :=
  let sm := registerService sm stackName inst in
  let sm := match healthSpecToConfig (HealthCheck_ (Inst_Lifecycle inst)) with
            | Some cfg =>
                on_checker (on_checker sm (fun hc => RegisterInstance hc now (instance_id stackName (Inst_Name inst)) cfg))
                  (start_checking (Handle_ID handle))
            | None => sm
            end in
  match sm_restarter sm, restartSpecToPolicy (Restart (Inst_Lifecycle inst)) with
  | Some ar, Some policy => set_restarter sm (SetPolicyFor ar prov handle policy)
  | _, _ => sm
  end.

(** What happens around the [i]-th instance: the wait for its dependencies and
    the error of the context, if it ends during the pause after it. *)
Record deploy_env := { waits : nat -> wait; pause_ends : nat -> option error }.

(** One turn of the deployment loop: [None] for the error to go on. *)
Definition deploy_one (env : deploy_env) (now : Z) (stackName : string) (i : nat) (inst : InstanceConfig)
    (sm : StackManager) (created : list createdInstance) : StackManager * list createdInstance * option error :=
  let waited := match Inst_DependsOn inst with
                | Some d => if streq (Condition d) DependsOnConditionHealthy
                            then waitForDependencies sm stackName (Services d) (waits env i) else None
                | None => None
                end in
  match waited with
  | Some e => (sm, created, Some (Wrapf "dependency wait failed for %s: %w" [Inst_Name inst] e))
  | None =>
      let '(sm, created, res) := deploy_create sm stackName inst created in
      match res with
      | Err e => (sm, created, Some e)
      | Ok (prov, handle) =>
          let '(sm, err) := deploy_record sm now stackName inst handle in
          match err with
          | Some e => (sm, created, Some e)
          | None => (deploy_watch sm now stackName inst prov handle, created, pause_ends env i)
          end
      end
  end.

Fixpoint deploy_loop (env : deploy_env) (now : Z) (stackName : string) (i : nat) (order : list InstanceConfig)
    (sm : StackManager) (created : list createdInstance) : StackManager * option error :=
  match order with
  | [] => (updateStackStatus sm now stackName StackStatusRunning, None)
  | inst :: rest =>
      let '(sm, created, err) := deploy_one env now stackName i inst sm created in
      match err with
      | Some e => deploy_failed sm now stackName created e
      | None => deploy_loop env now stackName (S i) rest sm created
      end
  end.

Definition DeployStack (env : deploy_env) (sm : StackManager) (now : Z) (m : StackManifest) : StackManager * option error :=
  let stackName := SM_Name (Manifest_Stack m) in
  let '(sm, err) := deploy_begin sm now m in
  match err with
  | Some e => (sm, Some e)
  | None =>
      match buildDependencyOrder range (Manifest_Instances m) with
      | Some (Ok order) => deploy_loop env now stackName 0 order sm []
      | Some (Err e) => (updateStackStatus sm now stackName StackStatusFailed,
                         Some (Wrapf "failed to resolve dependencies: %w" [] e))
      | None => (sm, None)
      end
  end.

(** ** Stopping, starting, destroying *)

Definition not_found (stackName : string) : error := Wrapf "stack %s: %w" [stackName] ErrStackNotFound.

Definition unavailable (inst : StackInstance) (e : error) : error :=
  Wrapf "instance %s: provider %s unavailable: %w" [SI_Name inst; SI_Provider inst] e.

(** One turn of the loop of [StopStack]. *)
Definition stop_one (acc : StackManager * list error) (inst : StackInstance) : StackManager * list error :=
  let '(sm, failures) := acc in
  let sm := on_checker sm (fun hc => StopChecking hc (SI_InstanceID inst)) in
  match Get (sm_registry sm) (SI_Provider inst) with
  | Err e => (sm, failures ++ [unavailable inst e])
  | Ok prov =>
      let '(w, err) := StopInstance prov (sm_world sm) (SI_Handle inst) {| Stop_Force := false; Stop_Timeout := 0 |} in
      let sm := set_world sm w in
      match err with
      | Some e => (on_checker sm (start_checking (Handle_ID (SI_Handle inst))),
                   failures ++ [Wrapf "instance %s: %w" [SI_Name inst] e])
      | None => (sm, failures)
      end
  end.

Definition StopStack (sm : StackManager) (now : Z) (stackName : string) : StackManager * option error :=
  match sm_stacks sm !! stackName with
  | None => (sm, Some (not_found stackName))
  | Some stack =>
      let '(sm, failures) := foldl stop_one (sm, []) (rev (St_Instances stack)) in
      match failures with
      | [] => (updateStackStatus sm now stackName StackStatusStopped, None)
      | _ => (updateStackStatus sm now stackName StackStatusDegraded,
              Some (Wrapf "stack %s is not fully stopped: %w" [stackName] (Joined failures)))
      end
  end.

(** The loop of [StartStack]; [pause i] is the context's error, if it ends
    during the pause after the [i]-th instance. *)
Fixpoint start_loop (now : Z) (stackName : string) (pause : nat -> option error) (i : nat)
    (instances : list StackInstance) (sm : StackManager) : StackManager * option error :=
  match instances with
  | [] => (updateStackStatus sm now stackName StackStatusRunning, None)
  | inst :: rest =>
      match Get (sm_registry sm) (SI_Provider inst) with
      | Err e => (updateStackStatus sm now stackName StackStatusDegraded,
                  Some (Wrapf "provider %s not available: %w" [SI_Provider inst] e))
      | Ok prov =>
          let '(w, err) := StartInstance prov (sm_world sm) (SI_Handle inst) in
          let sm := set_world sm w in
          match err with
          | Some e => (updateStackStatus sm now stackName StackStatusDegraded,
                       Some (Wrapf "failed to start %s: %w" [SI_InstanceID inst] e))
          | None =>
              let sm := on_checker sm (start_checking (Handle_ID (SI_Handle inst))) in
              match pause i with
              | Some e => (sm, Some e)
              | None => start_loop now stackName pause (S i) rest sm
              end
          end
      end
  end.

Definition StartStack (sm : StackManager) (now : Z) (stackName : string) (pause : nat -> option error)
    : StackManager * option error :=
  match sm_stacks sm !! stackName with
  | None => (sm, Some (not_found stackName))
  | Some stack => start_loop now stackName pause 0 (St_Instances stack) sm
  end.

(** One turn of the loop of [DestroyStack]. *)
Definition destroy_one (stackName : string) (acc : StackManager * list error) (inst : StackInstance)
    : StackManager * list error :=
  let '(sm, failures) := acc in
  match Get (sm_registry sm) (SI_Provider inst) with
  | Err e => (sm, failures ++ [unavailable inst e])
  | Ok prov =>
      let sm := on_checker sm (fun hc => StopChecking hc (SI_InstanceID inst)) in
      let '(w, err) := DeleteInstance prov (sm_world sm) (SI_Handle inst) false in
      let sm := set_world sm w in
      match err with
      | Some e => (on_checker sm (start_checking (Handle_ID (SI_Handle inst))),
                   failures ++ [Wrapf "instance %s: %w" [SI_Name inst] e])
      | None =>
          let sm := set_services sm (UnregisterService (sm_services sm) stackName (SI_Name inst)) in
          let sm := on_checker sm (fun hc => UnregisterInstance hc (SI_InstanceID inst)) in
          (match sm_restarter sm with
           | Some ar => set_restarter sm (RemovePolicy ar (SI_InstanceID inst))
           | None => sm
           end, failures)
      end
  end.

Definition DestroyStack (sm : StackManager) (now : Z) (stackName : string) : StackManager * option error :=
  match sm_stacks sm !! stackName with
  | None => (sm, Some (not_found stackName))
  | Some stack =>
      let sm := set_stacks sm (<[stackName := with_status stack StackStatusDestroying (St_UpdatedAt stack)]> (sm_stacks sm)) in
      let '(sm, failures) := foldl (destroy_one stackName) (sm, []) (rev (St_Instances stack)) in
      match failures with
      | _ :: _ => (updateStackStatus sm now stackName StackStatusDegraded,
                   Some (Wrapf "stack %s is not fully destroyed and its record is kept: %w" [stackName] (Joined failures)))
      | [] =>
          match sm_store sm with
          | None => (set_stacks sm (delete stackName (sm_stacks sm)), None)
          | Some d =>
              let '(d, err) := DeleteStack d stackName in
              let sm := set_store sm d in
              match err with
              | Some e => (sm, Some (Wrapf "stack %s instances are gone but its record remains: %w" [stackName] e))
              | None => (set_stacks sm (delete stackName (sm_stacks sm)), None)
              end
          end
      end
  end.

(** [GetStack] and [ListStacks] return copies. *)
Definition sm_GetStack (sm : StackManager) (stackName : string) : option Stack := sm_stacks sm !! stackName.
Definition sm_ListStacks (sm : StackManager) : list Stack := (map_to_list (sm_stacks sm)).*2.

(** ** Restoring *)

(** The instance a row describes; a handle that cannot be decoded skips it. *)
Definition restore_instance (r : StackInstanceRecord) : list StackInstance :=
  let mk handle := [{| SI_Name := IR_InstanceName r; SI_InstanceID := IR_InstanceID r; SI_Provider := IR_Provider r;
                       SI_DependsOn := IR_DependsOn r; SI_Status := IR_Status r;
                       SI_Health := health_of_string (IR_Health r); SI_Handle := handle |}] in
  if streq (IR_Handle r) "" then mk {| Handle_ID := ""; Handle_Provider := ""; Handle_Metadata := [] |}
  else match decode_handle (IR_Handle r) with Ok h => mk h | Err _ => [] end.

Definition restore_one (sm : StackManager) (rec : StackRecord) : StackManager :=
  match sm_store sm with
  | None => sm
  | Some d =>
      let '(d, res) := GetStackInstances d (SR_Name rec) in
      let sm := set_store sm d in
      match res with
      | Err _ => sm
      | Ok rows =>
          set_stacks sm (<[SR_Name rec := {| St_Name := SR_Name rec; St_Instances := flat_map restore_instance rows;
                                             St_Status := SR_Status rec; St_CreatedAt := SR_CreatedAt rec;
                                             St_UpdatedAt := SR_UpdatedAt rec |}]> (sm_stacks sm))
      end
  end.

Definition LoadStacks (sm : StackManager) : StackManager * option error :=
  match sm_store sm with
  | None => (sm, None)
  | Some d =>
      let '(d, res) := ListStacks d in
      let sm := set_store sm d in
      match res with
      | Err e => (sm, Some (Wrapf "failed to list stacks from store: %w" [] e))
      | Ok records => (foldl restore_one sm records, None)
      end
  end.
End stack.
