(* ===== verification/StackFacts.v ===== *)
(** * Correctness of stack deployment and destruction

    Proved against the interfaces: [ProviderLaws] for what a provider does to
    the machine and [StackStoreLaws] for the store. *)

From stdpp Require Import base list gmap strings.
From Stdlib Require Import Ascii ZArith Lia.
From S2P Require Import Prelude GoStrings ProviderTypes Registry Discovery Health HealthFacts ManifestTypes DepOrder DepOrderFacts StackStore Stack.

(** ** What a provider promises *)

(** The instances on the machine are pairs of a provider and an id; an instance
    is named by its spec, a failed creation or deletion leaves the machine as
    it was, and only creation and deletion change which instances there are. *)
Class ProviderLaws (P W : Type) `{IsProvider P, ProviderOps P W} := {
  live : W -> gset (string * string);
  live_key (p : P) (h : InstanceHandle) : string * string := (M_Name (Metadata p), Handle_ID h);
  create_law p w spec :
    match CreateInstance p w spec with
    | (w', Ok h) => Handle_ID h = Spec_Name spec /\ live_key p h ∉ live w /\ live w' = {[live_key p h]} ∪ live w
    | (w', Err _) => live w' = live w
    end;
  start_law p w h : live (StartInstance p w h).1 = live w;
  stop_law p w h o : live (StopInstance p w h o).1 = live w;
  delete_law p w h f :
    match DeleteInstance p w h f with
    | (w', None) => live w' = live w ∖ {[live_key p h]}
    | (w', Some _) => live w' = live w
    end
}.

(** ** The checker's channels *)

(** The channel invariant of a checker on its own. *)
Definition checker_ok (h : HealthChecker) : Prop :=
  chan_inv {| hc := h; loops := ∅; drainers := ∅; produced := []; delivered := [] |}.

Lemma checker_ok_same h h' : checker_ok h -> same_chans h h' -> checker_ok h'.
Proof. intros Hh Hs. by eapply chan_inv_same. Qed.

Lemma StopChecking_ok h id : checker_ok h ->
  exists h', StopChecking h id = Some h' /\ checker_ok h' /\ configs h' = configs h.
Proof.
  intros Hh. destruct (StopChecking_inv _ id Hh) as (h' & E & Hi & _). exists h'. split_and!; [done|done|].
  simpl in E. unfold StopChecking in E. destruct (stopChans h !! id); [|by simplify_eq].
  unfold close_chan in E. case_decide; by simplify_eq.
Qed.

Lemma RegisterInstance_ok h now id config : checker_ok h ->
  exists h', RegisterInstance h now id config = Some h' /\ checker_ok h' /\ configs h' = <[id := config]> (configs h).
Proof.
  intros Hh. destruct (StopChecking_ok h id Hh) as (h' & E & Hi & Hc). unfold RegisterInstance. rewrite E.
  eexists. split_and!; [reflexivity|by eapply checker_ok_same|simpl; by rewrite Hc].
Qed.

Lemma UnregisterInstance_ok h id : checker_ok h ->
  exists h', UnregisterInstance h id = Some h' /\ checker_ok h' /\ configs h' = delete id (configs h).
Proof.
  intros Hh. destruct (StopChecking_ok h id Hh) as (h' & E & Hi & Hc). unfold UnregisterInstance. rewrite E.
  eexists. split_and!; [reflexivity|by eapply checker_ok_same|simpl; by rewrite Hc].
Qed.

Lemma start_checking_ok h id : checker_ok h ->
  exists h', start_checking id h = Some h' /\ checker_ok h' /\ configs h' = configs h.
Proof.
  intros Hh. unfold start_checking.
  destruct (StartChecking_inv _ id 0 Hh) as (s' & E & Hi); [done|]. simpl in E.
  destruct (StartChecking h id) as [[h' o]|] eqn:Es; [|done]. exists h'. split_and!; [done| |].
  - destruct o as [[config c]|]; injection E as <-; destruct Hi as [C1 C2 C3 C4 C5 C6]; by constructor.
  - unfold StartChecking, close_chan in Es. destruct (configs h !! id); [|by simplify_eq].
    destruct (stopChans h !! id); [case_decide|]; by simplify_eq.
Qed.

(** ** Instance ids *)

(** Instances of one stack have distinct ids. *)
Lemma instance_id_inj stackName n n' : instance_id stackName n = instance_id stackName n' -> n = n'.
Proof. unfold instance_id. intros H%(inj _). by apply (inj _) in H. Qed.

Lemma serviceKey_name_inj stackName n n' : serviceKey stackName n = serviceKey stackName n' -> n = n'.
Proof.
  unfold serviceKey. destruct (streq stackName ""); [done|]. intros H%(inj _). by apply (inj _) in H.
Qed.

(** Ids of instances of different stacks never clash, as long as stack
    names have no underscore: the delimiter splits an id back into its parts. *)
Lemma instance_ids_unique (st st' n n' : string) :
  "_"%char ∉ bytes st -> "_"%char ∉ bytes st' -> instance_id st n = instance_id st' n' -> st = st' /\ n = n'.
Proof.
  intros H1 H2 E.
  assert (forall s m, "_"%char ∉ bytes s -> Cut (instance_id s m) "_" = Some (s, m)) as Hc
    by (intros s m Hs; by apply Cut_Some).
  pose proof (Hc st n H1) as C1. rewrite E, (Hc st' n' H2) in C1. by simplify_eq.
Qed.

(** ** Deployment *)

Section deployment.
Context {P W D : Type} `{IsProvider P, ProviderOps P W, !ProviderLaws P W, StackStore D}.
Context (encode_handle : InstanceHandle -> result string).
Context (encode_manifest : StackManifest -> result string).
Context (InstanceConfigToSpec : InstanceConfig -> string -> result InstanceSpec).

Notation SM := (StackManager (P := P) (W := W) (D := D)).

(** What the checker of [sm] has registered, compared with that of [sm0]. *)
Definition checks_agree (sm0 sm : SM) (touched : list string) : Prop :=
  match sm_health sm0, sm_health sm with
  | None, None => True
  | Some h0, Some h => checker_ok h /\ forall id, id ∉ touched -> configs h !! id = configs h0 !! id
  | _, _ => False
  end.

(** The key under which a created instance lives on the machine. *)
Definition created_key (sm : SM) (ch : createdInstance) : option (string * string) :=
  match sm_registry sm !! CI_Provider ch with
  | Some p => Some (live_key (W := W) p (CI_Handle ch))
  | None => None
  end.

(** The state in the middle of deploying [stackName] from [sm0]: [created] are
    the instances made so far, and nothing else has changed. *)
Record deploying (stackName : string) (sm0 : SM) (created : list createdInstance) (sm : SM) : Prop := {
  dp_registry : sm_registry sm = sm_registry sm0;
  dp_ids : Forall (fun ch => exists p, sm_registry sm0 !! CI_Provider ch = Some p /\
             Handle_ID (CI_Handle ch) = instance_id stackName (CI_Name ch)) created;
  dp_names : NoDup (map CI_Name created);
  dp_live : forall k, k ∈ live (sm_world sm) <-> k ∈ live (sm_world sm0) \/ Some k ∈ map (created_key sm0) created;
  dp_fresh : forall k, Some k ∈ map (created_key sm0) created -> k ∉ live (sm_world sm0);
  dp_services : forall k, k ∉ map (fun ch => serviceKey stackName (CI_Name ch)) created ->
    sm_services sm !! k = sm_services sm0 !! k;
  dp_checks : checks_agree sm0 sm (map (fun ch => instance_id stackName (CI_Name ch)) created);
  dp_stacks : exists st, sm_stacks sm = <[stackName := st]> (sm_stacks sm0) /\
    Forall (fun si => SI_Name si ∈ map CI_Name created) (St_Instances st)
}.

Lemma on_checker_agree sm0 sm touched f id :
  checks_agree sm0 sm touched ->
  (forall h, checker_ok h -> exists h', f h = Some h' /\ checker_ok h' /\
     forall i, i <> id -> configs h' !! i = configs h !! i) ->
  id ∈ touched -> checks_agree sm0 (on_checker sm f) touched.
Proof.
  unfold checks_agree, on_checker. intros Hc Hf Hid.
  destruct (sm_health sm) as [h|] eqn:E; simpl; [|by rewrite E].
  destruct (sm_health sm0) as [h0|]; [|done]. destruct Hc as [Hok Hc].
  destruct (Hf h Hok) as (h' & -> & Hok' & Hi). simpl. split; [done|]. intros i Hn. rewrite Hi, Hc; [done..|].
  intros ->. done.
Qed.

Lemma on_checker_frame (sm : SM) f :
  sm_registry (on_checker sm f) = sm_registry sm /\ sm_world (on_checker sm f) = sm_world sm /\
  sm_services (on_checker sm f) = sm_services sm /\ sm_stacks (on_checker sm f) = sm_stacks sm /\
  sm_store (on_checker sm f) = sm_store sm /\ sm_restarter (on_checker sm f) = sm_restarter sm /\
  cloudInitRoot (on_checker sm f) = cloudInitRoot sm.
Proof. unfold on_checker. by destruct (sm_health sm). Qed.

Lemma updateStackStatus_frame (sm : SM) now name st :
  sm_registry (updateStackStatus sm now name st) = sm_registry sm /\
  sm_world (updateStackStatus sm now name st) = sm_world sm /\
  sm_services (updateStackStatus sm now name st) = sm_services sm /\
  sm_health (updateStackStatus sm now name st) = sm_health sm /\
  sm_restarter (updateStackStatus sm now name st) = sm_restarter sm /\
  sm_stacks (updateStackStatus sm now name st) = alter (fun s => with_status s st now) name (sm_stacks sm).
Proof. unfold updateStackStatus. simpl. by destruct (sm_store sm). Qed.

(** Nothing of instance [n] was there before. *)
Definition clean (stackName : string) (sm0 : SM) (n : string) : Prop :=
  sm_services sm0 !! serviceKey stackName n = None /\
  forall h, sm_health sm0 = Some h -> configs h !! instance_id stackName n = None.

(** Deleting an instance that is there succeeds. *)
Definition reliable : Prop :=
  forall (p : P) (w : W) h, live_key p h ∈ live w -> (DeleteInstance p w h false).2 = None.

Lemma forget_frame (sm : SM) stackName n :
  sm_registry (forgetRolledBackInstance sm stackName n) = sm_registry sm /\
  sm_world (forgetRolledBackInstance sm stackName n) = sm_world sm /\
  sm_services (forgetRolledBackInstance sm stackName n) = delete (serviceKey stackName n) (sm_services sm) /\
  sm_health (forgetRolledBackInstance sm stackName n) =
    sm_health (on_checker sm (fun h => UnregisterInstance h (instance_id stackName n))) /\
  sm_restarter (forgetRolledBackInstance sm stackName n) = sm_restarter sm /\
  sm_stacks (forgetRolledBackInstance sm stackName n) =
    alter (fun s => with_instances s (List.filter (fun si => negb (streq (SI_Name si) n)) (St_Instances s)) (St_UpdatedAt s))
      stackName (sm_stacks sm).
Proof.
  destruct sm as [m r o sr hh ar w root]. unfold forgetRolledBackInstance, on_checker. by destruct hh, o.
Qed.

Lemma forget_checks stackName sm0 sm n rest :
  checks_agree sm0 sm (instance_id stackName n :: rest) -> clean stackName sm0 n ->
  checks_agree sm0 (forgetRolledBackInstance sm stackName n) rest.
Proof.
  intros Hc [_ Hclean]. unfold checks_agree in *.
  destruct (forget_frame sm stackName n) as (_ & _ & _ & -> & _). unfold on_checker.
  destruct (sm_health sm) as [h|] eqn:Eh; simpl; [|by rewrite Eh].
  destruct (sm_health sm0) as [h0|]; [|done]. destruct Hc as [Hok Hc].
  destruct (UnregisterInstance_ok h (instance_id stackName n) Hok) as (h' & -> & Hok' & Hcfg). simpl.
  split; [done|]. intros id Hid. rewrite Hcfg.
  destruct (decide (id = instance_id stackName n)) as [->|Hne].
  - by rewrite lookup_delete_eq, Hclean.
  - rewrite lookup_delete_ne by done. apply Hc. by apply not_elem_of_cons.
Qed.

Lemma forget_stacks (sm0 sm : SM) stackName ch rest :
  (exists st, sm_stacks sm = <[stackName := st]> (sm_stacks sm0) /\
     Forall (fun si => SI_Name si ∈ map CI_Name (ch :: rest)) (St_Instances st)) ->
  exists st, sm_stacks (forgetRolledBackInstance sm stackName (CI_Name ch)) = <[stackName := st]> (sm_stacks sm0) /\
     Forall (fun si => SI_Name si ∈ map CI_Name rest) (St_Instances st).
Proof.
  intros (st & E & Hf). destruct (forget_frame sm stackName (CI_Name ch)) as (_ & _ & _ & _ & _ & ->).
  rewrite E. eexists. split; [by rewrite alter_insert_eq|]. simpl. rewrite Forall_forall in *.
  intros si Hin. rewrite list_elem_of_In, filter_In, <- list_elem_of_In in Hin. destruct Hin as [Hin Hne].
  apply negb_true_iff, streq_false in Hne. specialize (Hf si Hin). simpl in Hf. apply elem_of_cons in Hf as [?|?]; done.
Qed.

(** Undoing the first of the created instances. *)
Lemma rollback_one_ok stackName sm0 ch rest sm :
  reliable -> clean stackName sm0 (CI_Name ch) ->
  deploying stackName sm0 (ch :: rest) sm -> deploying stackName sm0 rest (rollback_one stackName sm ch).
Proof.
  intros Hrel Hclean [I1 I2 I3 I4 I5 I6 I7 I8].
  apply Forall_cons in I2 as [(p & Hp & Hid) I2]. apply NoDup_cons in I3 as [Hn I3].
  assert (created_key sm0 ch = Some (live_key p (CI_Handle ch))) as Hkey by (unfold created_key; by rewrite Hp).
  simpl in I4, I5. rewrite Hkey in I4, I5.
  assert (Some (live_key p (CI_Handle ch)) ∉ map (created_key sm0) rest) as Hnk.
  { intros (ch' & E & Hin)%list_elem_of_fmap. rewrite Forall_forall in I2.
    destruct (I2 ch' Hin) as (p' & Hp' & Hid'). unfold created_key in E. rewrite Hp' in E.
    unfold live_key in E. simplify_eq. apply Hn. apply list_elem_of_fmap. exists ch'. split; [|done].
    apply (instance_id_inj stackName). congruence. }
  unfold rollback_one, Get. rewrite I1, Hp.
  pose proof (stop_law p (sm_world sm) (CI_Handle ch) {| Stop_Force := true; Stop_Timeout := 0 |}) as Hs.
  destruct (StopInstance p (sm_world sm) (CI_Handle ch) _) as [w1 e1]. simpl in Hs.
  pose proof (delete_law p w1 (CI_Handle ch) false) as Hd. pose proof (Hrel p w1 (CI_Handle ch)) as Hr.
  destruct (DeleteInstance p w1 (CI_Handle ch) false) as [w2 e2]. simpl in Hr.
  rewrite Hr in Hd by (rewrite Hs; apply I4; right; left). 
  destruct (forget_frame (set_world sm w2) stackName (CI_Name ch)) as (F1 & F2 & F3 & F4 & F5 & F6).
  constructor.
  - by rewrite F1.
  - done.
  - done.
  - intros k. rewrite F2. simpl. rewrite Hd, elem_of_difference, elem_of_singleton, Hs, I4, elem_of_cons. split.
    + intros [[?|[?|?]] Hne]; [by left|congruence|by right].
    + intros [Hk|Hk]; (split; [tauto|]); intros ->; [|done]. eapply I5; [left|done].
  - intros k Hk. apply I5. by right.
  - intros k Hk. rewrite F3. destruct (decide (k = serviceKey stackName (CI_Name ch))) as [->|Hne].
    + rewrite lookup_delete_eq. symmetry. apply Hclean.
    + rewrite lookup_delete_ne by done. apply I6. by apply not_elem_of_cons.
  - by eapply forget_checks.
  - by apply forget_stacks.
Qed.

Lemma rollback_ok stackName sm0 created : forall sm,
  reliable -> Forall (fun ch => clean stackName sm0 (CI_Name ch)) created ->
  deploying stackName sm0 created sm -> deploying stackName sm0 [] (rollbackCreatedInstances sm stackName created).
Proof.
  induction created as [|ch rest IH]; simpl; intros sm Hrel Hc Hd; [done|].
  apply Forall_cons in Hc as [Hc1 Hc]. apply IH; [done|done|]. by apply rollback_one_ok.
Qed.

(** Nothing but the stack's own entry differs from where the deployment began. *)
Lemma deploying_nil stackName sm0 sm : deploying stackName sm0 [] sm ->
  live (sm_world sm) = live (sm_world sm0) /\ sm_services sm = sm_services sm0 /\
  checks_agree sm0 sm [] /\
  exists st, sm_stacks sm = <[stackName := st]> (sm_stacks sm0) /\ St_Instances st = [].
Proof.
  intros [I1 I2 I3 I4 I5 I6 I7 I8]. split_and!.
  - apply set_eq. intros k. rewrite I4. simpl. rewrite elem_of_nil. tauto.
  - apply map_eq. intros k. apply I6. apply not_elem_of_nil.
  - done.
  - destruct I8 as (st & E & Hf). exists st. split; [done|].
    destruct (St_Instances st) as [|si l]; [done|]. apply Forall_cons in Hf as [Hf _]. by apply elem_of_nil in Hf.
Qed.

Notation deploy_one := (deploy_one encode_handle InstanceConfigToSpec).
Notation deploy_loop := (deploy_loop encode_handle InstanceConfigToSpec).
Notation deploy_create := (deploy_create InstanceConfigToSpec).
Notation deploy_record := (deploy_record encode_handle).

(** The stack lists exactly the created instances, in order. *)
Definition recorded (stackName : string) (sm : SM) (created : list createdInstance) : Prop :=
  exists st, sm_stacks sm !! stackName = Some st /\
    map (fun si => (SI_Name si, SI_Handle si)) (St_Instances st) = map (fun ch => (CI_Name ch, CI_Handle ch)) created.

Lemma deploying_world stackName sm0 created sm w :
  deploying stackName sm0 created sm -> live w = live (sm_world sm) ->
  deploying stackName sm0 created (set_world sm w).
Proof.
  intros [I1 I2 I3 I4 I5 I6 I7 I8] Hw. constructor; simpl; try done. intros k. by rewrite Hw.
Qed.

(** A created instance is added to what is to be undone. *)
Lemma deploying_extend stackName sm0 created sm w p h name provName :
  deploying stackName sm0 created sm -> name ∉ map CI_Name created ->
  sm_registry sm0 !! provName = Some p -> Handle_ID h = instance_id stackName name ->
  live_key p h ∉ live (sm_world sm) -> live w = {[live_key p h]} ∪ live (sm_world sm) ->
  deploying stackName sm0 (created ++ [{| CI_Name := name; CI_Handle := h; CI_Provider := provName |}]) (set_world sm w).
Proof.
  intros [I1 I2 I3 I4 I5 I6 I7 I8] Hn Hp Hid Hfresh Hw.
  assert (created_key sm0 {| CI_Name := name; CI_Handle := h; CI_Provider := provName |} = Some (live_key p h)) as Hk
    by (unfold created_key; simpl; by rewrite Hp).
  constructor; simpl; try done.
  - rewrite Forall_app, Forall_singleton. eauto.
  - rewrite map_app. apply NoDup_app. split_and!; [done| |apply NoDup_singleton].
    intros x Hx. simpl. rewrite list_elem_of_singleton. by intros ->.
  - intros k. rewrite Hw, elem_of_union, elem_of_singleton, I4, map_app, elem_of_app. simpl.
    rewrite Hk, list_elem_of_singleton. naive_solver.
  - intros k. rewrite map_app, elem_of_app. simpl. rewrite Hk, list_elem_of_singleton.
    intros [Hin|[= ->]]; [by apply I5|]. intros Hin. apply Hfresh, I4. by left.
  - intros k Hk'. apply I6. rewrite map_app in Hk'. set_solver.
  - unfold checks_agree in *. simpl. destruct (sm_health sm0), (sm_health sm); try done.
    destruct I7 as [Hok Hc]. split; [done|]. intros id Hid'. apply Hc. rewrite map_app in Hid'. set_solver.
  - destruct I8 as (st & E & Hf). exists st. split; [done|]. eapply Forall_impl; [exact Hf|].
    intros si Hsi. simpl in *. rewrite map_app. set_solver.
Qed.

(** What creating an instance does to a deployment in progress. *)
Lemma deploy_create_ok stackName sm0 created sm inst :
  deploying stackName sm0 created sm -> Inst_Name inst ∉ map CI_Name created ->
  let '(sm', created', res) := deploy_create sm stackName inst created in
  deploying stackName sm0 created' sm' /\ sm_stacks sm' = sm_stacks sm /\
  (created' = created \/ exists h, created' = created ++ [{| CI_Name := Inst_Name inst; CI_Handle := h; CI_Provider := Inst_Provider inst |}]) /\
  match res with
  | Ok (prov, h) => created' = created ++ [{| CI_Name := Inst_Name inst; CI_Handle := h; CI_Provider := Inst_Provider inst |}] /\
      Handle_ID h = instance_id stackName (Inst_Name inst)
  | Err _ => True
  end.
Proof.
  intros Hd Hn. unfold Stack.deploy_create, Get. rewrite (dp_registry _ _ _ _ Hd).
  destruct (sm_registry sm0 !! Inst_Provider inst) as [p|] eqn:Hp; [|split_and!; [done|done|by left|done]].
  unfold instanceToSpec. destruct (InstanceConfigToSpec _ _) as [spec|e]; [|split_and!; [done|done|by left|done]].
  pose proof (create_law p (sm_world sm) (set_spec_name spec (instance_id stackName (Inst_Name inst)))) as Hc.
  destruct (CreateInstance p (sm_world sm) _) as [w1 [h|e]].
  - destruct Hc as (Hid & Hfresh & Hlive). simpl in Hid.
    pose proof (deploying_extend _ _ _ _ w1 p h (Inst_Name inst) (Inst_Provider inst) Hd Hn Hp Hid Hfresh Hlive) as Hd1.
    simpl. pose proof (start_law p w1 h) as Hs. destruct (StartInstance p w1 h) as [w2 [e|]]; simpl in Hs;
      (split; [by apply (deploying_world _ _ _ (set_world sm w1))|]; split; [done|]; split; [right; eauto|done]).
  - simpl. split_and!; [by apply deploying_world|done|by left|done].
Qed.

(** A change of the stack's entry that lists only created instances. *)
Lemma deploying_stacks stackName sm0 created sm f :
  deploying stackName sm0 created sm ->
  (forall st, Forall (fun si => SI_Name si ∈ map CI_Name created) (St_Instances st) ->
     Forall (fun si => SI_Name si ∈ map CI_Name created) (St_Instances (f st))) ->
  deploying stackName sm0 created (set_stacks sm (alter f stackName (sm_stacks sm))).
Proof.
  intros [I1 I2 I3 I4 I5 I6 I7 (st & E & Hf)] Hs. constructor; simpl; try done.
  exists (f st). rewrite E, alter_insert_eq. eauto.
Qed.

Lemma deploying_store stackName sm0 created sm d :
  deploying stackName sm0 created sm -> deploying stackName sm0 created (set_store sm d).
Proof. by intros [I1 I2 I3 I4 I5 I6 I7 I8]; constructor. Qed.

Lemma deploy_record_ok stackName sm0 created sm now inst h :
  deploying stackName sm0 created sm -> Inst_Name inst ∈ map CI_Name created ->
  deploying stackName sm0 created (deploy_record sm now stackName inst h).1 /\
  forall st, sm_stacks sm !! stackName = Some st ->
    exists st', sm_stacks (deploy_record sm now stackName inst h).1 !! stackName = Some st' /\
      map (fun si => (SI_Name si, SI_Handle si)) (St_Instances st') =
      map (fun si => (SI_Name si, SI_Handle si)) (St_Instances st) ++ [(Inst_Name inst, h)].
Proof.
  intros Hd Hn. unfold Stack.deploy_record.
  set (si := {| SI_Name := Inst_Name inst; SI_InstanceID := _ |}).
  set (sm1 := set_stacks sm _).
  assert (deploying stackName sm0 created sm1) as Hd1.
  { apply deploying_stacks; [done|]. intros st Hf. simpl. rewrite Forall_app, Forall_singleton. done. }
  assert (forall st, sm_stacks sm !! stackName = Some st ->
    exists st', sm_stacks sm1 !! stackName = Some st' /\
      map (fun si => (SI_Name si, SI_Handle si)) (St_Instances st') =
      map (fun si => (SI_Name si, SI_Handle si)) (St_Instances st) ++ [(Inst_Name inst, h)]) as Hst.
  { intros st Hst. exists (with_instances st (St_Instances st ++ [si]) now). simpl.
    rewrite lookup_alter_eq, Hst. simpl. by rewrite map_app. }
  destruct (sm_store sm1) as [d|]; [|done]. destruct (encode_handle h) as [j|e]; [|done].
  destruct (CreateStackInstance d _) as [d' err]. simpl. split; [by apply deploying_store|done].
Qed.

Lemma deploying_checker stackName sm0 created sm f id :
  deploying stackName sm0 created sm ->
  (forall h, checker_ok h -> exists h', f h = Some h' /\ checker_ok h' /\
     forall i, i <> id -> configs h' !! i = configs h !! i) ->
  id ∈ map (fun ch => instance_id stackName (CI_Name ch)) created ->
  deploying stackName sm0 created (on_checker sm f).
Proof.
  intros [I1 I2 I3 I4 I5 I6 I7 I8] Hf Hid.
  destruct (on_checker_frame sm f) as (F1 & F2 & F3 & F4 & _).
  constructor; rewrite ?F1, ?F2, ?F3, ?F4; try done. by eapply on_checker_agree.
Qed.

Lemma deploying_service stackName sm0 created sm inst :
  deploying stackName sm0 created sm -> Inst_Name inst ∈ map CI_Name created ->
  deploying stackName sm0 created (registerService sm stackName inst).
Proof.
  intros [I1 I2 I3 I4 I5 I6 I7 I8] Hn. constructor; simpl; try done.
  intros k Hk. unfold RegisterService. simpl. rewrite lookup_insert_ne; [by apply I6|]. intros <-.
  apply Hk. apply list_elem_of_fmap in Hn as (ch & E & Hin). apply list_elem_of_fmap. exists ch. by rewrite E.
Qed.

Lemma deploy_watch_ok stackName sm0 created sm now inst prov h :
  deploying stackName sm0 created sm -> Inst_Name inst ∈ map CI_Name created ->
  deploying stackName sm0 created (deploy_watch sm now stackName inst prov h) /\
  sm_stacks (deploy_watch sm now stackName inst prov h) = sm_stacks sm.
Proof.
  intros Hd Hn. unfold Stack.deploy_watch.
  assert (instance_id stackName (Inst_Name inst) ∈ map (fun ch => instance_id stackName (CI_Name ch)) created) as Hid.
  { apply list_elem_of_fmap in Hn as (ch & E & Hin). apply list_elem_of_fmap. exists ch. by rewrite E. }
  pose proof (deploying_service _ _ _ _ _ Hd Hn) as Hd1. set (sm1 := registerService sm stackName inst) in *.
  set (sm2 := match healthSpecToConfig _ with Some _ => _ | None => _ end).
  assert (deploying stackName sm0 created sm2 /\ sm_stacks sm2 = sm_stacks sm) as [Hd2 Hs2].
  { unfold sm2. destruct (healthSpecToConfig _) as [cfg|]; [|done]. split.
    - apply (deploying_checker _ _ _ _ _ (instance_id stackName (Inst_Name inst))); [|intros hh Hok|done].
      + apply (deploying_checker _ _ _ _ _ (instance_id stackName (Inst_Name inst))); [done| |done].
        intros hh Hok. destruct (RegisterInstance_ok hh now (instance_id stackName (Inst_Name inst)) cfg Hok)
          as (h' & E & Hok' & Hc). exists h'. split_and!; [done|done|]. intros i Hi. by rewrite Hc, lookup_insert_ne.
      + destruct (start_checking_ok hh (Handle_ID h) Hok) as (h' & E & Hok' & Hc). exists h'. by rewrite Hc.
    - by rewrite !(proj1 (proj2 (proj2 (proj2 (on_checker_frame _ _))))). }
  destruct (sm_restarter sm2); [|done]. destruct (restartSpecToPolicy _); [|done].
  split; [|done]. by destruct Hd2; constructor.
Qed.

(** One turn of the loop: either way the state is one of a deployment in
    progress, and when it goes on the instance has been recorded. *)
Lemma deploy_one_ok env now stackName i inst sm0 sm created :
  deploying stackName sm0 created sm -> recorded stackName sm created -> Inst_Name inst ∉ map CI_Name created ->
  let '(sm', created', err) := deploy_one env now stackName i inst sm created in
  deploying stackName sm0 created' sm' /\
  (created' = created \/ exists h, created' = created ++ [{| CI_Name := Inst_Name inst; CI_Handle := h; CI_Provider := Inst_Provider inst |}]) /\
  (err = None -> recorded stackName sm' created' /\ map CI_Name created' = map CI_Name created ++ [Inst_Name inst]).
Proof.
  intros Hd Hr Hn. unfold Stack.deploy_one. set (waited := match Inst_DependsOn inst with Some _ => _ | None => _ end).
  destruct waited; [by split_and!; [|left|]|].
  pose proof (deploy_create_ok stackName sm0 created sm inst Hd Hn) as Hc.
  destruct (deploy_create sm stackName inst created) as [[sm1 created1] [[prov h]|e]].
  2:{ destruct Hc as (Hd1 & _ & Hc & _). by split_and!. }
  destruct Hc as (Hd1 & Hs1 & _ & -> & Hid).
  set (created1 := created ++ _) in *.
  assert (Inst_Name inst ∈ map CI_Name created1) as Hin by (unfold created1; rewrite map_app; set_solver).
  pose proof (deploy_record_ok stackName sm0 created1 sm1 now inst h Hd1 Hin) as [Hd2 Hrec].
  destruct (deploy_record sm1 now stackName inst h) as [sm2 [e|]]; simpl in Hd2, Hrec; [by split_and!; [|right; eauto|]|].
  destruct (deploy_watch_ok stackName sm0 created1 sm2 now inst prov h Hd2 Hin) as [Hd3 Hs3].
  split_and!; [done|right; eauto|]. intros _. split; [|unfold created1; by rewrite map_app].
  destruct Hr as (st & Hst & Hm). rewrite <- Hs1 in Hst. destruct (Hrec st Hst) as (st' & Hst' & Hm').
  exists st'. rewrite Hs3. split; [done|]. rewrite Hm', Hm. unfold created1. by rewrite map_app.
Qed.

(** The deployment loop, from a state in progress. *)
Lemma deploy_loop_ok env now stackName sm0 order : forall i sm created,
  reliable -> Forall (fun inst => clean stackName sm0 (Inst_Name inst)) order ->
  Forall (fun ch => clean stackName sm0 (CI_Name ch)) created ->
  deploying stackName sm0 created sm -> recorded stackName sm created ->
  NoDup (map CI_Name created ++ map Inst_Name order) ->
  let '(sm', err) := deploy_loop env now stackName i order sm created in
  match err with
  | Some _ => exists sm1, sm' = updateStackStatus sm1 now stackName StackStatusFailed /\ deploying stackName sm0 [] sm1
  | None => exists sm1 created', sm' = updateStackStatus sm1 now stackName StackStatusRunning /\
      deploying stackName sm0 created' sm1 /\ recorded stackName sm1 created' /\
      map CI_Name created' = map CI_Name created ++ map Inst_Name order
  end.
Proof.
  induction order as [|inst rest IH]; intros i sm created Hrel Ho Hc Hd Hr Hnd; simpl.
  - exists sm, created. by rewrite app_nil_r.
  - apply Forall_cons in Ho as [Ho1 Ho].
    assert (Inst_Name inst ∉ map CI_Name created) as Hn.
    { apply NoDup_app in Hnd as (_ & Hdis & _). intros Hin. apply (Hdis _ Hin). left. }
    pose proof (deploy_one_ok env now stackName i inst sm0 sm created Hd Hr Hn) as Hone.
    destruct (deploy_one env now stackName i inst sm created) as [[sm1 created1] err].
    destruct Hone as (Hd1 & Hc1 & Hgo).
    assert (Forall (fun ch => clean stackName sm0 (CI_Name ch)) created1) as Hclean1.
    { destruct Hc1 as [->|[h ->]]; [done|]. by rewrite Forall_app, Forall_singleton. }
    destruct err as [e|].
    + unfold deploy_failed. simpl. eexists. split; [reflexivity|]. by apply rollback_ok.
    + destruct (Hgo eq_refl) as [Hr1 Hn1].
      assert (NoDup (map CI_Name created1 ++ map Inst_Name rest)) as Hnd1 by (rewrite Hn1, <- app_assoc; done).
      specialize (IH (S i) sm1 created1 Hrel Ho Hclean1 Hd1 Hr1 Hnd1).
      destruct (deploy_loop env now stackName (S i) rest sm1 created1) as [sm' [e|]]; [done|].
      destruct IH as (sm2 & created' & E & Hd2 & Hr2 & Hn2). exists sm2, created'. split_and!; [done|done|done|].
      rewrite Hn2, Hn1, <- app_assoc. done.
Qed.

Lemma deploy_begin_ok sm now m :
  let name := SM_Name (Manifest_Stack m) in
  sm_stacks sm !! name = None -> (forall h, sm_health sm = Some h -> checker_ok h) ->
  let '(sm', err) := deploy_begin encode_manifest sm now m in
  match err with
  | None => deploying name sm [] sm' /\ recorded name sm' []
  | Some _ => sm_world sm' = sm_world sm /\ sm_services sm' = sm_services sm /\ sm_health sm' = sm_health sm /\
              sm_stacks sm' = sm_stacks sm
  end.
Proof.
  intros name Hnew Hok. unfold deploy_begin. fold name. rewrite Hnew.
  set (st := {| St_Name := name; St_Instances := [] |}).
  assert (forall sm', sm_registry sm' = sm_registry sm -> sm_world sm' = sm_world sm -> sm_services sm' = sm_services sm ->
    sm_health sm' = sm_health sm -> sm_stacks sm' = <[name := st]> (sm_stacks sm) ->
    deploying name sm [] sm' /\ recorded name sm' []) as Hstart.
  { intros sm' E1 E2 E3 E4 E5. split.
    - constructor; rewrite ?E1, ?E2, ?E3; try done; [constructor| | | |].
      + intros k. simpl. rewrite elem_of_nil. tauto.
      + intros k []%elem_of_nil.
      + unfold checks_agree. rewrite E4. destruct (sm_health sm) eqn:Eh; [|done]. eauto.
      + exists st. rewrite E5. done.
    - exists st. rewrite E5, lookup_insert_eq. done. }
  simpl. destruct (sm_store sm) as [d|] eqn:Es; [|by apply Hstart].
  destruct (CreateStack d now _) as [d' [e|]]; simpl; [|by apply Hstart].
  split_and!; try done. by rewrite delete_insert_id.
Qed.

Lemma final_stack (sm : SM) now name status st :
  sm_stacks sm !! name = Some st ->
  sm_stacks (updateStackStatus sm now name status) !! name = Some (with_status st status now).
Proof.
  intros Hs. destruct (updateStackStatus_frame sm now name status) as (_ & _ & _ & _ & _ & ->).
  by rewrite lookup_alter_eq, Hs.
Qed.

(** What a failed deployment that was rolled back leaves. *)
Lemma failed_state name (sm sm2 : SM) now :
  deploying name sm [] sm2 ->
  let sm' := updateStackStatus sm2 now name StackStatusFailed in
  live (sm_world sm') = live (sm_world sm) /\ sm_services sm' = sm_services sm /\ checks_agree sm sm' [] /\
  forall st, sm_stacks sm' !! name = Some st -> St_Instances st = [] /\ St_Status st = StackStatusFailed.
Proof.
  intros Hd2 sm'. destruct (deploying_nil _ _ _ Hd2) as (L1 & L2 & L3 & st & L4 & L5). unfold sm'.
  destruct (updateStackStatus_frame sm2 now name StackStatusFailed) as (_ & -> & -> & F4 & _ & ->).
  split_and!; [done|done|unfold checks_agree in *; by rewrite F4|].
  intros st' Hst'. rewrite L4, alter_insert_eq, lookup_insert_eq in Hst'. by simplify_eq.
Qed.

End deployment.

(** ** Destruction *)

Section destruction.
Context {P W D : Type} `{IsProvider P, ProviderOps P W, !ProviderLaws P W} `{StackStore D, !StackStoreLaws D}.

Notation SM := (StackManager (P := P) (W := W) (D := D)).

(** An instance that has been destroyed: not on the machine, not in discovery,
    without a restart policy. *)
Definition destroyed (name : string) (sm : SM) (si : StackInstance) : Prop :=
  (forall p, sm_registry sm !! SI_Provider si = Some p -> live_key p (SI_Handle si) ∉ live (sm_world sm)) /\
  sm_services sm !! serviceKey name (SI_Name si) = None /\
  (forall ar, sm_restarter sm = Some ar -> restartPolicy ar !! SI_InstanceID si = None).

(** What a turn of the destruction leaves alone, and that it only removes. *)
Record only_removes (sm sm' : SM) : Prop := {
  or_registry : sm_registry sm' = sm_registry sm;
  or_stacks : sm_stacks sm' = sm_stacks sm;
  or_store : sm_store sm' = sm_store sm;
  or_live : live (sm_world sm') ⊆ live (sm_world sm);
  or_services : forall k, sm_services sm !! k = None -> sm_services sm' !! k = None;
  or_policies : forall ar', sm_restarter sm' = Some ar' -> exists ar, sm_restarter sm = Some ar /\
    forall id, restartPolicy ar !! id = None -> restartPolicy ar' !! id = None
}.

Lemma only_removes_trans sm1 sm2 sm3 : only_removes sm1 sm2 -> only_removes sm2 sm3 -> only_removes sm1 sm3.
Proof.
  intros [A1 A2 A3 A4 A5 A6] [B1 B2 B3 B4 B5 B6]. constructor; try congruence; [set_solver|auto|].
  intros ar' (ar & Har & Hi)%B6. destruct (A6 _ Har) as (ar0 & Har0 & Hi0). eauto 10.
Qed.

Lemma destroyed_mono name sm sm' si : only_removes sm sm' -> destroyed name sm si -> destroyed name sm' si.
Proof.
  intros [A1 A2 A3 A4 A5 A6] (D1 & D2 & D3). split_and!.
  - rewrite A1. intros p Hp Hin. apply (D1 p Hp). by apply A4.
  - auto.
  - intros ar' (ar & Har & Hi)%A6. eauto.
Qed.

Lemma only_removes_refl sm : only_removes sm sm.
Proof. constructor; try done. intros ar Har. eauto. Qed.

Lemma only_removes_checker sm f : only_removes sm (on_checker sm f).
Proof.
  destruct (on_checker_frame sm f) as (F1 & F2 & F3 & F4 & F5 & F6 & _).
  constructor; rewrite ?F1, ?F2, ?F3, ?F4, ?F5, ?F6; try done. intros ar Har. eauto.
Qed.

Lemma only_removes_world sm w : live w ⊆ live (sm_world sm) -> only_removes sm (set_world sm w).
Proof. intros Hw. constructor; simpl; try done. intros ar Har. eauto. Qed.

(** One turn: it either destroys its instance or reports a failure. *)
Lemma destroy_one_ok name sm failures si :
  let '(sm', failures') := destroy_one name (sm, failures) si in
  only_removes sm sm' /\ ((failures' = failures /\ destroyed name sm' si) \/ exists e, failures' = failures ++ [e]).
Proof.
  unfold destroy_one, Get. destruct (sm_registry sm !! SI_Provider si) as [p|] eqn:Hp;
    [|split; [apply only_removes_refl|right; eauto]].
  set (sm1 := on_checker sm _). pose proof (only_removes_checker sm (fun hc => StopChecking hc (SI_InstanceID si))) as R1.
  fold sm1 in R1. pose proof (delete_law p (sm_world sm1) (SI_Handle si) false) as Hd.
  destruct (DeleteInstance p (sm_world sm1) (SI_Handle si) false) as [w [e|]].
  - split; [|right; eauto]. eapply only_removes_trans; [exact R1|].
    eapply only_removes_trans; [|apply only_removes_checker]. apply only_removes_world. by rewrite Hd.
  - set (sm2 := set_services (set_world sm1 w) _). set (sm3 := on_checker sm2 _).
    assert (only_removes sm1 sm3) as R3.
    { eapply (only_removes_trans _ (set_world sm1 w)); [apply only_removes_world; rewrite Hd; set_solver|].
      eapply (only_removes_trans _ sm2); [|apply only_removes_checker].
      constructor; simpl; try done; [|intros ar Har; eauto]. intros k Hk. apply lookup_delete_None. by right. }
    destruct (on_checker_frame sm2 (fun hc => UnregisterInstance hc (SI_InstanceID si))) as (F1 & F2 & F3 & F4 & F5 & F6 & _).
    fold sm3 in F1, F2, F3, F4, F5, F6.
    assert (forall sm4, sm_world sm4 = sm_world sm3 -> sm_services sm4 = sm_services sm3 ->
      sm_registry sm4 = sm_registry sm3 ->
      (forall ar, sm_restarter sm4 = Some ar -> restartPolicy ar !! SI_InstanceID si = None) -> destroyed name sm4 si) as Hgone.
    { intros sm4 E1 E2 E3 E4. split_and!; [|rewrite E2, F3; apply lookup_delete_eq|done].
      intros p' Hp'. rewrite E3, F1 in Hp'. change (sm_registry sm2) with (sm_registry sm1) in Hp'.
      rewrite (or_registry _ _ R1), Hp in Hp'. simplify_eq. rewrite E1, F2. simpl. rewrite Hd. set_solver. }
    destruct (sm_restarter sm3) as [ar|] eqn:Ear.
    + split.
      * eapply only_removes_trans; [exact R1|]. eapply only_removes_trans; [exact R3|].
        constructor; simpl; try done. intros ar' [= <-]. exists ar. split; [done|]. intros id Hi. simpl.
        apply lookup_delete_None. by right.
      * left. split; [done|]. apply Hgone; try done. intros ar' [= <-]. apply lookup_delete_eq.
    + split; [by eapply only_removes_trans|]. left. split; [done|]. apply Hgone; try done. by rewrite Ear.
Qed.

Lemma destroy_loop_ok name l : forall sm failures,
  let '(sm', failures') := foldl (destroy_one name) (sm, failures) l in
  only_removes sm sm' /\ (exists more, failures' = failures ++ more /\
    (more = [] -> Forall (destroyed name sm') l)).
Proof.
  induction l as [|si l IH]; intros sm failures; cbn [foldl].
  - split; [apply only_removes_refl|]. exists []. rewrite app_nil_r. split; [done|constructor].
  - pose proof (destroy_one_ok name sm failures si) as H1'.
    destruct (destroy_one name (sm, failures) si) as [sm1 failures1]. destruct H1' as [R1 Hone].
    specialize (IH sm1 failures1). destruct (foldl _ _ l) as [sm' failures']. destruct IH as [R2 (more & -> & Hm)].
    split; [by eapply only_removes_trans|]. destruct Hone as [[-> Hd]|[e ->]].
    + exists more. split; [done|]. intros ->. constructor; [by eapply destroyed_mono|by apply Hm].
    + exists (e :: more). by rewrite <- app_assoc.
Qed.

(** C5: [DestroyStack] removes everything or keeps the record. When it succeeds,
    no instance of the stack is left on the machine, in discovery or under a
    restart policy, and the stack is gone from the manager and, with all its
    rows, from the store. When it fails the stack is still listed, with all its
    instances, so that what survived can be reached. *)
Theorem destroy_all_or_kept (sm : SM) (now : Z) (name : string) (st : Stack) :
  sm_stacks sm !! name = Some st ->
  let '(sm', err) := DestroyStack sm now name in
  match err with
  | None => Forall (destroyed name sm') (St_Instances st) /\ sm_stacks sm' = delete name (sm_stacks sm) /\
      forall d, sm_store sm' = Some d -> stack_rows d !! name = None /\ forall n, instance_rows d !! (name, n) = None
  | Some _ => exists st', sm_stacks sm' !! name = Some st' /\ St_Instances st' = St_Instances st
  end.
Proof.
  intros Hst. unfold DestroyStack. rewrite Hst.
  set (sm1 := set_stacks sm _).
  pose proof (destroy_loop_ok name (rev (St_Instances st)) sm1 []) as Hl.
  destruct (foldl _ (sm1, []) _) as [sm2 failures]. destruct Hl as [R (more & -> & Hm)]. simpl.
  assert (sm_stacks sm2 = <[name := with_status st StackStatusDestroying (St_UpdatedAt st)]> (sm_stacks sm)) as Hs2
    by (by rewrite (or_stacks _ _ R)).
  destruct more as [|e more].
  - assert (Forall (destroyed name sm2) (St_Instances st)) as Hall.
    { specialize (Hm eq_refl). rewrite Forall_forall in *. intros si Hsi. apply Hm.
      by rewrite list_elem_of_In, <- in_rev, <- list_elem_of_In. }
    destruct (sm_store sm2) as [d|] eqn:Ed.
    + pose proof (DeleteStack_law d name) as Hd. destruct (DeleteStack d name) as [d' [e|]].
      * exists (with_status st StackStatusDestroying (St_UpdatedAt st)). simpl. rewrite Hs2, lookup_insert_eq. done.
      * destruct Hd as (_ & Hr & Hi). split_and!; [done|simpl; by rewrite Hs2, delete_insert_eq|].
        simpl. intros d'' [= <-]. rewrite Hr, Hi. split; [apply lookup_delete_eq|]. intros n.
        apply map_lookup_filter_None. right. intros r _ Hne. by simpl in Hne.
    + split_and!; [done|simpl; by rewrite Hs2, delete_insert_eq|]. simpl. by rewrite Ed.
  - eexists. split; [apply final_stack; rewrite Hs2; apply lookup_insert_eq|done].
Qed.

(** Deleting an instance that is not on the machine is an error, as it is for
    every provider. *)
Definition missing_fails : Prop :=
  forall (p : P) (w : W) h, live_key p h ∉ live w -> (DeleteInstance p w h false).2 <> None.

Lemma destroy_one_missing name (sm : SM) failures si p :
  missing_fails -> sm_registry sm !! SI_Provider si = Some p -> live_key p (SI_Handle si) ∉ live (sm_world sm) ->
  exists e, (destroy_one name (sm, failures) si).2 = failures ++ [e].
Proof.
  intros Hm Hp Hl. unfold destroy_one, Get. rewrite Hp.
  destruct (on_checker_frame sm (fun hc => StopChecking hc (SI_InstanceID si))) as (_ & Hw & _). rewrite Hw.
  specialize (Hm p (sm_world sm) (SI_Handle si) Hl).
  destruct (DeleteInstance p (sm_world sm) (SI_Handle si) false) as [w [e|]]; simpl in *; eauto. done.
Qed.

Lemma destroy_loop_missing name l si p : forall (sm : SM) failures,
  missing_fails -> si ∈ l -> sm_registry sm !! SI_Provider si = Some p ->
  live_key p (SI_Handle si) ∉ live (sm_world sm) ->
  (foldl (destroy_one name) (sm, failures) l).2 <> [].
Proof.
  induction l as [|si' l IH]; intros sm failures Hm Hin Hp Hl; cbn [foldl]; [by apply elem_of_nil in Hin|].
  pose proof (destroy_one_ok name sm failures si') as H1'. pose proof (destroy_one_missing name sm failures si p Hm Hp Hl) as H2'.
  destruct (destroy_one name (sm, failures) si') as [sm1 failures1] eqn:E1. destruct H1' as [R1 _].
  apply elem_of_cons in Hin as [->|Hin].
  - rewrite E1 in H2'. destruct H2' as [e H2']. simpl in H2'. subst failures1.
    pose proof (destroy_loop_ok name l sm1 (failures ++ [e])) as Hl'.
    destruct (foldl _ _ l) as [sm' failures']. destruct Hl' as [_ (more & -> & _)]. simpl. by destruct failures.
  - apply IH; [done|done|by rewrite (or_registry _ _ R1)|]. intros Hin'. by apply Hl, (or_live _ _ R1).
Qed.

(** The instances of [name] include one whose provider is registered and which
    is no longer on the machine. *)
Definition lists_missing (name : string) (sm : SM) : Prop :=
  exists st si p, sm_stacks sm !! name = Some st /\ si ∈ St_Instances st /\
    sm_registry sm !! SI_Provider si = Some p /\ live_key p (SI_Handle si) ∉ live (sm_world sm).

Lemma destroy_missing name (sm : SM) now : missing_fails -> lists_missing name sm ->
  (DestroyStack sm now name).2 <> None /\ lists_missing name (DestroyStack sm now name).1.
Proof.
  intros Hm (st & si & p & Hst & Hin & Hp & Hl). unfold DestroyStack. rewrite Hst. set (sm1 := set_stacks sm _).
  assert (si ∈ rev (St_Instances st)) as Hin' by (by rewrite list_elem_of_In, <- in_rev, <- list_elem_of_In).
  pose proof (destroy_loop_missing name (rev (St_Instances st)) si p sm1 [] Hm Hin' Hp Hl) as Hf.
  pose proof (destroy_loop_ok name (rev (St_Instances st)) sm1 []) as Ho.
  destruct (foldl _ (sm1, []) _) as [sm2 failures]. destruct Ho as [R _]. simpl in Hf.
  destruct failures as [|e failures]; [done|]. simpl. split; [done|].
  destruct (updateStackStatus_frame sm2 now name StackStatusDegraded) as (F1 & F2 & _).
  exists (with_status (with_status st StackStatusDestroying (St_UpdatedAt st)) StackStatusDegraded now), si, p.
  rewrite F1, F2, (or_registry _ _ R). split_and!; [|done|done|intros H'; by apply Hl, (or_live _ _ R)].
  apply final_stack. rewrite (or_stacks _ _ R). apply lookup_insert_eq.
Qed.

(** A stack that lists an instance which is already gone can never be
    destroyed: however often [DestroyStack] is tried, it fails and the record
    stays. [DestroyStack] itself makes such stacks, since it keeps the instances
    it did delete in the list when another one fails. *)
Theorem missing_instance_blocks_destroy (sm : SM) (now : Z) (name : string) (retries : list Z) :
  missing_fails -> lists_missing name sm ->
  (DestroyStack (foldl (fun sm now => (DestroyStack sm now name).1) sm retries) now name).2 <> None.
Proof.
  intros Hm. revert sm. induction retries as [|t retries IH]; intros sm Hs; simpl.
  - by apply destroy_missing.
  - apply IH. by apply destroy_missing.
Qed.
End destruction.
