(* ===== verification/ManifestFacts.v ===== *)
(** * What an accepted manifest guarantees

    The validator's checks, put together with the deployment order and the
    instance ids of the stack manager. *)

From stdpp Require Import base list gmap strings.
From Stdlib Require Import Ascii ZArith Lia Floats.SpecFloat.
From S2P Require Import Prelude GoStrings Regexp ProviderTypes Validation ValidationFacts ManifestTypes ManifestParse DepOrder DepOrderFacts DepCycle ManifestValidator Stack StackFacts.

Local Open Scope Z_scope.

(** ** Reports *)

Lemma report_nil b f m : report b f m = [] <-> b = false.
Proof. by destruct b. Qed.

Lemma app_nil_iff {A} (l k : list A) : l ++ k = [] <-> l = [] /\ k = [].
Proof. split; [apply app_eq_nil|by intros [-> ->]]. Qed.

Lemma each_from_nil {A} (f : nat -> A -> list ValidationError) l : forall i,
  each_from i f l = [] <-> forall j x, l !! j = Some x -> f (i + j)%nat x = [].
Proof.
  induction l as [|x l IH]; intros i; simpl; [done|]. rewrite app_nil_iff, IH. split.
  - intros [H1 H2] [|j] y Hy; simpl in Hy; [injection Hy as <-; by rewrite Nat.add_0_r|].
    rewrite Nat.add_succ_r. by apply (H2 j).
  - intros H. split; [specialize (H 0%nat x eq_refl); by rewrite Nat.add_0_r in H|].
    intros j y Hy. specialize (H (S j) y Hy). by rewrite Nat.add_succ_r in H.
Qed.

(** ** Names *)

Definition name_char (c : ascii) : bool := lower_digit c || one_of "-" c.

(** Every ASCII byte of an accepted name is alphanumeric or a dash. *)
Lemma isValidName_bytes name c :
  isValidName name = true -> c ∈ bytes name -> code c < 128 -> alnum c || one_of "-" c = true.
Proof.
  unfold isValidName. destruct (streq name "" || _); [done|]. intros Hm Hc Hlow.
  assert (covers name_char valid_name_regex) as Hcov.
  { unfold valid_name_regex. cbn [covers].
    split; [split; [|split]|]; refine (ascii_implies _ name_char _); vm_compute; reflexivity. }
  pose proof (MatchString_covers _ _ _ Hcov Hm) as Hall. rewrite Forall_forall in Hall.
  assert (forallb name_char (encode_rune (lower_rune (code c))) = true) as Hf.
  { apply forallb_true_iff, Forall_forall. intros d Hd. apply Hall. unfold ToLower. rewrite bytes_of_bytes.
    rewrite list_elem_of_In, in_flat_map. exists (lower_rune (code c)). rewrite <- !list_elem_of_In. split; [|done].
    apply list_elem_of_fmap. exists (code c). split; [done|]. by apply low_byte_rune. }
  revert Hf. assert (code c <? 128 = true) as Hl by lia. intros Hf.
  apply (ascii_implies (fun c => (code c <? 128) && forallb name_char (encode_rune (lower_rune (code c))))
                       (fun c => alnum c || one_of "-" c)); [vm_compute; reflexivity|]. by rewrite Hl, Hf.
Qed.

Lemma isValidName_no_delimiter name : isValidName name = true -> "_"%char ∉ bytes name.
Proof. intros Hv Hin. by pose proof (isValidName_bytes name "_" Hv Hin ltac:(vm_compute; reflexivity)). Qed.

(** ** Stacks *)

Section stacks.
Context (int64_overflow : spec_float -> Z).

Notation names := (map Inst_Name).

(** What the first pass leaves: the names, distinct and not empty, and known providers. *)
Lemma validateInstances_nil v l : forall seen i,
  (validateInstances int64_overflow v seen i l).1 = [] ->
  NoDup (names l) /\ (forall n, n ∈ names l -> n ∉ seen /\ n <> "") /\
  Forall (fun inst => isValidProvider v (Inst_Provider inst) = true) l /\
  (forall n, n ∈ (validateInstances int64_overflow v seen i l).2 <-> n ∈ seen \/ n ∈ names l).
Proof.
  induction l as [|inst l IH]; intros seen i; cbn [validateInstances].
  - intros _. split_and!; [constructor|by intros n ?%elem_of_nil|constructor|]. set_solver.
  - set (seen' := if streq (Inst_Name inst) "" then _ else _). specialize (IH seen' (S i)).
    destruct (validateInstances int64_overflow v seen' (S i) l) as [rest known]. simpl in *.
    rewrite app_nil_iff. intros [Hi Hr]. destruct (IH Hr) as (I1 & I2 & I3 & I4).
    unfold validateInstance in Hi. rewrite !app_nil_iff in Hi. destruct Hi as (Hn & Hp & _).
    destruct (streq (Inst_Name inst) "") eqn:En; [done|]. apply streq_false in En.
    rewrite report_nil, bool_decide_eq_false in Hn.
    destruct (streq (Inst_Provider inst) "") eqn:Ep; [done|]. rewrite report_nil, negb_false_iff in Hp.
    unfold seen' in *. split_and!.
    + constructor; [|done]. intros Hin%I2. set_solver.
    + intros n [->|Hin]%elem_of_cons; [done|]. destruct (I2 n Hin). set_solver.
    + by constructor.
    + intros n. rewrite I4, elem_of_cons. set_solver.
Qed.

(** What the whole validation of a stack gives. *)
Lemma validateStack_nil v m : validateStack int64_overflow v m = [] ->
  isValidName (SM_Name (Manifest_Stack m)) = true /\ Manifest_Instances m <> [] /\
  NoDup (names (Manifest_Instances m)) /\
  Forall (fun inst => Inst_Name inst <> "" /\ isValidProvider v (Inst_Provider inst) = true) (Manifest_Instances m) /\
  (forall inst d, inst ∈ Manifest_Instances m -> d ∈ services_of inst -> d ∈ names (Manifest_Instances m)) /\
  detectDependencyCycle (Manifest_Instances m) = Some [].
Proof.
  unfold validateStack. rewrite !app_nil_iff. intros (_ & Hn & Hne & H).
  destruct (streq (SM_Name (Manifest_Stack m)) "") eqn:En; [done|]. rewrite report_nil, negb_false_iff in Hn.
  rewrite report_nil, bool_decide_eq_false in Hne.
  pose proof (validateInstances_nil v (Manifest_Instances m) ∅ 0) as Hv.
  destruct (validateInstances _ _ _ _ _) as [errs known]. simpl in Hv. rewrite !app_nil_iff in H. destruct H as (He & Hd & Hc).
  destruct (Hv He) as (I1 & I2 & I3 & I4). split_and!; [done|by intros E; rewrite E in Hne|done| | |].
  - rewrite Forall_forall in *. intros inst Hin. split; [|by apply I3]. apply I2, list_elem_of_fmap. eauto.
  - intros inst d Hin Hdd. apply list_elem_of_lookup in Hin as [j Hj].
    unfold each in Hd. rewrite each_from_nil in Hd. specialize (Hd j inst Hj). unfold validateDependencies in Hd.
    assert (d ∈ known) as Hk; [|apply I4 in Hk; set_solver].
    apply concat_nil_Forall in Hd. rewrite Forall_map, Forall_forall in Hd. specialize (Hd d Hdd). simpl in Hd.
    rewrite app_nil_iff, report_nil, negb_false_iff, bool_decide_eq_true in Hd. by destruct Hd.
  - destruct (detect_spec (Manifest_Instances m)) as (c & Ec & _). rewrite Ec in *. by destruct c.
Qed.

(** C26: a stack manifest the validator accepts can be deployed in order:
    whatever order Go visits its maps in, [buildDependencyOrder] succeeds on it,
    with every instance, of distinct non-empty names, after its dependencies,
    and each naming a provider the validator supports. *)
Theorem accepted_stack_has_order (range : range_fn) (v : Validator) (m : StackManifest) :
  range_ok range -> validateStack int64_overflow v m = [] ->
  exists order, buildDependencyOrder range (Manifest_Instances m) = Some (Ok order) /\
    valid_order (Manifest_Instances m) order /\ order <> [] /\
    Forall (fun inst => Inst_Name inst <> "" /\ isValidProvider v (Inst_Provider inst) = true) order.
Proof.
  intros Hr Hv. destruct (validateStack_nil v m Hv) as (_ & Hne & Hnd & Hp & Hknown & Hc).
  destruct (acyclic_has_order _ Hnd Hknown Hc) as [l Hl].
  destruct (order_cases range (Manifest_Instances m) Hr) as [(e & _ & Hu)|[(n & _ & Hn)|[(_ & _ & _ & Hno)|(order & Hb & Ho)]]].
  - apply unknown_dependency_Some in Hu as (n & ds & d & Hin & Hd & Hno & _).
    rewrite (Hr _ _), elem_of_map_to_list in Hin. destruct (valid_order_deps _ _ Hl) as [_ Hdeps].
    destruct (Hdeps n ds d Hin Hd). congruence.
  - done.
  - by destruct (Hno l).
  - exists order. pose proof Ho as (Hperm & _). split_and!; [done|done| |by rewrite Hperm].
    intros ->. by apply Permutation_nil_l in Hperm.
Qed.

(** Instances of accepted stacks never share an id: the id of an instance
    determines its stack and its name, since no accepted stack name holds the
    delimiter between the two. *)
Theorem accepted_stacks_have_distinct_ids (v : Validator) (m m' : StackManifest) (inst inst' : InstanceConfig) :
  validateStack int64_overflow v m = [] -> validateStack int64_overflow v m' = [] ->
  instance_id (SM_Name (Manifest_Stack m)) (Inst_Name inst) = instance_id (SM_Name (Manifest_Stack m')) (Inst_Name inst') ->
  SM_Name (Manifest_Stack m) = SM_Name (Manifest_Stack m') /\ Inst_Name inst = Inst_Name inst'.
Proof.
  intros (H1 & _)%validateStack_nil (H2 & _)%validateStack_nil.
  apply instance_ids_unique; by apply isValidName_no_delimiter.
Qed.
End stacks.

(** ** Witnesses *)

Definition blog : StackManifest :=
  {| Manifest_Stack := {| SM_APIVersion := ""; SM_Name := "Blog-1" |};
     Manifest_Instances := [inst_of "web" ["db"]; inst_of "db" []] |}.

Lemma blog_accepted : validateStack (fun _ => 0) NewValidator blog = [].
Proof. vm_compute. reflexivity. Qed.

Lemma accepted_stack_has_order_witness : exists order,
  buildDependencyOrder listed (Manifest_Instances blog) = Some (Ok order) /\ order <> [].
Proof.
  destruct (accepted_stack_has_order (fun _ => 0) listed NewValidator blog listed_ok blog_accepted) as (order & Hb & _ & Hne & _).
  exists order. split; [exact Hb|exact Hne].
Defined.

Lemma accepted_stacks_have_distinct_ids_witness :
  SM_Name (Manifest_Stack blog) = "Blog-1" /\ Inst_Name (inst_of "web" []) = "web".
Proof.
  destruct (accepted_stacks_have_distinct_ids (fun _ => 0) NewValidator blog blog (inst_of "web" []) (inst_of "web" ["db"])
    blog_accepted blog_accepted eq_refl) as [H1 H2]. split; [exact H1|exact H2].
Defined.

(** A name the validator accepts although it is not ASCII: the lower case of the
    Kelvin sign is a plain letter. *)
Lemma kelvin_name_accepted : isValidName (of_bytes ["226"; "132"; "170"; "1"]%char) = true.
Proof. vm_compute. reflexivity. Qed.
