(* ===== verification/StackRuns.v ===== *)
(** * Stacks on a sample machine

    A machine whose instances are a set of keys, with providers that can be
    told which starts and which deletions fail.  On it the theorems about
    stacks apply, and runs of the stack manager can be evaluated. *)

From stdpp Require Import base list gmap strings.
From Stdlib Require Import ZArith Lia.
From S2P Require Import Prelude GoStrings ProviderTypes Registry Discovery Health HealthFacts ManifestTypes DepOrder DepOrderFacts StackStore Stack StackFacts.

(** ** The machine *)

(** A provider, by its name and the ids it cannot start. *)
Record sample := { sample_name : string; unstartable : list string }.

(** The instances there are, and the ids that cannot be deleted now. *)
Record machine := { there : gset (string * string); stuck : list string }.

(** A machine on which every deletion works. *)
Record calm_machine := { calm_there : gset (string * string) }.

Definition no_capabilities : ProviderCapabilities :=
  {| SupportsSnapshots := false; SupportsMigration := false; SupportsLiveMigration := false; SupportsCloning := false;
     SupportsPause := false; SupportsConsole := false; SupportsVNC := false; SupportsSerial := false;
     SupportsGPUPassthrough := false; SupportsUSBPassthrough := false; SupportsPCIPassthrough := false;
     SupportsNUMA := false; SupportsBallooning := false; NetworkTypes := []; MaxNetworkInterfaces := 0; DiskTypes := [];
     MaxDisks := 0; SupportsHotplugDisk := false; SupportedArchitectures := []; SupportsCrossArch := false;
     MaxCPUs := 0; MaxMemoryMB := 0; PlatformFeatures := [] |}.

#[export] Instance sample_provider : IsProvider sample := {
  Metadata p := {| M_Name := sample_name p; M_Version := "1.0.0"; M_Type := "container"; M_Author := "";
                   M_Description := ""; M_Homepage := ""; M_License := ""; M_MinAPIVersion := ""; M_MaxAPIVersion := "" |};
  Capabilities _ := no_capabilities;
  HealthCheck _ := Some None
}.

Definition sample_create (p : sample) (l : gset (string * string)) (spec : InstanceSpec)
    : gset (string * string) * result InstanceHandle :=
  if bool_decide ((sample_name p, Spec_Name spec) ∈ l) then (l, Err (Errorf "instance %s exists" [Spec_Name spec]))
  else ({[(sample_name p, Spec_Name spec)]} ∪ l,
        Ok {| Handle_ID := Spec_Name spec; Handle_Provider := sample_name p; Handle_Metadata := [] |}).

Definition sample_delete (stuck : list string) (p : sample) (l : gset (string * string)) (h : InstanceHandle)
    : gset (string * string) * option error :=
  if bool_decide (Handle_ID h ∈ stuck) then (l, Some (Errorf "instance %s is busy" [Handle_ID h]))
  else if bool_decide ((sample_name p, Handle_ID h) ∈ l) then (l ∖ {[(sample_name p, Handle_ID h)]}, None)
  else (l, Some (Errorf "instance %s not found" [Handle_ID h])).

Definition sample_start (p : sample) (h : InstanceHandle) : option error :=
  fail_if (bool_decide (Handle_ID h ∈ unstartable p)) (Errorf "instance %s does not start" [Handle_ID h]).

#[export] Instance machine_ops : ProviderOps sample machine := {
  CreateInstance p w spec :=
    let '(l, r) := sample_create p (there w) spec in ({| there := l; stuck := stuck w |}, r);
  DeleteInstance p w h _ :=
    let '(l, r) := sample_delete (stuck w) p (there w) h in ({| there := l; stuck := stuck w |}, r);
  StartInstance p w h := (w, sample_start p h);
  StopInstance p w h _ := (w, None)
}.

#[export] Instance calm_machine_ops : ProviderOps sample calm_machine := {
  CreateInstance p w spec := let '(l, r) := sample_create p (calm_there w) spec in ({| calm_there := l |}, r);
  DeleteInstance p w h _ := let '(l, r) := sample_delete [] p (calm_there w) h in ({| calm_there := l |}, r);
  StartInstance p w h := (w, sample_start p h);
  StopInstance p w h _ := (w, None)
}.

(** The sample machines keep the laws of a provider. *)
Lemma sample_create_law p l spec :
  match sample_create p l spec with
  | (l', Ok h) => Handle_ID h = Spec_Name spec /\ (sample_name p, Handle_ID h) ∉ l /\
      l' = {[(sample_name p, Handle_ID h)]} ∪ l
  | (l', Err _) => l' = l
  end.
Proof. unfold sample_create. by case_bool_decide. Qed.

Lemma sample_delete_law st p l h :
  match sample_delete st p l h with
  | (l', None) => l' = l ∖ {[(sample_name p, Handle_ID h)]}
  | (l', Some _) => l' = l
  end.
Proof. unfold sample_delete. do 2 (case_bool_decide; [done|]). done. Qed.

#[export] Instance machine_laws : ProviderLaws sample machine.
Proof.
  refine {| live := there |}.
  - intros p w spec. pose proof (sample_create_law p (there w) spec) as Hl. simpl.
    by destruct (sample_create p (there w) spec) as [l [h|e]].
  - done.
  - done.
  - intros p w h f. pose proof (sample_delete_law (stuck w) p (there w) h) as Hl. simpl.
    by destruct (sample_delete (stuck w) p (there w) h) as [l [e|]].
Defined.

#[export] Instance calm_machine_laws : ProviderLaws sample calm_machine.
Proof.
  refine {| live := calm_there |}.
  - intros p w spec. pose proof (sample_create_law p (calm_there w) spec) as Hl. simpl.
    by destruct (sample_create p (calm_there w) spec) as [l [h|e]].
  - done.
  - done.
  - intros p w h f. pose proof (sample_delete_law [] p (calm_there w) h) as Hl. simpl.
    by destruct (sample_delete [] p (calm_there w) h) as [l [e|]].
Defined.

Lemma calm_reliable : reliable (P := sample) (W := calm_machine).
Proof.
  intros p w h Hl. simpl. unfold sample_delete. rewrite bool_decide_eq_false_2 by apply not_elem_of_nil.
  by rewrite bool_decide_eq_true_2.
Qed.

Lemma machine_missing_fails : missing_fails (P := sample) (W := machine).
Proof.
  intros p w h Hl. simpl. unfold sample_delete. case_bool_decide; [done|]. by rewrite bool_decide_eq_false_2.
Qed.

(** ** Runs *)

Definition shop_spec (inst : InstanceConfig) : InstanceSpec :=
  {| Spec_Name := Inst_Name inst; Spec_Description := ""; Spec_CPUs := 1; Spec_MemoryMB := 512; Spec_MaxProc := 0;
     Spec_ReadBPS := 0; Spec_WriteBPS := 0; Spec_ReadIOPS := 0; Spec_WriteIOPS := 0; Spec_Image := "";
     Spec_OSType := ""; Spec_OSVersion := ""; Spec_Arch := ""; Spec_CloudInit := None; Spec_Bootloader := "";
     Spec_Disks := []; Spec_Networks := []; Spec_ProviderConfig := []; Spec_Labels := []; Spec_Annotations := [] |}.

(** [inst_of] with a restart policy. *)
Definition restarted (inst : InstanceConfig) : InstanceConfig :=
  {| Inst_Name := Inst_Name inst; Inst_Provider := Inst_Provider inst; Inst_Image := Inst_Image inst;
     Inst_Resources := Inst_Resources inst; Inst_Networks := Inst_Networks inst; Inst_Storage := Inst_Storage inst;
     Inst_CloudInit := Inst_CloudInit inst;
     Inst_Lifecycle := {| StopTimeout := 10; Autostart := None; Hooks := None; HealthCheck_ := None;
       Restart := Some {| RS_Enabled := true; RS_MaxRestarts := 3; RS_Delay := ""; RS_ResetAfter := "" |} |};
     Inst_Environment := Inst_Environment inst; Inst_ProviderOverrides := Inst_ProviderOverrides inst;
     Inst_DependsOn := Inst_DependsOn inst |}.

(** A shop: a database that is restarted when unhealthy, and a web server that needs it. *)
Definition shop : StackManifest :=
  {| Manifest_Stack := {| SM_APIVersion := "hospitus.io/v1"; SM_Name := "shop" |};
     Manifest_Instances := [inst_of "web" ["db"]; restarted (inst_of "db" [])] |}.

(** No pause is cut short; no dependency has to be waited for. *)
Definition undisturbed : deploy_env :=
  {| waits := fun _ => {| brief := None; polls := []; gives_up := Errorf "timeout waiting for dependencies to be healthy" [] |}; pause_ends := fun _ => None |}.

Definition empty_store : Datastore := {| stacks := ∅; stack_instances := ∅; faults := [] |}.

(** A manager with a checker, a restarter and a store, over one provider. *)
Definition manager {W} (broken : list string) (w : W) : StackManager (P := sample) (W := W) (D := Datastore) :=
  {| sm_stacks := ∅; sm_registry := {["jail" := {| sample_name := "jail"; unstartable := broken |}]};
     sm_store := Some empty_store; sm_services := NewServiceRegistry; sm_health := Some NewHealthChecker;
     sm_restarter := Some (NewAutoRestarter None); sm_world := w; cloudInitRoot := "" |}.

(** An encoding of the handles this provider makes. *)
Definition sample_encode (h : InstanceHandle) : result string :=
  match Handle_Metadata h with
  | [] => if streq (Handle_Provider h) "jail" && negb (streq (Handle_ID h) "") then Ok (Handle_ID h)
          else Err (Errorf "not a jail" [])
  | _ => Err (Errorf "has metadata" [])
  end.
Definition sample_decode (s : string) : result InstanceHandle :=
  Ok {| Handle_ID := s; Handle_Provider := "jail"; Handle_Metadata := [] |}.

Lemma sample_round_trip h s : sample_encode h = Ok s -> s <> "" /\ sample_decode s = Ok h.
Proof.
  unfold sample_encode, sample_decode. destruct h as [i p [|]]; simpl; [|done].
  destruct (streq p "jail") eqn:Ep; [|done]. destruct (streq i "") eqn:Ei; [done|]. simpl. intros [= <-].
  apply streq_true in Ep. apply streq_false in Ei. by subst.
Qed.

Definition deploy {W} `{ProviderOps sample W} (sm : StackManager (P := sample) (W := W) (D := Datastore))
    : StackManager (P := sample) (W := W) (D := Datastore) * option error :=
  DeployStack sample_encode (fun _ => Ok "{}")
    (fun inst _ => Ok (shop_spec inst)) listed undisturbed sm 100 shop.

Lemma manager_checker {W} broken (w : W) h : sm_health (manager broken w) = Some h -> checker_ok h.
Proof. intros [= <-]. constructor; simpl; try done; intros *; rewrite ?lookup_empty; try done; set_solver. Qed.

Lemma manager_clean {W} broken (w : W) :
  Forall (fun inst => clean "shop" (manager broken w) (Inst_Name inst)) (Manifest_Instances shop).
Proof. repeat constructor; intros h [= <-]; done. Qed.


(** The shop, deployed on a machine where [stuck] cannot be deleted. *)
Definition deployed_shop (st : list string) := (deploy (manager [] {| there := ∅; stuck := st |})).1.

(** The stack of a manager after a run, and one of its instances. *)
Definition shop_of {W} (sm : StackManager (P := sample) (W := W) (D := Datastore)) : Stack :=
  default {| St_Name := ""; St_Instances := []; St_Status := ""; St_CreatedAt := 0; St_UpdatedAt := 0 |}
    (sm_stacks sm !! "shop").

Definition nth_instance (st : Stack) (i : nat) : StackInstance :=
  List.nth i (St_Instances st)
    {| SI_Name := ""; SI_InstanceID := ""; SI_Provider := ""; SI_DependsOn := []; SI_Status := "";
       SI_Health := HealthNone; SI_Handle := {| Handle_ID := ""; Handle_Provider := ""; Handle_Metadata := [] |} |}.

Lemma destroy_all_or_kept_witness :
  (DestroyStack (deployed_shop []) 200 "shop").2 = None /\
  sm_stacks (DestroyStack (deployed_shop []) 200 "shop").1 !! "shop" = None.
Proof.
  assert (sm_stacks (deployed_shop []) !! "shop" = Some (shop_of (deployed_shop []))) as Hst by (vm_compute; reflexivity).
  pose proof (destroy_all_or_kept (deployed_shop []) 200 "shop" _ Hst) as Ht.
  assert ((DestroyStack (deployed_shop []) 200 "shop").2 = None) as He by (vm_compute; reflexivity).
  destruct (DestroyStack (deployed_shop []) 200 "shop") as [sm' [e|]]; [discriminate He|].
  destruct Ht as (_ & Hs & _). split; [reflexivity|]. simpl. rewrite Hs. apply lookup_delete_eq.
Defined.

(** The rollback of a failed deployment leaves the restart policies of the
    instances it removed: here the database was created and deleted again, and
    the restarter still has a policy and a target for it. *)
Theorem rollback_keeps_restart_policy :
  let sm := (deploy (manager ["shop_web"] {| calm_there := ∅ |})).1 in
  (deploy (manager ["shop_web"] {| calm_there := ∅ |})).2 <> None /\ calm_there (sm_world sm) = ∅ /\
  exists ar policy p h, sm_restarter sm = Some ar /\ restartPolicy ar !! "shop_db" = Some policy /\
    targets ar !! "shop_db" = Some (p, h) /\ (p, Handle_ID h) = ({| sample_name := "jail"; unstartable := ["shop_web"] |}, "shop_db").
Proof.
  intros sm. split; [vm_compute; discriminate|]. split; [vm_compute; reflexivity|].
  eexists _, _, _, _. split_and!; vm_compute; reflexivity.
Qed.

(** The machine after an operator has freed what was stuck. *)
Definition repaired (sm : StackManager (P := sample) (W := machine) (D := Datastore)) :=
  set_world sm {| there := there (sm_world sm); stuck := [] |}.

Lemma missing_instance_blocks_destroy_witness :
  let sm := repaired (DestroyStack (deployed_shop ["shop_db"]) 200 "shop").1 in
  (DestroyStack (foldl (fun sm now => (DestroyStack sm now "shop").1) sm [300; 400]%Z) 500 "shop").2 <> None.
Proof.
  intros sm. apply (missing_instance_blocks_destroy sm 500 "shop" [300; 400]%Z machine_missing_fails).
  exists (shop_of sm), (nth_instance (shop_of sm) 1), {| sample_name := "jail"; unstartable := [] |}. split_and!.
  - vm_compute. reflexivity.
  - apply (list_elem_of_lookup_2 _ 1). vm_compute. reflexivity.
  - vm_compute. reflexivity.
  - apply (bool_decide_eq_false_1 _). vm_compute. reflexivity.
Defined.
