(* ===== verification/StackPersist.v ===== *)
(** * A deployed stack survives a restart of the daemon

    [DeployStack] writes the rows from which [LoadStacks] rebuilds the stack. *)

From stdpp Require Import base list gmap strings sorting.
From Stdlib Require Import ZArith Lia.
From S2P Require Import Prelude GoStrings ProviderTypes Registry Discovery Health HealthFacts ManifestTypes DepOrder DepOrderFacts StackStore Stack StackFacts StackRuns.

Local Open Scope Z_scope.

Section persist.
Context {P W : Type} `{IsProvider P, ProviderOps P W}.
Context (encode_handle : InstanceHandle -> result string) (decode_handle : string -> result InstanceHandle).
Context (encode_manifest : StackManifest -> result string).
Context (InstanceConfigToSpec : InstanceConfig -> string -> result InstanceSpec).

(** What [encoding/json] gives: a handle decodes to itself, and its text is not empty. *)
Context (handle_round_trip : forall h s, encode_handle h = Ok s -> s <> "" /\ decode_handle s = Ok h).

Notation SM := (StackManager (P := P) (W := W) (D := Datastore)).

(** The row of instance [si], the [i]-th from 0, of stack [name]. *)
Definition row_of (name : string) (i : nat) (si : StackInstance) (h : string) : StackInstanceRecord :=
  {| IR_StackName := name; IR_InstanceName := SI_Name si; IR_InstanceID := SI_InstanceID si; IR_Provider := SI_Provider si;
     IR_DependsOn := SI_DependsOn si; IR_Status := SI_Status si; IR_Health := health_string (SI_Health si);
     IR_Handle := h; IR_DeployOrder := Z.of_nat (S i) |}.

(** The rows of the store under [name] are those of the stack's instances. *)
Record persisted (name : string) (sm : SM) (status : string) (ds : Datastore) (st : Stack) : Prop := {
  ps_store : sm_store sm = Some ds;
  ps_faults : faults ds = [];
  ps_stack : sm_stacks sm !! name = Some st;
  ps_name : St_Name st = name;
  ps_status : St_Status st = status;
  ps_keys : map_Forall (fun k r => SR_Name r = k) (stacks ds);
  ps_record : exists r, stacks ds !! name = Some r /\ SR_Status r = status;
  ps_rows : forall i si, St_Instances st !! i = Some si ->
    exists h, encode_handle (SI_Handle si) = Ok h /\ stack_instances ds !! (name, SI_Name si) = Some (row_of name i si h);
  ps_only : forall n r, stack_instances ds !! (name, n) = Some r -> exists i si, St_Instances st !! i = Some si /\ SI_Name si = n;
  ps_plain : Forall (fun si => SI_Health si = HealthStatusStarting) (St_Instances st)
}.

(** ** Writing *)

Notation deploy_create := (deploy_create InstanceConfigToSpec).
Notation deploy_record := (deploy_record encode_handle).
Notation deploy_one := (deploy_one encode_handle InstanceConfigToSpec).
Notation deploy_loop := (deploy_loop encode_handle InstanceConfigToSpec).

(** Steps that touch neither the stacks nor the store. *)
Lemma persisted_same name (sm sm' : SM) status ds st :
  persisted name sm status ds st -> sm_store sm' = sm_store sm -> sm_stacks sm' = sm_stacks sm ->
  persisted name sm' status ds st.
Proof. intros [] E1 E2. constructor; try done; congruence. Qed.

Lemma deploy_create_same (sm : SM) name inst created :
  sm_store (deploy_create sm name inst created).1.1 = sm_store sm /\
  sm_stacks (deploy_create sm name inst created).1.1 = sm_stacks sm.
Proof.
  unfold Stack.deploy_create. destruct (Get _ _) as [p|]; [|done]. destruct (instanceToSpec _ _ _ _) as [spec|]; [|done].
  destruct (CreateInstance _ _ _) as [w [h|e]]; [|done]. by destruct (StartInstance _ _ _) as [w' [e|]].
Qed.

Lemma deploy_watch_same (sm : SM) now name inst prov h :
  sm_store (deploy_watch sm now name inst prov h) = sm_store sm /\
  sm_stacks (deploy_watch sm now name inst prov h) = sm_stacks sm.
Proof.
  unfold Stack.deploy_watch. set (sm1 := match healthSpecToConfig _ with Some _ => _ | None => _ end).
  assert (sm_store sm1 = sm_store sm /\ sm_stacks sm1 = sm_stacks sm) as [E1 E2].
  { unfold sm1. destruct (healthSpecToConfig _); [|done].
    unfold on_checker. simpl. split; by repeat (destruct (sm_health _); simpl). }
  destruct (sm_restarter sm1); [|done]. by destruct (restartSpecToPolicy _).
Qed.

(** Recording an instance adds it to the stack and its row to the store. *)
Lemma deploy_record_persists name (sm sm' : SM) now status ds st inst h :
  persisted name sm status ds st -> deploy_record sm now name inst h = (sm', None) ->
  exists ds' st', persisted name sm' status ds' st'.
Proof.
  intros [I1 I2 I3 I4 I5 I6 I7 I8 I9 I10]. unfold Stack.deploy_record. set (si := {| SI_Name := Inst_Name inst |}).
  simpl. rewrite lookup_alter_eq, I3, I1. simpl.
  destruct (encode_handle h) as [j|e] eqn:Ej; [|done]. unfold ds_CreateStackInstance, statement. rewrite I2.
  unfold inst_key. simpl. destruct (stack_instances ds !! (name, Inst_Name inst)) eqn:El; [done|].
  destruct I7 as (r & Hr & Hs). rewrite Hr. intros [= <-].
  set (st' := with_instances st (St_Instances st ++ [si]) now). set (row := {| IR_StackName := name |}).
  exists (with_tables ds (stacks ds) (<[(name, Inst_Name inst) := row]> (stack_instances ds))), st'.
  constructor; simpl; try done.
  - rewrite lookup_alter_eq, I3. done.
  - eauto.
  - intros i si' [Hi|[Hlen Hi]]%lookup_app_Some.
    + destruct (I8 i si' Hi) as (hj & Hj & Hrow). exists hj. split; [done|]. rewrite lookup_insert_ne; [done|]. congruence.
    + apply list_lookup_singleton_Some in Hi as [Hi <-]. exists j. split; [done|]. simpl. rewrite lookup_insert_eq.
      f_equal. unfold row, row_of. simpl. f_equal. rewrite length_app. simpl. lia.
  - intros n r' Hr'. destruct (decide (n = Inst_Name inst)) as [->|Hn].
    + exists (length (St_Instances st)), si. split; [|done]. rewrite lookup_app_r by lia. by rewrite Nat.sub_diag.
    + rewrite lookup_insert_ne in Hr' by congruence. destruct (I9 n r' Hr') as (i & si' & Hi & Hn').
      exists i, si'. split; [|done]. by apply lookup_app_l_Some.
  - rewrite Forall_app, Forall_singleton. done.
Qed.

Lemma deploy_one_persists env now name i inst (sm sm' : SM) created created' status ds st :
  persisted name sm status ds st -> deploy_one env now name i inst sm created = (sm', created', None) ->
  exists ds' st', persisted name sm' status ds' st'.
Proof.
  intros Hp. unfold Stack.deploy_one. set (waited := match Inst_DependsOn inst with Some _ => _ | None => _ end).
  destruct waited; [done|]. destruct (deploy_create_same sm name inst created) as [E1 E2].
  destruct (deploy_create sm name inst created) as [[sm1 created1] [[prov h]|e]]; [|done]. simpl in E1, E2.
  pose proof (persisted_same _ _ _ _ _ _ Hp E1 E2) as Hp1.
  destruct (deploy_record sm1 now name inst h) as [sm2 [e|]] eqn:Er; [done|].
  destruct (deploy_record_persists _ _ _ _ _ _ _ _ _ Hp1 Er) as (ds' & st' & Hp2). intros [= <- _ _].
  destruct (deploy_watch_same sm2 now name inst prov h) as [E3 E4]. exists ds', st'. by eapply persisted_same.
Qed.

Lemma updateStackStatus_persists name (sm : SM) now status status' ds st :
  persisted name sm status ds st -> exists ds', persisted name (updateStackStatus sm now name status') status' ds' (with_status st status' now).
Proof.
  intros [I1 I2 I3 I4 I5 I6 (r & Hr & Hs) I8 I9 I10]. unfold updateStackStatus. simpl. rewrite I1. simpl.
  unfold ds_UpdateStackStatus, statement. rewrite I2, Hr. eexists. constructor; simpl; try done.
  - by rewrite lookup_alter_eq, I3.
  - apply map_Forall_insert_2; [exact (I6 _ _ Hr)|done].
  - eexists. split; [apply lookup_insert_eq|done].
Qed.

Lemma deploy_loop_persists env now name order : forall i (sm sm' : SM) created status ds st,
  persisted name sm status ds st -> deploy_loop env now name i order sm created = (sm', None) ->
  exists ds' st', persisted name sm' StackStatusRunning ds' st'.
Proof.
  induction order as [|inst rest IH]; simpl; intros i sm sm' created status ds st Hp E.
  - injection E as <-. destruct (updateStackStatus_persists _ _ now _ StackStatusRunning _ _ Hp) as [ds' Hp']. eauto.
  - destruct (deploy_one env now name i inst sm created) as [[sm1 created1] [e|]] eqn:E1; [done|].
    destruct (deploy_one_persists _ _ _ _ _ _ _ _ _ _ _ _ Hp E1) as (ds' & st' & Hp'). by eapply IH.
Qed.
(** The store is sound for a new stack [name]: stacks are kept under their
    names, and no instance is left under [name]. *)
Definition ready (name : string) (ds : Datastore) : Prop :=
  faults ds = [] /\ map_Forall (fun k r => SR_Name r = k) (stacks ds) /\ forall n, stack_instances ds !! (name, n) = None.

Lemma deploy_begin_persists (sm sm' : SM) now m ds :
  let name := SM_Name (Manifest_Stack m) in
  sm_store sm = Some ds -> ready name ds -> deploy_begin encode_manifest sm now m = (sm', None) ->
  exists ds' st, persisted name sm' StackStatusDeploying ds' st.
Proof.
  intros name Hs (Hf & Hk & Hn). unfold deploy_begin. fold name. destruct (sm_stacks sm !! name); [done|]. simpl. rewrite Hs.
  simpl. unfold ds_CreateStack, statement. rewrite Hf. simpl. destruct (stacks ds !! name); [done|]. intros [= <-].
  eexists _, _. constructor; simpl; try done.
  - apply lookup_insert_eq.
  - done.
  - done.
  - by apply map_Forall_insert_2.
  - eexists. split; [apply lookup_insert_eq|done].
  - intros i si Hi. simpl in Hi. by rewrite lookup_nil in Hi.
  - intros n r Hr. specialize (Hn n). simpl in Hr. congruence.
  - constructor.
Qed.

(** ** Reading *)

(** Each row rebuilds its instance. *)
Lemma restore_row name i si h :
  encode_handle (SI_Handle si) = Ok h -> SI_Health si = HealthStatusStarting ->
  restore_instance decode_handle (row_of name i si h) = [si].
Proof.
  intros Hh Hs. destruct (handle_round_trip _ _ Hh) as [Hne Hd]. unfold restore_instance. simpl.
  apply streq_false in Hne. rewrite Hne, Hd, Hs. destruct si. simpl in *. by subst.
Qed.

(** The rows of the stack, in the order of its instances, with their keys. *)
Definition rows_of (name : string) (l : list StackInstance) : list ((string * string) * StackInstanceRecord) :=
  imap (fun i si => ((name, SI_Name si),
    row_of name i si (match encode_handle (SI_Handle si) with Ok h => h | Err _ => "" end))) l.

Lemma rows_of_orders name l :
  map IR_DeployOrder (rows_of name l).*2 = map (fun i => Z.of_nat (S i)) (seq 0 (length l)).
Proof.
  apply list_eq. intros i. unfold rows_of. change (map IR_DeployOrder ?l) with (IR_DeployOrder <$> l).
  change (map ?f (seq 0 ?n)) with (f <$> seq 0 n). rewrite !list_lookup_fmap, list_lookup_imap.
  destruct (l !! i) as [si|] eqn:Ei; simpl.
  - rewrite lookup_seq_lt by (by eapply lookup_lt_Some). done.
  - rewrite lookup_seq_ge by (by apply lookup_ge_None). done.
Qed.

Lemma rows_of_distinct name l : NoDup (map IR_DeployOrder (rows_of name l).*2).
Proof. rewrite rows_of_orders. apply NoDup_fmap_2; [intros a b Hab; lia|apply NoDup_seq]. Qed.

Lemma seq_sorted n a : StronglySorted Z.le (map (fun i => Z.of_nat (S i)) (seq a n)).
Proof.
  revert a. induction n as [|n IH]; intros a; simpl; constructor; [done|].
  apply Forall_map, Forall_forall. intros i Hi%elem_of_seq. lia.
Qed.

Lemma rows_of_sorted name l : StronglySorted (by_key IR_DeployOrder Z.le) (rows_of name l).*2.
Proof. apply StronglySorted_of_keys. rewrite rows_of_orders. apply seq_sorted. Qed.

(** They are what the query returns. *)
Lemma rows_of_query name (sm : SM) status ds st :
  persisted name sm status ds st ->
  sort_by IR_DeployOrder Z.le (map_to_list (filter (fun p => p.1.1 = name) (stack_instances ds))).*2 =
  (rows_of name (St_Instances st)).*2.
Proof.
  intros [I1 I2 I3 I4 I5 I6 I7 I8 I9 I10]. symmetry.
  apply (sorted_by_unique IR_DeployOrder Z.le);
    [apply rows_of_distinct| |apply rows_of_sorted|apply sort_by_sorted; apply _].
  rewrite sort_by_perm. apply fmap_Permutation, NoDup_Permutation.
  - eapply NoDup_fmap_1, NoDup_fmap_1, rows_of_distinct.
  - apply NoDup_map_to_list.
  - intros [[k n] r]. rewrite elem_of_map_to_list, map_lookup_filter_Some. simpl. unfold rows_of. split.
    + intros (i & Hi)%list_elem_of_lookup. rewrite list_lookup_imap in Hi.
      destruct (St_Instances st !! i) as [si|] eqn:Ei; simplify_eq/=. split; [|done].
      destruct (I8 i si Ei) as (h & Hh & Hr). by rewrite Hh.
    + intros [Hr ->]. destruct (I9 n r Hr) as (i & si & Ei & <-). destruct (I8 i si Ei) as (h & Hh & Hr').
      rewrite Hr' in Hr. simplify_eq. apply (list_elem_of_lookup_2 _ i). rewrite list_lookup_imap, Ei. simpl. by rewrite Hh.
Qed.

Lemma restore_rows name l : forall i,
  Forall (fun si => (exists h, encode_handle (SI_Handle si) = Ok h) /\ SI_Health si = HealthStatusStarting) l ->
  flat_map (restore_instance decode_handle) (imap (fun j si =>
    row_of name (i + j) si (match encode_handle (SI_Handle si) with Ok h => h | Err _ => "" end)) l) = l.
Proof.
  induction l as [|si l IH]; intros i Hf; simpl; [done|].
  apply Forall_cons in Hf as [[[h Hh] Hs] Hf]. rewrite Hh, restore_row by done. simpl. f_equal.
  rewrite <- (IH (S i) Hf) at 2. f_equal. apply imap_ext. intros j si' _. simpl. f_equal. lia.
Qed.

Lemma restore_instances name (sm : SM) status ds st :
  persisted name sm status ds st ->
  flat_map (restore_instance decode_handle) (rows_of name (St_Instances st)).*2 = St_Instances st.
Proof.
  intros [I1 I2 I3 I4 I5 I6 I7 I8 I9 I10]. rewrite <- (restore_rows name (St_Instances st) 0) at 2.
  - f_equal. unfold rows_of. rewrite fmap_imap. done.
  - rewrite Forall_forall in *. intros si Hin. split; [|by apply I10].
    apply list_elem_of_lookup in Hin as [i Hi]. destruct (I8 i si Hi) as (h & Hh & _). eauto.
Qed.

(** ** Loading *)

Lemma restore_one_spec (sm : SM) ds r : sm_store sm = Some ds -> faults ds = [] ->
  sm_store (restore_one decode_handle sm r) = Some ds /\
  sm_stacks (restore_one decode_handle sm r) = <[SR_Name r :=
    {| St_Name := SR_Name r;
       St_Instances := flat_map (restore_instance decode_handle)
         (sort_by IR_DeployOrder Z.le (map_to_list (filter (fun p => p.1.1 = SR_Name r) (stack_instances ds))).*2);
       St_Status := SR_Status r; St_CreatedAt := SR_CreatedAt r; St_UpdatedAt := SR_UpdatedAt r |}]> (sm_stacks sm).
Proof.
  intros Hs Hf. unfold restore_one. rewrite Hs. simpl. unfold ds_GetStackInstances, statement. by rewrite Hf.
Qed.

(** What is loaded under a name is read from a record of that name. *)
Lemma restore_all_spec ds name r l : forall (sm : SM),
  sm_store sm = Some ds -> faults ds = [] -> SR_Name r = name ->
  (forall r', r' ∈ l -> SR_Name r' = name -> r' = r) ->
  r ∈ l \/ sm_stacks sm !! name = sm_stacks (restore_one decode_handle sm r) !! name ->
  sm_stacks (foldl (restore_one decode_handle) sm l) !! name = sm_stacks (restore_one decode_handle sm r) !! name.
Proof.
  induction l as [|r0 l IH]; intros sm Hs Hf Hn Hu Hin; simpl.
  - destruct Hin as [[]%elem_of_nil|Hin]; done.
  - destruct (restore_one_spec sm ds r0 Hs Hf) as [Hs0 Hst0]. destruct (restore_one_spec sm ds r Hs Hf) as [_ Hst].
    destruct (restore_one_spec _ ds r Hs0 Hf) as [_ Hst1].
    rewrite IH; [|done|done|done|intros r' Hr'; apply Hu; by right|].
    + rewrite Hst1, Hst, Hn, !lookup_insert_eq. done.
    + destruct (decide (SR_Name r0 = name)) as [E|E].
      * right. assert (r0 = r) as -> by (apply Hu; [left|done]). rewrite Hst1, Hst, Hn, !lookup_insert_eq. done.
      * destruct Hin as [[->|Hin]%elem_of_cons|Hin]; [done|by left|]. right.
        rewrite Hst1, Hst0, lookup_insert_ne by done. rewrite Hin, Hst, Hn, !lookup_insert_eq. done.
Qed.

Lemma load_persisted name (sm sm2 : SM) status ds st :
  persisted name sm status ds st -> sm_store sm2 = Some ds ->
  (LoadStacks decode_handle sm2).2 = None /\
  exists st', sm_stacks (LoadStacks decode_handle sm2).1 !! name = Some st' /\
    St_Name st' = name /\ St_Status st' = status /\ St_Instances st' = St_Instances st.
Proof.
  intros Hp Hs. pose proof Hp as [I1 I2 I3 I4 I5 I6 (r & Hr & Hst) I8 I9 I10].
  unfold LoadStacks. rewrite Hs. simpl. unfold ds_ListStacks, statement. rewrite I2. simpl. split; [done|].
  set (sm3 := set_store sm2 ds).
  rewrite (restore_all_spec ds name r); [|done|done|by apply I6| |].
  - destruct (restore_one_spec sm3 ds r eq_refl I2) as [_ ->]. rewrite (I6 _ _ Hr), lookup_insert_eq.
    eexists. split; [reflexivity|]. simpl. split_and!; [done|done|].
    rewrite (rows_of_query _ _ _ _ _ Hp). by eapply restore_instances.
  - intros r'. rewrite sort_by_perm. intros ([k r''] & -> & Hin)%list_elem_of_fmap. apply elem_of_map_to_list in Hin.
    simpl. intros <-. pose proof (I6 _ _ Hin) as Hk. simpl in Hk. subst k. congruence.
  - left. rewrite sort_by_perm. apply list_elem_of_fmap. exists (name, r). split; [done|]. by apply elem_of_map_to_list.
Qed.

End persist.

