(* ===== verification/Backup.v ===== *)
(** * The backup manager (pkg/backup/backup.go)

    Configurations, backup records and schedules of instances, over a machine
    whose zfs, ssh and compressors are run through [Host], and a datastore used
    through [BackupStore].  Each method is whole; two methods do not overlap.
    Schedule goroutines are entries of [loops], keyed by their stop channel.

    Two choices Go leaves open are arguments of the section: the order a map is
    visited in ([visit]) and the order [sort.Slice] gives to records of the same
    time ([sort_newest]).  Also arguments are [time.Time.Format] in the local zone
    ([format_time], [format_rfc3339]) and [encoding/json] on records. *)

From stdpp Require Import base list gmap strings sorting.
From Stdlib Require Import Ascii ZArith Lia.
From S2P Require Import Prelude GoStrings GoText GoTime GoDuration GoPath Host Validation.

Local Open Scope Z_scope.

(** ** Data *)

Inductive BackupType := BackupTypeSnapshot | BackupTypeFull | BackupTypeIncr | BackupTypeOther (s : string).
Inductive BackupStatus := BackupStatusPending | BackupStatusRunning | BackupStatusCompleted | BackupStatusFailed.

#[export] Instance BackupType_eq_dec : EqDecision BackupType.
Proof. solve_decision. Defined.
#[export] Instance BackupStatus_eq_dec : EqDecision BackupStatus.
Proof. solve_decision. Defined.

Record RetentionPolicy := {
  KeepLast : Z; KeepHourly : Z; KeepDaily : Z; KeepWeekly : Z; KeepMonthly : Z; MinAge : Z
}.

Record BackupConfig := {
  BC_Enabled : bool; BC_Schedule : string; BC_Retention : RetentionPolicy; BC_Destination : string;
  BC_Compression : string; BC_EncryptionKeyFile : string; BC_PreBackupHook : string; BC_PostBackupHook : string
}.

Record BackupInfo := {
  BI_ID : string; BI_InstanceID : string; BI_Type : BackupType; BI_Status : BackupStatus;
  BI_CreatedAt : Z; BI_CompletedAt : Z; BI_Size : Z; BI_SnapshotName : string; BI_Dataset : string;
  BI_Destination : string; BI_Location : string; BI_Compressed : bool; BI_Encrypted : bool;
  BI_Error : string; BI_Verified : bool; BI_BaseSnapshot : string
}.

#[export] Instance BackupInfo_eq_dec : EqDecision BackupInfo.
Proof. solve_decision. Defined.

(** datastore.InstanceBackupConfig. *)
Record InstanceBackupConfig := {
  IB_Enabled : bool; IB_Schedule : string; IB_Destination : string; IB_Compression : string;
  IB_PreBackupHook : string; IB_PostBackupHook : string; IB_KeepLast : Z; IB_KeepHourly : Z;
  IB_KeepDaily : Z; IB_KeepWeekly : Z; IB_KeepMonthly : Z; IB_MinAge : string
}.

(** datastore.BackupRecord. *)
Record BackupRecord := { BR_ID : string; BR_InstanceID : string; BR_Record : string; BR_CreatedAt : Z }.

(** What the manager uses of the datastore; [ListInstances] with the empty
    filter is seen through the id and the configuration of each instance. *)
Class BackupStore (D : Type) := {
  UpdateBackupConfig : D -> Z -> string -> option InstanceBackupConfig -> D * option error;
  ListBackupConfigs : D -> D * result (list (string * option InstanceBackupConfig));
  ListBackupRecords : D -> D * result (list BackupRecord);
  SaveBackupRecord : D -> Z -> string -> string -> string -> D * option error;
  DeleteBackupRecord : D -> string -> D * option error
}.

(** ** Updating records *)

Definition with_outcome (st : BackupStatus) (err : string) (b : BackupInfo) : BackupInfo :=
  {| BI_ID := BI_ID b; BI_InstanceID := BI_InstanceID b; BI_Type := BI_Type b; BI_Status := st;
     BI_CreatedAt := BI_CreatedAt b; BI_CompletedAt := BI_CompletedAt b; BI_Size := BI_Size b;
     BI_SnapshotName := BI_SnapshotName b; BI_Dataset := BI_Dataset b; BI_Destination := BI_Destination b;
     BI_Location := BI_Location b; BI_Compressed := BI_Compressed b; BI_Encrypted := BI_Encrypted b;
     BI_Error := err; BI_Verified := BI_Verified b; BI_BaseSnapshot := BI_BaseSnapshot b |}.

Definition with_completion (at_ : Z) (b : BackupInfo) : BackupInfo :=
  {| BI_ID := BI_ID b; BI_InstanceID := BI_InstanceID b; BI_Type := BI_Type b; BI_Status := BackupStatusCompleted;
     BI_CreatedAt := BI_CreatedAt b; BI_CompletedAt := at_; BI_Size := BI_Size b;
     BI_SnapshotName := BI_SnapshotName b; BI_Dataset := BI_Dataset b; BI_Destination := BI_Destination b;
     BI_Location := BI_Location b; BI_Compressed := BI_Compressed b; BI_Encrypted := BI_Encrypted b;
     BI_Error := BI_Error b; BI_Verified := BI_Verified b; BI_BaseSnapshot := BI_BaseSnapshot b |}.

Definition with_stream (ty : BackupType) (base : string) (b : BackupInfo) : BackupInfo :=
  {| BI_ID := BI_ID b; BI_InstanceID := BI_InstanceID b; BI_Type := ty; BI_Status := BI_Status b;
     BI_CreatedAt := BI_CreatedAt b; BI_CompletedAt := BI_CompletedAt b; BI_Size := BI_Size b;
     BI_SnapshotName := BI_SnapshotName b; BI_Dataset := BI_Dataset b; BI_Destination := BI_Destination b;
     BI_Location := BI_Location b; BI_Compressed := BI_Compressed b; BI_Encrypted := BI_Encrypted b;
     BI_Error := BI_Error b; BI_Verified := BI_Verified b; BI_BaseSnapshot := base |}.

Definition with_data (location : string) (compressed : bool) (size : Z) (b : BackupInfo) : BackupInfo :=
  {| BI_ID := BI_ID b; BI_InstanceID := BI_InstanceID b; BI_Type := BI_Type b; BI_Status := BI_Status b;
     BI_CreatedAt := BI_CreatedAt b; BI_CompletedAt := BI_CompletedAt b; BI_Size := size;
     BI_SnapshotName := BI_SnapshotName b; BI_Dataset := BI_Dataset b; BI_Destination := BI_Destination b;
     BI_Location := location; BI_Compressed := compressed; BI_Encrypted := BI_Encrypted b;
     BI_Error := BI_Error b; BI_Verified := BI_Verified b; BI_BaseSnapshot := BI_BaseSnapshot b |}.

Definition with_verified (b : BackupInfo) : BackupInfo :=
  {| BI_ID := BI_ID b; BI_InstanceID := BI_InstanceID b; BI_Type := BI_Type b; BI_Status := BI_Status b;
     BI_CreatedAt := BI_CreatedAt b; BI_CompletedAt := BI_CompletedAt b; BI_Size := BI_Size b;
     BI_SnapshotName := BI_SnapshotName b; BI_Dataset := BI_Dataset b; BI_Destination := BI_Destination b;
     BI_Location := BI_Location b; BI_Compressed := BI_Compressed b; BI_Encrypted := BI_Encrypted b;
     BI_Error := BI_Error b; BI_Verified := true; BI_BaseSnapshot := BI_BaseSnapshot b |}.

(** [dataset@snapshot]. *)
Definition snap_name (dataset snapshot : string) : string := dataset +:+ "@" +:+ snapshot.
Definition snap_of (b : BackupInfo) : string := snap_name (BI_Dataset b) (BI_SnapshotName b).

(** ** Schedules, sizes, compression *)

Definition parseSchedule (schedule : string) : Z :=
  let s := ToLower schedule in
  if streq s "hourly" then Hour
  else if streq s "daily" then 24 * Hour
  else if streq s "weekly" then 7 * 24 * Hour
  else if streq s "monthly" then 30 * 24 * Hour
  else match ParseDuration schedule with
       | Err _ => 0
       | Ok d => if d <=? 0 then 0 else d
       end.

(** The lines of [zfs send -nvP]. *)
Fixpoint parse_size_lines (lines : list string) : result Z :=
  match lines with
  | [] => Err (Errorf "zfs send -nvP reported no size" [])
  | line :: rest =>
      match Fields line with
      | [a; b] => if streq a "size" then ParseInt b 64 else parse_size_lines rest
      | _ => parse_size_lines rest
      end
  end.
Definition parseSendSize (output : string) : result Z := parse_size_lines (Lines output).

Record compressor := {
  extension : string; compress : list string; decompress : list string; test : list string
}.

Definition streamCompressors : list (string * compressor) :=
  [("gzip", {| extension := ".gz"; compress := ["gzip"; "-c"]; decompress := ["gzip"; "-dc"]; test := ["gzip"; "-t"] |});
   ("zstd", {| extension := ".zst"; compress := ["zstd"; "-q"; "-c"]; decompress := ["zstd"; "-qdc"]; test := ["zstd"; "-t"] |});
   ("lz4", {| extension := ".lz4"; compress := ["lz4"; "-q"; "-c"]; decompress := ["lz4"; "-qdc"]; test := ["lz4"; "-t"] |})].

Definition find_compressor (algorithm : string) : option compressor :=
  snd <$> List.find (fun p => streq (fst p) algorithm) streamCompressors.

(** At most one extension is a suffix of a name, so the order of the map does
    not matter here. *)
Definition by_extension (location : string) : option compressor :=
  snd <$> List.find (fun p => HasSuffix location (extension (snd p))) streamCompressors.

Definition integrityTestFor (location : string) : option (list string) := test <$> by_extension location.
Definition decompressorFor (location : string) : option (list string) := decompress <$> by_extension location.
Definition compressorFor (algorithm : string) : option (string * list string) :=
  (fun c => (extension c, compress c)) <$> find_compressor algorithm.

Definition ValidateCompression (algorithm destination : string) : option error :=
  if streq algorithm "" || streq algorithm "none" then None
  else match find_compressor algorithm with
       | None => Some (Errorf "unknown compression %q: use gzip, zstd, lz4, or none" [algorithm])
       | Some _ =>
           fail_if (Contains destination ":")
             (Errorf "compression %q cannot be applied to the remote destination %q: set compression on the receiving pool instead"
                [algorithm; destination])
       end.

(** ** Stored configurations *)

Definition storedFromConfig (config : BackupConfig) : InstanceBackupConfig :=
  let r := BC_Retention config in
  {| IB_Enabled := BC_Enabled config; IB_Schedule := BC_Schedule config; IB_Destination := BC_Destination config;
     IB_Compression := BC_Compression config; IB_PreBackupHook := BC_PreBackupHook config;
     IB_PostBackupHook := BC_PostBackupHook config; IB_KeepLast := KeepLast r; IB_KeepHourly := KeepHourly r;
     IB_KeepDaily := KeepDaily r; IB_KeepWeekly := KeepWeekly r; IB_KeepMonthly := KeepMonthly r;
     IB_MinAge := if 0 <? MinAge r then DurationString (MinAge r) else "" |}.

Definition configFromStored (stored : InstanceBackupConfig) : BackupConfig :=
  let minAge := if streq (IB_MinAge stored) "" then 0
                else match ParseDuration (IB_MinAge stored) with
                     | Ok d => if 0 <? d then d else 0
                     | Err _ => 0
                     end in
  {| BC_Enabled := IB_Enabled stored; BC_Schedule := IB_Schedule stored; BC_Destination := IB_Destination stored;
     BC_Compression := IB_Compression stored; BC_EncryptionKeyFile := "";
     BC_PreBackupHook := IB_PreBackupHook stored; BC_PostBackupHook := IB_PostBackupHook stored;
     BC_Retention := {| KeepLast := IB_KeepLast stored; KeepHourly := IB_KeepHourly stored;
                        KeepDaily := IB_KeepDaily stored; KeepWeekly := IB_KeepWeekly stored;
                        KeepMonthly := IB_KeepMonthly stored; MinAge := minAge |} |}.

(** ** Retention *)

(** [b.CreatedAt.Unix()]; Go's division truncates. *)
Definition unix_seconds (t : Z) : Z := t / Second.
Definition bucket_of (interval : Z) (b : BackupInfo) : Z := Z.quot (unix_seconds (BI_CreatedAt b)) (interval / Second).

(** The buckets in the order they are first met, each with its first backup. *)
Fixpoint fill_buckets (interval : Z) (backups : list BackupInfo) (buckets : gmap Z BackupInfo) (keys : list Z)
    : gmap Z BackupInfo * list Z :=
  match backups with
  | [] => (buckets, keys)
  | b :: rest =>
      let k := bucket_of interval b in
      match buckets !! k with
      | Some _ => fill_buckets interval rest buckets keys
      | None => fill_buckets interval rest (<[k := b]> buckets) (keys ++ [k])
      end
  end.

Definition keep_bucket (buckets : gmap Z BackupInfo) (keep : gset string) (k : Z) : gset string :=
  match buckets !! k with Some b => keep ∪ {[BI_ID b]} | None => keep end.

Definition keepByInterval (backups : list BackupInfo) (keep : gset string) (count interval : Z) : gset string :=
  if count =? 0 then keep
  else
    let '(buckets, keys) := fill_buckets interval backups ∅ [] in
    foldl (keep_bucket buckets) keep (take (Z.to_nat count) (sort_by id (flip Z.le) keys)).

(** The ids a policy keeps of the backups given newest first. *)
Definition kept_ids (policy : RetentionPolicy) (backups : list BackupInfo) : gset string :=
  let keep := foldl (fun keep b => keep ∪ {[BI_ID b]}) ∅ (take (Z.to_nat (KeepLast policy)) backups) in
  let keep := keepByInterval backups keep (KeepHourly policy) Hour in
  let keep := keepByInterval backups keep (KeepDaily policy) (24 * Hour) in
  let keep := keepByInterval backups keep (KeepWeekly policy) (7 * 24 * Hour) in
  keepByInterval backups keep (KeepMonthly policy) (30 * 24 * Hour).

Definition no_rule (policy : RetentionPolicy) : bool :=
  (KeepLast policy =? 0) && (KeepHourly policy =? 0) && (KeepDaily policy =? 0) &&
  (KeepWeekly policy =? 0) && (KeepMonthly policy =? 0).

(** [fmt.Sscanf(s, "%d", &n)], 0 when nothing could be read. *)
Fixpoint take_while (p : ascii -> bool) (l : list ascii) : list ascii :=
  match l with c :: l' => if p c then c :: take_while p l' else [] | [] => [] end.
Definition sscanf_d (s : string) : Z :=
  let '(sign, l) := match bytes s with
                    | c :: l => if Ascii.eqb c "-" || Ascii.eqb c "+" then ([c], l) else ([], c :: l)
                    | [] => ([], [])
                    end in
  match ParseInt (of_bytes (sign ++ take_while is_digit l)) 64 with Ok n => n | Err _ => 0 end.

(** ** Hooks *)

Definition hookMetacharacters : string :=
  of_bytes (bytes "|&;`$(){}<>!\" ++ ["034"; "039"]%char).

Definition checkHookOwnership (euid : Z) (path : string) (info : FileInfo) : option error :=
  first_error
    [fail_if (Z.land (fi_perm info) 73 =? 0) (Errorf "hook script %s is not executable" [path]);
     fail_if (negb (Z.land (fi_perm info) 18 =? 0)) (Errorf "hook script %s must not be group- or world-writable" [path]);
     match fi_uid info with
     | Some uid => fail_if (negb (uid =? 0) && negb (uid =? euid))
                     (Errorf "hook script %s must be owned by root or the daemon user" [path])
     | None => None
     end].

Section manager.
Context {D W : Type} `{BackupStore D} `{Host W}.
Context (visit : gmap string (list BackupInfo) -> list (string * list BackupInfo)).
Context (sort_newest : list BackupInfo -> list BackupInfo).
Context (format_time format_rfc3339 : Z -> string) (error_text : error -> string).
Context (encode_info : BackupInfo -> result string) (decode_info : string -> result BackupInfo).

(** [DatasetResolver]; nil when the manager was given none. *)
Context (resolve : option (W -> string -> result string)).
Context (dataDir : string).

Record BackupManager := {
  configs : gmap string BackupConfig;
  backups : gmap string (list BackupInfo);
  schedules : gmap string nat;
  loops : gmap nat string;
  closed : list nat;
  next_chan : nat;
  bm_ds : option D;
  bm_host : W
}.

Definition NewBackupManager (ds : option D) (w : W) : BackupManager :=
  {| configs := ∅; backups := ∅; schedules := ∅; loops := ∅; closed := []; next_chan := 0; bm_ds := ds; bm_host := w |}.

Definition set_configs (bm : BackupManager) c : BackupManager :=
  {| configs := c; backups := backups bm; schedules := schedules bm; loops := loops bm; closed := closed bm;
     next_chan := next_chan bm; bm_ds := bm_ds bm; bm_host := bm_host bm |}.
Definition set_backups (bm : BackupManager) b : BackupManager :=
  {| configs := configs bm; backups := b; schedules := schedules bm; loops := loops bm; closed := closed bm;
     next_chan := next_chan bm; bm_ds := bm_ds bm; bm_host := bm_host bm |}.
Definition set_ds (bm : BackupManager) d : BackupManager :=
  {| configs := configs bm; backups := backups bm; schedules := schedules bm; loops := loops bm; closed := closed bm;
     next_chan := next_chan bm; bm_ds := d; bm_host := bm_host bm |}.
Definition set_host (bm : BackupManager) w : BackupManager :=
  {| configs := configs bm; backups := backups bm; schedules := schedules bm; loops := loops bm; closed := closed bm;
     next_chan := next_chan bm; bm_ds := bm_ds bm; bm_host := w |}.

(** ** Configuration and schedules *)

Definition GetConfig (bm : BackupManager) (instanceID : string) : option BackupConfig := configs bm !! instanceID.

Definition persistConfig (bm : BackupManager) (now : Z) (instanceID : string) (config : BackupConfig)
    : BackupManager * option error :=
  match bm_ds bm with
  | None => (bm, None)
  | Some d =>
      let '(d, err) := UpdateBackupConfig d now instanceID (Some (storedFromConfig config)) in
      (set_ds bm (Some d), wrap "failed to persist backup configuration for %s: %w" [instanceID] err)
  end.

(** [if stop, ok := bm.schedules[id]; ok { close(stop); delete(bm.schedules, id) }]. *)
Definition stop_schedule (bm : BackupManager) (instanceID : string) : BackupManager :=
  match schedules bm !! instanceID with
  | None => bm
  | Some ch =>
      {| configs := configs bm; backups := backups bm; schedules := delete instanceID (schedules bm);
         loops := loops bm; closed := closed bm ++ [ch]; next_chan := next_chan bm; bm_ds := bm_ds bm; bm_host := bm_host bm |}
  end.

(** A new stop channel and the goroutine [runSchedule], which returns at once
    when the schedule has no interval. *)
Definition start_schedule (bm : BackupManager) (instanceID schedule : string) : BackupManager :=
  let ch := next_chan bm in
  {| configs := configs bm; backups := backups bm; schedules := <[instanceID := ch]> (schedules bm);
     loops := if parseSchedule schedule =? 0 then loops bm else <[ch := instanceID]> (loops bm);
     closed := closed bm; next_chan := S ch; bm_ds := bm_ds bm; bm_host := bm_host bm |}.

Definition Configure (bm : BackupManager) (now : Z) (instanceID : string) (config : option BackupConfig)
    : BackupManager * option error :=
  match config with
  | None => (bm, Some (Errorf "backup configuration is required" []))
  | Some config =>
      match first_error
        [wrap "invalid instance id %q: %w" [instanceID] (ValidateInstanceName instanceID);
         fail_if (BC_Enabled config && negb (streq (BC_Schedule config) "") && (parseSchedule (BC_Schedule config) =? 0))
           (Errorf "invalid backup schedule %q: use hourly/daily/weekly/monthly or a Go duration like 6h" [BC_Schedule config]);
         ValidateCompression (BC_Compression config) (BC_Destination config)] with
      | Some e => (bm, Some e)
      | None =>
          let bm := stop_schedule bm instanceID in
          let bm := set_configs bm (<[instanceID := config]> (configs bm)) in
          let '(bm, err) := persistConfig bm now instanceID config in
          match err with
          | Some e => (bm, Some e)
          | None =>
              (if BC_Enabled config && negb (streq (BC_Schedule config) "")
               then start_schedule bm instanceID (BC_Schedule config) else bm, None)
          end
      end
  end.

Definition RemoveConfig (bm : BackupManager) (now : Z) (instanceID : string) : BackupManager :=
  let bm := stop_schedule bm instanceID in
  let bm := set_configs bm (delete instanceID (configs bm)) in
  match bm_ds bm with
  | Some d => set_ds bm (Some (UpdateBackupConfig d now instanceID None).1)
  | None => bm
  end.

(** [Stop] waits for every goroutine to exit, so none is left when it returns. *)
Definition Stop (bm : BackupManager) : BackupManager :=
  {| configs := configs bm; backups := backups bm; schedules := ∅; loops := ∅;
     closed := closed bm ++ (map_to_list (schedules bm)).*2; next_chan := next_chan bm;
     bm_ds := bm_ds bm; bm_host := bm_host bm |}.

(** ** Records *)

Definition persistBackup (bm : BackupManager) (now : Z) (info : BackupInfo) : BackupManager :=
  match bm_ds bm with
  | None => bm
  | Some d =>
      match encode_info info with
      | Err _ => bm
      | Ok record => set_ds bm (Some (SaveBackupRecord d now (BI_ID info) (BI_InstanceID info) record).1)
      end
  end.

Definition records (bm : BackupManager) (instanceID : string) : list BackupInfo := default [] (backups bm !! instanceID).

Definition addBackup (bm : BackupManager) (now : Z) (instanceID : string) (info : BackupInfo) : BackupManager :=
  persistBackup (set_backups bm (<[instanceID := records bm instanceID ++ [info]]> (backups bm))) now info.

Definition Seed := addBackup.

(** The first record with the id, in the order the map is visited: its instance
    and its position. *)
Fixpoint find_entry (entries : list (string * list BackupInfo)) (backupID : string) : option (string * nat * BackupInfo) :=
  match entries with
  | [] => None
  | (k, l) :: rest =>
      match list_find (fun b => BI_ID b = backupID) l with
      | Some (i, b) => Some (k, i, b)
      | None => find_entry rest backupID
      end
  end.

Definition findBackup (bm : BackupManager) (backupID : string) : option BackupInfo :=
  snd <$> find_entry (visit (backups bm)) backupID.

Definition GetBackup (bm : BackupManager) (backupID : string) : option BackupInfo := findBackup bm backupID.
Definition ListBackups (bm : BackupManager) (instanceID : string) : list BackupInfo := records bm instanceID.
Definition ListAllBackups (bm : BackupManager) : list BackupInfo := flat_map snd (visit (backups bm)).

(** [baseReferenceLocked]. *)
Definition baseReference (bm : BackupManager) (b : BackupInfo) : option BackupInfo :=
  if streq (BI_Dataset b) "" || streq (BI_SnapshotName b) "" then None
  else List.find (fun other => negb (streq (BI_ID other) (BI_ID b)) && streq (BI_BaseSnapshot other) (snap_of b))
         (ListAllBackups bm).

Definition isIncrementalBase (bm : BackupManager) (b : BackupInfo) : bool :=
  match baseReference bm b with Some _ => true | None => false end.

Definition datasetFor (bm : BackupManager) (instanceID : string) : result string :=
  match resolve with
  | None => Err (Errorf "no dataset resolver configured; cannot locate the storage of instance %s" [instanceID])
  | Some f =>
      match f (bm_host bm) instanceID with
      | Err e => Err e
      | Ok dataset => if streq dataset "" then Err (Errorf "instance %s has no dataset to back up" [instanceID]) else Ok dataset
      end
  end.

(** [findPreviousSnapshot]: the newest completed stream, the later one on a tie. *)
Definition has_stream (b : BackupInfo) : bool :=
  bool_decide (BI_Status b = BackupStatusCompleted) && negb (streq (BI_Dataset b) "") && negb (streq (BI_Location b) "")
  && (bool_decide (BI_Type b = BackupTypeFull) || bool_decide (BI_Type b = BackupTypeIncr)).

Definition newer (newest : option BackupInfo) (b : BackupInfo) : option BackupInfo :=
  if has_stream b then
    match newest with
    | Some n => if BI_CreatedAt b <? BI_CreatedAt n then newest else Some b
    | None => Some b
    end
  else newest.

Definition findPreviousSnapshot (bm : BackupManager) (instanceID : string) : string :=
  match foldl newer None (records bm instanceID) with
  | Some n => snap_of n
  | None => ""
  end.

(** ** Hooks *)

Definition allowedHookDirs : list string :=
  "/usr/local/etc/hospitus/hooks" ::
  (if streq dataDir "" then [] else [of_bytes (Join (bytes dataDir) (bytes "hooks"))]).

Definition hook_roots (w : W) : list string :=
  map (fun dir => match EvalSymlinks w dir with Ok r => r | Err _ => dir end) allowedHookDirs.

Definition hook_within (roots : list string) (p : string) : bool :=
  existsb (fun dir => streq p dir || HasPrefix p (dir +:+ "/")) roots.

Definition validateHookPath (w : W) (hook : string) : result string :=
  if ContainsAny hook hookMetacharacters then Err (Errorf "hook contains shell metacharacters; only script paths are allowed" [])
  else if HasPrefix hook "-" then Err (Errorf "hook must be an absolute path, not a flag" [])
  else if negb (IsAbs (bytes hook)) then Err (Errorf "hook must be an absolute path, got: %s" [hook])
  else
    let cleaned := of_bytes (Clean (bytes hook)) in
    match Lstat w cleaned with
    | Err _ => Err (Errorf "hook script not found: %s" [cleaned])
    | Ok _ =>
        match EvalSymlinks w cleaned with
        | Err _ => Err (Errorf "hook path cannot be resolved: %s" [cleaned])
        | Ok resolved =>
            if negb (hook_within (hook_roots w) resolved) then
              if negb (streq resolved cleaned)
              then Err (Errorf "hook resolves outside allowed directories: %s → %s" [cleaned; resolved])
              else Err (Errorf "hook script must be under an allowed hooks directory (got: %s)" [resolved])
            else
              match Stat w resolved with
              | Err _ => Err (Errorf "hook script not found: %s" [resolved])
              | Ok finfo =>
                  if negb (fi_regular finfo)
                  then Err (Errorf "hook must be a regular file, not a directory or special file: %s" [cleaned])
                  else match checkHookOwnership (Geteuid w) resolved finfo with
                       | Some e => Err e
                       | None => Ok resolved
                       end
              end
        end
    end.

Definition hook_command (now : Z) (script instanceID : string) : cmd :=
  {| argv := [script];
     cmd_env := Some ["PATH=/usr/local/sbin:/usr/local/bin:/usr/sbin:/usr/bin:/sbin:/bin";
                      "HOSPITUS_INSTANCE_ID=" +:+ instanceID; "HOSPITUS_BACKUP_TIME=" +:+ format_rfc3339 now];
     cmd_stdin := None; cmd_stdout := None |}.

Definition runHook (w : W) (now : Z) (hook instanceID : string) : W * option error :=
  match validateHookPath w hook with
  | Err e => (w, Some e)
  | Ok cleaned => let '(w, x) := exec w (hook_command now cleaned instanceID) in (w, ex_err x)
  end.

(** ** zfs *)

Definition destroySnapshotErr (w : W) (dataset snapshot : string) : W * option error :=
  let '(w, x) := exec w (Command ["zfs"; "destroy"; "-r"; snap_name dataset snapshot]) in
  (w, match ex_err x with
      | None => None
      | Some e =>
          if Contains (ToLower (ex_combined x)) "does not exist" then None
          else Some (Wrapf "failed to delete snapshot %s: %w (%s)" [snap_name dataset snapshot; TrimSpace (ex_combined x)] e)
      end).

Definition getSnapshotSize (w : W) (dataset snapshotName : string) : W * result Z :=
  let '(w, x) := exec w (Command ["zfs"; "list"; "-Hp"; "-o"; "referenced"; snap_name dataset snapshotName]) in
  (w, match ex_err x with Some e => Err e | None => Ok (sscanf_d (TrimSpace (ex_stdout x))) end).

Definition estimateSendSize (w : W) (sendArgs : list string) : W * result Z :=
  let '(w, x) := exec w (Command ("zfs" :: "send" :: "-nvP" :: tail sendArgs)) in
  (w, match ex_err x with Some e => Err e | None => parseSendSize (ex_stdout x) end).

Definition backupSize (w : W) (location : string) (snapshotSize : Z) : Z :=
  if streq location "" then snapshotSize
  else match Stat w location with
       | Ok info => if negb (fi_isdir info) then fi_size info else snapshotSize
       | Err _ => snapshotSize
       end.

Definition measure_local (w : W) (location dataset snapshotName : string) : W * Z :=
  let '(w, size) := getSnapshotSize w dataset snapshotName in
  (w, backupSize w location (match size with Ok n => n | Err _ => 0 end)).

Definition measureBackup (w : W) (sendArgs : list string) (location dataset snapshotName : string) : W * Z :=
  if negb (streq location "") && Contains location ":" then
    let '(w, est) := estimateSendSize w sendArgs in
    match est with
    | Ok size => (w, size)
    | Err _ => measure_local w location dataset snapshotName
    end
  else measure_local w location dataset snapshotName.

(** ** Streams *)

Definition runThroughCompressor (w : W) (sendArgs compressor : list string) (file : string) : W * option error :=
  let name := default "" (head compressor) in
  let '(w, p) := pipeline w (Command ("zfs" :: sendArgs)) (CommandTo compressor file) in
  (w, match p with
      | NoPipe e => Some (Wrapf "failed to create pipe: %w" [] e)
      | ConsumerNotStarted e => Some (Wrapf "failed to start %s: %w" [name] e)
      | ProducerNotStarted e _ => Some (Wrapf "failed to start zfs send: %w" [] e)
      | BothWaited (Some e) _ out _ => Some (Wrapf "zfs send failed: %w (%s)" [TrimSpace out] e)
      | BothWaited None (Some e) _ out => Some (Wrapf "%s failed: %w (%s)" [name; TrimSpace out] e)
      | BothWaited None None _ _ => None
      end).

Definition stream_path (dir backupID ext : string) : string := of_bytes (Join (bytes dir) (bytes (backupID +:+ ".zfs" +:+ ext))).

Definition streamToFile (w : W) (sendArgs : list string) (dir backupID compression : string) : W * result string :=
  match ValidateFilePath dir true with
  | Some e => (w, Err (Wrapf "invalid backup destination %q: %w" [dir] e))
  | None =>
  if negb (IsAbs (bytes dir)) then (w, Err (Errorf "backup destination %q must be an absolute path or host:path" [dir])) else
  let '(w, err) := MkdirAll w dir in
  match err with
  | Some e => (w, Err (Wrapf "cannot create backup destination %q: %w" [dir] e))
  | None =>
  let comp := compressorFor compression in
  match match comp with Some (_, c) => LookPath w (default "" (head c)) | None => None end with
  | Some e => (w, Err (Wrapf "compression %q needs %s, which is not installed: %w"
                         [compression; default "" (match comp with Some (_, c) => head c | None => None end)] e))
  | None =>
  let path := stream_path dir backupID (match comp with Some (ext, _) => ext | None => "" end) in
  let '(w, err) := CreateExcl w path in
  match err with
  | Some e => (w, Err (Wrapf "cannot create backup file %q: %w" [path] e))
  | None =>
  let '(w, runErr, stderr) :=
    match comp with
    | Some (_, c) => let '(w, err) := runThroughCompressor w sendArgs c path in (w, err, "")
    | None => let '(w, x) := exec w (CommandTo ("zfs" :: sendArgs) path) in (w, ex_err x, ex_stderr x)
    end in
  let '(w, closeErr) := Close w path in
  match runErr, closeErr with
  | Some e, _ => ((Remove w path).1, Err (Wrapf "zfs send failed: %w (%s)" [TrimSpace stderr] e))
  | None, Some e => ((Remove w path).1, Err (Wrapf "cannot finish writing %q: %w" [path] e))
  | None, None => (w, Ok path)
  end end end end end.

(** The location, or the error with the output that goes into the record. *)
Definition runPipeline (w : W) (sendArgs : list string) (config : BackupConfig) (backupID : string)
    : W * string * result string :=
  if streq (BC_Destination config) "" then
    (w, "", Err (Errorf "a full or incremental backup needs a destination: a local directory, or host:path for a remote pool" []))
  else if negb (Contains (BC_Destination config) ":") then
    let '(w, r) := streamToFile w sendArgs (BC_Destination config) backupID (BC_Compression config) in (w, "", r)
  else
    match ValidateSSHDestination (BC_Destination config) with
    | Err e => (w, "", Err (Wrapf "invalid backup destination: %w" [] e))
    | Ok (sshHost, remotePath) =>
        let '(w, p) := pipeline w (Command ("zfs" :: sendArgs)) (Command ["ssh"; "--"; sshHost; "zfs"; "receive"; "-F"; remotePath]) in
        match p with
        | NoPipe e => (w, "", Err (Wrapf "failed to create pipe: %w" [] e))
        | ConsumerNotStarted e => (w, "", Err (Wrapf "failed to start ssh: %w" [] e))
        | ProducerNotStarted e out => (w, out, Err (Wrapf "failed to start zfs send: %w" [] e))
        | BothWaited (Some e) _ _ out => (w, out, Err (Wrapf "zfs send failed: %w" [] e))
        | BothWaited None (Some e) _ out => (w, out, Err (Wrapf "ssh zfs receive failed: %w" [] e))
        | BothWaited None None _ out => (w, out, Ok (BC_Destination config))
        end
    end.

Definition runThroughDecompressor (w : W) (decompressor : list string) (file : string) (recv : list string)
    : W * string * option error :=
  let name := default "" (head decompressor) in
  match LookPath w name with
  | Some e => (w, "", Some (Wrapf "this backup needs %s to be read, which is not installed: %w" [name] e))
  | None =>
      let '(w, p) := pipeline w (CommandFrom decompressor file) (Command recv) in
      match p with
      | NoPipe e => (w, "", Some (Wrapf "failed to create pipe: %w" [] e))
      | ConsumerNotStarted e => (w, "", Some (Wrapf "failed to start zfs receive: %w" [] e))
      | ProducerNotStarted e _ => (w, "", Some (Wrapf "failed to start %s: %w" [name] e))
      | BothWaited (Some e) _ pout out => (w, out, Some (Wrapf "%s failed: %w (%s)" [name; TrimSpace pout] e))
      | BothWaited None (Some e) _ out => (w, out, Some (Wrapf "zfs receive failed: %w" [] e))
      | BothWaited None None _ out => (w, out, None)
      end
  end.

Definition runRestorePipeline (w : W) (recv : list string) (source snapshot : string) : W * string * option error :=
  if negb (Contains source ":") then
    match OpenRead w source with
    | Some e => (w, "", Some (Wrapf "cannot read backup stream %q: %w" [source] e))
    | None =>
        match decompressorFor source with
        | None => let '(w, x) := exec w (CommandFrom recv source) in (w, ex_combined x, ex_err x)
        | Some d => runThroughDecompressor w d source recv
        end
    end
  else
    match ValidateSSHDestination source with
    | Err e => (w, "", Some (Wrapf "invalid restore source: %w" [] e))
    | Ok (sshHost, remotePath) =>
        if streq snapshot "" then
          (w, "", Some (Errorf "backup records no snapshot name; a remote restore cannot select what to send" []))
        else match ValidateSnapshotName snapshot with
        | Some e => (w, "", Some (Wrapf "invalid snapshot name %q: %w" [snapshot] e))
        | None =>
            let '(w, p) := pipeline w (Command ["ssh"; "--"; sshHost; "zfs"; "send"; snap_name remotePath snapshot]) (Command recv) in
            match p with
            | NoPipe e => (w, "", Some (Wrapf "failed to create pipe: %w" [] e))
            | ConsumerNotStarted e => (w, "", Some (Wrapf "failed to start zfs receive: %w" [] e))
            | ProducerNotStarted e out => (w, out, Some (Wrapf "failed to start ssh: %w" [] e))
            | BothWaited (Some e) _ _ out => (w, out, Some (Wrapf "ssh zfs send failed: %w" [] e))
            | BothWaited None (Some e) _ out => (w, out, Some (Wrapf "zfs receive failed: %w" [] e))
            | BothWaited None None _ out => (w, out, None)
            end
        end
    end.

(** ** Deletion and retention *)

Definition removeBackupData (w : W) (b : BackupInfo) : W * option error :=
  let '(w, err) := if negb (streq (BI_Dataset b) "") && negb (streq (BI_SnapshotName b) "")
                   then destroySnapshotErr w (BI_Dataset b) (BI_SnapshotName b) else (w, None) in
  match err with
  | Some e => (w, Some e)
  | None =>
      if negb (streq (BI_Location b) "") && negb (Contains (BI_Location b) ":") then
        let '(w, err) := Remove w (BI_Location b) in
        (w, match err with
            | Some e => if errors_Is e ErrNotExist then None
                        else Some (Wrapf "failed to delete backup stream %s: %w" [BI_Location b] e)
            | None => None
            end)
      else (w, None)
  end.

Definition DeleteBackup (bm : BackupManager) (backupID : string) : BackupManager * option error :=
  match find_entry (visit (backups bm)) backupID with
  | None => (bm, Some (Errorf "backup not found: %s" [backupID]))
  | Some (instanceID, i, target) =>
      match baseReference bm target with
      | Some ref => (bm, Some (Errorf "backup %s is the base of incremental backup %s; delete that one first" [backupID; BI_ID ref]))
      | None =>
          let bm := set_backups bm (<[instanceID := delete i (records bm instanceID)]> (backups bm)) in
          let '(w, err) := removeBackupData (bm_host bm) target in
          let bm := set_host bm w in
          match err with
          | Some e => (set_backups bm (<[instanceID := records bm instanceID ++ [target]]> (backups bm)), Some e)
          | None =>
              match bm_ds bm with
              | None => (bm, None)
              | Some d =>
                  let '(d, err) := DeleteBackupRecord d backupID in
                  (set_ds bm (Some d), wrap "backup deleted but its record remains: %w" [] err)
              end
          end
      end
  end.

(** One turn of the loop over the backups that may go. *)
Definition prune_one (now : Z) (policy : RetentionPolicy) (keep : gset string) (bm : BackupManager) (b : BackupInfo)
    : BackupManager :=
  if bool_decide (BI_ID b ∈ keep) then bm
  else if (0 <? MinAge policy) && (now - BI_CreatedAt b <? MinAge policy) then bm
  else if isIncrementalBase bm b then bm
  else (DeleteBackup bm (BI_ID b)).1.

Definition applyRetention (bm : BackupManager) (now : Z) (instanceID : string) (policy : RetentionPolicy) : BackupManager :=
  if no_rule policy then bm
  else
    let backups := sort_newest (records bm instanceID) in
    foldl (prune_one now policy (kept_ids policy backups)) bm backups.

(** ** Creation *)

(** The clock as an operation reads it: for the name, for [CreatedAt], for the
    hooks, when the backup is done, when it is saved and when old ones are pruned. *)
Record clock := { c_stamp : Z; c_created : Z; c_hook : Z; c_done : Z; c_save : Z; c_prune : Z }.

Definition new_info (c : clock) (instanceID dataset destination : string) (ty : BackupType) : BackupInfo :=
  {| BI_ID := instanceID +:+ "-" +:+ format_time (c_stamp c); BI_InstanceID := instanceID; BI_Type := ty;
     BI_Status := BackupStatusRunning; BI_CreatedAt := c_created c; BI_CompletedAt := 0; BI_Size := 0;
     BI_SnapshotName := "hospitus-backup-" +:+ format_time (c_stamp c); BI_Dataset := dataset;
     BI_Destination := destination; BI_Location := ""; BI_Compressed := false; BI_Encrypted := false;
     BI_Error := ""; BI_Verified := false; BI_BaseSnapshot := "" |}.

(** The record of a failed backup, kept so that the failure is reported. *)
Definition fail_backup (bm : BackupManager) (c : clock) (info : BackupInfo) (msg : string) (e : error)
    : BackupManager * option BackupInfo * option error :=
  let info := with_outcome BackupStatusFailed msg info in
  (addBackup bm (c_save c) (BI_InstanceID info) info, Some info, Some e).

Definition run_hook_if (bm : BackupManager) (now : Z) (hook instanceID : string) : BackupManager * option error :=
  if streq hook "" then (bm, None)
  else let '(w, err) := runHook (bm_host bm) now hook instanceID in (set_host bm w, err).

(** The pre-backup hook and the snapshot, common to both kinds; the record
    with its failure when one of them fails. *)
Definition take_snapshot (bm : BackupManager) (c : clock) (pre : string) (info : BackupInfo)
    : BackupManager * option (BackupInfo * error) :=
  let '(bm, err) := run_hook_if bm (c_hook c) pre (BI_InstanceID info) in
  match err with
  | Some e => let info := with_outcome BackupStatusFailed ("pre-backup hook failed: " +:+ error_text e) info in
              (addBackup bm (c_save c) (BI_InstanceID info) info, Some (info, e))
  | None =>
      let '(w, x) := exec (bm_host bm) (Command ["zfs"; "snapshot"; "-r"; snap_of info]) in
      let bm := set_host bm w in
      match ex_err x with
      | Some e =>
          let info := with_outcome BackupStatusFailed
                        ("zfs snapshot failed: " +:+ error_text e +:+ " (" +:+ TrimSpace (ex_combined x) +:+ ")") info in
          (addBackup bm (c_save c) (BI_InstanceID info) info, Some (info, Wrapf "failed to create snapshot: %w" [] e))
      | None => (bm, None)
      end
  end.

Definition CreateSnapshot (bm : BackupManager) (c : clock) (instanceID : string)
    : BackupManager * option BackupInfo * option error :=
  match datasetFor bm instanceID with
  | Err e => (bm, None, Some e)
  | Ok dataset =>
      let info := new_info c instanceID dataset "" BackupTypeSnapshot in
      let config := GetConfig bm instanceID in
      let '(bm, failed) := take_snapshot bm c (match config with Some cf => BC_PreBackupHook cf | None => "" end) info in
      match failed with
      | Some (info, e) => (bm, Some info, Some e)
      | None =>
          let '(w, size) := getSnapshotSize (bm_host bm) dataset (BI_SnapshotName info) in
          let info := with_data "" false (match size with Ok n => n | Err _ => 0 end) info in
          let '(bm, _) := run_hook_if (set_host bm w) (c_hook c)
                            (match config with Some cf => BC_PostBackupHook cf | None => "" end) instanceID in
          let info := with_completion (c_done c) info in
          let bm := addBackup bm (c_save c) instanceID info in
          let bm := match config with Some cf => applyRetention bm (c_prune c) instanceID (BC_Retention cf) | None => bm end in
          (bm, Some info, None)
      end
  end.

(** The arguments of [zfs send], and the record with what they chain onto. *)
Definition send_plan (bm : BackupManager) (instanceID : string) (backupType : BackupType) (info : BackupInfo)
    : list string * BackupInfo :=
  if bool_decide (backupType = BackupTypeIncr) then
    let prev := findPreviousSnapshot bm instanceID in
    if streq prev "" then (["send"; "-R"; snap_of info], with_stream BackupTypeFull "" info)
    else (["send"; "-R"; "-i"; prev; snap_of info], with_stream BackupTypeIncr prev info)
  else (["send"; "-R"; snap_of info], info).

Definition CreateBackup (bm : BackupManager) (c : clock) (instanceID : string) (backupType : BackupType)
    : BackupManager * option BackupInfo * option error :=
  match ValidateInstanceName instanceID with
  | Some e => (bm, None, Some (Wrapf "invalid instance id %q: %w" [instanceID] e))
  | None =>
  match GetConfig bm instanceID with
  | None => (bm, None, Some (Errorf "no backup configuration for instance %s" [instanceID]))
  | Some config =>
  match datasetFor bm instanceID with
  | Err e => (bm, None, Some e)
  | Ok dataset =>
      let info := new_info c instanceID dataset (BC_Destination config) backupType in
      let '(bm, failed) := take_snapshot bm c (BC_PreBackupHook config) info in
      match failed with
      | Some (info, e) => (bm, Some info, Some e)
      | None =>
          let '(sendArgs, info) := send_plan bm instanceID backupType info in
          let '(w, output, r) := runPipeline (bm_host bm) sendArgs config (BI_ID info) in
          match r with
          | Err e =>
              let '(w, _) := destroySnapshotErr w dataset (BI_SnapshotName info) in
              fail_backup (set_host bm w) c info
                ("backup failed: " +:+ error_text e +:+ " (" +:+ TrimSpace output +:+ ")") (Wrapf "backup failed: %w" [] e)
          | Ok location =>
              let '(w, size) := measureBackup w sendArgs location dataset (BI_SnapshotName info) in
              let info := with_data location (match decompressorFor location with Some _ => true | None => false end) size info in
              let '(bm, _) := run_hook_if (set_host bm w) (c_hook c) (BC_PostBackupHook config) instanceID in
              let info := with_completion (c_done c) info in
              let bm := addBackup bm (c_save c) instanceID info in
              (applyRetention bm (c_prune c) instanceID (BC_Retention config), Some info, None)
          end
      end
  end end end.

(** ** Restoring and verifying *)

Definition zfs_has (w : W) (name : string) : W * bool :=
  let '(w, x) := exec w (Command ["zfs"; "list"; "-H"; name]) in (w, succeeded x).

(** What has to hold of an incremental backup before it is received. *)
Definition check_base (w : W) (b : BackupInfo) (targetDataset : string) : W * option error :=
  if streq (BI_BaseSnapshot b) "" then
    (w, Some (Errorf "backup %s is incremental but records no base snapshot; it cannot be restored" [BI_ID b]))
  else match Cut (BI_BaseSnapshot b) "@" with
  | None => (w, Some (Errorf "backup %s records an unusable base %q" [BI_ID b; BI_BaseSnapshot b]))
  | Some (_, snap) =>
      let '(w, there) := zfs_has w (snap_name targetDataset snap) in
      (w, fail_if (negb there) (Errorf "backup %s is incremental on %s, which %s does not have; restore its base first"
                                  [BI_ID b; BI_BaseSnapshot b; targetDataset]))
  end.

Definition restore_from (w : W) (b : BackupInfo) (targetInstanceID targetDataset : string) : W * option error :=
  match BI_Type b with
  | BackupTypeSnapshot =>
      if streq (BI_InstanceID b) targetInstanceID then
        let '(w, x) := exec w (Command ["zfs"; "rollback"; "-r"; snap_of b]) in
        (w, wrap "rollback failed: %w (%s)" [TrimSpace (ex_combined x)] (ex_err x))
      else
        let '(w, x) := exec w (Command ["zfs"; "clone"; snap_of b; targetDataset]) in
        (w, wrap "clone failed: %w (%s)" [TrimSpace (ex_combined x)] (ex_err x))
  | BackupTypeFull | BackupTypeIncr =>
      if streq (BI_Location b) "" then
        (w, Some (Errorf "backup %s records no location; nothing was written for it to restore from" [BI_ID b]))
      else
        let '(w, err) := if bool_decide (BI_Type b = BackupTypeIncr) then check_base w b targetDataset else (w, None) in
        match err with
        | Some e => (w, Some e)
        | None =>
            let '(w, output, err) := runRestorePipeline w ["zfs"; "receive"; "-F"; targetDataset] (BI_Location b) (BI_SnapshotName b) in
            (w, wrap "restore failed: %w (%s)" [TrimSpace output] err)
        end
  | BackupTypeOther ty => (w, Some (Errorf "backup %s has an unknown type %q; nothing was restored" [BI_ID b; ty]))
  end.

Definition Restore (bm : BackupManager) (backupID targetInstanceID : string) : BackupManager * option error :=
  match findBackup bm backupID with
  | None => (bm, Some (Errorf "backup not found: %s" [backupID]))
  | Some b =>
      if streq (BI_Dataset b) "" then
        (bm, Some (Errorf "backup %s records no dataset; it predates dataset tracking and cannot be restored" [backupID]))
      else match datasetFor bm targetInstanceID with
      | Err e => (bm, Some e)
      | Ok targetDataset =>
          let '(w, err) := restore_from (bm_host bm) b targetInstanceID targetDataset in (set_host bm w, err)
      end
  end.

Definition verifyRawStream (w : W) (b : BackupInfo) : W * option error :=
  match LookPath w "zstream" with
  | Some _ => (w, None)
  | None =>
      let '(w, x) := exec w (Command ["zstream"; "dump"; BI_Location b]) in
      (w, wrap "backup %s is damaged: %w (%s)" [BI_ID b; TrimSpace (ex_stderr x)] (ex_err x))
  end.

Definition verifyStream (w : W) (b : BackupInfo) : W * option error :=
  if streq (BI_Location b) "" then (w, Some (Errorf "backup %s records no location and cannot be verified" [BI_ID b]))
  else if Contains (BI_Location b) ":" then (w, Some (Errorf "backup %s was sent to %s; verify it there" [BI_ID b; BI_Location b]))
  else match Stat w (BI_Location b) with
  | Err e => (w, Some (Wrapf "backup %s: %w" [BI_ID b] e))
  | Ok info =>
      if fi_size info =? 0 then (w, Some (Errorf "backup %s is empty" [BI_ID b]))
      else match integrityTestFor (BI_Location b) with
      | None => verifyRawStream w b
      | Some test =>
          let '(w, x) := exec w (Command (test ++ [BI_Location b])) in
          (w, wrap "backup %s is damaged: %w (%s)" [BI_ID b; TrimSpace (ex_combined x)] (ex_err x))
      end
  end.

Definition verifyBase (w : W) (b : BackupInfo) : W * option error :=
  if streq (BI_BaseSnapshot b) "" then (w, None)
  else let '(w, there) := zfs_has w (BI_BaseSnapshot b) in
       (w, fail_if (negb there) (Errorf "incremental backup %s was sent against %s, which no longer exists" [BI_ID b; BI_BaseSnapshot b])).

Definition verify_data (w : W) (b : BackupInfo) : W * option error :=
  match BI_Type b with
  | BackupTypeSnapshot =>
      if streq (BI_Dataset b) "" then (w, Some (Errorf "backup %s records no dataset and cannot be verified" [BI_ID b]))
      else let '(w, there) := zfs_has w (snap_of b) in
           (w, fail_if (negb there) (Errorf "snapshot verification failed: snapshot not found" []))
  | _ =>
      let '(w, err) := verifyStream w b in
      match err with
      | Some e => (w, Some e)
      | None => if bool_decide (BI_Type b = BackupTypeIncr) then verifyBase w b else (w, None)
      end
  end.

Definition VerifyBackup (bm : BackupManager) (now : Z) (backupID : string) : BackupManager * option error :=
  match find_entry (visit (backups bm)) backupID with
  | None => (bm, Some (Errorf "backup not found: %s" [backupID]))
  | Some (instanceID, i, b) =>
      let '(w, err) := verify_data (bm_host bm) b in
      let bm := set_host bm w in
      match err with
      | Some e => (bm, Some e)
      | None =>
          let bm := set_backups bm (<[instanceID := alter with_verified i (records bm instanceID)]> (backups bm)) in
          (persistBackup bm now (with_verified b), None)
      end
  end.

(** ** Start-up *)

Definition reload_config (now : Z) (bm : BackupManager) (p : string * option InstanceBackupConfig) : BackupManager :=
  match p.2 with
  | None => bm
  | Some stored => (Configure bm now p.1 (Some (configFromStored stored))).1
  end.

Definition reload_record (bm : BackupManager) (r : BackupRecord) : BackupManager :=
  match decode_info (BR_Record r) with
  | Err _ => bm
  | Ok info => set_backups bm (<[BR_InstanceID r := records bm (BR_InstanceID r) ++ [info]]> (backups bm))
  end.

Definition reload (bm : BackupManager) (now : Z) : BackupManager * option error :=
  match bm_ds bm with
  | None => (bm, None)
  | Some d =>
      let '(d, instances) := ListBackupConfigs d in
      let bm := set_ds bm (Some d) in
      match instances with
      | Err e => (bm, Some (Wrapf "failed to read backup configurations: %w" [] e))
      | Ok l =>
          let bm := foldl (reload_config now) bm l in
          match bm_ds bm with
          | None => (bm, None)
          | Some d =>
              let '(d, recs) := ListBackupRecords d in
              let bm := set_ds bm (Some d) in
              match recs with
              | Err e => (bm, Some (Wrapf "failed to read backup records: %w" [] e))
              | Ok l => (foldl reload_record bm l, None)
              end
          end
      end
  end.

Definition Start := reload.

(** ** Everything interleaved

    Callers, and the schedule goroutines: each tick takes a snapshot, and a loop
    whose channel is closed may exit (the select may still choose a tick first).
    [allowed] says at which times backups are made. *)
Inductive bstep (allowed : BackupManager -> clock -> string -> Prop) : BackupManager -> BackupManager -> Prop :=
  | s_configure bm now id config : bstep allowed bm (Configure bm now id config).1
  | s_remove bm now id : bstep allowed bm (RemoveConfig bm now id)
  | s_snapshot bm c id : allowed bm c id -> bstep allowed bm (CreateSnapshot bm c id).1.1
  | s_backup bm c id ty : allowed bm c id -> bstep allowed bm (CreateBackup bm c id ty).1.1
  | s_delete bm id : bstep allowed bm (DeleteBackup bm id).1
  | s_verify bm now id : bstep allowed bm (VerifyBackup bm now id).1
  | s_restore bm id target : bstep allowed bm (Restore bm id target).1
  | s_stop bm : bstep allowed bm (Stop bm)
  | s_tick bm ch id c : loops bm !! ch = Some id -> allowed bm c id -> bstep allowed bm (CreateSnapshot bm c id).1.1
  | s_exit bm ch : ch ∈ closed bm ->
      bstep allowed bm {| configs := configs bm; backups := backups bm; schedules := schedules bm; loops := delete ch (loops bm);
                  closed := closed bm; next_chan := next_chan bm; bm_ds := bm_ds bm; bm_host := bm_host bm |}.
End manager.

Arguments BackupManager D W : clear implicits.
