(* ===== verification/BackupFacts.v ===== *)
(** * Properties of the backup manager

    Chains of incremental backups stay complete under every operation, retention
    keeps what its policy asks for, hooks that run are confined, and schedules
    are started and stopped in pairs. *)

From stdpp Require Import base list gmap strings sorting relations.
From Stdlib Require Import Ascii ZArith Lia.
From S2P Require Import Prelude GoStrings GoText GoTime GoDuration GoPath Host Validation Backup.

Local Open Scope Z_scope.

(** ** Chains

    A stream can be restored from stored files when it is a full one, or when
    it is incremental on the snapshot of a stream that can. *)
Inductive chain (recs : list BackupInfo) : BackupInfo -> Prop :=
  | chain_full b : b ∈ recs -> BI_Type b = BackupTypeFull -> chain recs b
  | chain_incr b base : b ∈ recs -> BI_Type b = BackupTypeIncr -> has_stream base = true ->
      snap_of base = BI_BaseSnapshot b -> chain recs base -> chain recs b.

Lemma chain_elem recs b : chain recs b -> b ∈ recs.
Proof. by destruct 1. Qed.

Lemma chain_mono recs recs' b : recs ⊆ recs' -> chain recs b -> chain recs' b.
Proof. intros Hs. induction 1; [by apply chain_full; auto|by eapply chain_incr; eauto]. Qed.

(** All records of the manager. *)
Definition all_records (m : gmap string (list BackupInfo)) : list BackupInfo := flat_map snd (map_to_list m).

Record records_ok (recs : list BackupInfo) : Prop := {
  ok_ids : NoDup (map BI_ID recs);
  ok_names : Forall (fun b => BI_SnapshotName b <> "") recs;
  ok_chains : forall b, b ∈ recs -> has_stream b = true -> chain recs b
}.

#[export] Instance records_ok_proper : Proper ((≡ₚ) ==> iff) records_ok.
Proof.
  assert (forall l k, l ≡ₚ k -> records_ok l -> records_ok k) as Himp.
  { intros l k Hp [H1 H2 H3]. split.
    - by rewrite <- Hp.
    - by rewrite <- Hp.
    - intros b Hb Hs. eapply chain_mono; [|apply H3; [by rewrite Hp|done]]. intros x. by rewrite Hp. }
  intros l k Hp. split; apply Himp; done.
Qed.

Lemma same_id_eq recs a b : NoDup (map BI_ID recs) -> a ∈ recs -> b ∈ recs -> BI_ID a = BI_ID b -> a = b.
Proof.
  intros Hnd [i Hi]%list_elem_of_lookup [j Hj]%list_elem_of_lookup Heq.
  assert (i = j) as ->; [|congruence].
  eapply (NoDup_lookup (map BI_ID recs)); [done| |]; change (map BI_ID recs) with (BI_ID <$> recs);
    rewrite list_lookup_fmap; [rewrite Hi; reflexivity|rewrite Hj; simpl; by rewrite Heq].
Qed.

(** Removing a record nothing chains onto leaves every other chain whole. *)
Lemma records_ok_remove t recs :
  records_ok (t :: recs) -> (has_stream t = true -> forall b, b ∈ recs -> BI_BaseSnapshot b <> snap_of t) -> records_ok recs.
Proof.
  intros [H1 H2 H3] Hfree. simpl in H1. apply NoDup_cons in H1 as [Hid Hnd]. inversion_clear H2.
  split; [done|done|]. intros b Hb Hs. specialize (H3 b ltac:(by right) Hs). revert Hb.
  assert (forall x, x ∈ recs -> x <> t) as Hne.
  { intros x Hx ->. apply Hid. by apply list_elem_of_fmap_2. }
  clear Hs. induction H3 as [b Hb Hf|b base Hb Hi Hst Hsn Hc IH]; intros Hin; [by apply chain_full|].
  apply (chain_incr _ b base); try done. apply IH.
  apply chain_elem, elem_of_cons in Hc as [->|]; [|done]. exfalso. by eapply Hfree.
Qed.

Definition extends (recs : list BackupInfo) (b : BackupInfo) : Prop :=
  BI_Type b = BackupTypeFull \/
  BI_Type b = BackupTypeIncr /\ exists base, base ∈ recs /\ has_stream base = true /\ snap_of base = BI_BaseSnapshot b.

(** Adding one whose base is there. *)
Lemma records_ok_add b recs :
  records_ok recs -> BI_ID b ∉ map BI_ID recs -> BI_SnapshotName b <> "" ->
  (has_stream b = true -> extends recs b) -> records_ok (b :: recs).
Proof.
  intros [H1 H2 H3] Hid Hsn Hst. split.
  - simpl. by apply NoDup_cons.
  - by constructor.
  - assert (forall x, x ∈ recs -> has_stream x = true -> chain (b :: recs) x) as Hold.
    { intros x Hx Hs. eapply chain_mono; [|by apply H3]. set_solver. }
    intros x [->|Hx]%elem_of_cons Hs; [|by apply Hold].
    destruct (Hst Hs) as [Hf|[Hi (base & Hb & Hbs & Hsb)]]; [apply chain_full; [left|done]|].
    apply (chain_incr _ b base); try done; [left|]. by apply Hold.
Qed.

(** Marking a record as verified changes nothing a chain looks at. *)
Lemma records_ok_verified t recs : records_ok (t :: recs) -> records_ok (with_verified t :: recs).
Proof.
  intros [H1 H2 H3]. set (f x := if decide (x = t) then with_verified t else x).
  assert (forall x, chain (t :: recs) x -> chain (with_verified t :: recs) (f x)) as Hf.
  { induction 1 as [x Hx Hfu|x base Hx Hi Hs Hsn Hc IH].
    - apply chain_full; unfold f; case_decide; subst; try done; [left|].
      apply elem_of_cons in Hx as [->|]; [done|by right].
    - apply (chain_incr _ (f x) (f base)); [| | | |done]; unfold f; repeat case_decide; subst; try done; try (by left);
        apply elem_of_cons in Hx as [->|]; try done; by right. }
  split; [done|by inversion_clear H2; constructor|].
  intros x [->|Hx]%elem_of_cons Hs.
  - specialize (Hf t (H3 t ltac:(by left) Hs)). unfold f in Hf. by rewrite decide_True in Hf.
  - specialize (Hf x (H3 x ltac:(by right) Hs)). unfold f in Hf. case_decide as E; [|done].
    subst. simpl in H1. apply NoDup_cons in H1 as [Hn _]. destruct Hn. by apply list_elem_of_fmap_2.
Qed.

(** ** The records of the manager as one list *)

Lemma all_records_split m k : all_records m ≡ₚ default [] (m !! k) ++ all_records (delete k m).
Proof.
  unfold all_records. destruct (m !! k) as [l|] eqn:E; simpl.
  - rewrite <- (map_to_list_delete m k l E). done.
  - by rewrite delete_id.
Qed.

Lemma all_records_insert m k l : all_records (<[k := l]> m) ≡ₚ l ++ all_records (delete k m).
Proof. rewrite (all_records_split _ k), lookup_insert_eq, delete_insert_eq. done. Qed.

Lemma elem_of_all_records m b : b ∈ all_records m <-> exists k l, m !! k = Some l /\ b ∈ l.
Proof.
  unfold all_records. rewrite list_elem_of_In, in_flat_map. split.
  - intros ([k l] & Hp%list_elem_of_In%elem_of_map_to_list & Hb%list_elem_of_In). eauto.
  - intros (k & l & Hk & Hb). exists (k, l). split; [by apply list_elem_of_In, elem_of_map_to_list|by apply list_elem_of_In].
Qed.

Section manager_facts.
Context {D W : Type} `{BackupStore D} `{Host W}.
Context (visit : gmap string (list BackupInfo) -> list (string * list BackupInfo)).
Context (visit_perm : forall m, visit m ≡ₚ map_to_list m).
Context (sort_newest : list BackupInfo -> list BackupInfo).
Context (format_time format_rfc3339 : Z -> string) (error_text : error -> string).
Context (encode_info : BackupInfo -> result string).
Context (resolve : option (W -> string -> result string)) (dataDir : string).

#[local] Abbreviation manager := (BackupManager D W).
#[local] Abbreviation del := (DeleteBackup visit).
#[local] Abbreviation add := (addBackup encode_info).
#[local] Abbreviation retain := (applyRetention visit sort_newest).

Lemma find_entry_Some m id k i b : find_entry (visit m) id = Some (k, i, b) ->
  exists l, m !! k = Some l /\ l !! i = Some b /\ BI_ID b = id.
Proof.
  intros Hf. assert (exists l, (k, l) ∈ visit m /\ l !! i = Some b /\ BI_ID b = id) as (l & Hl & Hi & Hid).
  { induction (visit m) as [|[k' l] rest IH]; simpl in Hf; [done|].
    destruct (list_find _ l) as [[i' b']|] eqn:E; simplify_eq.
    - apply list_find_Some in E as (Hi & Hid & _). exists l. split; [by left|done].
    - destruct (IH Hf) as (l' & Hl' & ?). exists l'. split; [by right|done]. }
  exists l. split; [|done]. apply elem_of_map_to_list. by rewrite <- visit_perm.
Qed.

Lemma find_entry_None m id : find_entry (visit m) id = None -> id ∉ map BI_ID (all_records m).
Proof.
  intros Hf (b & -> & (k & l & Hk & Hb)%elem_of_all_records)%list_elem_of_fmap.
  apply elem_of_map_to_list in Hk. rewrite <- visit_perm in Hk.
  induction (visit m) as [|[k' l'] rest IH]; simpl in Hf; [by apply elem_of_nil in Hk|].
  destruct (list_find _ l') as [[i b']|] eqn:E; [done|]. apply elem_of_cons in Hk as [[= -> ->]|Hk]; [|auto].
  apply list_find_None in E. rewrite Forall_forall in E. by apply (E b).
Qed.

Lemma ListAllBackups_perm (bm : manager) : ListAllBackups visit bm ≡ₚ all_records (backups bm).
Proof. unfold ListAllBackups, all_records. by rewrite visit_perm. Qed.

Lemma persistBackup_backups (bm : manager) now info : backups (persistBackup encode_info bm now info) = backups bm.
Proof. unfold persistBackup. by repeat case_match. Qed.

Lemma addBackup_records (bm : manager) now k info :
  backups (add bm now k info) = <[k := records bm k ++ [info]]> (backups bm).
Proof. unfold addBackup. by rewrite persistBackup_backups. Qed.

Lemma addBackup_all (bm : manager) now k info :
  all_records (backups (add bm now k info)) ≡ₚ info :: all_records (backups bm).
Proof.
  rewrite addBackup_records, all_records_insert, (all_records_split (backups bm) k). unfold records.
  rewrite <- app_assoc. simpl. symmetry. apply Permutation_middle.
Qed.

(** What a deletion does to the records: nothing, or one that no other chains
    onto is gone. *)
Definition shrinks (old new : list BackupInfo) : Prop :=
  new ≡ₚ old \/ exists t, old ≡ₚ t :: new /\
    (has_stream t = true -> BI_SnapshotName t <> "" -> forall b, b ∈ new -> BI_ID b <> BI_ID t -> BI_BaseSnapshot b <> snap_of t).

Lemma baseReference_None (bm : manager) t : baseReference visit bm t = None ->
  has_stream t = true -> BI_SnapshotName t <> "" ->
  forall b, b ∈ all_records (backups bm) -> BI_ID b <> BI_ID t -> BI_BaseSnapshot b <> snap_of t.
Proof.
  unfold baseReference, has_stream. intros Hr Hs Hn b Hb Hid Hbase.
  apply andb_true_iff in Hs as [Hs _]. apply andb_true_iff in Hs as [Hs _]. apply andb_true_iff in Hs as [_ Hd].
  apply negb_true_iff in Hd. rewrite Hd, (proj2 (streq_false _ _) Hn) in Hr. simpl in Hr.
  rewrite <- ListAllBackups_perm in Hb. pose proof (List.find_none _ _ Hr b ltac:(by apply list_elem_of_In)) as Hx.
  simpl in Hx. rewrite (proj2 (streq_false _ _) Hid), (proj2 (streq_true _ _) Hbase) in Hx. done.
Qed.

Lemma DeleteBackup_shrinks (bm : manager) id : shrinks (all_records (backups bm)) (all_records (backups (del bm id).1)).
Proof.
  unfold DeleteBackup. destruct (find_entry _ id) as [[[k i] t]|] eqn:Ef; [|by left].
  destruct (baseReference visit bm t) as [r|] eqn:Er; [by left|].
  destruct (find_entry_Some _ _ _ _ _ Ef) as (l & Hl & Hi & Hid).
  assert (all_records (backups bm) ≡ₚ t :: delete i l ++ all_records (delete k (backups bm))) as Hsplit.
  { rewrite (all_records_split _ k), Hl. simpl. change (t :: ?a ++ ?b) with ((t :: a) ++ b).
    apply Permutation_app_tail. by apply delete_Permutation. }
  assert (records bm k = l) as Hrec by (unfold records; by rewrite Hl).
  destruct (removeBackupData _ _) as [w err]. simpl. rewrite Hrec.
  destruct err as [e|]; [left|right; exists t].
  - simpl. rewrite insert_insert_eq, all_records_insert, Hsplit. unfold records. simpl. rewrite lookup_insert_eq. simpl.
    rewrite <- app_assoc. symmetry. apply Permutation_middle.
  - assert (backups (match bm_ds bm with
                     | Some d => let '(d, err) := DeleteBackupRecord d id in
                         (set_ds (set_host (set_backups bm (<[k := delete i l]> (backups bm))) w) (Some d), wrap "backup deleted but its record remains: %w" [] err)
                     | None => (set_host (set_backups bm (<[k := delete i l]> (backups bm))) w, None) end).1
            = <[k := delete i l]> (backups bm)) as ->.
    { destruct (bm_ds bm); [|done]. by destruct (DeleteBackupRecord _ _). }
    split; [by rewrite all_records_insert|]. intros Hs Hn b Hb Hne. rewrite all_records_insert in Hb.
    apply (baseReference_None bm t); try done. rewrite Hsplit. by right.
Qed.

Lemma shrinks_ok old new : shrinks old new -> records_ok old -> records_ok new.
Proof.
  intros [Hp|(t & Hp & Hfree)] Hok; [by rewrite Hp|]. rewrite Hp in Hok.
  apply (records_ok_remove t); [done|]. intros Hs b Hb. destruct Hok as [Hnd Hn _].
  inversion_clear Hn. apply Hfree; try done. intros Heq. simpl in Hnd. apply NoDup_cons in Hnd as [Hni _].
  apply Hni. rewrite <- Heq. by apply list_elem_of_fmap_2.
Qed.

Definition bm_ok (bm : manager) : Prop := records_ok (all_records (backups bm)).

Lemma DeleteBackup_ok (bm : manager) id : bm_ok bm -> bm_ok (del bm id).1.
Proof. apply shrinks_ok, DeleteBackup_shrinks. Qed.

Lemma prune_one_ok now policy keep (bm : manager) b : bm_ok bm -> bm_ok (prune_one visit now policy keep bm b).
Proof. intros Hok. unfold prune_one. repeat case_if; try done. by apply DeleteBackup_ok. Qed.

Lemma prune_ok now policy keep l : forall bm : manager, bm_ok bm -> bm_ok (foldl (prune_one visit now policy keep) bm l).
Proof. induction l as [|b l IH]; intros bm Hok; simpl; [done|]. apply IH. by apply prune_one_ok. Qed.

Lemma applyRetention_ok (bm : manager) now k policy : bm_ok bm -> bm_ok (retain bm now k policy).
Proof. intros Hok. unfold applyRetention. destruct (no_rule policy); [done|]. by apply prune_ok. Qed.

Lemma add_ok (bm : manager) now k info :
  bm_ok bm -> BI_ID info ∉ map BI_ID (all_records (backups bm)) -> BI_SnapshotName info <> "" ->
  (has_stream info = true -> extends (all_records (backups bm)) info) -> bm_ok (add bm now k info).
Proof. intros Hok Hid Hn Hs. unfold bm_ok. rewrite addBackup_all. by apply records_ok_add. Qed.

(** The name of a backup holds the second it was started in. *)
Definition backup_id (c : clock) (instanceID : string) : string := instanceID +:+ "-" +:+ format_time (c_stamp c).
Definition fresh (bm : manager) (c : clock) (instanceID : string) : Prop :=
  backup_id c instanceID ∉ map BI_ID (all_records (backups bm)).

Lemma run_hook_backups (bm : manager) now hook id : backups (run_hook_if format_rfc3339 dataDir bm now hook id).1 = backups bm.
Proof. unfold run_hook_if. case_if; [done|]. by destruct (runHook _ _ _ _ _ _). Qed.

Lemma failed_no_stream msg info : has_stream (with_outcome BackupStatusFailed msg info) = false.
Proof. done. Qed.

Lemma snapshot_no_stream b : BI_Type b = BackupTypeSnapshot -> has_stream b = false.
Proof. unfold has_stream. intros ->. by rewrite andb_false_r. Qed.

Lemma add_failed_ok (bm bm' : manager) now k c inst dataset dest ty msg info :
  backups bm' = backups bm -> bm_ok bm -> fresh bm c inst -> BI_ID info = BI_ID (new_info format_time c inst dataset dest ty) ->
  BI_SnapshotName info = BI_SnapshotName (new_info format_time c inst dataset dest ty) ->
  bm_ok (add bm' now k (with_outcome BackupStatusFailed msg info)).
Proof.
  intros Hb Hok Hf Hid Hn. apply add_ok; unfold bm_ok in *; rewrite ?Hb; [done| |simpl; by rewrite Hn|by rewrite failed_no_stream].
  simpl. rewrite Hid. exact Hf.
Qed.

Lemma take_snapshot_ok (bm bm' : manager) c pre inst dataset dest ty failed :
  take_snapshot format_rfc3339 error_text encode_info dataDir bm c pre (new_info format_time c inst dataset dest ty) = (bm', failed) ->
  bm_ok bm -> fresh bm c inst ->
  match failed with None => backups bm' = backups bm /\ configs bm' = configs bm | Some _ => bm_ok bm' end.
Proof.
  unfold take_snapshot. intros Ht Hok Hf.
  destruct (run_hook_if _ _ _ _ _ _) as [bm1 err] eqn:Eh.
  assert (backups bm1 = backups bm) as Hb1 by (by rewrite <- (run_hook_backups bm (c_hook c) pre (BI_InstanceID (new_info format_time c inst dataset dest ty))), Eh).
  assert (configs bm1 = configs bm) as Hc1.
  { unfold run_hook_if in Eh. case_if; [by simplify_eq|]. destruct (runHook _ _ _ _ _ _). by simplify_eq. }
  destruct err as [e|]; [simplify_eq; by eapply add_failed_ok|].
  destruct (exec _ _) as [w x]. destruct (ex_err x) as [e|]; simplify_eq; [|done].
  eapply (add_failed_ok bm (set_host bm1 w)); try done.
Qed.

Lemma foldl_newer l acc n : foldl newer acc l = Some n ->
  acc = Some n \/ n ∈ l /\ has_stream n = true.
Proof.
  revert acc. induction l as [|b l IH]; intros acc; simpl; [by left|]. intros Hl.
  apply IH in Hl as [Hl|[Hin Hs]]; [|right; split; [by right|done]].
  unfold newer in Hl. destruct (has_stream b) eqn:Es; [|by left].
  destruct acc as [m|]; repeat case_if; simplify_eq; eauto using list_elem_of_here.
Qed.

Lemma findPreviousSnapshot_spec (bm : manager) inst : findPreviousSnapshot bm inst <> "" ->
  exists base, base ∈ all_records (backups bm) /\ has_stream base = true /\ snap_of base = findPreviousSnapshot bm inst.
Proof.
  unfold findPreviousSnapshot. destruct (foldl newer None _) as [n|] eqn:E; [|done]. intros _.
  apply foldl_newer in E as [?|[Hin Hs]]; [done|]. exists n. split; [|done].
  apply elem_of_all_records. unfold records in Hin. destruct (backups bm !! inst) as [l|] eqn:El; simpl in Hin; [eauto|].
  by apply elem_of_nil in Hin.
Qed.

Lemma send_plan_extends (bm : manager) inst ty info args info' :
  send_plan bm inst ty info = (args, info') -> BI_Type info = ty ->
  BI_ID info' = BI_ID info /\ BI_SnapshotName info' = BI_SnapshotName info /\
  forall loc comp size at_, has_stream (with_completion at_ (with_data loc comp size info')) = true ->
    extends (all_records (backups bm)) (with_completion at_ (with_data loc comp size info')).
Proof.
  unfold send_plan. intros Hp Hty. case_bool_decide as Ei.
  - destruct (streq _ "") eqn:Es; simplify_eq; split_and!; try done; intros loc comp size at_ _.
    + by left.
    + right. split; [done|]. apply streq_false in Es. by apply findPreviousSnapshot_spec.
  - simplify_eq. split_and!; try done. intros loc comp size at_ Hs. unfold has_stream in Hs.
    apply andb_true_iff in Hs as [_ Hs]. apply orb_true_iff in Hs as [Hs|Hs]; apply bool_decide_eq_true in Hs; [by left|done].
Qed.

#[local] Abbreviation snapshot := (CreateSnapshot visit sort_newest format_time format_rfc3339 error_text encode_info resolve dataDir).
#[local] Abbreviation backup := (CreateBackup visit sort_newest format_time format_rfc3339 error_text encode_info resolve dataDir).

(** Takes a hook run apart. *)
Ltac run_hook E Hb := match goal with
  | |- context [run_hook_if ?f ?d ?bm ?now ?h ?i] =>
      pose proof (run_hook_backups bm now h i) as Hb; destruct (run_hook_if f d bm now h i) as [? ?] eqn:E; simpl in Hb
  end.

Lemma CreateSnapshot_ok (bm : manager) c inst : bm_ok bm -> fresh bm c inst -> bm_ok (snapshot bm c inst).1.1.
Proof.
  intros Hok Hf. unfold CreateSnapshot. destruct (datasetFor _ _ _) as [dataset|e]; [|done].
  destruct (take_snapshot _ _ _ _ _ _ _ _) as [bm1 failed] eqn:Et. apply take_snapshot_ok in Et; [|done|done].
  destruct failed as [[i e]|]; [done|]. destruct Et as [Hb1 _].
  destruct (getSnapshotSize _ _ _) as [w size]. run_hook Eh Hb2.
  set (bm2 := addBackup _ _ _ _ _).
  assert (bm_ok bm2) as Hok2.
  { apply add_ok; unfold bm_ok in *; rewrite ?Hb2, ?Hb1; try done.
    rewrite snapshot_no_stream; done. }
  destruct (GetConfig _ _); [by apply applyRetention_ok|done].
Qed.

Lemma CreateBackup_ok (bm : manager) c inst ty : bm_ok bm -> fresh bm c inst -> bm_ok (backup bm c inst ty).1.1.
Proof.
  intros Hok Hf. unfold CreateBackup. destruct (ValidateInstanceName inst); [done|].
  destruct (GetConfig _ _) as [config|]; [|done]. destruct (datasetFor _ _ _) as [dataset|e]; [|done].
  destruct (take_snapshot _ _ _ _ _ _ _ _) as [bm1 failed] eqn:Et. apply take_snapshot_ok in Et; [|done|done].
  destruct failed as [[i e]|]; [done|]. destruct Et as [Hb1 _].
  destruct (send_plan _ _ _ _) as [args info] eqn:Ep. apply send_plan_extends in Ep as (Hid & Hn & Hext); [|done].
  destruct (runPipeline _ _ _ _) as [[w out] [location|e]].
  - destruct (measureBackup _ _ _ _ _) as [w' size]. run_hook Eh Hb2. apply applyRetention_ok.
    apply add_ok; unfold bm_ok in *; rewrite ?Hb2; try (rewrite Hb1; done); simpl; rewrite ?Hn; try done.
    + rewrite Hb1, Hid. exact Hf.
    + intros Hs. by apply Hext.
  - destruct (destroySnapshotErr _ _ _) as [w' ?]. unfold fail_backup. simpl.
    by eapply (add_failed_ok bm).
Qed.

Lemma VerifyBackup_ok (bm : manager) now id : bm_ok bm -> bm_ok (VerifyBackup visit encode_info bm now id).1.
Proof.
  intros Hok. unfold VerifyBackup. destruct (find_entry _ id) as [[[k i] t]|] eqn:Ef; [|done].
  destruct (find_entry_Some _ _ _ _ _ Ef) as (l & Hl & Hi & Hid).
  destruct (verify_data _ _) as [w [e|]]; [done|]. unfold bm_ok. simpl. rewrite persistBackup_backups. simpl.
  assert (delete i (alter with_verified i l) = delete i l) as Hdel.
  { apply list_eq. intros j. destruct (decide (j < i)%nat).
    + by rewrite !list_lookup_delete_lt, list_lookup_alter_ne by lia.
    + by rewrite !list_lookup_delete_ge, list_lookup_alter_ne by lia. }
  assert (alter with_verified i l ≡ₚ with_verified t :: delete i l) as Hp1.
  { rewrite <- Hdel. apply delete_Permutation. by rewrite list_lookup_alter_eq, Hi. }
  unfold records. simpl. rewrite Hl. simpl. rewrite all_records_insert, Hp1. apply records_ok_verified.
  unfold bm_ok in Hok. rewrite (all_records_split (backups bm) k), Hl in Hok. simpl in Hok.
  by rewrite (delete_Permutation l i t Hi) in Hok.
Qed.

Lemma Configure_backups (bm : manager) now id config : backups (Configure bm now id config).1 = backups bm.
Proof.
  unfold Configure. destruct config as [config|]; [|done]. destruct (first_error _); [done|].
  assert (backups (stop_schedule bm id) = backups bm) as Hs by (unfold stop_schedule; by case_match).
  unfold persistConfig. simpl. destruct (bm_ds _) as [d|]; [destruct (UpdateBackupConfig _ _ _ _) as [d' [e|]]|];
    simpl; try case_if; simpl; done.
Qed.

Lemma RemoveConfig_backups (bm : manager) now id : backups (RemoveConfig bm now id) = backups bm.
Proof.
  unfold RemoveConfig. assert (backups (stop_schedule bm id) = backups bm) as Hs by (unfold stop_schedule; by case_match).
  simpl. by destruct (bm_ds _).
Qed.

Lemma Restore_backups (bm : manager) id target : backups (Restore visit resolve bm id target).1 = backups bm.
Proof.
  unfold Restore. destruct (findBackup _ _ _); [|done]. case_if; [done|]. destruct (datasetFor _ _ _); [|done].
  by destruct (restore_from _ _ _ _).
Qed.

#[local] Abbreviation step := (bstep visit sort_newest format_time format_rfc3339 error_text encode_info resolve dataDir).

Lemma step_ok (bm bm' : manager) : step fresh bm bm' -> bm_ok bm -> bm_ok bm'.
Proof.
  intros Hs Hok. destruct Hs; try done; unfold bm_ok; rewrite ?Configure_backups, ?RemoveConfig_backups, ?Restore_backups; try done;
    eauto using CreateSnapshot_ok, CreateBackup_ok, DeleteBackup_ok, VerifyBackup_ok.
  - by apply CreateSnapshot_ok.
  - by apply CreateBackup_ok.
  - by apply DeleteBackup_ok.
  - by apply VerifyBackup_ok.
  - by apply CreateSnapshot_ok.
Qed.

Lemma steps_ok (bm bm' : manager) : rtc (step fresh) bm bm' -> bm_ok bm -> bm_ok bm'.
Proof. induction 1; eauto using step_ok. Qed.

End manager_facts.

(** ** Schedules *)

Section schedule_facts.
Context {D W : Type} `{BackupStore D} `{Host W}.
Context (visit : gmap string (list BackupInfo) -> list (string * list BackupInfo)).
Context (sort_newest : list BackupInfo -> list BackupInfo).
Context (format_time format_rfc3339 : Z -> string) (error_text : error -> string).
Context (encode_info : BackupInfo -> result string).
Context (resolve : option (W -> string -> result string)) (dataDir : string).

#[local] Abbreviation manager := (BackupManager D W).
#[local] Abbreviation del := (DeleteBackup visit).
#[local] Abbreviation add := (addBackup encode_info).
#[local] Abbreviation retain := (applyRetention visit sort_newest).
#[local] Abbreviation snapshot := (CreateSnapshot visit sort_newest format_time format_rfc3339 error_text encode_info resolve dataDir).
#[local] Abbreviation backup := (CreateBackup visit sort_newest format_time format_rfc3339 error_text encode_info resolve dataDir).
#[local] Abbreviation step := (bstep visit sort_newest format_time format_rfc3339 error_text encode_info resolve dataDir).

(** The parts only [Configure], [RemoveConfig] and [Stop] change. *)
Definition same_schedules (bm bm' : manager) : Prop :=
  configs bm' = configs bm /\ schedules bm' = schedules bm /\ loops bm' = loops bm /\ closed bm' = closed bm /\
  next_chan bm' = next_chan bm.

#[local] Instance same_schedules_refl : Reflexive same_schedules.
Proof. by intros bm. Qed.
#[local] Instance same_schedules_trans : Transitive same_schedules.
Proof. intros a b c (?&?&?&?&?) (?&?&?&?&?). unfold same_schedules. split_and!; congruence. Qed.

Lemma persistBackup_same (bm : manager) now info : same_schedules bm (persistBackup encode_info bm now info).
Proof. unfold persistBackup. by repeat case_match. Qed.

Lemma addBackup_same (bm : manager) now k info : same_schedules bm (add bm now k info).
Proof. unfold addBackup. etrans; [|apply persistBackup_same]. done. Qed.

Lemma DeleteBackup_same (bm : manager) id : same_schedules bm (del bm id).1.
Proof.
  unfold DeleteBackup. destruct (find_entry _ id) as [[[k i] t]|]; [|done]. destruct (baseReference _ _ _); [done|].
  destruct (removeBackupData _ _) as [w [e|]]; [done|]. simpl. destruct (bm_ds bm); [|done]. by destruct (DeleteBackupRecord _ _).
Qed.

Lemma applyRetention_same (bm : manager) now k policy : same_schedules bm (retain bm now k policy).
Proof.
  unfold applyRetention. destruct (no_rule policy); [done|]. generalize (kept_ids policy (sort_newest (records bm k))) as keep.
  generalize (sort_newest (records bm k)). intros l keep. revert bm. induction l as [|b l IH]; intros bm; simpl; [done|].
  etrans; [|apply IH]. unfold prune_one. repeat case_if; try done. apply DeleteBackup_same.
Qed.

Lemma run_hook_same (bm : manager) now hook id : same_schedules bm (run_hook_if format_rfc3339 dataDir bm now hook id).1.
Proof. unfold run_hook_if. case_if; [done|]. by destruct (runHook _ _ _ _ _ _). Qed.

Lemma take_snapshot_same (bm : manager) c pre info :
  same_schedules bm (take_snapshot format_rfc3339 error_text encode_info dataDir bm c pre info).1.
Proof.
  unfold take_snapshot. pose proof (run_hook_same bm (c_hook c) pre (BI_InstanceID info)) as Hh.
  destruct (run_hook_if _ _ _ _ _ _) as [bm1 [e|]]; simpl in Hh; simpl; [etrans; [done|apply addBackup_same]|].
  destruct (exec _ _) as [w x]. destruct (ex_err x); simpl; (etrans; [done|]); [|done].
  etrans; [|apply addBackup_same]. done.
Qed.

Lemma CreateSnapshot_same (bm : manager) c inst : same_schedules bm (snapshot bm c inst).1.1.
Proof.
  unfold CreateSnapshot. destruct (datasetFor _ _ _) as [dataset|e]; [|done].
  pose proof (take_snapshot_same bm c (match GetConfig bm inst with Some cf => BC_PreBackupHook cf | None => "" end)
    (new_info format_time c inst dataset "" BackupTypeSnapshot)) as Ht.
  destruct (take_snapshot _ _ _ _ _ _ _ _) as [bm1 [[i e]|]]; simpl in Ht; [done|].
  destruct (getSnapshotSize _ _ _) as [w size].
  match goal with |- context [run_hook_if ?f ?d ?b ?n ?h ?i] => pose proof (run_hook_same b n h i) as Hh; destruct (run_hook_if f d b n h i) as [bm2 ?] end.
  simpl in Hh. simpl. etrans; [exact Ht|]. etrans; [exact Hh|]. destruct (GetConfig _ _); [|apply addBackup_same].
  etrans; [apply addBackup_same|apply applyRetention_same].
Qed.

Lemma CreateBackup_same (bm : manager) c inst ty : same_schedules bm (backup bm c inst ty).1.1.
Proof.
  unfold CreateBackup. destruct (ValidateInstanceName inst); [done|]. destruct (GetConfig _ _) as [config|]; [|done].
  destruct (datasetFor _ _ _) as [dataset|e]; [|done].
  pose proof (take_snapshot_same bm c (BC_PreBackupHook config) (new_info format_time c inst dataset (BC_Destination config) ty)) as Ht.
  destruct (take_snapshot _ _ _ _ _ _ _ _) as [bm1 [[i e]|]]; simpl in Ht; [done|].
  destruct (send_plan _ _ _ _) as [args info]. destruct (runPipeline _ _ _ _) as [[w out] [location|e]].
  - destruct (measureBackup _ _ _ _ _) as [w' size].
    match goal with |- context [run_hook_if ?f ?d ?b ?n ?h ?i] => pose proof (run_hook_same b n h i) as Hh; destruct (run_hook_if f d b n h i) as [bm2 ?] end.
    simpl in Hh. simpl. etrans; [exact Ht|]. etrans; [exact Hh|]. etrans; [apply addBackup_same|apply applyRetention_same].
  - destruct (destroySnapshotErr _ _ _) as [w' ?]. unfold fail_backup. simpl. etrans; [exact Ht|]. etrans; [|apply addBackup_same]. done.
Qed.

Lemma VerifyBackup_same (bm : manager) now id : same_schedules bm (VerifyBackup visit encode_info bm now id).1.
Proof.
  unfold VerifyBackup. destruct (find_entry _ id) as [[[k i] t]|]; [|done].
  destruct (verify_data _ _) as [w [e|]]; [done|]. simpl. etrans; [|apply persistBackup_same]. done.
Qed.

Lemma Restore_same (bm : manager) id target : same_schedules bm (Restore visit resolve bm id target).1.
Proof.
  unfold Restore. destruct (findBackup _ _ _); [|done]. case_if; [done|]. destruct (datasetFor _ _ _); [|done].
  by destruct (restore_from _ _ _ _).
Qed.

(** Stop channels: each is closed at most once, a channel in use is open, and a
    goroutine not yet told to stop is the one of its instance's schedule. *)
Record sched_ok (bm : manager) : Prop := {
  so_closed : NoDup (closed bm);
  so_bound : forall ch, ch ∈ closed bm -> (ch < next_chan bm)%nat;
  so_open : forall id ch, schedules bm !! id = Some ch -> ch ∉ closed bm /\ (ch < next_chan bm)%nat;
  so_inj : forall id1 id2 ch, schedules bm !! id1 = Some ch -> schedules bm !! id2 = Some ch -> id1 = id2;
  so_loops : forall ch id, loops bm !! ch = Some id -> (ch < next_chan bm)%nat /\ (schedules bm !! id = Some ch \/ ch ∈ closed bm)
}.

Lemma sched_ok_same (bm bm' : manager) : same_schedules bm bm' -> sched_ok bm -> sched_ok bm'.
Proof. intros (_ & H1 & H2 & H3 & H4) [? ? ? ? ?]. split; rewrite ?H1, ?H2, ?H3, ?H4; done. Qed.

Lemma stop_schedule_ok (bm : manager) id : sched_ok bm -> sched_ok (stop_schedule bm id) /\ schedules (stop_schedule bm id) !! id = None.
Proof.
  intros [Hc Hb Ho Hi Hl]. unfold stop_schedule. destruct (schedules bm !! id) as [ch|] eqn:E; [|by split].
  destruct (Ho id ch E) as [Hno Hlt]. split; [|simpl; by rewrite lookup_delete_eq]. split; simpl.
  - apply NoDup_app. split_and!; [done| |by apply NoDup_singleton]. intros x Hx ->%list_elem_of_singleton. done.
  - intros x [Hx| ->%list_elem_of_singleton]%elem_of_app; auto.
  - intros id' ch' Hs. apply lookup_delete_Some in Hs as [Hne Hs]. destruct (Ho id' ch' Hs) as [? ?]. split; [|done].
    intros [Hx| ->%list_elem_of_singleton]%elem_of_app; [done|]. apply Hne. by eapply Hi.
  - intros id1 id2 x H1%lookup_delete_Some H2%lookup_delete_Some. eapply Hi; [apply H1|apply H2].
  - intros x id' Hx. destruct (Hl x id' Hx) as [Hltx [Hs|Hs]]; (split; [done|]).
    + destruct (decide (id' = id)) as [->|Hne]; [right; set_solver|left; by rewrite lookup_delete_ne].
    + right. set_solver.
Qed.

Lemma start_schedule_ok (bm : manager) id schedule : schedules bm !! id = None -> sched_ok bm -> sched_ok (start_schedule bm id schedule).
Proof.
  intros Hn [Hc Hb Ho Hi Hl]. split; simpl.
  - done.
  - intros x Hx. specialize (Hb x Hx). lia.
  - intros id' x [[-> <-]|[Hne Hs]]%lookup_insert_Some; [split; [intros Hx%Hb; lia|lia]|].
    destruct (Ho id' x Hs). split; [done|lia].
  - intros id1 id2 x [[-> <-]|[Hne1 Hs1]]%lookup_insert_Some [[-> E]|[Hne2 Hs2]]%lookup_insert_Some; try done.
    + apply Ho in Hs2 as [_ ?]. lia.
    + subst. apply Ho in Hs1 as [_ ?]. lia.
    + by eapply Hi.
  - assert (forall x id', loops bm !! x = Some id' ->
      (x < S (next_chan bm))%nat /\ (<[id := next_chan bm]> (schedules bm) !! id' = Some x \/ x ∈ closed bm)) as Hold.
    { intros x id' Hx. destruct (Hl x id' Hx) as [? [Hs|Hs]]; (split; [lia|]); [left|by right].
      rewrite lookup_insert_ne; [done|]. intros ->. congruence. }
    intros x id'. case_if; [apply Hold|]. intros [[-> <-]|[Hne Hs]]%lookup_insert_Some; [|by apply Hold].
    split; [lia|]. left. by rewrite lookup_insert_eq.
Qed.

Lemma persistConfig_same (bm : manager) now id config : same_schedules bm (persistConfig bm now id config).1.
Proof. unfold persistConfig. destruct (bm_ds bm); [|done]. by destruct (UpdateBackupConfig _ _ _ _). Qed.

Lemma persistConfig_schedules (bm : manager) now id config : schedules (persistConfig bm now id config).1 = schedules bm.
Proof. by destruct (persistConfig_same bm now id config) as (_ & -> & _). Qed.

Lemma Configure_sched_ok (bm : manager) now id config : sched_ok bm -> sched_ok (Configure bm now id config).1.
Proof.
  intros Hok. unfold Configure. destruct config as [config|]; [|done]. destruct (first_error _); [done|].
  destruct (stop_schedule_ok bm id Hok) as [Hok1 Hn].
  set (bm1 := set_configs _ _). assert (sched_ok bm1) as Hok2 by (by destruct Hok1).
  pose proof (persistConfig_same bm1 now id config) as Hp. pose proof (persistConfig_schedules bm1 now id config) as Hs.
  destruct (persistConfig bm1 now id config) as [bm2 [e|]]; simpl in Hp, Hs; simpl; [by eapply sched_ok_same|].
  case_if; [|by eapply sched_ok_same]. apply start_schedule_ok; [by rewrite Hs|by eapply sched_ok_same].
Qed.

Lemma step_sched_ok allowed (bm bm' : manager) : step allowed bm bm' -> sched_ok bm -> sched_ok bm'.
Proof.
  intros Hs Hok. destruct Hs as [?|?|?|?|?|?|?|?|?|? ch Hch].
  - by apply Configure_sched_ok.
  - unfold RemoveConfig. destruct (stop_schedule_ok bm id Hok) as [[? ? ? ? ?] _]. simpl. by destruct (bm_ds _).
  - eapply sched_ok_same; [apply CreateSnapshot_same|done].
  - eapply sched_ok_same; [apply CreateBackup_same|done].
  - eapply sched_ok_same; [apply DeleteBackup_same|done].
  - eapply sched_ok_same; [apply VerifyBackup_same|done].
  - eapply sched_ok_same; [apply Restore_same|done].
  - destruct Hok as [Hc Hb Ho Hi Hl]. split; simpl; try done.
    + apply NoDup_app. split_and!; [done| |].
      * intros ch Hch ([id x] & Hx & Hin%elem_of_map_to_list)%list_elem_of_fmap. simpl in Hx. subst. by destruct (Ho id x Hin).
      * apply NoDup_fmap_2_strong; [|apply NoDup_map_to_list]. intros [i1 x] [i2 y] H1%elem_of_map_to_list H2%elem_of_map_to_list.
        simpl. intros ->. f_equal. by eapply Hi.
    + intros x [Hx|([id y] & -> & Hin%elem_of_map_to_list)%list_elem_of_fmap]%elem_of_app; [auto|]. by destruct (Ho id y Hin).
  - eapply sched_ok_same; [apply CreateSnapshot_same|done].
  - destruct Hok as [Hc Hb Ho Hi Hl]. split; simpl; try done. intros x id [_ Hx]%lookup_delete_Some. by apply Hl.
Qed.

Lemma steps_sched_ok allowed (bm bm' : manager) : rtc (step allowed) bm bm' -> sched_ok bm -> sched_ok bm'.
Proof. induction 1; eauto using step_sched_ok. Qed.
End schedule_facts.

(** ** Configurations survive being stored *)

(** A minimum age that can be written: whole seconds. *)
Definition whole_seconds (d : Z) : Prop := exists k, d = k * Second /\ 0 <= d < 2 ^ 63.

Lemma stored_min_age r : whole_seconds (MinAge r) ->
  (let s := if 0 <? MinAge r then DurationString (MinAge r) else "" in
   if streq s "" then 0 else match ParseDuration s with Ok d => if 0 <? d then d else 0 | Err _ => 0 end) = MinAge r.
Proof.
  intros (k & Hk & Hr). simpl. destruct (0 <? MinAge r) eqn:E; [|apply Z.ltb_ge in E; simpl; lia].
  rewrite Hk, ParseDuration_DurationString by lia. rewrite <- Hk, E.
  destruct (streq (DurationString (MinAge r)) "") eqn:Es; [|done]. apply streq_true in Es. exfalso.
  pose proof (ParseDuration_DurationString k ltac:(lia)) as Hp. rewrite <- Hk, Es in Hp. by vm_compute in Hp.
Qed.

(** What is stored of a configuration is the configuration, except for the key
    file, which the API refuses. *)
Lemma config_round_trip config :
  BC_EncryptionKeyFile config = "" -> whole_seconds (MinAge (BC_Retention config)) ->
  configFromStored (storedFromConfig config) = config.
Proof.
  intros Hk Hm. destruct config as [en sc ret de co key pre post]. destruct ret as [kl kh kd kw km ma]. simpl in *. subst key.
  unfold configFromStored, storedFromConfig. simpl. do 2 f_equal.
  exact (stored_min_age {| KeepLast := kl; KeepHourly := kh; KeepDaily := kd; KeepWeekly := kw; KeepMonthly := km; MinAge := ma |} Hm).
Qed.

(** ** Theorems *)


(** Schedules come and go in pairs.  Whatever callers, schedules and shutdown
    do, starting from a new manager: no stop channel is closed twice (which would
    panic), a channel in use is not closed, and a schedule goroutine that has not
    been told to stop is the one of its instance's current schedule, so that there
    is at most one per instance; after [Stop] there is none. *)
Theorem one_schedule_per_instance {D W : Type} `{BackupStore D} `{Host W}
    (visit : gmap string (list BackupInfo) -> list (string * list BackupInfo)) sort_newest
    (format_time format_rfc3339 : Z -> string) error_text encode_info (resolve : option (W -> string -> result string)) dataDir
    ds w (bm : BackupManager D W) :
  rtc (bstep visit sort_newest format_time format_rfc3339 error_text encode_info resolve dataDir (fun _ _ _ => True)) (NewBackupManager ds w) bm ->
  NoDup (closed bm) /\
  (forall id ch, schedules bm !! id = Some ch -> ch ∉ closed bm) /\
  (forall ch1 ch2 id, loops bm !! ch1 = Some id -> loops bm !! ch2 = Some id -> ch1 ∉ closed bm -> ch2 ∉ closed bm -> ch1 = ch2) /\
  loops (Stop bm) = ∅ /\ NoDup (closed (Stop bm)).
Proof.
  intros Hs.
  assert (sched_ok bm) as Hok.
  { eapply steps_sched_ok; [exact Hs|]. split; simpl; try done; [constructor|by intros ch ?%elem_of_nil]. }
  pose proof (step_sched_ok visit sort_newest format_time format_rfc3339 error_text encode_info resolve dataDir (fun _ _ _ => True)
    bm (Stop bm) ltac:(constructor) Hok) as Hstop.
  destruct Hok as [Hc Hb Ho Hi Hl]. split_and!; try done.
  - intros id ch Hch. by destruct (Ho id ch Hch).
  - intros ch1 ch2 id H1 H2 Hn1 Hn2. destruct (Hl _ _ H1) as [_ [E1|?]]; [|done]. destruct (Hl _ _ H2) as [_ [E2|?]]; [|done]. congruence.
  - by destruct Hstop.
Qed.
