(* ===== verification/BackupRetention.v ===== *)
(** * What retention keeps

    Which backups a policy protects, and that [applyRetention] never removes one
    of them, nor anything of another instance. *)

From stdpp Require Import base list gmap strings sorting relations.
From Stdlib Require Import Ascii ZArith Lia.
From S2P Require Import Prelude GoStrings GoText GoTime GoPath Host Validation Backup BackupFacts.

Local Open Scope Z_scope.

(** ** Buckets *)

(** The first backup of bucket [k] in [l]. *)
Definition first_of (interval k : Z) (l : list BackupInfo) : option BackupInfo :=
  List.find (fun b => bucket_of interval b =? k) l.

Definition bucket_set (interval : Z) (l : list BackupInfo) : gset Z := list_to_set (map (bucket_of interval) l).

(** [b] is the first of its bucket, and fewer than [count] buckets are newer. *)
Definition protected_by (l : list BackupInfo) (count interval : Z) (b : BackupInfo) : Prop :=
  first_of interval (bucket_of interval b) l = Some b /\
  Z.of_nat (size (filter (fun k => bucket_of interval b < k) (bucket_set interval l))) < count.

Lemma fill_buckets_spec interval l : forall m keys m' keys',
  fill_buckets interval l m keys = (m', keys') -> NoDup keys -> (forall k, k ∈ keys <-> is_Some (m !! k)) ->
  NoDup keys' /\ (forall k, k ∈ keys' <-> is_Some (m' !! k)) /\
  (forall k, m' !! k = match m !! k with Some b => Some b | None => first_of interval k l end).
Proof.
  induction l as [|b l IH]; intros m keys m' keys' Hf Hnd Hk; simpl in Hf.
  - simplify_eq. split_and!; try done. intros k. by destruct (m' !! k).
  - destruct (m !! bucket_of interval b) as [b0|] eqn:E.
    + destruct (IH _ _ _ _ Hf Hnd Hk) as (H1 & H2 & H3). split_and!; try done. intros k. rewrite H3.
      destruct (m !! k) eqn:Em; [done|]. unfold first_of. simpl.
      destruct (Z.eqb_spec (bucket_of interval b) k) as [<-|]; [congruence|done].
    + destruct (IH _ _ _ _ Hf) as (H1 & H2 & H3).
      * apply NoDup_app. split_and!; [done| |by apply NoDup_singleton].
        intros k Hin ->%list_elem_of_singleton. apply Hk in Hin as [? ?]. congruence.
      * intros k. rewrite elem_of_app, list_elem_of_singleton, Hk.
        destruct (decide (k = bucket_of interval b)) as [->|Hne].
        -- rewrite lookup_insert_eq. split; [eauto|by right].
        -- rewrite lookup_insert_ne by done. split; [intros [?|?]; done|by left].
      * split_and!; try done. intros k. rewrite H3. unfold first_of at 2. simpl.
        destruct (Z.eqb_spec (bucket_of interval b) k) as [<-|Hne].
        -- by rewrite lookup_insert_eq, E.
        -- by rewrite lookup_insert_ne.
Qed.

Lemma first_of_spec interval k l b : first_of interval k l = Some b -> b ∈ l /\ bucket_of interval b = k.
Proof. intros [Hin Hk]%List.find_some. split; [by apply list_elem_of_In|by apply Z.eqb_eq]. Qed.

Lemma first_of_is_Some interval k l : is_Some (first_of interval k l) <-> k ∈ bucket_set interval l.
Proof.
  unfold bucket_set. rewrite elem_of_list_to_set, list_elem_of_fmap. split.
  - intros [b Hb]. apply first_of_spec in Hb as [Hin <-]. eauto.
  - intros (b & -> & Hb). unfold first_of. destruct (List.find _ l) eqn:E; [done|].
    pose proof (List.find_none _ _ E b ltac:(by apply list_elem_of_In)) as Hn. simpl in Hn. lia.
Qed.

(** In a list descending by a key an element with fewer than [n] greater ones
    is among the first [n]. *)
Lemma take_descending {A} (key : A -> Z) (l : list A) (n : nat) (x : A) :
  StronglySorted (fun a b => key b <= key a) l -> NoDup (map key l) -> x ∈ l ->
  (length (List.filter (fun y => (key x <? key y)%Z) l) < n)%nat -> x ∈ take n l.
Proof.
  revert n. induction l as [|y l IH]; intros n Hs Hnd Hx Hlt; [by apply elem_of_nil in Hx|].
  inversion_clear Hs as [|? ? Hs' Hy]. simpl in Hnd. apply NoDup_cons in Hnd as [Hny Hnd].
  destruct n as [|n]; [lia|]. simpl. apply elem_of_cons in Hx as [->|Hx]; [by left|]. right.
  apply IH; try done. rewrite Forall_forall in Hy. specialize (Hy x Hx).
  assert (key x <> key y) by (intros Heq; apply Hny; rewrite <- Heq; by apply list_elem_of_fmap_2).
  simpl in Hlt. rewrite (proj2 (Z.ltb_lt (key x) (key y))) in Hlt by lia. simpl in Hlt. lia.
Qed.

#[local] Instance flip_le_total : Total (flip Z.le).
Proof. intros x y. unfold flip. lia. Qed.

Lemma foldl_keep_mono (m : gmap Z BackupInfo) ks (keep : gset string) i :
  i ∈ keep -> i ∈ foldl (keep_bucket m) keep ks.
Proof.
  revert keep. induction ks as [|k ks IH]; intros keep Hi; simpl; [done|]. apply IH.
  unfold keep_bucket. case_match; set_solver.
Qed.

Lemma foldl_keep_in (m : gmap Z BackupInfo) ks (keep : gset string) k b :
  k ∈ ks -> m !! k = Some b ->
  BI_ID b ∈ foldl (keep_bucket m) keep ks.
Proof.
  intros Hk Hm. revert keep. induction ks as [|k' ks IH]; intros keep; [by apply elem_of_nil in Hk|]. simpl.
  apply elem_of_cons in Hk as [->|Hk]; [|by apply IH].
  apply foldl_keep_mono. unfold keep_bucket. rewrite Hm. set_solver.
Qed.

Lemma keepByInterval_mono l keep count interval i : i ∈ keep -> i ∈ keepByInterval l keep count interval.
Proof.
  intros Hi. unfold keepByInterval. destruct (count =? 0); [done|].
  destruct (fill_buckets _ _ _ _) as [m keys]. by apply foldl_keep_mono.
Qed.

Lemma keepByInterval_protected l keep count interval b :
  protected_by l count interval b -> BI_ID b ∈ keepByInterval l keep count interval.
Proof.
  intros [Hfirst Hcount]. unfold keepByInterval.
  destruct (Z.eqb_spec count 0) as [->|_]; [lia|].
  destruct (fill_buckets interval l ∅ []) as [m keys] eqn:E.
  apply fill_buckets_spec in E as (Hnd & Hk & Hm); [|by apply NoDup_nil|].
  2:{ intros k. rewrite lookup_empty, elem_of_nil. split; [done|by intros []]. }
  assert (forall k, m !! k = first_of interval k l) as Hm' by (intros k; by rewrite Hm, lookup_empty).
  apply (foldl_keep_in _ _ _ (bucket_of interval b)); [|by rewrite Hm'].
  apply (take_descending id).
  - pose proof (sort_by_sorted id (flip Z.le) keys) as Hs. exact Hs.
  - change (NoDup (id <$> sort_by id (flip Z.le) keys)). rewrite list_fmap_id. by rewrite sort_by_perm.
  - rewrite sort_by_perm. apply Hk. by rewrite Hm', Hfirst.
  - apply Nat2Z.inj_lt. rewrite Z2Nat.id by lia. eapply Z.le_lt_trans; [|exact Hcount]. apply Nat2Z.inj_le.
    rewrite (Permutation_length (filter_perm _ _ _ (sort_by_perm id (flip Z.le) keys))).
    rewrite <- (size_list_to_set (C := gset Z)); [|by apply NoDup_ListNoDup, List.NoDup_filter, NoDup_ListNoDup].
    apply subseteq_size. intros k. rewrite elem_of_list_to_set, elem_of_filter, list_elem_of_In, List.filter_In.
    intros [Hin%list_elem_of_In Hlt%Z.ltb_lt]. split; [done|]. apply first_of_is_Some. rewrite <- Hm'. by apply Hk.
Qed.

(** ** The policy as a whole *)

(** The rules of a policy besides [KeepLast]. *)
Definition interval_rules (policy : RetentionPolicy) : list (Z * Z) :=
  [(KeepHourly policy, Hour); (KeepDaily policy, 24 * Hour); (KeepWeekly policy, 7 * 24 * Hour); (KeepMonthly policy, 30 * 24 * Hour)].

(** What a policy promises to keep of the backups [l] of an instance at time
    [now]: a backup with fewer than [KeepLast] newer ones, the newest backup of
    each of the newest intervals, and every backup younger than [MinAge]. *)
Definition promised (policy : RetentionPolicy) (now : Z) (l : list BackupInfo) (b : BackupInfo) : Prop :=
  Z.of_nat (length (List.filter (fun x => BI_CreatedAt b <? BI_CreatedAt x) l)) < KeepLast policy \/
  (exists count interval, (count, interval) ∈ interval_rules policy /\
     (forall x, x ∈ l -> bucket_of interval x = bucket_of interval b -> BI_CreatedAt x <= BI_CreatedAt b) /\
     Z.of_nat (size (filter (fun k => bucket_of interval b < k) (bucket_set interval l))) < count) \/
  (0 < MinAge policy /\ now - BI_CreatedAt b < MinAge policy).

Lemma foldl_ids (l : list BackupInfo) : forall keep b, b ∈ l ->
  BI_ID b ∈ foldl (fun (keep : gset string) b => keep ∪ {[BI_ID b]}) keep l.
Proof.
  assert (forall l (keep : gset string) i, i ∈ keep -> i ∈ foldl (fun (keep : gset string) b => keep ∪ {[BI_ID b]}) keep l) as Hm.
  { clear. induction l as [|b l IH]; intros keep i Hi; simpl; [done|]. apply IH. set_solver. }
  induction l as [|b l IH]; intros keep x Hx; [by apply elem_of_nil in Hx|]. simpl.
  apply elem_of_cons in Hx as [->|Hx]; [apply Hm; set_solver|by apply IH].
Qed.

Lemma kept_promised policy l b :
  b ∈ take (Z.to_nat (KeepLast policy)) l \/
  (exists count interval, (count, interval) ∈ interval_rules policy /\ protected_by l count interval b) ->
  BI_ID b ∈ kept_ids policy l.
Proof.
  unfold kept_ids. intros [Hb|(count & interval & Hr & Hp)].
  - do 4 apply keepByInterval_mono. by apply foldl_ids.
  - unfold interval_rules in Hr. rewrite !elem_of_cons, elem_of_nil in Hr.
    destruct Hr as [[= -> ->]|[[= -> ->]|[[= -> ->]|[[= -> ->]|[]]]]].
    + do 3 apply keepByInterval_mono. by apply keepByInterval_protected.
    + do 2 apply keepByInterval_mono. by apply keepByInterval_protected.
    + apply keepByInterval_mono. by apply keepByInterval_protected.
    + by apply keepByInterval_protected.
Qed.

#[export] Instance bucket_set_proper interval : Proper ((≡ₚ) ==> (=)) (bucket_set interval).
Proof. intros l k Hp. unfold bucket_set. apply set_eq. intros x. rewrite !elem_of_list_to_set. by rewrite Hp. Qed.

Lemma bucket_set_perm interval l k : l ≡ₚ k -> bucket_set interval l = bucket_set interval k.
Proof. intros Hp. by rewrite Hp. Qed.

(** In a list sorted newest first, the first of a bucket is its newest. *)
Lemma first_of_newest interval l b :
  StronglySorted (fun a b => BI_CreatedAt b <= BI_CreatedAt a) l -> NoDup (map BI_CreatedAt l) -> b ∈ l ->
  (forall x, x ∈ l -> bucket_of interval x = bucket_of interval b -> BI_CreatedAt x <= BI_CreatedAt b) ->
  first_of interval (bucket_of interval b) l = Some b.
Proof.
  induction l as [|y l IH]; intros Hs Hnd Hb Hmax; [by apply elem_of_nil in Hb|].
  inversion_clear Hs as [|? ? Hs' Hy]. simpl in Hnd. apply NoDup_cons in Hnd as [Hny Hnd].
  rewrite Forall_forall in Hy. unfold first_of. simpl. destruct (Z.eqb_spec (bucket_of interval y) (bucket_of interval b)) as [E|E].
  - apply elem_of_cons in Hb as [->|Hb]; [done|]. specialize (Hmax y ltac:(by left) E). specialize (Hy b Hb).
    destruct Hny. replace (BI_CreatedAt y) with (BI_CreatedAt b) by lia. by apply list_elem_of_fmap_2.
  - apply elem_of_cons in Hb as [->|Hb]; [done|]. apply IH; try done. intros x Hx. apply Hmax. by right.
Qed.

(** A promised backup is in the set the code computes, or too young to go. *)
Lemma promised_kept policy now l sorted b :
  sorted ≡ₚ l -> StronglySorted (fun a b => BI_CreatedAt b <= BI_CreatedAt a) sorted -> NoDup (map BI_CreatedAt l) -> b ∈ l ->
  promised policy now l b ->
  BI_ID b ∈ kept_ids policy sorted \/ (0 < MinAge policy /\ now - BI_CreatedAt b < MinAge policy).
Proof.
  intros Hp Hs Hnd Hb [Hl|[(count & interval & Hr & Hmax & Hc)|Hy]]; [left|left|by right]; apply kept_promised.
  - left. apply (take_descending BI_CreatedAt); [done|by rewrite Hp|by rewrite Hp|].
    rewrite (Permutation_length (filter_perm _ _ _ Hp)). lia.
  - right. exists count, interval. split; [done|]. split.
    + apply first_of_newest; [done|by rewrite Hp|by rewrite Hp|]. intros x Hx. apply Hmax. by rewrite <- Hp.
    + by rewrite (bucket_set_perm interval sorted l Hp).
Qed.

Section retention.
Context {D W : Type} `{BackupStore D} `{Host W}.
Context (visit : gmap string (list BackupInfo) -> list (string * list BackupInfo)).
Context (visit_perm : forall m, visit m ≡ₚ map_to_list m).

Lemma records_all (bm : BackupManager D W) k b : b ∈ records bm k -> b ∈ all_records (backups bm).
Proof.
  unfold records. destruct (backups bm !! k) as [l|] eqn:E; simpl; [|by intros ?%elem_of_nil].
  intros Hb. apply elem_of_all_records. eauto.
Qed.

(** Distinct ids keep the instances apart. *)
Lemma records_same_instance (bm : BackupManager D W) k1 k2 a b :
  NoDup (map BI_ID (all_records (backups bm))) -> a ∈ records bm k1 -> b ∈ records bm k2 -> BI_ID a = BI_ID b -> k1 = k2.
Proof.
  intros Hnd Ha Hb Heq. destruct (decide (k1 = k2)) as [|Hne]; [done|]. exfalso. revert Hnd.
  rewrite (all_records_split (backups bm) k1), map_app. intros (_ & Hdis & _)%NoDup_app.
  apply (Hdis (BI_ID a)); [by apply list_elem_of_fmap_2|]. rewrite Heq. apply list_elem_of_fmap_2.
  unfold records in Hb. destruct (backups bm !! k2) as [l|] eqn:E; simpl in Hb; [|by apply elem_of_nil in Hb].
  apply elem_of_all_records. exists k2, l. by rewrite lookup_delete_ne.
Qed.

(** A deletion does not touch records with another id, nor add any. *)
Lemma DeleteBackup_others (bm : BackupManager D W) id k :
  (forall b, b ∈ records bm k -> BI_ID b <> id -> b ∈ records (DeleteBackup visit bm id).1 k) /\
  (forall b, b ∈ records (DeleteBackup visit bm id).1 k -> b ∈ records bm k) /\
  ((forall b, b ∈ records bm k -> BI_ID b <> id) -> records (DeleteBackup visit bm id).1 k = records bm k).
Proof.
  unfold DeleteBackup. destruct (find_entry _ id) as [[[k' i] t]|] eqn:Ef; [|done].
  destruct (baseReference visit bm t) as [r|]; [done|].
  destruct (find_entry_Some visit visit_perm _ _ _ _ _ Ef) as (l & Hl & Hi & Hid).
  assert (records bm k' = l) as Hrec by (unfold records; by rewrite Hl).
  assert (forall bm' : BackupManager D W, (exists l', backups bm' = <[k' := l']> (backups bm) /\ l' ≡ₚ delete i l) \/ (exists l', backups bm' = <[k' := l']> (backups bm) /\ l' ≡ₚ l) ->
    (forall b, b ∈ records bm k -> BI_ID b <> id -> b ∈ records bm' k) /\
    (forall b, b ∈ records bm' k -> b ∈ records bm k) /\
    ((forall b, b ∈ records bm k -> BI_ID b <> id) -> records bm' k = records bm k)) as Hgen.
  { intros bm' Hbm'. unfold records. destruct Hbm' as [(l' & -> & Hp)|(l' & -> & Hp)];
      (destruct (decide (k = k')) as [->|Hne]; [rewrite lookup_insert_eq, Hl; simpl|by rewrite lookup_insert_ne]);
      (split_and!; [intros b Hb Hnb|intros b Hb|intros Hall; exfalso; apply (Hall t); [by eapply list_elem_of_lookup_2|done]]);
      rewrite ?Hp in *; try done.
    - rewrite (delete_Permutation l i t Hi) in Hb. apply elem_of_cons in Hb as [->|]; [done|done].
    - rewrite (delete_Permutation l i t Hi). by right. }
  destruct (removeBackupData _ _) as [w [e|]]; simpl; rewrite Hrec; apply Hgen.
  - right. exists (delete i l ++ [t]). simpl. split.
    + unfold records. simpl. rewrite lookup_insert_eq. simpl. by rewrite insert_insert_eq.
    + etrans; [symmetry; apply Permutation_cons_append|]. symmetry. by apply delete_Permutation.
  - left. exists (delete i l). split; [|done]. destruct (bm_ds bm); [|done]. by destruct (DeleteBackupRecord _ _).
Qed.

(** The pruning loop removes only ids of backups it was given, that are not
    kept and old enough. *)
Lemma prune_keeps now policy keep l : forall (bm : BackupManager D W) k b,
  b ∈ records bm k ->
  (forall x, x ∈ l -> BI_ID x = BI_ID b -> BI_ID x ∈ keep \/ (0 < MinAge policy /\ now - BI_CreatedAt x < MinAge policy)) ->
  b ∈ records (foldl (prune_one visit now policy keep) bm l) k.
Proof.
  induction l as [|x l IH]; intros bm k b Hb Hall; simpl; [done|].
  apply IH; [|intros y Hy; apply Hall; by right]. unfold prune_one.
  case_bool_decide as Ek; [done|]. case_if; [done|]. case_if; [done|].
  apply DeleteBackup_others; [done|]. intros Heq. destruct (Hall x ltac:(by left) ltac:(done)) as [?|[H1 H2]]; [done|].
  apply andb_false_iff in E as [E|E]; apply Z.ltb_ge in E; lia.
Qed.

Lemma prune_other_instance now policy keep l : forall (bm : BackupManager D W) k,
  (forall x b, x ∈ l -> b ∈ records bm k -> BI_ID b <> BI_ID x) ->
  records (foldl (prune_one visit now policy keep) bm l) k = records bm k.
Proof.
  induction l as [|x l IH]; intros bm k Hall; simpl; [done|].
  assert (records (prune_one visit now policy keep bm x) k = records bm k) as Hx.
  { unfold prune_one. repeat case_if; try done. apply DeleteBackup_others.
    intros b Hb. by apply Hall; [left|]. }
  rewrite IH; [done|]. rewrite Hx. intros y b Hy. apply Hall. by right.
Qed.

Lemma prune_adds_none now policy keep l : forall (bm : BackupManager D W) k b,
  b ∈ records (foldl (prune_one visit now policy keep) bm l) k -> b ∈ records bm k.
Proof.
  induction l as [|x l IH]; intros bm k b Hb; simpl in Hb; [done|]. apply IH in Hb. revert Hb.
  unfold prune_one. repeat case_if; try done. apply DeleteBackup_others.
Qed.
End retention.

(** C7: retention never breaks its promise.  Whatever the host does when data is
    removed, [applyRetention] leaves every backup the policy promises to keep (the
    newest [KeepLast], the newest of each of the newest hours, days, weeks and
    months asked for, and those younger than [MinAge]), adds none, and leaves the
    backups of other instances exactly as they were. *)
Theorem retention_keeps_promises {D W : Type} `{BackupStore D} `{Host W}
    (visit : gmap string (list BackupInfo) -> list (string * list BackupInfo))
    (sort_newest : list BackupInfo -> list BackupInfo) (bm : BackupManager D W) now k policy :
  (forall m, visit m ≡ₚ map_to_list m) ->
  (forall l, sort_newest l ≡ₚ l /\ StronglySorted (fun a b => BI_CreatedAt b <= BI_CreatedAt a) (sort_newest l)) ->
  NoDup (map BI_ID (all_records (backups bm))) -> NoDup (map BI_CreatedAt (records bm k)) ->
  let bm' := applyRetention visit sort_newest bm now k policy in
  (forall b, b ∈ records bm k -> promised policy now (records bm k) b -> b ∈ records bm' k) /\
  (forall k' b, b ∈ records bm' k' -> b ∈ records bm k') /\
  (forall k', k' <> k -> records bm' k' = records bm k') /\
  (no_rule policy = true -> bm' = bm).
Proof.
  intros Hv Hsort Hid Hnd bm'. unfold bm', applyRetention. destruct (no_rule policy) eqn:Er; [done|].
  destruct (Hsort (records bm k)) as [Hp Hs]. split_and!; [|by apply prune_adds_none|intros k' Hne|done].
  - intros b Hb Hprom. apply prune_keeps; [done|done|]. intros x Hx Heq. rewrite Hp in Hx.
    assert (x = b) as ->; [|by eapply promised_kept].
    eapply same_id_eq; [done|by eapply records_all|by eapply records_all|done].
  - apply prune_other_instance; [done|]. intros x b Hx Hb Heq. rewrite Hp in Hx. apply Hne.
    by eapply records_same_instance.
Qed.
