(* ===== verification/InstanceStore.v ===== *)
(** * The datastore: instances, events, jobs, API keys and backups

    internal/datastore/datastore.go, jobs.go, apikeys.go and backups.go.  The
    tables of the SQLite file are maps by primary key (events are a list, oldest
    row first), with the uniqueness of names and the cascade from instances to
    events of the schema in migrations/registry.go.  As in [StackStore], a
    statement may fail for the database's own reasons: the failures to come are
    part of the state.  Columns that hold JSON hold its text; [Json] is
    encoding/json on the type of the column. *)

From stdpp Require Import base list gmap strings sorting pretty.
From Stdlib Require Import Ascii ZArith Lia SpecFloat.
From S2P Require Import Prelude GoStrings GoText GoTime ProviderTypes Validation Jobs Backup.

Local Open Scope Z_scope.

Class Json (A : Type) := { Marshal : A -> result string; Unmarshal : string -> result A }.

(** What is marshalled is read back. *)
Class JsonLaws (A : Type) `{Json A} := {
  json_round_trip (x : A) s : Marshal x = Ok s -> Unmarshal s = Ok x
}.

Abbreviation labels := (gmap string string).

(** ** Rows and records *)

Record Instance := {
  In_ID : string; In_Name : string; In_Provider : string; In_State : string; In_Spec : InstanceSpec;
  In_Handle : InstanceHandle; In_CreatedAt : Z; In_UpdatedAt : Z; In_StartedAt : option Z;
  In_Labels : labels; In_Annotations : labels; In_Backup : option InstanceBackupConfig
}.

Record InstanceRow := {
  Row_ID : string; Row_Name : string; Row_Provider : string; Row_State : string; Row_Spec : string;
  Row_Handle : string; Row_CreatedAt : Z; Row_UpdatedAt : Z; Row_StartedAt : option Z;
  Row_Labels : string; Row_Annotations : string; Row_Backup : option string;
  Row_CPUs : Z; Row_MemoryMB : Z; Row_OSType : string; Row_Arch : string; Row_Image : string
}.

Record Event := {
  Ev_ID : Z; Ev_InstanceID : string; Ev_Type : string; Ev_State : string; Ev_Message : string;
  Ev_Metadata : string; Ev_Timestamp : Z
}.

Record JobRow := {
  J_ID : string; J_Type : string; J_Description : string; J_Status : string; J_Progress : spec_float;
  J_Message : string; J_Result : option string; J_Error : option string; J_Metadata : string;
  J_CreatedAt : Z; J_StartedAt : option Z; J_CompletedAt : option Z
}.

(** A [job.Job] as it is read back. *)
Record StoredJob := {
  SJ_ID : string; SJ_Type : string; SJ_Description : string; SJ_Status : string; SJ_Progress : spec_float;
  SJ_Message : string; SJ_Result : option (list (string * value)); SJ_Error : string;
  SJ_Metadata : option labels; SJ_CreatedAt : Z; SJ_StartedAt : option Z; SJ_CompletedAt : option Z
}.

Record APIKeyRecord := {
  Key_ID : string; Key_Name : string; Key_HashedKey : string; Key_Permissions : option (list string);
  Key_CreatedAt : Z; Key_LastUsedAt : option Z; Key_ExpiresAt : option Z
}.

Record KeyRow := {
  KR_Name : string; KR_HashedKey : string; KR_Permissions : string; KR_CreatedAt : Z;
  KR_LastUsedAt : option Z; KR_ExpiresAt : option Z
}.

Record Tables := {
  instances : gmap string InstanceRow;
  events : list Event;
  next_event : Z;
  jobs : gmap string JobRow;
  api_keys : gmap string KeyRow;
  backup_rows : gmap string BackupRecord;
  faults : list (option error)
}.

Definition set_instances (ds : Tables) m ev : Tables :=
  {| instances := m; events := ev; next_event := next_event ds; jobs := jobs ds; api_keys := api_keys ds;
     backup_rows := backup_rows ds; faults := faults ds |}.
Definition set_events (ds : Tables) ev next : Tables :=
  {| instances := instances ds; events := ev; next_event := next; jobs := jobs ds; api_keys := api_keys ds;
     backup_rows := backup_rows ds; faults := faults ds |}.
Definition set_jobs (ds : Tables) m : Tables :=
  {| instances := instances ds; events := events ds; next_event := next_event ds; jobs := m; api_keys := api_keys ds;
     backup_rows := backup_rows ds; faults := faults ds |}.
Definition set_keys (ds : Tables) m : Tables :=
  {| instances := instances ds; events := events ds; next_event := next_event ds; jobs := jobs ds; api_keys := m;
     backup_rows := backup_rows ds; faults := faults ds |}.
Definition set_backup_rows (ds : Tables) m : Tables :=
  {| instances := instances ds; events := events ds; next_event := next_event ds; jobs := jobs ds; api_keys := api_keys ds;
     backup_rows := m; faults := faults ds |}.

(** One statement: what the database says of it, before it looks at the rows. *)
Definition statement (ds : Tables) : Tables * option error :=
  match faults ds with
  | [] => (ds, None)
  | f :: fs => ({| instances := instances ds; events := events ds; next_event := next_event ds; jobs := jobs ds;
                   api_keys := api_keys ds; backup_rows := backup_rows ds; faults := fs |}, f)
  end.

Definition constraint_failed : error := Errorf "UNIQUE constraint failed" [].

(** [fmt.Errorf(fmt, err)] when the error is not nil, over a result. *)
Definition wrap_err {A} (fmt : string) (args : list string) (r : result A) : result A :=
  match r with Ok x => Ok x | Err e => Err (Wrapf fmt args e) end.

(** ** Events *)

Definition EventTypeCreated : string := "created".
Definition EventTypeUpdated : string := "updated".

(** [recordEvent], with the metadata its callers pass (nil): the row is inserted
    if its instance is there, as the foreign key demands. *)
Definition recordEvent (ds : Tables) (now : Z) (instanceID eventType state message : string) : Tables * option error :=
  let '(ds, fault) := statement ds in
  match fault with
  | Some e => (ds, Some e)
  | None =>
      match instances ds !! instanceID with
      | None => (ds, Some constraint_failed)
      | Some _ =>
          (set_events ds (events ds ++ [{| Ev_ID := next_event ds; Ev_InstanceID := instanceID; Ev_Type := eventType;
             Ev_State := state; Ev_Message := message; Ev_Metadata := ""; Ev_Timestamp := now |}]) (next_event ds + 1), None)
      end
  end.

Definition defaultEventLimit : Z := 100.
Definition maxEventLimit : Z := 1000.

(** Newest first, ties by row number. *)
Definition event_le (a b : Event) : Prop :=
  Ev_Timestamp b < Ev_Timestamp a \/ Ev_Timestamp a = Ev_Timestamp b /\ Ev_ID b <= Ev_ID a.
#[export] Instance event_le_dec : RelDecision event_le.
Proof. intros a b. unfold event_le. apply _. Defined.

Definition event_limit (limit : Z) : Z :=
  if limit <=? 0 then defaultEventLimit else if maxEventLimit <? limit then maxEventLimit else limit.

Definition GetEvents (ds : Tables) (instanceID : string) (limit : Z) : Tables * result (list Event) :=
  let '(ds, fault) := statement ds in
  match fault with
  | Some e => (ds, Err (Wrapf "failed to query events: %w" [] e))
  | None => (ds, Ok (take (Z.to_nat (event_limit limit))
                       (merge_sort event_le (List.filter (fun e => streq (Ev_InstanceID e) instanceID) (events ds)))))
  end.

(** ** Patterns

    SQLite's [LIKE] with an escape character: percent stands for any run of
    characters, underscore for one, the escape makes the next one literal, and
    ASCII letters match in either case. *)
Definition fold_case (c : ascii) : ascii := if between "A" "Z" c then ascii_of_N (Z.to_N (code c + 32)) else c.

Fixpoint like (esc : ascii) (pat : list ascii) : list ascii -> bool :=
  match pat with
  | [] => fun s => match s with [] => true | _ => false end
  | p :: pat' =>
      if Ascii.eqb p esc then
        match pat' with
        | [] => fun _ => false
        | q :: rest => fun s => match s with c :: s' => Ascii.eqb (fold_case q) (fold_case c) && like esc rest s' | [] => false end
        end
      else if Ascii.eqb p "%" then
        (fix any (s : list ascii) : bool := like esc pat' s || match s with [] => false | _ :: s' => any s' end)
      else if Ascii.eqb p "_" then fun s => match s with _ :: s' => like esc pat' s' | [] => false end
      else fun s => match s with c :: s' => Ascii.eqb (fold_case p) (fold_case c) && like esc pat' s' | [] => false end
  end.

Definition backslash : ascii := "092"%char.

(** The three replacements of [ListInstances], and the pattern it sends. *)
Definition escape_like (image : string) : string :=
  let s := ReplaceByte image backslash (of_bytes [backslash; backslash]) in
  let s := ReplaceByte s "%" (of_bytes [backslash; "%"%char]) in
  ReplaceByte s "_" (of_bytes [backslash; "_"%char]).
Definition image_pattern (image : string) : string := "%" +:+ escape_like image +:+ "%".

Record InstanceFilter := {
  F_Provider : string; F_States : list string; F_Labels : list (string * string);
  F_MinCPUs : option Z; F_MaxCPUs : option Z; F_MinMemoryMB : option Z; F_MaxMemoryMB : option Z;
  F_OSType : string; F_Arch : string; F_Image : string
}.
Definition no_filter : InstanceFilter :=
  {| F_Provider := ""; F_States := []; F_Labels := []; F_MinCPUs := None; F_MaxCPUs := None; F_MinMemoryMB := None;
     F_MaxMemoryMB := None; F_OSType := ""; F_Arch := ""; F_Image := "" |}.

Section store.
Context `{Json InstanceSpec} `{Json InstanceHandle} `{Json labels} `{Json InstanceBackupConfig}.
Context `{Json (list (string * value))} `{Json (list string)}.

(** SQLite's [json_extract(labels, path)]. *)
Context (json_extract : string -> string -> option string).

(** ** Instances *)

(** The JSON columns of a new row, in the order they are marshalled. *)
Definition new_row (now : Z) (i : Instance) : result InstanceRow :=
  match wrap_err "failed to marshal spec: %w" [] (Marshal (In_Spec i)) with Err e => Err e | Ok spec =>
  match wrap_err "failed to marshal handle: %w" [] (Marshal (In_Handle i)) with Err e => Err e | Ok handle =>
  match wrap_err "failed to marshal labels: %w" [] (Marshal (In_Labels i)) with Err e => Err e | Ok labs =>
  match wrap_err "failed to marshal annotations: %w" [] (Marshal (In_Annotations i)) with Err e => Err e | Ok anns =>
  match match In_Backup i with
        | None => Ok "{}"
        | Some b => wrap_err "failed to marshal backup config: %w" [] (Marshal b)
        end with Err e => Err e | Ok backup =>
  Ok {| Row_ID := In_ID i; Row_Name := In_Name i; Row_Provider := In_Provider i; Row_State := In_State i; Row_Spec := spec;
        Row_Handle := handle; Row_CreatedAt := now; Row_UpdatedAt := now; Row_StartedAt := None; Row_Labels := labs;
        Row_Annotations := anns; Row_Backup := Some backup; Row_CPUs := Spec_CPUs (In_Spec i);
        Row_MemoryMB := Spec_MemoryMB (In_Spec i); Row_OSType := Spec_OSType (In_Spec i); Row_Arch := Spec_Arch (In_Spec i);
        Row_Image := Spec_Image (In_Spec i) |}
  end end end end end.

Definition name_taken (m : gmap string InstanceRow) (name : string) : bool :=
  existsb (fun p => streq (Row_Name p.2) name) (map_to_list m).

Definition CreateInstance (ds : Tables) (now : Z) (i : Instance) : Tables * option error :=
  match new_row now i with
  | Err e => (ds, Some e)
  | Ok row =>
      let '(ds, fault) := statement ds in
      match fault with
      | Some e => (ds, Some (Wrapf "failed to insert instance: %w" [] e))
      | None =>
          match instances ds !! In_ID i with
          | Some _ => (ds, Some (Wrapf "failed to insert instance: %w" [] constraint_failed))
          | None =>
              if name_taken (instances ds) (In_Name i) then (ds, Some (Wrapf "failed to insert instance: %w" [] constraint_failed))
              else
                let ds := set_instances ds (<[In_ID i := row]> (instances ds)) (events ds) in
                ((recordEvent ds now (In_ID i) EventTypeCreated (In_State i) "Instance created").1, None)
          end
      end
  end.

Definition scanInstance (r : InstanceRow) : result Instance :=
  match wrap_err "failed to unmarshal spec: %w" [] (Unmarshal (Row_Spec r)) with Err e => Err e | Ok spec =>
  match wrap_err "failed to unmarshal handle: %w" [] (Unmarshal (Row_Handle r)) with Err e => Err e | Ok handle =>
  match wrap_err "failed to unmarshal labels: %w" [] (Unmarshal (Row_Labels r)) with Err e => Err e | Ok labs =>
  match wrap_err "failed to unmarshal annotations: %w" [] (Unmarshal (Row_Annotations r)) with Err e => Err e | Ok anns =>
  match match Row_Backup r with
        | None => Ok None
        | Some b => if streq b "" || streq b "{}" then Ok None
                    else match wrap_err "failed to unmarshal backup config: %w" [] (Unmarshal b) with
                         | Ok c => Ok (Some c) | Err e => Err e end
        end with Err e => Err e | Ok backup =>
  Ok {| In_ID := Row_ID r; In_Name := Row_Name r; In_Provider := Row_Provider r; In_State := Row_State r; In_Spec := spec;
        In_Handle := handle; In_CreatedAt := Row_CreatedAt r; In_UpdatedAt := Row_UpdatedAt r; In_StartedAt := Row_StartedAt r;
        In_Labels := labs; In_Annotations := anns; In_Backup := backup |}
  end end end end end.

Definition GetInstance (ds : Tables) (id : string) : Tables * result Instance :=
  let '(ds, fault) := statement ds in
  match fault with
  | Some e => (ds, Err (Wrapf "failed to query instance: %w" [] e))
  | None =>
      (ds, match instances ds !! id with
           | None => Err (Errorf "instance not found: %s" [id])
           | Some r => wrap_err "failed to query instance: %w" [] (scanInstance r)
           end)
  end.

Definition GetInstanceByName (ds : Tables) (name : string) : Tables * result (option Instance) :=
  let '(ds, fault) := statement ds in
  match fault with
  | Some e => (ds, Err (Wrapf "failed to query instance: %w" [] e))
  | None =>
      (ds, match List.find (fun p => streq (Row_Name p.2) name) (map_to_list (instances ds)) with
           | None => Ok None
           | Some (_, r) => match wrap_err "failed to query instance: %w" [] (scanInstance r) with Ok i => Ok (Some i) | Err e => Err e end
           end)
  end.

(** [UPDATE instances SET ... WHERE id = ?], and the check that a row was there. *)
Definition update_row (fmt : string) (ds : Tables) (id : string) (f : InstanceRow -> InstanceRow) : Tables * option error :=
  let '(ds, fault) := statement ds in
  match fault with
  | Some e => (ds, Some (Wrapf fmt [] e))
  | None =>
      match instances ds !! id with
      | None => (ds, Some (Errorf "instance not found: %s" [id]))
      | Some r => (set_instances ds (<[id := f r]> (instances ds)) (events ds), None)
      end
  end.

Definition row_state (now : Z) (state : string) (r : InstanceRow) : InstanceRow :=
  {| Row_ID := Row_ID r; Row_Name := Row_Name r; Row_Provider := Row_Provider r; Row_State := state; Row_Spec := Row_Spec r;
     Row_Handle := Row_Handle r; Row_CreatedAt := Row_CreatedAt r; Row_UpdatedAt := now;
     Row_StartedAt := if streq state StateRunning then Some now else Row_StartedAt r; Row_Labels := Row_Labels r;
     Row_Annotations := Row_Annotations r; Row_Backup := Row_Backup r; Row_CPUs := Row_CPUs r; Row_MemoryMB := Row_MemoryMB r;
     Row_OSType := Row_OSType r; Row_Arch := Row_Arch r; Row_Image := Row_Image r |}.

Definition UpdateInstanceState (ds : Tables) (now : Z) (id state : string) : Tables * option error :=
  let '(ds, err) := update_row "failed to update instance state: %w" ds id (row_state now state) in
  match err with
  | Some e => (ds, Some e)
  | None => ((recordEvent ds now id EventTypeUpdated state ("State changed to " +:+ state)).1, None)
  end.

Definition row_spec (now : Z) (text : string) (spec : InstanceSpec) (r : InstanceRow) : InstanceRow :=
  {| Row_ID := Row_ID r; Row_Name := Row_Name r; Row_Provider := Row_Provider r; Row_State := Row_State r; Row_Spec := text;
     Row_Handle := Row_Handle r; Row_CreatedAt := Row_CreatedAt r; Row_UpdatedAt := now; Row_StartedAt := Row_StartedAt r;
     Row_Labels := Row_Labels r; Row_Annotations := Row_Annotations r; Row_Backup := Row_Backup r; Row_CPUs := Spec_CPUs spec;
     Row_MemoryMB := Spec_MemoryMB spec; Row_OSType := Spec_OSType spec; Row_Arch := Spec_Arch spec; Row_Image := Spec_Image spec |}.

Definition UpdateInstanceSpec (ds : Tables) (now : Z) (id : string) (spec : InstanceSpec) : Tables * option error :=
  match Marshal spec with
  | Err e => (ds, Some (Wrapf "failed to marshal spec: %w" [] e))
  | Ok text => update_row "failed to update instance spec: %w" ds id (row_spec now text spec)
  end.

Definition row_handle (now : Z) (text : string) (r : InstanceRow) : InstanceRow :=
  {| Row_ID := Row_ID r; Row_Name := Row_Name r; Row_Provider := Row_Provider r; Row_State := Row_State r; Row_Spec := Row_Spec r;
     Row_Handle := text; Row_CreatedAt := Row_CreatedAt r; Row_UpdatedAt := now; Row_StartedAt := Row_StartedAt r;
     Row_Labels := Row_Labels r; Row_Annotations := Row_Annotations r; Row_Backup := Row_Backup r; Row_CPUs := Row_CPUs r;
     Row_MemoryMB := Row_MemoryMB r; Row_OSType := Row_OSType r; Row_Arch := Row_Arch r; Row_Image := Row_Image r |}.

Definition UpdateInstanceHandle (ds : Tables) (now : Z) (id : string) (handle : InstanceHandle) : Tables * option error :=
  match Marshal handle with
  | Err e => (ds, Some (Wrapf "failed to marshal handle: %w" [] e))
  | Ok text => update_row "failed to update instance handle: %w" ds id (row_handle now text)
  end.

Definition row_backup (now : Z) (text : string) (r : InstanceRow) : InstanceRow :=
  {| Row_ID := Row_ID r; Row_Name := Row_Name r; Row_Provider := Row_Provider r; Row_State := Row_State r; Row_Spec := Row_Spec r;
     Row_Handle := Row_Handle r; Row_CreatedAt := Row_CreatedAt r; Row_UpdatedAt := now; Row_StartedAt := Row_StartedAt r;
     Row_Labels := Row_Labels r; Row_Annotations := Row_Annotations r; Row_Backup := Some text; Row_CPUs := Row_CPUs r;
     Row_MemoryMB := Row_MemoryMB r; Row_OSType := Row_OSType r; Row_Arch := Row_Arch r; Row_Image := Row_Image r |}.

Definition ds_UpdateBackupConfig (ds : Tables) (now : Z) (id : string) (config : option InstanceBackupConfig) : Tables * option error :=
  match match config with None => Ok "{}" | Some c => wrap_err "failed to marshal backup config: %w" [] (Marshal c) end with
  | Err e => (ds, Some e)
  | Ok text => update_row "failed to update backup config: %w" ds id (row_backup now text)
  end.

Definition set_spec_name (spec : InstanceSpec) (name : string) : InstanceSpec :=
  {| Spec_Name := name; Spec_Description := Spec_Description spec; Spec_CPUs := Spec_CPUs spec;
     Spec_MemoryMB := Spec_MemoryMB spec; Spec_MaxProc := Spec_MaxProc spec; Spec_ReadBPS := Spec_ReadBPS spec;
     Spec_WriteBPS := Spec_WriteBPS spec; Spec_ReadIOPS := Spec_ReadIOPS spec; Spec_WriteIOPS := Spec_WriteIOPS spec;
     Spec_Image := Spec_Image spec; Spec_OSType := Spec_OSType spec; Spec_OSVersion := Spec_OSVersion spec;
     Spec_Arch := Spec_Arch spec; Spec_CloudInit := Spec_CloudInit spec; Spec_Bootloader := Spec_Bootloader spec;
     Spec_Disks := Spec_Disks spec; Spec_Networks := Spec_Networks spec;
     Spec_ProviderConfig := Spec_ProviderConfig spec; Spec_Labels := Spec_Labels spec;
     Spec_Annotations := Spec_Annotations spec |}.

Definition row_renamed (now : Z) (name spec handle : string) (r : InstanceRow) : InstanceRow :=
  {| Row_ID := name; Row_Name := name; Row_Provider := Row_Provider r; Row_State := Row_State r; Row_Spec := spec;
     Row_Handle := handle; Row_CreatedAt := Row_CreatedAt r; Row_UpdatedAt := now; Row_StartedAt := Row_StartedAt r;
     Row_Labels := Row_Labels r; Row_Annotations := Row_Annotations r; Row_Backup := Row_Backup r; Row_CPUs := Row_CPUs r;
     Row_MemoryMB := Row_MemoryMB r; Row_OSType := Row_OSType r; Row_Arch := Row_Arch r; Row_Image := Row_Image r |}.

Definition event_renamed (oldName newName : string) (e : Event) : Event :=
  if streq (Ev_InstanceID e) oldName then
    {| Ev_ID := Ev_ID e; Ev_InstanceID := newName; Ev_Type := Ev_Type e; Ev_State := Ev_State e; Ev_Message := Ev_Message e;
       Ev_Metadata := Ev_Metadata e; Ev_Timestamp := Ev_Timestamp e |}
  else e.

(** Several statements in a transaction: the first failure ends it, and the
    deferred [Rollback] undoes what was done. *)
Fixpoint statements (n : nat) (fmts : nat -> string) (ds : Tables) : Tables * option error :=
  match n with
  | O => (ds, None)
  | S n' =>
      let '(ds, fault) := statement ds in
      match fault with
      | Some e => (ds, Some (Wrapf (fmts n') [] e))
      | None => statements n' fmts ds
      end
  end.

Definition rename_fmt (n : nat) : string :=
  match n with
  | 1%nat => "failed to begin rename transaction: %w"
  | 0%nat => "failed to defer foreign keys: %w"
  | _ => ""
  end.

Definition RenameInstance (ds : Tables) (now : Z) (oldName newName : string) (handle : InstanceHandle) : Tables * option error :=
  match Marshal handle with
  | Err e => (ds, Some (Wrapf "failed to marshal handle: %w" [] e))
  | Ok handleJSON =>
  let '(ds, fault) := statements 2 rename_fmt ds in
  match fault with
  | Some e => (ds, Some e)
  | None =>
  let '(ds, fault) := statement ds in
  match fault with
  | Some e => (ds, Some (Wrapf "failed to read the spec of %s: %w" [oldName] e))
  | None =>
  match instances ds !! oldName with
  | None => (ds, Some (Errorf "instance not found: %s" [oldName]))
  | Some r =>
  match wrap_err "failed to decode the spec of %s: %w" [oldName] (Unmarshal (Row_Spec r)) with
  | Err e => (ds, Some e)
  | Ok spec =>
  match wrap_err "failed to encode the renamed spec: %w" [] (Marshal (set_spec_name spec newName)) with
  | Err e => (ds, Some e)
  | Ok renamedSpec =>
  let '(ds, fault) := statement ds in
  match fault with
  | Some e => (ds, Some (Wrapf "failed to rename instance: %w" [] e))
  | None =>
  if bool_decide (is_Some (delete oldName (instances ds) !! newName)) || name_taken (delete oldName (instances ds)) newName
  then (ds, Some (Wrapf "failed to rename instance: %w" [] constraint_failed))
  else
  let '(ds, fault) := statement ds in
  match fault with
  | Some e => (ds, Some (Wrapf "failed to update events during rename: %w" [] e))
  | None =>
  let '(ds, fault) := statement ds in
  match fault with
  | Some e => (ds, Some (Wrapf "failed to commit rename: %w" [] e))
  | None =>
      (set_instances ds (<[newName := row_renamed now newName renamedSpec handleJSON r]> (delete oldName (instances ds)))
         (map (event_renamed oldName newName) (events ds)), None)
  end end end end end end end end end.

(** The events of an instance go with it. *)
Definition DeleteInstance (ds : Tables) (id : string) : Tables * option error :=
  let '(ds, fault) := statement ds in
  match fault with
  | Some e => (ds, Some (Wrapf "failed to delete instance: %w" [] e))
  | None =>
      match instances ds !! id with
      | None => (ds, Some (Errorf "instance not found: %s" [id]))
      | Some _ => (set_instances ds (delete id (instances ds))
                     (List.filter (fun e => negb (streq (Ev_InstanceID e) id)) (events ds)), None)
      end
  end.

Definition opt_ok (f : Z -> bool) (o : option Z) : bool := match o with Some n => f n | None => true end.

Definition row_matches (filter : InstanceFilter) (r : InstanceRow) : bool :=
  (streq (F_Provider filter) "" || streq (Row_Provider r) (F_Provider filter)) &&
  (bool_decide (F_States filter = []) || existsb (streq (Row_State r)) (F_States filter)) &&
  forallb (fun p => bool_decide (json_extract (Row_Labels r) ("$." +:+ p.1) = Some p.2)) (F_Labels filter) &&
  opt_ok (fun n => n <=? Row_CPUs r) (F_MinCPUs filter) && opt_ok (fun n => Row_CPUs r <=? n) (F_MaxCPUs filter) &&
  opt_ok (fun n => n <=? Row_MemoryMB r) (F_MinMemoryMB filter) && opt_ok (fun n => Row_MemoryMB r <=? n) (F_MaxMemoryMB filter) &&
  (streq (F_OSType filter) "" || streq (Row_OSType r) (F_OSType filter)) &&
  (streq (F_Arch filter) "" || streq (Row_Arch r) (F_Arch filter)) &&
  (streq (F_Image filter) "" || like backslash (bytes (image_pattern (F_Image filter))) (bytes (Row_Image r))).

Fixpoint scan_all (rows : list InstanceRow) : result (list Instance) :=
  match rows with
  | [] => Ok []
  | r :: rest =>
      match scanInstance r with
      | Err e => Err (Wrapf "failed to scan instance: %w" [] e)
      | Ok i => match scan_all rest with Ok l => Ok (i :: l) | Err e => Err e end
      end
  end.

#[local] Instance newest_dec : RelDecision (fun a b : InstanceRow => Row_CreatedAt b <= Row_CreatedAt a).
Proof. intros a b. apply _. Defined.

(** Rows newest first; a key no label can have is refused before the query. *)
Definition ListInstances (ds : Tables) (filter : InstanceFilter) : Tables * result (list Instance) :=
  match for_each (fun p => wrap "invalid label key %q: %w" [p.1] (ValidateLabel p.1 p.2)) (F_Labels filter) with
  | Some e => (ds, Err e)
  | None =>
      let '(ds, fault) := statement ds in
      match fault with
      | Some e => (ds, Err (Wrapf "failed to query instances: %w" [] e))
      | None =>
          (ds, scan_all (merge_sort (fun a b => Row_CreatedAt b <= Row_CreatedAt a)
                           (List.filter (row_matches filter) (map_to_list (instances ds)).*2)))
      end
  end.

(** ** Jobs *)

Definition ErrJobRowNotFound : string := "job row not found".

Definition job_metadata (m : option labels) : result string :=
  match m with
  | Some m => if bool_decide (m = ∅) then Ok "{}" else wrap_err "failed to marshal job metadata: %w" [] (Marshal m)
  | None => Ok "{}"
  end.

Definition CreateJob (ds : Tables) (j : Job) : Tables * option error :=
  let rec := Snapshot j in
  match job_metadata (R_Metadata rec) with
  | Err e => (ds, Some e)
  | Ok metadataJSON =>
      let '(ds, fault) := statement ds in
      match fault with
      | Some e => (ds, Some (Wrapf "failed to create job %s: %w" [R_ID rec] e))
      | None =>
          match jobs ds !! R_ID rec with
          | Some _ => (ds, Some (Wrapf "failed to create job %s: %w" [R_ID rec] constraint_failed))
          | None =>
              (set_jobs ds (<[R_ID rec := {| J_ID := R_ID rec; J_Type := R_Type rec; J_Description := R_Description rec;
                 J_Status := status_string (R_Status rec); J_Progress := R_Progress rec; J_Message := R_Message rec;
                 J_Result := None; J_Error := None; J_Metadata := metadataJSON; J_CreatedAt := R_CreatedAt rec;
                 J_StartedAt := None; J_CompletedAt := None |}]> (jobs ds)), None)
          end
      end
  end.

(** Reading a row back; GetJob and ListJobs differ only in their messages. *)
Definition scan_job (fmt_result fmt_meta : string) (args : list string) (r : JobRow) : result StoredJob :=
  match match J_Result r with
        | None => Ok None
        | Some t => match wrap_err fmt_result args (Unmarshal t) with Ok v => Ok (Some v) | Err e => Err e end
        end with
  | Err e => Err e
  | Ok res =>
      match if negb (streq (J_Metadata r) "") && negb (streq (J_Metadata r) "null")
            then match wrap_err fmt_meta args (Unmarshal (J_Metadata r)) with Ok m => Ok (Some m) | Err e => Err e end
            else Ok None with
      | Err e => Err e
      | Ok meta =>
          Ok {| SJ_ID := J_ID r; SJ_Type := J_Type r; SJ_Description := J_Description r; SJ_Status := J_Status r;
                SJ_Progress := J_Progress r; SJ_Message := J_Message r; SJ_Result := res; SJ_Error := default "" (J_Error r);
                SJ_Metadata := meta; SJ_CreatedAt := J_CreatedAt r; SJ_StartedAt := J_StartedAt r; SJ_CompletedAt := J_CompletedAt r |}
      end
  end.

Definition GetJob (ds : Tables) (id : string) : Tables * result (option StoredJob) :=
  let '(ds, fault) := statement ds in
  match fault with
  | Some e => (ds, Err (Wrapf "failed to get job %s: %w" [id] e))
  | None =>
      (ds, match jobs ds !! id with
           | None => Ok None
           | Some r => match scan_job "failed to unmarshal job result: %w" "failed to unmarshal job metadata: %w" [] r with
                       | Ok j => Ok (Some j) | Err e => Err e end
           end)
  end.

Fixpoint scan_jobs (rows : list JobRow) : result (list StoredJob) :=
  match rows with
  | [] => Ok []
  | r :: rest =>
      match scan_job "job %s has an unreadable result column: %w" "job %s has an unreadable metadata column: %w" [J_ID r] r with
      | Err e => Err e
      | Ok j => match scan_jobs rest with Ok l => Ok (j :: l) | Err e => Err e end
      end
  end.

#[local] Instance newest_job_dec : RelDecision (fun a b : JobRow => J_CreatedAt b <= J_CreatedAt a).
Proof. intros a b. apply _. Defined.

Definition ListJobs (ds : Tables) (status : option JobStatus) : Tables * result (list StoredJob) :=
  let '(ds, fault) := statement ds in
  match fault with
  | Some e => (ds, Err (Wrapf "failed to list jobs: %w" [] e))
  | None =>
      (ds, scan_jobs (merge_sort (fun a b => J_CreatedAt b <= J_CreatedAt a)
             (List.filter (fun r => match status with Some st => streq (J_Status r) (status_string st) | None => true end)
                (map_to_list (jobs ds)).*2)))
  end.

Definition UpdateJob (ds : Tables) (j : Job) : Tables * option error :=
  let rec := Snapshot j in
  match match R_Result rec with
        | None => Ok None
        | Some v => match wrap_err "failed to marshal job result: %w" [] (Marshal v) with Ok t => Ok (Some t) | Err e => Err e end
        end with
  | Err e => (ds, Some e)
  | Ok resultJSON =>
  match job_metadata (R_Metadata rec) with
  | Err e => (ds, Some e)
  | Ok metadataJSON =>
      let '(ds, fault) := statement ds in
      match fault with
      | Some e => (ds, Some (Wrapf "failed to update job %s: %w" [R_ID rec] e))
      | None =>
          match jobs ds !! R_ID rec with
          | None => (ds, Some (Errorf "job %s not found" [R_ID rec]))
          | Some r =>
              (set_jobs ds (<[R_ID rec := {| J_ID := J_ID r; J_Type := J_Type r; J_Description := J_Description r;
                 J_Status := status_string (R_Status rec); J_Progress := R_Progress rec; J_Message := R_Message rec;
                 J_Result := resultJSON; J_Error := if streq (R_Error rec) "" then None else Some (R_Error rec);
                 J_Metadata := metadataJSON; J_CreatedAt := J_CreatedAt r; J_StartedAt := R_StartedAt rec;
                 J_CompletedAt := R_CompletedAt rec |}]> (jobs ds)), None)
          end
      end
  end end.

Definition DeleteJob (ds : Tables) (id : string) : Tables * option error :=
  let '(ds, fault) := statement ds in
  match fault with
  | Some e => (ds, Some (Wrapf "failed to delete job %s: %w" [id] e))
  | None =>
      match jobs ds !! id with
      | None => (ds, Some (Wrapf "%w: %s" [id] (Sentinel ErrJobRowNotFound)))
      | Some _ => (set_jobs ds (delete id (jobs ds)), None)
      end
  end.

Definition interrupted (r : JobRow) : bool := streq (J_Status r) "pending" || streq (J_Status r) "running".

Definition close_out (now : Z) (r : JobRow) : JobRow :=
  if interrupted r then
    {| J_ID := J_ID r; J_Type := J_Type r; J_Description := J_Description r; J_Status := "failed"; J_Progress := J_Progress r;
       J_Message := J_Message r; J_Result := J_Result r;
       J_Error := Some "interrupted: the daemon stopped while this job was running"; J_Metadata := J_Metadata r;
       J_CreatedAt := J_CreatedAt r; J_StartedAt := J_StartedAt r; J_CompletedAt := Some now |}
  else r.

Definition FailInterruptedJobs (ds : Tables) (now : Z) : Tables * result Z :=
  let '(ds, fault) := statement ds in
  match fault with
  | Some e => (ds, Err (Wrapf "failed to close out interrupted jobs: %w" [] e))
  | None => (set_jobs ds (close_out now <$> jobs ds),
             Ok (Z.of_nat (length (List.filter interrupted (map_to_list (jobs ds)).*2))))
  end.

Definition expired (cutoff : Z) (r : JobRow) : bool :=
  existsb (streq (J_Status r)) ["completed"; "failed"; "canceled"] &&
  match J_CompletedAt r with Some t => t <? cutoff | None => false end.

Definition CleanupOldJobs (ds : Tables) (now maxAge : Z) : Tables * result Z :=
  let cutoff := now - maxAge in
  let '(ds, fault) := statement ds in
  match fault with
  | Some e => (ds, Err (Wrapf "failed to cleanup old jobs: %w" [] e))
  | None => (set_jobs ds (filter (fun p => expired cutoff p.2 = false) (jobs ds)),
             Ok (Z.of_nat (length (List.filter (expired cutoff) (map_to_list (jobs ds)).*2))))
  end.

(** ** API keys *)

Definition SaveAPIKey (ds : Tables) (k : APIKeyRecord) : Tables * option error :=
  match match Key_Permissions k with Some l => Marshal l | None => Ok "null" end with
  | Err e => (ds, Some (Wrapf "failed to marshal permissions: %w" [] e))
  | Ok perms =>
      let '(ds, fault) := statement ds in
      match fault with
      | Some e => (ds, Some (Wrapf "failed to save api key %s: %w" [Key_ID k] e))
      | None =>
          let created := match api_keys ds !! Key_ID k with Some r => KR_CreatedAt r | None => Key_CreatedAt k end in
          (set_keys ds (<[Key_ID k := {| KR_Name := Key_Name k; KR_HashedKey := Key_HashedKey k; KR_Permissions := perms;
             KR_CreatedAt := created; KR_LastUsedAt := Key_LastUsedAt k; KR_ExpiresAt := Key_ExpiresAt k |}]> (api_keys ds)), None)
      end
  end.

Definition DeleteAPIKey (ds : Tables) (id : string) : Tables * option error :=
  let '(ds, fault) := statement ds in
  match fault with
  | Some e => (ds, Some (Wrapf "failed to delete api key %s: %w" [id] e))
  | None => (set_keys ds (delete id (api_keys ds)), None)
  end.

(** Permissions that cannot be read are none. *)
Definition scan_key (p : string * KeyRow) : APIKeyRecord :=
  {| Key_ID := p.1; Key_Name := KR_Name p.2; Key_HashedKey := KR_HashedKey p.2;
     Key_Permissions := if streq (KR_Permissions p.2) "null" then None
                        else match Unmarshal (KR_Permissions p.2) with Ok l => Some l | Err _ => None end;
     Key_CreatedAt := KR_CreatedAt p.2; Key_LastUsedAt := KR_LastUsedAt p.2; Key_ExpiresAt := KR_ExpiresAt p.2 |}.

Definition ListAPIKeys (ds : Tables) : Tables * result (list APIKeyRecord) :=
  let '(ds, fault) := statement ds in
  match fault with
  | Some e => (ds, Err (Wrapf "failed to list api keys: %w" [] e))
  | None => (ds, Ok (map scan_key (map_to_list (api_keys ds))))
  end.

(** ** Backup records *)

Definition ds_SaveBackupRecord (ds : Tables) (now : Z) (id instanceID record : string) : Tables * option error :=
  let '(ds, fault) := statement ds in
  match fault with
  | Some e => (ds, Some (Wrapf "failed to save backup record %s: %w" [id] e))
  | None =>
      let created := match backup_rows ds !! id with Some r => BR_CreatedAt r | None => now end in
      (set_backup_rows ds (<[id := {| BR_ID := id; BR_InstanceID := instanceID; BR_Record := record; BR_CreatedAt := created |}]>
         (backup_rows ds)), None)
  end.

Definition ds_DeleteBackupRecord (ds : Tables) (id : string) : Tables * option error :=
  let '(ds, fault) := statement ds in
  match fault with
  | Some e => (ds, Some (Wrapf "failed to delete backup record %s: %w" [id] e))
  | None => (set_backup_rows ds (delete id (backup_rows ds)), None)
  end.

Definition ds_ListBackupRecords (ds : Tables) : Tables * result (list BackupRecord) :=
  let '(ds, fault) := statement ds in
  match fault with
  | Some e => (ds, Err (Wrapf "failed to list backup records: %w" [] e))
  | None => (ds, Ok (sort_by BR_CreatedAt Z.le (map_to_list (backup_rows ds)).*2))
  end.

(** What the backup manager sees of the instances. *)
Definition ds_ListBackupConfigs (ds : Tables) : Tables * result (list (string * option InstanceBackupConfig)) :=
  let '(ds, r) := ListInstances ds no_filter in
  (ds, match r with Ok l => Ok (map (fun i => (In_ID i, In_Backup i)) l) | Err e => Err e end).

#[export] Instance Tables_BackupStore : BackupStore Tables := {
  UpdateBackupConfig := ds_UpdateBackupConfig;
  ListBackupConfigs := ds_ListBackupConfigs;
  ListBackupRecords := ds_ListBackupRecords;
  SaveBackupRecord := ds_SaveBackupRecord;
  DeleteBackupRecord := ds_DeleteBackupRecord
}.
End store.
