(* ===== verification/InstanceStoreFacts.v ===== *)
(** * Properties of the datastore *)

From stdpp Require Import base list gmap strings sorting pretty relations.
From Stdlib Require Import Ascii ZArith Lia SpecFloat.
From S2P Require Import Prelude GoStrings GoText GoTime ProviderTypes Validation Jobs Backup InstanceStore.

Local Open Scope Z_scope.

(** ** Patterns *)

(** The escape of one byte. *)
Definition escape_byte (c : ascii) : list ascii :=
  if ascii_in [backslash; "%"; "_"]%char c then [backslash; c] else [c].

Lemma flat_map_flat_map {A B C} (g : B -> list C) (f : A -> list B) l :
  flat_map g (flat_map f l) = flat_map (fun x => flat_map g (f x)) l.
Proof. induction l as [|x l IH]; simpl; [done|]. by rewrite flat_map_app, IH. Qed.

Lemma escape_like_bytes s : bytes (escape_like s) = flat_map escape_byte (bytes s).
Proof.
  unfold escape_like, ReplaceByte. rewrite !bytes_of_bytes, !flat_map_flat_map.
  apply flat_map_ext. intros c.
  set (chained := flat_map _ _).
  assert (forallb (fun c => bool_decide (
    flat_map (fun x => flat_map (fun d => if Ascii.eqb "_" d then [backslash; "_"%char] else [d])
        (if Ascii.eqb "%" x then [backslash; "%"%char] else [x]))
      (if Ascii.eqb backslash c then [backslash; backslash] else [c]) = escape_byte c)) all_ascii = true) as Hall
    by (vm_compute; reflexivity).
  pose proof (forall_ascii _ Hall c) as Hc. by apply bool_decide_eq_true in Hc.
Qed.

(** An escaped byte matches itself, in either case. *)
Lemma like_escape_byte c rest d s :
  like backslash (escape_byte c ++ rest) (d :: s) = Ascii.eqb (fold_case c) (fold_case d) && like backslash rest s.
Proof.
  unfold escape_byte. destruct (ascii_in _ c) eqn:E; simpl; [done|].
  apply ascii_in_false in E. rewrite !elem_of_cons, elem_of_nil in E.
  destruct (Ascii.eqb_spec c backslash) as [->|_]; [naive_solver|].
  destruct (Ascii.eqb_spec c "%"%char) as [->|_]; [naive_solver|].
  destruct (Ascii.eqb_spec c "_"%char) as [->|_]; [naive_solver|]. done.
Qed.

Lemma like_escape_byte_nil c rest : like backslash (escape_byte c ++ rest) [] = false.
Proof.
  unfold escape_byte. destruct (ascii_in _ c) eqn:E; simpl; [done|].
  apply ascii_in_false in E. rewrite !elem_of_cons, elem_of_nil in E.
  destruct (Ascii.eqb_spec c backslash) as [->|_]; [naive_solver|].
  destruct (Ascii.eqb_spec c "%"%char) as [->|_]; [naive_solver|].
  destruct (Ascii.eqb_spec c "_"%char) as [->|_]; [naive_solver|]. done.
Qed.

Lemma like_percent pat s :
  like backslash ("%"%char :: pat) s = like backslash pat s || match s with [] => false | _ :: s' => like backslash ("%"%char :: pat) s' end.
Proof. by destruct s. Qed.

Lemma like_any s : like backslash ["%"%char] s = true.
Proof. induction s as [|c s IH]; [done|]. by rewrite like_percent, IH, orb_true_r. Qed.

Lemma like_prefix l : forall s,
  like backslash (flat_map escape_byte l ++ ["%"%char]) s = has_prefix_l (map fold_case l) (map fold_case s).
Proof.
  induction l as [|c l IH]; intros s; simpl; [apply like_any|]. rewrite <- app_assoc.
  destruct s as [|d s]; [by rewrite like_escape_byte_nil|]. by rewrite like_escape_byte, IH.
Qed.

(** The image filter finds the images that contain the text asked for, letters
    in either case, whatever characters it holds. *)
Lemma image_filter_contains image s :
  like backslash (bytes (image_pattern image)) s = contains_l (map fold_case (bytes image)) (map fold_case s).
Proof.
  unfold image_pattern. rewrite !bytes_app, escape_like_bytes. change (bytes "%") with ["%"%char]. simpl app.
  induction s as [|c s IH]; rewrite like_percent, like_prefix; [by destruct (bytes image)|].
  cbv iota beta. rewrite IH. done.
Qed.

(** ** Events *)

#[export] Instance event_le_total : Total event_le.
Proof. intros a b. unfold event_le. lia. Qed.
#[export] Instance event_le_trans : Transitive event_le.
Proof. intros a b c. unfold event_le. lia. Qed.

Lemma event_limit_bounds limit : 1 <= event_limit limit <= maxEventLimit.
Proof. unfold event_limit, maxEventLimit, defaultEventLimit. repeat case_if; lia. Qed.

Lemma StronglySorted_take {A} (R : A -> A -> Prop) n l : StronglySorted R l -> StronglySorted R (take n l).
Proof.
  intros Hs. revert n. induction Hs as [|x l Hs IH Hx]; intros n; destruct n; simpl; try constructor; [done|].
  apply Forall_take. done.
Qed.

(** At most a thousand events, of the instance asked for, newest first. *)
Lemma GetEvents_spec ds id limit ds' l : GetEvents ds id limit = (ds', Ok l) ->
  Z.of_nat (length l) <= maxEventLimit /\ StronglySorted event_le l /\
  Forall (fun e => e ∈ events ds' /\ Ev_InstanceID e = id) l.
Proof.
  unfold GetEvents. destruct (statement ds) as [ds1 [e|]]; [done|]. intros [= -> <-]. split_and!.
  - rewrite length_take. pose proof (event_limit_bounds limit). lia.
  - apply StronglySorted_take, (StronglySorted_merge_sort _).
  - apply Forall_take. rewrite Forall_forall. intros e He. rewrite merge_sort_Permutation in He.
    apply list_elem_of_In, List.filter_In in He as [Hin Hid]. split; [by apply list_elem_of_In|by apply streq_true].
Qed.

(** ** Well-formed tables *)

Section facts.
Context `{JS : Json InstanceSpec} `{JH : Json InstanceHandle} `{JL : Json labels} `{JB : Json InstanceBackupConfig}.
Context `{JV : Json (list (string * value))} `{JP : Json (list string)} `{!JsonLaws InstanceSpec}.

(** The extracted columns are those of the specification. *)
Definition columns_agree (r : InstanceRow) : Prop :=
  exists spec, Unmarshal (Row_Spec r) = Ok spec /\ Row_CPUs r = Spec_CPUs spec /\ Row_MemoryMB r = Spec_MemoryMB spec /\
    Row_OSType r = Spec_OSType spec /\ Row_Arch r = Spec_Arch spec /\ Row_Image r = Spec_Image spec.

Record tables_ok (ds : Tables) : Prop := {
  tok_ids : forall id r, instances ds !! id = Some r -> Row_ID r = id;
  tok_names : forall id1 id2 r1 r2, instances ds !! id1 = Some r1 -> instances ds !! id2 = Some r2 ->
    Row_Name r1 = Row_Name r2 -> id1 = id2;
  tok_columns : forall id r, instances ds !! id = Some r -> columns_agree r;
  tok_events : forall e, e ∈ events ds -> is_Some (instances ds !! Ev_InstanceID e);
  tok_event_ids : NoDup (map Ev_ID (events ds)) /\ Forall (fun e => Ev_ID e < next_event ds) (events ds)
}.

Lemma statement_same ds : instances (statement ds).1 = instances ds /\ events (statement ds).1 = events ds /\
  next_event (statement ds).1 = next_event ds /\ jobs (statement ds).1 = jobs ds.
Proof. unfold statement. by destruct (faults ds). Qed.

Lemma statement_ok ds ds' f : statement ds = (ds', f) -> tables_ok ds -> tables_ok ds'.
Proof.
  intros Hs [? ? ? ? ?]. destruct (statement_same ds) as (H1 & H2 & H3 & _). rewrite Hs in H1, H2, H3. simpl in *.
  split; rewrite ?H1, ?H2, ?H3; done.
Qed.

Lemma name_taken_false m name : name_taken m name = false -> forall id r, m !! id = Some r -> Row_Name r <> name.
Proof.
  unfold name_taken. rewrite existsb_false_iff, Forall_forall. intros Hf id r Hr Hn.
  specialize (Hf (id, r) ltac:(by apply elem_of_map_to_list)). simpl in Hf. by apply streq_false in Hf.
Qed.

Lemma recordEvent_ok ds now id ty st msg : tables_ok ds -> tables_ok (recordEvent ds now id ty st msg).1.
Proof.
  intros Hok. unfold recordEvent. destruct (statement ds) as [ds1 f] eqn:Es. apply (statement_ok _ _ _ Es) in Hok.
  destruct f; [done|]. destruct (instances ds1 !! id) as [r|] eqn:E; [|done]. destruct Hok as [H1 H2 H3 H4 [H5 H6]].
  split; simpl; try done.
  - intros e [He| ->%list_elem_of_singleton]%elem_of_app; [auto|simpl; by rewrite E].
  - split.
    + rewrite map_app. apply NoDup_app. split_and!; [done| |by apply NoDup_singleton].
      intros x (e & -> & He)%list_elem_of_fmap Hx%list_elem_of_singleton. rewrite Forall_forall in H6. specialize (H6 e He). simpl in *. lia.
    + apply Forall_app. split; [eapply Forall_impl; [done|intros e He; simpl in *; lia]|]. constructor; [simpl; lia|constructor].
Qed.

(** A row replaced by one with the same id and name and a specification its
    columns agree with. *)
Lemma update_row_ok fmt ds id f : tables_ok ds ->
  (forall r, Row_ID (f r) = Row_ID r /\ Row_Name (f r) = Row_Name r /\ (columns_agree r -> columns_agree (f r))) ->
  tables_ok (update_row fmt ds id f).1.
Proof.
  intros Hok Hf. unfold update_row. destruct (statement ds) as [ds1 g] eqn:Es. apply (statement_ok _ _ _ Es) in Hok.
  destruct g; [done|]. destruct (instances ds1 !! id) as [r|] eqn:E; [|done]. destruct Hok as [H1 H2 H3 H4 H5].
  destruct (Hf r) as (Hid & Hn & Hc). split; simpl; try done.
  - intros id' r' [[-> <-]|[Hne Hr]]%lookup_insert_Some; [by rewrite Hid; apply H1|by apply H1].
  - intros id1 id2 r1 r2 [[-> <-]|[Hne1 Hr1]]%lookup_insert_Some [[-> <-]|[Hne2 Hr2]]%lookup_insert_Some; try done.
    + rewrite Hn. intros Heq. by eapply H2.
    + rewrite Hn. intros Heq. by eapply H2.
    + by apply H2.
  - intros id' r' [[-> <-]|[Hne Hr]]%lookup_insert_Some; [by apply Hc, (H3 _ _ E)|by eapply H3].
  - intros e He. apply H4 in He. destruct (decide (id = Ev_InstanceID e)) as [<-|Hne]; [by rewrite lookup_insert_eq|by rewrite lookup_insert_ne].
Qed.

Lemma wrap_err_Ok {A} fmt args (r : result A) x : wrap_err fmt args r = Ok x <-> r = Ok x.
Proof. destruct r; simpl; naive_solver. Qed.

(** Opens the marshalling steps of a successful call. *)
Ltac open_results H := repeat match type of H with
  | context [match wrap_err ?f ?a ?r with _ => _ end] =>
      let E := fresh "Ew" in destruct (wrap_err f a r) eqn:E; [apply wrap_err_Ok in E|done]
  end.

Lemma new_row_spec now i r : new_row now i = Ok r ->
  Row_ID r = In_ID i /\ Row_Name r = In_Name i /\ columns_agree r.
Proof.
  unfold new_row. intros Hr. open_results Hr. destruct (In_Backup i) as [b|].
  - open_results Hr. simplify_eq/=. split_and!; [done..|]. exists (In_Spec i). simpl. by rewrite (json_round_trip _ _ Ew).
  - simplify_eq/=. split_and!; [done..|]. exists (In_Spec i). simpl. by rewrite (json_round_trip _ _ Ew).
Qed.

Lemma CreateInstance_ok ds now i : tables_ok ds -> tables_ok (CreateInstance ds now i).1.
Proof.
  intros Hok. unfold CreateInstance. destruct (new_row now i) as [r|] eqn:Er; [|done].
  apply new_row_spec in Er as (Hid & Hn & Hc).
  destruct (statement ds) as [ds1 g] eqn:Es. apply (statement_ok _ _ _ Es) in Hok. destruct g; [done|].
  destruct (instances ds1 !! In_ID i) eqn:E; [done|]. destruct (name_taken _ _) eqn:Et; [done|].
  apply recordEvent_ok. pose proof (name_taken_false _ _ Et) as Hfree. destruct Hok as [H1 H2 H3 H4 H5]. split; simpl; try done.
  - intros id' r' [[<- <-]|[Hne Hr]]%lookup_insert_Some; [done|by apply H1].
  - intros id1 id2 r1 r2 [[<- <-]|[Hne1 Hr1]]%lookup_insert_Some [[<- <-]|[Hne2 Hr2]]%lookup_insert_Some; try done.
    + rewrite Hn. intros Heq. by destruct (Hfree _ _ Hr2).
    + rewrite Hn. intros Heq. by destruct (Hfree _ _ Hr1).
    + by apply H2.
  - intros id' r' [[<- <-]|[Hne Hr]]%lookup_insert_Some; [done|by eapply H3].
  - intros e He. apply H4 in He as [r' Hr']. rewrite lookup_insert_ne; [by rewrite Hr'|congruence].
Qed.

Lemma DeleteInstance_ok ds id : tables_ok ds -> tables_ok (DeleteInstance ds id).1.
Proof.
  intros Hok. unfold DeleteInstance. destruct (statement ds) as [ds1 g] eqn:Es. apply (statement_ok _ _ _ Es) in Hok.
  destruct g; [done|]. destruct (instances ds1 !! id) eqn:E; [|done]. destruct Hok as [H1 H2 H3 H4 [H5 H6]]. split; simpl.
  - intros id' r' [_ Hr]%lookup_delete_Some. by apply H1.
  - intros id1 id2 r1 r2 [_ Hr1]%lookup_delete_Some [_ Hr2]%lookup_delete_Some. by apply H2.
  - intros id' r' [_ Hr]%lookup_delete_Some. by eapply H3.
  - intros e [He Hn]%list_elem_of_In%List.filter_In. apply list_elem_of_In in He. apply negb_true_iff, streq_false in Hn.
    rewrite lookup_delete_ne by done. by apply H4.
  - split; [by apply NoDup_map_filter|]. rewrite Forall_forall in *. intros e [He _]%list_elem_of_In%List.filter_In.
    apply list_elem_of_In in He. by apply H6.
Qed.

(** What a rename does when it succeeds; when it fails, the rows are as before. *)
Lemma RenameInstance_spec ds now old new handle ds' err :
  RenameInstance ds now old new handle = (ds', err) ->
  match err with
  | Some _ => instances ds' = instances ds /\ events ds' = events ds /\ next_event ds' = next_event ds
  | None => exists r spec text h, instances ds !! old = Some r /\ Unmarshal (Row_Spec r) = Ok spec /\
      Marshal (set_spec_name spec new) = Ok text /\ Marshal handle = Ok h /\
      delete old (instances ds) !! new = None /\ name_taken (delete old (instances ds)) new = false /\
      instances ds' = <[new := row_renamed now new text h r]> (delete old (instances ds)) /\
      events ds' = map (event_renamed old new) (events ds) /\ next_event ds' = next_event ds
  end.
Proof.
  unfold RenameInstance. destruct (Marshal handle) as [h|e] eqn:Eh; [|by intros [= <- <-]].
  cbn [statements].
  repeat match goal with
  | |- context [statement ?d] =>
      let P := fresh "P" in pose proof (statement_same d) as P; destruct (statement d) as [? [?|]]; simpl in P;
      destruct P as (? & ? & ? & ?); [intros [= <- <-]; split_and!; congruence|]
  | |- context [instances ?d !! old] =>
      let E := fresh "Er" in destruct (instances d !! old) as [r|] eqn:E; [|intros [= <- <-]; split_and!; congruence]
  | |- context [wrap_err ?f ?a ?x] =>
      let E := fresh "Ew" in destruct (wrap_err f a x) eqn:E; [apply wrap_err_Ok in E|intros [= <- <-]; split_and!; congruence]
  | |- context [if ?b then _ else _] =>
      let E := fresh "Eb" in destruct b eqn:E; [intros [= <- <-]; split_and!; congruence|]
  end.
  intros [= <-]. simpl. apply orb_false_iff in Eb as [Eb1 Eb2]. apply bool_decide_eq_false in Eb1.
  exists r, a, a0, h. rewrite <- eq_None_not_Some in Eb1. split_and!; congruence.
Qed.

Lemma RenameInstance_ok ds now old new handle : tables_ok ds -> tables_ok (RenameInstance ds now old new handle).1.
Proof.
  intros [H1 H2 H3 H4 [H5 H6]]. destruct (RenameInstance ds now old new handle) as [ds' [e|]] eqn:E; apply RenameInstance_spec in E; simpl.
  - destruct E as (E1 & E2 & E3). split; rewrite ?E1, ?E2, ?E3; done.
  - destruct E as (r & spec & text & h & Hr & Hu & Ht & Hh & Hfree & Hname & E1 & E2 & E3).
    pose proof (name_taken_false _ _ Hname) as Hnf. split; rewrite ?E1, ?E2, ?E3.
    + intros id r' [[<- <-]|[Hne [_ Hr']%lookup_delete_Some]]%lookup_insert_Some; [done|by apply H1].
    + intros id1 id2 r1 r2 [[<- <-]|[Hne1 Hr1]]%lookup_insert_Some [[<- <-]|[Hne2 Hr2]]%lookup_insert_Some Heq; try done.
      * symmetry in Heq. by destruct (Hnf _ _ Hr2).
      * by destruct (Hnf _ _ Hr1).
      * apply lookup_delete_Some in Hr1 as [_ Hr1], Hr2 as [_ Hr2]. by eapply H2.
    + intros id r' [[<- <-]|[Hne [_ Hr']%lookup_delete_Some]]%lookup_insert_Some; [|by eapply H3].
      destruct (H3 _ _ Hr) as (spec' & Hs & Hc). assert (spec' = spec) as -> by congruence.
      exists (set_spec_name spec new). simpl. by rewrite (json_round_trip _ _ Ht).
    + intros e (e0 & -> & He0)%list_elem_of_fmap. unfold event_renamed. destruct (streq _ old) eqn:Es; simpl.
      * by rewrite lookup_insert_eq.
      * apply streq_false in Es. destruct (H4 e0 He0) as [r' Hr'].
        destruct (decide (Ev_InstanceID e0 = new)) as [->|Hne]; [by rewrite lookup_insert_eq|].
        rewrite lookup_insert_ne, lookup_delete_ne by done. by rewrite Hr'.
    + assert (forall e, Ev_ID (event_renamed old new e) = Ev_ID e) as Hid by (intros e; unfold event_renamed; by case_if).
      split.
      * rewrite map_map. rewrite (map_ext _ Ev_ID Hid). done.
      * rewrite Forall_map. eapply Forall_impl; [done|]. intros e. simpl. by rewrite Hid.
Qed.

(** The other operations leave instances and events alone. *)
Definition same_rows (ds ds' : Tables) : Prop :=
  instances ds' = instances ds /\ events ds' = events ds /\ next_event ds' = next_event ds.

Lemma same_rows_ok ds ds' : same_rows ds ds' -> tables_ok ds -> tables_ok ds'.
Proof. intros (H1 & H2 & H3) [? ? ? ? ?]. split; rewrite ?H1, ?H2, ?H3; done. Qed.

Lemma same_rows_refl ds : same_rows ds ds.
Proof. done. Qed.

Ltac same_rows_t := repeat match goal with
  | |- context [statement ?d] =>
      let P := fresh "P" in pose proof (statement_same d) as P; destruct (statement d) as [? [?|]]; simpl in P; destruct P as (? & ? & ? & ?)
  | |- same_rows _ (match ?x with _ => _ end).1 => destruct x
  | |- same_rows _ (let '(_, _) := ?x in _).1 => destruct x
  end; try done; unfold same_rows; simpl; split_and!; congruence.

Inductive dstep (json_extract : string -> string -> option string) : Tables -> Tables -> Prop :=
  | d_create ds now i : dstep json_extract ds (CreateInstance ds now i).1
  | d_state ds now id st : dstep json_extract ds (UpdateInstanceState ds now id st).1
  | d_spec ds now id spec : dstep json_extract ds (UpdateInstanceSpec ds now id spec).1
  | d_handle ds now id h : dstep json_extract ds (UpdateInstanceHandle ds now id h).1
  | d_backup ds now id c : dstep json_extract ds (ds_UpdateBackupConfig ds now id c).1
  | d_rename ds now old new h : dstep json_extract ds (RenameInstance ds now old new h).1
  | d_delete ds id : dstep json_extract ds (DeleteInstance ds id).1
  | d_get ds id : dstep json_extract ds (GetInstance ds id).1
  | d_get_name ds name : dstep json_extract ds (GetInstanceByName ds name).1
  | d_list ds f : dstep json_extract ds (ListInstances json_extract ds f).1
  | d_events ds id limit : dstep json_extract ds (GetEvents ds id limit).1
  | d_job_create ds j : dstep json_extract ds (CreateJob ds j).1
  | d_job_update ds j : dstep json_extract ds (UpdateJob ds j).1
  | d_job_delete ds id : dstep json_extract ds (DeleteJob ds id).1
  | d_job_fail ds now : dstep json_extract ds (FailInterruptedJobs ds now).1
  | d_job_clean ds now age : dstep json_extract ds (CleanupOldJobs ds now age).1
  | d_key_save ds k : dstep json_extract ds (SaveAPIKey ds k).1
  | d_key_delete ds id : dstep json_extract ds (DeleteAPIKey ds id).1
  | d_rec_save ds now id inst r : dstep json_extract ds (ds_SaveBackupRecord ds now id inst r).1
  | d_rec_delete ds id : dstep json_extract ds (ds_DeleteBackupRecord ds id).1.

Lemma dstep_ok json_extract ds ds' : dstep json_extract ds ds' -> tables_ok ds -> tables_ok ds'.
Proof.
  intros Hs Hok. destruct Hs.
  - by apply CreateInstance_ok.
  - unfold UpdateInstanceState.
    pose proof (update_row_ok "failed to update instance state: %w" ds id (row_state now st) Hok) as Hu.
    destruct (update_row _ _ _ _) as [ds1 [e|]]; simpl in *; [by apply Hu|]. apply recordEvent_ok, Hu. done.
  - unfold UpdateInstanceSpec. destruct (Marshal spec) as [text|] eqn:Em; [|done]. apply update_row_ok; [done|].
    intros r. split_and!; [done..|]. intros _. exists spec. simpl. by rewrite (json_round_trip _ _ Em).
  - unfold UpdateInstanceHandle. destruct (Marshal h); [|done]. by apply update_row_ok.
  - unfold ds_UpdateBackupConfig. case_match; [|done]. by apply update_row_ok.
  - by apply RenameInstance_ok.
  - by apply DeleteInstance_ok.
  - eapply same_rows_ok; [|done]. unfold GetInstance. same_rows_t.
  - eapply same_rows_ok; [|done]. unfold GetInstanceByName. same_rows_t.
  - eapply same_rows_ok; [|done]. unfold ListInstances. same_rows_t.
  - eapply same_rows_ok; [|done]. unfold GetEvents. same_rows_t.
  - eapply same_rows_ok; [|done]. unfold CreateJob. same_rows_t.
  - eapply same_rows_ok; [|done]. unfold UpdateJob. same_rows_t.
  - eapply same_rows_ok; [|done]. unfold DeleteJob. same_rows_t.
  - eapply same_rows_ok; [|done]. unfold FailInterruptedJobs. same_rows_t.
  - eapply same_rows_ok; [|done]. unfold CleanupOldJobs. same_rows_t.
  - eapply same_rows_ok; [|done]. unfold SaveAPIKey. same_rows_t.
  - eapply same_rows_ok; [|done]. unfold DeleteAPIKey. same_rows_t.
  - eapply same_rows_ok; [|done]. unfold ds_SaveBackupRecord. same_rows_t.
  - eapply same_rows_ok; [|done]. unfold ds_DeleteBackupRecord. same_rows_t.
Qed.

(** ** Jobs *)

Context `{!JsonLaws labels} (empty_object : Unmarshal "{}" = Ok (∅ : labels)).

Lemma job_metadata_read m text : job_metadata m = Ok text -> text <> "" -> text <> "null" ->
  Unmarshal text = Ok (default ∅ m).
Proof.
  unfold job_metadata. destruct m as [m|]; [|by intros [= <-]].
  case_bool_decide as E; [subst; by intros [= <-]|]. rewrite wrap_err_Ok. intros Hm _ _. by apply json_round_trip.
Qed.

Lemma statement_no_fault ds : faults ds = [] -> statement ds = (ds, None).
Proof. unfold statement. by intros ->. Qed.

(** What is read of a job after it was written: every field of its snapshot, the
    metadata being an empty map where the job had none. *)
Lemma GetJob_after_update ds ds' j j0 ds0 :
  CreateJob ds j0 = (ds0, None) -> UpdateJob ds0 j = (ds', None) -> ID j = ID j0 -> Result j = None -> faults ds' = [] ->
  (forall text, Marshal (default ∅ (Metadata j)) = Ok text -> text <> "" /\ text <> "null") ->
  GetJob ds' (ID j) = (ds', Ok (Some
    {| SJ_ID := ID j; SJ_Type := Type_ j0; SJ_Description := Description j0; SJ_Status := status_string (Status j);
       SJ_Progress := Progress j; SJ_Message := Message j; SJ_Result := None; SJ_Error := Error j;
       SJ_Metadata := Some (default ∅ (Metadata j)); SJ_CreatedAt := CreatedAt j0; SJ_StartedAt := StartedAt j;
       SJ_CompletedAt := CompletedAt j |})).
Proof.
  unfold CreateJob, UpdateJob. simpl. intros Hc Hu Hid Hres Hf Htext. rewrite Hres in Hu.
  destruct (job_metadata (Metadata j0)) as [t0|]; [|done]. destruct (statement ds) as [ds1 [e|]]; [done|].
  destruct (jobs ds1 !! ID j0) eqn:E0; [done|]. injection Hc as <-.
  destruct (job_metadata (Metadata j)) as [t|] eqn:Em; [|done].
  match type of Hu with context [statement ?d] => pose proof (statement_same d) as P; destruct (statement d) as [ds2 [e|]]; [done|] end.
  simpl in P. destruct P as (_ & _ & _ & Hj). rewrite Hj, Hid, lookup_insert_eq in Hu. injection Hu as <-.
  assert (t <> "" /\ t <> "null" /\ Unmarshal t = Ok (default ∅ (Metadata j))) as (Hn1 & Hn2 & Hun).
  { assert (t <> "" /\ t <> "null") as [H1 H2].
    { unfold job_metadata in Em. destruct (Metadata j) as [m|] eqn:Ej; [|by injection Em as <-].
      case_bool_decide; [by injection Em as <-|]. apply wrap_err_Ok in Em. by apply Htext. }
    split_and!; [done..|by apply job_metadata_read]. }
  unfold GetJob. rewrite statement_no_fault by done. simpl. rewrite Hid, lookup_insert_eq. unfold scan_job. simpl.
  rewrite (proj2 (streq_false _ _) Hn1), (proj2 (streq_false _ _) Hn2). simpl. rewrite Hun. simpl.
  destruct (streq (Error j) "") eqn:Ee; simpl; [apply streq_true in Ee; by rewrite Ee|done].
Qed.
End facts.

(** ** Theorems *)


(** Renaming is all or nothing.  [RenameInstance] either fails and leaves
    instances and events as they were, or succeeds and then: the old id is gone,
    reading the new one gives the instance with the new name, its specification
    renamed with it and the new handle, everything else as it was, no other row
    changed, and the events of the instance follow it. *)
Theorem rename_all_or_nothing `{Json InstanceSpec} `{Json InstanceHandle} `{Json labels} `{Json InstanceBackupConfig}
    `{!JsonLaws InstanceSpec} `{!JsonLaws InstanceHandle} (ds ds' : Tables) now old new handle err :
  RenameInstance ds now old new handle = (ds', err) ->
  match err with
  | Some _ => instances ds' = instances ds /\ events ds' = events ds
  | None =>
      (old <> new -> instances ds' !! old = None) /\
      (forall id, id <> old -> id <> new -> instances ds' !! id = instances ds !! id) /\
      (forall r i, instances ds !! old = Some r -> scanInstance r = Ok i ->
         exists r', instances ds' !! new = Some r' /\ scanInstance r' =
           Ok {| In_ID := new; In_Name := new; In_Provider := In_Provider i; In_State := In_State i;
                 In_Spec := set_spec_name (In_Spec i) new; In_Handle := handle; In_CreatedAt := In_CreatedAt i;
                 In_UpdatedAt := now; In_StartedAt := In_StartedAt i; In_Labels := In_Labels i;
                 In_Annotations := In_Annotations i; In_Backup := In_Backup i |}) /\
      events ds' = map (event_renamed old new) (events ds)
  end.
Proof.
  intros E. apply RenameInstance_spec in E. destruct err as [e|]; [naive_solver|].
  destruct E as (r & spec & text & h & Hr & Hu & Ht & Hh & Hfree & _ & E1 & E2 & _). rewrite E1, E2. split_and!; [| | |done].
  - intros Hne. by rewrite lookup_insert_ne, lookup_delete_eq.
  - intros id ? ?. by rewrite lookup_insert_ne, lookup_delete_ne.
  - intros r0 i Hr0 Hs. rewrite Hr in Hr0. injection Hr0 as <-. exists (row_renamed now new text h r).
    split; [by rewrite lookup_insert_eq|]. unfold scanInstance in *. simpl. rewrite Hu in Hs. simpl in Hs.
    rewrite (json_round_trip _ _ Ht), (json_round_trip _ _ Hh). simpl.
    destruct (Unmarshal (Row_Handle r)); simpl in Hs; [|done]. destruct (Unmarshal (Row_Labels r)); simpl in *; [|done].
    destruct (Unmarshal (Row_Annotations r)); simpl in *; [|done]. destruct (match Row_Backup r with Some _ => _ | None => _ end); [|done].
    by injection Hs as <-.
Qed.

(** No job is left claiming to run.  When the daemon closes out the jobs of
    a previous run, every pending or running row becomes a failed one with a
    completion time, the rows of finished jobs are untouched, no row appears or
    disappears, and the number reported is the number of rows that were open. *)
Theorem restart_closes_out_jobs (ds ds' : Tables) now n :
  FailInterruptedJobs ds now = (ds', Ok n) ->
  (forall id r', jobs ds' !! id = Some r' -> interrupted r' = false) /\
  (forall id r, jobs ds !! id = Some r ->
     exists r', jobs ds' !! id = Some r' /\
       if interrupted r then J_Status r' = "failed" /\ J_CompletedAt r' = Some now /\ J_ID r' = J_ID r else r' = r) /\
  dom (jobs ds') = dom (jobs ds) /\
  n = Z.of_nat (length (List.filter interrupted (map_to_list (jobs ds)).*2)).
Proof.
  unfold FailInterruptedJobs. pose proof (statement_same ds) as (_ & _ & _ & Hj).
  destruct (statement ds) as [ds1 [e|]]; [done|]. simpl in Hj. intros [= <- <-]. simpl. rewrite Hj. split_and!; [| | |done].
  - intros id r' (r & <- & Hr)%lookup_fmap_Some. unfold close_out. destruct (interrupted r) eqn:E; [done|done].
  - intros id r Hr. exists (close_out now r). rewrite lookup_fmap, Hr. split; [done|]. unfold close_out. by case_if.
  - by rewrite dom_fmap_L.
Qed.
