(* ===== verification/BackupRestart.v ===== *)
(** * Backup configurations across a restart

    The backup manager over the datastore: what [Configure] stores, a new
    manager's [reload] finds again. *)

From stdpp Require Import base list gmap strings sorting.
From Stdlib Require Import Ascii ZArith Lia.
From S2P Require Import Prelude GoStrings GoText GoTime GoDuration Host ProviderTypes Validation Jobs Backup BackupFacts InstanceStore InstanceStoreFacts.

Local Open Scope Z_scope.

Section restart.
Context `{JS : Json InstanceSpec} `{JH : Json InstanceHandle} `{JL : Json labels} `{JB : Json InstanceBackupConfig}.
Context `{!JsonLaws InstanceBackupConfig} (json_extract : string -> string -> option string).
Context {W : Type} `{Host W} (decode_info : string -> result BackupInfo).

(** A configuration is not written as the text that stands for none: two of its
    fields are always written. *)
Context (config_text : forall (c : InstanceBackupConfig) t, Marshal c = Ok t -> t <> "" /\ t <> "{}").

#[local] Instance store : BackupStore Tables := Tables_BackupStore json_extract.
#[local] Abbreviation manager := (BackupManager Tables W).

Lemma update_row_effect fmt ds id f r : faults ds = [] -> instances ds !! id = Some r ->
  update_row fmt ds id f = (set_instances ds (<[id := f r]> (instances ds)) (events ds), None).
Proof. intros Hf Hr. unfold update_row. rewrite statement_no_fault by done. by rewrite Hr. Qed.

(** A store without pending failures, holding the instances [ids]. *)
Definition sound_store (bm : manager) (id : string) : Prop :=
  exists d, bm_ds bm = Some d /\ faults d = [] /\ is_Some (instances d !! id).

Lemma ds_UpdateBackupConfig_sound d now id' c id :
  faults d = [] -> is_Some (instances d !! id) ->
  faults (ds_UpdateBackupConfig d now id' c).1 = [] /\ is_Some (instances (ds_UpdateBackupConfig d now id' c).1 !! id).
Proof.
  intros Hf Hi. unfold ds_UpdateBackupConfig. case_match; [|done]. unfold update_row. rewrite statement_no_fault by done.
  destruct (instances d !! id') eqn:E; simpl; [|done]. split; [done|].
  destruct (decide (id' = id)) as [->|Hne]; [by rewrite lookup_insert_eq|by rewrite lookup_insert_ne].
Qed.

Lemma stop_schedule_same (bm : manager) id : bm_ds (stop_schedule bm id) = bm_ds bm /\ configs (stop_schedule bm id) = configs bm.
Proof. unfold stop_schedule. by case_match. Qed.

Lemma Configure_sound (bm : manager) now id' c id : sound_store bm id -> sound_store (Configure bm now id' c).1 id.
Proof.
  intros (d & Hd & Hf & Hi). unfold Configure. destruct c as [c|]; [|by exists d].
  destruct (first_error _); [by exists d|]. unfold persistConfig. simpl.
  destruct (stop_schedule_same bm id') as [-> _]. rewrite Hd.
  pose proof (ds_UpdateBackupConfig_sound d now id' (Some (storedFromConfig c)) id Hf Hi) as Hs.
  destruct (ds_UpdateBackupConfig _ _ _ _) as [d' [e|]]; simpl in *; [exists d'|exists d']; [done|].
  by case_if.
Qed.

Lemma Configure_other (bm : manager) now id' c id : id' <> id -> configs (Configure bm now id' c).1 !! id = configs bm !! id.
Proof.
  intros Hne. unfold Configure. destruct c as [c|]; [|done]. destruct (first_error _); [done|]. unfold persistConfig. simpl.
  destruct (stop_schedule_same bm id') as [-> Hc]. destruct (bm_ds bm) as [d|]; [destruct (ds_UpdateBackupConfig _ _ _ _) as [d' [e|]]|];
    simpl; try case_if; simpl; rewrite Hc; by rewrite lookup_insert_ne.
Qed.

(** The checks [Configure] makes before it changes anything. *)
Definition acceptable (id : string) (c : BackupConfig) : Prop :=
  ValidateInstanceName id = None /\
  BC_Enabled c && negb (streq (BC_Schedule c) "") && (parseSchedule (BC_Schedule c) =? 0) = false /\
  ValidateCompression (BC_Compression c) (BC_Destination c) = None.

Lemma Configure_accepts (bm : manager) now id c : acceptable id c ->
  configs (Configure bm now id (Some c)).1 !! id = Some c.
Proof.
  intros (H1 & H2 & H3). unfold Configure. simpl. rewrite H1, H2, H3. simpl. unfold persistConfig. simpl.
  destruct (bm_ds _) as [d|]; [destruct (ds_UpdateBackupConfig _ _ _ _) as [d' [e|]]|]; simpl; try case_if; simpl; by rewrite lookup_insert_eq.
Qed.

Lemma Configure_Ok (bm : manager) now id c bm' : Configure bm now id (Some c) = (bm', None) -> acceptable id c.
Proof.
  unfold Configure. simpl. destruct (ValidateInstanceName id) eqn:E1; [done|]. simpl.
  destruct (BC_Enabled c && _ && _) eqn:E2; [done|]. simpl.
  destruct (ValidateCompression _ _) eqn:E3; [done|]. intros _. unfold acceptable. by rewrite E2.
Qed.

(** What a successful [Configure] leaves in the row of the instance. *)
Lemma Configure_stored (bm : manager) now id c bm' d : Configure bm now id (Some c) = (bm', None) -> bm_ds bm = Some d ->
  exists d' r t, bm_ds bm' = Some d' /\ instances d' !! id = Some r /\ Marshal (storedFromConfig c) = Ok t /\ Row_Backup r = Some t /\
    (forall id', id' <> id -> instances d' !! id' = instances d !! id').
Proof.
  intros Hc Hd. destruct (Configure_Ok _ _ _ _ _ Hc) as (H1 & H2 & H3). unfold Configure in Hc. simpl in Hc.
  rewrite H1, H2, H3 in Hc. simpl in Hc. unfold persistConfig in Hc. simpl in Hc.
  destruct (stop_schedule_same bm id) as [Hds _]. rewrite Hds, Hd in Hc. unfold ds_UpdateBackupConfig in Hc.
  destruct (wrap_err _ _ _) as [t|] eqn:Ew; [|done]. apply wrap_err_Ok in Ew. unfold update_row in Hc.
  pose proof (statement_same d) as (Hi & _). destruct (statement d) as [d1 [e|]]; [done|]. simpl in Hi.
  destruct (instances d1 !! id) as [r|] eqn:Er; [|done]. simpl in Hc.
  assert (bm_ds bm' = Some (set_instances d1 (<[id := row_backup now t r]> (instances d1)) (events d1))) as ->.
  { case_if; by injection Hc as <-. }
  eexists _, (row_backup now t r), t. split_and!; [done|simpl; by rewrite lookup_insert_eq|done|done|].
  intros id' Hne. simpl. rewrite lookup_insert_ne by done. by rewrite Hi.
Qed.

Lemma reload_configs_keeps now l : forall (bm : manager) id c stored,
  NoDup (map fst l) -> sound_store bm id -> acceptable id c -> configFromStored stored = c ->
  ((id, Some stored) ∈ l \/ configs bm !! id = Some c /\ id ∉ map fst l) ->
  configs (foldl (reload_config now) bm l) !! id = Some c /\ sound_store (foldl (reload_config now) bm l) id.
Proof.
  induction l as [|[id' oc] l IH]; intros bm id c stored Hnd Hs Ha Hcf Hin; simpl.
  - destruct Hin as [Hin|[Hin _]]; [by apply elem_of_nil in Hin|done].
  - simpl in Hnd. apply NoDup_cons in Hnd as [Hn Hnd].
    assert (sound_store (reload_config now bm (id', oc)) id) as Hs' by (destruct oc; [by apply Configure_sound|done]).
    apply (IH _ id c stored); try done. destruct Hin as [Hin|[Hin Hni]].
    + apply elem_of_cons in Hin as [[= <- <-]|Hin]; [|by left]. right. split; [|done].
      rewrite <- Hcf in Ha |- *. by apply (Configure_accepts bm now).
    + right. simpl in Hni. apply not_elem_of_cons in Hni as [Hne Hni]. split; [|done].
      destruct oc; [|done]. rewrite <- Hin. by apply (Configure_other bm now).
Qed.

Lemma reload_records_configs l : forall bm : manager, configs (foldl (reload_record decode_info) bm l) = configs bm.
Proof. induction l as [|r l IH]; intros bm; simpl; [done|]. rewrite IH. unfold reload_record. by case_match. Qed.

(** Every row can be read. *)
Definition readable (ds : Tables) : Prop := forall id r, instances ds !! id = Some r -> exists i, scanInstance r = Ok i.

Lemma scan_all_spec rows : (forall r, r ∈ rows -> exists i, scanInstance r = Ok i) ->
  exists l, scan_all rows = Ok l /\ Forall2 (fun r i => scanInstance r = Ok i) rows l.
Proof.
  induction rows as [|r rows IH]; intros Hall; simpl; [by exists []|].
  destruct (Hall r ltac:(by left)) as [i Hi]. rewrite Hi. destruct IH as (l & -> & Hl); [intros r' Hr'; apply Hall; by right|].
  exists (i :: l). split; [done|]. by constructor.
Qed.

Lemma scanInstance_spec r i : scanInstance r = Ok i -> In_ID i = Row_ID r /\
  (forall t c, Row_Backup r = Some t -> t <> "" -> t <> "{}" -> Unmarshal t = Ok c -> In_Backup i = Some c).
Proof.
  unfold scanInstance. intros Hs. repeat (destruct (wrap_err _ _ (Unmarshal _)) in Hs; [|done]).
  destruct (Row_Backup r) as [t|]; [|by injection Hs as <-].
  destruct (streq t "" || streq t "{}") eqn:E.
  - injection Hs as <-. split; [done|]. intros t' c [= <-] H1 H2 _. apply orb_true_iff in E as [E|E]; by apply streq_true in E.
  - destruct (Unmarshal t) as [c0|] eqn:Eu; simpl in Hs; [|done]. injection Hs as <-. split; [done|].
    intros t' c [= <-] _ _ Hu. simpl. congruence.
Qed.

Lemma ListBackupConfigs_spec ds : faults ds = [] -> readable ds -> (forall id r, instances ds !! id = Some r -> Row_ID r = id) ->
  exists l, ds_ListBackupConfigs json_extract ds = (ds, Ok l) /\ NoDup (map fst l) /\
    forall id r t c, instances ds !! id = Some r -> Row_Backup r = Some t -> t <> "" -> t <> "{}" -> Unmarshal t = Ok c -> (id, Some c) ∈ l.
Proof.
  intros Hf Hread Hids. unfold ds_ListBackupConfigs, ListInstances. simpl. rewrite statement_no_fault by done.
  set (rows := merge_sort _ _).
  assert (rows ≡ₚ (map_to_list (instances ds)).*2) as Hp.
  { unfold rows. rewrite merge_sort_Permutation. clear. induction ((map_to_list (instances ds)).*2) as [|r l IH]; simpl; [done|].
    by rewrite IH. }
  assert (forall r, r ∈ rows <-> exists id, instances ds !! id = Some r) as Hrows.
  { intros r. rewrite Hp, list_elem_of_fmap. split.
    - intros ([id r'] & -> & Hr%elem_of_map_to_list). eauto.
    - intros (id & Hr). exists (id, r). split; [done|]. by apply elem_of_map_to_list. }
  destruct (scan_all_spec rows) as (l & -> & Hl).
  { intros r (id & Hr)%Hrows. by eapply Hread. }
  exists (map (fun i => (In_ID i, In_Backup i)) l). split; [done|]. split.
  - rewrite map_map. change (NoDup (map In_ID l)). assert (map In_ID l = map Row_ID rows) as ->.
    { clear -Hl. induction Hl as [|r i rs l Hs Hl IH]; simpl; [done|]. by destruct (scanInstance_spec _ _ Hs) as [-> _]; rewrite IH. }
    rewrite Hp. change (NoDup (Row_ID <$> (map_to_list (instances ds)).*2)). rewrite <- list_fmap_compose.
    apply NoDup_fmap_2_strong; [|apply NoDup_map_to_list]. intros [i1 r1] [i2 r2] H1%elem_of_map_to_list H2%elem_of_map_to_list. simpl.
    rewrite (Hids _ _ H1), (Hids _ _ H2). intros ->. congruence.
  - intros id r t c Hr Hb Ht1 Ht2 Hu. assert (r ∈ rows) as Hin by (apply Hrows; eauto).
    apply list_elem_of_lookup in Hin as [k Hk]. destruct (Forall2_lookup_l _ _ _ _ _ Hl Hk) as (i & Hi & Hs).
    destruct (scanInstance_spec _ _ Hs) as [Hid Hbk]. apply list_elem_of_fmap. exists i.
    split; [|by eapply list_elem_of_lookup_2]. by rewrite Hid, (Hids _ _ Hr), (Hbk t c).
Qed.
End restart.

(** A configured backup survives a restart.  After a successful [Configure]
    on a store that then works, a new manager over that store has, once started,
    the same configuration for the instance, retention, hooks and minimum age
    included (a minimum age of whole seconds; a key file is never accepted). *)
Theorem configuration_survives_restart `{Json InstanceSpec} `{Json InstanceHandle} `{Json labels} `{Json InstanceBackupConfig}
    `{!JsonLaws InstanceBackupConfig} json_extract {W : Type} `{Host W} decode_info
    (bm bm' : BackupManager Tables W) d d' now now' id config w :
  (forall (c : InstanceBackupConfig) t, Marshal c = Ok t -> t <> "" /\ t <> "{}") ->
  BC_EncryptionKeyFile config = "" -> whole_seconds (MinAge (BC_Retention config)) ->
  bm_ds bm = Some d ->
  Configure (H := Tables_BackupStore json_extract) bm now id (Some config) = (bm', None) ->
  bm_ds bm' = Some d' -> faults d' = [] -> readable d' -> (forall id r, instances d' !! id = Some r -> Row_ID r = id) ->
  exists bm2 : BackupManager Tables W, reload (H := Tables_BackupStore json_extract) decode_info (NewBackupManager (Some d') w) now' = (bm2, None) /\
    GetConfig bm2 id = Some config.
Proof.
  intros Htext Hkey Hage Hd Hc Hd' Hf Hread Hids.
  pose proof (Configure_Ok json_extract _ _ _ _ _ Hc) as Hacc.
  destruct (Configure_stored json_extract _ _ _ _ _ _ Hc Hd) as (d1 & r & t & Hd1 & Hr & Hm & Hb & _).
  assert (d1 = d') as -> by congruence. destruct (Htext _ _ Hm) as [Ht1 Ht2].
  destruct (ListBackupConfigs_spec json_extract d' Hf Hread Hids) as (l & Hl & Hnd & Hin).
  specialize (Hin id r t _ Hr Hb Ht1 Ht2 (json_round_trip _ _ Hm)).
  unfold reload. change (bm_ds (NewBackupManager (Some d') w)) with (Some d'). cbv iota.
  change (ListBackupConfigs d') with (ds_ListBackupConfigs json_extract d'). rewrite Hl. cbv iota beta zeta.
  destruct (reload_configs_keeps json_extract now' l (set_ds (NewBackupManager (Some d') w) (Some d')) id config (storedFromConfig config)) as [Hconf Hsound];
    [done|by exists d'; rewrite Hr|done|by apply config_round_trip|by left|].
  destruct Hsound as (d2 & Hd2 & Hf2 & _). unfold store in Hd2, Hconf. rewrite Hd2.
  change (ListBackupRecords d2) with (ds_ListBackupRecords d2). unfold ds_ListBackupRecords. rewrite statement_no_fault by done.
  eexists. split; [done|]. unfold GetConfig. rewrite reload_records_configs. simpl. done.
Qed.
