(* ===== verification/BackupRuns.v ===== *)
(** * Backups on a sample machine

    A machine that holds snapshots and files, with [zfs] commands that do what
    zfs(8) says of them, codecs for plain values, and runs of the backup manager
    evaluated on them.  The theorems about backups and the datastore apply to
    them. *)

From stdpp Require Import base list gmap strings sorting relations pretty.
From Stdlib Require Import Ascii ZArith Lia.
From S2P Require Import Prelude GoStrings GoText GoTime GoDuration GoPath Host ProviderTypes Validation Jobs Backup BackupFacts BackupRetention InstanceStore InstanceStoreFacts BackupRestart.

Local Open Scope Z_scope.

(** ** The machine *)

Record pool := { snaps : gset string; files : gset string }.

Definition ok_exit : exit := {| ex_stdout := ""; ex_stderr := ""; ex_combined := ""; ex_err := None |}.
Definition bad_exit (msg : string) : exit := {| ex_stdout := ""; ex_stderr := msg; ex_combined := msg; ex_err := Some (Errorf "exit status 1" []) |}.

Definition pool_exec (w : pool) (c : cmd) : pool * exit :=
  match argv c with
  | ["zfs"; "snapshot"; "-r"; s] =>
      if bool_decide (s ∈ snaps w) then (w, bad_exit "dataset already exists")
      else ({| snaps := {[s]} ∪ snaps w; files := files w |}, ok_exit)
  | ["zfs"; "destroy"; "-r"; s] =>
      if bool_decide (s ∈ snaps w) then ({| snaps := snaps w ∖ {[s]}; files := files w |}, ok_exit)
      else (w, bad_exit "could not find any snapshots to destroy; check snapshot names.")
  | ["zfs"; "list"; "-H"; s] => if bool_decide (s ∈ snaps w) then (w, ok_exit) else (w, bad_exit "dataset does not exist")
  | _ => (w, ok_exit)
  end.

Definition not_there : error := Sentinel ErrNotExist.

#[export] Instance pool_host : Host pool := {
  exec := pool_exec;
  pipeline w p c := (w, BothWaited None None "" "");
  LookPath w name := None;
  Stat w p := if bool_decide (p ∈ files w) then Ok {| fi_size := 1; fi_isdir := false; fi_regular := true; fi_perm := 384; fi_uid := Some 0 |}
              else Err not_there;
  Lstat w p := if bool_decide (p ∈ files w) then Ok {| fi_size := 1; fi_isdir := false; fi_regular := true; fi_perm := 384; fi_uid := Some 0 |}
               else Err not_there;
  EvalSymlinks w p := Ok p;
  MkdirAll w p := (w, None);
  CreateExcl w p := if bool_decide (p ∈ files w) then (w, Some (Errorf "file exists" []))
                    else ({| snaps := snaps w; files := {[p]} ∪ files w |}, None);
  Close w p := (w, None);
  OpenRead w p := if bool_decide (p ∈ files w) then None else Some not_there;
  Remove w p := if bool_decide (p ∈ files w) then ({| snaps := snaps w; files := files w ∖ {[p]} |}, None) else (w, Some not_there);
  Geteuid w := 0
}.

(** ** Codecs for plain values *)

Definition plain_spec (name : string) : InstanceSpec :=
  {| Spec_Name := name; Spec_Description := ""; Spec_CPUs := 0; Spec_MemoryMB := 0; Spec_MaxProc := 0; Spec_ReadBPS := 0;
     Spec_WriteBPS := 0; Spec_ReadIOPS := 0; Spec_WriteIOPS := 0; Spec_Image := ""; Spec_OSType := ""; Spec_OSVersion := "";
     Spec_Arch := ""; Spec_CloudInit := None; Spec_Bootloader := ""; Spec_Disks := []; Spec_Networks := [];
     Spec_ProviderConfig := []; Spec_Labels := []; Spec_Annotations := [] |}.

Definition is_plain (s : InstanceSpec) : bool :=
  match s with
  | {| Spec_Description := ""; Spec_CPUs := 0; Spec_MemoryMB := 0; Spec_MaxProc := 0; Spec_ReadBPS := 0;
       Spec_WriteBPS := 0; Spec_ReadIOPS := 0; Spec_WriteIOPS := 0; Spec_Image := ""; Spec_OSType := ""; Spec_OSVersion := "";
       Spec_Arch := ""; Spec_CloudInit := None; Spec_Bootloader := ""; Spec_Disks := []; Spec_Networks := [];
       Spec_ProviderConfig := []; Spec_Labels := []; Spec_Annotations := [] |} => true
  | _ => false
  end.

Lemma is_plain_eq s : is_plain s = true -> s = plain_spec (Spec_Name s).
Proof. destruct s. unfold is_plain, plain_spec. simpl. intros Hp. repeat (case_match; simplify_eq; try done). Qed.

Definition unsupported : error := Errorf "unsupported value" [].

#[export] Instance json_spec : Json InstanceSpec := {
  Marshal s := if is_plain s then Ok (Spec_Name s) else Err unsupported;
  Unmarshal t := Ok (plain_spec t)
}.
#[export] Instance json_spec_laws : JsonLaws InstanceSpec.
Proof. split. intros s t. simpl. destruct (is_plain s) eqn:E; [|done]. intros [= <-]. by rewrite <- is_plain_eq. Qed.

#[export] Instance json_handle : Json InstanceHandle := {
  Marshal h := match Handle_Provider h, Handle_Metadata h with "", [] => Ok (Handle_ID h) | _, _ => Err unsupported end;
  Unmarshal t := Ok {| Handle_ID := t; Handle_Provider := ""; Handle_Metadata := [] |}
}.
#[export] Instance json_handle_laws : JsonLaws InstanceHandle.
Proof. split. intros [i p m] t. simpl. destruct p; [|done]. destruct m; [|done]. by intros [= <-]. Qed.

#[export] Instance json_labels : Json labels := {
  Marshal m := if bool_decide (m = ∅) then Ok "{}" else Err unsupported;
  Unmarshal t := if streq t "{}" then Ok ∅ else Err unsupported
}.
#[export] Instance json_labels_laws : JsonLaws labels.
Proof. split. intros m t. simpl. case_bool_decide; [|done]. subst. by intros [= <-]. Qed.

(** A schedule with a number of last backups and a minimum age to keep. *)
Definition plain_config (schedule minAge : string) : InstanceBackupConfig :=
  {| IB_Enabled := true; IB_Schedule := schedule; IB_Destination := ""; IB_Compression := ""; IB_PreBackupHook := "";
     IB_PostBackupHook := ""; IB_KeepLast := 3; IB_KeepHourly := 0; IB_KeepDaily := 0; IB_KeepWeekly := 0; IB_KeepMonthly := 0;
     IB_MinAge := minAge |}.

#[export] Instance InstanceBackupConfig_eq_dec : EqDecision InstanceBackupConfig.
Proof. solve_decision. Defined.

#[export] Instance json_config : Json InstanceBackupConfig := {
  Marshal c := if bool_decide (c = plain_config "daily" "1h0m0s") then Ok "{daily}" else Err unsupported;
  Unmarshal t := if streq t "{daily}" then Ok (plain_config "daily" "1h0m0s") else Err unsupported
}.
#[export] Instance json_config_laws : JsonLaws InstanceBackupConfig.
Proof. split. intros c t. simpl. case_bool_decide; [|done]. subst. by intros [= <-]. Qed.

#[export] Instance json_result : Json (list (string * value)) := {
  Marshal _ := Err unsupported; Unmarshal _ := Err unsupported }.
#[export] Instance json_strings : Json (list string) := { Marshal _ := Err unsupported; Unmarshal _ := Err unsupported }.

Definition no_extract (_ _ : string) : option string := None.

(** ** Runs *)

#[local] Instance newest_first_dec : RelDecision (fun a b : BackupInfo => BI_CreatedAt b <= BI_CreatedAt a).
Proof. intros a b. apply _. Defined.
Definition by_newest (l : list BackupInfo) : list BackupInfo := merge_sort (fun a b => BI_CreatedAt b <= BI_CreatedAt a) l.
Definition in_order (m : gmap string (list BackupInfo)) : list (string * list BackupInfo) := map_to_list m.

Lemma by_newest_ok l : by_newest l ≡ₚ l /\ StronglySorted (fun a b => BI_CreatedAt b <= BI_CreatedAt a) (by_newest l).
Proof.
  split; [apply merge_sort_Permutation|].
  assert (Transitive (fun a b : BackupInfo => BI_CreatedAt b <= BI_CreatedAt a)) by (intros a b c; lia).
  assert (Total (fun a b : BackupInfo => BI_CreatedAt b <= BI_CreatedAt a)) by (intros a b; lia).
  apply (StronglySorted_merge_sort _).
Qed.

Definition seconds_text (t : Z) : string := pretty (t / Second).
Definition text_of (e : error) : string := "error".
Definition no_encode (b : BackupInfo) : result string := Err unsupported.
Definition no_decode (t : string) : result BackupInfo := Err unsupported.
Definition sample_resolver : option (pool -> string -> result string) := Some (fun _ id => Ok ("tank/jails/" +:+ id)).

Definition at_time (t : Z) : clock := {| c_stamp := t * Second; c_created := t * Second; c_hook := t * Second;
  c_done := t * Second; c_save := t * Second; c_prune := t * Second |}.

Definition policy_last (n : Z) : RetentionPolicy :=
  {| KeepLast := n; KeepHourly := 0; KeepDaily := 0; KeepWeekly := 0; KeepMonthly := 0; MinAge := 0 |}.
Definition local_config (n : Z) : BackupConfig :=
  {| BC_Enabled := false; BC_Schedule := ""; BC_Retention := policy_last n; BC_Destination := "/backups"; BC_Compression := "";
     BC_EncryptionKeyFile := ""; BC_PreBackupHook := ""; BC_PostBackupHook := "" |}.

#[local] Instance sample_store : BackupStore Tables := Tables_BackupStore no_extract.
#[local] Abbreviation manager := (BackupManager Tables pool).

Definition empty_pool : pool := {| snaps := ∅; files := ∅ |}.
Definition empty_manager : manager := NewBackupManager None empty_pool.
Definition configured (n : Z) : manager := (Configure empty_manager 0 "web" (Some (local_config n))).1.

Definition run_backup (bm : manager) (t : Z) (ty : BackupType) : manager :=
  (CreateBackup in_order by_newest seconds_text seconds_text text_of no_encode sample_resolver "" bm (at_time t) "web" ty).1.1.
Definition run_snapshot (bm : manager) (t : Z) : manager :=
  (CreateSnapshot in_order by_newest seconds_text seconds_text text_of no_encode sample_resolver "" bm (at_time t) "web").1.1.
Definition ids (bm : manager) : list string := map BI_ID (records bm "web").

(** A full backup and two incremental ones; keeping one record keeps all three,
    since each is the base of the next. *)
Definition chained : manager := run_backup (run_backup (run_backup (configured 1) 100 BackupTypeFull) 200 BackupTypeIncr) 300 BackupTypeIncr.

Example chained_ids : ids chained = ["web-100"; "web-200"; "web-300"].
Proof. vm_compute. reflexivity. Qed.

Example chained_bases : map BI_BaseSnapshot (records chained "web") =
  [""; "tank/jails/web@hospitus-backup-100"; "tank/jails/web@hospitus-backup-200"].
Proof. vm_compute. reflexivity. Qed.

Example base_is_refused : ids (DeleteBackup in_order chained "web-100").1 = ids chained.
Proof. vm_compute. reflexivity. Qed.

Lemma in_order_perm m : in_order m ≡ₚ map_to_list m.
Proof. done. Qed.

(** ** The theorems at work *)

Lemma chained_reachable : rtc (bstep in_order by_newest seconds_text seconds_text text_of no_encode sample_resolver "" (fresh seconds_text))
  (configured 1) chained.
Proof.
  unfold chained, run_backup.
  do 3 (eapply rtc_r; [|apply s_backup; unfold fresh; vm_compute; set_solver]). done.
Qed.

Lemma configured_ok : records_ok (all_records (backups (configured 1))).
Proof. split; [constructor|constructor|]. intros b Hb. by apply elem_of_nil in Hb. Qed.


Definition scheduled : BackupConfig :=
  {| BC_Enabled := true; BC_Schedule := "daily"; BC_Retention :=
       {| KeepLast := 3; KeepHourly := 0; KeepDaily := 0; KeepWeekly := 0; KeepMonthly := 0; MinAge := 3600 * Second |};
     BC_Destination := ""; BC_Compression := ""; BC_EncryptionKeyFile := ""; BC_PreBackupHook := ""; BC_PostBackupHook := "" |}.

(** Configured twice: the first loop has been told to stop, the second runs. *)
Definition rescheduled : manager := (Configure (Configure empty_manager 0 "web" (Some scheduled)).1 1 "web" (Some scheduled)).1.

Lemma one_schedule_per_instance_witness :
  closed rescheduled = [0%nat] /\ loops rescheduled !! 1%nat = Some "web" /\ NoDup (closed rescheduled) /\ loops (Stop rescheduled) = ∅.
Proof.
  split; [vm_compute; reflexivity|]. split; [vm_compute; reflexivity|].
  destruct (one_schedule_per_instance in_order by_newest seconds_text seconds_text text_of no_encode sample_resolver ""
    None empty_pool rescheduled) as (H1 & _ & _ & H4 & _); [|by split].
  unfold rescheduled. eapply rtc_r; [|apply s_configure]. eapply rtc_r; [|apply s_configure]. apply rtc_refl.
Defined.

(** Three snapshots with two kept: the oldest goes. *)
Definition three : manager := run_snapshot (run_snapshot (run_snapshot (configured 5) 100) 200) 300.

Lemma three_times : NoDup (map BI_ID (all_records (backups three))) /\ NoDup (map BI_CreatedAt (records three "web")).
Proof. vm_compute. split; repeat constructor; set_solver. Qed.

Lemma retention_keeps_promises_witness :
  map BI_ID (records (applyRetention in_order by_newest three (400 * Second) "web" (policy_last 2)) "web") = ["web-200"; "web-300"] /\
  forall b, b ∈ records three "web" -> BI_CreatedAt b = 300 * Second ->
    b ∈ records (applyRetention in_order by_newest three (400 * Second) "web" (policy_last 2)) "web".
Proof.
  split; [vm_compute; reflexivity|]. intros b Hb Ht. destruct three_times as [H1 H2].
  destruct (retention_keeps_promises in_order by_newest three (400 * Second) "web" (policy_last 2) in_order_perm by_newest_ok H1 H2)
    as [Hk _]. apply Hk; [exact Hb|]. left. rewrite Ht. vm_compute. reflexivity.
Defined.

(** A negative count is not [no rule], and keeps nothing: the backup that was
    just reported as created is gone. *)
Definition negative_policy_run : manager := run_snapshot (configured (-1)) 100.

(** A retention policy with a negative count is accepted, and deletes every
    backup, the one just taken included: after a successful snapshot under it
    neither the record nor the snapshot is left. *)
Theorem negative_retention_deletes_all :
  (Configure empty_manager 0 "web" (Some (local_config (-1)))).2 = None /\
  (CreateSnapshot in_order by_newest seconds_text seconds_text text_of no_encode sample_resolver "" (configured (-1)) (at_time 100) "web").2 = None /\
  records negative_policy_run "web" = [] /\ elements (snaps (bm_host negative_policy_run)) = [].
Proof. split_and!; vm_compute; reflexivity. Qed.

(** Two backups in one second share their id: the second fails on the snapshot
    that exists, and its failed record stands beside the good one. *)
Definition same_second : manager := run_snapshot (run_snapshot (configured 5) 100) 100.

Lemma same_second_shares_id :
  map (fun b => (BI_ID b, bool_decide (BI_Status b = BackupStatusCompleted))) (records same_second "web") = [("web-100", true); ("web-100", false)] /\
  elements (snaps (bm_host (DeleteBackup in_order same_second "web-100").1)) = [].
Proof. split; vm_compute; reflexivity. Qed.

(** A snapshot destroyed by hand: zfs says it could not find it, in words the
    manager does not take for absence, and the record stays. *)
Definition snapshot_gone : manager := set_host (run_snapshot (configured 5) 100) empty_pool.

Lemma missing_snapshot_keeps_record :
  ids (DeleteBackup in_order snapshot_gone "web-100").1 = ["web-100"] /\ is_Some (DeleteBackup in_order snapshot_gone "web-100").2.
Proof. split; [vm_compute; reflexivity|]. eexists. vm_compute. reflexivity. Qed.

(** ** The datastore *)

Definition empty_tables : Tables :=
  {| instances := ∅; events := []; next_event := 1; jobs := ∅; api_keys := ∅; backup_rows := ∅; faults := [] |}.

Definition sample_instance (name : string) : Instance :=
  {| In_ID := name; In_Name := name; In_Provider := "jail"; In_State := "stopped"; In_Spec := plain_spec name;
     In_Handle := {| Handle_ID := name; Handle_Provider := ""; Handle_Metadata := [] |}; In_CreatedAt := 0; In_UpdatedAt := 0;
     In_StartedAt := None; In_Labels := ∅; In_Annotations := ∅; In_Backup := None |}.

Definition with_web : Tables := (CreateInstance empty_tables 5 (sample_instance "web")).1.

Lemma empty_tables_ok : tables_ok empty_tables.
Proof. split; try done; simpl; [by intros e ?%elem_of_nil|split; constructor]. Qed.


Lemma rename_all_or_nothing_witness :
  exists ds', RenameInstance with_web 9 "web" "www" {| Handle_ID := "www"; Handle_Provider := ""; Handle_Metadata := [] |} = (ds', None) /\
    instances ds' !! "web" = None /\ events ds' = map (event_renamed "web" "www") (events with_web).
Proof.
  destruct (RenameInstance with_web 9 "web" "www" {| Handle_ID := "www"; Handle_Provider := ""; Handle_Metadata := [] |}) as [ds' err] eqn:E.
  pose proof (rename_all_or_nothing with_web ds' 9 "web" "www" _ err E) as H.
  exists ds'. vm_compute in E. injection E as <- <-. split; [reflexivity|]. destruct H as (H1 & _ & _ & H4).
  split; [apply H1; discriminate|exact H4].
Defined.

Definition open_job : JobRow :=
  {| J_ID := "j1"; J_Type := "instance.create"; J_Description := ""; J_Status := "running"; J_Progress := float_zero;
     J_Message := ""; J_Result := None; J_Error := None; J_Metadata := "{}"; J_CreatedAt := 1; J_StartedAt := Some 2; J_CompletedAt := None |}.
Definition with_job : Tables := set_jobs empty_tables {["j1" := open_job]}.

Lemma restart_closes_out_jobs_witness :
  exists ds', FailInterruptedJobs with_job 10 = (ds', Ok 1) /\ (forall id r, jobs ds' !! id = Some r -> interrupted r = false).
Proof.
  destruct (FailInterruptedJobs with_job 10) as [ds' [n|e]] eqn:E; [|vm_compute in E; discriminate].
  assert (n = 1) as -> by (vm_compute in E; by injection E).
  exists ds'. split; [reflexivity|]. apply (restart_closes_out_jobs with_job ds' 10 1 E).
Defined.

Definition over_web : manager := NewBackupManager (Some with_web) empty_pool.

Lemma whole_hour : whole_seconds (3600 * Second).
Proof. exists 3600. split; [reflexivity|]. vm_compute. split; [discriminate|reflexivity]. Qed.

Lemma with_web_rows d : d = default with_web (bm_ds (Configure over_web 1 "web" (Some scheduled)).1) ->
  faults d = [] /\ readable d /\ forall id r, instances d !! id = Some r -> Row_ID r = id.
Proof.
  intros ->. split; [vm_compute; reflexivity|].
  assert (exists r0, instances (default with_web (bm_ds (Configure over_web 1 "web" (Some scheduled)).1)) = {["web" := r0]} /\
    Row_ID r0 = "web" /\ exists i, scanInstance r0 = Ok i) as (r0 & Heq & Hid & Hs).
  { eexists. split; [vm_compute; reflexivity|]. split; [reflexivity|]. eexists. vm_compute. reflexivity. }
  unfold readable. rewrite Heq. split; intros id r [<- <-]%lookup_singleton_Some; done.
Qed.

Lemma configuration_survives_restart_witness :
  exists bm2 : manager, reload no_decode (NewBackupManager (bm_ds (Configure over_web 1 "web" (Some scheduled)).1) empty_pool) 2 = (bm2, None) /\
    GetConfig bm2 "web" = Some scheduled.
Proof.
  destruct (Configure over_web 1 "web" (Some scheduled)) as [bm' err] eqn:E.
  destruct (with_web_rows (default with_web (bm_ds bm')) ltac:(by rewrite E)) as (Hf & Hr & Hi).
  destruct (bm_ds bm') as [d'|] eqn:Ed; [|by vm_compute in E; injection E as <- <-].
  assert (err = None) as -> by (vm_compute in E; by injection E).
  cbn [fst]. rewrite Ed.
  apply (configuration_survives_restart no_extract no_decode over_web bm' with_web d' 1 2 "web" scheduled empty_pool).
  - intros c t. simpl. case_bool_decide; [|done]. by intros [= <-].
  - reflexivity.
  - exact whole_hour.
  - reflexivity.
  - exact E.
  - exact Ed.
  - exact Hf.
  - exact Hr.
  - exact Hi.
Defined.
