(* ===== verification/GoHttp.v ===== *)
(** * What the API uses of net, net/http and strings

    Requests, the writer of a response as net/http implements it (the first
    final status wins, headers are frozen with it), [net.SplitHostPort],
    [net.IPNet], and [strings.EqualFold].  A handler is the list of operations it
    performs on its writer, and whether it returned or panicked: the wrappers of
    the middleware translate such lists. *)

From stdpp Require Import base list gmap strings.
From Stdlib Require Import Ascii ZArith Lia.
From S2P Require Import Prelude GoStrings GoText GoNet.

Local Open Scope Z_scope.

(** ** Text *)

(** Simple folding, exact where one of the two texts is ASCII: besides the
    letters, the Kelvin sign folds to k and the long s to s. *)
Definition fold_rune (r : Z) : Z :=
  if (65 <=? r) && (r <=? 90) then r + 32 else if r =? 8490 then 107 else if r =? 383 then 115 else r.
Definition EqualFold (s t : string) : bool := bool_decide (map fold_rune (runes s) = map fold_rune (runes t)).

(** [strings.Trim(s, "/")]. *)
Definition Trim (s cut : string) : string := TrimRight (TrimLeft s cut) cut.

(** [%q], exact on ASCII text. *)
Definition chr (n : Z) : ascii := ascii_of_N (Z.to_N n).
Definition hex_digit (n : Z) : ascii := chr (if n <? 10 then 48 + n else 87 + n).
Definition quote_byte (c : ascii) : list ascii :=
  let n := code c in
  if (n =? 34) || (n =? 92) then [chr 92; c]
  else match List.find (fun p => n =? p.1) [(7, 97); (8, 98); (9, 116); (10, 110); (11, 118); (12, 102); (13, 114)] with
       | Some (_, e) => [chr 92; chr e]
       | None => if (n <? 32) || (n =? 127) then [chr 92; "x"%char; hex_digit (n / 16); hex_digit (n mod 16)] else [c]
       end.
Definition Quote (s : string) : string := of_bytes ([chr 34] ++ flat_map quote_byte (bytes s) ++ [chr 34]).

(** ** Addresses *)

(** [net.SplitHostPort]: the host, or nothing where the code returns an error. *)
Definition SplitHostPort (hostport : string) : option string :=
  let l := bytes hostport in
  match CutLast hostport ":" with
  | None => None
  | Some (before, _) =>
      match l with
      | "["%char :: rest =>
          match cut_l "]" l with
          | None => None
          | Some (inside, after) =>
              (* the bracket closes just before the last colon *)
              if bool_decide (inside ++ ["]"%char] = bytes before) then
                if ascii_in (tail l) "[" || ascii_in after "]" then None else Some (of_bytes (tail inside))
              else None
          end
      | _ => if ascii_in (bytes before) ":" || ascii_in l "[" || ascii_in l "]" then None else Some before
      end
  end.

Record IPNet := { N_IP : list Z; N_Mask : list Z }.

(** [net.CIDRMask(ones, 8 * n)]. *)
Fixpoint CIDRMask (ones : Z) (n : nat) : list Z :=
  match n with
  | O => []
  | S n => (if 8 <=? ones then 255 else 256 - 2 ^ (8 - Z.max 0 ones)) :: CIDRMask (ones - 8) n
  end.

Definition To4 (ip : list Z) : option (list Z) :=
  if bool_decide (length ip = 4%nat) then Some ip else if is_v4 ip then Some (drop 12 ip) else None.

Definition and_bytes (a b : list Z) : list Z := zip_with Z.land a b.

(** [ip.Mask(mask)] for the sixteen bytes [ParseCIDR] holds. *)
Definition Mask (ip mask : list Z) : list Z :=
  if bool_decide (length mask = 4%nat) && is_v4 ip then and_bytes (drop 12 ip) mask else and_bytes ip mask.

(** The [*IPNet] of [net.ParseCIDR]. *)
Definition ParseCIDR_net (s : string) : option IPNet :=
  match ParseCIDR s with
  | None => None
  | Some (ip, n) =>
      let mask := if ascii_in (bytes s) ":" then CIDRMask n 16 else CIDRMask n 4 in
      Some {| N_IP := Mask ip mask; N_Mask := mask |}
  end.

(** [n.Contains(ip)]. *)
Definition Contains_ip (n : IPNet) (ip : list Z) : bool :=
  let nn := default (N_IP n) (To4 (N_IP n)) in
  let mask := if bool_decide (length (N_Mask n) = 16%nat) && bool_decide (length nn = 4%nat) then drop 12 (N_Mask n) else N_Mask n in
  let x := default ip (To4 ip) in
  bool_decide (length nn = length mask) && bool_decide (length x = length nn) &&
  bool_decide (and_bytes nn mask = and_bytes x mask).

(** ** Requests *)

Record Request := {
  R_Method : string; R_Path : string; R_RemoteAddr : string;
  R_Header : list (string * string);            (* canonical names, first value first *)
  R_Query : list (string * string);
  R_PathValue : list (string * string);
  R_Permissions : option (list string);         (* the context's, set by authentication *)
  R_APIKeyID : option string;
  R_BodyLimit : option Z                        (* of [http.MaxBytesReader] around the body *)
}.

Definition assoc (k : string) (l : list (string * string)) : string :=
  default "" (snd <$> List.find (fun p => streq p.1 k) l).
Definition Header_Get (r : Request) (k : string) : string := assoc k (R_Header r).
Definition Query_Get (r : Request) (k : string) : string := assoc k (R_Query r).
Definition Query_All (r : Request) (k : string) : list string := omap (fun p => if streq p.1 k then Some p.2 else None) (R_Query r).
Definition PathValue (r : Request) (k : string) : string := assoc k (R_PathValue r).
Definition with_identity (r : Request) (perms : list string) (id : string) : Request :=
  {| R_Method := R_Method r; R_Path := R_Path r; R_RemoteAddr := R_RemoteAddr r; R_Header := R_Header r; R_Query := R_Query r;
     R_PathValue := R_PathValue r; R_Permissions := Some perms; R_APIKeyID := Some id; R_BodyLimit := R_BodyLimit r |}.
Definition with_body_limit (r : Request) (n : Z) : Request :=
  {| R_Method := R_Method r; R_Path := R_Path r; R_RemoteAddr := R_RemoteAddr r; R_Header := R_Header r; R_Query := R_Query r;
     R_PathValue := R_PathValue r; R_Permissions := R_Permissions r; R_APIKeyID := R_APIKeyID r; R_BodyLimit := Some n |}.

Definition MethodGet : string := "GET".
Definition MethodHead : string := "HEAD".
Definition MethodPost : string := "POST".
Definition MethodPatch : string := "PATCH".
Definition MethodDelete : string := "DELETE".
Definition MethodOptions : string := "OPTIONS".

Definition StatusOK : Z := 200.
Definition StatusCreated : Z := 201.
Definition StatusAccepted : Z := 202.
Definition StatusNoContent : Z := 204.
Definition StatusBadRequest : Z := 400.
Definition StatusUnauthorized : Z := 401.
Definition StatusForbidden : Z := 403.
Definition StatusNotFound : Z := 404.
Definition StatusMethodNotAllowed : Z := 405.
Definition StatusConflict : Z := 409.
Definition StatusTooManyRequests : Z := 429.
Definition StatusInternalServerError : Z := 500.
Definition StatusNotImplemented : Z := 501.
Definition StatusServiceUnavailable : Z := 503.

(** ** Responses *)

(** What is written: a JSON object of strings, another JSON value, a line. *)
Inductive payload :=
  | JSONMap (fields : list (string * string))
  | JSONValue (what : string)
  | Line (text : string).

Inductive wop :=
  | SetHeader (k v : string) | AddHeader (k v : string) | DelHeader (k : string)
  | WriteHeader (code : Z) | Write (p : payload) | Flush | Hijack.

Inductive outcome := Returned | Panicked.

(** The writer the server hands to the outermost handler. *)
Record response := {
  w_status : option Z; w_header : gmap string (list string); w_sent : gmap string (list string);
  w_body : list payload; w_hijacked : bool
}.
Definition new_response : response := {| w_status := None; w_header := ∅; w_sent := ∅; w_body := []; w_hijacked := false |}.

(** A 1xx status other than 101 is informational, and does not commit. *)
Definition final_status (code : Z) : bool := negb ((100 <=? code) && (code <=? 199) && negb (code =? 101)).

Definition commit (w : response) (code : Z) : response :=
  match w_status w with
  | Some _ => w
  | None => if w_hijacked w || negb (final_status code) then w
            else {| w_status := Some code; w_header := w_header w; w_sent := w_header w; w_body := w_body w; w_hijacked := false |}
  end.

Definition set_header (w : response) (h : gmap string (list string)) : response :=
  {| w_status := w_status w; w_header := h; w_sent := w_sent w; w_body := w_body w; w_hijacked := w_hijacked w |}.

Definition write_body (w : response) (p : payload) : response :=
  let w := commit w StatusOK in
  if w_hijacked w then w
  else {| w_status := w_status w; w_header := w_header w; w_sent := w_sent w; w_body := w_body w ++ [p]; w_hijacked := false |}.

Definition perform (w : response) (o : wop) : response :=
  match o with
  | SetHeader k v => set_header w (<[k := [v]]> (w_header w))
  | AddHeader k v => set_header w (<[k := default [] (w_header w !! k) ++ [v]]> (w_header w))
  | DelHeader k => set_header w (delete k (w_header w))
  | WriteHeader c => commit w c
  | Write p => write_body w p
  | Flush => commit w StatusOK
  | Hijack => {| w_status := w_status w; w_header := w_header w; w_sent := w_sent w; w_body := w_body w; w_hijacked := true |}
  end.

Definition run_writer (w : response) (ops : list wop) : response := foldl perform w ops.

(** A handler that returns without a status is answered 200. *)
Definition finish (w : response) : response := commit w StatusOK.

(** ** Facts *)

Lemma run_writer_app w a b : run_writer w (a ++ b) = run_writer (run_writer w a) b.
Proof. apply foldl_app. Qed.

(** Once committed, the status and the headers on the wire stay. *)
Lemma perform_committed w o c : w_status w = Some c -> w_status (perform w o) = Some c /\ w_sent (perform w o) = w_sent w.
Proof.
  intros Hc. destruct o; simpl; try done; unfold write_body, commit; rewrite ?Hc; try done.
  by destruct (w_hijacked w).
Qed.

Lemma run_committed ops : forall w c, w_status w = Some c ->
  w_status (run_writer w ops) = Some c /\ w_sent (run_writer w ops) = w_sent w.
Proof.
  induction ops as [|o ops IH]; intros w c Hc; [done|]. simpl.
  destruct (perform_committed w o c Hc) as [H1 H2]. destruct (IH _ _ H1) as [H3 H4]. split; [done|]. by rewrite H4.
Qed.

Example bracketed_host : SplitHostPort "[::1]:8080" = Some "::1" /\ SplitHostPort "10.0.0.1:80" = Some "10.0.0.1" /\
  SplitHostPort "10.0.0.1" = None /\ SplitHostPort "::1:80" = None /\ SplitHostPort "[::1]" = None /\ SplitHostPort "[::1]x:80" = None.
Proof. vm_compute. done. Qed.
