(* ===== verification/Auth.v ===== *)
(** * API keys and authentication (internal/auth/auth.go)

    Keys live in the manager's map as pointers: [am_keys] gives the address of
    the record of an id and [am_heap] the record at an address, so that
    [current != matchedKey] compares addresses as the code does.  bcrypt is a
    parameter: [GenerateFromPassword] with the salt it draws, and
    [CompareHashAndPassword].  [ValidateAPIKey] drops the lock between its scan
    and its update; both regions are definitions, and [astep] lets every other
    operation run in between. *)

From stdpp Require Import base list gmap strings pretty relations.
From Stdlib Require Import Ascii ZArith Lia.
From S2P Require Import Prelude GoStrings GoText.

Local Open Scope Z_scope.

(** ** Key generation *)

Definition APIKeyPrefix : string := "hsp_".

(** [base64.RawURLEncoding]: the alphabet of RFC 4648 for URLs, no padding. *)
Definition url_alphabet : list ascii :=
  bytes "ABCDEFGHIJKLMNOPQRSTUVWXYZabcdefghijklmnopqrstuvwxyz0123456789-_".

Definition bit (b : bool) (n : nat) : nat := if b then n else 0%nat.
Definition sextet (f e d c b a : bool) : ascii :=
  nth (bit f 32 + bit e 16 + bit d 8 + bit c 4 + bit b 2 + bit a 1)%nat url_alphabet zero.

(** A byte is [Ascii] of its bits, the lowest first. *)
Fixpoint EncodeToString_l (l : list ascii) : list ascii :=
  match l with
  | [] => []
  | [Ascii a0 a1 a2 a3 a4 a5 a6 a7] =>
      [sextet a7 a6 a5 a4 a3 a2; sextet a1 a0 false false false false]
  | [Ascii a0 a1 a2 a3 a4 a5 a6 a7; Ascii b0 b1 b2 b3 b4 b5 b6 b7] =>
      [sextet a7 a6 a5 a4 a3 a2; sextet a1 a0 b7 b6 b5 b4; sextet b3 b2 b1 b0 false false]
  | Ascii a0 a1 a2 a3 a4 a5 a6 a7 :: Ascii b0 b1 b2 b3 b4 b5 b6 b7 :: Ascii c0 c1 c2 c3 c4 c5 c6 c7 :: rest =>
      sextet a7 a6 a5 a4 a3 a2 :: sextet a1 a0 b7 b6 b5 b4 :: sextet b3 b2 b1 b0 c7 c6 :: sextet c5 c4 c3 c2 c1 c0
      :: EncodeToString_l rest
  end.

(** [GenerateAPIKey]: [random] is what [rand.Read] fills 32 bytes with. *)
Definition GenerateAPIKey (random : result (list ascii)) : result string :=
  match random with
  | Err e => Err (Wrapf "failed to generate random bytes: %w" [] e)
  | Ok b => Ok (APIKeyPrefix +:+ of_bytes (EncodeToString_l b))
  end.

(** ** The manager *)

Record APIKey := {
  K_ID : string; K_Name : string; K_HashedKey : string; K_CreatedAt : Z; K_LastUsedAt : option Z;
  K_ExpiresAt : option Z; K_Permissions : list string
}.

Record AuthManager := { am_keys : gmap string nat; am_heap : gmap nat APIKey; am_next : nat }.

Class Bcrypt := {
  GenerateFromPassword : Z -> string -> result string;
  CompareHashAndPassword : string -> string -> bool
}.

(** What bcrypt documents: a generated hash compares equal with its password. *)
Class BcryptLaws `{Bcrypt} := {
  generated_matches : forall salt key h, GenerateFromPassword salt key = Ok h -> CompareHashAndPassword h key = true
}.

Definition NewAuthManager : AuthManager := {| am_keys := ∅; am_heap := ∅; am_next := 0 |}.

(** The record an id names now. *)
Definition key_at (am : AuthManager) (id : string) : option APIKey := a ← am_keys am !! id; am_heap am !! a.

(** [am.keys[id] = &k]. *)
Definition put_key (am : AuthManager) (id : string) (k : APIKey) : AuthManager :=
  {| am_keys := <[id := am_next am]> (am_keys am); am_heap := <[am_next am := k]> (am_heap am); am_next := S (am_next am) |}.

(** A write through the pointer. *)
Definition set_record (am : AuthManager) (a : nat) (k : APIKey) : AuthManager :=
  {| am_keys := am_keys am; am_heap := <[a := k]> (am_heap am); am_next := am_next am |}.

Definition with_expiry (k : APIKey) (expiresAt : option Z) : APIKey :=
  {| K_ID := K_ID k; K_Name := K_Name k; K_HashedKey := K_HashedKey k; K_CreatedAt := K_CreatedAt k;
     K_LastUsedAt := K_LastUsedAt k; K_ExpiresAt := expiresAt; K_Permissions := K_Permissions k |}.
Definition with_last_used (k : APIKey) (now : Z) : APIKey :=
  {| K_ID := K_ID k; K_Name := K_Name k; K_HashedKey := K_HashedKey k; K_CreatedAt := K_CreatedAt k;
     K_LastUsedAt := Some now; K_ExpiresAt := K_ExpiresAt k; K_Permissions := K_Permissions k |}.
Definition without_hash (k : APIKey) : APIKey :=
  {| K_ID := K_ID k; K_Name := K_Name k; K_HashedKey := ""; K_CreatedAt := K_CreatedAt k;
     K_LastUsedAt := K_LastUsedAt k; K_ExpiresAt := K_ExpiresAt k; K_Permissions := K_Permissions k |}.

(** [ExpiresAt != nil && time.Now().After( *ExpiresAt)]. *)
Definition is_expired (k : APIKey) (now : Z) : bool :=
  match K_ExpiresAt k with Some t => t <? now | None => false end.

(** [perm == "*" || perm == permission]. *)
Definition grants (permission perm : string) : bool := streq perm "*" || streq perm permission.

Section manager.
Context `{Bcrypt}.
(** The order in which Go visits the map of keys. *)
Variable visit : gmap string nat -> list (string * nat).

Definition HashAPIKey (salt : Z) (key : string) : result string :=
  match GenerateFromPassword salt key with
  | Err e => Err (Wrapf "failed to hash API key: %w" [] e)
  | Ok h => Ok h
  end.

Definition AddAPIKey (am : AuthManager) (salt now : Z) (id name key : string) (permissions : list string)
    (expiresAt : option Z) : AuthManager * option error :=
  match HashAPIKey salt key with
  | Err e => (am, Some e)
  | Ok hashedKey =>
      (put_key am id {| K_ID := id; K_Name := name; K_HashedKey := hashedKey; K_CreatedAt := now; K_LastUsedAt := None;
                        K_ExpiresAt := expiresAt; K_Permissions := permissions |}, None)
  end.

Definition LoadAPIKey (am : AuthManager) (k : APIKey) : AuthManager := put_key am (K_ID k) k.

Definition GetAPIKey (am : AuthManager) (id : string) : option APIKey := key_at am id.

Definition invalid_key : error := Errorf "invalid API key" [].
Definition expired_key : error := Errorf "API key expired" [].

(** The scan under the read lock: the first record the key matches, and whether
    it had expired. *)
Definition scan_keys (am : AuthManager) (now : Z) (key : string) : option (nat * bool) :=
  match List.find (fun p => match am_heap am !! p.2 with
                            | Some k => CompareHashAndPassword (K_HashedKey k) key
                            | None => false
                            end) (visit (am_keys am)) with
  | Some (_, a) => Some (a, match am_heap am !! a with Some k => is_expired k now | None => false end)
  | None => None
  end.

(** The update under the write lock, for the record found. *)
Definition confirm_key (am : AuthManager) (now : Z) (a : nat) : AuthManager * result APIKey :=
  match am_heap am !! a with
  | None => (am, Err invalid_key)
  | Some matched =>
      match am_keys am !! K_ID matched with
      | None => (am, Err invalid_key)
      | Some current =>
          if negb (bool_decide (current = a)) then (am, Err invalid_key)
          else if is_expired matched now then (am, Err expired_key)
          else (set_record am a (with_last_used matched now), Ok (with_last_used matched now))
      end
  end.

(** [t1], [t2] are the readings of the clock in the two regions. *)
Definition ValidateAPIKey (am : AuthManager) (t1 t2 : Z) (key : string) : AuthManager * result APIKey :=
  if streq key "" then (am, Err (Errorf "empty API key" []))
  else match scan_keys am t1 key with
       | None => (am, Err invalid_key)
       | Some (_, true) => (am, Err expired_key)
       | Some (a, false) => confirm_key am t2 a
       end.

Definition HasPermission (am : AuthManager) (keyID permission : string) : bool :=
  match key_at am keyID with
  | None => false
  | Some k => existsb (grants permission) (K_Permissions k)
  end.

Definition RevokeAPIKey (am : AuthManager) (id : string) : AuthManager * option error :=
  match am_keys am !! id with
  | None => (am, Some (Errorf "API key not found" []))
  | Some _ => ({| am_keys := delete id (am_keys am); am_heap := am_heap am; am_next := am_next am |}, None)
  end.

Definition SetKeyExpiry (am : AuthManager) (id : string) (expiresAt : option Z) : AuthManager * option error :=
  match am_keys am !! id with
  | None => (am, Some (Errorf "API key not found" []))
  | Some a => match am_heap am !! a with
              | Some k => (set_record am a (with_expiry k expiresAt), None)
              | None => (am, None)
              end
  end.

Definition ListAPIKeys (am : AuthManager) : list APIKey :=
  omap (fun p => without_hash <$> am_heap am !! p.2) (visit (am_keys am)).

Definition Authenticate (am : AuthManager) (t1 t2 : Z) (key : string) : AuthManager * option (list string * string) :=
  match ValidateAPIKey am t1 t2 key with
  | (am, Err _) => (am, None)
  | (am, Ok k) => (am, Some (K_Permissions k, K_ID k))
  end.

Definition ValidateKey (am : AuthManager) (t1 t2 : Z) (key : string) : AuthManager * bool :=
  let '(am, r) := ValidateAPIKey am t1 t2 key in (am, is_ok r).

Definition GetPermissions (am : AuthManager) (t1 t2 : Z) (key : string) : AuthManager * option (list string) :=
  let '(am, r) := Authenticate am t1 t2 key in (am, fst <$> r).

(** What may happen between the two regions of a validation: any operation, the
    second region of other validations included. *)
Inductive astep : AuthManager -> AuthManager -> Prop :=
  | a_add am salt now id name key permissions expiresAt :
      astep am (AddAPIKey am salt now id name key permissions expiresAt).1
  | a_load am k : astep am (LoadAPIKey am k)
  | a_revoke am id : astep am (RevokeAPIKey am id).1
  | a_expiry am id expiresAt : astep am (SetKeyExpiry am id expiresAt).1
  | a_confirm am now a : astep am (confirm_key am now a).1.
End manager.

(** ** The development provider *)

Record SimpleAuthProvider := { validKeys : gmap string string; sap_next : Z }.

Definition config_key_id (n : Z) : string := "config-key-" +:+ Itoa n.

(** [AddKey], and one turn of the constructor's loop. *)
Definition AddKey (sap : SimpleAuthProvider) (key : string) : SimpleAuthProvider :=
  if streq key "" then sap
  else match validKeys sap !! key with
       | Some _ => sap
       | None => {| validKeys := <[key := config_key_id (sap_next sap + 1)]> (validKeys sap); sap_next := sap_next sap + 1 |}
       end.

Definition NewSimpleAuthProvider (keys : list string) : SimpleAuthProvider :=
  foldl AddKey {| validKeys := ∅; sap_next := 0 |} keys.

Definition simple_ValidateKey (sap : SimpleAuthProvider) (key : string) : bool :=
  if streq key "" then false else existsb (fun p => streq key p.1) (map_to_list (validKeys sap)).

Definition simple_Authenticate (sap : SimpleAuthProvider) (key : string) : option (list string * string) :=
  match validKeys sap !! key with
  | None => None
  | Some id => Some (["*"], id)
  end.

Definition simple_GetPermissions (sap : SimpleAuthProvider) (key : string) : option (list string) :=
  fst <$> simple_Authenticate sap key.

Definition RemoveKey (sap : SimpleAuthProvider) (key : string) : SimpleAuthProvider :=
  {| validKeys := delete key (validKeys sap); sap_next := sap_next sap |}.
