(* ===== verification/AuthFacts.v ===== *)
(** * Facts about authentication

    The invariant of the key manager, what a validation that is interrupted
    between its two locked regions still guarantees, and the identifiers of the
    development provider. *)

From stdpp Require Import base list gmap strings pretty relations.
From Stdlib Require Import Ascii ZArith Lia.
From S2P Require Import Prelude GoStrings GoText Auth.

Local Open Scope Z_scope.

(** ** Generated keys *)

(** The bits a character of the alphabet stands for. *)
Fixpoint index_of (c : ascii) (l : list ascii) : nat :=
  match l with [] => 0 | d :: l => if Ascii.eqb c d then 0 else S (index_of c l) end%nat.
Definition unsextet (c : ascii) : nat := index_of c url_alphabet.

Lemma unsextet_sextet f e d c b a :
  unsextet (sextet f e d c b a) = (bit f 32 + bit e 16 + bit d 8 + bit c 4 + bit b 2 + bit a 1)%nat.
Proof. destruct f, e, d, c, b, a; vm_compute; reflexivity. Qed.

Lemma sextet_inj f e d c b a f' e' d' c' b' a' :
  sextet f e d c b a = sextet f' e' d' c' b' a' -> (f, e, d, c, b, a) = (f', e', d', c', b', a').
Proof.
  intros Hs. apply (f_equal unsextet) in Hs. rewrite !unsextet_sextet in Hs.
  destruct f, e, d, c, b, a, f', e', d', c', b', a'; simpl in Hs; congruence || lia.
Qed.

Lemma sextet_alphabet f e d c b a : sextet f e d c b a ∈ url_alphabet.
Proof. apply list_elem_of_In. destruct f, e, d, c, b, a; vm_compute; tauto. Qed.

(** Induction by threes. *)
Lemma list_ind3 {A} (P : list A -> Prop) :
  P [] -> (forall a, P [a]) -> (forall a b, P [a; b]) -> (forall a b c l, P l -> P (a :: b :: c :: l)) -> forall l, P l.
Proof.
  intros H0 H1 H2 H3. fix IH 1. intros [|a [|b [|c l]]]; [done|done|done|]. apply H3, IH.
Qed.

Ltac bits :=
  repeat match goal with
  | x : ascii |- _ => destruct x
  | H : _ :: _ = _ :: _ |- _ => injection H as; subst
  | H : sextet _ _ _ _ _ _ = sextet _ _ _ _ _ _ |- _ => apply sextet_inj in H; injection H as; subst
  end.

Lemma EncodeToString_l_inj l l' : EncodeToString_l l = EncodeToString_l l' -> length l = length l' -> l = l'.
Proof.
  revert l'. induction l as [|a|a b|a b c l IH] using @list_ind3; intros [|a' [|b' [|c' l']]] He Hl; try discriminate.
  - done.
  - bits. simpl in He. bits. done.
  - bits. simpl in He. bits. done.
  - bits. simpl in He, Hl. bits. f_equal. f_equal. f_equal. apply IH; [done|lia].
Qed.

Lemma EncodeToString_l_alphabet l : Forall (fun c => c ∈ url_alphabet) (EncodeToString_l l).
Proof.
  induction l as [|a|a b|a b c l IH] using @list_ind3; bits; simpl;
    repeat (apply Forall_cons; split; [apply sextet_alphabet|]); done.
Qed.

Lemma length_EncodeToString_l l : (4 * length l <= 3 * length (EncodeToString_l l) < 4 * length l + 3)%nat.
Proof. induction l as [|a|a b|a b c l IH] using @list_ind3; bits; simpl in *; lia. Qed.

(** A key from 32 bytes has 43 characters after its prefix, and different bytes
    give different keys. *)
Lemma GenerateAPIKey_shape b key : length b = 32%nat -> GenerateAPIKey (Ok b) = Ok key ->
  exists enc, key = APIKeyPrefix +:+ of_bytes enc /\ length enc = 43%nat /\ Forall (fun c => c ∈ url_alphabet) enc.
Proof.
  intros Hb [= <-]. exists (EncodeToString_l b). split; [done|]. split; [|apply EncodeToString_l_alphabet].
  pose proof (length_EncodeToString_l b). lia.
Qed.

Lemma GenerateAPIKey_inj b b' key : length b = length b' ->
  GenerateAPIKey (Ok b) = Ok key -> GenerateAPIKey (Ok b') = Ok key -> b = b'.
Proof.
  intros Hl H1 H2. unfold GenerateAPIKey in *. simplify_eq. apply EncodeToString_l_inj; [|done].
  apply (f_equal bytes) in H1. by rewrite !bytes_of_bytes in H1.
Qed.

(** ** The manager *)

(** An id names a live record that carries it, and addresses are fresh. *)
Record auth_ok (am : AuthManager) : Prop := {
  ids_agree : forall id a, am_keys am !! id = Some a -> exists k, am_heap am !! a = Some k /\ K_ID k = id;
  heap_bound : forall a k, am_heap am !! a = Some k -> (a < am_next am)%nat
}.

Lemma NewAuthManager_ok : auth_ok NewAuthManager.
Proof. split; simpl; intros ??; by rewrite lookup_empty. Qed.

Lemma key_at_Some am id a k : am_keys am !! id = Some a -> am_heap am !! a = Some k -> key_at am id = Some k.
Proof. unfold key_at. intros -> ?. done. Qed.

(** Records at an address keep what identifies them. *)
Definition same_key (k k' : APIKey) : Prop :=
  K_ID k' = K_ID k /\ K_HashedKey k' = K_HashedKey k /\ K_Permissions k' = K_Permissions k.
Definition preserves (am am' : AuthManager) : Prop :=
  forall a k, am_heap am !! a = Some k -> exists k', am_heap am' !! a = Some k' /\ same_key k k'.

Lemma preserves_refl am : preserves am am.
Proof. intros a k Hk. exists k. by repeat split. Qed.

Lemma preserves_trans am1 am2 am3 : preserves am1 am2 -> preserves am2 am3 -> preserves am1 am3.
Proof.
  intros H12 H23 a k Hk. destruct (H12 a k Hk) as (k2 & Hk2 & H1 & H2 & H3).
  destruct (H23 a k2 Hk2) as (k3 & Hk3 & H4 & H5 & H6). exists k3. split; [done|]. repeat split; congruence.
Qed.

Lemma put_key_ok am id k : auth_ok am -> K_ID k = id -> auth_ok (put_key am id k) /\ preserves am (put_key am id k).
Proof.
  intros [H1 H2] Hid. split; [split; simpl|].
  - intros i a [[<- <-]|[Hne Ha]]%lookup_insert_Some.
    + exists k. by rewrite lookup_insert_eq.
    + destruct (H1 i a Ha) as (k' & Hk' & Hi). exists k'. split; [|done].
      rewrite lookup_insert_ne; [done|]. specialize (H2 a k' Hk'). lia.
  - intros a k' [[<- <-]|[Hne Ha]]%lookup_insert_Some; [lia|]. specialize (H2 a k' Ha). lia.
  - intros a k' Hk'. exists k'. split; [|by repeat split]. simpl. rewrite lookup_insert_ne; [done|].
    specialize (H2 a k' Hk'). lia.
Qed.

Lemma set_record_ok am a k k' : auth_ok am -> am_heap am !! a = Some k -> same_key k k' ->
  auth_ok (set_record am a k') /\ preserves am (set_record am a k').
Proof.
  intros [H1 H2] Ha Hs. split; [split; simpl|].
  - intros i b Hb. destruct (H1 i b Hb) as (kb & Hkb & Hi). destruct (decide (b = a)) as [->|Hne].
    + exists k'. rewrite lookup_insert_eq. split; [done|]. destruct Hs as (-> & _). congruence.
    + exists kb. by rewrite lookup_insert_ne.
  - intros b kb [[<- <-]|[Hne Hb]]%lookup_insert_Some; eauto.
  - intros b kb Hb. destruct (decide (b = a)) as [->|Hne].
    + exists k'. simpl. rewrite lookup_insert_eq. split; [done|]. by simplify_eq.
    + exists kb. simpl. rewrite lookup_insert_ne by done. split; [done|]. by repeat split.
Qed.

Section facts.
Context `{Bcrypt}.
Variable visit : gmap string nat -> list (string * nat).
Hypothesis visit_perm : forall m, visit m ≡ₚ map_to_list m.

Lemma RevokeAPIKey_ok am id : auth_ok am -> auth_ok (RevokeAPIKey am id).1 /\ preserves am (RevokeAPIKey am id).1.
Proof.
  intros Hok. unfold RevokeAPIKey. destruct (am_keys am !! id); [|by split; [|apply preserves_refl]].
  destruct Hok as [H1 H2]. split; [split; simpl; [|done]|intros a k Hk; by exists k].
  intros i a [_ Ha]%lookup_delete_Some. eauto.
Qed.

Lemma confirm_key_ok am now a : auth_ok am -> auth_ok (confirm_key am now a).1 /\ preserves am (confirm_key am now a).1.
Proof.
  intros Hok. unfold confirm_key. destruct (am_heap am !! a) as [k|] eqn:E; [|by split; [|apply preserves_refl]].
  repeat case_match; simpl; try (by split; [|apply preserves_refl]).
  eapply set_record_ok; [done|done|]. by repeat split.
Qed.

Lemma astep_ok am am' : astep am am' -> auth_ok am -> auth_ok am' /\ preserves am am'.
Proof.
  intros Hs Hok. destruct Hs.
  - unfold AddAPIKey. case_match; simpl; [by apply put_key_ok|by split; [|apply preserves_refl]].
  - by apply put_key_ok.
  - by apply RevokeAPIKey_ok.
  - unfold SetKeyExpiry. repeat case_match; simpl; try (by split; [|apply preserves_refl]).
    eapply set_record_ok; [done|done|]. by repeat split.
  - by apply confirm_key_ok.
Qed.

Lemma asteps_ok am am' : rtc astep am am' -> auth_ok am -> auth_ok am' /\ preserves am am'.
Proof.
  induction 1 as [am|am1 am2 am3 Hs _ IH]; intros Hok; [by split; [|apply preserves_refl]|].
  destruct (astep_ok _ _ Hs Hok) as [H1 P1]. destruct (IH H1) as [H2 P2]. split; [done|]. by eapply preserves_trans.
Qed.

Lemma scan_keys_Some am now key a e : scan_keys visit am now key = Some (a, e) ->
  exists id, am_keys am !! id = Some a /\
    match am_heap am !! a with Some k => CompareHashAndPassword (K_HashedKey k) key = true /\ e = is_expired k now | None => False end.
Proof.
  unfold scan_keys. destruct (List.find _ _) as [[id b]|] eqn:E; [|done]. intros [= -> <-].
  apply List.find_some in E as [Hin Hc]. simpl in Hc.
  exists id. split.
  - apply elem_of_map_to_list. rewrite <- visit_perm. by apply list_elem_of_In.
  - destruct (am_heap am !! a); [done|discriminate].
Qed.

Lemma scan_keys_None am now key : scan_keys visit am now key = None ->
  forall id k, key_at am id = Some k -> CompareHashAndPassword (K_HashedKey k) key = false.
Proof.
  unfold scan_keys. destruct (List.find _ _) as [[id b]|] eqn:E; [done|]. intros _ id k Hk.
  unfold key_at in Hk. destruct (am_keys am !! id) as [a|] eqn:Ea; simpl in Hk; [|discriminate].
  assert (In (id, a) (visit (am_keys am))) as Hin.
  { apply list_elem_of_In. rewrite visit_perm. by apply elem_of_map_to_list. }
  pose proof (List.find_none _ _ E _ Hin) as Hn. simpl in Hn. by rewrite Hk in Hn.
Qed.

(** What the second region answers for an address some scan found. *)
Lemma confirm_key_spec am now a k : auth_ok am -> am_heap am !! a = Some k ->
  match confirm_key am now a with
  | (_, Ok r) => am_keys am !! K_ID k = Some a /\ is_expired k now = false /\ r = with_last_used k now
  | (_, Err _) => am_keys am !! K_ID k <> Some a \/ is_expired k now = true
  end.
Proof.
  intros Hok Hk. unfold confirm_key. rewrite Hk. destruct (am_keys am !! K_ID k) as [c|]; [|by left].
  case_bool_decide as Hc; simpl; [|left; congruence]. subst. destruct (is_expired k now); [by right|done].
Qed.

(** The two regions on one state: the sequential behavior of a validation. *)
Lemma Authenticate_spec am t1 t2 key : auth_ok am ->
  match (Authenticate visit am t1 t2 key).2 with
  | Some (perms, id) => key <> "" /\ exists k, key_at am id = Some k /\ CompareHashAndPassword (K_HashedKey k) key = true /\
      is_expired k t1 = false /\ is_expired k t2 = false /\ perms = K_Permissions k
  | None => key = "" \/ (forall id k, key_at am id = Some k -> CompareHashAndPassword (K_HashedKey k) key = false) \/
      exists id k, key_at am id = Some k /\ CompareHashAndPassword (K_HashedKey k) key = true /\
        (is_expired k t1 = true \/ is_expired k t2 = true)
  end.
Proof.
  intros Hok. unfold Authenticate, ValidateAPIKey. destruct (streq key "") eqn:Ee; [left; by apply streq_true|].
  apply streq_false in Ee. destruct (scan_keys visit am t1 key) as [[a e]|] eqn:Es; [|right; left; by eapply scan_keys_None].
  destruct (scan_keys_Some _ _ _ _ _ Es) as (id & Hid & Hm). destruct (ids_agree _ Hok id a Hid) as (k & Hk & Hkid).
  rewrite Hk in Hm. destruct Hm as [Hc He]. pose proof (key_at_Some _ _ _ _ Hid Hk) as Hat.
  destruct e; [right; right; exists id, k; auto|]. pose proof (confirm_key_spec am t2 a k Hok Hk) as Hcs.
  destruct (confirm_key am t2 a) as [am' [r|err]]; simpl.
  - destruct Hcs as (_ & Hx & ->). split; [done|]. exists k. simpl. rewrite Hkid. by repeat split.
  - right; right. exists id, k. destruct Hcs as [Hcs|Hcs]; [|auto]. rewrite Hkid in Hcs. by destruct Hcs.
Qed.

(** C13: a request is authorized only by a key that is live at that moment.  The
    validation finds a record under the read lock, and anything may happen
    before it takes the write lock: keys are added, replaced, revoked, given an
    expiry, used by other requests.  If it then succeeds, the id it reports
    names, in the state it succeeds in, a record whose hash the presented key
    matches, that has not expired, and whose permissions are the ones returned;
    if it fails, the record it had found is no longer the one its id names, or
    has expired. *)
Theorem authenticated_key_is_live am am' t1 t2 key a k0 : auth_ok am ->
  scan_keys visit am t1 key = Some (a, false) -> am_heap am !! a = Some k0 -> rtc astep am am' ->
  match confirm_key am' t2 a with
  | (_, Ok k) => K_ID k = K_ID k0 /\ exists cur, key_at am' (K_ID k) = Some cur /\
      CompareHashAndPassword (K_HashedKey cur) key = true /\ is_expired cur t2 = false /\ K_Permissions k = K_Permissions cur
  | (_, Err _) => am_keys am' !! K_ID k0 <> Some a \/ exists cur, key_at am' (K_ID k0) = Some cur /\ is_expired cur t2 = true
  end.
Proof.
  intros Hok Hs H0 Hr. destruct (scan_keys_Some _ _ _ _ _ Hs) as (id & Hid & Hm). rewrite H0 in Hm. destruct Hm as [Hc _].
  destruct (asteps_ok _ _ Hr Hok) as [Hok' Hp]. destruct (Hp a k0 H0) as (cur & Hcur & Hi & Hh & Hperm).
  pose proof (confirm_key_spec am' t2 a cur Hok' Hcur) as Hcs.
  destruct (confirm_key am' t2 a) as [am'' [k|err]].
  - destruct Hcs as (Ha & Hx & ->). simpl. split; [done|]. exists cur. split; [by eapply key_at_Some|].
    rewrite Hh. by repeat split.
  - rewrite <- Hi. destruct Hcs as [Hcs|Hcs]; [by left|].
    destruct (decide (am_keys am' !! K_ID cur = Some a)) as [Ha|Ha]; [|by left]. right. exists cur.
    split; [by eapply key_at_Some|done].
Qed.

(** A key added works until it expires or is revoked, provided the key given
    out does not happen to match the hash of another. *)
Lemma added_key_authenticates `{!BcryptLaws} am am' salt now id name key perms exp t1 t2 : auth_ok am -> key <> "" ->
  AddAPIKey am salt now id name key perms exp = (am', None) ->
  (forall id' k', id' <> id -> key_at am id' = Some k' -> CompareHashAndPassword (K_HashedKey k') key = false) ->
  (forall t, exp = Some t -> t1 <= t /\ t2 <= t) ->
  (Authenticate visit am' t1 t2 key).2 = Some (perms, id) /\ (Authenticate visit (RevokeAPIKey am' id).1 t1 t2 key).2 = None.
Proof.
  intros Hok Hne Ha Hother Hexp. unfold AddAPIKey, HashAPIKey in Ha.
  destruct (GenerateFromPassword salt key) as [h|] eqn:Eh; [|discriminate]. injection Ha as <-.
  set (k := {| K_ID := id; K_Name := name; K_HashedKey := h; K_CreatedAt := now; K_LastUsedAt := None;
               K_ExpiresAt := exp; K_Permissions := perms |}).
  destruct (put_key_ok am id k Hok eq_refl) as [Hok' _].
  assert (key_at (put_key am id k) id = Some k) as Hnew.
  { unfold key_at, put_key. simpl. by rewrite lookup_insert_eq; simpl; rewrite lookup_insert_eq. }
  assert (forall id' k', id' <> id -> key_at (put_key am id k) id' = Some k' -> key_at am id' = Some k') as Hold.
  { intros id' k' Hd. unfold key_at, put_key. simpl. rewrite lookup_insert_ne by done.
    destruct (am_keys am !! id') as [a'|] eqn:Ea; [simpl|done].
    destruct (ids_agree _ Hok _ _ Ea) as (k2 & Hk2 & _). pose proof (heap_bound _ Hok _ _ Hk2).
    by rewrite lookup_insert_ne by lia. }
  assert (is_expired k t1 = false /\ is_expired k t2 = false) as [Hx1 Hx2].
  { unfold is_expired. simpl. destruct exp as [t|]; [|done]. destruct (Hexp t eq_refl). split; by apply Z.ltb_ge. }
  pose proof (generated_matches _ _ _ Eh) as Hm. split.
  - pose proof (Authenticate_spec _ t1 t2 key Hok') as Hs.
    destruct (Authenticate visit (put_key am id k) t1 t2 key).2 as [[p i]|].
    + destruct Hs as (_ & k' & Hk' & Hc & _ & _ & ->). destruct (decide (i = id)) as [->|Hd]; [by simplify_eq|].
      rewrite (Hother i k' Hd) in Hc; [done|by apply Hold].
    + destruct Hs as [?|[Hs|(i & k' & Hk' & Hc & Hx)]]; [done|specialize (Hs id k Hnew); simpl in Hs; congruence|].
      destruct (decide (i = id)) as [->|Hd]; [simplify_eq; destruct Hx; congruence|].
      rewrite (Hother i k' Hd) in Hc; [done|by apply Hold].
  - destruct (RevokeAPIKey_ok (put_key am id k) id Hok') as [Hokr _].
    pose proof (Authenticate_spec _ t1 t2 key Hokr) as Hs.
    destruct (Authenticate visit (RevokeAPIKey (put_key am id k) id).1 t1 t2 key).2 as [[p i]|]; [|done].
    destruct Hs as (_ & k' & Hk' & Hc & _). exfalso. revert Hk'. unfold RevokeAPIKey. simpl.
    rewrite lookup_insert_eq. simpl. unfold key_at. simpl. destruct (decide (i = id)) as [->|Hd]; [by rewrite lookup_delete_eq|].
    rewrite lookup_delete_ne, lookup_insert_ne by done. intros Hk'.
    rewrite (Hother i k' Hd) in Hc; [done|]. apply Hold; [done|]. unfold key_at, put_key. simpl. by rewrite lookup_insert_ne.
Qed.
End facts.

(** ** The development provider *)

Record simple_ok (sap : SimpleAuthProvider) : Prop := {
  next_nonneg : 0 <= sap_next sap;
  no_blank : validKeys sap !! "" = None;
  numbered : forall key id, validKeys sap !! key = Some id -> exists n, 1 <= n <= sap_next sap /\ id = config_key_id n;
  own_ids : forall k1 k2 id, validKeys sap !! k1 = Some id -> validKeys sap !! k2 = Some id -> k1 = k2
}.

Lemma config_key_id_inj n m : config_key_id n = config_key_id m -> n = m.
Proof. unfold config_key_id. intros He. apply Itoa_inj. by simplify_eq. Qed.

Lemma AddKey_ok sap key : simple_ok sap -> simple_ok (AddKey sap key).
Proof.
  intros [H1 H2 H3 H4]. unfold AddKey. destruct (streq key "") eqn:E; [done|]. apply streq_false in E.
  destruct (validKeys sap !! key) eqn:El; [done|].
  assert (forall k, validKeys sap !! k <> Some (config_key_id (sap_next sap + 1))) as Hf.
  { intros k Hk. destruct (H3 k _ Hk) as (n & Hn & He). apply config_key_id_inj in He. lia. }
  split; simpl.
  - lia.
  - by rewrite lookup_insert_ne.
  - intros k id [[<- <-]|[Hne Hk]]%lookup_insert_Some; [exists (sap_next sap + 1); split; [lia|done]|].
    destruct (H3 k id Hk) as (n & Hn & ->). exists n. split; [lia|done].
  - intros k1 k2 id [[<- <-]|[Hn1 Hk1]]%lookup_insert_Some [[<- He]|[Hn2 Hk2]]%lookup_insert_Some; [done| | |eauto].
    + by destruct (Hf k2).
    + rewrite <- He in Hk1. by destruct (Hf k1).
Qed.

Lemma RemoveKey_ok sap key : simple_ok sap -> simple_ok (RemoveKey sap key).
Proof.
  intros [H1 H2 H3 H4]. split; simpl; [done| | |].
  - apply lookup_delete_None. by right.
  - intros k id [_ Hk]%lookup_delete_Some. eauto.
  - intros k1 k2 id [_ Hk1]%lookup_delete_Some [_ Hk2]%lookup_delete_Some. eauto.
Qed.

Lemma NewSimpleAuthProvider_ok keys : simple_ok (NewSimpleAuthProvider keys).
Proof.
  unfold NewSimpleAuthProvider.
  assert (simple_ok {| validKeys := ∅; sap_next := 0 |}) as Hok by (split; simpl; [lia|done|done|done]).
  revert Hok. generalize {| validKeys := (∅ : gmap string string); sap_next := 0 |}.
  induction keys as [|k keys IH]; intros s Hs; simpl; [done|]. by apply IH, AddKey_ok.
Qed.

(** The two questions agree, and an id names one key. *)
Lemma simple_provider_agrees sap key : simple_ok sap ->
  (simple_ValidateKey sap key = true <-> is_Some (simple_Authenticate sap key)) /\
  (forall key' p p' id, simple_Authenticate sap key = Some (p, id) -> simple_Authenticate sap key' = Some (p', id) -> key = key').
Proof.
  intros Hok. unfold simple_ValidateKey, simple_Authenticate. split.
  - destruct (streq key "") eqn:E.
    + apply streq_true in E as ->. rewrite (no_blank _ Hok). split; [done|intros [? ?]; done].
    + rewrite existsb_exists_iff. split.
      * intros ([k id] & Hin & ->%streq_true). simpl. apply elem_of_map_to_list in Hin. simpl in Hin. rewrite Hin. eauto.
      * destruct (validKeys sap !! key) as [id|] eqn:El; [|intros [? ?]; done]. intros _.
        exists (key, id). split; [by apply elem_of_map_to_list|]. simpl. by apply streq_true.
  - intros key' p p' id. destruct (validKeys sap !! key) eqn:E1; [|done]. destruct (validKeys sap !! key') eqn:E2; [|done].
    intros [= _ <-] [= _ ->]. by eapply own_ids.
Qed.
