(* ===== verification/Middleware.v ===== *)
(** * The middleware of the API (internal/api/middleware.go)

    Every middleware is a function from handlers to handlers.  A handler takes
    the server, the readings of the clock a request makes, and the request, and
    gives the server and the operations it performed on its writer.  The rate
    limiter is golang.org/x/time/rate, a parameter: [RateLimiter] with the laws of
    a token bucket.  The security log and the metrics are the list of what was
    recorded, newest last. *)

From stdpp Require Import base list gmap strings.
From Stdlib Require Import Ascii ZArith QArith Lia.
From S2P Require Import Prelude GoStrings GoText GoNet GoTime GoHttp Auth.

Local Open Scope Z_scope.

(** ** Configuration and state *)

Record ServerConfig := {
  EnableAuth : bool; APIKeys : list string; AllowNoAuth : bool; MetricsPublic : bool; AllowedOrigins : list string;
  EnableRateLimit : bool; RequestsPerSecond : Z; BurstSize : Z; TLSCert : string; TLSKey : string;
  AllowInsecureTLS : bool; WriteTimeout : Z; ReadTimeout : Z; IdleTimeout : Z; TrustedProxies : list string;
  LogLevel : string; LogFormat : string; DataDir : string; AuditLogFile : string
}.

(** [rate.Limiter]: a bucket of [burst] tokens, refilled at [limit] per second. *)
Class RateLimiter (L : Type) := {
  NewLimiter : Q -> Z -> Z -> L;                (* limit, burst, now *)
  Allow : L -> Z -> L * bool;
  Tokens : L -> Z -> Q
}.

Inductive AuthProvider := NoProvider | Managed (am : AuthManager) | Simple (sap : SimpleAuthProvider).

(** What the security metrics and the audit log are told. *)
Inductive sec_event :=
  | AuthAttempt (ok : bool) (ip : string) | APIKeyUsage (id : string) | RateLimitViolation (ip : string)
  | RequestSeen (blocked : bool)
  | LogAuthFailure (ip reason : string) | LogAuthSuccess (ip id : string) | LogRateLimitExceeded (ip path : string)
  | LogSuspiciousActivity (ip what : string) | LogEvent (type id : string).

(** The readings of the clock: the general limiter, the two of the peek, the two
    regions of a key validation, the token spent on a failure. *)
Record instants := { i_rate : Z; i_peek : Z; i_retry : Z; i_scan : Z; i_confirm : Z; i_spend : Z }.

(** Bodies of JSON errors. *)
Definition writeJSON (statusCode : Z) (data : payload) : list wop :=
  [SetHeader "Content-Type" "application/json"; WriteHeader statusCode; Write data].
Definition writeError (statusCode : Z) (message : string) : list wop := writeJSON statusCode (JSONMap [("error", message)]).
Definition writeMethodNotAllowed (methods : list string) : list wop :=
  SetHeader "Allow" (JoinStrings methods ", ") :: writeError StatusMethodNotAllowed "Method not allowed".

(** ** Permissions *)

Definition hasPerm (perms : list string) (required : string) : bool := existsb (grants required) perms.

Definition permissionsFromContext (r : Request) : option (list string) := R_Permissions r.
Definition apiKeyIDFromContext (r : Request) : string := default "" (R_APIKeyID r).
Definition auditIdentity (r : Request) : string := apiKeyIDFromContext r.

Definition request_HasPermission (r : Request) (permission : string) : bool :=
  match R_Permissions r with None => false | Some perms => hasPerm perms permission end.

Definition is_read_method (method : string) : bool :=
  streq method MethodGet || streq method MethodHead || streq method MethodOptions.

Definition requiredPermission (method path : string) : string :=
  let segs := Split (Trim path "/") "/" in
  let seg n := default "" (segs !! n) in
  let isAPI := (3 <=? Z.of_nat (length segs)) && streq (seg 0%nat) "api" && streq (seg 1%nat) "v1" in
  if isAPI && streq (seg 2%nat) "auth" then "admin"
  else if isAPI && streq (seg 2%nat) "instances" && (5 <=? Z.of_nat (length segs)) && (streq (seg 4%nat) "exec" || streq (seg 4%nat) "console")
  then "exec"
  else if isAPI && streq (seg 2%nat) "console" then "exec"
  else if is_read_method method then "read" else "write".

(** ** The client's address *)

Definition proxy_net (trusted : string) : option IPNet :=
  if Contains trusted "/" then ParseCIDR_net trusted
  else match ParseIP trusted with
       | None => None
       | Some ip => Some {| N_IP := ip; N_Mask := if is_v4 ip then CIDRMask 32 4 else CIDRMask 128 16 |}
       end.

Definition isTrustedProxy (config : ServerConfig) (addr : string) : bool :=
  match ParseIP addr with
  | None => false
  | Some ip => existsb (fun t => match proxy_net t with Some n => Contains_ip n ip | None => false end) (TrustedProxies config)
  end.

(** The hops from the right, past our own proxies; a malformed one ends it. *)
Fixpoint closest_hop (config : ServerConfig) (hops : list string) : option string :=
  match hops with
  | [] => None
  | h :: rest =>
      let hop := TrimSpace h in
      match ParseIP hop with
      | None => None
      | Some _ => if isTrustedProxy config hop then closest_hop config rest else Some hop
      end
  end.

Definition remote_ip (r : Request) : string := default (R_RemoteAddr r) (SplitHostPort (R_RemoteAddr r)).

Definition extractClientIP (config : ServerConfig) (r : Request) : string :=
  let remoteIP := remote_ip r in
  match TrustedProxies config with
  | [] => remoteIP
  | _ =>
      if isTrustedProxy config remoteIP then
        let forwarded := Header_Get r "X-Forwarded-For" in
        match (if streq forwarded "" then None else closest_hop config (rev (Split forwarded ","))) with
        | Some hop => hop
        | None =>
            let realIP := Header_Get r "X-Real-Ip" in
            if negb (streq realIP "") && match ParseIP realIP with Some _ => true | None => false end then realIP else remoteIP
        end
      else remoteIP
  end.

(** ** Origins, handshakes, the hash of the verification lock *)

Definition originAllowed (config : ServerConfig) (origin : string) : bool * string :=
  match List.find (fun a => streq a "*" || streq a origin) (AllowedOrigins config) with
  | Some a => (true, if streq a "*" then "*" else origin)
  | None => (false, "")
  end.

Definition isWebSocketHandshake (r : Request) : bool :=
  streq (R_Method r) MethodGet && EqualFold (Header_Get r "Upgrade") "websocket" &&
  existsb (fun token => EqualFold (TrimSpace token) "upgrade") (Split (Header_Get r "Connection") ",").

(** FNV-1a over 32 bits; [authVerifyLock] is the index of the mutex. *)
Definition fnv1a (s : string) : Z :=
  foldl (fun h c => (Z.lxor h (code c) * 16777619) mod 2 ^ 32) 2166136261 (bytes s).
Definition authVerifyLock (ip : string) : Z := fnv1a ip mod 64.

(** ** Response writers *)

(** [loggingResponseWriter]: the status recorded, and what goes to the writer
    underneath. *)
Definition lw_op (st : Z * list wop) (o : wop) : Z * list wop :=
  let '(statusCode, out) := st in
  let announce := if statusCode =? 0 then (StatusOK, out ++ [WriteHeader StatusOK]) else (statusCode, out) in
  match o with
  | WriteHeader c => if statusCode =? 0 then (c, out ++ [WriteHeader c]) else (statusCode, out)
  | Write p => (announce.1, announce.2 ++ [Write p])
  | Flush => (announce.1, announce.2 ++ [Flush])
  | _ => (statusCode, out ++ [o])
  end.
Definition lw_run (ops : list wop) : Z * list wop := foldl lw_op (0, []) ops.

(** [committedWriter]: whether anything has reached the client. *)
Definition commits (o : wop) : bool :=
  match o with WriteHeader _ | Write _ | Flush | Hijack => true | _ => false end.
Definition committed (ops : list wop) : bool := existsb commits ops.

Section server.
Context {A L : Type} `{RateLimiter L} `{Bcrypt}.
(** The order in which Go visits the map of keys. *)
Variable visit : gmap string nat -> list (string * nat).

Record Server := {
  s_config : ServerConfig; s_auth : AuthProvider;
  rateLimiters : gmap string L; authRateLimiters : gmap string L;
  s_log : list sec_event; s_app : A
}.

Definition set_auth (s : Server) (p : AuthProvider) : Server :=
  {| s_config := s_config s; s_auth := p; rateLimiters := rateLimiters s; authRateLimiters := authRateLimiters s;
     s_log := s_log s; s_app := s_app s |}.
Definition set_rate (s : Server) (m : gmap string L) : Server :=
  {| s_config := s_config s; s_auth := s_auth s; rateLimiters := m; authRateLimiters := authRateLimiters s;
     s_log := s_log s; s_app := s_app s |}.
Definition set_auth_rate (s : Server) (m : gmap string L) : Server :=
  {| s_config := s_config s; s_auth := s_auth s; rateLimiters := rateLimiters s; authRateLimiters := m;
     s_log := s_log s; s_app := s_app s |}.
Definition log (s : Server) (e : list sec_event) : Server :=
  {| s_config := s_config s; s_auth := s_auth s; rateLimiters := rateLimiters s; authRateLimiters := authRateLimiters s;
     s_log := s_log s ++ e; s_app := s_app s |}.

Definition handler := Server -> instants -> Request -> Server * (list wop * outcome).

(** ** Authentication attempts *)

Definition authRateLimiterBurst : Z := 3.
Definition authRate : Q := 5 # 60.

Definition getOrCreateAuthRateLimiter (s : Server) (now : Z) (ip : string) : Server * L :=
  match authRateLimiters s !! ip with
  | Some l => (s, l)
  | None => let l := NewLimiter authRate authRateLimiterBurst now in (set_auth_rate s (<[ip := l]> (authRateLimiters s)), l)
  end.

(** [s.getOrCreateAuthRateLimiter(ip).Allow()]. *)
Definition spend_attempt (s : Server) (now : Z) (ip : string) : Server * bool :=
  let '(s, l) := getOrCreateAuthRateLimiter s now ip in
  let '(l, ok) := Allow l now in
  (set_auth_rate s (<[ip := l]> (authRateLimiters s)), ok).

Definition Qlt_b (a b : Q) : bool := negb (Qle_bool b a).

Definition authRateLimitExhausted (s : Server) (now : Z) (ip : string) : Server * bool :=
  let '(s, l) := getOrCreateAuthRateLimiter s now ip in (s, Qlt_b (Tokens l now) 1).

(** [s.authProvider.Authenticate(apiKey)]; [None] is the panic of a call on the
    nil interface. *)
Definition provider_Authenticate (s : Server) (tm : instants) (key : string) : Server * option (option (list string * string)) :=
  match s_auth s with
  | NoProvider => (s, None)
  | Managed am => let '(am, r) := Authenticate visit am (i_scan tm) (i_confirm tm) key in (set_auth s (Managed am), Some r)
  | Simple sap => (s, Some (simple_Authenticate sap key))
  end.

(** Whether the attempt may go on to the verification: the peek, and a token
    where the peek found none. *)
Definition may_attempt (s : Server) (tm : instants) (ip : string) : Server * bool :=
  let '(s, exhausted) := authRateLimitExhausted s (i_peek tm) ip in
  if exhausted then spend_attempt s (i_retry tm) ip else (s, true).

(** The closure [verify], which runs under the lock of the address: who the key
    is, and whether the attempt was over the limit; [None] is a panic. *)
Definition verify (s : Server) (tm : instants) (ip key : string) : Server * option (option (list string * string) * bool) :=
  let '(s, admitted) := may_attempt s tm ip in
  if negb admitted then (s, Some (None, true))
  else
    let '(s, who) := provider_Authenticate s tm key in
    match who with
    | None => (s, None)
    | Some (Some id) => (s, Some (Some id, false))
    | Some None => let '(s, ok) := spend_attempt s (i_spend tm) ip in (s, Some (None, negb ok))
    end.

Definition tooManyAttempts : list wop :=
  SetHeader "Retry-After" "60" :: writeError StatusTooManyRequests "Authentication rate limit exceeded".

(** What [authMiddleware] does before it calls the next handler: the request to
    pass on, or the answer. *)
Definition authorize (s : Server) (tm : instants) (r : Request) : Server * (Request + list wop * outcome) :=
  if streq (R_Path r) "/health" then (s, inl r)
  else if MetricsPublic (s_config s) && (streq (R_Path r) "/metrics" || streq (R_Path r) "/metrics/prometheus") then (s, inl r)
  else
    let clientIP := extractClientIP (s_config s) r in
    let apiKey := Header_Get r "X-Api-Key" in
    if streq apiKey "" then
      let '(s, ok) := spend_attempt s (i_spend tm) clientIP in
      if negb ok
      then (log s [RateLimitViolation clientIP; LogRateLimitExceeded clientIP (R_Path r)], inr (tooManyAttempts, Returned))
      else (log s [AuthAttempt false clientIP; LogAuthFailure clientIP "missing API key"],
            inr (writeError StatusUnauthorized "Missing API key", Returned))
    else
      match verify s tm clientIP apiKey with
      | (s, None) => (s, inr ([], Panicked))
      | (s, Some (_, true)) =>
          (log s [RateLimitViolation clientIP; LogRateLimitExceeded clientIP (R_Path r)], inr (tooManyAttempts, Returned))
      | (s, Some (None, false)) => (log s [AuthAttempt false clientIP; LogAuthFailure clientIP "invalid API key"],
                                    inr (writeError StatusUnauthorized "Invalid API key", Returned))
      | (s, Some (Some (permissions, apiKeyID), false)) =>
          let s := log s [AuthAttempt true clientIP; APIKeyUsage apiKeyID; LogAuthSuccess clientIP apiKeyID] in
          let required := requiredPermission (R_Method r) (R_Path r) in
          if negb (hasPerm permissions required)
          then (log s [LogAuthFailure clientIP ("insufficient permission: " +:+ required)],
                inr (writeError StatusForbidden "Insufficient permissions", Returned))
          else (s, inl (with_identity r permissions apiKeyID))
      end.

Definition authMiddleware (next : handler) : handler := fun s tm r =>
  match authorize s tm r with
  | (s, inl r) => next s tm r
  | (s, inr answer) => (s, answer)
  end.

(** ** The other middleware *)

(** What is logged of a response with this status. *)
Definition status_events (clientIP path : string) (statusCode : Z) : list sec_event :=
  (if statusCode =? StatusUnauthorized then [LogAuthFailure clientIP "unauthorized access attempt"] else []) ++
  (if statusCode =? StatusTooManyRequests then [LogRateLimitExceeded clientIP path] else []) ++
  (if statusCode =? StatusForbidden then [LogSuspiciousActivity clientIP "forbidden access attempt"] else []).

Definition loggingMiddleware (next : handler) : handler := fun s tm r =>
  let clientIP := extractClientIP (s_config s) r in
  let '(s, (ops, out)) := next s tm r in
  let '(statusCode, ops) := lw_run ops in
  match out with
  | Panicked => (s, (ops, Panicked))
  | Returned =>
      let statusCode := if statusCode =? 0 then StatusOK else statusCode in
      (log s (status_events clientIP (R_Path r) statusCode), (ops, Returned))
  end.

Definition maxBodyBytes : Z := Z.shiftl 32 20.

Definition bodySizeLimitMiddleware (next : handler) : handler := fun s tm r =>
  if isWebSocketHandshake r then next s tm r else next s tm (with_body_limit r maxBodyBytes).

Definition get_limiter (s : Server) (now : Z) (ip : string) : Server * L :=
  match rateLimiters s !! ip with
  | Some l => (s, l)
  | None => let l := NewLimiter (inject_Z (RequestsPerSecond (s_config s))) (BurstSize (s_config s)) now in
            (set_rate s (<[ip := l]> (rateLimiters s)), l)
  end.

Definition rateLimitMiddleware (next : handler) : handler := fun s tm r =>
  let ip := extractClientIP (s_config s) r in
  let '(s, l) := get_limiter s (i_rate tm) ip in
  let '(l, ok) := Allow l (i_rate tm) in
  let s := set_rate s (<[ip := l]> (rateLimiters s)) in
  if negb ok then
    (log s [RateLimitViolation ip; RequestSeen true; LogRateLimitExceeded ip (R_Path r)],
     (SetHeader "Retry-After" "1" :: writeError StatusTooManyRequests "Rate limit exceeded", Returned))
  else next (log s [RequestSeen false]) tm r.

Definition security_headers (config : ServerConfig) : list wop :=
  (if negb (streq (TLSCert config) "") && negb (streq (TLSKey config) "")
   then [SetHeader "Strict-Transport-Security" "max-age=31536000; includeSubDomains; preload"] else []) ++
  [SetHeader "X-Content-Type-Options" "nosniff"; SetHeader "X-Frame-Options" "DENY";
   SetHeader "Content-Security-Policy" "default-src 'none'; frame-ancestors 'none'"; SetHeader "Referrer-Policy" "no-referrer";
   DelHeader "Server"; SetHeader "Cache-Control" "no-store, no-cache, must-revalidate, private"; SetHeader "Pragma" "no-cache"].

(** Operations before those of the next handler. *)
Definition prepend (pre : list wop) (res : Server * (list wop * outcome)) : Server * (list wop * outcome) :=
  let '(s, (ops, out)) := res in (s, (pre ++ ops, out)).

Definition securityHeadersMiddleware (next : handler) : handler := fun s tm r =>
  prepend (security_headers (s_config s)) (next s tm r).

Definition cors_headers (config : ServerConfig) (origin : string) : list wop :=
  let '(allowed, header) := originAllowed config origin in
  (match AllowedOrigins config with [] => [] | _ => [AddHeader "Vary" "Origin"] end) ++
  (if allowed then [SetHeader "Access-Control-Allow-Origin" header;
                    SetHeader "Access-Control-Allow-Methods" "GET, HEAD, POST, PUT, PATCH, DELETE, OPTIONS";
                    SetHeader "Access-Control-Allow-Headers" "Content-Type, Authorization, X-API-Key"] else []).

Definition is_preflight (r : Request) : bool :=
  streq (R_Method r) MethodOptions && negb (streq (Header_Get r "Origin") "") &&
  negb (streq (Header_Get r "Access-Control-Request-Method") "").

Definition corsMiddleware (next : handler) : handler := fun s tm r =>
  let origin := Header_Get r "Origin" in
  let pre := cors_headers (s_config s) origin in
  if is_preflight r
  then (s, (pre ++ [WriteHeader (if (originAllowed (s_config s) origin).1 then StatusOK else StatusForbidden)], Returned))
  else prepend pre (next s tm r).

(** [recover]: a response that has begun is cut, one that has not is a 500. *)
Definition recoveryMiddleware (next : handler) : handler := fun s tm r =>
  let '(s, (ops, out)) := next s tm r in
  match out with
  | Returned => (s, (ops, Returned))
  | Panicked => if committed ops then (s, (ops, Panicked))
                else (s, (ops ++ writeError StatusInternalServerError "Internal server error", Returned))
  end.

Definition withMiddleware (h : handler) : handler := fun s =>
  let h := if EnableAuth (s_config s) then authMiddleware h else h in
  let h := bodySizeLimitMiddleware (loggingMiddleware h) in
  let h := if EnableRateLimit (s_config s) then rateLimitMiddleware h else h in
  recoveryMiddleware (corsMiddleware (securityHeadersMiddleware h)) s.

(** One sweep of [cleanupRateLimiters]. *)
Definition cleanupRateLimiters (s : Server) (now : Z) : Server :=
  let s := set_rate s (filter (fun p => Qlt_b (Tokens p.2 now) (inject_Z (BurstSize (s_config s))) = true) (rateLimiters s)) in
  set_auth_rate s (filter (fun p => Qlt_b (Tokens p.2 now) (inject_Z authRateLimiterBurst) = true) (authRateLimiters s)).
End server.
Arguments Server A L : clear implicits.
