(* ===== verification/MiddlewareFacts.v ===== *)
(** * Facts about the middleware

    Which requests reach a handler and with which identity, whose address a
    client is known by, how many keys it may try, and what its responses look
    like. *)

From stdpp Require Import base list gmap strings sets.
From Stdlib Require Import Ascii ZArith QArith Lqa Lia.
From S2P Require Import Prelude GoStrings GoText GoNet GoTime GoHttp Auth AuthFacts Middleware.

Local Open Scope Z_scope.

Section authorization.
Context {A L : Type} `{RateLimiter L} `{Bcrypt}.
Variable visit : gmap string nat -> list (string * nat).
Hypothesis visit_perm : forall m, visit m ≡ₚ map_to_list m.
Implicit Types (s : Server A L) (h : handler (A := A) (L := L)).

(** ** How a middleware uses the handler it wraps

    [T] answers this request from the answer of its handler to [p], or without
    it. *)
Definition calls (T : handler (A := A) (L := L) -> handler) s (tm : instants) (r : Request) (p : option (Server A L * Request)) : Prop :=
  exists f, forall h, T h s tm r = f (match p with Some (s1, r1) => Some (h s1 tm r1) | None => None end).

Lemma calls_id s tm r : calls (fun h => h) s tm r (Some (s, r)).
Proof. exists (default (s, ([], Returned))). done. Qed.

Lemma calls_compose T1 T2 s tm r s1 r1 p :
  calls T1 s tm r (Some (s1, r1)) -> calls T2 s1 tm r1 p -> calls (fun h => T1 (T2 h)) s tm r p.
Proof. intros [f1 H1] [f2 H2]. exists (fun a => f1 (Some (f2 a))). intros h. by rewrite H1, H2. Qed.

Lemma calls_stop T1 T2 s tm r : calls T1 s tm r None -> calls (fun h => T1 (T2 h)) s tm r None.
Proof. intros [f1 H1]. exists f1. intros h. by rewrite H1. Qed.

Lemma calls_recovery s tm r : calls recoveryMiddleware s tm r (Some (s, r)).
Proof.
  exists (fun a => match a with
                   | Some (s, (ops, Returned)) => (s, (ops, Returned))
                   | Some (s, (ops, Panicked)) => if committed ops then (s, (ops, Panicked))
                       else (s, (ops ++ writeError StatusInternalServerError "Internal server error", Returned))
                   | None => (s, ([], Returned))
                   end).
  intros h. unfold recoveryMiddleware. destruct (h s tm r) as [s' [ops []]]; done.
Qed.

Lemma calls_security s tm r : calls securityHeadersMiddleware s tm r (Some (s, r)).
Proof. exists (fun a => match a with Some a => prepend (security_headers (s_config s)) a | None => (s, ([], Returned)) end). done. Qed.

Lemma calls_cors s tm r : calls corsMiddleware s tm r (if is_preflight r then None else Some (s, r)).
Proof.
  unfold calls, corsMiddleware. destruct (is_preflight r); [by exists (fun _ => (s, (cors_headers (s_config s) (Header_Get r "Origin") ++ [WriteHeader (if (originAllowed (s_config s) (Header_Get r "Origin")).1 then StatusOK else StatusForbidden)], Returned)))|].
  by exists (fun a => match a with Some a => prepend (cors_headers (s_config s) (Header_Get r "Origin")) a | None => (s, ([], Returned)) end).
Qed.

Lemma calls_body s tm r :
  calls bodySizeLimitMiddleware s tm r (Some (s, if isWebSocketHandshake r then r else with_body_limit r maxBodyBytes)).
Proof.
  exists (default (s, ([], Returned))). intros h. unfold bodySizeLimitMiddleware. by destruct (isWebSocketHandshake r).
Qed.

Lemma calls_logging s tm r : calls loggingMiddleware s tm r (Some (s, r)).
Proof.
  exists (fun a => match a with
    | None => (s, ([], Returned))
    | Some (s', (ops, out)) =>
        match out with
        | Panicked => (s', ((lw_run ops).2, Panicked))
        | Returned => (log s' (status_events (extractClientIP (s_config s) r) (R_Path r)
                         (if (lw_run ops).1 =? 0 then StatusOK else (lw_run ops).1)), ((lw_run ops).2, Returned))
        end
    end).
  intros h. unfold loggingMiddleware. destruct (h s tm r) as [s' [ops out]]. destruct (lw_run ops) as [c o]. by destruct out.
Qed.

(** The general limiter passes the request on with its own state changed only. *)
Lemma calls_rate s tm r : exists p, calls rateLimitMiddleware s tm r p /\
  match p with Some (s1, r1) => r1 = r /\ s_config s1 = s_config s /\ s_auth s1 = s_auth s | None => True end.
Proof.
  unfold calls, rateLimitMiddleware, get_limiter.
  destruct (rateLimiters s !! extractClientIP (s_config s) r) as [l|];
    [destruct (Allow l (i_rate tm)) as [l' ok]|destruct (Allow _ (i_rate tm)) as [l' ok]];
    (destruct ok; simpl;
     [eexists (Some (_, _)); split; [by exists (default (s, ([], Returned)))|done]
     |exists None; split; [by eexists (fun _ => _)|done]]).
Qed.

Lemma calls_auth s tm r : calls (authMiddleware visit) s tm r
  (match authorize visit s tm r with (s1, inl r1) => Some (s1, r1) | (_, inr _) => None end).
Proof.
  unfold calls, authMiddleware. destruct (authorize visit s tm r) as [s1 [r1|a]].
  - by exists (default (s, ([], Returned))).
  - by exists (fun _ => (s1, a)).
Qed.

(** ** Who may pass *)

Definition public (config : ServerConfig) (r : Request) : Prop :=
  R_Path r = "/health" \/ (MetricsPublic config = true /\ (R_Path r = "/metrics" \/ R_Path r = "/metrics/prometheus")).

(** The provider knows [key] under [id] with these permissions, now. *)
Definition holds (p : AuthProvider) (tm : instants) (key : string) (perms : list string) (id : string) : Prop :=
  match p with
  | NoProvider => False
  | Managed am => exists k, key_at am id = Some k /\ CompareHashAndPassword (K_HashedKey k) key = true /\
      is_expired k (i_scan tm) = false /\ is_expired k (i_confirm tm) = false /\ perms = K_Permissions k
  | Simple sap => validKeys sap !! key = Some id /\ perms = ["*"]
  end.

Definition authorized (config : ServerConfig) (p : AuthProvider) (tm : instants) (r r1 : Request) : Prop :=
  exists perms id, holds p tm (Header_Get r "X-Api-Key") perms id /\ Header_Get r "X-Api-Key" <> "" /\
    hasPerm perms (requiredPermission (R_Method r) (R_Path r)) = true /\
    R_Permissions r1 = Some perms /\ R_APIKeyID r1 = Some id.

Definition provider_ok (p : AuthProvider) : Prop := match p with Managed am => auth_ok am | _ => True end.

Lemma spend_attempt_same s now ip : s_config (spend_attempt s now ip).1 = s_config s /\ s_auth (spend_attempt s now ip).1 = s_auth s.
Proof.
  unfold spend_attempt, getOrCreateAuthRateLimiter.
  destruct (authRateLimiters s !! ip); destruct (Allow _ now); done.
Qed.

Lemma admit_same s tm ip : s_config (may_attempt s tm ip).1 = s_config s /\ s_auth (may_attempt s tm ip).1 = s_auth s.
Proof.
  unfold may_attempt, authRateLimitExhausted, getOrCreateAuthRateLimiter.
  destruct (authRateLimiters s !! ip); destruct (Qlt_b _ _); try done;
    match goal with |- context [spend_attempt ?x ?t ?i] => exact (spend_attempt_same x t i) end.
Qed.

Lemma verify_known s tm ip key perms id s' : provider_ok (s_auth s) -> key <> "" ->
  verify visit s tm ip key = (s', Some (Some (perms, id), false)) -> holds (s_auth s) tm key perms id.
Proof.
  intros Hok Hne. unfold verify. pose proof (admit_same s tm ip) as [_ Ha].
  destruct (may_attempt s tm ip) as [s1 []]; simpl in *; [|intros [= _ ?]; done].
  unfold provider_Authenticate. rewrite Ha. destruct (s_auth s) as [|am|sap]; [done| |].
  - pose proof (Authenticate_spec visit visit_perm am (i_scan tm) (i_confirm tm) key Hok) as Hs.
    destruct (Authenticate visit am (i_scan tm) (i_confirm tm) key) as [am' [[p i]|]]; simpl in *.
    + intros [= _ <- <-]. destruct Hs as (_ & k & Hs). by exists k.
    + destruct (spend_attempt _ _ _). intros [= _ ? ?].
  - unfold simple_Authenticate. destruct (validKeys sap !! key) eqn:E; [by intros [= _ <- <-]|].
    destruct (spend_attempt _ _ _). intros [= _ ? ?].
Qed.

Lemma authorize_spec s tm r : provider_ok (s_auth s) ->
  match authorize visit s tm r with
  | (_, inl r1) => (public (s_config s) r /\ r1 = r) \/ (authorized (s_config s) (s_auth s) tm r r1)
  | (_, inr _) => True
  end.
Proof.
  intros Hok. unfold authorize. destruct (streq (R_Path r) "/health") eqn:E1; [left; split; [by left; apply streq_true|done]|].
  destruct (MetricsPublic _ && _) eqn:E2.
  { left. split; [|done]. right. apply andb_true_iff in E2 as [? E2]. split; [done|].
    apply orb_true_iff in E2 as [?%streq_true|?%streq_true]; auto. }
  destruct (streq (Header_Get r "X-Api-Key") "") eqn:E3; [destruct (spend_attempt _ _ _) as [? []]; done|].
  apply streq_false in E3. destruct (verify _ _ _ _ _) as [s' [[[[perms id]|] []]|]] eqn:Ev; try done.
  destruct (hasPerm perms _) eqn:Ep; simpl; [|done]. right. exists perms, id.
  split; [by eapply verify_known|]. done.
Qed.

(** ** The chain, from the inside out *)

Definition passes (config : ServerConfig) (pr : AuthProvider) (tm : instants) (r : Request) (p : option (Server A L * Request)) : Prop :=
  match p with Some (_, r1) => public config r \/ authorized config pr tm r r1 | None => True end.

Definition inner (h : handler (A := A) (L := L)) : handler := bodySizeLimitMiddleware (loggingMiddleware (authMiddleware visit h)).
Definition limited (config : ServerConfig) (h : handler (A := A) (L := L)) : handler :=
  if EnableRateLimit config then rateLimitMiddleware (inner h) else inner h.

Lemma calls_inner s tm r : provider_ok (s_auth s) ->
  exists p, calls inner s tm r p /\ passes (s_config s) (s_auth s) tm r p.
Proof.
  intros Hok. set (r2 := if isWebSocketHandshake r then r else with_body_limit r maxBodyBytes). eexists. split.
  - eapply (calls_compose bodySizeLimitMiddleware); [apply calls_body|]. fold r2.
    eapply (calls_compose loggingMiddleware); [apply calls_logging|]. apply calls_auth.
  - pose proof (authorize_spec s tm r2 Hok) as Hs. unfold passes. destruct (authorize visit s tm r2) as [s3 [r3|]]; [|done].
    unfold r2 in Hs. destruct (isWebSocketHandshake r); [destruct Hs as [[? ?]|?]; auto|].
    destruct Hs as [[Hpub ->]|Hs]; [by left|right]. destruct Hs as (perms & id & Hs). by exists perms, id.
Qed.

Lemma calls_limited s tm r : provider_ok (s_auth s) ->
  exists p, calls (limited (s_config s)) s tm r p /\ passes (s_config s) (s_auth s) tm r p.
Proof.
  intros Hok. unfold limited. destruct (EnableRateLimit (s_config s)); [|by apply calls_inner].
  destruct (calls_rate s tm r) as ([[s1 r1]|] & Hc & Hr).
  - destruct Hr as (-> & H1 & H2). destruct (calls_inner s1 tm r) as (p & Hp & Hps); [by rewrite H2|].
    exists p. rewrite H1, H2 in Hps. split; [|done]. by eapply (calls_compose rateLimitMiddleware).
  - exists None. split; [|done]. by apply (calls_stop rateLimitMiddleware).
Qed.

Lemma calls_chain s tm r : provider_ok (s_auth s) -> EnableAuth (s_config s) = true ->
  exists p, calls (fun h s' => withMiddleware visit h s') s tm r p /\ passes (s_config s) (s_auth s) tm r p.
Proof.
  intros Hok Hauth.
  assert (exists p, calls (fun h => recoveryMiddleware (corsMiddleware (securityHeadersMiddleware (limited (s_config s) h)))) s tm r p /\
    passes (s_config s) (s_auth s) tm r p) as (p & [f Hf] & Hp).
  { pose proof (calls_cors s tm r) as Hc. destruct (is_preflight r).
    - exists None. split; [|done]. eapply (calls_compose recoveryMiddleware); [apply calls_recovery|].
      by apply (calls_stop corsMiddleware).
    - destruct (calls_limited s tm r Hok) as (p & Hp & Hps). exists p. split; [|done].
      eapply (calls_compose recoveryMiddleware); [apply calls_recovery|]. eapply (calls_compose corsMiddleware); [exact Hc|].
      eapply (calls_compose securityHeadersMiddleware); [apply calls_security|]. exact Hp. }
  exists p. split; [|done]. exists f. intros h. rewrite <- Hf. unfold withMiddleware. by rewrite Hauth.
Qed.

(** C11: no request reaches a handler unauthorized.  With authentication enabled,
    the answer to a request either does not depend on the handler at all, or
    depends on it only through one call, which was made for a public path, or
    with a request carrying the identity of a key that the provider holds at
    that moment, unexpired, and whose permissions include the one the route
    requires. *)
Theorem requests_are_authorized s tm r : provider_ok (s_auth s) -> EnableAuth (s_config s) = true ->
  (forall h h', withMiddleware visit h s tm r = withMiddleware visit h' s tm r) \/
  exists s1 r1, (public (s_config s) r \/ authorized (s_config s) (s_auth s) tm r r1) /\
    forall h h', h s1 tm r1 = h' s1 tm r1 -> withMiddleware visit h s tm r = withMiddleware visit h' s tm r.
Proof.
  intros Hok Hauth. destruct (calls_chain s tm r Hok Hauth) as ([[s1 r1]|] & [f Hf] & Hp); cbn beta in Hf.
  - right. exists s1, r1. split; [done|]. intros h h' He. by rewrite !Hf, He.
  - left. intros h h'. by rewrite !Hf.
Qed.
End authorization.

(** ** The client's address *)

Lemma Split_JoinStrings ws c : ws <> [] -> Forall (fun w => c ∉ bytes w) ws -> Split (JoinStrings ws (String c "")) c = ws.
Proof.
  intros Hne Hall. unfold Split, JoinStrings. rewrite bytes_of_bytes. simpl. rewrite split_l_join_l.
  - rewrite map_map. rewrite <- (map_id ws) at 2. apply map_ext. apply of_bytes_bytes.
  - by destruct ws.
  - by apply Forall_map.
Qed.

Lemma closest_hop_past config proxies hop rest :
  Forall (fun p => isTrustedProxy config (TrimSpace p) = true) proxies -> is_Some (ParseIP (TrimSpace hop)) ->
  isTrustedProxy config (TrimSpace hop) = false -> closest_hop config (proxies ++ hop :: rest) = Some (TrimSpace hop).
Proof.
  intros Hp [ip Hip] Hh. induction Hp as [|p proxies Ht _ IH]; simpl; [by rewrite Hip, Hh|].
  destruct (ParseIP (TrimSpace p)) eqn:E; [by rewrite Ht|]. unfold isTrustedProxy in Ht. by rewrite E in Ht.
Qed.

(** A client cannot choose the address it is known by.  Unless the
    connection comes from a configured proxy, its headers do not matter.  When it
    does, and the proxies in front of us appended the address they saw, the
    address is the last entry of X-Forwarded-For that is not one of them,
    whatever the client wrote to the left of it and in its other headers. *)
Theorem client_address_not_forgeable config r forged hop proxies :
  (isTrustedProxy config (remote_ip r) = false -> extractClientIP config r = remote_ip r) /\
  (isTrustedProxy config (remote_ip r) = true ->
   Header_Get r "X-Forwarded-For" = JoinStrings (forged ++ hop :: proxies) "," ->
   Forall (fun w => ","%char ∉ bytes w) (forged ++ hop :: proxies) ->
   is_Some (ParseIP (TrimSpace hop)) -> isTrustedProxy config (TrimSpace hop) = false ->
   Forall (fun p => isTrustedProxy config (TrimSpace p) = true) proxies ->
   extractClientIP config r = TrimSpace hop).
Proof.
  split; unfold extractClientIP; intros Ht.
  - rewrite Ht. by destruct (TrustedProxies config).
  - intros Hf Hc Hip Hh Hp. destruct (TrustedProxies config) eqn:Et.
    { unfold isTrustedProxy in Ht. rewrite Et in Ht. by destruct (ParseIP (remote_ip r)). }
    rewrite Ht, Hf. destruct (streq (JoinStrings _ _) "") eqn:Ee.
    { apply streq_true in Ee. pose proof (Split_JoinStrings (forged ++ hop :: proxies) "," ltac:(by destruct forged) Hc) as Hs.
      rewrite Ee in Hs. vm_compute in Hs. destruct forged as [|f forged]; [|by destruct forged].
      injection Hs as Hs _. rewrite <- Hs in Hip. by destruct Hip. }
    rewrite Split_JoinStrings by (done || by destruct forged).
    rewrite rev_app_distr. simpl. rewrite <- app_assoc. simpl. rewrite (closest_hop_past config _ hop); try done. by apply Forall_rev.
Qed.

Definition behind_proxy (xff : string) : Request :=
  {| R_Method := "GET"; R_Path := "/api/v1/instances"; R_RemoteAddr := "10.0.0.2:4711"; R_Header := [("X-Forwarded-For", xff)];
     R_Query := []; R_PathValue := []; R_Permissions := None; R_APIKeyID := None; R_BodyLimit := None |}.
Definition proxied (proxies : list string) : ServerConfig :=
  {| EnableAuth := true; APIKeys := []; AllowNoAuth := false; MetricsPublic := false; AllowedOrigins := []; EnableRateLimit := true;
     RequestsPerSecond := 10; BurstSize := 20; TLSCert := ""; TLSKey := ""; AllowInsecureTLS := true; WriteTimeout := 0;
     ReadTimeout := 0; IdleTimeout := 0; TrustedProxies := proxies; LogLevel := ""; LogFormat := ""; DataDir := ""; AuditLogFile := "" |}.

(** The proxies of a 10/8 network: the entry before them counts. *)
Lemma client_address_not_forgeable_witness :
  extractClientIP (proxied ["10.0.0.0/8"]) (behind_proxy "1.2.3.4,203.0.113.9, 10.0.0.7") = "203.0.113.9".
Proof.
  apply (client_address_not_forgeable (proxied ["10.0.0.0/8"]) (behind_proxy "1.2.3.4,203.0.113.9, 10.0.0.7")
    ["1.2.3.4"] "203.0.113.9" [" 10.0.0.7"]).
  - vm_compute. reflexivity.
  - vm_compute. reflexivity.
  - repeat constructor; vm_compute; set_solver.
  - vm_compute. eauto.
  - vm_compute. reflexivity.
  - repeat constructor.
Defined.

(** ** Responses *)

(** An operation of a handler that does not take over the connection and
    announces only final statuses. *)
Definition plain_op (o : wop) : Prop :=
  match o with WriteHeader c => final_status c = true /\ c <> 0 | Hijack => False | _ => True end.

(** The wrapper's state and the response agree. *)
Definition recorded (w : response) (code : Z) : Prop :=
  w_status w = (if code =? 0 then None else Some code) /\ w_hijacked w = false.

Lemma commit_fresh w c : w_status w = None -> w_hijacked w = false -> final_status c = true ->
  commit w c = {| w_status := Some c; w_header := w_header w; w_sent := w_header w; w_body := w_body w; w_hijacked := false |}.
Proof. intros H1 H2 H3. unfold commit. by rewrite H1, H2, H3. Qed.

Lemma commit_done w c c' : w_status w = Some c -> commit w c' = w.
Proof. unfold commit. by intros ->. Qed.

(** One operation through the logging wrapper: the same response, and its status
    recorded. *)
Lemma lw_op_transparent w st out o : plain_op o -> recorded (run_writer w out) st ->
  run_writer w (lw_op (st, out) o).2 = perform (run_writer w out) o /\ recorded (run_writer w (lw_op (st, out) o).2) (lw_op (st, out) o).1.
Proof.
  intros Ho [Hs Hh]. set (w' := run_writer w out) in *.
  destruct (Z.eqb_spec st 0) as [->|Hc]; destruct o as [| | |c| | |]; simpl in *; try done;
    rewrite ?(proj2 (Z.eqb_neq st 0) Hc), ?run_writer_app; fold w'; simpl; unfold recorded; simpl.
  all: try (split; [done|split; [by rewrite ?Hs, ?(proj2 (Z.eqb_neq st 0) Hc)|done]]).
  - destruct Ho as [Hf Hn]. rewrite (commit_fresh w' c) by done. by rewrite (proj2 (Z.eqb_neq c 0) Hn).
  - rewrite (commit_fresh w' StatusOK) by done. unfold write_body. rewrite (commit_fresh w' StatusOK) by done. done.
  - rewrite (commit_fresh w' StatusOK) by done. done.
  - rewrite (commit_done w' st) by done. fold w'. by rewrite Hs, (proj2 (Z.eqb_neq st 0) Hc).
  - unfold write_body. rewrite !(commit_done w' st) by done. rewrite Hh. simpl. by rewrite Hs, (proj2 (Z.eqb_neq st 0) Hc).
  - rewrite !(commit_done w' st) by done. by rewrite Hs, (proj2 (Z.eqb_neq st 0) Hc).
Qed.

Lemma lw_fold_transparent ops : forall w code out, Forall plain_op ops -> recorded (run_writer w out) code ->
  let st := foldl lw_op (code, out) ops in
  run_writer w st.2 = run_writer (run_writer w out) ops /\ recorded (run_writer w st.2) st.1.
Proof.
  induction ops as [|o ops IH]; intros w code out Hf Hr; [done|]. cbn [foldl]. cbv zeta. inversion Hf as [|? ? Ho Hf']; subst.
  destruct (lw_op_transparent w code out o Ho Hr) as [H1 H2].
  destruct (lw_op (code, out) o) as [code' out'] eqn:E. cbn [fst snd] in H1, H2.
  destruct (IH w code' out' Hf' H2) as [H3 H4]. split; [by rewrite H3, H1|done].
Qed.

Lemma uncommitted_run ops w : committed ops = false ->
  w_status (run_writer w ops) = w_status w /\ w_body (run_writer w ops) = w_body w /\ w_hijacked (run_writer w ops) = w_hijacked w.
Proof.
  revert w. induction ops as [|o ops IH]; intros w Hc; [done|]. simpl in *. apply orb_false_iff in Hc as [Ho Hc].
  destruct (IH (perform w o) Hc) as (-> & -> & ->). by destruct o.
Qed.

(** Responses are whole, and what is logged of them is what was sent.  The
    logging wrapper changes nothing of the response a handler produces, and the
    status it records (200 where none was announced) is the status the client
    receives.  When a handler panics, the recovery either answers a complete 500
    whose only body is the error (nothing had reached the client), or adds
    nothing at all to what had been sent and passes the panic on. *)
Theorem responses_are_whole {A L} (h : handler (A := A) (L := L)) s tm r s' ops out : h s tm r = (s', (ops, out)) ->
  (Forall plain_op ops -> let '(code, ops') := lw_run ops in
     finish (run_writer new_response ops') = finish (run_writer new_response ops) /\
     w_status (finish (run_writer new_response ops')) = Some (if code =? 0 then StatusOK else code)) /\
  (out = Panicked -> exists ops' out', recoveryMiddleware h s tm r = (s', (ops', out')) /\
     if committed ops then ops' = ops /\ out' = Panicked
     else out' = Returned /\ w_status (run_writer new_response ops') = Some StatusInternalServerError /\
          w_body (run_writer new_response ops') = [JSONMap [("error", "Internal server error")]]).
Proof.
  intros Hh. split.
  - intros Hf. destruct (lw_fold_transparent ops new_response 0 [] Hf ltac:(done)) as [H1 [H2 H3]].
    unfold lw_run. destruct (foldl lw_op (0, []) ops) as [code ops'] eqn:E. simpl in H1, H2, H3. rewrite H1. split; [done|].
    rewrite H1 in H2, H3. unfold finish. destruct (code =? 0) eqn:Ec; [by rewrite commit_fresh|]. by rewrite (commit_done _ code).
  - intros ->. unfold recoveryMiddleware. rewrite Hh. destruct (committed ops) eqn:Ec; [by eexists _, _|].
    eexists _, _. split; [done|]. split; [done|]. rewrite run_writer_app.
    destruct (uncommitted_run ops new_response Ec) as (H1 & H2 & H3).
    set (w := run_writer new_response ops) in *. clearbody w. simpl in H1, H2, H3.
    cbn. rewrite !(commit_fresh (set_header w _)) by done. cbn. by rewrite H2.
Qed.

Definition two_writes : handler (A := unit) (L := unit) := fun s tm r => (s, ([Write (Line "partial"); WriteHeader 401], Panicked)).

Definition idle_server : Server unit unit :=
  {| s_config := proxied []; s_auth := NoProvider; rateLimiters := ∅; authRateLimiters := ∅; s_log := []; s_app := () |}.
Definition same_instant (t : Z) : instants :=
  {| i_rate := t; i_peek := t; i_retry := t; i_scan := t; i_confirm := t; i_spend := t |}.

Lemma responses_are_whole_witness :
  (lw_run [Write (Line "partial"); WriteHeader 401]).1 = StatusOK /\
  w_status (finish (run_writer new_response (lw_run [Write (Line "partial"); WriteHeader 401]).2)) = Some StatusOK /\
  exists s', recoveryMiddleware two_writes idle_server (same_instant 0) (behind_proxy "") =
    (s', ([Write (Line "partial"); WriteHeader 401], Panicked)).
Proof.
  pose proof (responses_are_whole two_writes idle_server (same_instant 0) (behind_proxy "") idle_server _ _ eq_refl) as [H1 H2].
  split; [vm_compute; reflexivity|]. split.
  - apply (H1 ltac:(repeat constructor; discriminate)).
  - destruct (H2 eq_refl) as (ops' & out' & He & Hr). simpl in Hr. destruct Hr as [-> ->]. eauto.
Defined.
