(* ===== verification/AuthLimits.v ===== *)
(** * How many keys a client may try

    The laws of the token bucket behind [rate.Limiter], and the bound they put on
    the number of keys verified and rejected for one address. *)

From stdpp Require Import base list gmap strings sets.
From Stdlib Require Import Ascii ZArith QArith Qminmax Lqa Lia.
From S2P Require Import Prelude GoStrings GoTime GoHttp Auth AuthFacts Middleware MiddlewareFacts.

Local Open Scope Q_scope.

(** Nanoseconds as seconds. *)
Definition seconds (d : Z) : Q := d # 1000000000.

(** What the package documents of a limiter: a bucket that holds at most its
    burst, starts full, refills at its rate, and pays one token for each event it
    allows. *)
Class RateLimiterLaws (L : Type) `{RateLimiter L} := {
  rate_of : L -> Q;
  burst_of : L -> Z;
  new_rate : forall r b t, rate_of (NewLimiter r b t) = r;
  new_burst : forall r b t, burst_of (NewLimiter r b t) = b;
  allow_rate : forall l t, rate_of (Allow l t).1 = rate_of l;
  allow_burst : forall l t, burst_of (Allow l t).1 = burst_of l;
  tokens_bound : forall l t, (0 <= burst_of l)%Z -> Tokens l t <= inject_Z (burst_of l);
  tokens_refill : forall l t t', (t <= t')%Z -> 0 <= rate_of l ->
    Tokens l t <= Tokens l t' /\ Tokens l t' <= Tokens l t + rate_of l * seconds (t' - t);
  tokens_nonneg : forall l t, 0 <= Tokens l t;
  allow_yes : forall l t, 1 <= Tokens l t -> (Allow l t).2 = true /\ Tokens (Allow l t).1 t == Tokens l t - 1;
  allow_no : forall l t, Tokens l t < 1 -> (Allow l t).2 = false /\ Tokens (Allow l t).1 t == Tokens l t
}.

Lemma Qlt_b_true a b : Qlt_b a b = true <-> a < b.
Proof.
  unfold Qlt_b. rewrite negb_true_iff. split; intros Hx.
  - apply Qnot_le_lt. intros Hle. apply Qle_bool_iff in Hle. congruence.
  - apply not_true_iff_false. intros Hle%Qle_bool_iff. by apply (Qlt_not_le a b).
Qed.

Lemma Qlt_b_false a b : Qlt_b a b = false <-> b <= a.
Proof. unfold Qlt_b. rewrite negb_false_iff. apply Qle_bool_iff. Qed.

Lemma seconds_add a b : seconds (a + b) == seconds a + seconds b.
Proof. unfold seconds, Qeq, Qplus. simpl. lia. Qed.

Lemma seconds_nonneg d : (0 <= d)%Z -> 0 <= seconds d.
Proof. unfold seconds, Qle. simpl. lia. Qed.

Section limits.
Context {A L : Type} `{RateLimiterLaws L} `{Bcrypt}.
Variable visit : gmap string nat -> list (string * nat).
Implicit Types s : Server A L.

(** Every limiter of the map is one [getOrCreateAuthRateLimiter] makes. *)
Definition limiters_ok s : Prop :=
  forall ip l, authRateLimiters s !! ip = Some l -> rate_of l = authRate /\ burst_of l = authRateLimiterBurst.

(** The tokens an address has: a full bucket where it has no limiter yet. *)
Definition tokens_of s (ip : string) (t : Z) : Q :=
  match authRateLimiters s !! ip with Some l => Tokens l t | None => inject_Z authRateLimiterBurst end.

Lemma authRate_nonneg : 0 <= authRate.
Proof. done. Qed.

Lemma tokens_of_le_burst s ip t : limiters_ok s -> tokens_of s ip t <= 3.
Proof.
  intros Hok. unfold tokens_of. destruct (authRateLimiters s !! ip) as [l|] eqn:E; [|done].
  destruct (Hok ip l E) as [_ Hb]. pose proof (tokens_bound l t) as Ht. rewrite Hb in Ht. by apply Ht.
Qed.

Lemma tokens_of_refill s ip t t' : limiters_ok s -> (t <= t')%Z ->
  tokens_of s ip t <= tokens_of s ip t' /\ tokens_of s ip t' <= tokens_of s ip t + authRate * seconds (t' - t).
Proof.
  intros Hok Ht. unfold tokens_of. destruct (authRateLimiters s !! ip) as [l|] eqn:E.
  - destruct (Hok ip l E) as [Hr _]. pose proof (tokens_refill l t t' Ht) as Hf. rewrite Hr in Hf. by apply Hf.
  - pose proof (seconds_nonneg (t' - t) ltac:(lia)). split; [lra|]. unfold authRate. lra.
Qed.

(** The limiter a call finds or makes, and what the address has afterwards. *)
Lemma getOrCreate_spec s now ip s' l : limiters_ok s -> getOrCreateAuthRateLimiter s now ip = (s', l) ->
  limiters_ok s' /\ authRateLimiters s' !! ip = Some l /\ rate_of l = authRate /\ burst_of l = authRateLimiterBurst /\
  Tokens l now <= tokens_of s ip now.
Proof.
  intros Hok. unfold getOrCreateAuthRateLimiter, tokens_of. destruct (authRateLimiters s !! ip) as [l0|] eqn:E; intros [= <- <-].
  - destruct (Hok ip l0 E). split; [done|]. repeat split; [done..|lra].
  - assert (burst_of (NewLimiter authRate authRateLimiterBurst now) = authRateLimiterBurst) as Hb by apply new_burst.
    split; [|simpl; rewrite lookup_insert_eq; repeat split; [apply new_rate|done|]].
    + intros i l. simpl. intros [[<- <-]|[_ Hl]]%lookup_insert_Some; [split; [apply new_rate|done]|by apply (Hok i)].
    + pose proof (tokens_bound (NewLimiter authRate authRateLimiterBurst now) now) as Ht. rewrite Hb in Ht. by apply Ht.
Qed.

Lemma tokens_of_lookup s ip l t : authRateLimiters s !! ip = Some l -> tokens_of s ip t = Tokens l t.
Proof. unfold tokens_of. by intros ->. Qed.

(** A token spent is one token less. *)
Lemma spend_attempt_spec s now ip s' ok : limiters_ok s -> spend_attempt s now ip = (s', ok) ->
  limiters_ok s' /\ tokens_of s' ip now + (if ok then 1 else 0) <= tokens_of s ip now.
Proof.
  intros Hok. unfold spend_attempt. destruct (getOrCreateAuthRateLimiter s now ip) as [s1 l] eqn:E.
  destruct (getOrCreate_spec s now ip s1 l Hok E) as (Hok1 & Hl & Hr & Hb & Ht).
  destruct (Allow l now) as [l' b] eqn:Ea. intros [= <- <-].
  assert (l' = (Allow l now).1 /\ b = (Allow l now).2) as [-> ->] by (by rewrite Ea). split.
  - intros i l0. simpl. intros [[<- <-]|[_ Hi]]%lookup_insert_Some; [|by apply (Hok1 i)]. by rewrite allow_rate, allow_burst.
  - rewrite (tokens_of_lookup _ ip (Allow l now).1) by (simpl; by rewrite lookup_insert_eq).
    destruct (Qlt_le_dec (Tokens l now) 1) as [Hlt|Hge].
    + destruct (allow_no l now Hlt) as [-> Hn]. lra.
    + destruct (allow_yes l now Hge) as (-> & Hy). lra.
Qed.

(** An address with a token left is not refused. *)
Lemma spend_attempt_yes s now ip l : authRateLimiters s !! ip = Some l -> 1 <= Tokens l now -> (spend_attempt s now ip).2 = true.
Proof.
  intros Hl Ht. unfold spend_attempt, getOrCreateAuthRateLimiter. rewrite Hl. destruct (allow_yes l now Ht) as [Hy _].
  destruct (Allow l now). done.
Qed.

(** What [may_attempt] costs: nothing where the peek saw a token, one otherwise. *)
Lemma may_attempt_spec s tm ip s' ok : limiters_ok s -> may_attempt s tm ip = (s', ok) ->
  limiters_ok s' /\
  ((ok = true /\ exists l, authRateLimiters s' !! ip = Some l /\ 1 <= Tokens l (i_peek tm) /\ Tokens l (i_peek tm) <= tokens_of s ip (i_peek tm)) \/
   ((i_peek tm <= i_retry tm)%Z ->
    tokens_of s' ip (i_retry tm) + (if ok then 1 else 0) <= tokens_of s ip (i_peek tm) + authRate * seconds (i_retry tm - i_peek tm))).
Proof.
  intros Hok. unfold may_attempt, authRateLimitExhausted. destruct (getOrCreateAuthRateLimiter s (i_peek tm) ip) as [s1 l] eqn:E.
  destruct (getOrCreate_spec s _ ip s1 l Hok E) as (Hok1 & Hl & Hr & Hb & Ht). destruct (Qlt_b (Tokens l (i_peek tm)) 1) eqn:Eq.
  - intros Hs. destruct (spend_attempt_spec s1 _ ip s' ok Hok1 Hs) as [Hok' Hsp]. split; [done|]. right. intros Hle.
    destruct (tokens_of_refill s1 ip _ _ Hok1 Hle) as [_ Hf]. rewrite (tokens_of_lookup s1 ip l (i_peek tm) Hl) in Hf. lra.
  - intros [= <- <-]. split; [done|]. left. split; [done|]. exists l. apply Qlt_b_false in Eq. done.
Qed.

Lemma provider_Authenticate_limiters s tm key : authRateLimiters (provider_Authenticate visit s tm key).1 = authRateLimiters s.
Proof. unfold provider_Authenticate. destruct (s_auth s); [done| |done]. by destruct (Authenticate _ _ _ _ _). Qed.

(** The attempt is admitted, the key is verified and not known. *)
Definition wrong s (tm : instants) (ip key : string) : bool :=
  let '(s1, admitted) := may_attempt s tm ip in
  admitted && match (provider_Authenticate visit s1 tm key).2 with Some None => true | _ => false end.

Lemma tokens_of_same s1 s2 ip t : authRateLimiters s1 = authRateLimiters s2 -> tokens_of s1 ip t = tokens_of s2 ip t.
Proof. unfold tokens_of. by intros ->. Qed.

Lemma limiters_ok_same s1 s2 : authRateLimiters s1 = authRateLimiters s2 -> limiters_ok s2 -> limiters_ok s1.
Proof. unfold limiters_ok. by intros ->. Qed.

(** An attempt pays for a key it gets wrong. *)
Lemma verify_cost s tm ip key t : limiters_ok s -> (t <= i_peek tm <= i_retry tm)%Z -> (i_retry tm <= i_spend tm)%Z ->
  limiters_ok (verify visit s tm ip key).1 /\
  tokens_of (verify visit s tm ip key).1 ip (i_spend tm) + (if wrong s tm ip key then 1 else 0) <=
  tokens_of s ip t + authRate * seconds (i_spend tm - t).
Proof.
  intros Hok [Ht1 Ht2] Ht3. unfold verify, wrong. destruct (may_attempt s tm ip) as [s1 ok] eqn:Ea.
  destruct (may_attempt_spec s tm ip s1 ok Hok Ea) as [Hok1 Hc].
  destruct (tokens_of_refill s ip t (i_peek tm) Hok Ht1) as [_ Hf0].
  assert (forall s2, authRateLimiters s2 = authRateLimiters s1 -> limiters_ok s2 /\
    tokens_of s2 ip (i_spend tm) + (if ok then 0 else 0) <= tokens_of s ip t + authRate * seconds (i_spend tm - t)) as Hbase.
  { intros s2 He. split; [by apply (limiters_ok_same s2 s1)|]. rewrite (tokens_of_same s2 s1) by done.
    assert (tokens_of s1 ip (i_spend tm) <= tokens_of s ip t + authRate * seconds (i_spend tm - t)); [|destruct ok; lra].
    replace (i_spend tm - t)%Z with ((i_spend tm - i_peek tm) + (i_peek tm - t))%Z by lia. rewrite seconds_add.
    destruct Hc as [(-> & l & Hl & Hge & Hle)|Hc].
    - destruct (tokens_of_refill s1 ip (i_peek tm) (i_spend tm) Hok1 ltac:(lia)) as [_ Hf].
      rewrite (tokens_of_lookup s1 ip l (i_peek tm) Hl) in Hf. lra.
    - specialize (Hc Ht2). destruct (tokens_of_refill s1 ip (i_retry tm) (i_spend tm) Hok1 Ht3) as [_ Hf].
      replace (i_spend tm - i_peek tm)%Z with ((i_spend tm - i_retry tm) + (i_retry tm - i_peek tm))%Z by lia. rewrite seconds_add.
      destruct ok; lra. }
  destruct ok; simpl; [|destruct (Hbase s1 eq_refl) as [Hb1 Hb2]; split; [done|lra]].
  pose proof (provider_Authenticate_limiters s1 tm key) as Hpl.
  destruct (provider_Authenticate visit s1 tm key) as [s2 [[id|]|]]; simpl in *;
    [destruct (Hbase s2 Hpl) as [Hb1 Hb2]; split; [done|lra]| |destruct (Hbase s2 Hpl) as [Hb1 Hb2]; split; [done|lra]].
  destruct (spend_attempt s2 (i_spend tm) ip) as [s3 ok3] eqn:Es. simpl.
  destruct (spend_attempt_spec s2 _ ip s3 ok3 (limiters_ok_same s2 s1 Hpl Hok1) Es) as [Hok3 Hsp]. split; [done|].
  destruct Hc as [(_ & l & Hl & Hge & Hle)|Hc].
  - assert (ok3 = true) as ->.
    { rewrite <- Hpl in Hl. destruct (Hok1 ip l ltac:(by rewrite <- Hpl)) as [Hr _].
      pose proof (tokens_refill l (i_peek tm) (i_spend tm) ltac:(lia)) as Hf. rewrite Hr in Hf. destruct (Hf authRate_nonneg) as [Hf' _].
      pose proof (spend_attempt_yes s2 (i_spend tm) ip l Hl ltac:(lra)) as Hy. by rewrite Es in Hy. }
    destruct (Hbase s2 Hpl) as [_ Hb]. lra.
  - specialize (Hc Ht2). destruct (tokens_of_refill s1 ip (i_retry tm) (i_spend tm) Hok1 Ht3) as [_ Hf].
    rewrite (tokens_of_same s2 s1) in Hsp by done.
    replace (i_spend tm - t)%Z with ((i_spend tm - i_retry tm) + ((i_retry tm - i_peek tm) + (i_peek tm - t)))%Z by lia.
    rewrite !seconds_add. destruct ok3; lra.
Qed.

(** What one address does over time, and everything else meanwhile: [n] keys it
    presented from [t0] to [t] were verified and not known. *)
Inductive attempts (ip : string) (s0 : Server A L) (t0 : Z) : nat -> Server A L -> Z -> Prop :=
  | t_start : attempts ip s0 t0 0 s0 t0
  | t_guess n s t tm key : attempts ip s0 t0 n s t -> (t <= i_peek tm <= i_retry tm)%Z -> (i_retry tm <= i_spend tm)%Z ->
      attempts ip s0 t0 (n + if wrong s tm ip key then 1 else 0) (verify visit s tm ip key).1 (i_spend tm)
  | t_missing n s t now : attempts ip s0 t0 n s t -> (t <= now)%Z -> attempts ip s0 t0 n (spend_attempt s now ip).1 now
  | t_sweep n s t now : attempts ip s0 t0 n s t -> (t <= now)%Z -> attempts ip s0 t0 n (cleanupRateLimiters s now) now
  | t_other n s t s' now : attempts ip s0 t0 n s t -> (t <= now)%Z -> limiters_ok s' ->
      authRateLimiters s' !! ip = authRateLimiters s !! ip -> attempts ip s0 t0 n s' now.

Lemma cleanup_limiters s now : limiters_ok s -> limiters_ok (cleanupRateLimiters s now) /\
  forall ip, tokens_of (cleanupRateLimiters s now) ip now <= tokens_of s ip now.
Proof.
  intros Hok. split.
  - intros ip l. simpl. intros [Hl _]%map_lookup_filter_Some. by apply (Hok ip).
  - intros ip. unfold tokens_of. simpl. destruct (filter _ _ !! ip) as [l|] eqn:E.
    + apply map_lookup_filter_Some in E as [-> _]. lra.
    + apply map_lookup_filter_None in E as [->|Hn]; [lra|]. destruct (authRateLimiters s !! ip) as [l|]; [|lra].
      specialize (Hn l eq_refl). simpl in Hn. apply not_true_iff_false, Qlt_b_false in Hn. exact Hn.
Qed.

(** Tokens and wrong guesses together never exceed what the bucket held and was
    given. *)
Lemma attempts_inv ip s0 t0 n s t : limiters_ok s0 -> attempts ip s0 t0 n s t ->
  limiters_ok s /\ (t0 <= t)%Z /\ inject_Z (Z.of_nat n) + tokens_of s ip t <= 3 + authRate * seconds (t - t0).
Proof.
  intros Hok0. induction 1 as [|n s t tm key _ IH Ht1 Ht2|n s t now _ IH Ht1|n s t now _ IH Ht1|n s t s' now _ IH Ht1 Ht2 Ht3].
  - split; [done|]. split; [lia|]. pose proof (tokens_of_le_burst s0 ip t0 Hok0). rewrite Z.sub_diag.
    assert (seconds 0 == 0) as Hz by done. rewrite Hz. change (inject_Z (Z.of_nat 0)) with 0. lra.
  - destruct IH as (Hok & Hle & IH). destruct (verify_cost s tm ip key t Hok Ht1 Ht2) as [Hv Hc]. split; [done|]. split; [lia|].
    replace (i_spend tm - t0)%Z with ((i_spend tm - t) + (t - t0))%Z by lia. rewrite seconds_add, Nat2Z.inj_add, inject_Z_plus.
    destruct (wrong s tm ip key); [change (inject_Z (Z.of_nat 1)) with 1|change (inject_Z (Z.of_nat 0)) with 0]; lra.
  - destruct IH as (Hok & Hle & IH). destruct (spend_attempt s now ip) as [s' ok] eqn:E.
    destruct (spend_attempt_spec s now ip s' ok Hok E) as [Hok' Hs]. split; [done|]. split; [lia|]. simpl.
    destruct (tokens_of_refill s ip t now Hok Ht1) as [_ Hf].
    replace (now - t0)%Z with ((now - t) + (t - t0))%Z by lia. rewrite seconds_add. destruct ok; lra.
  - destruct IH as (Hok & Hle & IH). destruct (cleanup_limiters s now Hok) as [Hok' Hs]. specialize (Hs ip). split; [done|]. split; [lia|].
    destruct (tokens_of_refill s ip t now Hok Ht1) as [_ Hf].
    replace (now - t0)%Z with ((now - t) + (t - t0))%Z by lia. rewrite seconds_add. lra.
  - destruct IH as (Hok & Hle & IH). split; [done|]. split; [lia|].
    destruct (tokens_of_refill s ip t now Hok Ht1) as [_ Hf].
    assert (tokens_of s' ip now = tokens_of s ip now) as -> by (unfold tokens_of; by rewrite Ht3).
    replace (now - t0)%Z with ((now - t) + (t - t0))%Z by lia. rewrite seconds_add. lra.
Qed.

End limits.
