(* ===== verification/ApiKeys.v ===== *)
(** * API keys over HTTP (internal/api/auth_key_handler.go) and the start of the
      server (internal/api/server.go, [NewServer])

    The handlers that create, list and revoke keys, over the manager of [Auth] and
    the tables of [InstanceStore]; and what [NewServer] makes of its configuration
    and of the keys stored.  A request's body arrives decoded; the random bytes,
    salts and clock readings are arguments. *)

From stdpp Require Import base list gmap strings pretty.
From Stdlib Require Import Ascii ZArith QArith Lia.
From S2P Require Import Prelude GoStrings GoText GoTime GoHttp Host ProviderTypes Jobs Backup Auth Middleware InstanceStore.

Local Open Scope Z_scope.

(** What the handlers see of the rest of the server: the concrete datastore, if
    there is one. *)
Class HasStore (A : Type) := { app_ds : A -> option Tables; with_ds : A -> Tables -> A }.
Class HasStoreLaws (A : Type) `{HasStore A} := {
  app_with_ds : forall a d, app_ds (with_ds a d) = Some d
}.

Definition maxAPIKeyTTLDays : Z := 36500.

Record authAddAPIKeyRequest := { AR_Name : string; AR_Permissions : list string; AR_TTLDays : Z }.

(** ** Error answers (server.go) *)

Definition maxErrorDetail : nat := 2048.

(** [singleLine]. *)
Definition carriage_return : ascii := "013"%char.
Fixpoint crlf_to_lf (l : list ascii) : list ascii :=
  match l with
  | "013"%char :: "010"%char :: rest => newline :: crlf_to_lf rest
  | c :: rest => c :: crlf_to_lf rest
  | [] => []
  end.
Definition singleLine (msg : string) : string :=
  let trailing := HasSuffix msg (String newline "") in
  let body := TrimSuffix msg (String newline "") in
  let body := of_bytes (crlf_to_lf (bytes body)) in
  let body := ReplaceByte body carriage_return (String newline "") in
  let segments := List.filter (fun s => negb (streq s "")) (map TrimSpace (Split body newline)) in
  let body := JoinStrings segments "; " in
  if trailing then body +:+ String newline "" else body.

(** The ellipsis is three bytes of UTF-8. *)
Definition truncation_mark : string :=
  of_bytes (encode_rune 8230) +:+ " (truncated; see the hospitusd log)".
Definition trimDetail (detail : string) : string :=
  let detail := TrimSpace (singleLine detail) in
  if bool_decide (length (bytes detail) <= maxErrorDetail)%nat then detail
  else of_bytes (take maxErrorDetail (bytes detail)) +:+ truncation_mark.

Definition stripEcho (detail clientMsg : string) : string :=
  let prefix := TrimSuffix (TrimSpace clientMsg) ":" +:+ ":" in
  let n := length (bytes prefix) in
  if bool_decide (length (bytes detail) <= n)%nat || negb (EqualFold (of_bytes (take n (bytes detail))) prefix) then detail
  else
    let rest := TrimSpace (of_bytes (drop n (bytes detail))) in
    if streq rest "" then detail else rest.

Section handlers.
Context {A L : Type} `{RateLimiter L} `{Bcrypt} `{HasStore A} `{Json (list string)}.
Variable visit : gmap string nat -> list (string * nat).
(** [err.Error()]. *)
Variable error_text : error -> string.
Implicit Types s : Server A L.

Definition clientErrorDetail (err : option error) : string :=
  match err with None => "" | Some e => trimDetail (error_text e) end.

Definition writeLoggedError (statusCode : Z) (clientMsg : string) (err : option error) : list wop :=
  if StatusInternalServerError <=? statusCode then
    match err with
    | None => writeError statusCode clientMsg
    | Some _ => writeJSON statusCode (JSONMap [("error", clientMsg); ("detail", "the daemon log has the cause")])
    end
  else
    let detail := stripEcho (clientErrorDetail err) clientMsg in
    if streq detail "" then writeError statusCode clientMsg
    else writeJSON statusCode (JSONMap [("error", clientMsg); ("detail", detail)]).

Definition set_app s (a : A) : Server A L :=
  {| s_config := s_config s; s_auth := s_auth s; rateLimiters := rateLimiters s; authRateLimiters := authRateLimiters s;
     s_log := s_log s; s_app := a |}.

(** ** Keys *)

Definition record_of (k : APIKey) : APIKeyRecord :=
  {| Key_ID := K_ID k; Key_Name := K_Name k; Key_HashedKey := K_HashedKey k;
     Key_Permissions := match K_Permissions k with [] => None | l => Some l end;
     Key_CreatedAt := K_CreatedAt k; Key_LastUsedAt := None; Key_ExpiresAt := K_ExpiresAt k |}.

Definition persistAPIKey s (authMgr : AuthManager) (keyID : string) : Server A L * option error :=
  match app_ds (s_app s) with
  | None => (s, None)
  | Some ds =>
      match GetAPIKey authMgr keyID with
      | None => (s, Some (Errorf "key %s vanished between creation and persistence" [keyID]))
      | Some k =>
          let '(ds, err) := SaveAPIKey ds (record_of k) in
          (set_app s (with_ds (s_app s) ds), wrap "failed to persist API key %s: %w" [keyID] err)
      end
  end.

Definition notManaged : list wop :=
  writeError StatusNotImplemented "API key management not available with SimpleAuthProvider".

(** The names of the keys listed; the other fields of the answer are left out. *)
Definition handleListAuthKeys s : list wop :=
  match s_auth s with
  | Managed am => writeJSON StatusOK (JSONMap (map (fun k => (K_ID k, K_Name k)) (Auth.ListAPIKeys visit am)))
  | _ => notManaged
  end.

(** [keyID[len(prefix):len(prefix)+16]]. *)
Definition key_id_of (generated : string) : string := "key-" +:+ of_bytes (take 16 (drop 4 (bytes generated))).

(** The randomness and the clock of one request. *)
Record draws := { d_key : result (list ascii); d_id : result (list ascii); d_salt : Z; d_expiry : Z; d_created : Z }.

Definition ttl_expiry (d : draws) (days : Z) : option Z := if 0 <? days then Some (d_expiry d + days * 24 * Hour) else None.

Definition handleCreateAuthKey s (body : result authAddAPIKeyRequest) (d : draws) : Server A L * list wop :=
  match s_auth s with
  | Managed am =>
      match body with
      | Err e => (s, writeLoggedError StatusBadRequest "Invalid request body" (Some e))
      | Ok req =>
          if streq (AR_Name req) "" then (s, writeError StatusBadRequest "Name is required")
          else if (AR_TTLDays req <? 0) || (maxAPIKeyTTLDays <? AR_TTLDays req) then
            (s, writeError StatusBadRequest ("ttl_days must be between 0 and " +:+ Itoa maxAPIKeyTTLDays))
          else match GenerateAPIKey (d_key d) with
          | Err e => (s, writeLoggedError StatusInternalServerError "Failed to generate API key" (Some e))
          | Ok plaintext =>
              match GenerateAPIKey (d_id d) with
              | Err e => (s, writeLoggedError StatusInternalServerError "Failed to generate key ID" (Some e))
              | Ok generated =>
                  let keyID := key_id_of generated in
                  let expiresAt := ttl_expiry d (AR_TTLDays req) in
                  match AddAPIKey am (d_salt d) (d_created d) keyID (AR_Name req) plaintext (AR_Permissions req) expiresAt with
                  | (_, Some e) => (s, writeLoggedError StatusInternalServerError "Failed to register API key" (Some e))
                  | (am, None) =>
                      match persistAPIKey (set_auth s (Managed am)) am keyID with
                      | (s, Some e) =>
                          (set_auth s (Managed (RevokeAPIKey am keyID).1),
                           writeLoggedError StatusInternalServerError "Failed to persist API key" (Some e))
                      | (s, None) =>
                          (log s [LogEvent "api_key_generated" keyID],
                           writeJSON StatusCreated (JSONMap [("id", keyID); ("name", AR_Name req); ("api_key", plaintext)]))
                      end
                  end
              end
          end
      end
  | _ => (s, notManaged)
  end.

(** What is left of a revocation after the manager: whether a stored copy was
    found, or the message and the cause to answer with. *)
Definition revoke_stored s (keyID : string) (inMemory : bool) : Server A L * (bool + string * error) :=
  match app_ds (s_app s) with
  | None => (s, inl false)
  | Some ds =>
      let '(ds, found) := if inMemory then (ds, Ok false) else
        let '(ds, r) := InstanceStore.ListAPIKeys ds in
        (ds, match r with Err e => Err e | Ok keys => Ok (existsb (fun k => streq (Key_ID k) keyID) keys) end) in
      let s := set_app s (with_ds (s_app s) ds) in
      match found with
      | Err e => (s, inr ("Failed to read the stored API keys", e))
      | Ok stored =>
          if inMemory || stored then
            let '(ds, err) := DeleteAPIKey ds keyID in
            (set_app s (with_ds (s_app s) ds),
             match err with
             | Some e => inr ("API key is revoked now but its stored copy remains; it will come back on restart — retry this request", e)
             | None => inl stored
             end)
          else (s, inl stored)
      end
  end.

Definition handleRevokeAuthKey s (keyID : string) : Server A L * list wop :=
  match s_auth s with
  | Managed am =>
      let inMemory := match GetAPIKey am keyID with Some _ => true | None => false end in
      let '(am, err) := if inMemory then RevokeAPIKey am keyID else (am, None) in
      match err with
      | Some e => (s, writeLoggedError StatusInternalServerError "Failed to revoke API key" (Some e))
      | None =>
          match revoke_stored (set_auth s (Managed am)) keyID inMemory with
          | (s, inr (msg, e)) => (s, writeLoggedError StatusInternalServerError msg (Some e))
          | (s, inl stored) =>
              if negb inMemory && negb stored then (s, writeError StatusNotFound ("API key not found: " +:+ keyID))
              else (log s [LogEvent "api_key_revoked" keyID],
                    writeJSON StatusOK (JSONMap [("status", "success"); ("message", "API key revoked successfully")]))
          end
      end
  | _ => (s, notManaged)
  end.

Definition handleAuthKeys s (r : Request) (keyID : string) (body : result authAddAPIKeyRequest) (d : draws) : Server A L * list wop :=
  if negb (request_HasPermission r "admin") then (s, writeError StatusForbidden "Admin permission required to manage API keys")
  else if streq (R_Method r) MethodGet then (s, handleListAuthKeys s)
  else if streq (R_Method r) MethodPost then handleCreateAuthKey s body d
  else if streq (R_Method r) MethodDelete then
    if streq keyID "" then (s, writeError StatusBadRequest "Key ID required for revocation") else handleRevokeAuthKey s keyID
  else (s, writeMethodNotAllowed [MethodGet; MethodPost; MethodDelete]).

Definition handleAuthKeysRoute s (r : Request) (body : result authAddAPIKeyRequest) (d : draws) : Server A L * list wop :=
  let path := TrimPrefix (TrimPrefix (R_Path r) "/api/v1/auth/keys") "/" in
  if Contains path "/" then (s, writeError StatusNotFound "Not found") else handleAuthKeys s r path body d.
End handlers.

(** ** The start of the server *)

Definition defaultRequestsPerSecond : Z := 10.
Definition defaultBurstSize : Z := 20.

Definition default_config : ServerConfig :=
  {| EnableAuth := true; APIKeys := []; AllowNoAuth := false; MetricsPublic := false; AllowedOrigins := []; EnableRateLimit := true;
     RequestsPerSecond := defaultRequestsPerSecond; BurstSize := defaultBurstSize; TLSCert := ""; TLSKey := "";
     AllowInsecureTLS := false; WriteTimeout := 30 * Minute; ReadTimeout := 15 * Second; IdleTimeout := 60 * Second;
     TrustedProxies := []; LogLevel := ""; LogFormat := ""; DataDir := ""; AuditLogFile := "" |}.

Definition or_default (d x : Z) : Z := if x =? 0 then d else x.
Definition or_positive (d x : Z) : Z := if x <=? 0 then d else x.
Definition or_text (d x : string) : string := if streq x "" then d else x.

(** The defaults [NewServer] fills in. *)
Definition with_defaults (c : ServerConfig) : ServerConfig :=
  {| EnableAuth := EnableAuth c; APIKeys := APIKeys c; AllowNoAuth := AllowNoAuth c; MetricsPublic := MetricsPublic c;
     AllowedOrigins := AllowedOrigins c; EnableRateLimit := EnableRateLimit c;
     RequestsPerSecond := or_positive defaultRequestsPerSecond (RequestsPerSecond c);
     BurstSize := or_positive defaultBurstSize (BurstSize c); TLSCert := TLSCert c; TLSKey := TLSKey c;
     AllowInsecureTLS := AllowInsecureTLS c; WriteTimeout := or_default (30 * Minute) (WriteTimeout c);
     ReadTimeout := or_default (15 * Second) (ReadTimeout c); IdleTimeout := or_default (60 * Second) (IdleTimeout c);
     TrustedProxies := TrustedProxies c; LogLevel := or_text "info" (LogLevel c); LogFormat := or_text "text" (LogFormat c);
     DataDir := DataDir c; AuditLogFile := AuditLogFile c |}.

Definition with_auth (c : ServerConfig) (enable : bool) (keys : list string) : ServerConfig :=
  {| EnableAuth := enable; APIKeys := keys; AllowNoAuth := AllowNoAuth c; MetricsPublic := MetricsPublic c;
     AllowedOrigins := AllowedOrigins c; EnableRateLimit := EnableRateLimit c; RequestsPerSecond := RequestsPerSecond c;
     BurstSize := BurstSize c; TLSCert := TLSCert c; TLSKey := TLSKey c; AllowInsecureTLS := AllowInsecureTLS c;
     WriteTimeout := WriteTimeout c; ReadTimeout := ReadTimeout c; IdleTimeout := IdleTimeout c; TrustedProxies := TrustedProxies c;
     LogLevel := LogLevel c; LogFormat := LogFormat c; DataDir := DataDir c; AuditLogFile := AuditLogFile c |}.

Section start.
Context {A L : Type} `{RateLimiter L} `{Bcrypt} `{HasStore A} `{Json (list string)}.

Definition key_of_record (r : APIKeyRecord) : APIKey :=
  {| K_ID := Key_ID r; K_Name := Key_Name r; K_HashedKey := Key_HashedKey r; K_CreatedAt := Key_CreatedAt r;
     K_LastUsedAt := None; K_ExpiresAt := Key_ExpiresAt r; K_Permissions := default [] (Key_Permissions r) |}.

(** The keys of the configuration, as key-1, key-2, ...; one that cannot be
    hashed is logged and skipped. *)
Definition add_configured (now : Z) (st : AuthManager * Z) (key : string) : AuthManager * Z :=
  let '(am, i) := st in ((AddAPIKey am i now ("key-" +:+ Itoa (i + 1)) "default" key ["*"] None).1, i + 1).

(** The authentication of a new server, and the configuration it leaves. *)
Definition auth_of (c : ServerConfig) (a : A) (now : Z) : ServerConfig * AuthProvider * A :=
  if negb (EnableAuth c) then (c, NoProvider, a)
  else match APIKeys c with
  | [] => if AllowNoAuth c then (with_auth c false [], NoProvider, a) else (c, Simple (NewSimpleAuthProvider []), a)
  | keys =>
      let am := (foldl (add_configured now) (NewAuthManager, 0) keys).1 in
      let '(am, a) := match app_ds a with
                      | None => (am, a)
                      | Some ds =>
                          let '(ds, recs) := InstanceStore.ListAPIKeys ds in
                          (match recs with Ok recs => foldl (fun am r => LoadAPIKey am (key_of_record r)) am recs | Err _ => am end,
                           with_ds a ds)
                      end in
      (with_auth c true [], Managed am, a)
  end.

Definition NewServer (config : option ServerConfig) (a : A) (now : Z) : result (Server A L) :=
  let c := with_defaults (default default_config config) in
  if negb (EnableAuth c) && negb (AllowNoAuth c)
  then Err (Errorf "EnableAuth is false: set AllowNoAuth to run without authentication, and mean it" [])
  else
    let '(c, auth, a) := auth_of c a now in
    Ok {| s_config := c; s_auth := auth; rateLimiters := ∅; authRateLimiters := ∅; s_log := []; s_app := a |}.

(** [Start] refuses to listen in the clear unless told to. *)
Definition Start_refuses (c : ServerConfig) : bool :=
  negb (negb (streq (TLSCert c) "") && negb (streq (TLSKey c) "")) && negb (AllowInsecureTLS c).
End start.

Definition validPort (port : Z) : bool := (1 <=? port) && (port <=? 65535).

(** ** Media types *)

(** [strconv.ParseFloat] is a parameter: what a quality reads as, if it does. *)
Definition mediaQuality (ParseFloat : string -> option Q) (params : list string) : Q :=
  match List.find (fun p => HasPrefix (ToLower (TrimSpace p)) "q=") params with
  | None => 1
  | Some p => default 0%Q (ParseFloat (TrimSpace (of_bytes (drop 2 (bytes (TrimSpace p))))))
  end.

Definition media_matches (media w : string) : bool :=
  streq media w || match Cut w "/" with Some (kind, _) => streq media (kind +:+ "/*") | None => false end.

Definition acceptsMedia (ParseFloat : string -> option Q) (accept : string) (wanted : list string) : bool :=
  existsb (fun part =>
    let fields := Split (TrimSpace part) ";" in
    let media := ToLower (TrimSpace (default "" (head fields))) in
    existsb (media_matches media) wanted && Qlt_b 0 (mediaQuality ParseFloat (tail fields))) (Split accept ",").
