(* ===== verification/ApiKeysFacts.v ===== *)
(** * Facts about API keys and the start of the server

    A key that was handed out authenticates now and after a restart; a server
    never starts unauthenticated unless told to. *)

From stdpp Require Import base list gmap strings pretty.
From Stdlib Require Import Ascii ZArith QArith Lia.
From S2P Require Import Prelude GoStrings GoText GoTime GoHttp Auth AuthFacts Middleware MiddlewareFacts Jobs Backup InstanceStore InstanceStoreFacts ApiKeys.

Local Open Scope Z_scope.

(** ** Managers built up key by key *)

Lemma key_at_put am id k i : auth_ok am -> key_at (put_key am id k) i = if decide (i = id) then Some k else key_at am i.
Proof.
  intros Hok. unfold key_at, put_key. simpl. destruct (decide (i = id)) as [->|Hne].
  - rewrite lookup_insert_eq. simpl. by rewrite lookup_insert_eq.
  - rewrite lookup_insert_ne by done. destruct (am_keys am !! i) as [a|] eqn:E; [|done]. simpl.
    destruct (ids_agree _ Hok i a E) as (k' & Hk' & _). pose proof (heap_bound _ Hok a k' Hk').
    rewrite lookup_insert_ne by lia. done.
Qed.

Lemma key_at_revoke am id i : key_at (RevokeAPIKey am id).1 i = if decide (i = id) then None else key_at am i.
Proof.
  unfold RevokeAPIKey. destruct (am_keys am !! id) eqn:E; simpl; unfold key_at; simpl.
  - destruct (decide (i = id)) as [->|Hne]; [by rewrite lookup_delete_eq|]. by rewrite lookup_delete_ne.
  - destruct (decide (i = id)) as [->|Hne]; [by rewrite E|done].
Qed.

Lemma key_at_id am id k : auth_ok am -> key_at am id = Some k -> K_ID k = id.
Proof.
  intros Hok. unfold key_at. destruct (am_keys am !! id) as [a|] eqn:E; simpl; [|done]. intros Hk.
  destruct (ids_agree _ Hok id a E) as (k' & Hk' & Hi). congruence.
Qed.

Section facts.
Context {A L : Type} `{!RateLimiter L} `{!Bcrypt} `{!BcryptLaws} `{!HasStore A} `{!HasStoreLaws A} `{!Json (list string)} `{!JsonLaws (list string)}.
Variable visit : gmap string nat -> list (string * nat).
Variable error_text : error -> string.
Hypothesis visit_perm : forall m, visit m ≡ₚ map_to_list m.
(** A slice that is not nil is an array in JSON. *)
Hypothesis never_null : forall l : list string, Marshal l <> Ok "null".
Implicit Types s : Server A L.

Lemma AddAPIKey_ok am salt now id name key perms exp : auth_ok am -> auth_ok (AddAPIKey am salt now id name key perms exp).1.
Proof. intros Hok. by apply (astep_ok am _ (a_add am salt now id name key perms exp)). Qed.

Lemma configured_keys_ok now keys st : auth_ok st.1 -> auth_ok (foldl (add_configured now) st keys).1.
Proof.
  revert st. induction keys as [|k keys IH]; intros [am i] Hok; simpl; [done|]. apply IH. simpl. by apply AddAPIKey_ok.
Qed.

(** ** Loading the stored keys *)

Definition load_all (am : AuthManager) (recs : list APIKeyRecord) : AuthManager :=
  foldl (fun am r => LoadAPIKey am (key_of_record r)) am recs.

Lemma load_all_spec recs am : auth_ok am ->
  auth_ok (load_all am recs) /\
  (forall i, i ∉ map Key_ID recs -> key_at (load_all am recs) i = key_at am i) /\
  (forall r, NoDup (map Key_ID recs) -> r ∈ recs -> key_at (load_all am recs) (Key_ID r) = Some (key_of_record r)).
Proof.
  revert am. induction recs as [|r recs IH]; intros am Hok; cbn [map].
  - split; [done|]. split; [done|]. intros r _ Hr. by apply elem_of_nil in Hr.
  - destruct (put_key_ok am (Key_ID r) (key_of_record r) Hok eq_refl) as [Hok' _].
    destruct (IH _ Hok') as (H1 & H2 & H3).
    change (load_all am (r :: recs)) with (load_all (put_key am (Key_ID r) (key_of_record r)) recs). split; [done|]. split.
    + intros i [Hi1 Hi2]%not_elem_of_cons. rewrite (H2 i Hi2). rewrite (key_at_put am (Key_ID r)) by done. by rewrite decide_False.
    + intros r' [Hn1 Hn2]%NoDup_cons [->|Hr]%elem_of_cons; [|by apply H3].
      rewrite (H2 (Key_ID r) Hn1). rewrite (key_at_put am (Key_ID r)) by done. by rewrite decide_True.
Qed.

Lemma scanned_ids (m : gmap string KeyRow) : map Key_ID (map scan_key (map_to_list m)) = (map_to_list m).*1.
Proof. rewrite map_map. reflexivity. Qed.

(** What is read back of a record that was written. *)
Lemma scan_saved ds ds' k : SaveAPIKey ds (record_of k) = (ds', None) -> api_keys ds !! K_ID k = None ->
  faults ds' = tail (faults ds) /\
  exists row, api_keys ds' = <[K_ID k := row]> (api_keys ds) /\
    key_of_record (scan_key (K_ID k, row)) =
      {| K_ID := K_ID k; K_Name := K_Name k; K_HashedKey := K_HashedKey k; K_CreatedAt := K_CreatedAt k; K_LastUsedAt := None;
         K_ExpiresAt := K_ExpiresAt k; K_Permissions := K_Permissions k |}.
Proof.
  unfold SaveAPIKey. intros Hs Hn.
  assert (exists perms, (match Key_Permissions (record_of k) with Some l => Marshal l | None => Ok "null" end) = Ok perms /\
    (if streq perms "null" then None else match Unmarshal (A := list string) perms with Ok l => Some l | Err _ => None end) =
    match K_Permissions k with [] => None | l => Some l end) as (perms & Hp & Hu).
  { simpl. simpl in Hs. destruct (K_Permissions k) as [|p ps]; [by exists "null"|].
    destruct (Marshal (p :: ps)) as [t|] eqn:E; [|discriminate]. exists t. split; [done|].
    destruct (streq t "null") eqn:En; [apply streq_true in En; subst; by destruct (never_null (p :: ps))|].
    by rewrite (json_round_trip _ _ E). }
  rewrite Hp in Hs. unfold statement in Hs. destruct (faults ds) as [|[f|] fs] eqn:Ef; simpl in Hs; [|discriminate|];
    simpl in Hs; rewrite Hn in Hs; injection Hs as <-; simpl; (split; [by rewrite ?Ef|]); eexists; (split; [reflexivity|]);
    unfold key_of_record, scan_key; simpl; rewrite Hu; by destruct (K_Permissions k).
Qed.

(** The manager of a server started on these tables holds every key they do. *)
Lemma auth_of_loads (c : ServerConfig) (a : A) ds now id row : EnableAuth c = true -> APIKeys c <> [] ->
  app_ds a = Some ds -> faults ds = [] -> api_keys ds !! id = Some row ->
  exists c' am a', auth_of (A := A) c a now = (c', Managed am, a') /\ auth_ok am /\
    key_at am id = Some (key_of_record (scan_key (id, row))).
Proof.
  intros He Hk Hds Hf Hrow. unfold auth_of. rewrite He. simpl. destruct (APIKeys c) as [|k0 keys]; [done|].
  rewrite Hds. unfold InstanceStore.ListAPIKeys, statement. rewrite Hf. eexists _, _, _. split; [reflexivity|].
  pose proof (configured_keys_ok now (k0 :: keys) (NewAuthManager, 0) NewAuthManager_ok) as Hok.
  destruct (load_all_spec (map scan_key (map_to_list (api_keys ds))) _ Hok) as (H1 & _ & H3). split; [exact H1|].
  apply (H3 (scan_key (id, row))).
  - rewrite scanned_ids. apply NoDup_fst_map_to_list.
  - apply list_elem_of_fmap. exists (id, row). split; [done|]. by apply elem_of_map_to_list.
Qed.

(** A key that is the only one a text matches, and has not expired. *)
Lemma authenticate_only am id k key t1 t2 : auth_ok am -> key <> "" -> key_at am id = Some k ->
  CompareHashAndPassword (K_HashedKey k) key = true ->
  (forall id' k', id' <> id -> key_at am id' = Some k' -> CompareHashAndPassword (K_HashedKey k') key = false) ->
  is_expired k t1 = false -> is_expired k t2 = false -> (Authenticate visit am t1 t2 key).2 = Some (K_Permissions k, id).
Proof.
  intros Hok Hne Hk Hm Ho H1 H2. pose proof (Authenticate_spec visit visit_perm am t1 t2 key Hok) as Hs.
  destruct (Authenticate visit am t1 t2 key).2 as [[p i]|].
  - destruct Hs as (_ & k' & Hk' & Hc & _ & _ & ->). destruct (decide (i = id)) as [->|Hd]; [by simplify_eq|].
    by rewrite (Ho i k' Hd Hk') in Hc.
  - destruct Hs as [?|[Hs|(i & k' & Hk' & Hc & Hx)]]; [done|by rewrite (Hs id k Hk) in Hm|].
    destruct (decide (i = id)) as [->|Hd]; [simplify_eq; destruct Hx; congruence|]. by rewrite (Ho i k' Hd Hk') in Hc.
Qed.

(** ** Creating a key *)

Definition answers (ops : list wop) (code : Z) : Prop := WriteHeader code ∈ ops.

Lemma logged_error_status code code' msg e : answers (writeLoggedError error_text code msg e) code' -> code' = code.
Proof.
  unfold answers, writeLoggedError, writeError, writeJSON. repeat case_match; intros Hin;
    repeat (apply elem_of_cons in Hin as [Hin|Hin]; [by simplify_eq|]); by apply elem_of_nil in Hin.
Qed.

Lemma error_status code code' msg : answers (writeError code msg) code' -> code' = code.
Proof.
  unfold answers, writeError, writeJSON. intros Hin.
  repeat (apply elem_of_cons in Hin as [Hin|Hin]; [by simplify_eq|]); by apply elem_of_nil in Hin.
Qed.

(** What a successful creation leaves behind. *)
Lemma create_success s s' am ds req d ops : s_auth s = Managed am -> auth_ok am -> app_ds (s_app s) = Some ds ->
  handleCreateAuthKey error_text s (Ok req) d = (s', ops) -> answers ops StatusCreated ->
  exists plaintext generated k ds',
    GenerateAPIKey (d_key d) = Ok plaintext /\ GenerateAPIKey (d_id d) = Ok generated /\
    s_auth s' = Managed (put_key am (key_id_of generated) k) /\ app_ds (s_app s') = Some ds' /\
    SaveAPIKey ds (record_of k) = (ds', None) /\ CompareHashAndPassword (K_HashedKey k) plaintext = true /\
    K_ID k = key_id_of generated /\ K_Permissions k = AR_Permissions req /\ K_ExpiresAt k = ttl_expiry d (AR_TTLDays req).
Proof.
  intros Ha Hok Hds. unfold handleCreateAuthKey. rewrite Ha.
  destruct (streq (AR_Name req) ""); [intros [= <- <-] Hc%error_status; done|].
  destruct (_ || _); [intros [= <- <-] Hc%error_status; done|].
  destruct (GenerateAPIKey (d_key d)) as [plaintext|]; [|intros [= <- <-] Hc%logged_error_status; done].
  destruct (GenerateAPIKey (d_id d)) as [generated|]; [|intros [= <- <-] Hc%logged_error_status; done].
  unfold AddAPIKey, HashAPIKey. destruct (GenerateFromPassword (d_salt d) plaintext) as [h|] eqn:Eh;
    [|intros [= <- <-] Hc%logged_error_status; done].
  set (k := {| K_ID := key_id_of generated; K_Name := AR_Name req; K_HashedKey := h; K_CreatedAt := d_created d;
               K_LastUsedAt := None; K_ExpiresAt := ttl_expiry d (AR_TTLDays req); K_Permissions := AR_Permissions req |}).
  unfold persistAPIKey. simpl. rewrite Hds. unfold GetAPIKey. rewrite key_at_put by done. rewrite decide_True by done.
  destruct (SaveAPIKey ds (record_of k)) as [ds' [e|]] eqn:Es; simpl; [intros [= <- <-] Hc%logged_error_status; done|].
  intros [= <- <-] _. exists plaintext, generated, k, ds'. simpl. rewrite app_with_ds.
  repeat split; try done. by apply (generated_matches _ _ _ Eh).
Qed.

(** A creation that is not answered 201 leaves the manager's keys as they were,
    the new id excepted, and the stored ones unchanged. *)
Lemma create_failure s s' am ds req d ops : s_auth s = Managed am -> auth_ok am -> app_ds (s_app s) = Some ds ->
  handleCreateAuthKey error_text s (Ok req) d = (s', ops) -> ~ answers ops StatusCreated ->
  exists am', s_auth s' = Managed am' /\ api_keys <$> app_ds (s_app s') = Some (api_keys ds) /\
    forall i, key_at am' i = key_at am i \/ (key_at am' i = None /\ exists generated, GenerateAPIKey (d_id d) = Ok generated /\ i = key_id_of generated).
Proof.
  intros Ha Hok Hds. unfold handleCreateAuthKey. rewrite Ha.
  assert (exists am', s_auth s = Managed am' /\ api_keys <$> app_ds (s_app s) = Some (api_keys ds) /\
    forall i, key_at am' i = key_at am i \/ (key_at am' i = None /\ exists generated, GenerateAPIKey (d_id d) = Ok generated /\ i = key_id_of generated)) as Hsame.
  { exists am. rewrite Hds. split; [done|]. split; [done|]. by left. }
  destruct (streq (AR_Name req) ""); [by intros [= <- <-]|]. destruct (_ || _); [by intros [= <- <-]|].
  destruct (GenerateAPIKey (d_key d)) as [plaintext|]; [|by intros [= <- <-]].
  destruct (GenerateAPIKey (d_id d)) as [generated|] eqn:Eg; [|by intros [= <- <-]].
  unfold AddAPIKey, HashAPIKey. destruct (GenerateFromPassword (d_salt d) plaintext) as [h|]; [|by intros [= <- <-]].
  set (k := {| K_ID := key_id_of generated; K_Name := AR_Name req; K_HashedKey := h; K_CreatedAt := d_created d;
               K_LastUsedAt := None; K_ExpiresAt := ttl_expiry d (AR_TTLDays req); K_Permissions := AR_Permissions req |}).
  unfold persistAPIKey. simpl. rewrite Hds. unfold GetAPIKey. rewrite key_at_put by done. rewrite decide_True by done.
  destruct (SaveAPIKey ds (record_of k)) as [ds' [e|]] eqn:Es; simpl.
  - intros [= <- <-] _. eexists. simpl. rewrite app_with_ds. split; [done|]. split.
    + simpl. f_equal. unfold SaveAPIKey in Es. destruct (match Key_Permissions _ with Some l => _ | None => _ end); [|by injection Es as <- _].
      unfold statement in Es. destruct (faults ds) as [|[f|] fs]; simpl in Es; by simplify_eq.
    + intros i. rewrite key_at_revoke. rewrite key_at_put by done. destruct (decide (i = key_id_of generated)) as [->|Hne]; [right; split; [done|by exists generated]|by left].
  - intros [= <- <-] Hn. exfalso. apply Hn. unfold answers, writeJSON. right. left.
Qed.

(** A key that was handed out works, now and after a restart, and one that
    was not is nowhere.  When the creation of a key is answered 201, the plaintext
    in the answer authenticates with the requested permissions under the new id,
    on this server and on one started later from the same tables, until it
    expires (provided no other key matches the same text).  When it is answered
    otherwise, no key is left in the tables and none in the manager. *)
Theorem created_key_survives_restart s s' am ds req d ops (c : ServerConfig) now t1 t2 :
  s_auth s = Managed am -> auth_ok am -> app_ds (s_app s) = Some ds ->
  EnableAuth c = true -> APIKeys c <> [] ->
  handleCreateAuthKey error_text s (Ok req) d = (s', ops) ->
  (answers ops StatusCreated -> exists plaintext generated am' ds', let id := key_id_of generated in
     GenerateAPIKey (d_key d) = Ok plaintext /\ GenerateAPIKey (d_id d) = Ok generated /\
     s_auth s' = Managed am' /\ app_ds (s_app s') = Some ds' /\
     (api_keys ds !! id = None -> faults ds' = [] -> (forall t, ttl_expiry d (AR_TTLDays req) = Some t -> t1 <= t /\ t2 <= t) ->
      exists c2 am2 a2, auth_of (A := A) c (s_app s') now = (c2, Managed am2, a2) /\
      forall m, m = am' \/ m = am2 ->
        (forall id' k', id' <> id -> key_at m id' = Some k' -> CompareHashAndPassword (K_HashedKey k') plaintext = false) ->
        (Authenticate visit m t1 t2 plaintext).2 = Some (AR_Permissions req, id))) /\
  (~ answers ops StatusCreated -> exists am', s_auth s' = Managed am' /\ api_keys <$> app_ds (s_app s') = Some (api_keys ds) /\
     forall i, key_at am' i = key_at am i \/ (key_at am' i = None /\ exists generated, GenerateAPIKey (d_id d) = Ok generated /\ i = key_id_of generated)).
Proof.
  intros Ha Hok Hds Hen Hkeys Hh. split; [|by eapply create_failure]. intros Hc.
  destruct (create_success s s' am ds req d ops Ha Hok Hds Hh Hc) as (plaintext & generated & k & ds' & Hp & Hg & Ha' & Hds' & Hs & Hm & Hid & Hperm & Hexp).
  exists plaintext, generated, (put_key am (key_id_of generated) k), ds'. cbv zeta.
  split; [done|]. split; [done|]. split; [done|]. split; [done|]. intros Hfresh Hf Htime. rewrite <- Hid in *.
  destruct (scan_saved ds ds' k Hs Hfresh) as [_ (row & Hrow & Hscan)].
  destruct (auth_of_loads c (s_app s') ds' now (K_ID k) row Hen Hkeys Hds' Hf) as (c2 & am2 & a2 & H1 & H2 & H3).
  { rewrite Hrow. apply lookup_insert_eq. }
  exists c2, am2, a2. split; [done|].
  assert (plaintext <> "") as Hne by (unfold GenerateAPIKey in Hp; destruct (d_key d); [injection Hp as <-; done|done]).
  assert (forall t k', K_ExpiresAt k' = K_ExpiresAt k -> t = t1 \/ t = t2 -> is_expired k' t = false) as Hx.
  { intros t k' He Ht. unfold is_expired. rewrite He, Hexp. destruct (ttl_expiry d (AR_TTLDays req)) as [u|]; [|done].
    destruct (Htime u eq_refl). apply Z.ltb_ge. destruct Ht; lia. }
  rewrite Hscan in H3. intros m [->| ->] Ho; rewrite <- Hperm.
  - refine (authenticate_only _ (K_ID k) k plaintext t1 t2 _ Hne _ Hm Ho _ _); [by apply put_key_ok| |by apply Hx; [|left]|by apply Hx; [|right]].
    rewrite key_at_put by done. by rewrite decide_True.
  - exact (authenticate_only am2 (K_ID k) _ plaintext t1 t2 H2 Hne H3 Hm Ho (Hx t1 _ eq_refl (or_introl eq_refl)) (Hx t2 _ eq_refl (or_intror eq_refl))).
Qed.

(** ** Revoking a key *)

(** After a revocation that succeeded the id names no key, here or on disk; one
    that failed on the stored copy has still taken the key out of the manager. *)
Lemma revoke_effect s s' am keyID ops : s_auth s = Managed am -> auth_ok am -> handleRevokeAuthKey error_text s keyID = (s', ops) ->
  (exists am', s_auth s' = Managed am' /\ key_at am' keyID = None) /\
  (answers ops StatusOK -> forall ds', app_ds (s_app s') = Some ds' -> api_keys ds' !! keyID = None).
Proof.
  intros Ha Hok. unfold handleRevokeAuthKey. rewrite Ha. unfold GetAPIKey. destruct (key_at am keyID) as [k|] eqn:Ek.
  - destruct (RevokeAPIKey am keyID) as [am' err] eqn:Er.
    assert (err = None) as -> by (unfold RevokeAPIKey in Er; unfold key_at in Ek; destruct (am_keys am !! keyID); [by injection Er|done]).
    assert (key_at am' keyID = None) as Hn by (replace am' with (RevokeAPIKey am keyID).1 by (by rewrite Er); rewrite key_at_revoke; by rewrite decide_True).
    unfold revoke_stored. simpl. destruct (app_ds (s_app s)) as [ds|] eqn:Eds.
    + unfold DeleteAPIKey, statement. destruct (faults ds) as [|[f|] fs]; simpl; intros [= <- <-]; (split; [by exists am'|]); simpl.
      * intros _ ds'. rewrite app_with_ds. intros [= <-]. simpl. apply lookup_delete_eq.
      * intros Hc%logged_error_status. done.
      * intros _ ds'. rewrite app_with_ds. intros [= <-]. simpl. apply lookup_delete_eq.
    + intros [= <- <-]. split; [by exists am'|]. simpl. rewrite Eds. done.
  - unfold revoke_stored. simpl. destruct (app_ds (s_app s)) as [ds|] eqn:Eds; [|intros [= <- <-]; split; [by exists am|intros Hc%error_status; done]].
    unfold InstanceStore.ListAPIKeys. destruct (statement ds) as [ds1 [e|]] eqn:E1; [intros [= <- <-]; split; [by exists am|intros Hc%logged_error_status; done]|].
    destruct (existsb _ _); simpl; [|intros [= <- <-]; split; [by exists am|intros Hc%error_status; done]].
    unfold DeleteAPIKey. destruct (statement ds1) as [ds2 [e|]]; intros [= <- <-]; (split; [by exists am|]); [intros Hc%logged_error_status; done|].
    intros _ ds'. simpl. rewrite app_with_ds. intros [= <-]. simpl. apply lookup_delete_eq.
Qed.

(** ** Starting *)

Lemma or_positive_pos d x : 0 < d -> 0 < or_positive d x.
Proof. unfold or_positive. destruct (Z.leb_spec x 0); lia. Qed.

(** A server without authentication was asked for explicitly, and the rate
    limits of every server are positive. *)
Lemma NewServer_safe config (a : A) now s : NewServer (L := L) config a now = Ok s ->
  (EnableAuth (s_config s) = false -> exists c, config = Some c /\ AllowNoAuth c = true) /\
  (EnableAuth (s_config s) = true -> s_auth s <> NoProvider /\ APIKeys (s_config s) = []) /\
  0 < RequestsPerSecond (s_config s) /\ 0 < BurstSize (s_config s).
Proof.
  unfold NewServer. set (c := with_defaults (default default_config config)).
  assert (0 < RequestsPerSecond c /\ 0 < BurstSize c) as [Hr Hb].
  { split; by apply or_positive_pos. }
  assert (AllowNoAuth c = true -> exists c0, config = Some c0 /\ AllowNoAuth c0 = true) as Hno.
  { unfold c. destruct config as [c0|]; [|done]. simpl. by exists c0. }
  clearbody c. unfold auth_of. destruct (EnableAuth c) eqn:Ee, (AllowNoAuth c) eqn:En; cbn [negb andb]; [| | |done].
  - destruct (APIKeys c) as [|k keys] eqn:Ek; [intros [= <-]; by repeat split; auto|].
    destruct (match app_ds a with None => _ | Some _ => _ end) as [am a']. intros [= <-]. simpl. by repeat split.
  - destruct (APIKeys c) as [|k keys] eqn:Ek; [intros [= <-]; simpl; rewrite Ee; by repeat split|].
    destruct (match app_ds a with None => _ | Some _ => _ end) as [am a']. intros [= <-]. simpl. by repeat split.
  - intros [= <-]. simpl. rewrite Ee. by repeat split; auto.
Qed.
End facts.
