(* ===== verification/AuthRuns.v ===== *)
(** * Authentication on sample requests

    A hash that names its password, a token bucket over rationals that keeps the
    laws of [RateLimiterLaws], and the theorems on authentication at work. *)

From stdpp Require Import base list gmap strings pretty relations.
From Stdlib Require Import Ascii ZArith QArith Lqa Lia.
From S2P Require Import Prelude GoStrings GoText GoTime GoHttp Auth AuthFacts Middleware MiddlewareFacts AuthLimits Jobs Backup InstanceStore InstanceStoreFacts ApiKeys ApiKeysFacts.

Local Open Scope Z_scope.

(** ** A hash *)

#[export] Instance plain_bcrypt : Bcrypt := {
  GenerateFromPassword salt key := if bool_decide (length (bytes key) <= 72)%nat then Ok ("$" +:+ key) else Err (Errorf "password too long" []);
  CompareHashAndPassword h key := streq h ("$" +:+ key)
}.
#[export] Instance plain_bcrypt_laws : BcryptLaws.
Proof. split. intros salt key h. simpl. case_bool_decide; [|done]. intros [= <-]. by apply streq_true. Qed.

(** ** A token bucket *)

Local Open Scope Q_scope.

Record bucket := { bk_rate : Q; bk_burst : Z; bk_level : Q; bk_last : Z }.

(** Between zero and the burst. *)
Definition clamp (b x : Q) : Q := if Qle_bool x 0 then 0 else if Qle_bool b x then (if Qle_bool b 0 then 0 else b) else x.

Lemma clamp_cases b x : (x <= 0 /\ clamp b x = 0) \/ (0 < x /\ b <= x /\ b <= 0 /\ clamp b x = 0) \/
  (0 < x /\ b <= x /\ 0 < b /\ clamp b x = b) \/ (0 < x /\ x < b /\ clamp b x = x).
Proof.
  unfold clamp. destruct (Qle_bool x 0) eqn:E1; [left; by apply Qle_bool_iff in E1|].
  assert (0 < x) by (apply Qnot_le_lt; intros Hx%Qle_bool_iff; congruence). right.
  destruct (Qle_bool b x) eqn:E2; [apply Qle_bool_iff in E2|].
  - destruct (Qle_bool b 0) eqn:E3; [left; by apply Qle_bool_iff in E3|]. right; left.
    assert (0 < b) by (apply Qnot_le_lt; intros Hx%Qle_bool_iff; congruence). done.
  - right; right. assert (x < b) by (apply Qnot_le_lt; intros Hx%Qle_bool_iff; congruence). done.
Qed.

Definition level_at (l : bucket) (t : Z) : Q := clamp (inject_Z (bk_burst l)) (bk_level l + bk_rate l * seconds (Z.max 0 (t - bk_last l))).

#[export] Instance bucket_limiter : RateLimiter bucket := {
  NewLimiter r b now := {| bk_rate := r; bk_burst := b; bk_level := inject_Z b; bk_last := now |};
  Allow l now := if Qle_bool 1 (level_at l now)
                 then ({| bk_rate := bk_rate l; bk_burst := bk_burst l; bk_level := level_at l now - 1; bk_last := now |}, true)
                 else (l, false);
  Tokens := level_at
}.

Lemma seconds_le a b : (a <= b)%Z -> seconds a <= seconds b.
Proof. unfold seconds, Qle. simpl. lia. Qed.

Lemma elapsed_bound t t' last : (t <= t')%Z ->
  seconds (Z.max 0 (t - last)) <= seconds (Z.max 0 (t' - last)) /\
  seconds (Z.max 0 (t' - last)) <= seconds (Z.max 0 (t - last)) + seconds (t' - t).
Proof. intros Ht. rewrite <- seconds_add. split; apply seconds_le; lia. Qed.

Lemma level_refill l t t' : (t <= t')%Z -> 0 <= bk_rate l ->
  level_at l t <= level_at l t' /\ level_at l t' <= level_at l t + bk_rate l * seconds (t' - t).
Proof.
  intros Ht Hr. unfold level_at. destruct (elapsed_bound t t' (bk_last l) Ht) as [H1 H2].
  set (b := inject_Z (bk_burst l)). set (d := seconds (Z.max 0 (t - bk_last l))) in *.
  set (d' := seconds (Z.max 0 (t' - bk_last l))) in *. set (e := seconds (t' - t)) in *.
  assert (bk_rate l * d <= bk_rate l * d') as H3 by nra. assert (bk_rate l * d' <= bk_rate l * d + bk_rate l * e) as H4 by nra.
  assert (0 <= bk_rate l * e) as H5 by (apply Qmult_le_0_compat; [done|apply seconds_nonneg; lia]).
  destruct (clamp_cases b (bk_level l + bk_rate l * d)) as [(?&->)|[(?&?&?&->)|[(?&?&?&->)|(?&?&->)]]];
  destruct (clamp_cases b (bk_level l + bk_rate l * d')) as [(?&->)|[(?&?&?&->)|[(?&?&?&->)|(?&?&->)]]]; lra.
Qed.

#[export] Instance bucket_laws : RateLimiterLaws bucket.
Proof.
  refine {| rate_of := bk_rate; burst_of := bk_burst |}; try done.
  - intros l t. simpl. by destruct (Qle_bool 1 (level_at l t)).
  - intros l t. simpl. by destruct (Qle_bool 1 (level_at l t)).
  - intros l t Hb. simpl. unfold level_at. assert (0 <= inject_Z (bk_burst l)) by (unfold Qle; simpl; lia).
    destruct (clamp_cases (inject_Z (bk_burst l)) (bk_level l + bk_rate l * seconds (Z.max 0 (t - bk_last l)))) as [(?&->)|[(?&?&?&->)|[(?&?&?&->)|(?&?&->)]]]; lra.
  - intros l t t'. apply level_refill.
  - intros l t. simpl. unfold level_at.
    destruct (clamp_cases (inject_Z (bk_burst l)) (bk_level l + bk_rate l * seconds (Z.max 0 (t - bk_last l)))) as [(?&->)|[(?&?&?&->)|[(?&?&?&->)|(?&?&->)]]]; lra.
  - intros l t Ht. simpl in *. rewrite (proj2 (Qle_bool_iff _ _) Ht). split; [done|]. simpl.
    assert (level_at l t <= inject_Z (bk_burst l)) as Hb.
    { unfold level_at in *. destruct (clamp_cases (inject_Z (bk_burst l)) (bk_level l + bk_rate l * seconds (Z.max 0 (t - bk_last l)))) as [(?&E)|[(?&?&?&E)|[(?&?&?&E)|(?&?&E)]]]; rewrite E in *; lra. }
    set (lv := level_at l t) in *. unfold level_at. simpl. rewrite Z.sub_diag.
    assert (seconds (Z.max 0 0) == 0) as Hz by reflexivity. set (e := seconds (Z.max 0 0)) in *.
    assert (bk_rate l * e == 0) as He by (rewrite Hz; lra).
    destruct (clamp_cases (inject_Z (bk_burst l)) (lv - 1 + bk_rate l * e)) as [(?&->)|[(?&?&?&->)|[(?&?&?&->)|(?&?&->)]]]; lra.
  - intros l t Ht. simpl in *. destruct (Qle_bool 1 (level_at l t)) eqn:E; [|split; [done|reflexivity]].
    apply Qle_bool_iff in E. lra.
Qed.

Local Open Scope Z_scope.

(** ** The samples *)

Definition any_order (m : gmap string nat) : list (string * nat) := map_to_list m.
Lemma any_order_perm m : any_order m ≡ₚ map_to_list m.
Proof. done. Qed.

Definition two_keys : AuthManager :=
  (AddAPIKey (AddAPIKey NewAuthManager 0 10 "key-a" "ci" "secret-a" ["read"] None).1 0 20 "key-b" "ops" "secret-b" ["*"] (Some 100)).1.
Lemma two_keys_ok : auth_ok two_keys.
Proof. apply AddAPIKey_ok, AddAPIKey_ok, NewAuthManager_ok. Qed.

(** Between the scan and the update the key is revoked: the second region finds
    its id gone. *)
Lemma authenticated_key_is_live_witness :
  exists a k0, scan_keys any_order two_keys 30 "secret-a" = Some (a, false) /\ am_heap two_keys !! a = Some k0 /\
    is_ok (confirm_key (RevokeAPIKey two_keys "key-a").1 40 a).2 = false /\
    (forall err, confirm_key (RevokeAPIKey two_keys "key-a").1 40 a = ((RevokeAPIKey two_keys "key-a").1, Err err) ->
     am_keys (RevokeAPIKey two_keys "key-a").1 !! "key-a" <> Some a \/
     exists cur, key_at (RevokeAPIKey two_keys "key-a").1 "key-a" = Some cur /\ is_expired cur 40 = true).
Proof.
  assert (scan_keys any_order two_keys 30 "secret-a" = Some (0%nat, false)) as Hs by (vm_compute; reflexivity).
  destruct (am_heap two_keys !! 0%nat) as [k0|] eqn:E; [|vm_compute in E; discriminate].
  assert (K_ID k0 = "key-a") as Hid by (vm_compute in E; by injection E as <-).
  exists 0%nat, k0. split; [exact Hs|]. split; [exact E|]. split; [vm_compute; reflexivity|]. intros err He.
  pose proof (authenticated_key_is_live any_order any_order_perm two_keys (RevokeAPIKey two_keys "key-a").1 30 40 "secret-a" 0%nat
    k0 two_keys_ok Hs E (rtc_once _ _ (a_revoke two_keys "key-a"))) as Ht.
  rewrite He, Hid in Ht. exact Ht.
Defined.

Definition api_server (p : AuthProvider) : Server Tables bucket :=
  {| s_config := proxied []; s_auth := p; rateLimiters := ∅; authRateLimiters := ∅; s_log := [];
     s_app := {| instances := ∅; events := []; next_event := 1; jobs := ∅; api_keys := ∅; backup_rows := ∅; faults := [] |} |}.
Definition request (method path key : string) : Request :=
  {| R_Method := method; R_Path := path; R_RemoteAddr := "192.0.2.1:5000"; R_Header := [("X-Api-Key", key)]; R_Query := [];
     R_PathValue := []; R_Permissions := None; R_APIKeyID := None; R_BodyLimit := None |}.

Definition greet : handler (A := Tables) (L := bucket) := fun s tm r => (s, (writeJSON StatusOK (JSONValue "hello"), Returned)).
Definition status_of (res : Server Tables bucket * (list wop * outcome)) : option Z := w_status (finish (run_writer new_response res.2.1)).

(** A key scoped to reading may list, and may not run commands. *)
Example read_key_reads :
  status_of (withMiddleware any_order greet (api_server (Managed two_keys)) (same_instant 30) (request "GET" "/api/v1/instances" "secret-a")) = Some 200 /\
  status_of (withMiddleware any_order greet (api_server (Managed two_keys)) (same_instant 30) (request "POST" "/api/v1/instances/web/exec" "secret-a")) = Some 403 /\
  status_of (withMiddleware any_order greet (api_server (Managed two_keys)) (same_instant 30) (request "GET" "/api/v1/instances" "secret-x")) = Some 401 /\
  status_of (withMiddleware any_order greet (api_server (Managed two_keys)) (same_instant 200) (request "GET" "/api/v1/instances" "secret-b")) = Some 401.
Proof. vm_compute. done. Qed.

Lemma requests_are_authorized_witness :
  exists s1 r1, (public (proxied []) (request "GET" "/api/v1/instances" "secret-a") \/
      authorized (proxied []) (Managed two_keys) (same_instant 30) (request "GET" "/api/v1/instances" "secret-a") r1) /\
    forall h h' : handler (A := Tables) (L := bucket), h s1 (same_instant 30) r1 = h' s1 (same_instant 30) r1 ->
      withMiddleware any_order h (api_server (Managed two_keys)) (same_instant 30) (request "GET" "/api/v1/instances" "secret-a") =
      withMiddleware any_order h' (api_server (Managed two_keys)) (same_instant 30) (request "GET" "/api/v1/instances" "secret-a").
Proof.
  destruct (requests_are_authorized any_order any_order_perm (api_server (Managed two_keys)) (same_instant 30)
    (request "GET" "/api/v1/instances" "secret-a") two_keys_ok eq_refl) as [Hs|Hs]; [|exact Hs].
  exfalso. specialize (Hs greet (fun s tm r => (s, (writeError StatusNotFound "no", Returned)))).
  apply (f_equal status_of) in Hs. vm_compute in Hs. discriminate.
Defined.

(** Four wrong keys in a row: the fourth is not looked at. *)
Definition guess (s : Server Tables bucket) (t : Z) : Server Tables bucket := (verify any_order s (same_instant t) "192.0.2.1" "wrong").1.
Definition three_guesses : Server Tables bucket := guess (guess (guess (api_server (Managed two_keys)) 0) 1) 2.
Example fourth_is_refused : wrong any_order three_guesses (same_instant 3) "192.0.2.1" "wrong" = false /\
  (verify any_order three_guesses (same_instant 3) "192.0.2.1" "wrong").2 = Some (None, true).
Proof. vm_compute. done. Qed.


(** ** Keys over HTTP *)

#[export] Instance tables_store : HasStore Tables := { app_ds := Some; with_ds _ d := d }.
#[export] Instance tables_store_laws : HasStoreLaws Tables.
Proof. by split. Qed.

#[local] Instance json_perms : Json (list string) := {
  Marshal l := if bool_decide (l = ["read"]) then Ok "[read]" else Err (Errorf "unsupported" []);
  Unmarshal t := if streq t "[read]" then Ok ["read"] else Err (Errorf "unsupported" [])
}.
#[local] Instance json_perms_laws : JsonLaws (list string).
Proof. split. intros l t. simpl. case_bool_decide; [|done]. subst. by intros [= <-]. Qed.
Lemma perms_never_null (l : list string) : Marshal l <> Ok "null".
Proof. simpl. by case_bool_decide. Qed.

Definition some_bytes (c : ascii) : list ascii := repeat c 32.
Definition sample_draws : draws := {| d_key := Ok (some_bytes "k"); d_id := Ok (some_bytes "i"); d_salt := 1; d_expiry := 50; d_created := 50 |}.
Definition read_request : authAddAPIKeyRequest := {| AR_Name := "ci"; AR_Permissions := ["read"]; AR_TTLDays := 1 |}.
Definition text_of_error (e : error) : string := "error".
Definition with_admin_key : ServerConfig := with_auth (proxied []) true ["admin-secret"].

Definition created : Server Tables bucket * list wop :=
  handleCreateAuthKey text_of_error (api_server (Managed two_keys)) (Ok read_request) sample_draws.
Definition new_key : string := "hsp_" +:+ of_bytes (EncodeToString_l (some_bytes "k")).
Definition new_id : string := key_id_of ("hsp_" +:+ of_bytes (EncodeToString_l (some_bytes "i"))).

(** The only other key of the successor is the configured one. *)
Definition successor : AuthManager := match auth_of (A := Tables) with_admin_key (s_app created.1) 60 with (_, Managed am, _) => am | _ => NewAuthManager end.

Lemma successor_others :
  forallb (fun p => streq p.1 new_id || match am_heap successor !! p.2 with
                                        | Some k => negb (CompareHashAndPassword (K_HashedKey k) new_key)
                                        | None => true
                                        end) (map_to_list (am_keys successor)) = true.
Proof. vm_compute. reflexivity. Qed.

Lemma successor_distinct id k : id <> new_id -> key_at successor id = Some k -> CompareHashAndPassword (K_HashedKey k) new_key = false.
Proof.
  intros Hne. unfold key_at. destruct (am_keys successor !! id) as [a|] eqn:E; [|done]. simpl. intros Hk.
  pose proof (proj1 (Forall_forall _ _) (proj1 (forallb_true_iff _ _) successor_others) (id, a) ltac:(by apply elem_of_map_to_list)) as Hf.
  cbn [fst snd] in Hf. rewrite Hk, (proj2 (streq_false id new_id) Hne) in Hf. by apply negb_true_iff in Hf.
Qed.

(** The key of the answer is accepted by this server and by its successor. *)
Lemma created_key_survives_restart_witness :
  answers created.2 StatusCreated /\
  exists c2 am2 a2, auth_of (A := Tables) with_admin_key (s_app created.1) 60 = (c2, Managed am2, a2) /\
    (Authenticate any_order am2 70 80 new_key).2 = Some (["read"], new_id).
Proof.
  assert (answers created.2 StatusCreated) as Hc by (unfold answers; vm_compute; right; left).
  split; [exact Hc|].
  assert (app_ds (s_app (api_server (Managed two_keys))) = Some (s_app (api_server (Managed two_keys)))) as Happ by reflexivity.
  destruct (proj1 (created_key_survives_restart (A := Tables) (L := bucket) any_order text_of_error any_order_perm perms_never_null (api_server (Managed two_keys)) created.1
    two_keys (s_app (api_server (Managed two_keys))) read_request sample_draws created.2 with_admin_key 60 70 80 eq_refl two_keys_ok Happ eq_refl ltac:(done) (surjective_pairing created)) Hc)
    as (plaintext & generated & am' & ds' & Hp & Hg & Ha & Hds & Hr).
  assert (plaintext = new_key) as -> by (vm_compute in Hp; by injection Hp).
  assert (key_id_of generated = new_id) as Hid by (vm_compute in Hg; injection Hg as <-; reflexivity).
  destruct Hr as (c2 & am2 & a2 & Hof & Hauth).
  - rewrite Hid. reflexivity.
  - vm_compute in Hds. by injection Hds as <-.
  - intros t Ht. vm_compute in Ht. injection Ht as <-. lia.
  - exists c2, am2, a2. split; [exact Hof|]. rewrite <- Hid. apply Hauth; [by right|].
    rewrite Hid. assert (am2 = successor) as -> by (unfold successor; by rewrite Hof). exact successor_distinct.
Defined.
