(* ===== verification/InstanceHandlers.v ===== *)
(** * The instance handlers of the API (internal/api/instance_handlers.go) and what
      server.go does with instances

    Each handler is a function of the application (the tables, the registered
    providers, the machine, the firewall), the time, and the request with its
    body decoded; it gives the application and what it wrote.  A provider is the
    class [ProviderOps] of [Registry] with the queries of [ProviderQueries]; the
    firewall is the class [FirewallOps]. *)

From stdpp Require Import base list gmap strings.
From Stdlib Require Import Ascii ZArith QArith Lia.
From S2P Require Import Prelude GoStrings GoText GoTime GoHttp ProviderTypes Validation ZfsNames Registry Jobs Backup Auth Middleware InstanceStore ApiKeys.

Local Open Scope Z_scope.

(** ** Interfaces *)

(** What of [provider.InstanceInfo] the handlers read; addresses as text. *)
Record InstanceInfo := { Info_State : string; Info_Spec : InstanceSpec; Info_IPAddresses : list string }.

Record ResourceSpec := {
  RS_CPUs : Z; RS_MemoryMB : Z; RS_DiskGB : Z; RS_MaxProc : Z; RS_ReadBPS : Z; RS_WriteBPS : Z; RS_ReadIOPS : Z; RS_WriteIOPS : Z
}.

(** The optional interfaces are options: the type assertion fails on [None]. *)
Class ProviderQueries (P W : Type) := {
  GetInstanceState : P -> W -> InstanceHandle -> result string;
  GetInstanceInfo : P -> W -> InstanceHandle -> result InstanceInfo;
  RestartInstance : P -> W -> InstanceHandle -> W * option error;
  SetInstanceResources : P -> W -> InstanceHandle -> ResourceSpec -> W * option error;
  ReconfigureProvider : P -> option (W -> InstanceHandle -> InstanceSpec -> W * option error);
  InstanceAddressProvider : P -> option (W -> InstanceHandle -> result (list string))
}.

Class FirewallOps (F W : Type) := { RemoveAllRules : F -> W -> string -> F * W * option error }.

(** ** Merging specifications *)

Definition or_zero (declared discovered : Z) : Z := if 0 <? discovered then discovered else declared.
Definition or_empty (declared discovered : string) : string := if streq discovered "" then declared else discovered.
Definition or_nil {X} (declared discovered : list X) : list X := match discovered with [] => declared | _ => discovered end.

Definition mergeInstanceSpec (declared discovered : InstanceSpec) : InstanceSpec :=
  {| Spec_Name := or_empty (Spec_Name declared) (Spec_Name discovered);
     Spec_Description := or_empty (Spec_Description declared) (Spec_Description discovered);
     Spec_CPUs := or_zero (Spec_CPUs declared) (Spec_CPUs discovered);
     Spec_MemoryMB := or_zero (Spec_MemoryMB declared) (Spec_MemoryMB discovered);
     Spec_MaxProc := Spec_MaxProc declared; Spec_ReadBPS := Spec_ReadBPS declared; Spec_WriteBPS := Spec_WriteBPS declared;
     Spec_ReadIOPS := Spec_ReadIOPS declared; Spec_WriteIOPS := Spec_WriteIOPS declared;
     Spec_Image := or_empty (Spec_Image declared) (Spec_Image discovered);
     Spec_OSType := or_empty (Spec_OSType declared) (Spec_OSType discovered);
     Spec_OSVersion := or_empty (Spec_OSVersion declared) (Spec_OSVersion discovered);
     Spec_Arch := or_empty (Spec_Arch declared) (Spec_Arch discovered); Spec_CloudInit := Spec_CloudInit declared;
     Spec_Bootloader := or_empty (Spec_Bootloader declared) (Spec_Bootloader discovered);
     Spec_Disks := or_nil (Spec_Disks declared) (Spec_Disks discovered);
     Spec_Networks := or_nil (Spec_Networks declared) (Spec_Networks discovered);
     Spec_ProviderConfig := or_nil (Spec_ProviderConfig declared) (Spec_ProviderConfig discovered);
     Spec_Labels := or_nil (Spec_Labels declared) (Spec_Labels discovered);
     Spec_Annotations := or_nil (Spec_Annotations declared) (Spec_Annotations discovered) |}.

(** ** Authority over the host *)

Definition privilegedProviderConfigKey (key : string) : bool :=
  let key := ToLower key in
  if existsb (streq key) ["exec.clean"; "exec.timeout"; "exec.fib"; "exec.jail_user"] then false
  else if existsb (streq key) ["path"; "devfs_ruleset"; "securelevel"; "enforce_statfs"; "allow.vmm"] then true
  else HasPrefix key "exec." || HasPrefix key "allow.mount" || streq key "mount" || HasPrefix key "mount.".

Definition lookup_value (k : string) (config : list (string * value)) : option value :=
  snd <$> List.find (fun p => streq p.1 k) config.

(** [config] is in the order Go visits the map. *)
Definition configValue (config : list (string * value)) (want : string) : option value :=
  match lookup_value want config with
  | Some v => Some v
  | None => snd <$> List.find (fun p => EqualFold p.1 want) config
  end.

Definition mountEntries (v : option value) : list (list (string * value)) :=
  match v with
  | Some (VTypedSlice items) | Some (VSlice items) => omap (fun m => match m with VMap e => Some e | _ => None end) items
  | _ => []
  end.

Definition host_path (mount : list (string * value)) : string :=
  match lookup_value "host_path" mount with Some (VString s) => s | _ => "" end.

Definition privilegedProviderConfig (config : list (string * value)) : string :=
  match List.find (fun p => privilegedProviderConfigKey p.1) config with
  | Some (key, _) => key
  | None =>
      match List.find (fun m => negb (streq (host_path m) "")) (mountEntries (configValue config "mounts")) with
      | Some m => "a mount from " +:+ host_path m
      | None => ""
      end
  end.

Definition reservedHandleMetadata : list string :=
  ["zfs_dataset"; "vm_dir"; "qmp_socket"; "mountpoint"; "disk_path"; "vnet_epair"; "os_release"].

(** ** Small updates *)

(** [m[k] = v] on a map kept as the list of its entries. *)
Fixpoint upsert {V} (k : string) (v : V) (m : list (string * V)) : list (string * V) :=
  match m with
  | [] => [(k, v)]
  | (k', v') :: m => if streq k' k then (k, v) :: m else (k', v') :: upsert k v m
  end.
Definition merge_into {V} (m new : list (string * V)) : list (string * V) := foldl (fun m p => upsert p.1 p.2 m) m new.

Definition with_state (i : Instance) (state : string) : Instance :=
  {| In_ID := In_ID i; In_Name := In_Name i; In_Provider := In_Provider i; In_State := state; In_Spec := In_Spec i; In_Handle := In_Handle i;
     In_CreatedAt := In_CreatedAt i; In_UpdatedAt := In_UpdatedAt i; In_StartedAt := In_StartedAt i; In_Labels := In_Labels i;
     In_Annotations := In_Annotations i; In_Backup := In_Backup i |}.
Definition with_spec (i : Instance) (spec : InstanceSpec) : Instance :=
  {| In_ID := In_ID i; In_Name := In_Name i; In_Provider := In_Provider i; In_State := In_State i; In_Spec := spec; In_Handle := In_Handle i;
     In_CreatedAt := In_CreatedAt i; In_UpdatedAt := In_UpdatedAt i; In_StartedAt := In_StartedAt i; In_Labels := In_Labels i;
     In_Annotations := In_Annotations i; In_Backup := In_Backup i |}.
Definition with_metadata (i : Instance) (m : list (string * value)) : Instance :=
  {| In_ID := In_ID i; In_Name := In_Name i; In_Provider := In_Provider i; In_State := In_State i; In_Spec := In_Spec i;
     In_Handle := {| Handle_ID := Handle_ID (In_Handle i); Handle_Provider := Handle_Provider (In_Handle i); Handle_Metadata := m |};
     In_CreatedAt := In_CreatedAt i; In_UpdatedAt := In_UpdatedAt i; In_StartedAt := In_StartedAt i; In_Labels := In_Labels i;
     In_Annotations := In_Annotations i; In_Backup := In_Backup i |}.
Definition spec_with (s : InstanceSpec) (desc : string) (cpus mem : Z) (config : list (string * value)) (nets : list NetworkSpec) : InstanceSpec :=
  {| Spec_Name := Spec_Name s; Spec_Description := desc; Spec_CPUs := cpus; Spec_MemoryMB := mem; Spec_MaxProc := Spec_MaxProc s;
     Spec_ReadBPS := Spec_ReadBPS s; Spec_WriteBPS := Spec_WriteBPS s; Spec_ReadIOPS := Spec_ReadIOPS s; Spec_WriteIOPS := Spec_WriteIOPS s;
     Spec_Image := Spec_Image s; Spec_OSType := Spec_OSType s; Spec_OSVersion := Spec_OSVersion s; Spec_Arch := Spec_Arch s;
     Spec_CloudInit := Spec_CloudInit s; Spec_Bootloader := Spec_Bootloader s; Spec_Disks := Spec_Disks s; Spec_Networks := nets;
     Spec_ProviderConfig := config; Spec_Labels := Spec_Labels s; Spec_Annotations := Spec_Annotations s |}.
Definition spec_config (s : InstanceSpec) (config : list (string * value)) : InstanceSpec :=
  spec_with s (Spec_Description s) (Spec_CPUs s) (Spec_MemoryMB s) config (Spec_Networks s).

Definition net_address (n : NetworkSpec) (ip : string) : NetworkSpec :=
  {| Net_ID := Net_ID n; Net_Type := Net_Type n; Net_Bridge := Net_Bridge n; Net_BridgeFlags := Net_BridgeFlags n; Net_VLAN := Net_VLAN n;
     Net_MAC := Net_MAC n; Net_IPv4 := ip; Net_IPv6 := Net_IPv6 n; Net_IPPool := Net_IPPool n; Net_MTU := Net_MTU n |}.
Definition no_network : NetworkSpec :=
  {| Net_ID := ""; Net_Type := ""; Net_Bridge := ""; Net_BridgeFlags := []; Net_VLAN := 0; Net_MAC := ""; Net_IPv4 := "";
     Net_IPv6 := ""; Net_IPPool := ""; Net_MTU := 0 |}.

(** The first network without an address takes this one. *)
Fixpoint fill_first (ip : string) (nets : list NetworkSpec) : list NetworkSpec :=
  match nets with
  | [] => []
  | n :: rest => if streq (Net_IPv4 n) "" then net_address n ip :: rest else n :: fill_first ip rest
  end.
Definition fillFirstEmptyAddress (i : Instance) (ips : list string) : Instance :=
  match ips with
  | [] => i
  | ip :: _ =>
      let nets := match Spec_Networks (In_Spec i) with [] => [net_address no_network ip] | nets => fill_first ip nets end in
      let s := In_Spec i in
      with_spec i (spec_with s (Spec_Description s) (Spec_CPUs s) (Spec_MemoryMB s) (Spec_ProviderConfig s) nets)
  end.

Definition createdInstanceRecord (handle : InstanceHandle) (spec : InstanceSpec) (providerName : string) : Instance :=
  {| In_ID := Handle_ID handle; In_Name := Spec_Name spec; In_Provider := providerName; In_State := StateStopped; In_Spec := spec;
     In_Handle := handle; In_CreatedAt := 0; In_UpdatedAt := 0; In_StartedAt := None; In_Labels := list_to_map (Spec_Labels spec);
     In_Annotations := list_to_map (Spec_Annotations spec); In_Backup := None |}.

(** ** Handlers *)

Section handlers.
Context {P W F : Type} `{IsProvider P} `{ProviderOps P W} `{ProviderQueries P W} `{FirewallOps F W}.
Context `{Json InstanceSpec} `{Json InstanceHandle} `{Json labels} `{Json InstanceBackupConfig}.
Context (json_extract : string -> string -> option string).
Context (error_text : error -> string) (ParseFloat : string -> option Q) (encode_instance : Instance -> string).

Record App := { ap_ds : Tables; ap_registry : Registry (P := P); ap_world : W; ap_firewall : option F }.

Definition set_store (a : App) (d : Tables) : App :=
  {| ap_ds := d; ap_registry := ap_registry a; ap_world := ap_world a; ap_firewall := ap_firewall a |}.
Definition set_world (a : App) (w : W) : App :=
  {| ap_ds := ap_ds a; ap_registry := ap_registry a; ap_world := w; ap_firewall := ap_firewall a |}.

Abbreviation logged := (writeLoggedError error_text).

(** ** Lookup and refresh *)

Definition lookupInstance (a : App) (idOrName : string) : App * result Instance :=
  let '(d, r) := GetInstance (ap_ds a) idOrName in
  match r with
  | Ok i => (set_store a d, Ok i)
  | Err _ =>
      let '(d, r) := GetInstanceByName d idOrName in
      (set_store a d, match r with
                      | Ok (Some i) => Ok i
                      | _ => Err (Errorf "instance not found: %s" [idOrName])
                      end)
  end.

Definition askProviderForAddress (a : App) (prov : P) (i : Instance) : Instance :=
  if negb (streq (In_State i) StateRunning) then i
  else match InstanceAddressProvider prov with
       | None => i
       | Some addresses =>
           match addresses (ap_world a) (In_Handle i) with
           | Err _ => i
           | Ok ips => fillFirstEmptyAddress i ips
           end
       end.

Definition refreshFromProvider (a : App) (i : Instance) : Instance :=
  match Get (ap_registry a) (In_Provider i) with
  | Err _ => i
  | Ok prov =>
      let ask i := match GetInstanceState prov (ap_world a) (In_Handle i) with Ok state => with_state i state | Err _ => i end in
      match GetInstanceInfo prov (ap_world a) (In_Handle i) with
      | Err _ => ask i
      | Ok info =>
          let i := if negb (streq (Info_State info) "") then with_state i (Info_State info) else ask i in
          match Info_IPAddresses info with
          | [] => askProviderForAddress a prov i
          | ips => fillFirstEmptyAddress i ips
          end
      end
  end.

Definition json_array (items : list string) : string := "[" +:+ JoinStrings items "," +:+ "]".
(** The instance, as JSON. *)
Definition instance_json (i : Instance) : payload := JSONValue (encode_instance i).

Definition handleGetInstance (a : App) (instanceID : string) : App * list wop :=
  match lookupInstance a instanceID with
  | (a, Err e) => (a, logged StatusNotFound "Instance not found" (Some e))
  | (a, Ok i) => (a, writeJSON StatusOK (instance_json (refreshFromProvider a i)))
  end.

(** ** Listing *)

Definition validStates : list string :=
  [StateRunning; StateStopped; StateStarting; StateStopping; StateCreating; StateDeleting; StatePaused; StateError].

(** One label filter: [key=value], checked. *)
Definition label_filter (label : string) : string * string + list wop :=
  match Cut label "=" with
  | None => inr (writeError StatusBadRequest ("Invalid label filter: " +:+ label +:+ " (expected key=value)"))
  | Some (k, v) =>
      if streq k "" then inr (writeError StatusBadRequest ("Invalid label filter: " +:+ label +:+ " (expected key=value)"))
      else match ValidateLabel k v with
           | Some e => inr (logged StatusBadRequest "Invalid label" (Some e))
           | None => inl (k, v)
           end
  end.
Fixpoint label_filters (labels : list string) (acc : list (string * string)) : list (string * string) + list wop :=
  match labels with
  | [] => inl acc
  | l :: rest => match label_filter l with
                 | inr ops => inr ops
                 | inl (k, v) => label_filters rest (upsert k v acc)
                 end
  end.

Definition list_filter (r : Request) : InstanceFilter + list wop :=
  let provider := Query_Get r "provider" in
  let states := Query_All r "state" in
  let labels := Query_All r "label" in
  match (if streq provider "" then None else ValidateProviderName provider) with
  | Some e => inr (logged StatusBadRequest "Invalid provider" (Some e))
  | None =>
      if 20 <? Z.of_nat (length states) then inr (writeError StatusBadRequest "Too many state filters (max 20)")
      else match List.find (fun st => negb (existsb (streq st) validStates)) states with
      | Some st => inr (writeError StatusBadRequest ("Invalid state filter: " +:+ st))
      | None =>
          if 50 <? Z.of_nat (length labels) then inr (writeError StatusBadRequest "Too many label filters (max 50)")
          else match label_filters labels [] with
          | inr ops => inr ops
          | inl labs => inl {| F_Provider := provider; F_States := states; F_Labels := labs; F_MinCPUs := None; F_MaxCPUs := None;
                               F_MinMemoryMB := None; F_MaxMemoryMB := None; F_OSType := ""; F_Arch := ""; F_Image := "" |}
          end
      end
  end.

(** What one goroutine of the sweep does to its instance. *)
Definition observed (a : App) (i : Instance) : Instance :=
  match Get (ap_registry a) (In_Provider i) with
  | Err _ => i
  | Ok prov =>
      match GetInstanceState prov (ap_world a) (In_Handle i) with
      | Err _ => i
      | Ok state => askProviderForAddress a prov (with_state i state)
      end
  end.

Definition handleListInstances (a : App) (r : Request) : App * list wop :=
  match list_filter r with
  | inr ops => (a, ops)
  | inl filter =>
      match ListInstances json_extract (ap_ds a) filter with
      | (d, Err e) => (set_store a d, logged StatusInternalServerError "Failed to list instances" (Some e))
      | (d, Ok l) =>
          let a := set_store a d in
          (a, writeJSON StatusOK (JSONValue (json_array (map encode_instance (map (observed a) l)))))
      end
  end.

(** ** Creation *)

(** The answer that refuses a request for host authority, if it must. *)
Definition refusePrivilegedConfig (r : Request) (config : list (string * value)) : option (list wop) :=
  let construct := privilegedProviderConfig config in
  if streq construct "" then None
  else match permissionsFromContext r with
       | None => None
       | Some perms =>
           if hasPerm perms "admin" then None
           else Some (writeError StatusForbidden (construct +:+ " gives the caller the host filesystem and needs an admin key"))
       end.

Definition cleanupFirewallRules (a : App) (instanceName : string) : App * option error :=
  match ap_firewall a with
  | None => (a, None)
  | Some f =>
      let '(f, w, err) := RemoveAllRules f (ap_world a) instanceName in
      ({| ap_ds := ap_ds a; ap_registry := ap_registry a; ap_world := w; ap_firewall := Some f |}, err)
  end.

Definition discardCreatedInstance (a : App) (prov : P) (handle : InstanceHandle) (cause : error) : App * error :=
  let '(w, err) := Registry.DeleteInstance prov (ap_world a) handle true in
  (set_world a w, match err with
                  | Some e => Joined [cause; Wrapf "the instance could not be removed either: %w" [] e]
                  | None => cause
                  end).

(** An instance of that name that is in the tables: one the provider does not
    know is removed, one it does is a conflict. *)
Definition clear_ghost (a : App) (name : string) : App * option (list wop) :=
  let '(d, r) := GetInstanceByName (ap_ds a) name in
  let a := set_store a d in
  match r with
  | Ok (Some existing) =>
      match Get (ap_registry a) (In_Provider existing) with
      | Err _ => (a, Some (writeError StatusConflict ("Instance " +:+ name +:+ " already exists under provider " +:+ In_Provider existing)))
      | Ok existingProv =>
          match GetInstanceState existingProv (ap_world a) (In_Handle existing) with
          | Err e => (a, Some (logged StatusServiceUnavailable ("Cannot verify whether instance " +:+ name +:+ " still exists") (Some e)))
          | Ok state =>
              if streq state StateUnknown then
                let a := set_store a (InstanceStore.DeleteInstance (ap_ds a) (In_ID existing)).1 in
                ((cleanupFirewallRules a (In_Name existing)).1, None)
              else (a, Some (writeError StatusConflict ("Instance " +:+ name +:+ " already exists")))
          end
      end
  | _ => (a, None)
  end.

(** The instance made and recorded, or why not: the message and the cause. *)
Definition create_and_record (a : App) (now : Z) (prov : P) (spec : InstanceSpec) (providerName : string)
    : App * (Instance + string * error) :=
  match Registry.CreateInstance prov (ap_world a) spec with
  | (w, Err e) => (set_world a w, inr ("Failed to create instance", e))
  | (w, Ok handle) =>
      let a := set_world a w in
      let instance := createdInstanceRecord handle spec providerName in
      match InstanceStore.CreateInstance (ap_ds a) now instance with
      | (d, Some e) => let '(a, e) := discardCreatedInstance (set_store a d) prov handle e in (a, inr ("Failed to store instance", e))
      | (d, None) => (set_store a d, inl instance)
      end
  end.

Definition stream_head : list wop :=
  [SetHeader "Content-Type" "text/plain; charset=utf-8"; SetHeader "X-Content-Type-Options" "nosniff"; WriteHeader StatusOK].
(** [stream.Printf]: one line, flushed. *)
Definition stream_line (text : string) : list wop := [Write (Line (singleLine (text +:+ String newline ""))); Flush].

Definition handleCreateInstance (a : App) (now : Z) (r : Request) (body : result InstanceSpec) : App * list wop :=
  match body with
  | Err e => (a, logged StatusBadRequest "Invalid request body" (Some e))
  | Ok spec =>
      match ValidateInstanceSpec spec with
      | Some e => (a, logged StatusBadRequest "Invalid instance spec" (Some e))
      | None =>
          match refusePrivilegedConfig r (Spec_ProviderConfig spec) with
          | Some ops => (a, ops)
          | None =>
              if streq (Spec_Name spec) "" then (a, writeError StatusBadRequest "Instance name is required")
              else
                let providerName := or_text (Query_Get r "provider") (assoc "provider" (Spec_Labels spec)) in
                if streq providerName "" then (a, writeError StatusBadRequest "Provider must be specified")
                else match Get (ap_registry a) providerName with
                | Err _ => (a, writeError StatusBadRequest ("Provider not found: " +:+ providerName))
                | Ok prov =>
                    match clear_ghost a (Spec_Name spec) with
                    | (a, Some ops) => (a, ops)
                    | (a, None) =>
                        let '(a, made) := create_and_record a now prov spec providerName in
                        if acceptsMedia ParseFloat (Header_Get r "Accept") ["text/plain"; "text/event-stream"] then
                          (a, stream_head ++
                              stream_line ("Creating instance " +:+ Spec_Name spec +:+ " with provider " +:+ providerName +:+ "...") ++
                              match made with
                              | inl i => stream_line ("SUCCESS: " +:+ encode_instance i)
                              | inr (msg, e) => stream_line ("ERROR: " +:+ msg +:+ ": " +:+ error_text e)
                              end)
                        else
                          (a, match made with
                              | inl i => writeJSON StatusCreated (instance_json i)
                              | inr (msg, e) => logged StatusInternalServerError msg (Some e)
                              end)
                    end
                end
          end
      end
  end.

Definition handleInstances (a : App) (now : Z) (r : Request) (body : result InstanceSpec) : App * list wop :=
  if streq (R_Method r) MethodGet then handleListInstances a r
  else if streq (R_Method r) MethodPost then handleCreateInstance a now r body
  else (a, writeMethodNotAllowed [MethodGet; MethodPost]).

(** ** Updates *)

(** [Upd_Config] is [None] where the request has no provider_config. *)
Record UpdateRequest := { Upd_Spec : option InstanceSpec; Upd_Config : option (list (string * value)) }.

Definition provider_not_found (name : string) : list wop := writeError StatusInternalServerError ("Provider not found: " +:+ name).

(** The checks of the provider_config of an update. *)
Definition refuse_config (r : Request) (config : list (string * value)) : option (list wop) :=
  match List.find (fun p => negb (is_nil (ValidateProviderConfigEntry p.1 p.2))) config with
  | Some (k, v) => Some (logged StatusBadRequest ("Invalid provider config " +:+ Quote k) (ValidateProviderConfigEntry k v))
  | None =>
      match List.find (fun reserved => existsb (fun p => streq p.1 reserved) config) reservedHandleMetadata with
      | Some reserved =>
          Some (writeError StatusBadRequest ("provider config " +:+ Quote reserved +:+ " is managed by the provider and cannot be set"))
      | None => refusePrivilegedConfig r config
      end
  end.

Definition updated_spec (s : InstanceSpec) (req : option InstanceSpec) : InstanceSpec :=
  match req with
  | None => s
  | Some q => spec_with s (or_empty (Spec_Description s) (Spec_Description q)) (or_zero (Spec_CPUs s) (Spec_CPUs q))
                (or_zero (Spec_MemoryMB s) (Spec_MemoryMB q)) (Spec_ProviderConfig s) (Spec_Networks s)
  end.

(** The change handed to the provider. *)
Definition apply_change (a : App) (prov : P) (i : Instance) (req : UpdateRequest) : App * option error :=
  match ReconfigureProvider prov with
  | Some Reconfigure =>
      let '(w, err) := Reconfigure (ap_world a) (In_Handle i) (In_Spec i) in (set_world a w, err)
  | None =>
      match Upd_Spec req with
      | Some q =>
          if (0 <? Spec_CPUs q) || (0 <? Spec_MemoryMB q) then
            let '(w, err) := SetInstanceResources prov (ap_world a) (In_Handle i)
              {| RS_CPUs := Spec_CPUs (In_Spec i); RS_MemoryMB := Spec_MemoryMB (In_Spec i); RS_DiskGB := 0; RS_MaxProc := 0;
                 RS_ReadBPS := 0; RS_WriteBPS := 0; RS_ReadIOPS := 0; RS_WriteIOPS := 0 |} in
            (set_world a w, err)
          else (a, None)
      | None => (a, None)
      end
  end.

(** The rows written once the provider has taken the change. *)
Definition record_change (a : App) (now : Z) (i : Instance) (req : UpdateRequest) : App * list wop :=
  match UpdateInstanceSpec (ap_ds a) now (In_ID i) (In_Spec i) with
  | (d, Some e) => (set_store a d, logged StatusInternalServerError "The provider applied the change but it could not be recorded" (Some e))
  | (d, None) =>
      let '(d, err) := match Upd_Config req with
                       | Some _ => UpdateInstanceHandle d now (In_ID i) (In_Handle i)
                       | None => (d, None)
                       end in
      let a := set_store a d in
      match err with
      | Some e => (a, logged StatusInternalServerError "The provider applied the change but the handle could not be recorded" (Some e))
      | None => (a, writeJSON StatusOK (instance_json (refreshFromProvider a i)))
      end
  end.

Definition handleUpdateInstance (a : App) (now : Z) (r : Request) (instanceID : string) (body : result UpdateRequest) : App * list wop :=
  match lookupInstance a instanceID with
  | (a, Err e) => (a, logged StatusNotFound "Instance not found" (Some e))
  | (a, Ok i) =>
      match body with
      | Err e => (a, logged StatusBadRequest "Invalid request body" (Some e))
      | Ok req =>
          let config := default [] (Upd_Config req) in
          match match Upd_Config req with Some c => refuse_config r c | None => None end with
          | Some ops => (a, ops)
          | None =>
              let i := with_spec i (updated_spec (In_Spec i) (Upd_Spec req)) in
              let i := match Upd_Config req with Some c => with_metadata i (merge_into (Handle_Metadata (In_Handle i)) c) | None => i end in
              match Get (ap_registry a) (In_Provider i) with
              | Err e =>
                  (a, if negb (bool_decide (config = [])) then provider_not_found (In_Provider i)
                      else logged StatusInternalServerError ("Provider not found: " +:+ In_Provider i) (Some e))
              | Ok prov =>
                  if negb (bool_decide (config = [])) && match ReconfigureProvider prov with None => true | Some _ => false end
                  then (a, writeError StatusNotImplemented ("Provider " +:+ In_Provider i +:+ " cannot reconfigure an instance"))
                  else
                    let i := if bool_decide (config = []) then i
                             else with_spec i (spec_config (In_Spec i) (merge_into (Spec_ProviderConfig (In_Spec i)) config)) in
                    match apply_change a prov i req with
                    | (a, Some e) => (a, logged StatusInternalServerError "The provider could not apply the change; nothing was recorded" (Some e))
                    | (a, None) => record_change a now i req
                    end
              end
          end
      end
  end.

(** ** Deletion and the power switch *)

(** The instance and its provider, or the answer. *)
Definition resolve (a : App) (instanceID : string) : App * (Instance * P + list wop) :=
  match lookupInstance a instanceID with
  | (a, Err e) => (a, inr (logged StatusNotFound "Instance not found" (Some e)))
  | (a, Ok i) => match Get (ap_registry a) (In_Provider i) with
                 | Err _ => (a, inr (provider_not_found (In_Provider i)))
                 | Ok prov => (a, inl (i, prov))
                 end
  end.

Definition handleDeleteInstance (a : App) (r : Request) (instanceID : string) : App * list wop :=
  match resolve a instanceID with
  | (a, inr ops) => (a, ops)
  | (a, inl (i, prov)) =>
      let force := streq (Query_Get r "force") "true" in
      match Registry.DeleteInstance prov (ap_world a) (In_Handle i) force with
      | (w, Some e) => (set_world a w, logged StatusInternalServerError "Failed to delete instance" (Some e))
      | (w, None) =>
          let a := (cleanupFirewallRules (set_world a w) (In_Name i)).1 in
          match InstanceStore.DeleteInstance (ap_ds a) (In_ID i) with
          | (d, Some e) => (set_store a d, logged StatusInternalServerError "Failed to remove instance from datastore" (Some e))
          | (d, None) => (set_store a d, [WriteHeader StatusNoContent])
          end
      end
  end.

Definition syncInstanceSpec (a : App) (now : Z) (instanceID : string) (prov : P) (handle : InstanceHandle) : App :=
  match GetInstanceInfo prov (ap_world a) handle with
  | Err _ => a
  | Ok info =>
      match GetInstance (ap_ds a) instanceID with
      | (d, Err _) => set_store a d
      | (d, Ok stored) => set_store a (UpdateInstanceSpec d now instanceID (mergeInstanceSpec (In_Spec stored) (Info_Spec info))).1
      end
  end.

Definition handleStartInstance (a : App) (now : Z) (r : Request) (instanceID : string) : App * list wop :=
  match resolve a instanceID with
  | (a, inr ops) => (a, ops)
  | (a, inl (i, prov)) =>
      let stream := acceptsMedia ParseFloat (Header_Get r "Accept") ["text/plain"] in
      match StartInstance prov (ap_world a) (In_Handle i) with
      | (w, Some e) =>
          (set_world a w, if stream then stream_head ++ stream_line ("ERROR: Failed to start instance: " +:+ error_text e)
                          else logged StatusInternalServerError "Failed to start instance" (Some e))
      | (w, None) =>
          let a := set_world a w in
          let a := set_store a (UpdateInstanceState (ap_ds a) now (In_ID i) StateRunning).1 in
          let a := syncInstanceSpec a now (In_ID i) prov (In_Handle i) in
          (a, if stream then stream_head ++ stream_line "SUCCESS: Instance started"
              else writeJSON StatusOK (JSONMap [("status", "started")]))
      end
  end.

Definition handleStopInstance (a : App) (now : Z) (r : Request) (instanceID : string) : App * list wop :=
  match resolve a instanceID with
  | (a, inr ops) => (a, ops)
  | (a, inl (i, prov)) =>
      let opts := {| Stop_Force := streq (Query_Get r "force") "true"; Stop_Timeout := 30 * Second |} in
      match StopInstance prov (ap_world a) (In_Handle i) opts with
      | (w, Some e) => (set_world a w, logged StatusInternalServerError "Failed to stop instance" (Some e))
      | (w, None) =>
          let a := set_world a w in
          (set_store a (UpdateInstanceState (ap_ds a) now (In_ID i) StateStopped).1, writeJSON StatusOK (JSONMap [("status", "stopped")]))
      end
  end.

Definition handleRestartInstance (a : App) (now : Z) (instanceID : string) : App * list wop :=
  match resolve a instanceID with
  | (a, inr ops) => (a, ops)
  | (a, inl (i, prov)) =>
      match RestartInstance prov (ap_world a) (In_Handle i) with
      | (w, Some e) => (set_world a w, logged StatusInternalServerError "Failed to restart instance" (Some e))
      | (w, None) =>
          let a := set_world a w in
          (set_store a (UpdateInstanceState (ap_ds a) now (In_ID i) StateRunning).1, writeJSON StatusOK (JSONMap [("status", "restarted")]))
      end
  end.

Definition handleGetInstanceEvents (a : App) (r : Request) (instanceID : string) : App * list wop :=
  match lookupInstance a instanceID with
  | (a, Err e) => (a, logged StatusNotFound "Instance not found" (Some e))
  | (a, Ok i) =>
      let l := Query_Get r "limit" in
      let limit := if streq l "" then 50 else match Atoi l with Ok n => if 0 <? n then n else 50 | Err _ => 50 end in
      match GetEvents (ap_ds a) (In_ID i) limit with
      | (d, Err e) => (set_store a d, logged StatusInternalServerError "Failed to get events" (Some e))
      | (d, Ok evs) => (set_store a d, writeJSON StatusOK (JSONMap (map (fun e => (Ev_Type e, Ev_Message e)) evs)))
      end
  end.

(** ** Start-up *)

(** One turn of the loop of [SyncInstanceStates]. *)
Definition sync_one (now : Z) (a : App) (i : Instance) : App :=
  match Get (ap_registry a) (In_Provider i) with
  | Err _ => a
  | Ok prov =>
      let state := match GetInstanceState prov (ap_world a) (In_Handle i) with Ok st => st | Err _ => StateUnknown end in
      if streq state (In_State i) then a else set_store a (UpdateInstanceState (ap_ds a) now (In_ID i) state).1
  end.

Definition SyncInstanceStates (a : App) (now : Z) : App :=
  match ListInstances json_extract (ap_ds a) no_filter with
  | (d, Err _) => set_store a d
  | (d, Ok l) => foldl (sync_one now) (set_store a d) l
  end.

Definition jobRetention : Z := 7 * 24 * Hour.

Definition reconcileJobs (a : App) (now : Z) : App :=
  let d := (FailInterruptedJobs (ap_ds a) now).1 in
  set_store a (CleanupOldJobs d now jobRetention).1.

(** ** The storage of an instance *)

Definition ensureHospitusDataset (parent name : string) : option error :=
  if streq name "" || ContainsAny name ("@ " +:+ String "009" (String newline "")) || Contains name "/../" || HasSuffix name "/.."
  then Some (Errorf "dataset %q is not a name this daemon manages" [name])
  else if streq parent "" || negb (HasPrefix name (parent +:+ "/")) || (len name <=? len parent + 1)
  then Some (Errorf "dataset %q is outside %s" [name; parent])
  else None.

(** The parent of the first disk that is a ZVOL. *)
Fixpoint zvol_parent (parent : string) (disks : list DiskSpec) : option (result string) :=
  match disks with
  | [] => None
  | d :: rest =>
      match CutPrefix (Disk_Path d) "/dev/zvol/" with
      | None => zvol_parent parent rest
      | Some zvol =>
          match CutLast zvol "/" with
          | Some (p, _) => if streq p "" then zvol_parent parent rest
                           else Some (match ensureHospitusDataset parent p with Some e => Err e | None => Ok p end)
          | None => zvol_parent parent rest
          end
      end
  end.

Definition instanceDatasetResolver (parent : string) (ds : option Tables) (instanceID : string) : result string :=
  match ds with
  | None => Err (Errorf "no datastore is configured, so the storage of instance %s cannot be located" [instanceID])
  | Some d =>
      match (GetInstance d instanceID).2 with
      | Err e => Err (Wrapf "cannot locate the storage of instance %s: %w" [instanceID] e)
      | Ok i =>
          match lookup_value "zfs_dataset" (Handle_Metadata (In_Handle i)) with
          | Some (VString recorded) =>
              if negb (streq recorded "") then match ensureHospitusDataset parent recorded with Some e => Err e | None => Ok recorded end
              else default (Err (Errorf "instance %s is served by %s, which stores it outside ZFS; there is nothing to snapshot"
                                   [instanceID; In_Provider i])) (zvol_parent parent (Spec_Disks (In_Spec i)))
          | _ => default (Err (Errorf "instance %s is served by %s, which stores it outside ZFS; there is nothing to snapshot"
                                 [instanceID; In_Provider i])) (zvol_parent parent (Spec_Disks (In_Spec i)))
          end
      end
  end.

(** ** Routing *)

(** Where [handleInstanceDetail] sends a request. *)
Inductive action :=
  | DoGet | DoUpdate | DoDelete | DoStart | DoStop | DoRestart | DoEvents | DoExec | DoConsole | DoWebSocket
  | DoOther (name : string) | NotAllowed (methods : list string) | NotFoundRoute | BadPath.

Definition action_of (path instanceID : string) : string :=
  match CutPrefix path ("/api/v1/instances/" +:+ instanceID +:+ "/") with
  | Some suffix => default "" (head (Split suffix "/"))
  | None => ""
  end.

Definition handleInstanceDetail (r : Request) : action :=
  let instanceID := PathValue r "id" in
  if streq instanceID "" then BadPath
  else
    let act := action_of (R_Path r) instanceID in
    let by_method m := streq (R_Method r) m in
    if streq act "" && by_method MethodGet then DoGet
    else if streq act "" && by_method MethodPatch then DoUpdate
    else if streq act "" && by_method MethodDelete then DoDelete
    else if streq act "start" && by_method MethodPost then DoStart
    else if streq act "stop" && by_method MethodPost then DoStop
    else if streq act "restart" && by_method MethodPost then DoRestart
    else if streq act "events" && by_method MethodGet then DoEvents
    else if existsb (streq act) ["snapshots"; "clone"; "freebsd"; "export"] then DoOther act
    else if streq act "exec" && by_method MethodPost then DoExec
    else if streq act "console" && by_method MethodGet then
      if HasSuffix (R_Path r) "/ws" || streq (Header_Get r "Upgrade") "websocket" then DoWebSocket else DoConsole
    else if streq act "metrics" && by_method MethodGet then DoOther act
    else if streq act "metrics" then NotAllowed [MethodGet]
    else if streq act "health" && by_method MethodGet then DoOther act
    else if existsb (streq act) ["media"; "boot-order"; "services"; "volumes"; "interfaces"; "backups"; "checkpoint"; "checkpoints"]
    then DoOther act
    else if existsb (streq act) ["pause"; "resume"; "rename"; "upgrade"] && by_method MethodPost then DoOther act
    else if streq act "" then NotAllowed [MethodGet; MethodPatch; MethodDelete]
    else NotFoundRoute.
End handlers.
