(* ===== verification/InstanceHandlersFacts.v ===== *)
(** * Facts about the instance handlers

    Creation leaves no instance behind that no record names; configurations that
    give authority over the host need an admin key; routes that run commands need
    the permission to; nothing is recorded that the provider did not apply. *)

From stdpp Require Import base list gmap strings sets.
From Stdlib Require Import Ascii ZArith QArith Lia.
From S2P Require Import Prelude GoStrings GoText GoTime GoHttp ProviderTypes Validation Registry StackFacts StackRuns Jobs Backup Auth Middleware InstanceStore InstanceStoreFacts BackupRuns ApiKeys ApiKeysFacts InstanceHandlers.

Local Open Scope Z_scope.

(** ** Paths *)

Local Abbreviation slash := "/"%char.

Lemma drop_while_app p l c m : p c = false -> drop_while p (l ++ c :: m) = drop_while p l ++ c :: m.
Proof. intros Hc. induction l as [|d l IH]; simpl; [by rewrite Hc|]. by destruct (p d). Qed.

(** Trimming on the right leaves a prefix. *)
Lemma trim_right_prefix p l : exists more, l = rev (drop_while p (rev l)) ++ more.
Proof.
  assert (forall k, exists pre, k = pre ++ drop_while p k) as Hk.
  { induction k as [|c k [pre IH]]; simpl; [by exists []|]. destruct (p c); [|by exists []].
    exists (c :: pre). simpl. by rewrite <- IH. }
  destruct (Hk (rev l)) as [pre E]. exists (rev pre). rewrite <- rev_app_distr, <- E. by rewrite rev_involutive.
Qed.

Lemma trim_right_keeps p y c rest : p c = false ->
  rev (drop_while p (rev (y ++ c :: rest))) = y ++ c :: rev (drop_while p (rev rest)).
Proof.
  intros Hc. rewrite rev_app_distr. simpl. rewrite <- app_assoc. simpl. rewrite drop_while_app by done.
  rewrite rev_app_distr. simpl. by rewrite rev_involutive, <- app_assoc.
Qed.

(** The first segment of a text, and what follows it. *)
Lemma head_split s a : head (split_l slash s) = Some a -> slash ∉ a /\ (s = a \/ exists more, s = a ++ slash :: more).
Proof.
  revert a. induction s as [|c s IH]; simpl; intros a E; [injection E as <-; split; [set_solver|by left]|].
  destruct (Ascii.eqb_spec slash c) as [<-|Hne].
  - injection E as <-. split; [set_solver|]. right. by exists s.
  - destruct (split_l slash s) as [|w ws] eqn:Es; simpl in E; injection E as <-.
    + destruct s as [|d s]; simpl in Es; repeat case_match; done.
    + destruct (IH w eq_refl) as [Hw [->|[more ->]]]; (split; [set_solver|]); [by left|right; by exists more].
Qed.

(** The segments of a path below an instance, however many slashes end it. *)
Lemma instance_segments id act c rest :
  id <> [] -> slash ∉ id -> slash ∉ act ++ [c] -> (rest = [] \/ exists more, rest = slash :: more) ->
  exists tail, split_l slash (rev (drop_while (ascii_in [slash]) (rev (drop_while (ascii_in [slash])
      (bytes "/api/v1/instances/" ++ id ++ slash :: act ++ c :: rest))))) =
    bytes "api" :: bytes "v1" :: bytes "instances" :: id :: (act ++ [c]) :: tail.
Proof.
  intros Hid Hi Ha Hrest. simpl drop_while.
  assert (ascii_in [slash] c = false) as Hc.
  { unfold ascii_in. simpl. destruct (Ascii.eqb_spec c slash) as [->|?]; [set_solver|]. by destruct (Ascii.eqb_spec slash c). }
  pose proof (trim_right_keeps (ascii_in [slash]) (bytes "api/v1/instances/" ++ id ++ slash :: act) c rest Hc) as Et.
  rewrite <- !app_assoc in Et. simpl in Et. simpl. rewrite Et. clear Et.
  destruct (trim_right_prefix (ascii_in [slash]) rest) as [more Em].
  set (kept := rev (drop_while (ascii_in [slash]) (rev rest))) in *. clearbody kept.
  assert (kept = [] \/ exists k, kept = slash :: k) as Hk.
  { destruct kept as [|d k]; [by left|right]. destruct Hrest as [->|[m ->]]; [done|]. injection Em as <- _. by exists k. }
  cbn [split_l Ascii.eqb Bool.eqb]. rewrite split_cons by done.
  destruct Hk as [->|[k ->]].
  - exists []. by rewrite split_none.
  - exists (split_l slash k). replace (act ++ c :: slash :: k) with ((act ++ [c]) ++ slash :: k) by (by rewrite <- app_assoc).
    by rewrite split_cons.
Qed.

Lemma action_permission method path id act :
  id <> "" -> slash ∉ bytes id -> action_of path id = act -> act = "exec" \/ act = "console" ->
  requiredPermission method path = "exec".
Proof.
  unfold action_of. intros Hid Hs Ha Hor.
  destruct (CutPrefix path ("/api/v1/instances/" +:+ id +:+ "/")) as [suffix|] eqn:Ec; [|subst; by destruct Hor].
  apply CutPrefix_Some in Ec as ->.
  assert (exists a c, bytes act = a ++ [c] /\ slash ∉ a ++ [c] /\ act <> "") as (a & c & Eact & Hac & Hne).
  { destruct Hor as [->| ->]; [exists (bytes "exe"), "c"%char|exists (bytes "consol"), "e"%char];
      (split; [done|split; [|done]]); rewrite list_elem_of_In; simpl; intuition discriminate. }
  unfold Split in Ha. destruct (head (split_l slash (bytes suffix))) as [h|] eqn:Eh.
  2: { destruct (split_l slash (bytes suffix)); [|done]. simpl in Ha. congruence. }
  assert (bytes act = h) as <-.
  { destruct (split_l slash (bytes suffix)); [done|]. simpl in *. injection Eh as ->. rewrite <- Ha. apply bytes_of_bytes. }
  apply head_split in Eh as [_ Eh]. rewrite Eact in Eh.
  assert (exists rest, bytes suffix = a ++ c :: rest /\ (rest = [] \/ exists more, rest = slash :: more)) as (rest & Erest & Hrest).
  { destruct Eh as [Eh|[more Eh]]; rewrite Eh, <- ?app_assoc; [exists []|exists (slash :: more)]; naive_solver. }
  destruct (instance_segments (bytes id) a c rest) as [tail Et]; try done.
  { intros E. apply Hid. by apply (inj bytes). }
  unfold requiredPermission, Split, Trim, TrimRight, TrimLeft.
  assert (bytes (("/api/v1/instances/" +:+ id +:+ "/") +:+ suffix) = bytes "/api/v1/instances/" ++ bytes id ++ slash :: a ++ c :: rest) as ->.
  { by rewrite !bytes_app, Erest, <- !app_assoc. }
  rewrite !bytes_of_bytes. change (bytes "/") with [slash]. rewrite Et, <- Eact. cbn [map].
  rewrite !of_bytes_bytes. unfold lookup, list_lookup. cbn [default length].
  replace (5 <=? _) with true by (symmetry; apply Z.leb_le; lia). replace (3 <=? _) with true by (symmetry; apply Z.leb_le; lia).
  by destruct Hor as [->| ->].
Qed.

(** ** What the store keeps *)

Section facts.
Context {P W F : Type} `{IsProvider P} `{ProviderOps P W} `{ProviderQueries P W} `{FirewallOps F W}.
Context `{Json InstanceSpec} `{Json InstanceHandle} `{Json labels} `{Json InstanceBackupConfig}.
Context (error_text : error -> string) (ParseFloat : string -> option Q) (encode_instance : Instance -> string).

Notation App := (@App P W F).
Notation create := (handleCreateInstance (P := P) (W := W) (F := F) error_text ParseFloat encode_instance).
Notation update := (handleUpdateInstance (P := P) (W := W) (F := F) error_text encode_instance).

Lemma new_row_names now i row : new_row now i = Ok row -> Row_Name row = In_Name i /\ Row_Provider row = In_Provider i.
Proof. unfold new_row. intros Hr. repeat case_match; by simplify_eq/=. Qed.

Lemma recordEvent_instances ds now id ty st msg : instances (recordEvent ds now id ty st msg).1 = instances ds.
Proof.
  unfold recordEvent. pose proof (statement_same ds) as (Hi & _). destruct (statement ds) as [d [f|]]; simpl in *; [done|].
  by destruct (instances d !! id).
Qed.

(** A created record is in the table under its id; a refused one is not. *)
Lemma CreateInstance_rows ds now i d err : InstanceStore.CreateInstance ds now i = (d, err) ->
  match err with
  | Some _ => instances d = instances ds
  | None => exists row, instances d = <[In_ID i := row]> (instances ds) /\ Row_Name row = In_Name i /\ Row_Provider row = In_Provider i
  end.
Proof.
  unfold InstanceStore.CreateInstance. destruct (new_row now i) as [row|] eqn:Er; [|by intros [= <- <-]].
  pose proof (statement_same ds) as (Hi & _). destruct (statement ds) as [d1 [f|]]; simpl in *; [by intros [= <- <-]|].
  destruct (instances d1 !! In_ID i); [by intros [= <- <-]|]. destruct (name_taken _ _); [by intros [= <- <-]|].
  intros [= <- <-]. exists row. rewrite recordEvent_instances. simpl. rewrite Hi.
  split; [done|]. by apply (new_row_names now).
Qed.

Lemma GetInstance_rows ds id : instances (GetInstance ds id).1 = instances ds /\ events (GetInstance ds id).1 = events ds.
Proof. unfold GetInstance. pose proof (statement_same ds) as (? & ? & _). by destruct (statement ds) as [d [f|]]. Qed.

Lemma GetInstanceByName_rows ds n : instances (GetInstanceByName ds n).1 = instances ds /\ events (GetInstanceByName ds n).1 = events ds.
Proof. unfold GetInstanceByName. pose proof (statement_same ds) as (? & ? & _). by destruct (statement ds) as [d [f|]]. Qed.

(** What a lookup leaves as it was: all but the faults consumed. *)
Definition unchanged (a a' : App) : Prop :=
  ap_world a' = ap_world a /\ ap_registry a' = ap_registry a /\ ap_firewall a' = ap_firewall a /\
  instances (ap_ds a') = instances (ap_ds a) /\ events (ap_ds a') = events (ap_ds a).

Lemma lookupInstance_unchanged (a : App) id : unchanged a (lookupInstance a id).1.
Proof.
  unfold lookupInstance, unchanged. pose proof (GetInstance_rows (ap_ds a) id) as [Hi He].
  destruct (GetInstance (ap_ds a) id) as [d [i|e]]; simpl in *; [done|].
  pose proof (GetInstanceByName_rows d id) as [Hi' He']. destruct (GetInstanceByName d id) as [d' r]; simpl in *.
  by rewrite Hi', He'.
Qed.

(** ** Authority over the host *)

(** Settings of a jail that run commands on the host, choose what it sees of the
    host's files, or loosen its confinement; four [exec] settings do none of that. *)
Definition reaches_host (key : string) : Prop :=
  let k := ToLower key in
  k ∈ ["path"; "devfs_ruleset"; "securelevel"; "enforce_statfs"; "allow.vmm"; "mount"] \/
  HasPrefix k "allow.mount" = true \/ HasPrefix k "mount." = true \/
  (HasPrefix k "exec." = true /\ k ∉ ["exec.clean"; "exec.timeout"; "exec.fib"; "exec.jail_user"]).

Lemma reaches_host_privileged k : reaches_host k -> privilegedProviderConfigKey k = true.
Proof.
  unfold reaches_host, privilegedProviderConfigKey. set (l := ToLower k). clearbody l. intros Hr.
  destruct (existsb (streq l) ["exec.clean"; "exec.timeout"; "exec.fib"; "exec.jail_user"]) eqn:E.
  - apply existsb_exists_iff in E as (x & Hx & ->%streq_true). exfalso.
    rewrite !elem_of_cons in Hx. destruct Hx as [->|[->|[->|[->|?%not_elem_of_nil]]]]; try done;
      destruct Hr as [Hr|[Hr|[Hr|[_ Hr]]]]; try done; set_solver.
  - destruct (existsb (streq l) ["path"; "devfs_ruleset"; "securelevel"; "enforce_statfs"; "allow.vmm"]) eqn:E2; [done|].
    rewrite existsb_false_iff in E2. rewrite !Forall_cons in E2. destruct E2 as (E1 & E2 & E3 & E4 & E5 & _).
    destruct Hr as [Hr|[Hr|[Hr|[Hr _]]]].
    + rewrite !elem_of_cons in Hr. destruct Hr as [->|[->|[->|[->|[->|[->|?%not_elem_of_nil]]]]]]; done.
    + rewrite Hr. by rewrite !orb_true_r.
    + rewrite Hr. by rewrite !orb_true_r.
    + by rewrite Hr.
Qed.

(** The configuration gives whoever set it the host: such a key, in any case, or
    a mount from the host. *)
Definition host_authority (config : list (string * value)) : Prop :=
  (exists k v, (k, v) ∈ config /\ reaches_host k) \/
  (exists m, m ∈ mountEntries (configValue config "mounts") /\ host_path m <> "").

Lemma host_authority_construct config : host_authority config -> streq (privilegedProviderConfig config) "" = false.
Proof.
  unfold privilegedProviderConfig. intros Ha.
  destruct (List.find (fun p => privilegedProviderConfigKey p.1) config) as [[k v]|] eqn:Ek.
  - apply List.find_some in Ek as [_ Ek]. simpl in Ek. apply streq_false. by intros ->.
  - destruct Ha as [(k & v & Hin & Hk)|(m & Hin & Hm)].
    + apply reaches_host_privileged in Hk. apply list_elem_of_In in Hin. pose proof (List.find_none _ _ Ek _ Hin) as Hf. simpl in Hf. congruence.
    + destruct (List.find (fun m => negb (streq (host_path m) "")) _) as [m'|] eqn:Em; [done|].
      apply list_elem_of_In in Hin. pose proof (List.find_none _ _ Em _ Hin) as Hf. simpl in Hf.
      apply negb_false_iff, streq_true in Hf. done.
Qed.

Lemma refused_without_admin r config perms :
  host_authority config -> R_Permissions r = Some perms -> hasPerm perms "admin" = false ->
  exists ops, refusePrivilegedConfig r config = Some ops.
Proof.
  intros Ha Hp Hn. unfold refusePrivilegedConfig, permissionsFromContext. rewrite (host_authority_construct _ Ha), Hp, Hn. eauto.
Qed.

(** C14: a client that presented a key without the admin permission cannot create
    an instance whose provider configuration reaches into the host (a privileged
    key in any letter case, or a mount from a path of the host), nor add such a
    setting to an existing one: neither the machine, the firewall nor the tables
    change. *)
Theorem privileged_config_needs_admin (a : App) now r perms :
  R_Permissions r = Some perms -> hasPerm perms "admin" = false ->
  (forall spec, host_authority (Spec_ProviderConfig spec) -> (create a now r (Ok spec)).1 = a) /\
  (forall id req c, Upd_Config req = Some c -> host_authority c -> unchanged a (update a now r id (Ok req)).1).
Proof.
  intros Hp Hn. split.
  - intros spec Ha. unfold handleCreateInstance. destruct (ValidateInstanceSpec spec); [done|].
    by destruct (refused_without_admin _ _ _ Ha Hp Hn) as [ops ->].
  - intros id req c Hc Ha. unfold handleUpdateInstance. pose proof (lookupInstance_unchanged a id) as Hu.
    destruct (lookupInstance a id) as [a1 [i|e]]; [|done]. rewrite Hc. unfold refuse_config.
    destruct (refused_without_admin _ _ _ Ha Hp Hn) as [ops ->]. repeat case_match; done.
Qed.

(** ** Routes *)

Definition runs_commands (act : action) : Prop := act = DoExec \/ act = DoConsole \/ act = DoWebSocket.

Lemma command_route r : runs_commands (handleInstanceDetail r) ->
  PathValue r "id" <> "" /\ (action_of (R_Path r) (PathValue r "id") = "exec" \/ action_of (R_Path r) (PathValue r "id") = "console").
Proof.
  unfold handleInstanceDetail, runs_commands. destruct (streq (PathValue r "id") "") eqn:Eid; [by intros [?|[?|?]]|].
  apply streq_false in Eid. generalize (action_of (R_Path r) (PathValue r "id")) as act. intros act Hr. split; [done|].
  destruct (streq act "exec") eqn:E1; [left; by apply streq_true|]. destruct (streq act "console") eqn:E2; [right; by apply streq_true|].
  simpl in Hr. repeat case_match; by destruct Hr as [?|[?|?]].
Qed.

(** Every request that the instance routes send to the command runner, the
    console or the console's web socket is one for which the authentication
    middleware demands the exec permission, whatever follows in its path; ids with
    a slash are not names of instances. *)
Theorem exec_routes_need_exec_permission (r : Request) :
  slash ∉ bytes (PathValue r "id") -> runs_commands (handleInstanceDetail r) -> requiredPermission (R_Method r) (R_Path r) = "exec".
Proof. intros Hs [Hid Ha]%command_route. by eapply action_permission. Qed.

(** ** Creation *)

Context `{!ProviderLaws P W}.

(** A forced deletion of an instance that is there succeeds. *)
Definition forced_reliable : Prop :=
  forall (p : P) (w : W) h, live_key p h ∈ live w -> (Registry.DeleteInstance p w h true).2 = None.
(** The firewall makes and removes no instances. *)
Definition firewall_frame : Prop := forall (f : F) (w : W) n, live (RemoveAllRules f w n).1.2 = live w.

Lemma clear_ghost_live (a : App) name : firewall_frame ->
  live (ap_world (clear_ghost error_text a name).1) = live (ap_world a) /\ ap_registry (clear_ghost error_text a name).1 = ap_registry a.
Proof.
  intros Hf. unfold clear_ghost. destruct (GetInstanceByName (ap_ds a) name) as [d [[i|]|e]]; [|done..]. simpl.
  destruct (Get (ap_registry a) (In_Provider i)) as [p|e]; [|done]. destruct (GetInstanceState p (ap_world a) (In_Handle i)) as [st|e]; [|done].
  destruct (streq st StateUnknown); [|done]. unfold cleanupFirewallRules. simpl. destruct (ap_firewall a) as [f|]; [|done].
  pose proof (Hf f (ap_world a) (In_Name i)) as Hl. by destruct (RemoveAllRules f (ap_world a) (In_Name i)) as [[f' w'] err].
Qed.

(** Either nothing was added to the machine, or the instance was and a record names it. *)
Lemma create_and_record_spec (a : App) now p spec name : forced_reliable ->
  match create_and_record a now p spec name with
  | (a', inr _) => live (ap_world a') = live (ap_world a)
  | (a', inl i) => In_ID i = Spec_Name spec /\ live (ap_world a') = {[(M_Name (Registry.Metadata p), Spec_Name spec)]} ∪ live (ap_world a) /\
      (M_Name (Registry.Metadata p), Spec_Name spec) ∉ live (ap_world a) /\
      exists row, instances (ap_ds a') !! Spec_Name spec = Some row /\ Row_Name row = Spec_Name spec /\ Row_Provider row = name
  end.
Proof.
  intros Hr. unfold create_and_record. pose proof (create_law p (ap_world a) spec) as Hc.
  destruct (Registry.CreateInstance p (ap_world a) spec) as [w [h|e]]; simpl; [|done]. destruct Hc as (Hid & Hnew & Hlive).
  destruct (InstanceStore.CreateInstance (ap_ds a) now (createdInstanceRecord h spec name)) as [d [e|]] eqn:Es; simpl.
  - unfold discardCreatedInstance. simpl. pose proof (Hr p w h) as Hd. pose proof (delete_law p w h true) as Hl.
    destruct (Registry.DeleteInstance p w h true) as [w' [e'|]]; simpl in *; [by rewrite Hlive in Hd; set_solver|].
    rewrite Hl, Hlive. unfold live_key in *. set_solver.
  - apply CreateInstance_rows in Es as (row & -> & Hn & Hp). simpl in *. unfold live_key in *. rewrite Hid in *.
    split_and!; try done. exists row. by rewrite lookup_insert_eq.
Qed.

(** The statuses a list of writes sets. *)
Lemma logged_status code msg err st : WriteHeader st ∈ writeLoggedError error_text code msg err -> st = code.
Proof. unfold writeLoggedError, writeError, writeJSON. intros Hin. repeat case_match; set_solver. Qed.

End facts.

(** ** Runs on a sample machine

    The theorems about the handlers, at concrete requests: a jail provider that
    keeps its instances in a set, tables that read back what they were given, and
    a firewall that does nothing. *)

#[local] Instance sample_queries : ProviderQueries sample calm_machine := {
  GetInstanceState p w h := Ok (if bool_decide ((sample_name p, Handle_ID h) ∈ calm_there w) then StateStopped else StateUnknown);
  GetInstanceInfo p w h := Err unsupported;
  RestartInstance p w h := (w, None);
  SetInstanceResources p w h _ := (w, None);
  ReconfigureProvider p := Some (fun w _ _ => (w, None));
  InstanceAddressProvider p := None
}.
#[local] Instance idle_firewall : FirewallOps unit calm_machine := { RemoveAllRules f w _ := (f, w, None) }.
#[local] Instance jail_handle : Json InstanceHandle := {
  Marshal h := match Handle_Metadata h with [] => if streq (Handle_Provider h) "jail" then Ok (Handle_ID h) else Err unsupported | _ => Err unsupported end;
  Unmarshal t := Ok {| Handle_ID := t; Handle_Provider := "jail"; Handle_Metadata := [] |}
}.

Definition sample_app (faults : list (option error)) : App (P := sample) (W := calm_machine) (F := unit) :=
  {| ap_ds := {| instances := ∅; events := []; next_event := 1; jobs := ∅; api_keys := ∅; backup_rows := ∅; faults := faults |};
     ap_registry := {["jail" := {| sample_name := "jail"; unstartable := [] |}]};
     ap_world := {| calm_there := ∅ |}; ap_firewall := Some tt |}.

Definition sample_request (method path id : string) (perms : list string) : Request :=
  {| R_Method := method; R_Path := path; R_RemoteAddr := "192.0.2.1:999"; R_Header := []; R_Query := [("provider", "jail")];
     R_PathValue := [("id", id)]; R_Permissions := Some perms; R_APIKeyID := Some "k1"; R_BodyLimit := None |}.

Definition create_web (faults : list (option error)) :=
  handleCreateInstance (fun _ => "") (fun _ => None) In_ID (sample_app faults) 100
    (sample_request MethodPost "/api/v1/instances" "" ["write"]) (Ok (plain_spec "web")).


(** A caller with the write permission asks for a jail that may mount. *)
Definition mounting (name : string) : InstanceSpec := spec_config (plain_spec name) [("Allow.Mount.NullFS", VString "1")].

Lemma privileged_config_needs_admin_witness :
  let r := sample_request MethodPost "/api/v1/instances" "" ["write"] in
  let answer := handleCreateInstance (fun _ => "") (fun _ => None) In_ID (sample_app []) 100 r (Ok (mounting "web")) in
  answer.1 = sample_app [] /\ WriteHeader StatusForbidden ∈ answer.2.
Proof.
  intros r answer.
  pose proof (privileged_config_needs_admin (fun _ => "") (fun _ => None) In_ID (sample_app []) 100 r ["write"] eq_refl eq_refl) as [Hc _].
  split; [|vm_compute; right; left]. apply Hc. left. exists "Allow.Mount.NullFS", (VString "1"). split; [left|]. right. left. vm_compute. reflexivity.
Defined.

(** A path that ends in slashes and a stray segment. *)
Lemma exec_routes_need_exec_permission_witness :
  requiredPermission MethodPost "/api/v1/instances/web/exec//x/" = "exec".
Proof.
  apply (exec_routes_need_exec_permission (sample_request MethodPost "/api/v1/instances/web/exec//x/" "web" [])).
  - intros Hs. apply ascii_in_true in Hs. vm_compute in Hs. discriminate.
  - left. vm_compute. reflexivity.
Defined.
