(* ===== verification/Files.v ===== *)
(** * Files read and written whole

    What the components use of [os] on files they keep: reading, writing,
    appending, temporary files and renames, as a class of operations on the
    machine, its laws, and the write through a temporary file that the firewall
    ([atomicWriteFile]) uses. *)

From stdpp Require Import base list gmap strings.
From Stdlib Require Import ZArith.
From S2P Require Import Prelude GoStrings GoPath Host.

Local Open Scope Z_scope.

Definition path_Join (a b : string) : string := of_bytes (Join (bytes a) (bytes b)).
Definition path_Dir (a : string) : string := of_bytes (Dir (bytes a)).

(** A directory entry: its name, and whether it is a directory. *)
Record DirEntry := { de_name : string; de_isdir : bool }.

Class FileOps (W : Type) := {
  ReadFile : W -> string -> result string;
  WriteFile : W -> string -> string -> W * option error;
  OpenAppend : W -> string -> W * option error;
  WriteString : W -> string -> string -> W * option error;
  CreateTemp : W -> string -> string -> W * result string;
  Chmod : W -> string -> Z -> W * option error;
  Sync : W -> string -> W * option error;
  CloseFile : W -> string -> W * option error;
  Rename : W -> string -> string -> W * option error;
  RemoveFile : W -> string -> W * option error;
  MakeDirs : W -> string -> W * option error;
  ReadDir : W -> string -> result (list DirEntry)
}.

(** What the operations do to the files of the machine.  A failed write may have
    written part of its data; every other failed operation changes nothing. *)
Class FileLaws (W : Type) `{FileOps W} := {
  files : W -> gmap string string;
  temp_path : string -> Prop;                 (* the names [CreateTemp] makes *)
  read_law w f : match ReadFile w f with
                 | Ok c => files w !! f = Some c
                 | Err e => errors_Is e ErrNotExist = true -> files w !! f = None
                 end;
  write_string_law w f s : match WriteString w f s with
                           | (w', None) => files w' = <[f := default "" (files w !! f) +:+ s]> (files w)
                           | (w', Some _) => exists part, files w' = <[f := part]> (files w)
                           end;
  create_temp_law w d p : match CreateTemp w d p with
                          | (w', Ok t) => temp_path t /\ files w !! t = None /\ files w' = <[t := ""]> (files w)
                          | (w', Err _) => files w' = files w
                          end;
  chmod_law w f p : files (Chmod w f p).1 = files w;
  sync_law w f : files (Sync w f).1 = files w;
  close_law w f : files (CloseFile w f).1 = files w;
  rename_law w a b : match Rename w a b with
                     | (w', None) => exists c, files w !! a = Some c /\ files w' = <[b := c]> (delete a (files w))
                     | (w', Some _) => files w' = files w
                     end;
  remove_law w f : match RemoveFile w f with
                   | (w', None) => files w' = delete f (files w)
                   | (w', Some e) => files w' = files w /\ (errors_Is e ErrNotExist = true -> files w !! f = None)
                   end
}.

(** Steps that stop at the first error. *)
Definition and_then {W} (r : W * option error) (f : W -> W * option error) : W * option error :=
  match r with (w, None) => f w | (w, Some e) => (w, Some e) end.
Definition wrapped {W} (msg : string) (r : W * option error) : W * option error := (r.1, wrap msg [] r.2).

Section atomic.
Context {W : Type} `{FileOps W}.

Definition atomicWriteFile (w : W) (filename data : string) (perm : Z) : W * option error :=
  match CreateTemp w (path_Dir filename) ".pf-tmp-*" with
  | (w, Err e) => (w, Some (Wrapf "atomicWriteFile: create temp: %w" [] e))
  | (w, Ok tmpName) =>
      let '(w, err) :=
        and_then (wrapped "atomicWriteFile: write: %w" (WriteString w tmpName data)) (fun w =>
        and_then (wrapped "atomicWriteFile: chmod: %w" (Chmod w tmpName perm)) (fun w =>
        and_then (wrapped "atomicWriteFile: sync: %w" (Sync w tmpName)) (fun w =>
        and_then (wrapped "atomicWriteFile: close: %w" (CloseFile w tmpName)) (fun w =>
        wrapped "atomicWriteFile: rename: %w" (Rename w tmpName filename))))) in
      let '(w, _) := CloseFile w tmpName in
      let '(w, _) := RemoveFile w tmpName in
      (w, err)
  end.

Context `{!FileLaws W}.

(** Only the temporary file differs. *)
Definition same_but (t : string) (w w' : W) : Prop := forall g, g <> t -> files w' !! g = files w !! g.

Lemma same_but_trans t w1 w2 w3 : same_but t w1 w2 -> same_but t w2 w3 -> same_but t w1 w3.
Proof. intros H1 H2 g Hg. by rewrite H2, H1. Qed.

Lemma cleanup_same t w : same_but t w (RemoveFile (CloseFile w t).1 t).1.
Proof.
  intros g Hg. rewrite <- (close_law w t). pose proof (remove_law (CloseFile w t).1 t) as Hr.
  destruct (RemoveFile _ t) as [w3 [e|]]; simpl in *; [by destruct Hr as [-> _]|]. by rewrite Hr, lookup_delete_ne.
Qed.

(** Whatever step fails, the file holds what it held or the new data in full, and
    the error says which; no other file changes, temporary ones apart. *)
Lemma atomicWriteFile_spec w filename data perm w' err :
  ~ temp_path filename -> atomicWriteFile w filename data perm = (w', err) ->
  files w' !! filename = (if err then files w !! filename else Some data) /\
  (forall g, g <> filename -> ~ temp_path g -> files w' !! g = files w !! g).
Proof.
  intros Htmp. unfold atomicWriteFile. pose proof (create_temp_law w (path_Dir filename) ".pf-tmp-*") as Ht.
  destruct (CreateTemp _ _ _) as [w1 [t|e]]; [|intros [= <- <-]; rewrite Ht; done]. destruct Ht as (Hname & Hfree & Hw1).
  assert (filename <> t) as Hne by congruence.
  assert (same_but t w w1) as H1 by (intros g Hg; by rewrite Hw1, lookup_insert_ne).
  assert (forall w2, same_but t w w2 -> forall e,
    (let '(w2, _) := CloseFile w2 t in let '(w2, _) := RemoveFile w2 t in (w2, Some e)) = (w', err) ->
    files w' !! filename = (if err then files w !! filename else Some data) /\
    (forall g, g <> filename -> ~ temp_path g -> files w' !! g = files w !! g)) as Hfail.
  { intros w2 Hw2 e. pose proof (same_but_trans _ _ _ _ Hw2 (cleanup_same t w2)) as Hs.
    destruct (CloseFile w2 t) as [w3 ?]. simpl in Hs. destruct (RemoveFile w3 t) as [w4 ?]. simpl in Hs. intros [= <- <-].
    split; [by apply Hs|]. intros g _ Hg. apply Hs. by intros ->. }
  pose proof (write_string_law w1 t data) as Hw. destruct (WriteString w1 t data) as [w2 [e|]]; simpl.
  { apply Hfail. destruct Hw as [part Hw]. intros g Hg. rewrite Hw, lookup_insert_ne by done. by apply H1. }
  assert (files w2 = <[t := data]> (files w)) as Hw2.
  { rewrite Hw, Hw1, lookup_insert_eq. simpl. by rewrite insert_insert_eq. }
  assert (forall w3, files w3 = files w2 -> same_but t w w3) as Hs.
  { intros w3 E g Hg. by rewrite E, Hw2, lookup_insert_ne. }
  pose proof (chmod_law w2 t perm) as Hc. destruct (Chmod w2 t perm) as [w3 [e|]]; simpl in *; [by apply Hfail, Hs|].
  pose proof (sync_law w3 t) as Hy. destruct (Sync w3 t) as [w4 [e|]]; simpl in *; [apply Hfail, Hs; congruence|].
  pose proof (close_law w4 t) as Hl. destruct (CloseFile w4 t) as [w5 [e|]]; simpl in *; [apply Hfail, Hs; congruence|].
  pose proof (rename_law w5 t filename) as Hr. destruct (Rename w5 t filename) as [w6 [e|]]; simpl in *; [apply Hfail, Hs; congruence|].
  destruct Hr as (c & Hc5 & Hw6). rewrite Hl, Hy, Hc, Hw2 in Hc5, Hw6. rewrite lookup_insert_eq in Hc5. injection Hc5 as <-.
  pose proof (cleanup_same t w6) as Hk. destruct (CloseFile w6 t) as [w7 ?]. simpl in Hk. destruct (RemoveFile w7 t) as [w8 ?]. simpl in Hk.
  intros [= <- <-]. split; [by rewrite Hk, Hw6, lookup_insert_eq|].
  intros g Hg Hgt. assert (g <> t) by (by intros ->). rewrite Hk, Hw6 by done.
  by rewrite lookup_insert_ne, lookup_delete_ne, lookup_insert_ne.
Qed.
End atomic.
