(* ===== verification/GoWords.v ===== *)
(** * Words and lines

    [strings.Fields] and [strings.TrimSpace] on text made of printable words, and
    splitting a text into its lines: what the readers of generated files need to
    know about what the writers wrote. *)

From stdpp Require Import base list sets strings.
From Stdlib Require Import Ascii ZArith Lia.
From S2P Require Import Prelude GoStrings GoText.

Local Open Scope Z_scope.

(** A visible ASCII character; a word is a non-empty run of them. *)
Definition graphic (c : ascii) : bool := (33 <=? code c) && (code c <=? 126).
Definition word (s : string) : Prop := s <> "" /\ Forall (fun c => graphic c = true) (bytes s).

Lemma graphic_not_space c e : e ∈ space_encodings -> graphic c = true -> head e <> Some c.
Proof.
  intros He Hc Hh.
  assert (forallb (fun e => match e with d :: _ => negb (graphic d) | [] => false end) space_encodings = true) as Hall by (vm_compute; reflexivity).
  rewrite forallb_true_iff, Forall_forall in Hall. specialize (Hall _ He). destruct e as [|d e]; [done|]. simpl in Hh. injection Hh as ->.
  by rewrite Hc in Hall.
Qed.

Lemma graphic_not_space_end c e : e ∈ map (@rev ascii) space_encodings -> graphic c = true -> head e <> Some c.
Proof.
  intros He Hc Hh.
  assert (forallb (fun e => match e with d :: _ => negb (graphic d) | [] => false end) (map (@rev ascii) space_encodings) = true) as Hall
    by (vm_compute; reflexivity).
  rewrite forallb_true_iff, Forall_forall in Hall. specialize (Hall _ He). destruct e as [|d e]; [done|]. simpl in Hh. injection Hh as ->.
  by rewrite Hc in Hall.
Qed.

Lemma strip_one_none encs c s : (forall e, e ∈ encs -> e <> [] /\ head e <> Some c) -> strip_one encs (c :: s) = None.
Proof.
  induction encs as [|e encs IH]; intros He; [done|]. simpl.
  destruct (He e ltac:(left)) as [Hne Hh]. destruct e as [|d e]; [done|]. simpl in *.
  destruct (Ascii.eqb_spec d c) as [->|]; [done|]. apply IH. intros e' He'. apply He. by right.
Qed.

Lemma encodings_nonempty e : e ∈ space_encodings \/ e ∈ map (@rev ascii) space_encodings -> e <> [].
Proof.
  assert (forallb (fun e => match e with [] => false | _ => true end) (space_encodings ++ map (@rev ascii) space_encodings) = true) as Hall
    by (vm_compute; reflexivity).
  rewrite forallb_true_iff, Forall_forall in Hall. intros He ->. by specialize (Hall [] ltac:(apply elem_of_app; tauto)).
Qed.

Lemma strip_graphic c s : graphic c = true -> strip_one space_encodings (c :: s) = None.
Proof. intros Hc. apply strip_one_none. intros e He. split; [apply encodings_nonempty; tauto|by apply graphic_not_space]. Qed.
Lemma strip_graphic_end c s : graphic c = true -> strip_one (map (@rev ascii) space_encodings) (c :: s) = None.
Proof. intros Hc. apply strip_one_none. intros e He. split; [apply encodings_nonempty; tauto|by apply graphic_not_space_end]. Qed.

(** Text that begins and ends with visible characters is not trimmed. *)
Lemma TrimSpace_id s c d l : bytes s = c :: l -> graphic c = true -> last (bytes s) = Some d -> graphic d = true -> TrimSpace s = s.
Proof.
  intros Es Hc Hd Hg. unfold TrimSpace. assert (strip_all (length (bytes s)) space_encodings (bytes s) = bytes s) as ->.
  { rewrite Es. cbn [length strip_all]. by rewrite strip_graphic. }
  assert (exists l', rev (bytes s) = d :: l') as [l' El].
  { apply last_Some in Hd as [l' ->]. rewrite rev_app_distr. simpl. eauto. }
  assert (strip_all (length (bytes s)) (map (@rev ascii) space_encodings) (rev (bytes s)) = rev (bytes s)) as ->.
  { rewrite El. destruct (bytes s); [done|]. cbn [length strip_all]. by rewrite strip_graphic_end. }
  by rewrite rev_involutive, of_bytes_bytes.
Qed.

Lemma word_ends s : word s -> exists c d l, bytes s = c :: l /\ graphic c = true /\ last (bytes s) = Some d /\ graphic d = true.
Proof.
  intros [Hne Hf]. destruct (bytes s) as [|c l] eqn:E; [by destruct Hne; apply (inj bytes)|].
  destruct (last (c :: l)) as [d|] eqn:El; [|by apply last_None in El].
  exists c, d, l. split_and!; [done|by inversion Hf|done|].
  rewrite Forall_forall in Hf. apply Hf. apply last_Some in El as [l' ->]. set_solver.
Qed.

Lemma TrimSpace_word s : word s -> TrimSpace s = s.
Proof. intros (c & d & l & ? & ? & ? & ?)%word_ends. by eapply TrimSpace_id. Qed.

(** ** Fields *)

Lemma fields_l_word v : forall fuel s acc, Forall (fun c => graphic c = true) v -> (length v <= fuel)%nat ->
  fields_l fuel (v ++ s) acc = fields_l (fuel - length v) s (rev v ++ acc).
Proof.
  induction v as [|c v IH]; intros fuel s acc Hv Hl; simpl in *; [by rewrite Nat.sub_0_r|].
  inversion Hv as [|? ? Hc Hv']; subst. destruct fuel as [|fuel]; [lia|]. cbn [fields_l app].
  rewrite strip_graphic by done. rewrite IH by (done || lia). simpl. by rewrite <- app_assoc.
Qed.

Lemma fields_l_space fuel s acc : acc <> [] -> fields_l (S fuel) (" "%char :: s) acc = rev acc :: fields_l fuel s [].
Proof. intros Ha. cbn [fields_l]. change (strip_one space_encodings (" "%char :: s)) with (Some s). by destruct acc. Qed.

Lemma fields_l_end fuel acc : acc <> [] -> fields_l fuel [] acc = [rev acc].
Proof. intros Ha. by destruct fuel, acc. Qed.

Lemma fields_l_words ws : forall fuel, Forall word ws -> (length (join_l (bytes " ") (map bytes ws)) <= fuel)%nat ->
  fields_l fuel (join_l (bytes " ") (map bytes ws)) [] = map bytes ws.
Proof.
  induction ws as [|w ws IH]; intros fuel Hw Hl; [by destruct fuel|]. inversion Hw as [|? ? [Hne Hg] Hws]; subst.
  assert (bytes w <> []) as Hnil by (intros E; apply Hne; by apply (inj bytes)).
  assert (rev (bytes w) ++ [] <> []) as Hacc.
  { rewrite app_nil_r. intros E. apply Hnil. apply (f_equal (@rev ascii)) in E. by rewrite rev_involutive in E. }
  destruct ws as [|w' ws].
  - simpl in *. rewrite <- (app_nil_r (bytes w)) at 1. rewrite fields_l_word by done.
    rewrite fields_l_end by done. by rewrite app_nil_r, rev_involutive.
  - change (join_l (bytes " ") (map bytes (w :: w' :: ws))) with (bytes w ++ " "%char :: join_l (bytes " ") (map bytes (w' :: ws))) in *.
    rewrite length_app in Hl. cbn [length] in Hl. rewrite fields_l_word by (done || lia).
    destruct (fuel - length (bytes w))%nat as [|k] eqn:Ek; [lia|]. rewrite fields_l_space by done.
    rewrite IH by (done || lia). simpl. by rewrite app_nil_r, rev_involutive.
Qed.

(** Words put together with single blanks are found again. *)
Lemma Fields_words ws : Forall word ws -> Fields (JoinStrings ws " ") = ws.
Proof.
  intros Hw. unfold Fields, JoinStrings. rewrite !bytes_of_bytes, fields_l_words by done.
  rewrite map_map. erewrite map_ext; [apply map_id|]. intros. apply of_bytes_bytes.
Qed.

(** ** Lines *)

Lemma Lines_Join ls : ls <> [] -> Forall (fun l => newline ∉ bytes l) ls -> Lines (JoinStrings ls (String newline "")) = ls.
Proof.
  intros Hne Hf. unfold Lines, Split, JoinStrings. rewrite bytes_of_bytes. change (bytes (String newline "")) with [newline].
  rewrite split_l_join_l.
  - rewrite map_map. erewrite map_ext; [apply map_id|]. intros. apply of_bytes_bytes.
  - by destruct ls.
  - by apply Forall_map.
Qed.

Lemma join_l_snoc sep ls x : ls <> [] -> join_l sep (ls ++ [x]) = join_l sep ls ++ sep ++ x.
Proof.
  induction ls as [|l ls IH]; intros Hne; [done|]. destruct ls as [|l' ls]; [done|].
  change (join_l sep ((l :: l' :: ls) ++ [x])) with (l ++ sep ++ join_l sep ((l' :: ls) ++ [x])).
  rewrite IH by done. simpl. by rewrite <- !app_assoc.
Qed.

(** Lines added to a text that ends in a newline. *)
Lemma join_l_extend sep ls more : ls <> [] ->
  join_l sep (ls ++ [[]]) ++ join_l sep (more ++ [[]]) = join_l sep (ls ++ more ++ [[]]).
Proof.
  intros Hne. induction ls as [|l ls IH]; [done|]. destruct ls as [|l' ls].
  - destruct more as [|m more]; simpl; rewrite ?app_nil_r; [done|]. by rewrite <- app_assoc.
  - change (join_l sep ((l :: l' :: ls) ++ [[]])) with (l ++ sep ++ join_l sep ((l' :: ls) ++ [[]])).
    change (join_l sep ((l :: l' :: ls) ++ more ++ [[]])) with (l ++ sep ++ join_l sep ((l' :: ls) ++ more ++ [[]])).
    rewrite <- !app_assoc. f_equal. f_equal. by apply IH.
Qed.

Lemma word_no_space s : word s -> " "%char ∉ bytes s /\ newline ∉ bytes s.
Proof. intros [_ Hf]. rewrite Forall_forall in Hf. split; intros Hin; by specialize (Hf _ Hin). Qed.

(** What follows the last blank. *)
Lemma after_last_space a b x y : " "%char ∉ x -> " "%char ∉ y -> a ++ " "%char :: x = b ++ " "%char :: y -> x = y.
Proof.
  intros Hx Hy E. apply (f_equal (@rev ascii)) in E. rewrite !rev_app_distr in E. simpl in E. rewrite <- !app_assoc in E. simpl in E.
  assert (forall u v p q, " "%char ∉ u -> " "%char ∉ v -> u ++ " "%char :: p = v ++ " "%char :: q -> u = v) as Hinj.
  { induction u as [|c u IH]; intros v p q Hu Hv Ev; destruct v as [|d v]; simpl in Ev; simplify_eq; [done|set_solver|set_solver|].
    f_equal. eapply IH; [set_solver|set_solver|done]. }
  apply Hinj in E; [|by rewrite list_elem_of_In, <- in_rev, <- list_elem_of_In..].
  apply (f_equal (@rev ascii)) in E. by rewrite !rev_involutive in E.
Qed.

(** A separator inside the text splits the splitting. *)
Lemma split_l_app c u s : split_l c (u ++ c :: s) = split_l c u ++ split_l c s.
Proof.
  induction u as [|d u IH]; simpl; [by rewrite Ascii.eqb_refl|]. rewrite IH. destruct (Ascii.eqb c d); [done|].
  by destruct (split_l c u) eqn:E; [destruct u; simpl in E; repeat case_match|].
Qed.

Lemma split_l_head c p v : c ∉ p -> exists w ws, split_l c (p ++ v) = (p ++ w) :: ws.
Proof.
  induction p as [|d p IH]; intros Hp; simpl.
  - destruct (split_l c v) as [|w ws] eqn:E; [destruct v; simpl in E; repeat case_match; done|]. by exists w, ws.
  - destruct (Ascii.eqb_spec c d) as [->|_]; [set_solver|]. destruct IH as (w & ws & ->); [set_solver|]. by exists w, ws.
Qed.

(** A blank and a prefix occur in a sequence of words only where a word has the prefix. *)
Lemma Contains_word ws p : ws <> [] -> Forall word ws -> " "%char ∉ bytes p -> Contains (JoinStrings ws " ") (String " " p) = true ->
  exists w, w ∈ ws /\ HasPrefix w p = true.
Proof.
  intros Hne Hw Hp (u & v & E)%Contains_spec. apply (f_equal bytes) in E. unfold JoinStrings in E. rewrite bytes_of_bytes, !bytes_app in E.
  change (bytes (String " " p)) with (" "%char :: bytes p) in E. apply (f_equal (split_l " ")) in E.
  change (bytes " ") with [" "%char] in E. cbn [app] in E. rewrite split_l_app, split_l_join_l in E.
  - destruct (split_l_head " " (bytes p) (bytes v) Hp) as (w & rest & Es). rewrite Es in E.
    exists (of_bytes (bytes p ++ w)). split.
    + assert (bytes p ++ w ∈ map bytes ws) as Hin by (rewrite E; set_solver). apply list_elem_of_fmap in Hin as (x & -> & Hx).
      by rewrite of_bytes_bytes.
    + apply HasPrefix_spec. exists (of_bytes w). by rewrite of_bytes_app, of_bytes_bytes.
  - by destruct ws.
  - apply Forall_map. eapply Forall_impl; [exact Hw|]. intros w Hww. by apply word_no_space in Hww as [? _].
Qed.

Lemma word_join_last ws d : last ws = Some d -> Forall word ws -> exists c, last (bytes (JoinStrings ws " ")) = Some c /\ graphic c = true.
Proof.
  intros (ws' & ->)%last_Some Hw. apply Forall_app in Hw as [_ Hd]. inversion Hd as [|? ? Hd' _]; subst.
  apply word_ends in Hd' as (c0 & c & l & E & _ & Hl & Hc). exists c. split; [|done].
  unfold JoinStrings. rewrite bytes_of_bytes, map_app. cbn [map]. destruct ws' as [|w ws'].
  - done.
  - rewrite join_l_snoc by done. apply last_Some in Hl as [k Hk]. rewrite Hk, !app_assoc. apply last_snoc.
Qed.
Lemma Itoa_word n : 0 <= n -> word (Itoa n).
Proof.
  intros (Hne & Hd & _)%Itoa_digits. split; [by intros E; rewrite E in Hne|].
  rewrite forallb_true_iff in Hd. eapply Forall_impl; [exact Hd|]. intros c Hc.
  apply (ascii_implies is_digit graphic); [vm_compute; reflexivity|done].
Qed.
