(* ===== verification/FwRules.v ===== *)
(** * Firewall rules (pkg/firewall/rules.go)

    Port mappings, NAT rules and rule sets, their validation, the identifiers of
    mappings and the port specifications of the command line. *)

From stdpp Require Import base list strings.
From Stdlib Require Import Ascii ZArith Lia.
From S2P Require Import Prelude GoStrings GoText GoNet Validation.

Local Open Scope Z_scope.

Definition ProtocolTCP : string := "tcp".
Definition ProtocolUDP : string := "udp".

Record PortMapping := {
  PM_ID : string; PM_Instance : string; PM_Provider : string; PM_Protocol : string; PM_HostPort : Z; PM_TargetIP : string;
  PM_TargetPort : Z; PM_HostInterface : string; PM_Description : string; PM_Active : bool
}.

Record NATRule := {
  NR_ID : string; NR_Instance : string; NR_Provider : string; NR_SourceNetwork : string; NR_OutInterface : string; NR_Active : bool
}.

Record RuleSet := {
  RuleSet_Instance : string; RuleSet_Provider : string; RuleSet_PortMappings : list PortMapping; RuleSet_NATRules : list NATRule
}.

#[export] Instance PortMapping_eq_dec : EqDecision PortMapping.
Proof. solve_decision. Defined.
#[export] Instance NATRule_eq_dec : EqDecision NATRule.
Proof. solve_decision. Defined.

Definition is_port (n : Z) : bool := (1 <=? n) && (n <=? 65535).

Definition PortMapping_Validate (pm : PortMapping) : option error :=
  if streq (PM_Instance pm) "" then Some (Errorf "instance name is required" [])
  else match ValidateInstanceName (PM_Instance pm) with
  | Some e => Some (Wrapf "invalid instance name: %w" [] e)
  | None =>
  match (if streq (PM_Provider pm) "" then None else ValidateProviderName (PM_Provider pm)) with
  | Some e => Some (Wrapf "invalid provider: %w" [] e)
  | None =>
  match (if streq (PM_HostInterface pm) "" then None else ValidateInterfaceName (PM_HostInterface pm)) with
  | Some e => Some (Wrapf "invalid host interface: %w" [] e)
  | None =>
  if negb (streq (PM_Protocol pm) ProtocolTCP) && negb (streq (PM_Protocol pm) ProtocolUDP)
  then Some (Errorf "protocol must be 'tcp' or 'udp', got '%s'" [PM_Protocol pm])
  else if negb (is_port (PM_HostPort pm)) then Some (Errorf "host_port must be between 1 and 65535, got %d" [Itoa (PM_HostPort pm)])
  else if negb (is_port (PM_TargetPort pm)) then Some (Errorf "target_port must be between 1 and 65535, got %d" [Itoa (PM_TargetPort pm)])
  else if streq (PM_TargetIP pm) "" then Some (Errorf "target_ip is required" [])
  else match ParseIP (PM_TargetIP pm) with
       | None => Some (Errorf "invalid target_ip: %s" [PM_TargetIP pm])
       | Some _ => None
       end
  end end end.

(** The separator is a slash. *)
Definition slashes (parts : list string) : string := JoinStrings parts "/".
Definition or_any (s : string) : string := if streq s "" then "any" else s.

Definition GenerateID (pm : PortMapping) : string :=
  slashes [PM_Instance pm; PM_Provider pm; PM_Protocol pm; or_any (PM_HostInterface pm); Itoa (PM_HostPort pm);
           or_any (PM_TargetIP pm); Itoa (PM_TargetPort pm)].

Definition PortMapping_String (pm : PortMapping) : string :=
  PM_HostInterface pm +:+ ":" +:+ Itoa (PM_HostPort pm) +:+ " -> " +:+ PM_TargetIP pm +:+ ":" +:+ Itoa (PM_TargetPort pm) +:+
  " (" +:+ PM_Protocol pm +:+ ")".

Definition NATRule_Validate (nr : NATRule) : option error :=
  if streq (NR_Instance nr) "" then Some (Errorf "instance name is required" [])
  else match ValidateInstanceName (NR_Instance nr) with
  | Some e => Some (Wrapf "invalid instance name: %w" [] e)
  | None =>
  if streq (NR_SourceNetwork nr) "" then Some (Errorf "source_network is required" [])
  else match ParseCIDR (NR_SourceNetwork nr) with
  | None => Some (Errorf "invalid source_network CIDR: %s" [NR_SourceNetwork nr])
  | Some _ => if streq (NR_OutInterface nr) "" then Some (Errorf "out_interface is required" []) else None
  end end.

(** The protocol of a specification, and what is left of it. *)
Definition spec_protocol (spec : string) : result (string * string) :=
  match Cut spec "/" with
  | None => Ok (ProtocolTCP, spec)
  | Some (p, rest) =>
      if streq (ToLower p) "tcp" then Ok (ProtocolTCP, rest)
      else if streq (ToLower p) "udp" then Ok (ProtocolUDP, rest)
      else Err (Errorf "invalid protocol: %s" [p])
  end.

Definition spec_ports (portSpec : string) : result (Z * Z) :=
  match Cut portSpec ":" with
  | Some (h, t) =>
      match Atoi h with
      | Err _ => Err (Errorf "invalid host port: %s" [h])
      | Ok hp => match Atoi t with
                 | Err _ => Err (Errorf "invalid target port: %s" [t])
                 | Ok tp => Ok (hp, tp)
                 end
      end
  | None => match Atoi portSpec with Err _ => Err (Errorf "invalid port: %s" [portSpec]) | Ok p => Ok (p, p) end
  end.

Definition ParsePortSpec (spec : string) : result (string * Z * Z) :=
  match spec_protocol spec with
  | Err e => Err e
  | Ok (protocol, portSpec) =>
      match spec_ports portSpec with
      | Err e => Err e
      | Ok (hostPort, targetPort) =>
          if negb (is_port hostPort) then Err (Errorf "host port out of range (1-65535): %d" [Itoa hostPort])
          else if negb (is_port targetPort) then Err (Errorf "target port out of range (1-65535): %d" [Itoa targetPort])
          else Ok (protocol, hostPort, targetPort)
      end
  end.

(** ** What validation guarantees *)

Lemma is_port_range n : is_port n = true <-> 1 <= n <= 65535.
Proof. unfold is_port. rewrite andb_true_iff, !Z.leb_le. lia. Qed.

Lemma PortMapping_Validate_None pm : PortMapping_Validate pm = None ->
  ValidateInstanceName (PM_Instance pm) = None /\ (PM_Provider pm = "" \/ ValidateProviderName (PM_Provider pm) = None) /\
  (PM_HostInterface pm = "" \/ ValidateInterfaceName (PM_HostInterface pm) = None) /\
  (PM_Protocol pm = "tcp" \/ PM_Protocol pm = "udp") /\ 1 <= PM_HostPort pm <= 65535 /\ 1 <= PM_TargetPort pm <= 65535 /\
  is_Some (ParseIP (PM_TargetIP pm)).
Proof.
  unfold PortMapping_Validate. destruct (streq (PM_Instance pm) ""); [done|].
  destruct (ValidateInstanceName _); [done|].
  destruct (streq (PM_Provider pm) "") eqn:Ep; [|destruct (ValidateProviderName _) eqn:Ep2; [done|]];
  (destruct (streq (PM_HostInterface pm) "") eqn:Ei; [|destruct (ValidateInterfaceName _) eqn:Ei2; [done|]]);
  (destruct (negb (streq (PM_Protocol pm) ProtocolTCP) && _) eqn:Epr; [done|]);
  (destruct (is_port (PM_HostPort pm)) eqn:Eh; [|done]); (destruct (is_port (PM_TargetPort pm)) eqn:Et; [|done]);
  simpl; (destruct (streq (PM_TargetIP pm) ""); [done|]); (destruct (ParseIP _) eqn:E; [|done]); intros _;
  apply is_port_range in Eh, Et; apply andb_false_iff in Epr; rewrite !negb_false_iff, !streq_true in Epr;
  rewrite ?streq_true in *; (split_and!; try lia; naive_solver).
Qed.

Lemma NATRule_Validate_None nr : NATRule_Validate nr = None ->
  ValidateInstanceName (NR_Instance nr) = None /\ is_Some (ParseCIDR (NR_SourceNetwork nr)) /\ NR_OutInterface nr <> "".
Proof.
  unfold NATRule_Validate. destruct (streq (NR_Instance nr) ""); [done|]. destruct (ValidateInstanceName _); [done|].
  destruct (streq (NR_SourceNetwork nr) ""); [done|]. destruct (ParseCIDR _); [|done].
  destruct (streq (NR_OutInterface nr) "") eqn:E; [done|]. apply streq_false in E. naive_solver.
Qed.
