(* ===== verification/Pf.v ===== *)
(** * The PF backend (pkg/firewall/pf.go, proxy.go)

    The rules live in three files, as blocks: a comment with the identifier and
    the instance, then the rules.  The functions on the text of such a file come
    first, then the backend's methods, over the files and programs of the machine
    and the localhost proxies the daemon keeps. *)

From stdpp Require Import base list gmap strings.
From Stdlib Require Import Ascii ZArith Lia.
From S2P Require Import Prelude GoStrings GoText GoPath GoNet Host GoHttp Files Validation FwRules.

Local Open Scope Z_scope.

Definition pfAnchorName : string := "hospitus".
Definition DefaultPFRulesDir : string := "/var/lib/hospitus/firewall/pf".

Definition nl : string := String newline "".
Definition cr : ascii := "013"%char.

(** ** The text of rules *)

(** Accepted interface names: [ok_at i c] for the character at position [i]. *)
Definition iface_char (first : bool) (c : ascii) : bool :=
  alpha c || (negb first && (is_digit c || one_of "_-." c)).
Fixpoint iface_chars (first : bool) (l : list ascii) : bool :=
  match l with [] => true | c :: l => iface_char first c && iface_chars false l end.

Definition validateIfaceName (iface : string) : option error :=
  if streq iface "" then Some (Errorf "interface name must not be empty" [])
  else if iface_chars true (bytes iface) then None
  else Some (Errorf "invalid interface name %q: character %q at position %d is not allowed" [iface]).

Definition checkRuleText (id instance : string) (rules : list string) : option error :=
  if ContainsAny id (String cr nl) then Some (Errorf "rule ID contains newline" [])
  else if ContainsAny instance (String cr nl) then Some (Errorf "instance name contains newline" [])
  else for_each (fun rule =>
    if ContainsAny rule (String cr "") then Some (Errorf "PF rule contains carriage return" [])
    else if Contains (TrimSuffix rule nl) nl then Some (Errorf "PF rule contains multiple lines" [])
    else None) rules.

Definition rdr_rule (iface : string) (m : PortMapping) : string :=
  "rdr pass on " +:+ iface +:+ " proto " +:+ PM_Protocol m +:+ " from any to any port " +:+ Itoa (PM_HostPort m) +:+ " -> " +:+
  PM_TargetIP m +:+ " port " +:+ Itoa (PM_TargetPort m).

Definition generateNatRule (rule : NATRule) : result string :=
  match validateIfaceName (NR_OutInterface rule) with
  | Some e => Err (Wrapf "NAT rule interface rejected: %w" [] e)
  | None => Ok ("nat on " +:+ NR_OutInterface rule +:+ " from " +:+ NR_SourceNetwork rule +:+ " to any -> (" +:+ NR_OutInterface rule +:+ ")")
  end.

(** The interface of the default route, in the output of route(8). *)
Fixpoint route_interface (lines : list string) : result string :=
  match lines with
  | [] => Err (Errorf "no default route" [])
  | line :: rest =>
      let line := TrimSpace line in
      if negb (HasPrefix line "interface:") then route_interface rest
      else match Fields line with
           | _ :: iface :: _ =>
               match validateIfaceName iface with
               | Some e => Err (Wrapf "route named an unusable interface: %w" [] e)
               | None => Ok iface
               end
           | _ => route_interface rest
           end
  end.

(** ** Rule files *)

Definition id_marker : string := "# ID:".
Definition block_header (id instance : string) : string := "# ID: " +:+ id +:+ " instance:" +:+ instance.

(** What [appendRules] writes for a block. *)
Definition block_text (id instance : string) (rules : list string) : string :=
  block_header id instance +:+ nl +:+ foldr (fun r t => r +:+ nl +:+ t) "" rules.

Definition commentRuleID (line : string) : string :=
  if negb (HasPrefix line id_marker) then ""
  else match Fields line with _ :: _ :: id :: _ => id | _ => "" end.

(** The marker of [id] with a rule on the line below it. *)
Fixpoint marker_with_rule (marker : string) (lines : list string) : bool :=
  match lines with
  | line :: rest =>
      (HasPrefix line marker &&
       match rest with
       | next :: _ => let next := TrimSpace next in negb (streq next "") && negb (HasPrefix next "#")
       | [] => false
       end) || marker_with_rule marker rest
  | [] => false
  end.
Definition rule_in_text (content id : string) : bool := marker_with_rule ("# ID: " +:+ id +:+ " ") (Lines content).

(** The identifier of the first redirection that uses this port. *)
Fixpoint port_user (hostPort : Z) (protocol : string) (currentID : string) (lines : list string) : string :=
  match lines with
  | [] => ""
  | line :: rest =>
      if HasPrefix line id_marker then
        port_user hostPort protocol (match Fields line with _ :: _ :: id :: _ => id | _ => currentID end) rest
      else if HasPrefix line "rdr " && Contains line ("proto " +:+ protocol) && Contains line (" port " +:+ Itoa hostPort +:+ " ")
      then currentID
      else port_user hostPort protocol currentID rest
  end.

(** The loop of [removeRule] and [removeInstanceRules]: the lines from one that
    is a target to the next identifier or blank line are left out. *)
Fixpoint drop_blocks (target : string -> bool) (skipping : bool) (lines : list string) : list string :=
  match lines with
  | [] => []
  | line :: rest =>
      if target line then drop_blocks target true rest
      else if skipping then
        if HasPrefix line id_marker then line :: drop_blocks target false rest
        else if streq (TrimSpace line) "" then drop_blocks target false rest
        else drop_blocks target true rest
      else line :: drop_blocks target false rest
  end.

Definition of_id (id line : string) : bool := streq (commentRuleID line) id.
Definition of_instance (instance line : string) : bool := HasSuffix line (" instance:" +:+ instance).
Definition drop_from (target : string -> bool) (content : string) : string :=
  JoinStrings (drop_blocks target false (Lines content)) nl.

(** The words of a redirection; [h] and [t] are the ports read so far. *)
Fixpoint rdr_words (protocol : string) (h t : Z) (ip : string) (parts : list string) : string * Z * Z * string :=
  match parts with
  | [] => (protocol, h, t, ip)
  | part :: rest =>
      match rest with
      | [] => (protocol, h, t, ip)
      | next :: _ =>
          if streq part "proto" then rdr_words next h t ip rest
          else if streq part "port" then
            match Atoi next with
            | Ok port => if h =? 0 then rdr_words protocol port t ip rest else rdr_words protocol h port ip rest
            | Err _ => rdr_words protocol h t ip rest
            end
          else if streq part "->" then rdr_words protocol h t next rest
          else rdr_words protocol h t ip rest
      end
  end.

Definition parseRdrRule (rule id instance : string) : option PortMapping :=
  let parts := Fields rule in
  if Z.of_nat (length parts) <? 12 then None
  else
    let '(protocol, h, t, ip) := rdr_words "" 0 0 "" parts in
    if (0 <? h) && negb (streq protocol "")
    then Some {| PM_ID := id; PM_Instance := instance; PM_Provider := ""; PM_Protocol := protocol; PM_HostPort := h; PM_TargetIP := ip;
                 PM_TargetPort := t; PM_HostInterface := ""; PM_Description := ""; PM_Active := false |}
    else None.

(** [findInstancePortMappings] on the lines of the file. *)
Fixpoint instance_mappings (instance : string) (inBlock : bool) (currentID : string) (lines : list string) : list PortMapping :=
  match lines with
  | [] => []
  | line :: rest =>
      if of_instance instance line then
        instance_mappings instance true (match Fields line with _ :: _ :: id :: _ => id | _ => currentID end) rest
      else
        let '(inBlock, currentID) := if inBlock && HasPrefix line id_marker then (false, "") else (inBlock, currentID) in
        let found := if inBlock && HasPrefix line "rdr " then parseRdrRule line currentID instance else None in
        let '(inBlock, currentID) := if inBlock && streq line "" then (false, "") else (inBlock, currentID) in
        match found with Some m => m :: instance_mappings instance inBlock currentID rest
                       | None => instance_mappings instance inBlock currentID rest end
  end.

Definition activate (m : PortMapping) : PortMapping :=
  {| PM_ID := PM_ID m; PM_Instance := PM_Instance m; PM_Provider := PM_Provider m; PM_Protocol := PM_Protocol m;
     PM_HostPort := PM_HostPort m; PM_TargetIP := PM_TargetIP m; PM_TargetPort := PM_TargetPort m;
     PM_HostInterface := PM_HostInterface m; PM_Description := PM_Description m; PM_Active := true |}.

(** [ListRules] on the lines of the file. *)
Fixpoint listed_mappings (curID curInstance : string) (lines : list string) : list PortMapping :=
  match lines with
  | [] => []
  | line :: rest =>
      if HasPrefix line id_marker then
        match Fields line with
        | _ :: _ :: id :: more =>
            let inst := match List.find (fun p => HasPrefix p "instance:") more with Some p => TrimPrefix p "instance:" | None => "" end in
            listed_mappings id inst rest
        | _ => listed_mappings curID curInstance rest
        end
      else if negb (streq curID "") && HasPrefix line "rdr " then
        match parseRdrRule line curID curInstance with
        | Some m => activate m :: listed_mappings "" curInstance rest
        | None => listed_mappings curID curInstance rest
        end
      else listed_mappings curID curInstance rest
  end.

(** ** The combined ruleset *)

Definition rule_key (line : string) : string := JoinStrings (Fields line) " ".

(** The lines [dedupeRuleLines] keeps, each with the comments before it. *)
Fixpoint dedupe (seen pending : list string) (lines : list string) : list string :=
  match lines with
  | [] => []
  | line :: rest =>
      let trimmed := TrimSpace line in
      if streq trimmed "" then dedupe seen pending rest
      else if HasPrefix trimmed "#" then dedupe seen (pending ++ [trimmed]) rest
      else
        let key := rule_key trimmed in
        if existsb (streq key) seen then dedupe seen [] rest
        else pending ++ trimmed :: dedupe (key :: seen) [] rest
  end.
Definition dedupeRuleLines (content : string) : string :=
  foldr (fun line t => line +:+ nl +:+ t) "" (dedupe [] [] (Lines content)).

(** Followed by a newline, if it is not empty and does not end in one. *)
Definition terminated (content : string) : string :=
  if streq content "" then "" else if HasSuffix content nl then content else content +:+ nl.

Definition combined_text (nat_ rdr filter_ : string) : string := terminated nat_ +:+ terminated rdr +:+ filter_.

Definition anchorDeclared (ruleset kind : string) : bool := Contains ruleset (kind +:+ " " +:+ Quote pfAnchorName).
Definition natAnchorDeclared (natRuleset : string) : bool := anchorDeclared natRuleset "nat-anchor".
Definition pluralDeclaration (n : Z) : string := if n =? 1 then "this anchor declaration" else "these anchor declarations".

(** ** The localhost proxy *)

(** What each proxy forwards to, by its key. *)
Definition TCPProxy := gmap string (string * Z).
Definition proxyKey (hostPort : Z) (protocol : string) : string := protocol +:+ "-" +:+ Itoa hostPort.
Definition IsRunning (p : TCPProxy) (hostPort : Z) (protocol : string) : bool := bool_decide (is_Some (p !! proxyKey hostPort protocol)).

Section backend.
Context {W : Type} `{Host W} `{FileOps W}.
(** [net.Listen("tcp", addr)]. *)
Context (Listen : W -> string -> option error).

Definition proxy_Start (p : TCPProxy) (w : W) (m : PortMapping) : TCPProxy * option error :=
  let key := proxyKey (PM_HostPort m) (PM_Protocol m) in
  if bool_decide (is_Some (p !! key)) then (p, None)
  else if negb (streq (PM_Protocol m) ProtocolTCP) then (p, None)
  else
    let listenAddr := "127.0.0.1:" +:+ Itoa (PM_HostPort m) in
    match Listen w listenAddr with
    | Some e => (p, Some (Wrapf "failed to listen on %s: %w" [listenAddr] e))
    | None => (<[key := (PM_TargetIP m, PM_TargetPort m)]> p, None)
    end.
Definition proxy_Stop (p : TCPProxy) (m : PortMapping) : TCPProxy := delete (proxyKey (PM_HostPort m) (PM_Protocol m)) p.
Definition proxy_StopAll (p : TCPProxy) : TCPProxy := ∅.

(** ** The backend *)

Record PFBackend := { pf_rulesDir : string; pf_proxy : TCPProxy }.

Definition NewPFBackendWithDir (rulesDir : string) : PFBackend :=
  {| pf_rulesDir := if streq rulesDir "" then DefaultPFRulesDir else rulesDir; pf_proxy := ∅ |}.

Definition natFile (p : PFBackend) : string := path_Join (pf_rulesDir p) "nat.rules".
Definition rdrFile (p : PFBackend) : string := path_Join (pf_rulesDir p) "rdr.rules".
Definition filterFile (p : PFBackend) : string := path_Join (pf_rulesDir p) "filter.rules".
Definition combinedFile (p : PFBackend) : string := path_Join (pf_rulesDir p) "combined.rules".

Definition readRuleFile (w : W) (path : string) : result string :=
  match ReadFile w path with
  | Ok c => Ok c
  | Err e => if errors_Is e ErrNotExist then Ok "" else Err (Wrapf "failed to read rule file %s: %w" [path] e)
  end.

Definition ruleExists (w : W) (filename id : string) : bool :=
  match ReadFile w filename with Ok c => rule_in_text c id | Err _ => false end.

Definition hostPortInUse (w : W) (filename : string) (hostPort : Z) (protocol : string) : string :=
  match ReadFile w filename with Ok c => port_user hostPort protocol "" (Lines c) | Err _ => "" end.

Definition appendRules (w : W) (filename id instance : string) (rules : list string) : W * option error :=
  if ruleExists w filename id then (w, None)
  else match checkRuleText id instance rules with
       | Some e => (w, Some e)
       | None => and_then (OpenAppend w filename) (fun w => WriteString w filename (block_text id instance rules))
       end.
Definition appendRule (w : W) (filename id instance rule : string) : W * option error := appendRules w filename id instance [rule].

(** Reads the file, drops the blocks of the target, writes it back; a file that
    is not there stays so. *)
Definition rewrite_without (w : W) (filename : string) (target : string -> bool) : W * option error :=
  match ReadFile w filename with
  | Err e => (w, if errors_Is e ErrNotExist then None else Some e)
  | Ok content => atomicWriteFile w filename (drop_from target content) 384   (* 0600 *)
  end.
Definition removeRule (w : W) (filename id : string) : W * option error := rewrite_without w filename (of_id id).
Definition removeInstanceRules (w : W) (filename instance : string) : W * option error := rewrite_without w filename (of_instance instance).

Definition reloadRulesNoLock (p : PFBackend) (w : W) : W * option error :=
  match readRuleFile w (natFile p) with
  | Err e => (w, Some e)
  | Ok nat_ =>
  match readRuleFile w (rdrFile p) with
  | Err e => (w, Some e)
  | Ok rdr =>
  match readRuleFile w (filterFile p) with
  | Err e => (w, Some e)
  | Ok filter_ =>
      and_then (wrapped "failed to write combined rules: %w" (atomicWriteFile w (combinedFile p) (dedupeRuleLines (combined_text nat_ rdr filter_)) 384))
        (fun w => let '(w, x) := exec w (Command ["pfctl"; "-a"; pfAnchorName; "-f"; combinedFile p]) in
                  (w, match ex_err x with Some e => Some (Wrapf "failed to load rules: %w: %s" [ex_combined x] e) | None => None end))
  end end end.

Definition AddFilterRule (p : PFBackend) (w : W) (ruleID instance pfRule : string) : W * option error :=
  and_then (wrapped "failed to append filter rule: %w" (appendRule w (filterFile p) ruleID instance pfRule)) (reloadRulesNoLock p).
Definition AddRawNATRule (p : PFBackend) (w : W) (ruleID instance pfRule : string) : W * option error :=
  and_then (wrapped "failed to append nat rule: %w" (appendRule w (natFile p) ruleID instance pfRule)) (reloadRulesNoLock p).

Definition getDefaultInterface (w : W) : W * result string :=
  let '(w, x) := exec w (Command ["route"; "-n"; "get"; "default"]) in
  (w, match ex_err x with
      | Some e => Err (Wrapf "route -n get default: %w" [] e)
      | None => route_interface (Lines (ex_stdout x))
      end).

Definition generateRdrRules (w : W) (m : PortMapping) : W * result (list string) :=
  let '(w, iface) :=
    if streq (PM_HostInterface m) "" then
      let '(w, r) := getDefaultInterface w in
      (w, match r with
          | Err e => Err (Wrapf "cannot determine the external interface for a redirection to %s: %w (name it explicitly)" [PM_TargetIP m] e)
          | Ok i => Ok i
          end)
    else (w, Ok (PM_HostInterface m)) in
  (w, match iface with
      | Err e => Err e
      | Ok iface => match validateIfaceName iface with
                    | Some e => Err (Wrapf "port mapping interface rejected: %w" [] e)
                    | None => Ok [rdr_rule iface m]
                    end
      end).

Definition set_proxy (p : PFBackend) (x : TCPProxy) : PFBackend := {| pf_rulesDir := pf_rulesDir p; pf_proxy := x |}.

Definition pf_AddPortMapping (p : PFBackend) (w : W) (m : PortMapping) : PFBackend * W * option error :=
  match PortMapping_Validate m with
  | Some e => (p, w, Some e)
  | None =>
      let conflictID := hostPortInUse w (rdrFile p) (PM_HostPort m) (PM_Protocol m) in
      if negb (streq conflictID "") then
        if streq conflictID (PM_ID m) then (p, w, None)
        else (p, w, Some (Errorf "host port %d/%s is already in use by rule %s" [Itoa (PM_HostPort m); PM_Protocol m; conflictID]))
      else
        let '(proxies, err) := proxy_Start (pf_proxy p) w m in
        let started := is_nil err in
        let p := set_proxy p proxies in
        let undo p := if started then set_proxy p (proxy_Stop (pf_proxy p) m) else p in
        let '(w, rules) := generateRdrRules w m in
        match rules with
        | Err e => (undo p, w, Some e)
        | Ok rules =>
            match and_then (appendRules w (rdrFile p) (PM_ID m) (PM_Instance m) rules) (reloadRulesNoLock p) with
            | (w, Some e) => (undo p, w, Some e)
            | (w, None) => (p, w, None)
            end
        end
  end.

Definition pf_RemovePortMapping (p : PFBackend) (w : W) (m : PortMapping) : PFBackend * W * option error :=
  let p := set_proxy p (proxy_Stop (pf_proxy p) m) in
  match removeRule w (rdrFile p) (PM_ID m) with
  | (w, Some e) => (p, w, Some e)
  | (w, None) =>
      let '(w, _) := removeRule w (natFile p) (PM_ID m +:+ "-localhost-nat") in
      let '(w, err) := reloadRulesNoLock p w in
      (p, w, err)
  end.

Definition pass_in (rule : NATRule) : string := "pass in inet from " +:+ NR_SourceNetwork rule +:+ " keep state".
Definition pass_out (rule : NATRule) : string := "pass out inet to " +:+ NR_SourceNetwork rule +:+ " keep state".

Definition pf_AddNATRule (p : PFBackend) (w : W) (rule : NATRule) : W * option error :=
  match NATRule_Validate rule with
  | Some e => (w, Some e)
  | None =>
      match generateNatRule rule with
      | Err e => (w, Some e)
      | Ok pfRule =>
          and_then (appendRule w (natFile p) (NR_ID rule) (NR_Instance rule) pfRule) (fun w =>
          match appendRule w (filterFile p) (NR_ID rule +:+ "-pass") (NR_Instance rule) (pass_in rule) with
          | (w, Some e) =>
              let '(w, _) := removeRule w (natFile p) (NR_ID rule) in
              (w, Some (Wrapf "failed to add filter pass-in rule: %w" [] e))
          | (w, None) =>
              match appendRule w (filterFile p) (NR_ID rule +:+ "-pass-out") (NR_Instance rule) (pass_out rule) with
              | (w, Some e) =>
                  let '(w, _) := removeRule w (natFile p) (NR_ID rule) in
                  let '(w, _) := removeRule w (filterFile p) (NR_ID rule +:+ "-pass") in
                  (w, Some (Wrapf "failed to add filter pass-out rule: %w" [] e))
              | (w, None) => reloadRulesNoLock p w
              end
          end)
      end
  end.

Definition pf_RemoveNATRule (p : PFBackend) (w : W) (rule : NATRule) : W * option error :=
  and_then (removeRule w (natFile p) (NR_ID rule)) (fun w =>
  let '(w, _) := removeRule w (filterFile p) (NR_ID rule +:+ "-pass") in
  let '(w, _) := removeRule w (filterFile p) (NR_ID rule +:+ "-pass-out") in
  reloadRulesNoLock p w).

Definition findInstancePortMappings (w : W) (filename instance : string) : list PortMapping :=
  match ReadFile w filename with Ok c => instance_mappings instance false "" (Lines c) | Err _ => [] end.

Definition pf_RemoveAllRules (p : PFBackend) (w : W) (instance : string) : PFBackend * W * option error :=
  let mappings := findInstancePortMappings w (rdrFile p) instance in
  let p := set_proxy p (foldl proxy_Stop (pf_proxy p) mappings) in
  let '(w, err) :=
    and_then (removeInstanceRules w (natFile p) instance) (fun w =>
    and_then (removeInstanceRules w (rdrFile p) instance) (fun w =>
    and_then (removeInstanceRules w (filterFile p) instance) (reloadRulesNoLock p))) in
  (p, w, err).

Definition pf_ListRules (p : PFBackend) (w : W) : result (list PortMapping) :=
  match ReadFile w (rdrFile p) with
  | Err e => if errors_Is e ErrNotExist then Ok [] else Err e
  | Ok c => Ok (listed_mappings "" "" (Lines c))
  end.

Definition pf_Cleanup (p : PFBackend) : PFBackend := set_proxy p (proxy_StopAll (pf_proxy p)).

Definition checkAnchorNoLock (w : W) : W * option error :=
  let '(w, info) := exec w (Command ["pfctl"; "-s"; "info"]) in
  match ex_err info with
  | Some e => (w, Some (Wrapf "PF unavailable: %w" [] e))
  | None =>
      if negb (Contains (ex_combined info) "Status: Enabled") then (w, Some (Errorf "PF is not enabled; run: service pf start" []))
      else
        let '(w, nat_) := exec w (Command ["pfctl"; "-sn"]) in
        let '(w, filter_) := exec w (Command ["pfctl"; "-sr"]) in
        let missing := omap (fun p => if anchorDeclared p.2 p.1 then None else Some (p.1 +:+ " " +:+ Quote pfAnchorName))
          [("nat-anchor", ex_combined nat_); ("rdr-anchor", ex_combined nat_); ("anchor", ex_combined filter_)] in
        match missing with
        | [] => (w, None)
        | _ => (w, Some (Errorf "pf.conf is missing %s: %s" [pluralDeclaration (Z.of_nat (length missing)); JoinStrings missing ", "]))
        end
  end.

(** [if _, err := os.Stat(file); os.IsNotExist(err)]: the file is made. *)
Definition ensure_file (file header msg : string) (w : W) : W * option error :=
  match Stat w file with
  | Err e => if errors_Is e ErrNotExist then wrapped msg (WriteFile w file header) else (w, None)
  | Ok _ => (w, None)
  end.

Definition pf_Initialize (p : PFBackend) (w : W) : W * option error :=
  and_then (wrapped "failed to create rules directory: %w" (MakeDirs w (pf_rulesDir p))) (fun w =>
  and_then (ensure_file (natFile p) ("# Hospitus NAT rules" +:+ nl) "failed to create nat.rules: %w" w) (fun w =>
  and_then (ensure_file (rdrFile p) ("# Hospitus redirect rules" +:+ nl) "failed to create rdr.rules: %w" w) (fun w =>
  and_then (ensure_file (filterFile p) ("# Hospitus filter rules" +:+ nl) "failed to create filter.rules: %w" w) (fun w =>
  and_then (ensure_file (combinedFile p) ("# Hospitus combined rules" +:+ nl) "failed to create combined.rules: %w" w) (fun w =>
  let '(w, _) := checkAnchorNoLock w in
  let '(w, _) := reloadRulesNoLock p w in
  (w, None)))))).

Definition pf_IsAvailable (w : W) : W * bool :=
  match LookPath w "pfctl" with
  | Some _ => (w, false)
  | None => let '(w, x) := exec w (Command ["pfctl"; "-s"; "info"]) in
            (w, is_nil (ex_err x) && Contains (ex_combined x) "Status: Enabled")
  end.
End backend.
