(* ===== verification/PfFacts.v ===== *)
(** * Facts about the PF rule files

    A rule file is read as a list of blocks.  Appending, looking up and removing
    on the text are adding, finding and filtering on that list; what the backend
    writes for accepted mappings is always such a block, and reads back as the
    mapping it came from. *)

From stdpp Require Import base list gmap strings sets.
From Stdlib Require Import Ascii ZArith Lia.
From S2P Require Import Prelude GoStrings GoText GoWords GoNet Regexp Host GoHttp Files Validation ValidationFacts FwRules Pf.

Local Open Scope Z_scope.

(** ** Blocks *)

Record block := { b_id : string; b_instance : string; b_rules : list string }.

Definition block_lines (b : block) : list string := block_header (b_id b) (b_instance b) :: b_rules b.

(** A rule line: one line, visible at both ends, not a comment, and without the
    marker of an instance. *)
Definition rule_line (r : string) : Prop :=
  newline ∉ bytes r /\ TrimSpace r = r /\ r <> "" /\ HasPrefix r "#" = false /\ Contains r " instance:" = false.

Definition wf_block (b : block) : Prop := word (b_id b) /\ word (b_instance b) /\ Forall rule_line (b_rules b) /\ b_rules b <> [].

(** A file: comment lines, then blocks; the text ends in a newline exactly when
    the last line is empty. *)
Definition comment_line (l : string) : Prop := newline ∉ bytes l /\ HasPrefix l id_marker = false /\ Contains l " instance:" = false.
Definition file_lines (pre : list string) (bs : list block) (ended : bool) : list string :=
  pre ++ flat_map block_lines bs ++ (if ended then [""] else []).
Definition file_text (pre : list string) (bs : list block) (ended : bool) : string := JoinStrings (file_lines pre bs ended) nl.

Lemma header_words id instance : word id -> word instance ->
  block_header id instance = JoinStrings ["#"; "ID:"; id; "instance:" +:+ instance] " ".
Proof. intros _ _. unfold block_header, JoinStrings. apply (inj bytes). rewrite bytes_of_bytes, !bytes_app. reflexivity. Qed.

Lemma word_instance i : word i -> word ("instance:" +:+ i).
Proof. intros [_ Hf]. split; [done|]. rewrite bytes_app. apply Forall_app. split; [by repeat constructor|done]. Qed.

Lemma header_fields id instance : word id -> word instance -> Fields (block_header id instance) = ["#"; "ID:"; id; "instance:" +:+ instance].
Proof.
  intros Hi Hn. rewrite header_words by done. apply Fields_words.
  repeat (constructor; [first [done|by apply word_instance|split; [done|by repeat constructor]]|]). constructor.
Qed.

Lemma header_marker id instance : HasPrefix (block_header id instance) id_marker = true.
Proof. apply HasPrefix_spec. by exists (" " +:+ id +:+ " instance:" +:+ instance). Qed.

Lemma header_id id instance : word id -> word instance -> commentRuleID (block_header id instance) = id.
Proof. intros Hi Hn. unfold commentRuleID. by rewrite header_marker, header_fields. Qed.

Lemma header_of_id id id' instance : word id' -> word instance -> of_id id (block_header id' instance) = streq id' id.
Proof. intros Hi Hn. unfold of_id. by rewrite header_id. Qed.

Lemma header_of_instance id i i' : word i -> word i' -> of_instance i (block_header id i') = streq i' i.
Proof.
  intros Hi Hi'. unfold of_instance. apply eq_true_iff_eq. rewrite HasSuffix_spec, streq_true. split.
  - intros [t Ht]. unfold block_header in Ht. apply (f_equal bytes) in Ht. rewrite !bytes_app in Ht.
    change (bytes " instance:") with (" "%char :: bytes "instance:") in Ht.
    rewrite !app_assoc in Ht. cbn [app] in Ht. rewrite <- !app_assoc in Ht.
    assert (bytes "instance:" ++ bytes i' = bytes "instance:" ++ bytes i) as E.
    { destruct (word_no_space i) as [? _]; [done|]. destruct (word_no_space i') as [? _]; [done|].
      refine (after_last_space (bytes "# ID: " ++ bytes id) (bytes t) _ _ _ _ _).
      - rewrite elem_of_app. intros [Hin|]; [|done]. by apply ascii_in_true in Hin.
      - rewrite elem_of_app. intros [Hin|]; [|done]. by apply ascii_in_true in Hin.
      - rewrite <- !app_assoc. exact Ht. }
    apply app_inv_head in E. by apply (inj bytes).
  - intros ->. by exists ("# ID: " +:+ id).
Qed.

(** ** Removal *)

Section removal.
Variables (target : string -> bool) (sel : block -> bool).
Hypothesis target_header : forall b, wf_block b -> target (block_header (b_id b) (b_instance b)) = sel b.
Hypothesis target_rule : forall r, rule_line r -> target r = false.
Hypothesis target_comment : forall l, comment_line l -> target l = false.
Hypothesis target_empty : target "" = false.

Lemma rule_not_marker r : rule_line r -> HasPrefix r id_marker = false.
Proof.
  intros (_ & _ & _ & Hp & _). destruct (HasPrefix r id_marker) eqn:E; [|done].
  apply HasPrefix_spec in E as [t ->]. assert (HasPrefix (id_marker +:+ t) "#" = true); [|congruence].
  apply HasPrefix_spec. by exists (" ID:" +:+ t).
Qed.

Lemma drop_rules_keep rules rest : Forall rule_line rules ->
  drop_blocks target false (rules ++ rest) = rules ++ drop_blocks target false rest.
Proof. induction 1 as [|r rules Hr _ IH]; simpl; [done|]. by rewrite target_rule, IH. Qed.

Lemma drop_rules_skip rules rest : Forall rule_line rules ->
  drop_blocks target true (rules ++ rest) = drop_blocks target true rest.
Proof.
  induction 1 as [|r rules Hr _ IH]; simpl; [done|]. rewrite target_rule, rule_not_marker by done.
  destruct Hr as (_ & -> & Hne & _). apply streq_false in Hne. by rewrite Hne.
Qed.

Lemma drop_block b sk rest : wf_block b ->
  drop_blocks target sk (block_lines b ++ rest) =
  if sel b then drop_blocks target true rest else block_lines b ++ drop_blocks target false rest.
Proof.
  intros Hb. unfold block_lines. cbn [app drop_blocks]. rewrite target_header by done. destruct Hb as (_ & _ & Hr & _).
  destruct (sel b); [by rewrite drop_rules_skip|]. rewrite header_marker, drop_rules_keep by done. by destruct sk.
Qed.

(** Whether the last of the blocks goes. *)
Definition last_goes (bs : list block) : bool := match last bs with Some b => sel b | None => false end.

Lemma drop_all_blocks bs tail : forall sk, Forall wf_block bs ->
  drop_blocks target sk (flat_map block_lines bs ++ tail) =
  flat_map block_lines (List.filter (fun b => negb (sel b)) bs) ++
  drop_blocks target (match last bs with Some b => sel b | None => sk end) tail.
Proof.
  induction bs as [|b bs IH]; intros sk Hbs; [done|]. inversion Hbs as [|? ? Hb Hbs']; subst.
  cbn [flat_map List.filter]. rewrite <- app_assoc, drop_block by done. rewrite !IH by done.
  assert (match last (b :: bs) with Some b => sel b | None => sk end = match last bs with Some b => sel b | None => sel b end) as ->.
  { destruct bs as [|b' bs]; [done|]. change (last (b :: b' :: bs)) with (last (b' :: bs)).
    destruct (last (b' :: bs)) eqn:El; [done|]. by apply last_None in El. }
  destruct (sel b); simpl; [done|]. by rewrite <- !app_assoc.
Qed.

Lemma drop_comments pre rest : Forall comment_line pre -> drop_blocks target false (pre ++ rest) = pre ++ drop_blocks target false rest.
Proof. induction 1 as [|l pre Hl _ IH]; simpl; [done|]. by rewrite target_comment, IH. Qed.

Lemma drop_file_lines pre bs ended : Forall comment_line pre -> Forall wf_block bs ->
  drop_blocks target false (file_lines pre bs ended) =
  file_lines pre (List.filter (fun b => negb (sel b)) bs) (ended && negb (last_goes bs)).
Proof.
  intros Hp Hb. unfold file_lines. rewrite drop_comments, drop_all_blocks by done. do 2 f_equal. unfold last_goes.
  destruct ended; [|by destruct (last bs)]. simpl. rewrite target_empty.
  change (HasPrefix "" id_marker) with false. change (streq (TrimSpace "") "") with true.
  destruct (last bs) as [b|]; [|done]. by destruct (sel b).
Qed.
End removal.

Lemma file_lines_clean pre bs ended : Forall comment_line pre -> Forall wf_block bs -> Forall (fun l => newline ∉ bytes l) (file_lines pre bs ended).
Proof.
  intros Hp Hb. unfold file_lines. rewrite !Forall_app. split_and!.
  - eapply Forall_impl; [exact Hp|]. by intros l [? _].
  - induction Hb as [|b bs Hb _ IH]; [constructor|]. cbn [flat_map]. apply Forall_app. split; [|done].
    destruct Hb as (Hi & Hn & Hr & _). constructor.
    + apply word_no_space in Hi as [_ Hi], Hn as [_ Hn]. unfold block_header. rewrite !bytes_app, !elem_of_app.
      intros [Hin|[Hin|[Hin|Hin]]]; try done; by apply ascii_in_true in Hin.
    + eapply Forall_impl; [exact Hr|]. by intros r [? _].
  - destruct ended; [|constructor]. repeat constructor. by apply not_elem_of_nil.
Qed.

Lemma file_Lines pre bs ended : Forall comment_line pre -> Forall wf_block bs -> file_lines pre bs ended <> [] ->
  Lines (file_text pre bs ended) = file_lines pre bs ended.
Proof. intros Hp Hb Hne. apply Lines_Join; [done|by apply file_lines_clean]. Qed.

Lemma of_id_facts id : word id ->
  (forall b, wf_block b -> of_id id (block_header (b_id b) (b_instance b)) = streq (b_id b) id) /\
  (forall r, rule_line r -> of_id id r = false) /\ (forall l, comment_line l -> of_id id l = false) /\ of_id id "" = false.
Proof.
  intros [Hne _].
  assert (forall r, HasPrefix r id_marker = false -> of_id id r = false) as Hm.
  { intros r Hr. unfold of_id, commentRuleID. rewrite Hr. apply streq_false. done. }
  split_and!; [|by intros r Hr; apply Hm, rule_not_marker|by intros l (_ & Hl & _); apply Hm|by apply Hm].
  intros b (Hi & Hn & _). by apply header_of_id.
Qed.

Lemma of_instance_facts i : word i ->
  (forall b, wf_block b -> of_instance i (block_header (b_id b) (b_instance b)) = streq (b_instance b) i) /\
  (forall r, rule_line r -> of_instance i r = false) /\ (forall l, comment_line l -> of_instance i l = false) /\ of_instance i "" = false.
Proof.
  intros Hi.
  assert (forall r, Contains r " instance:" = false -> of_instance i r = false) as Hm.
  { intros r Hr. unfold of_instance. destruct (HasSuffix _ _) eqn:E; [|done]. apply HasSuffix_spec in E as [t ->].
    assert (Contains (t +:+ " instance:" +:+ i) " instance:" = true); [|congruence]. apply Contains_spec. by exists t, i. }
  split_and!; [|by intros r (_ & _ & _ & _ & Hr); apply Hm|by intros l (_ & _ & Hl); apply Hm|by apply Hm].
  intros b (_ & Hn & _). by apply header_of_instance.
Qed.

(** ** Lookup and append *)

Lemma before_space a b x y : " "%char ∉ a -> " "%char ∉ b -> a ++ " "%char :: x = b ++ " "%char :: y -> a = b.
Proof.
  revert b. induction a as [|c a IH]; intros b Ha Hb E; destruct b as [|d b]; simpl in E; simplify_eq; [done|set_solver|set_solver|].
  f_equal. eapply IH; [set_solver|set_solver|done].
Qed.

Lemma header_has_marker id id' i : word id -> word id' -> HasPrefix (block_header id' i) ("# ID: " +:+ id +:+ " ") = streq id' id.
Proof.
  intros Hi Hi'. apply eq_true_iff_eq. rewrite HasPrefix_spec, streq_true. split.
  - intros [t Ht]. unfold block_header in Ht. apply (f_equal bytes) in Ht. rewrite !bytes_app, <- !app_assoc in Ht.
    apply app_inv_head in Ht. apply (inj bytes). destruct (word_no_space id) as [? _]; [done|]. destruct (word_no_space id') as [? _]; [done|].
    eapply before_space; [done..|]. exact Ht.
  - intros ->. exists ("instance:" +:+ i). unfold block_header. apply (inj bytes). rewrite !bytes_app. by rewrite <- !app_assoc.
Qed.

Lemma marker_skip id ls rest : Forall (fun l => HasPrefix l id_marker = false) ls ->
  marker_with_rule ("# ID: " +:+ id +:+ " ") (ls ++ rest) = marker_with_rule ("# ID: " +:+ id +:+ " ") rest.
Proof.
  induction 1 as [|l ls Hl _ IH]; [done|]. cbn [app marker_with_rule]. rewrite IH.
  destruct (HasPrefix l ("# ID: " +:+ id +:+ " ")) eqn:E; [|done].
  apply HasPrefix_spec in E as [t ->]. exfalso. assert (HasPrefix (("# ID: " +:+ id +:+ " ") +:+ t) id_marker = true); [|congruence].
  apply HasPrefix_spec. by exists (" " +:+ (id +:+ " ") +:+ t).
Qed.

Lemma rule_in_file pre bs ended id : word id -> Forall comment_line pre -> Forall wf_block bs ->
  marker_with_rule ("# ID: " +:+ id +:+ " ") (file_lines pre bs ended) =
  existsb (fun b => streq (b_id b) id) bs.
Proof.
  intros Hid Hp Hb. unfold file_lines. rewrite marker_skip by (eapply Forall_impl; [exact Hp|]; by intros l (_ & ? & _)).
  induction Hb as [|b bs Hb _ IH].
  { destruct ended; [|done]. simpl. by rewrite ?andb_false_r. }
  cbn [flat_map existsb]. destruct Hb as (Hi & Hn & Hr & Hne).
  rewrite <- app_assoc. unfold block_lines at 1. cbn [app marker_with_rule]. rewrite header_has_marker by done.
  rewrite marker_skip, IH by (eapply Forall_impl; [exact Hr|]; apply rule_not_marker). f_equal.
  destruct (b_rules b) as [|r rules]; [done|]. inversion Hr as [|? ? (_ & Ht & Hr0 & Hc & _) _]; subst. cbn [app].
  rewrite Ht, Hc. apply streq_false in Hr0. rewrite Hr0. by rewrite andb_true_r.
Qed.

Lemma block_text_lines b : block_text (b_id b) (b_instance b) (b_rules b) = JoinStrings (block_lines b ++ [""]) nl.
Proof.
  unfold block_text, block_lines, JoinStrings. apply (inj bytes). rewrite bytes_of_bytes, !bytes_app. cbn [app map].
  generalize (block_header (b_id b) (b_instance b)) as h. intros h. generalize (b_rules b) as rs. intros rs. revert h.
  induction rs as [|r rs IH]; intros h; [done|]. cbn [foldr map app]. rewrite !bytes_app, IH. cbn [map app join_l]. rewrite ?app_assoc.
  done.
Qed.

(** Appending a block to a text that ends in a newline adds it at the end. *)
Lemma append_block pre bs b :
  file_text pre bs true +:+ block_text (b_id b) (b_instance b) (b_rules b) = file_text pre (bs ++ [b]) true.
Proof.
  rewrite block_text_lines. unfold file_text, file_lines, JoinStrings. apply (inj bytes).
  rewrite bytes_app, !bytes_of_bytes, flat_map_app. cbn [flat_map]. rewrite app_nil_r.
  destruct (pre ++ flat_map block_lines bs) as [|l ls] eqn:E.
  - apply app_nil in E as [-> E2]. rewrite E2. done.
  - rewrite !app_assoc, E, !map_app. cbn [map]. change (bytes "") with (@nil ascii).
    rewrite <- (app_assoc (map bytes (l :: ls))). by apply join_l_extend.
Qed.

(** ** What is written for accepted mappings *)

Lemma validateIfaceName_word i : validateIfaceName i = None -> word i /\ Forall (fun c => alnum c || one_of "_-." c = true) (bytes i).
Proof.
  unfold validateIfaceName. destruct (streq i "") eqn:E; [done|]. apply streq_false in E.
  destruct (iface_chars true (bytes i)) eqn:Ec; [|done]. intros _.
  assert (forall l first, iface_chars first l = true -> Forall (fun c => alnum c || one_of "_-." c = true) l) as Hall.
  { induction l as [|c l IH]; intros first; simpl; [constructor|]. intros [Hc Hl]%andb_true_iff. constructor; [|by eapply IH].
    unfold iface_char in Hc. unfold alnum. by destruct (alpha c), first, (is_digit c), (one_of "_-." c). }
  specialize (Hall _ _ Ec). split; [|done]. split; [done|]. eapply Forall_impl; [exact Hall|]. simpl. intros c Hc.
  apply (ascii_implies (fun c => alnum c || one_of "_-." c) graphic); [vm_compute; reflexivity|done].
Qed.

Lemma ParseIP_word s : is_Some (ParseIP s) -> word s.
Proof.
  intros [ip Hp]. split; [by intros ->|]. eapply Forall_impl; [by eapply ParseIP_chars|]. intros c Hc.
  apply (ascii_implies addr_char graphic); [vm_compute; reflexivity|done].
Qed.

Definition rdr_words_of (iface : string) (m : PortMapping) : list string :=
  ["rdr"; "pass"; "on"; iface; "proto"; PM_Protocol m; "from"; "any"; "to"; "any"; "port"; Itoa (PM_HostPort m); "->"; PM_TargetIP m;
   "port"; Itoa (PM_TargetPort m)].

Lemma rdr_rule_join iface m : rdr_rule iface m = JoinStrings (rdr_words_of iface m) " ".
Proof. unfold rdr_rule, JoinStrings, rdr_words_of. apply (inj bytes). rewrite bytes_of_bytes, !bytes_app. reflexivity. Qed.

Lemma rdr_words_ok iface m : validateIfaceName iface = None -> PortMapping_Validate m = None -> Forall word (rdr_words_of iface m).
Proof.
  intros [Hi _]%validateIfaceName_word (_ & _ & _ & Hp & Hh & Ht & Hip)%PortMapping_Validate_None.
  assert (word (PM_Protocol m)) as Hpw by (destruct Hp as [-> | ->]; split; by repeat constructor).
  unfold rdr_words_of. repeat (constructor; [first [done|apply Itoa_word; lia|by apply ParseIP_word|split; by repeat constructor]|]). constructor.
Qed.

Definition keyword (part : string) : bool := streq part "proto" || streq part "port" || streq part "->".

Lemma rdr_skip p h t ip part next rest : keyword part = false -> rdr_words p h t ip (part :: next :: rest) = rdr_words p h t ip (next :: rest).
Proof. unfold keyword. intros [[E1 E2]%orb_false_iff E3]%orb_false_iff. cbn [rdr_words]. by rewrite E1, E2, E3. Qed.
Lemma rdr_proto p h t ip next rest : rdr_words p h t ip ("proto" :: next :: rest) = rdr_words next h t ip (next :: rest).
Proof. done. Qed.
Lemma rdr_port p h t ip next n rest : Atoi next = Ok n ->
  rdr_words p h t ip ("port" :: next :: rest) = if h =? 0 then rdr_words p n t ip (next :: rest) else rdr_words p h n ip (next :: rest).
Proof. intros E. cbn [rdr_words]. change (streq "port" "proto") with false. change (streq "port" "port") with true. by rewrite E. Qed.
Lemma rdr_arrow p h t ip next rest : rdr_words p h t ip ("->" :: next :: rest) = rdr_words p h t next (next :: rest).
Proof. done. Qed.
(** Whatever the interface is called, the protocol is the word after [proto]. *)
Lemma rdr_iface p h t ip iface x rest : iface <> "->" ->
  rdr_words p h t ip (iface :: "proto" :: x :: rest) = rdr_words x h t ip (x :: rest).
Proof.
  intros Hn. destruct (keyword iface) eqn:E; [|by rewrite rdr_skip, rdr_proto].
  unfold keyword in E. rewrite !orb_true_iff, !streq_true in E. destruct E as [[->| ->]|E]; [by rewrite !rdr_proto| |done].
  cbn [rdr_words]. change (streq "port" "proto") with false. change (streq "port" "port") with true.
  change (Atoi "proto") with (@Err Z (ErrSyntax "proto")). by change (streq "proto" "proto") with true.
Qed.

Lemma digits_not_keyword n : 0 <= n -> keyword (Itoa n) = false.
Proof.
  intros (_ & Hd & _)%Itoa_digits. unfold keyword. rewrite forallb_true_iff, Forall_forall in Hd.
  destruct (streq (Itoa n) "proto") eqn:E1; [apply streq_true in E1; rewrite E1 in Hd; by specialize (Hd "p"%char ltac:(left))|].
  destruct (streq (Itoa n) "port") eqn:E2; [apply streq_true in E2; rewrite E2 in Hd; by specialize (Hd "p"%char ltac:(left))|].
  destruct (streq (Itoa n) "->") eqn:E3; [apply streq_true in E3; rewrite E3 in Hd; by specialize (Hd "-"%char ltac:(left))|done].
Qed.

Lemma address_not_keyword s : is_Some (ParseIP s) -> keyword s = false.
Proof.
  intros [ip Hp]. destruct (keyword s) eqn:E; [|done]. unfold keyword in E. rewrite !orb_true_iff, !streq_true in E.
  destruct E as [[->| ->]| ->]; vm_compute in Hp; done.
Qed.

(** What is read back of a mapping's redirection. *)
Definition read_back (m : PortMapping) (id instance : string) : PortMapping :=
  {| PM_ID := id; PM_Instance := instance; PM_Provider := ""; PM_Protocol := PM_Protocol m; PM_HostPort := PM_HostPort m;
     PM_TargetIP := PM_TargetIP m; PM_TargetPort := PM_TargetPort m; PM_HostInterface := ""; PM_Description := ""; PM_Active := false |}.

(** The words of a redirection read back. *)
Lemma rdr_rule_parses iface m id instance : validateIfaceName iface = None -> PortMapping_Validate m = None ->
  parseRdrRule (rdr_rule iface m) id instance = Some (read_back m id instance).
Proof.
  intros Hi Hm. pose proof (rdr_words_ok iface m Hi Hm) as Hw. apply PortMapping_Validate_None in Hm as (_ & _ & _ & Hp & Hh & Ht & Hip).
  assert (iface <> "->") as Hn by (intros ->; by vm_compute in Hi).
  assert (forall n, 1 <= n <= 65535 -> Atoi (Itoa n) = Ok n) as Ha by (intros n Hr; apply ParseInt_Itoa; lia).
  assert (keyword (PM_Protocol m) = false) as Hk by (by destruct Hp as [-> | ->]).
  unfold parseRdrRule. rewrite rdr_rule_join, Fields_words by done. change (Z.of_nat (length (rdr_words_of iface m)) <? 12) with false. cbv iota.
  unfold rdr_words_of. do 3 rewrite (rdr_skip "" 0 0 "") by done. rewrite rdr_iface, rdr_skip by done.
  do 4 rewrite rdr_skip by done. rewrite (rdr_port _ _ _ _ _ _ _ (Ha _ Hh)). change (0 =? 0) with true. cbv iota.
  rewrite rdr_skip by (apply digits_not_keyword; lia). rewrite rdr_arrow, rdr_skip by (by apply address_not_keyword).
  rewrite (rdr_port _ _ _ _ _ _ _ (Ha _ Ht)). replace (PM_HostPort m =? 0) with false by (symmetry; apply Z.eqb_neq; lia).
  cbn [rdr_words]. replace (0 <? PM_HostPort m) with true by (symmetry; apply Z.ltb_lt; lia).
  unfold read_back. by destruct Hp as [-> | ->].
Qed.

(** Words that are not marked make a rule line. *)
Lemma words_rule_line w ws : Forall word (w :: ws) -> HasPrefix w "#" = false ->
  Forall (fun x => HasPrefix x "instance:" = false) (w :: ws) -> rule_line (JoinStrings (w :: ws) " ").
Proof.
  intros Hw Hh Hi. assert (exists r, bytes (JoinStrings (w :: ws) " ") = bytes w ++ r) as [r Er].
  { unfold JoinStrings. rewrite bytes_of_bytes. cbn [map join_l]. destruct ws as [|w' ws]; simpl; [exists []; by rewrite app_nil_r|by eexists]. }
  inversion Hw as [|? ? Hw0 _]; subst. destruct (word_ends w Hw0) as (c & _ & l & Ew & Hc & _).
  unfold rule_line. split_and!.
  - unfold JoinStrings. rewrite bytes_of_bytes.
    assert (forall ws, Forall word ws -> newline ∉ join_l (bytes " ") (map bytes ws)) as Hnl; [|by apply (Hnl (w :: ws))].
    clear. induction ws as [|w ws IH]; intros Hws; [apply not_elem_of_nil|]. inversion Hws as [|? ? [_ Hn]%word_no_space Hws']; subst.
    destruct ws as [|w' ws]; [done|]. cbn [map join_l]. rewrite !elem_of_app. intros [?|[Hs|Hs]]; [done|by apply ascii_in_true in Hs|].
    by apply IH in Hs.
  - destruct (last (w :: ws)) as [d|] eqn:El; [|by apply last_None in El].
    destruct (word_join_last _ _ El Hw) as (e & Hl & Hg). rewrite Ew in Er. by eapply (TrimSpace_id _ c e).
  - intros E. rewrite E in Er. rewrite Ew in Er. done.
  - unfold HasPrefix in *. rewrite Er. rewrite Ew in *. simpl in *. by destruct (Ascii.eqb "#" c).
  - destruct (Contains _ _) eqn:E; [|done]. exfalso.
    apply (Contains_word _ "instance:") in E as (x & Hin & Hp'); [|done|done|by intros Hs; apply ascii_in_true in Hs].
    rewrite Forall_forall in Hi. specialize (Hi _ Hin). congruence.
Qed.

(** Text of one class of characters does not begin like a marker of an instance. *)
Lemma class_not_instance (P : ascii -> bool) s : (P "i"%char = false \/ P ":"%char = false) -> Forall (fun c => P c = true) (bytes s) ->
  HasPrefix s "instance:" = false.
Proof.
  intros Hf Hall. destruct (HasPrefix s "instance:") eqn:E; [|done]. apply HasPrefix_spec in E as [t ->].
  rewrite bytes_app, Forall_app in Hall. destruct Hall as [Hall _]. rewrite Forall_forall in Hall.
  destruct Hf as [Hf|Hf]; [specialize (Hall "i"%char)|specialize (Hall ":"%char)]; rewrite Hf in Hall; symmetry; apply Hall; by apply ascii_in_true.
Qed.

Lemma Itoa_not_instance n : 0 <= n -> HasPrefix (Itoa n) "instance:" = false.
Proof. intros (_ & Hd & _)%Itoa_digits. apply (class_not_instance is_digit); [by left|]. by rewrite forallb_true_iff in Hd. Qed.

Lemma iface_not_instance i : validateIfaceName i = None -> HasPrefix i "instance:" = false.
Proof. intros [_ Hc]%validateIfaceName_word. eapply (class_not_instance (fun c => alnum c || one_of "_-." c)); [by right|done]. Qed.

Lemma rdr_rule_line iface m : validateIfaceName iface = None -> PortMapping_Validate m = None -> rule_line (rdr_rule iface m).
Proof.
  intros Hi Hm. pose proof (rdr_words_ok iface m Hi Hm) as Hw. apply iface_not_instance in Hi.
  apply PortMapping_Validate_None in Hm as (_ & _ & _ & Hp & Hh & Ht & [ip Hip]).
  rewrite rdr_rule_join. apply words_rule_line; [exact Hw|done|].
  assert (HasPrefix (PM_Protocol m) "instance:" = false) by (by destruct Hp as [-> | ->]).
  assert (HasPrefix (PM_TargetIP m) "instance:" = false).
  { apply (class_not_instance addr_char); [by left|]. by eapply ParseIP_chars. }
  repeat (constructor; [first [done|apply Itoa_not_instance; lia]|]). constructor.
Qed.

Definition cidr_char (c : ascii) : bool := addr_char c || Ascii.eqb c "/".

Lemma network_word s : is_Some (ParseCIDR s) -> word s /\ HasPrefix s "instance:" = false.
Proof.
  intros [[b n] Hp]. assert (Forall (fun c => cidr_char c = true) (bytes s)) as Hc.
  { destruct (ParseCIDR_chars _ _ _ Hp) as (a & m & -> & Ha & Hm). apply Forall_app. split.
    - eapply Forall_impl; [exact Ha|]. intros c Hc. simpl. unfold cidr_char. by rewrite Hc.
    - constructor; [done|]. rewrite forallb_true_iff in Hm. eapply Forall_impl; [exact Hm|]. intros c Hc. simpl. unfold cidr_char, addr_char. by rewrite Hc. }
  split; [split; [by intros ->|]|by apply (class_not_instance cidr_char); [left|]].
  eapply Forall_impl; [exact Hc|]. intros c. apply (ascii_implies cidr_char graphic). vm_compute. reflexivity.
Qed.

(** Every line the backend writes for an accepted NAT rule is a rule line. *)
Lemma nat_rule_lines rule r : NATRule_Validate rule = None -> generateNatRule rule = Ok r ->
  rule_line r /\ rule_line (pass_in rule) /\ rule_line (pass_out rule).
Proof.
  intros (_ & Hn & _)%NATRule_Validate_None. apply network_word in Hn as [Hn Hni].
  unfold generateNatRule. destruct (validateIfaceName (NR_OutInterface rule)) eqn:Ei; [done|]. intros [= <-].
  pose proof (iface_not_instance _ Ei) as Hii. apply validateIfaceName_word in Ei as [Hi _].
  assert (word ("(" +:+ NR_OutInterface rule +:+ ")")) as Hpar.
  { split; [done|]. rewrite !bytes_app, !Forall_app. split_and!; [by repeat constructor|apply Hi|by repeat constructor]. }
  split_and!.
  - replace ("nat on " +:+ _) with (JoinStrings ["nat"; "on"; NR_OutInterface rule; "from"; NR_SourceNetwork rule; "to"; "any"; "->"; "(" +:+ NR_OutInterface rule +:+ ")"] " ").
    + apply words_rule_line; [|done|]; repeat (constructor; [first [done|split; by repeat constructor]|]); constructor.
    + unfold JoinStrings. apply (inj bytes). rewrite bytes_of_bytes. cbn [map]. rewrite !bytes_app. reflexivity.
  - replace (pass_in rule) with (JoinStrings ["pass"; "in"; "inet"; "from"; NR_SourceNetwork rule; "keep"; "state"] " ").
    + apply words_rule_line; [|done|]; repeat (constructor; [first [done|split; by repeat constructor]|]); constructor.
    + unfold JoinStrings, pass_in. apply (inj bytes). rewrite bytes_of_bytes, !bytes_app. reflexivity.
  - replace (pass_out rule) with (JoinStrings ["pass"; "out"; "inet"; "to"; NR_SourceNetwork rule; "keep"; "state"] " ").
    + apply words_rule_line; [|done|]; repeat (constructor; [first [done|split; by repeat constructor]|]); constructor.
    + unfold JoinStrings, pass_out. apply (inj bytes). rewrite bytes_of_bytes, !bytes_app. reflexivity.
Qed.

(** ** Identifiers *)

Lemma shaped_word p q n s : (forall c, p c = true -> graphic c = true) -> (forall c, q c = true -> graphic c = true) -> shaped p q n s -> word s.
Proof. intros Hp Hq H. split; [by eapply shaped_nonempty|]. apply (shaped_all p q n s graphic Hp Hq H). Qed.

Lemma instance_word s : ValidateInstanceName s = None -> word s /\ "/"%char ∉ bytes s.
Proof.
  intros H%ValidateInstanceName_shape. split.
  - eapply shaped_word; [| |exact H]; [apply (ascii_implies alnum graphic)|apply (ascii_implies plain_char graphic)]; vm_compute; reflexivity.
  - eapply (no_char plain_char); [|reflexivity]. eapply shaped_all; [| |exact H]; [|done]. apply (ascii_implies alnum plain_char). vm_compute. reflexivity.
Qed.

Lemma interface_word s : ValidateInterfaceName s = None -> word s /\ "/"%char ∉ bytes s.
Proof.
  intros H%ValidateInterfaceName_shape. split.
  - eapply shaped_word; [| |exact H]; [apply (ascii_implies alpha graphic)|apply (ascii_implies plain_char graphic)]; vm_compute; reflexivity.
  - eapply (no_char plain_char); [|reflexivity]. eapply shaped_all; [| |exact H]; [|done]. apply (ascii_implies alpha plain_char). vm_compute. reflexivity.
Qed.

Lemma provider_no_slash s : s = "" \/ ValidateProviderName s = None -> Forall (fun c => graphic c = true) (bytes s) /\ "/"%char ∉ bytes s.
Proof.
  intros [->|H]; [split; [constructor|apply not_elem_of_nil]|].
  assert (shaped lower (fun c => lower_digit c || one_of "-" c) 31 s) as Hs.
  { unfold ValidateProviderName, validProviderNameRegex in H. apply first_error_None in H. rewrite !Forall_cons in H.
    destruct H as (_ & H & _). apply fail_if_None, negb_false_iff in H. by apply match_head_upto. }
  assert (Forall (fun c => plain_char c = true) (bytes s)) as Hp.
  { eapply shaped_all; [| |exact Hs]; [apply (ascii_implies lower plain_char)|apply (ascii_implies (fun c => lower_digit c || one_of "-" c) plain_char)];
      vm_compute; reflexivity. }
  split; [|by eapply no_char]. eapply Forall_impl; [exact Hp|]. intros c. apply (ascii_implies plain_char graphic). vm_compute. reflexivity.
Qed.

(** The fields of an identifier of an accepted mapping, none with a slash. *)
Definition id_fields (m : PortMapping) : list string :=
  [PM_Instance m; PM_Provider m; PM_Protocol m; or_any (PM_HostInterface m); Itoa (PM_HostPort m); or_any (PM_TargetIP m); Itoa (PM_TargetPort m)].

Lemma Itoa_no_slash n : 0 <= n -> "/"%char ∉ bytes (Itoa n).
Proof. intros (_ & Hd & _)%Itoa_digits. eapply (no_char is_digit); [by apply forallb_true_iff|done]. Qed.

Lemma id_fields_ok m : PortMapping_Validate m = None ->
  Forall (fun f => Forall (fun c => graphic c = true) (bytes f) /\ "/"%char ∉ bytes f) (id_fields m).
Proof.
  intros (Hn & Hp & Hi & Hpr & Hh & Ht & [ip Hip])%PortMapping_Validate_None. unfold id_fields.
  apply instance_word in Hn as [[_ Hn1] Hn2]. apply provider_no_slash in Hp as [Hp1 Hp2].
  assert (Forall (fun c => graphic c = true) (bytes (or_any (PM_HostInterface m))) /\ "/"%char ∉ bytes (or_any (PM_HostInterface m))) as [Hi1 Hi2].
  { unfold or_any. destruct Hi as [->|Hi]; [split; [by repeat constructor|by intros Hin; apply ascii_in_true in Hin]|].
    apply interface_word in Hi as [[Hne Hg] Hs]. apply streq_false in Hne. by rewrite Hne. }
  assert (PM_TargetIP m <> "") as Hne by (by intros E; rewrite E in Hip). apply streq_false in Hne.
  pose proof (ParseIP_word (PM_TargetIP m) ltac:(by eexists)) as [_ Hw]. pose proof (ParseIP_no_slash _ _ Hip) as Hns.
  unfold or_any at 2. rewrite Hne.
  assert (forall n, 1 <= n <= 65535 -> Forall (fun c => graphic c = true) (bytes (Itoa n)) /\ "/"%char ∉ bytes (Itoa n)) as Hdig.
  { intros n Hr. split; [apply Itoa_word; lia|apply Itoa_no_slash; lia]. }
  assert (Forall (fun c => graphic c = true) (bytes (PM_Protocol m)) /\ "/"%char ∉ bytes (PM_Protocol m)) as [Hr1 Hr2].
  { destruct Hpr as [-> | ->]; (split; [by repeat constructor|]); intros Hin; by apply ascii_in_true in Hin. }
  repeat (constructor; [first [done|by apply Hdig]|]). constructor.
Qed.

Lemma GenerateID_word m : PortMapping_Validate m = None -> word (GenerateID m).
Proof.
  intros Hm. pose proof (id_fields_ok m Hm) as Hf. unfold GenerateID, slashes. fold (id_fields m). split.
  - intros E. apply (f_equal bytes) in E. unfold JoinStrings in E. rewrite bytes_of_bytes in E. unfold id_fields in E.
    cbn [map join_l] in E. apply PortMapping_Validate_None in Hm as (Hn & _). apply instance_word in Hn as [[Hne _] _].
    destruct (bytes (PM_Instance m)) eqn:Eb; [by apply Hne, (inj bytes)|done].
  - unfold JoinStrings. rewrite bytes_of_bytes. revert Hf. generalize (id_fields m) as l. induction l as [|f l IH]; intros Hf; [constructor|].
    inversion Hf as [|? ? [Hg _] Hl]; subst. destruct l as [|g l]; [done|]. cbn [map join_l]. rewrite !Forall_app. split_and!; [done|by repeat constructor|].
    by apply IH.
Qed.

Lemma fields_of_id m : PortMapping_Validate m = None -> Split (GenerateID m) "/" = id_fields m.
Proof.
  intros Hm. pose proof (id_fields_ok m Hm) as Hf. unfold GenerateID, slashes, Split, JoinStrings. rewrite bytes_of_bytes.
  change (bytes "/") with ["/"%char]. fold (id_fields m). rewrite split_l_join_l.
  - rewrite map_map. erewrite map_ext; [apply map_id|]. intros. apply of_bytes_bytes.
  - done.
  - apply Forall_map. eapply Forall_impl; [exact Hf|]. by intros f [_ ?].
Qed.

(** ** Properties *)

(** C10: the identifier of a port mapping identifies it: two accepted mappings
    with the same identifier have the same instance, provider, protocol, ports
    and target, and are bound to the same interface, where a mapping without one
    shares its identifier only with a mapping on an interface called any. *)
Theorem mapping_ids_identify (m1 m2 : PortMapping) :
  PortMapping_Validate m1 = None -> PortMapping_Validate m2 = None -> GenerateID m1 = GenerateID m2 ->
  PM_Instance m1 = PM_Instance m2 /\ PM_Provider m1 = PM_Provider m2 /\ PM_Protocol m1 = PM_Protocol m2 /\
  PM_HostPort m1 = PM_HostPort m2 /\ PM_TargetIP m1 = PM_TargetIP m2 /\ PM_TargetPort m1 = PM_TargetPort m2 /\
  (PM_HostInterface m1 = PM_HostInterface m2 \/
   (PM_HostInterface m1 = "" /\ PM_HostInterface m2 = "any") \/ (PM_HostInterface m1 = "any" /\ PM_HostInterface m2 = "")).
Proof.
  intros H1 H2 E. apply (f_equal (fun s => Split s "/")) in E. rewrite !fields_of_id in E by done. unfold id_fields in E.
  apply PortMapping_Validate_None in H1 as (_ & _ & _ & _ & Hh1 & Ht1 & [ip1 Hip1]), H2 as (_ & _ & _ & _ & Hh2 & Ht2 & [ip2 Hip2]).
  injection E as E1 E2 E3 E4 E5 E6 E7. apply Itoa_inj in E5, E7.
  assert (forall s ip, ParseIP s = Some ip -> or_any s = s) as Hany by (intros s ip Hp; unfold or_any; by destruct (streq s "") eqn:Es; [apply streq_true in Es; subst|]).
  rewrite (Hany _ _ Hip1), (Hany _ _ Hip2) in E6. split_and!; try done.
  unfold or_any in E4. destruct (streq (PM_HostInterface m1) "") eqn:S1, (streq (PM_HostInterface m2) "") eqn:S2;
    rewrite ?streq_true, ?streq_false in *; [left; congruence|right; left|right; right|left]; auto.
Qed.

(** C8: a rule file is a list of blocks, and the operations on its text are the
    operations on the list.  Where the text ends in a newline, appending adds a
    block at the end; looking a rule up by its identifier finds exactly the blocks
    with it; removing by identifier or by instance leaves exactly the other
    blocks, in order.  The final newline goes with the last block if that is
    removed. *)
Theorem rule_file_refines_blocks (pre : list string) (bs : list block) :
  Forall comment_line pre -> Forall wf_block bs ->
  (forall b, file_text pre bs true +:+ block_text (b_id b) (b_instance b) (b_rules b) = file_text pre (bs ++ [b]) true) /\
  (forall id, word id -> rule_in_text (file_text pre bs true) id = existsb (fun b => streq (b_id b) id) bs) /\
  (forall id, word id -> drop_from (of_id id) (file_text pre bs true) =
     file_text pre (List.filter (fun b => negb (streq (b_id b) id)) bs) (negb (last_goes (fun b => streq (b_id b) id) bs))) /\
  (forall i, word i -> drop_from (of_instance i) (file_text pre bs true) =
     file_text pre (List.filter (fun b => negb (streq (b_instance b) i)) bs) (negb (last_goes (fun b => streq (b_instance b) i) bs))).
Proof.
  intros Hp Hb. assert (file_lines pre bs true <> []) as Hne.
  { unfold file_lines. by destruct pre, (flat_map block_lines bs). }
  split_and!.
  - intros b. apply append_block.
  - intros id Hid. unfold rule_in_text. rewrite file_Lines by done. by apply rule_in_file.
  - intros id Hid. destruct (of_id_facts id Hid) as (F1 & F2 & F3 & F4). unfold drop_from. rewrite file_Lines by done.
    by rewrite (drop_file_lines _ _ F1 F2 F3 F4).
  - intros i Hi. destruct (of_instance_facts i Hi) as (F1 & F2 & F3 & F4). unfold drop_from. rewrite file_Lines by done.
    by rewrite (drop_file_lines _ _ F1 F2 F3 F4).
Qed.

(** The block the backend writes for a mapping on an interface. *)
Definition mapping_block (p : string * PortMapping) : block :=
  {| b_id := PM_ID p.2; b_instance := PM_Instance p.2; b_rules := [rdr_rule p.1 p.2] |}.

Lemma listed_rest rest : forall cur inst, Forall (fun l => HasPrefix l id_marker = false /\ HasPrefix l "rdr " = false) rest ->
  listed_mappings cur inst rest = [].
Proof.
  induction rest as [|l rest IH]; intros cur inst Hr; [done|]. inversion Hr as [|? ? [H1 H2] Hr']; subst.
  cbn [listed_mappings]. rewrite H1, H2, andb_false_r. by apply IH.
Qed.

(** The rules written for accepted mappings are whole: each is a block of
    single lines, which the operations on rule files keep apart, and listing the
    rules gives back every mapping, with its protocol, ports, target, instance and
    identifier. *)
Theorem written_mappings_are_listed (pre : list string) (l : list (string * PortMapping)) :
  Forall (fun c => comment_line c /\ HasPrefix c "rdr " = false) pre ->
  Forall (fun p => validateIfaceName p.1 = None /\ PortMapping_Validate p.2 = None /\ PM_ID p.2 = GenerateID p.2) l ->
  Forall wf_block (map mapping_block l) /\
  listed_mappings "" "" (Lines (file_text pre (map mapping_block l) true)) =
    map (fun p => activate (read_back p.2 (PM_ID p.2) (PM_Instance p.2))) l.
Proof.
  intros Hp Hl. assert (Forall wf_block (map mapping_block l)) as Hb.
  { apply Forall_map. eapply Forall_impl; [exact Hl|]. intros [i m] (Hi & Hm & Hid). simpl in *. unfold wf_block. simpl. split_and!; [| | |done].
    - rewrite Hid. by apply GenerateID_word.
    - apply PortMapping_Validate_None in Hm as [Hn _]. by apply instance_word in Hn as [? _].
    - constructor; [by apply rdr_rule_line|constructor]. }
  split; [done|]. assert (Forall comment_line pre) as Hc by (eapply Forall_impl; [exact Hp|]; by intros c [? _]).
  rewrite file_Lines by (try done; unfold file_lines; by destruct pre, (flat_map block_lines _)).
  unfold file_lines. clear Hc.
  assert (forall inst, listed_mappings "" inst (flat_map block_lines (map mapping_block l) ++ [""]) =
    map (fun p => activate (read_back p.2 (PM_ID p.2) (PM_Instance p.2))) l) as Hlist.
  { clear Hp. induction l as [|[i m] l IH]; intros inst; [done|]. inversion Hl as [|? ? (Hi & Hm & Hid) Hl']; subst. simpl in Hi, Hm, Hid.
    inversion Hb as [|? ? (Hw & Hn & Hr & _) Hb']; subst. simpl in Hw, Hn. cbn [map flat_map]. unfold block_lines at 1. simpl b_rules.
    cbn [app listed_mappings]. simpl b_id. simpl b_instance. rewrite header_marker, header_fields by done.
    inversion Hr as [|? ? Hrl _]; subst. rewrite rule_not_marker by done. destruct Hw as [Hw _]. apply streq_false in Hw. rewrite Hw.
    replace (HasPrefix (rdr_rule i m) "rdr ") with true by (symmetry; apply HasPrefix_spec; by eexists).
    assert (match List.find (fun p => HasPrefix p "instance:") ["instance:" +:+ PM_Instance m] with
            | Some p => TrimPrefix p "instance:" | None => "" end = PM_Instance m) as ->.
    { etransitivity; [|apply of_bytes_bytes]. reflexivity. }
    cbn [negb andb].
    cbv iota. rewrite rdr_rule_parses by done. rewrite IH by done. done. }
  clear Hl Hb. induction Hp as [|c pre [(_ & H1 & _) H2] _ IH]; [apply Hlist|]. cbn [app listed_mappings]. by rewrite H1, IH.
Qed.

(** ** The loaded ruleset *)

(** The rules among the lines of a text, as PF reads them. *)
Definition rule_of (line : string) : option string :=
  let t := TrimSpace line in if streq t "" || HasPrefix t "#" then None else Some (rule_key t).
Definition loaded_rule (line : string) : option string := if HasPrefix line "#" then None else Some (rule_key line).

(** The first occurrence of each, in order. *)
Fixpoint first_occurrences (seen l : list string) : list string :=
  match l with
  | [] => []
  | x :: l => if existsb (streq x) seen then first_occurrences seen l else x :: first_occurrences (x :: seen) l
  end.

Lemma dedupe_rules lines : forall seen pending, Forall (fun c => HasPrefix c "#" = true) pending ->
  omap loaded_rule (dedupe seen pending lines) = first_occurrences seen (omap rule_of lines).
Proof.
  induction lines as [|l lines IH]; intros seen pending Hp; [done|]. cbn [dedupe omap list_omap]. unfold rule_of at 1.
  destruct (streq (TrimSpace l) ""); [by apply IH|]. destruct (HasPrefix (TrimSpace l) "#") eqn:Eh.
  { apply IH. apply Forall_app. split; [done|]. by constructor. }
  cbn [orb first_occurrences]. destruct (existsb (streq (rule_key (TrimSpace l))) seen); [by apply IH|].
  assert (forall rest, omap loaded_rule (pending ++ rest) = omap loaded_rule rest) as Hskip.
  { intros rest. induction Hp as [|c pending Hc _ IHp]; [done|]. cbn [app omap list_omap]. unfold loaded_rule at 1. by rewrite Hc. }
  rewrite Hskip. cbn [omap list_omap]. unfold loaded_rule at 1. rewrite Eh. f_equal. by apply IH.
Qed.

Lemma first_occurrences_NoDup l : forall seen, NoDup (first_occurrences seen l) /\ (forall x, x ∈ first_occurrences seen l <-> x ∈ l /\ x ∉ seen).
Proof.
  induction l as [|x l IH]; intros seen; simpl; [split; [constructor|set_solver]|].
  destruct (existsb (streq x) seen) eqn:E.
  - destruct (IH seen) as [H1 H2]. split; [done|]. intros y. rewrite H2. apply existsb_exists_iff in E as (z & Hz & ->%streq_true). set_solver.
  - destruct (IH (x :: seen)) as [H1 H2]. assert (x ∉ seen) as Hx.
    { intros Hin. rewrite existsb_false_iff, Forall_forall in E. specialize (E _ Hin). by apply streq_false in E. }
    split; [constructor; [rewrite H2; set_solver|done]|]. intros y. rewrite elem_of_cons, H2. destruct (decide (y = x)); set_solver.
Qed.

(** The text loaded into the anchor has every rule of the three files exactly
    once, compared as PF compares them, in the order of their first occurrences:
    it is the reference definition that keeps first occurrences. *)
Theorem loaded_rules_are_distinct (content : string) :
  let kept := omap loaded_rule (dedupe [] [] (Lines content)) in
  kept = first_occurrences [] (omap rule_of (Lines content)) /\ NoDup kept /\
  (forall r, r ∈ kept <-> r ∈ omap rule_of (Lines content)) /\
  dedupeRuleLines content = foldr (fun line t => line +:+ nl +:+ t) "" (dedupe [] [] (Lines content)).
Proof.
  intros kept. subst kept. rewrite dedupe_rules by constructor. destruct (first_occurrences_NoDup (omap rule_of (Lines content)) []) as [H1 H2].
  split_and!; try done. intros r. rewrite H2. set_solver.
Qed.
