(* ===== verification/FwManager.v ===== *)
(** * The firewall manager and the Linux backends
      (pkg/firewall/manager.go, backend.go, nftables.go, iptables.go)

    A backend is the class [FwBackend] of a state [B] and a machine [W]; the
    manager validates, hands rules to the backend and keeps them as one JSON file
    per instance, which it reads back at start-up.  [PF] of [Pf], and nftables and
    iptables here, are instances. *)

From stdpp Require Import base list gmap strings.
From Stdlib Require Import Ascii ZArith Lia.
From S2P Require Import Prelude GoStrings GoText GoPath GoNet Host GoHttp Files Validation Jobs Backup InstanceStore FwRules Pf.

Local Open Scope Z_scope.

(** ** Backends *)

Class FwBackend (B W : Type) := {
  be_Initialize : B -> W -> B * W * option error;
  be_AddPortMapping : B -> W -> PortMapping -> B * W * option error;
  be_RemovePortMapping : B -> W -> PortMapping -> B * W * option error;
  be_AddNATRule : B -> W -> NATRule -> B * W * option error;
  be_RemoveNATRule : B -> W -> NATRule -> B * W * option error;
  be_RemoveAllRules : B -> W -> string -> B * W * option error;
  be_Cleanup : B -> W -> B * W * option error
}.

(** Steps on a backend and a machine that stop at the first error. *)
Definition then_do {B W} (r : B * W * option error) (f : B -> W -> B * W * option error) : B * W * option error :=
  let '(b, w, err) := r in match err with Some e => (b, w, Some e) | None => f b w end.
Definition wrap_step {B W} (msg : string) (r : B * W * option error) : B * W * option error :=
  let '(b, w, err) := r in (b, w, wrap msg [] err).
Fixpoint for_all_steps {A B W} (f : A -> B -> W -> B * W * option error) (l : list A) (b : B) (w : W) : B * W * option error :=
  match l with
  | [] => (b, w, None)
  | x :: l => then_do (f x b w) (for_all_steps f l)
  end.

Section apply.
Context {B W : Type} `{FwBackend B W}.

(** [ApplyRules], the same in the three backends. *)
Definition ApplyRules (b : B) (w : W) (rs : RuleSet) : B * W * option error :=
  then_do (be_RemoveAllRules b w (RuleSet_Instance rs)) (fun b w =>
  then_do (for_all_steps (fun r b w => wrap_step "failed to add NAT rule: %w" (be_AddNATRule b w r)) (RuleSet_NATRules rs) b w) (fun b w =>
  for_all_steps (fun m b w => wrap_step "failed to add port mapping: %w" (be_AddPortMapping b w m)) (RuleSet_PortMappings rs) b w)).
End apply.

(** ** PF as a backend *)

Section pf.
Context {W : Type} `{Host W} `{FileOps W} (Listen : W -> string -> option error).

Definition keep_backend {B W'} (b : B) (r : W' * option error) : B * W' * option error := (b, r.1, r.2).

#[global] Instance pf_backend : FwBackend PFBackend W := {
  be_Initialize p w := keep_backend p (pf_Initialize p w);
  be_AddPortMapping := pf_AddPortMapping Listen;
  be_RemovePortMapping := pf_RemovePortMapping;
  be_AddNATRule p w r := keep_backend p (pf_AddNATRule p w r);
  be_RemoveNATRule p w r := keep_backend p (pf_RemoveNATRule p w r);
  be_RemoveAllRules := pf_RemoveAllRules;
  be_Cleanup p w := (pf_Cleanup p, w, None)
}.
End pf.

(** ** iptables *)

Definition iptablesPreRoutChain : string := "HOSPITUS_PREROUTING".
Definition iptablesPostRoutChain : string := "HOSPITUS_POSTROUTING".

(** [hospitus:<instance>:<id>], which marks a rule of ours. *)
Definition rule_comment (instance id : string) : string := "hospitus:" +:+ instance +:+ ":" +:+ id.

Definition portMappingArgs (op : string) (m : PortMapping) : list string :=
  ["-t"; "nat"; op; iptablesPreRoutChain] ++
  (if streq (PM_HostInterface m) "" then [] else ["-i"; PM_HostInterface m]) ++
  ["-p"; PM_Protocol m; "--dport"; Itoa (PM_HostPort m); "-j"; "DNAT"; "--to-destination"; PM_TargetIP m +:+ ":" +:+ Itoa (PM_TargetPort m);
   "-m"; "comment"; "--comment"; rule_comment (PM_Instance m) (PM_ID m)].

Definition natRuleArgs (op : string) (r : NATRule) : list string :=
  ["-t"; "nat"; op; iptablesPostRoutChain; "-s"; NR_SourceNetwork r; "-o"; NR_OutInterface r; "-j"; "MASQUERADE";
   "-m"; "comment"; "--comment"; rule_comment (NR_Instance r) (NR_ID r)].

(** [fmt.Sscanf(s, "%d", &n)] on text without leading blanks: the value of the
    digits it begins with. *)
Fixpoint digits_prefix (l : list ascii) : list ascii :=
  match l with c :: l => if is_digit c then c :: digits_prefix l else [] | [] => [] end.
Definition Sscanf_d (s : string) : option Z :=
  let '(sign, l) := match bytes s with
                    | c :: l => if Ascii.eqb c "-" then (-1, l) else if Ascii.eqb c "+" then (1, l) else (1, c :: l)
                    | [] => (1, [])
                    end in
  match digits_prefix l with [] => None | ds => Some (sign * digits_value ds) end.

(** The numbers of the listed rules of an instance, in the order listed. *)
Definition listed_numbers (instance output : string) : list Z :=
  omap (fun line =>
    if Contains line ("hospitus:" +:+ instance +:+ ":") then
      match Fields line with
      | first :: _ => match Sscanf_d first with Some n => if 0 <? n then Some n else None | None => None end
      | [] => None
      end
    else None) (Lines output).

(** What follows [sub] in the line, from its first occurrence. *)
Fixpoint after_sub (sub l : list ascii) : option (list ascii) :=
  match cut_prefix_l sub l with
  | Some r => Some r
  | None => match l with [] => None | _ :: l => after_sub sub l end
  end.

Section linux.
Context {W : Type} `{Host W}.

(** Runs a command; an error is wrapped with what it printed. *)
Definition run (msg : string) (argv : list string) (w : W) : W * option error :=
  let '(w, x) := exec w (Command argv) in
  (w, match ex_err x with Some e => Some (Wrapf msg [ex_combined x] e) | None => None end).
(** [_ = cmd.Run()]. *)
Definition run_ignored (argv : list string) (w : W) : W := (exec w (Command argv)).1.

Record IPTablesBackend := {}.
Definition ensureJump (w : W) (builtinChain targetChain : string) : W * option error :=
  let '(w, x) := exec w (Command ["iptables"; "-t"; "nat"; "-C"; builtinChain; "-j"; targetChain]) in
  match ex_err x with
  | None => (w, None)
  | Some _ =>
      let '(w, x) := exec w (Command ["iptables"; "-t"; "nat"; "-A"; builtinChain; "-j"; targetChain]) in
      (w, match ex_err x with Some e => Some (Wrapf "failed to add %s jump: %w: %s" [builtinChain; ex_combined x] e) | None => None end)
  end.

Definition ipt_Initialize (w : W) : W * option error :=
  let w := run_ignored ["iptables"; "-t"; "nat"; "-N"; iptablesPreRoutChain] w in
  let w := run_ignored ["iptables"; "-t"; "nat"; "-N"; iptablesPostRoutChain] w in
  and_then (ensureJump w "PREROUTING" iptablesPreRoutChain) (fun w => ensureJump w "POSTROUTING" iptablesPostRoutChain).

Definition ipt_AddPortMapping (w : W) (m : PortMapping) : W * option error :=
  match PortMapping_Validate m with
  | Some e => (w, Some e)
  | None => run "failed to add DNAT rule: %w: %s" ("iptables" :: portMappingArgs "-A" m) w
  end.
Definition ipt_RemovePortMapping (w : W) (m : PortMapping) : W * option error :=
  run "failed to remove DNAT rule: %w: %s" ("iptables" :: portMappingArgs "-D" m) w.
Definition ipt_AddNATRule (w : W) (r : NATRule) : W * option error :=
  match NATRule_Validate r with
  | Some e => (w, Some e)
  | None => run "failed to add MASQUERADE rule: %w: %s" ("iptables" :: natRuleArgs "-A" r) w
  end.
Definition ipt_RemoveNATRule (w : W) (r : NATRule) : W * option error :=
  run "failed to remove MASQUERADE rule: %w: %s" ("iptables" :: natRuleArgs "-D" r) w.

(** The last first: deleting a rule renumbers those after it. *)
Fixpoint delete_numbers (chain : string) (numbers : list Z) (w : W) : W * option error :=
  match numbers with
  | [] => (w, None)
  | n :: rest =>
      let '(w, x) := exec w (Command ["iptables"; "-t"; "nat"; "-D"; chain; Itoa n]) in
      match ex_err x with
      | Some e => (w, Some (Wrapf "failed to delete rule %d: %w: %s" [Itoa n; ex_combined x] e))
      | None => delete_numbers chain rest w
      end
  end.
Definition ipt_removeInstanceRulesFromChain (w : W) (chain instance : string) : W * option error :=
  let '(w, x) := exec w (Command ["iptables"; "-t"; "nat"; "-L"; chain; "--line-numbers"; "-n"]) in
  match ex_err x with
  | Some e => (w, Some (Wrapf "failed to list rules: %w: %s" [ex_combined x] e))
  | None => delete_numbers chain (rev (listed_numbers instance (ex_combined x))) w
  end.
Definition ipt_RemoveAllRules (w : W) (instance : string) : W * option error :=
  and_then (ipt_removeInstanceRulesFromChain w iptablesPreRoutChain instance)
    (fun w => ipt_removeInstanceRulesFromChain w iptablesPostRoutChain instance).
Definition ipt_Cleanup (w : W) : W :=
  foldl (fun w argv => run_ignored ("iptables" :: "-t" :: "nat" :: argv) w) w
    [["-F"; iptablesPreRoutChain]; ["-F"; iptablesPostRoutChain]; ["-D"; "PREROUTING"; "-j"; iptablesPreRoutChain];
     ["-D"; "POSTROUTING"; "-j"; iptablesPostRoutChain]; ["-X"; iptablesPreRoutChain]; ["-X"; iptablesPostRoutChain]].

(** A mapping read off a listed line: only what its comment says. *)
Definition listed_comment (line : string) : option PortMapping :=
  match after_sub (bytes "hospitus:") (bytes line) with
  | None => None
  | Some r =>
      let '(instance, id) := match Split (of_bytes r) ":" with instance :: id :: _ => (instance, id) | _ => ("", "") end in
      if streq instance "" then None
      else Some {| PM_ID := id; PM_Instance := instance; PM_Provider := ""; PM_Protocol := ""; PM_HostPort := 0; PM_TargetIP := "";
                   PM_TargetPort := 0; PM_HostInterface := ""; PM_Description := ""; PM_Active := true |}
  end.
Definition ipt_ListRules (w : W) : W * result (list PortMapping) :=
  let '(w, x) := exec w (Command ["iptables"; "-t"; "nat"; "-L"; iptablesPreRoutChain; "-n"]) in
  (w, match ex_err x with
      | Some e => Err (Wrapf "failed to list rules: %w: %s" [ex_combined x] e)
      | None => Ok (omap listed_comment (Lines (ex_combined x)))
      end).

#[global] Instance iptables_backend : FwBackend IPTablesBackend W := {
  be_Initialize b w := keep_backend b (ipt_Initialize w);
  be_AddPortMapping b w m := keep_backend b (ipt_AddPortMapping w m);
  be_RemovePortMapping b w m := keep_backend b (ipt_RemovePortMapping w m);
  be_AddNATRule b w r := keep_backend b (ipt_AddNATRule w r);
  be_RemoveNATRule b w r := keep_backend b (ipt_RemoveNATRule w r);
  be_RemoveAllRules b w i := keep_backend b (ipt_RemoveAllRules w i);
  be_Cleanup b w := (b, ipt_Cleanup w, None)
}.

(** ** nftables *)

Record NFTablesBackend := {}.
Definition nftTableName : string := "hospitus".
Definition nftPreRoutingChain : string := "prerouting".
Definition nftPostRoutingChain : string := "postrouting".
Definition nftHandlePrefix : string := "# handle ".

Fixpoint nft_commands (cmds : list (list string)) (w : W) : W * option error :=
  match cmds with
  | [] => (w, None)
  | args :: rest =>
      let '(w, x) := exec w (Command ("nft" :: args)) in
      match ex_err x with
      | Some e => if Contains (ToLower (ex_combined x)) "file exists" then nft_commands rest w
                  else (w, Some (Wrapf "nft %s: %w: %s" [JoinStrings args " "; TrimSpace (ex_combined x)] e))
      | None => nft_commands rest w
      end
  end.
Definition nft_Initialize (w : W) : W * option error :=
  nft_commands
    [["add"; "table"; "ip"; nftTableName];
     ["add"; "chain"; "ip"; nftTableName; nftPreRoutingChain; "{ type nat hook prerouting priority -100 ; }"];
     ["add"; "chain"; "ip"; nftTableName; nftPostRoutingChain; "{ type nat hook postrouting priority 100 ; }"]] w.

Definition dnat_rule (m : PortMapping) : string :=
  (if streq (PM_HostInterface m) "" then "" else "iifname " +:+ Quote (PM_HostInterface m) +:+ " ") +:+
  PM_Protocol m +:+ " dport " +:+ Itoa (PM_HostPort m) +:+ " dnat to " +:+ PM_TargetIP m +:+ ":" +:+ Itoa (PM_TargetPort m) +:+
  " comment " +:+ Quote (rule_comment (PM_Instance m) (PM_ID m)).
Definition masquerade_rule (r : NATRule) : string :=
  "ip saddr " +:+ NR_SourceNetwork r +:+ " oifname " +:+ Quote (NR_OutInterface r) +:+ " masquerade comment " +:+
  Quote (rule_comment (NR_Instance r) (NR_ID r)).

Definition nft_AddPortMapping (w : W) (m : PortMapping) : W * option error :=
  match PortMapping_Validate m with
  | Some e => (w, Some e)
  | None =>
      match ParseIP (PM_TargetIP m) with
      | Some ip =>
          if negb (is_v4 ip)
          then (w, Some (Errorf "target %s is IPv6: the nftables backend serves the ip (IPv4) family only" [PM_TargetIP m]))
          else run "failed to add DNAT rule: %w: %s" ["nft"; "add"; "rule"; "ip"; nftTableName; nftPreRoutingChain; dnat_rule m] w
      | None => run "failed to add DNAT rule: %w: %s" ["nft"; "add"; "rule"; "ip"; nftTableName; nftPreRoutingChain; dnat_rule m] w
      end
  end.
Definition nft_AddNATRule (w : W) (r : NATRule) : W * option error :=
  match NATRule_Validate r with
  | Some e => (w, Some e)
  | None => run "failed to add MASQUERADE rule: %w: %s" ["nft"; "add"; "rule"; "ip"; nftTableName; nftPostRoutingChain; masquerade_rule r] w
  end.

(** The positive handle a listed line ends in. *)
Definition handle_of (line : string) : option Z :=
  match after_sub (bytes nftHandlePrefix) (bytes line) with
  | None => None
  | Some r => match Sscanf_d (TrimSpace (of_bytes r)) with Some h => if 0 <? h then Some h else None | None => None end
  end.
Definition list_chain (w : W) (chain : string) : W * exit := exec w (Command ["nft"; "-a"; "list"; "chain"; "ip"; nftTableName; chain]).
Definition delete_handle (w : W) (chain : string) (handle : Z) : W * exit :=
  exec w (Command ["nft"; "delete"; "rule"; "ip"; nftTableName; chain; "handle"; Itoa handle]).

(** Every matching rule is tried; the failures are collected. *)
Fixpoint delete_handles (chain : string) (handles : list Z) (w : W) : W * list error :=
  match handles with
  | [] => (w, [])
  | h :: rest =>
      let '(w, x) := delete_handle w chain h in
      let '(w, errs) := delete_handles chain rest w in
      (w, match ex_err x with Some e => Wrapf "handle %d: %w: %s" [Itoa h; TrimSpace (ex_combined x)] e :: errs | None => errs end)
  end.
Definition nft_removeInstanceRulesFromChain (w : W) (chain instance : string) : W * option error :=
  let '(w, x) := list_chain w chain in
  match ex_err x with
  | Some _ => (w, None)
  | None =>
      let handles := omap handle_of (List.filter (fun l => Contains l ("hospitus:" +:+ instance +:+ ":")) (Lines (ex_combined x))) in
      let '(w, errs) := delete_handles chain handles w in
      (w, match errs with
          | [] => None
          | _ => Some (Wrapf "failed to delete %d nft rule(s) in chain %s: %w" [Itoa (Z.of_nat (length errs)); chain] (Joined errs))
          end)
  end.
Definition nft_RemoveAllRules (w : W) (instance : string) : W * option error :=
  and_then (nft_removeInstanceRulesFromChain w nftPreRoutingChain instance)
    (fun w => nft_removeInstanceRulesFromChain w nftPostRoutingChain instance).

(** The first listed rule that carries the comment and a handle is deleted. *)
Definition removeRuleByComment (w : W) (chain instance id : string) : W * option error :=
  let '(w, x) := list_chain w chain in
  match ex_err x with
  | Some e => if Contains (ToLower (ex_combined x)) "no such file or directory" then (w, None)
              else (w, Some (Wrapf "failed to list chain %s: %w: %s" [chain; TrimSpace (ex_combined x)] e))
  | None =>
      match omap handle_of (List.filter (fun l => Contains l (rule_comment instance id)) (Lines (ex_combined x))) with
      | [] => (w, None)
      | h :: _ => let '(w, x) := delete_handle w chain h in
                  (w, match ex_err x with Some e => Some (Wrapf "failed to delete rule: %w: %s" [ex_combined x] e) | None => None end)
      end
  end.
Definition nft_RemovePortMapping (w : W) (m : PortMapping) : W * option error :=
  removeRuleByComment w nftPreRoutingChain (PM_Instance m) (PM_ID m).
Definition nft_RemoveNATRule (w : W) (r : NATRule) : W * option error :=
  removeRuleByComment w nftPostRoutingChain (NR_Instance r) (NR_ID r).
Definition nft_Cleanup (w : W) : W := run_ignored ["nft"; "delete"; "table"; "ip"; nftTableName] w.

#[global] Instance nftables_backend : FwBackend NFTablesBackend W := {
  be_Initialize b w := keep_backend b (nft_Initialize w);
  be_AddPortMapping b w m := keep_backend b (nft_AddPortMapping w m);
  be_RemovePortMapping b w m := keep_backend b (nft_RemovePortMapping w m);
  be_AddNATRule b w r := keep_backend b (nft_AddNATRule w r);
  be_RemoveNATRule b w r := keep_backend b (nft_RemoveNATRule w r);
  be_RemoveAllRules b w i := keep_backend b (nft_RemoveAllRules w i);
  be_Cleanup b w := (b, nft_Cleanup w, None)
}.

(** [DetectBackend]. *)
Definition DetectBackend (GOOS : string) (w : W) : result string :=
  if existsb (streq GOOS) ["freebsd"; "openbsd"; "netbsd"; "dragonfly"] then Ok "pf"
  else if streq GOOS "linux" then
    match LookPath w "nft" with
    | None => Ok "nftables"
    | Some _ => match LookPath w "iptables" with
                | None => Ok "iptables"
                | Some _ => Err (Errorf "no firewall backend available on Linux (tried nftables, iptables)" [])
                end
    end
  else Err (Errorf "unsupported operating system: %s" [GOOS]).
End linux.

(** ** Any of them *)

Inductive AnyBackend := BackendPF (p : PFBackend) | BackendIPTables (i : IPTablesBackend) | BackendNFTables (n : NFTablesBackend).

Definition NewBackend (backendType : string) : result AnyBackend :=
  if streq backendType "pf" then Ok (BackendPF (NewPFBackendWithDir DefaultPFRulesDir))
  else if streq backendType "iptables" then Ok (BackendIPTables Build_IPTablesBackend)
  else if streq backendType "nftables" then Ok (BackendNFTables Build_NFTablesBackend)
  else Err (Errorf "unknown backend type: %s" [backendType]).

Section any.
Context {W : Type} `{Host W} `{FileOps W} (Listen : W -> string -> option error).

Definition NewAutoBackend (GOOS : string) (w : W) : result AnyBackend :=
  match DetectBackend GOOS w with Err e => Err e | Ok t => NewBackend t end.

(** [Manager.AddFilterRule] and [Manager.AddRawNATRule]: only PF has such rules. *)
Definition fm_AddFilterRule (b : AnyBackend) (w : W) (ruleID instance pfRule : string) : W * option error :=
  match b with BackendPF p => AddFilterRule p w ruleID instance pfRule | _ => (w, None) end.
Definition fm_AddRawNATRule (b : AnyBackend) (w : W) (ruleID instance pfRule : string) : W * option error :=
  match b with BackendPF p => AddRawNATRule p w ruleID instance pfRule | _ => (w, None) end.
End any.

(** ** The manager *)

Section manager.
Context {B W : Type} `{FwBackend B W} `{FileOps W} `{Json RuleSet}.

(** The directory is fixed at construction. *)
Variable rulesDir : string.

Definition ruleFilePath (instance : string) : result string :=
  match ValidateInstanceName instance with
  | Some e => Err (Wrapf "invalid instance name: %w" [] e)
  | None => Ok (path_Join rulesDir (instance +:+ ".json"))
  end.

Definition loadRuleSet (w : W) (instance : string) : result RuleSet :=
  match ruleFilePath instance with
  | Err e => Err e
  | Ok f => match ReadFile w f with
            | Err e => Err e
            | Ok data => wrap_err "failed to parse rule file: %w" [] (Unmarshal data)
            end
  end.

Definition saveRuleSet (w : W) (instance : string) (rs : RuleSet) : W * option error :=
  match ruleFilePath instance with
  | Err e => (w, Some e)
  | Ok f => match Marshal rs with
            | Err e => (w, Some (Wrapf "failed to marshal rule set: %w" [] e))
            | Ok data => wrapped "failed to write rule file: %w" (atomicWriteFile w f data 384)
            end
  end.

Definition empty_rules : RuleSet := {| RuleSet_Instance := ""; RuleSet_Provider := ""; RuleSet_PortMappings := []; RuleSet_NATRules := [] |}.

(** The rules to add to: those on file, or none yet. *)
Definition stored_rules (w : W) (instance : string) : result RuleSet :=
  let r := match loadRuleSet w instance with
           | Ok rs => Ok rs
           | Err e => if errors_Is e ErrNotExist then Ok empty_rules else Err e
           end in
  match r with
  | Ok rs => Ok {| RuleSet_Instance := if streq (RuleSet_Instance rs) "" then instance else RuleSet_Instance rs;
                   RuleSet_Provider := RuleSet_Provider rs; RuleSet_PortMappings := RuleSet_PortMappings rs; RuleSet_NATRules := RuleSet_NATRules rs |}
  | Err e => Err e
  end.

Definition with_mappings (rs : RuleSet) (l : list PortMapping) : RuleSet :=
  {| RuleSet_Instance := RuleSet_Instance rs; RuleSet_Provider := RuleSet_Provider rs; RuleSet_PortMappings := l; RuleSet_NATRules := RuleSet_NATRules rs |}.
Definition with_nat (rs : RuleSet) (l : list NATRule) : RuleSet :=
  {| RuleSet_Instance := RuleSet_Instance rs; RuleSet_Provider := RuleSet_Provider rs; RuleSet_PortMappings := RuleSet_PortMappings rs; RuleSet_NATRules := l |}.

(** The first element the test holds of is replaced; where there is none, the new
    one is added at the end. *)
Fixpoint replace_or_add {A} (same : A -> bool) (x : A) (l : list A) : list A :=
  match l with [] => [x] | y :: l => if same y then x :: l else y :: replace_or_add same x l end.

Definition same_port (hostPort : Z) (protocol : string) (m : PortMapping) : bool := (PM_HostPort m =? hostPort) && streq (PM_Protocol m) protocol.

Definition persistMapping (w : W) (instance : string) (m : PortMapping) : W * option error :=
  match stored_rules w instance with
  | Err e => (w, Some e)
  | Ok rs => saveRuleSet w instance (with_mappings rs (replace_or_add (same_port (PM_HostPort m) (PM_Protocol m)) m (RuleSet_PortMappings rs)))
  end.
Definition persistNATRule (w : W) (instance : string) (r : NATRule) : W * option error :=
  match stored_rules w instance with
  | Err e => (w, Some e)
  | Ok rs => saveRuleSet w instance (with_nat rs (replace_or_add (fun x => streq (NR_ID x) (NR_ID r)) r (RuleSet_NATRules rs)))
  end.

Definition new_mapping (instance provider protocol : string) (hostPort targetPort : Z) (targetIP : string) : PortMapping :=
  let m id := {| PM_ID := id; PM_Instance := instance; PM_Provider := provider; PM_Protocol := protocol; PM_HostPort := hostPort;
                 PM_TargetIP := targetIP; PM_TargetPort := targetPort; PM_HostInterface := ""; PM_Description := ""; PM_Active := true |} in
  m (GenerateID (m "")).

Definition ExposePort (b : B) (w : W) (instance provider protocol : string) (hostPort targetPort : Z) (targetIP : string)
    : B * W * result PortMapping :=
  let m := new_mapping instance provider protocol hostPort targetPort targetIP in
  match PortMapping_Validate m with
  | Some e => (b, w, Err e)
  | None =>
      match be_AddPortMapping b w m with
      | (b, w, Some e) => (b, w, Err (Wrapf "failed to add port mapping: %w" [] e))
      | (b, w, None) =>
          match persistMapping w instance m with
          | (w, None) => (b, w, Ok m)
          | (w, Some e) =>
              match be_RemovePortMapping b w m with
              | (b, w, Some rb) => (b, w, Err (Wrapf "failed to persist mapping: %w (rollback also failed: %w)" [] (Joined [e; rb])))
              | (b, w, None) => (b, w, Err (Wrapf "failed to persist mapping: %w" [] e))
              end
          end
      end
  end.

(** The last mapping with this port and protocol, and the others. *)
Definition UnexposePort (b : B) (w : W) (instance : string) (hostPort : Z) (protocol : string) : B * W * option error :=
  match loadRuleSet w instance with
  | Err e => (b, w, Some e)
  | Ok rs =>
      match last (List.filter (same_port hostPort protocol) (RuleSet_PortMappings rs)) with
      | None => (b, w, Some (Errorf "port mapping not found: %d/%s" [Itoa hostPort; protocol]))
      | Some found =>
          match be_RemovePortMapping b w found with
          | (b, w, Some e) => (b, w, Some (Wrapf "failed to remove port mapping: %w" [] e))
          | (b, w, None) =>
              let '(w, err) := saveRuleSet w instance
                (with_mappings rs (List.filter (fun m => negb (same_port hostPort protocol m)) (RuleSet_PortMappings rs))) in
              (b, w, err)
          end
      end
  end.

Definition ListExposedPortsReadOnly (w : W) (instance : string) : result (list PortMapping) :=
  match loadRuleSet w instance with
  | Err e => if errors_Is e ErrNotExist then Ok [] else Err e
  | Ok rs => Ok (RuleSet_PortMappings rs)
  end.

(** [strings.NewReplacer("/", "_", ".", "-", ":", "-")]. *)
Definition slug_char (c : ascii) : ascii :=
  if Ascii.eqb c "/" then "_"%char else if Ascii.eqb c "." || Ascii.eqb c ":" then "-"%char else c.
Definition natRuleID (instance sourceNetwork : string) : string := instance +:+ "-nat-" +:+ of_bytes (map slug_char (bytes sourceNetwork)).

Definition SetupNAT (b : B) (w : W) (instance provider sourceNetwork outInterface : string) : B * W * result NATRule :=
  let r := {| NR_ID := natRuleID instance sourceNetwork; NR_Instance := instance; NR_Provider := provider;
              NR_SourceNetwork := sourceNetwork; NR_OutInterface := outInterface; NR_Active := true |} in
  match NATRule_Validate r with
  | Some e => (b, w, Err e)
  | None =>
      match be_AddNATRule b w r with
      | (b, w, Some e) => (b, w, Err (Wrapf "failed to add NAT rule: %w" [] e))
      | (b, w, None) =>
          match persistNATRule w instance r with
          | (w, None) => (b, w, Ok r)
          | (w, Some e) =>
              match be_RemoveNATRule b w r with
              | (b, w, Some rb) => (b, w, Err (Wrapf "failed to persist NAT rule: %w (rollback also failed: %w)" [] (Joined [e; rb])))
              | (b, w, None) => (b, w, Err (Wrapf "failed to persist NAT rule: %w" [] e))
              end
          end
      end
  end.

Definition RemoveNAT (b : B) (w : W) (instance : string) : B * W * option error :=
  match loadRuleSet w instance with
  | Err e => (b, w, if errors_Is e ErrNotExist then None else Some e)
  | Ok rs =>
      then_do (for_all_steps (fun r b w => wrap_step "failed to remove NAT rule: %w" (be_RemoveNATRule b w r)) (RuleSet_NATRules rs) b w) (fun b w =>
      let '(w, err) := saveRuleSet w instance (with_nat rs []) in (b, w, err))
  end.

Definition fm_RemoveAllRules (b : B) (w : W) (instance : string) : B * W * option error :=
  then_do (wrap_step "failed to remove rules from backend: %w" (be_RemoveAllRules b w instance)) (fun b w =>
  match ruleFilePath instance with
  | Err e => (b, w, Some e)
  | Ok f =>
      let '(w, err) := RemoveFile w f in
      (b, w, match err with
             | Some e => if errors_Is e ErrNotExist then None else Some (Wrapf "failed to remove rule file: %w" [] e)
             | None => None
             end)
  end).

Definition GetRuleSet (w : W) (instance : string) : result RuleSet :=
  match loadRuleSet w instance with
  | Ok rs => Ok rs
  | Err e => if errors_Is e ErrNotExist
             then Ok {| RuleSet_Instance := instance; RuleSet_Provider := ""; RuleSet_PortMappings := []; RuleSet_NATRules := [] |}
             else Err e
  end.

(** The entries [*.json] that are not directories, without their suffix. *)
Definition json_instances (entries : list DirEntry) : list string :=
  omap (fun e => if negb (de_isdir e) && HasSuffix (de_name e) ".json" then Some (TrimSuffix (de_name e) ".json") else None) entries.

(** One instance after the other; one that fails does not stop the rest. *)
Fixpoint restore_all (instances : list string) (b : B) (w : W) : B * W :=
  match instances with
  | [] => (b, w)
  | i :: rest =>
      match loadRuleSet w i with
      | Err _ => restore_all rest b w
      | Ok rs => let '(b, w, _) := ApplyRules b w rs in restore_all rest b w
      end
  end.
Definition restoreRules (b : B) (w : W) : B * W * option error :=
  match ReadDir w rulesDir with
  | Err e => (b, w, if errors_Is e ErrNotExist then None else Some e)
  | Ok entries => let '(b, w) := restore_all (json_instances entries) b w in (b, w, None)
  end.

Definition fm_Initialize (b : B) (w : W) : B * W * option error :=
  match MakeDirs w rulesDir with
  | (w, Some e) => (b, w, Some (Wrapf "failed to create rules directory: %w" [] e))
  | (w, None) =>
      then_do (wrap_step "failed to initialize backend: %w" (be_Initialize b w)) (fun b w =>
      wrap_step "failed to restore firewall rules: %w" (restoreRules b w))
  end.
Definition fm_Cleanup (b : B) (w : W) : B * W * option error := be_Cleanup b w.
End manager.
