(* ===== verification/FwManagerFacts.v ===== *)
(** * Facts about the firewall manager

    What the backends leave alone, as a class that PF, nftables and iptables
    discharge; against it, what the manager's operations do to the rule files and
    what every stored rule satisfies. *)

From stdpp Require Import base list gmap strings sets relations.
From Stdlib Require Import Ascii ZArith Lia.
From S2P Require Import Prelude GoStrings GoText GoWords GoPath GoNet Host GoHttp Files Validation ValidationFacts InstanceStore FwRules Pf PfFacts FwManager.

Local Open Scope Z_scope.

(** ** What a backend leaves alone *)

Section frame.
Context {B W : Type} `{FileOps W} `{!FileLaws W} (untouched : B -> string -> Prop).

(** A step changes no file its backend leaves alone, and leaves it alone still. *)
Definition frames (step : B -> W -> B * W * option error) : Prop :=
  forall b w f, untouched b f -> untouched (step b w).1.1 f /\ files (step b w).1.2 !! f = files w !! f.

Lemma frames_then f g : frames f -> (frames g) -> frames (fun b w => then_do (f b w) g).
Proof.
  intros Hf Hg b w x Hx. destruct (Hf b w x Hx) as [H1 H2]. unfold then_do. destruct (f b w) as [[b1 w1] [e|]]; simpl in *; [done|].
  destruct (Hg b1 w1 x H1) as [H3 H4]. split; [done|congruence].
Qed.
Lemma frames_all {A} (f : A -> B -> W -> B * W * option error) l : (forall x, frames (f x)) -> frames (for_all_steps f l).
Proof. intros Hf. induction l as [|x l IH]; [by intros b w y Hy|]. by apply (frames_then (f x) (for_all_steps f l)). Qed.
Lemma frames_wrap msg f : frames f -> frames (fun b w => wrap_step msg (f b w)).
Proof. intros Hf b w x Hx. destruct (Hf b w x Hx) as [H1 H2]. unfold wrap_step. by destruct (f b w) as [[b1 w1] e]. Qed.
End frame.

Class FwFrame (B W : Type) `{FwBackend B W} `{FileOps W} `{!FileLaws W} := {
  untouched : B -> string -> Prop;
  init_frame : frames untouched be_Initialize;
  add_mapping_frame m : frames untouched (fun b w => be_AddPortMapping b w m);
  remove_mapping_frame m : frames untouched (fun b w => be_RemovePortMapping b w m);
  add_nat_frame r : frames untouched (fun b w => be_AddNATRule b w r);
  remove_nat_frame r : frames untouched (fun b w => be_RemoveNATRule b w r);
  remove_all_frame i : frames untouched (fun b w => be_RemoveAllRules b w i);
  cleanup_frame : frames untouched be_Cleanup
}.

(** ** The files PF leaves alone *)

Section pf_frame.
Context {W : Type} `{Host W} `{FileOps W} `{!FileLaws W} (Listen : W -> string -> option error).
(** Programs change no file; nor does opening for append one that is there, or
    making directories. *)
Hypothesis exec_frame : forall w c, files (exec w c).1 = files w.
Hypothesis append_frame : forall w f g, g <> f -> files (OpenAppend w f).1 !! g = files w !! g.
Hypothesis write_frame : forall w f s g, g <> f -> files (WriteFile w f s).1 !! g = files w !! g.
Hypothesis dirs_frame : forall w d, files (MakeDirs w d).1 = files w.

Definition pf_files (p : PFBackend) : list string := [natFile p; rdrFile p; filterFile p; combinedFile p].

Definition pf_untouched (p : PFBackend) (f : string) : Prop :=
  f ∉ pf_files p /\ ~ temp_path f /\ Forall (fun g => ~ temp_path g) (pf_files p).

(** The same, of a step on the machine alone. *)
Definition spares (f : string) (step : W -> W * option error) : Prop := forall w, files (step w).1 !! f = files w !! f.

Lemma spares_then f (s : W -> W * option error) t : spares f s -> spares f t -> spares f (fun w => and_then (s w) t).
Proof. intros Hs Ht w. unfold and_then. specialize (Hs w). destruct (s w) as [w' [e|]]; simpl in *; [done|]. by rewrite Ht. Qed.
Lemma spares_wrapped f msg s : spares f s -> spares f (fun w => wrapped msg (s w)).
Proof. intros Hs w. apply Hs. Qed.

Lemma spares_atomic f g data perm : g <> f -> ~ temp_path f -> ~ temp_path g -> spares f (fun w => atomicWriteFile w g data perm).
Proof.
  intros Hne Hf Hg w. destruct (atomicWriteFile w g data perm) as [w' e] eqn:E. apply atomicWriteFile_spec in E as [_ Hs]; [|done].
  by apply Hs.
Qed.

Section one.
Variables (p : PFBackend) (f : string).
Hypothesis Huntouched : pf_untouched p f.

Lemma other_file g : g ∈ pf_files p -> g <> f /\ ~ temp_path f /\ ~ temp_path g.
Proof. intros Hg. destruct Huntouched as (H1 & H2 & H3). rewrite Forall_forall in H3. split_and!; [by intros ->|done|by apply H3]. Qed.

Lemma spares_append g id inst rules : g ∈ pf_files p -> spares f (fun w => appendRules w g id inst rules).
Proof.
  intros Hg. destruct (other_file g Hg) as (Hne & _). intros w. unfold appendRules. destruct (ruleExists w g id); [done|].
  destruct (checkRuleText id inst rules); [done|]. revert w. apply spares_then; intros w.
  - by apply append_frame.
  - pose proof (write_string_law w g (block_text id inst rules)) as Hw.
    destruct (WriteString w g _) as [w' [e|]]; simpl; [destruct Hw as [part ->]|rewrite Hw]; by rewrite lookup_insert_ne.
Qed.
Lemma spares_rewrite g target : g ∈ pf_files p -> spares f (fun w => rewrite_without w g target).
Proof.
  intros Hg w. unfold rewrite_without. destruct (ReadFile w g); [|by destruct (errors_Is _ _)].
  destruct (other_file g Hg) as (? & ? & ?). by apply spares_atomic.
Qed.
Lemma spares_reload : spares f (reloadRulesNoLock p).
Proof.
  intros w. unfold reloadRulesNoLock. destruct (readRuleFile w (natFile p)); [|done]. destruct (readRuleFile w (rdrFile p)); [|done].
  destruct (readRuleFile w (filterFile p)); [|done].
  destruct (other_file (combinedFile p)) as (? & ? & ?); [set_solver|].
  match goal with |- context [and_then (wrapped ?m (atomicWriteFile _ _ ?d ?q)) ?k] =>
    apply (spares_then f (fun w => wrapped m (atomicWriteFile w (combinedFile p) d q)) k) end.
  - by apply spares_wrapped, spares_atomic.
  - intros w1. pose proof (exec_frame w1 (Command ["pfctl"; "-a"; pfAnchorName; "-f"; combinedFile p])) as Hx.
    destruct (exec _ _) as [w2 x]. simpl in *. by rewrite Hx.
Qed.

Lemma spares_appended g id inst rule w : g ∈ pf_files p -> files (appendRule w g id inst rule).1 !! f = files w !! f.
Proof. intros Hg. by apply spares_append. Qed.
Lemma spares_remove g id w : g ∈ pf_files p -> files (removeRule w g id).1 !! f = files w !! f.
Proof. intros Hg. by apply spares_rewrite. Qed.

Lemma spares_ensure g header msg : g ∈ pf_files p -> spares f (ensure_file g header msg).
Proof.
  intros Hg w. destruct (other_file g Hg) as (? & _). unfold ensure_file. destruct (Stat w g); [done|]. destruct (errors_Is _ _); [|done].
  by apply write_frame.
Qed.

Lemma spares_generate m w : files (generateRdrRules w m).1 !! f = files w !! f.
Proof.
  unfold generateRdrRules, getDefaultInterface. pose proof (exec_frame w (Command ["route"; "-n"; "get"; "default"])) as Hx.
  destruct (streq _ _); [|done]. destruct (exec _ _) as [w' x]. simpl in *. by rewrite Hx.
Qed.

Lemma spares_AddNATRule r : spares f (fun w => pf_AddNATRule p w r).
Proof.
  intros w. unfold pf_AddNATRule. destruct (NATRule_Validate r); [done|]. destruct (generateNatRule r) as [pfRule|]; [|done].
  assert (natFile p ∈ pf_files p /\ filterFile p ∈ pf_files p) as [Hn Hf] by (unfold pf_files; set_solver).
  revert w. apply spares_then; [by apply spares_append|]. intros w.
  pose proof (spares_appended (filterFile p) (NR_ID r +:+ "-pass") (NR_Instance r) (pass_in r) w Hf) as H1.
  destruct (appendRule w _ _ _ _) as [w1 [e|]]; simpl in H1.
  { pose proof (spares_remove (natFile p) (NR_ID r) w1 Hn) as H2. destruct (removeRule w1 _ _) as [w2 e2]. simpl in *. congruence. }
  pose proof (spares_appended (filterFile p) (NR_ID r +:+ "-pass-out") (NR_Instance r) (pass_out r) w1 Hf) as H2.
  destruct (appendRule w1 _ _ _ _) as [w2 [e|]]; simpl in H2; [|rewrite spares_reload; congruence].
  pose proof (spares_remove (natFile p) (NR_ID r) w2 Hn) as H3. destruct (removeRule w2 _ _) as [w3 e3]. simpl in H3.
  pose proof (spares_remove (filterFile p) (NR_ID r +:+ "-pass") w3 Hf) as H4. destruct (removeRule w3 _ _) as [w4 e4]. simpl in *. congruence.
Qed.

Lemma spares_RemoveNATRule r : spares f (fun w => pf_RemoveNATRule p w r).
Proof.
  assert (natFile p ∈ pf_files p /\ filterFile p ∈ pf_files p) as [Hn Hf] by (unfold pf_files; set_solver).
  apply spares_then; [by apply spares_rewrite|]. intros w.
  pose proof (spares_remove (filterFile p) (NR_ID r +:+ "-pass") w Hf) as H1. destruct (removeRule w _ _) as [w1 e1]. simpl in H1.
  pose proof (spares_remove (filterFile p) (NR_ID r +:+ "-pass-out") w1 Hf) as H2. destruct (removeRule w1 _ _) as [w2 e2]. simpl in H2.
  rewrite spares_reload. congruence.
Qed.

Lemma spares_checkAnchor w : files (checkAnchorNoLock w).1 !! f = files w !! f.
Proof.
  unfold checkAnchorNoLock. pose proof (exec_frame w (Command ["pfctl"; "-s"; "info"])) as H1. destruct (exec w _) as [w1 x1]. simpl in H1.
  destruct (ex_err x1); [by rewrite <- H1|]. destruct (negb _); [by rewrite <- H1|].
  pose proof (exec_frame w1 (Command ["pfctl"; "-sn"])) as H2. destruct (exec w1 _) as [w2 x2]. simpl in H2.
  pose proof (exec_frame w2 (Command ["pfctl"; "-sr"])) as H3. destruct (exec w2 _) as [w3 x3]. simpl in H3.
  destruct (omap _ _); simpl; congruence.
Qed.

Lemma spares_Initialize : spares f (pf_Initialize p).
Proof.
  repeat (apply spares_then; [first [apply spares_ensure; unfold pf_files; set_solver
                                    |intros w; simpl; by rewrite dirs_frame]|]).
  intros w. pose proof (spares_checkAnchor w) as H1. destruct (checkAnchorNoLock w) as [w1 e1]. simpl in H1.
  pose proof (spares_reload w1) as H2. destruct (reloadRulesNoLock p w1) as [w2 e2]. simpl in *. congruence.
Qed.
End one.

Lemma frames_machine (step : PFBackend -> W -> W * option error) :
  (forall p f, pf_untouched p f -> spares f (step p)) -> frames pf_untouched (fun p w => keep_backend p (step p w)).
Proof. intros Hs p w f Hf. split; [done|]. by apply (Hs p). Qed.

Lemma pf_AddPortMapping_frame m : frames pf_untouched (fun p w => pf_AddPortMapping Listen p w m).
Proof.
  intros p w f Hf. unfold pf_AddPortMapping. destruct (PortMapping_Validate m); [done|].
  destruct (negb _); [by destruct (streq _ _)|]. destruct (proxy_Start Listen (pf_proxy p) w m) as [proxies err].
  pose proof (spares_generate f m w) as H1. destruct (generateRdrRules w m) as [w1 rules]. simpl in H1.
  destruct rules as [rules|e]; [|by destruct (is_nil err)].
  assert (spares f (fun w => and_then (appendRules w (rdrFile p) (PM_ID m) (PM_Instance m) rules) (reloadRulesNoLock p))) as Hs.
  { apply spares_then; [apply (spares_append p); [done|unfold pf_files; set_solver]|by apply spares_reload]. }
  specialize (Hs w1). cbv beta in Hs.
  change (reloadRulesNoLock (set_proxy p proxies)) with (reloadRulesNoLock p). change (rdrFile (set_proxy p proxies)) with (rdrFile p).
  destruct (and_then _ _) as [w2 [e|]]; simpl in Hs |- *; rewrite Hs, H1; [by destruct (is_nil err)|done].
Qed.

Lemma pf_RemovePortMapping_frame m : frames pf_untouched (fun p w => pf_RemovePortMapping p w m).
Proof.
  intros p w f Hf. unfold pf_RemovePortMapping. set (q := set_proxy p _). assert (pf_untouched q f) as Hq by done.
  pose proof (spares_remove q f Hq (rdrFile q) (PM_ID m) w ltac:(unfold pf_files; set_solver)) as H1.
  destruct (removeRule w (rdrFile q) (PM_ID m)) as [w1 [e|]]; simpl in H1; [done|].
  pose proof (spares_remove q f Hq (natFile q) (PM_ID m +:+ "-localhost-nat") w1 ltac:(unfold pf_files; set_solver)) as H2.
  destruct (removeRule w1 _ _) as [w2 e2]. simpl in H2. pose proof (spares_reload q f Hq w2) as H3.
  destruct (reloadRulesNoLock q w2) as [w3 e3]. simpl in *. split; [done|congruence].
Qed.

Lemma pf_RemoveAllRules_frame i : frames pf_untouched (fun p w => pf_RemoveAllRules p w i).
Proof.
  intros p w f Hf. unfold pf_RemoveAllRules. set (q := set_proxy p _). assert (pf_untouched q f) as Hq by done.
  assert (spares f (fun w => and_then (removeInstanceRules w (natFile q) i) (fun w =>
    and_then (removeInstanceRules w (rdrFile q) i) (fun w => and_then (removeInstanceRules w (filterFile q) i) (reloadRulesNoLock q))))) as Hs.
  { repeat (apply spares_then; [apply (spares_rewrite q); [done|unfold pf_files; set_solver]|]). by apply spares_reload. }
  specialize (Hs w). cbv beta in Hs. destruct (and_then _ _) as [w1 e]. simpl in *. done.
Qed.

Lemma pf_Initialize_frame : frames pf_untouched (fun p w => keep_backend p (pf_Initialize p w)).
Proof. apply (frames_machine pf_Initialize). intros p f Hf. by apply spares_Initialize. Qed.
Lemma pf_AddNATRule_frame r : frames pf_untouched (fun p w => keep_backend p (pf_AddNATRule p w r)).
Proof. apply (frames_machine (fun p w => pf_AddNATRule p w r)). intros p f Hf. by apply spares_AddNATRule. Qed.
Lemma pf_RemoveNATRule_frame r : frames pf_untouched (fun p w => keep_backend p (pf_RemoveNATRule p w r)).
Proof. apply (frames_machine (fun p w => pf_RemoveNATRule p w r)). intros p f Hf. by apply spares_RemoveNATRule. Qed.
Lemma pf_Cleanup_frame : frames (W := W) pf_untouched (fun p w => (pf_Cleanup p, w, None)).
Proof. by intros p w f Hf. Qed.

(** PF writes its four rule files, and temporary ones. *)
Definition pf_frame : @FwFrame PFBackend W (pf_backend Listen) _ _.
Proof.
  refine (@Build_FwFrame PFBackend W (pf_backend Listen) _ _ pf_untouched _ _ _ _ _ _ _);
    unfold be_Initialize, be_AddPortMapping, be_RemovePortMapping, be_AddNATRule, be_RemoveNATRule, be_RemoveAllRules, be_Cleanup, pf_backend.
  - exact pf_Initialize_frame.
  - exact pf_AddPortMapping_frame.
  - exact pf_RemovePortMapping_frame.
  - exact pf_AddNATRule_frame.
  - exact pf_RemoveNATRule_frame.
  - exact pf_RemoveAllRules_frame.
  - exact pf_Cleanup_frame.
Defined.
End pf_frame.

(** ** The manager's files *)

Section manager.
Context {B W : Type} `{FwBackend B W} `{FileOps W} `{!FileLaws W} `{!FwFrame B W} `{Json RuleSet} `{!JsonLaws RuleSet}.
Context (dir : list path) (dir_good : Forall good_comp dir).

Let rulesDir : string := of_bytes (abs_path dir).

Definition rule_file (instance : string) : string := of_bytes (abs_path (dir ++ [bytes (instance +:+ ".json")])).

Lemma json_name_good i : ValidateInstanceName i = None -> good_comp (bytes (i +:+ ".json")).
Proof.
  intros Hi. apply instance_word in Hi as [[Hne _] Hs]. rewrite bytes_app. unfold good_comp, dot, dotdot. split_and!.
  - by destruct (bytes i).
  - intros E. apply (f_equal length) in E. rewrite length_app in E. simpl in E. lia.
  - intros E. apply (f_equal length) in E. rewrite length_app in E. simpl in E. lia.
  - rewrite elem_of_app. intros [Hin|Hin]; [done|]. by apply ascii_in_true in Hin.
Qed.

Lemma ruleFilePath_valid i : ruleFilePath rulesDir i =
  match ValidateInstanceName i with None => Ok (rule_file i) | Some e => Err (Wrapf "invalid instance name: %w" [] e) end.
Proof.
  unfold ruleFilePath. destruct (ValidateInstanceName i) as [e|] eqn:E; [done|]. f_equal. unfold path_Join, rulesDir, rule_file.
  rewrite bytes_of_bytes. f_equal. change (bytes (i +:+ ".json")) with (join_path [bytes (i +:+ ".json")]).
  apply Join_abs; [done| |done]. constructor; [by apply json_name_good|constructor].
Qed.

Lemma rule_file_inj i j : ValidateInstanceName i = None -> ValidateInstanceName j = None -> rule_file i = rule_file j -> i = j.
Proof.
  intros Hi Hj E. apply (f_equal bytes) in E. unfold rule_file in E. rewrite !bytes_of_bytes in E. apply abs_path_inj in E.
  - apply app_inv_head in E. injection E as E. rewrite !bytes_app in E. apply app_inv_tail in E. by apply (inj bytes).
  - apply Forall_app. split; [done|]. constructor; [by apply json_name_good|constructor].
  - apply Forall_app. split; [done|]. constructor; [by apply json_name_good|constructor].
Qed.

Hypothesis named : forall i, ValidateInstanceName i = None -> ~ temp_path (rule_file i).

(** The rules of an instance on file: none, or what its file reads as. *)
Definition on_file (w : W) (i : string) : option (result RuleSet) := Unmarshal <$> files w !! rule_file i.
(** The backend leaves the rule files alone. *)
Definition quiet (b : B) : Prop := forall i, ValidateInstanceName i = None -> untouched b (rule_file i).

(** From [w] to [w'], the rules on file change at most for [i], and there to [v]
    if [v] is given. *)
Definition changes (i : string) (v : option (option (result RuleSet))) (w w' : W) : Prop :=
  (forall j, ValidateInstanceName j = None -> j <> i -> on_file w' j = on_file w j) /\
  on_file w' i = match v with Some v => v | None => on_file w i end.

Lemma quiet_step (step : B -> W -> B * W * option error) b w b' w' e : frames untouched step -> quiet b -> step b w = (b', w', e) ->
  quiet b' /\ forall j, ValidateInstanceName j = None -> on_file w' j = on_file w j.
Proof.
  intros Hs Hq E. split.
  - intros j Hj. destruct (Hs b w _ (Hq j Hj)) as [Hu _]. by rewrite E in Hu.
  - intros j Hj. destruct (Hs b w _ (Hq j Hj)) as [_ Hf]. rewrite E in Hf. simpl in Hf. unfold on_file. by rewrite Hf.
Qed.

Lemma loadRuleSet_Ok w i rs : loadRuleSet rulesDir w i = Ok rs -> ValidateInstanceName i = None /\ on_file w i = Some (Ok rs).
Proof.
  unfold loadRuleSet. rewrite ruleFilePath_valid. destruct (ValidateInstanceName i); [done|].
  pose proof (read_law w (rule_file i)) as Hr. destruct (ReadFile w (rule_file i)) as [d|e]; [|done]. unfold wrap_err, on_file. rewrite Hr. simpl.
  destruct (Unmarshal d); [|done]. by intros [= ->].
Qed.

Lemma saveRuleSet_changes w i rs w' e : saveRuleSet rulesDir w i rs = (w', e) -> ValidateInstanceName i = None ->
  changes i (if e then None else Some (Some (Ok rs))) w w'.
Proof.
  unfold saveRuleSet. rewrite ruleFilePath_valid. intros E Hi. rewrite Hi in E. destruct (Marshal rs) as [d|me] eqn:Em; [|by injection E as <- <-].
  unfold wrapped in E. destruct (atomicWriteFile w (rule_file i) d 384) as [w1 e1] eqn:Ea.
  apply atomicWriteFile_spec in Ea as [Hi1 Ho]; [|by apply named]. injection E as <- <-. unfold changes, on_file. split.
  - intros j Hj Hne. rewrite Ho; [done| |by apply named]. intros Ef. by apply rule_file_inj in Ef.
  - rewrite Hi1. destruct e1; simpl; [done|]. by rewrite (json_round_trip _ _ Em).
Qed.

(** The rules an addition starts from. *)
Definition rules_before (w : W) (i : string) : RuleSet :=
  let rs := match on_file w i with Some (Ok rs) => rs | _ => empty_rules end in
  {| RuleSet_Instance := if streq (RuleSet_Instance rs) "" then i else RuleSet_Instance rs;
     RuleSet_Provider := RuleSet_Provider rs; RuleSet_PortMappings := RuleSet_PortMappings rs; RuleSet_NATRules := RuleSet_NATRules rs |}.

Lemma stored_rules_before w i rs : ValidateInstanceName i = None -> stored_rules rulesDir w i = Ok rs -> rs = rules_before w i.
Proof.
  intros Hi. unfold stored_rules, rules_before. destruct (loadRuleSet rulesDir w i) as [rs0|e] eqn:El.
  - apply loadRuleSet_Ok in El as [_ ->]. by intros [= <-].
  - destruct (errors_Is e ErrNotExist) eqn:En; [|done]. intros [= <-]. revert El. unfold loadRuleSet. rewrite ruleFilePath_valid, Hi. unfold on_file.
    pose proof (read_law w (rule_file i)) as Hr. destruct (ReadFile w (rule_file i)) as [d|e0].
    + rewrite Hr. simpl. by destruct (Unmarshal d).
    + intros [= ->]. by rewrite (Hr En).
Qed.

Definition with_mapping (m : PortMapping) (rs : RuleSet) : RuleSet :=
  with_mappings rs (replace_or_add (same_port (PM_HostPort m) (PM_Protocol m)) m (RuleSet_PortMappings rs)).
Definition with_nat_rule (r : NATRule) (rs : RuleSet) : RuleSet :=
  with_nat rs (replace_or_add (fun x => streq (NR_ID x) (NR_ID r)) r (RuleSet_NATRules rs)).
Definition without_port (hostPort : Z) (protocol : string) (rs : RuleSet) : RuleSet :=
  with_mappings rs (List.filter (fun m => negb (same_port hostPort protocol m)) (RuleSet_PortMappings rs)).

Lemma persistMapping_changes w i m w' e : ValidateInstanceName i = None -> persistMapping rulesDir w i m = (w', e) ->
  changes i (if e then None else Some (Some (Ok (with_mapping m (rules_before w i))))) w w'.
Proof.
  intros Hi. unfold persistMapping. destruct (stored_rules rulesDir w i) as [rs|e0] eqn:Es; [|by intros [= <- <-]].
  apply stored_rules_before in Es as ->; [|done]. intros E. by apply saveRuleSet_changes in E.
Qed.
Lemma persistNATRule_changes w i r w' e : ValidateInstanceName i = None -> persistNATRule rulesDir w i r = (w', e) ->
  changes i (if e then None else Some (Some (Ok (with_nat_rule r (rules_before w i))))) w w'.
Proof.
  intros Hi. unfold persistNATRule. destruct (stored_rules rulesDir w i) as [rs|e0] eqn:Es; [|by intros [= <- <-]].
  apply stored_rules_before in Es as ->; [|done]. intros E. by apply saveRuleSet_changes in E.
Qed.

(** ** The operations *)

Lemma changes_before i v w w1 w2 : ValidateInstanceName i = None -> (forall j, ValidateInstanceName j = None -> on_file w1 j = on_file w j) ->
  changes i v w1 w2 -> changes i v w w2.
Proof.
  intros Hi Hf [Ha Hb]. split; [intros j Hj Hne; by rewrite Ha, Hf|]. destruct v; [done|]. by rewrite Hb, Hf.
Qed.
Lemma changes_after i v w w1 w2 : ValidateInstanceName i = None -> (forall j, ValidateInstanceName j = None -> on_file w2 j = on_file w1 j) ->
  changes i v w w1 -> changes i v w w2.
Proof. intros Hi Hf [Ha Hb]. split; [intros j Hj Hne; by rewrite Hf, Ha|]. by rewrite Hf. Qed.
Lemma changes_none i w w' : (forall j, ValidateInstanceName j = None -> on_file w' j = on_file w j) -> ValidateInstanceName i = None -> changes i None w w'.
Proof. intros Hf Hi. split; [by intros j Hj _; apply Hf|]. by apply Hf. Qed.
Lemma rules_before_same w w' i : on_file w' i = on_file w i -> rules_before w' i = rules_before w i.
Proof. intros E. unfold rules_before. by rewrite E. Qed.

Lemma ExposePort_changes b w i prov proto hp tp ip b' w' r : quiet b -> ExposePort rulesDir b w i prov proto hp tp ip = (b', w', r) ->
  quiet b' /\ changes i (match r with Ok m => Some (Some (Ok (with_mapping m (rules_before w i)))) | Err _ => None end) w w' /\
  (forall m, r = Ok m -> m = new_mapping i prov proto hp tp ip /\ PortMapping_Validate m = None).
Proof.
  intros Hq. unfold ExposePort. set (m := new_mapping _ _ _ _ _ _). destruct (PortMapping_Validate m) as [e|] eqn:Ev.
  { intros [= <- <- <-]. by split_and!. }
  pose proof (PortMapping_Validate_None m Ev) as (Hi & _). change (PM_Instance m) with i in Hi.
  destruct (be_AddPortMapping b w m) as [[b1 w1] [e|]] eqn:Ea;
    destruct (quiet_step (fun b w => be_AddPortMapping b w m) _ _ _ _ _ (add_mapping_frame m) Hq Ea) as [Hq1 Hf1].
  { intros [= <- <- <-]. split_and!; [done|by apply changes_none|done]. }
  destruct (persistMapping rulesDir w1 i m) as [w2 [e|]] eqn:Ep; apply persistMapping_changes in Ep; try done;
    apply (changes_before _ _ w) in Ep; try done.
  - destruct (be_RemovePortMapping b1 w2 m) as [[b3 w3] [e3|]] eqn:Er;
      destruct (quiet_step (fun b w => be_RemovePortMapping b w m) _ _ _ _ _ (remove_mapping_frame m) Hq1 Er) as [Hq3 Hf3];
      intros [= <- <- <-]; split_and!; try done; by apply (changes_after _ _ _ w2).
  - intros [= <- <- <-]. rewrite (rules_before_same _ _ _ (Hf1 i Hi)) in Ep. split_and!; [done|done|]. by intros m' [= <-].
Qed.

Lemma SetupNAT_changes b w i prov net out b' w' r : quiet b -> SetupNAT rulesDir b w i prov net out = (b', w', r) ->
  quiet b' /\ changes i (match r with Ok x => Some (Some (Ok (with_nat_rule x (rules_before w i)))) | Err _ => None end) w w' /\
  (forall x, r = Ok x -> NATRule_Validate x = None /\ NR_Instance x = i /\ NR_ID x = natRuleID i (NR_SourceNetwork x)).
Proof.
  intros Hq. unfold SetupNAT. set (x := Build_NATRule _ _ _ _ _ _). destruct (NATRule_Validate x) as [e|] eqn:Ev.
  { intros [= <- <- <-]. by split_and!. }
  pose proof (NATRule_Validate_None x Ev) as (Hi & _). change (NR_Instance x) with i in Hi.
  destruct (be_AddNATRule b w x) as [[b1 w1] [e|]] eqn:Ea;
    destruct (quiet_step (fun b w => be_AddNATRule b w x) _ _ _ _ _ (add_nat_frame x) Hq Ea) as [Hq1 Hf1].
  { intros [= <- <- <-]. split_and!; [done|by apply changes_none|done]. }
  destruct (persistNATRule rulesDir w1 i x) as [w2 [e|]] eqn:Ep; apply persistNATRule_changes in Ep; try done;
    apply (changes_before _ _ w) in Ep; try done.
  - destruct (be_RemoveNATRule b1 w2 x) as [[b3 w3] [e3|]] eqn:Er;
      destruct (quiet_step (fun b w => be_RemoveNATRule b w x) _ _ _ _ _ (remove_nat_frame x) Hq1 Er) as [Hq3 Hf3];
      intros [= <- <- <-]; split_and!; try done; by apply (changes_after _ _ _ w2).
  - intros [= <- <- <-]. rewrite (rules_before_same _ _ _ (Hf1 i Hi)) in Ep. split_and!; [done|done|]. by intros m' [= <-].
Qed.

Lemma UnexposePort_changes b w i hp proto b' w' e : quiet b -> UnexposePort rulesDir b w i hp proto = (b', w', e) ->
  quiet b' /\ match e with
              | Some _ => changes i None w w'
              | None => exists rs, ValidateInstanceName i = None /\ on_file w i = Some (Ok rs) /\
                  changes i (Some (Some (Ok (without_port hp proto rs)))) w w'
              end.
Proof.
  intros Hq. unfold UnexposePort. destruct (loadRuleSet rulesDir w i) as [rs|e0] eqn:El; [|by intros [= <- <- <-]].
  apply loadRuleSet_Ok in El as [Hi Hrs]. destruct (last _) as [m|] eqn:Em; [|by intros [= <- <- <-]].
  destruct (be_RemovePortMapping b w m) as [[b1 w1] [e1|]] eqn:Er;
    destruct (quiet_step (fun b w => be_RemovePortMapping b w m) _ _ _ _ _ (remove_mapping_frame m) Hq Er) as [Hq1 Hf1].
  { intros [= <- <- <-]. split; [done|by apply changes_none]. }
  destruct (saveRuleSet rulesDir w1 i _) as [w2 e2] eqn:Es. intros [= <- <- <-]. split; [done|].
  apply saveRuleSet_changes in Es; [|done]. apply (changes_before _ _ w) in Es; [|done..]. destruct e2; [done|]. by exists rs.
Qed.

Lemma RemoveNAT_changes b w i b' w' e : quiet b -> RemoveNAT rulesDir b w i = (b', w', e) ->
  quiet b' /\ (changes i None w w' \/
    e = None /\ exists rs, ValidateInstanceName i = None /\ on_file w i = Some (Ok rs) /\ changes i (Some (Some (Ok (with_nat rs [])))) w w').
Proof.
  intros Hq. unfold RemoveNAT. destruct (loadRuleSet rulesDir w i) as [rs|e0] eqn:El; [|intros [= <- <- <-]; split; [done|by left]].
  apply loadRuleSet_Ok in El as [Hi Hrs].
  set (step := for_all_steps _ _). assert (frames untouched step) as Hs.
  { apply frames_all. intros x. apply frames_wrap, remove_nat_frame. }
  destruct (step b w) as [[b1 w1] e1] eqn:Er. destruct (quiet_step _ _ _ _ _ _ Hs Hq Er) as [Hq1 Hf1].
  destruct e1 as [e1|]; simpl; [intros [= <- <- <-]; split; [done|left; by apply changes_none]|].
  destruct (saveRuleSet rulesDir w1 i _) as [w2 e2] eqn:Es. intros [= <- <- <-]. split; [done|].
  apply saveRuleSet_changes in Es; [|done]. apply (changes_before _ _ w) in Es; [|done..]. destruct e2; [by left|]. right. eauto.
Qed.

Lemma RemoveAllRules_changes b w i b' w' e : quiet b -> ValidateInstanceName i = None -> fm_RemoveAllRules rulesDir b w i = (b', w', e) ->
  quiet b' /\ changes i (if e then None else Some None) w w'.
Proof.
  intros Hq Hi. unfold fm_RemoveAllRules. destruct (be_RemoveAllRules b w i) as [[b1 w1] e1] eqn:Er.
  destruct (quiet_step (fun b w => be_RemoveAllRules b w i) _ _ _ _ _ (remove_all_frame i) Hq Er) as [Hq1 Hf1].
  destruct e1 as [e1|]; simpl; [intros [= <- <- <-]; split; [done|by apply changes_none]|].
  rewrite ruleFilePath_valid, Hi. pose proof (remove_law w1 (rule_file i)) as Hr. destruct (RemoveFile w1 (rule_file i)) as [w2 [e2|]].
  - destruct Hr as [Hsame Hne].
    assert (forall j, on_file w2 j = on_file w1 j) as Hf2 by (intros j; unfold on_file; by rewrite Hsame).
    destruct (errors_Is e2 ErrNotExist) eqn:En; intros [= <- <- <-]; split; try done.
    + split; [intros j Hj _; by rewrite Hf2, Hf1|]. unfold on_file. by rewrite Hsame, Hne.
    + apply changes_none; [intros j Hj; by rewrite Hf2, Hf1|done].
  - intros [= <- <- <-]. split; [done|]. split.
    + intros j Hj Hne. rewrite <- (Hf1 j Hj). unfold on_file. rewrite Hr, lookup_delete_ne; [done|]. intros E. by apply rule_file_inj in E.
    + unfold on_file. by rewrite Hr, lookup_delete_eq.
Qed.

(** ** Every stored rule *)

Definition port_key (m : PortMapping) : Z * string := (PM_HostPort m, PM_Protocol m).
Definition mapping_ok (i : string) (m : PortMapping) : Prop :=
  PM_Instance m = i /\ PortMapping_Validate m = None /\ PM_ID m = GenerateID m.
Definition nat_ok (i : string) (r : NATRule) : Prop :=
  NR_Instance r = i /\ NATRule_Validate r = None /\ NR_ID r = natRuleID i (NR_SourceNetwork r).
Definition rules_ok (i : string) (rs : RuleSet) : Prop :=
  RuleSet_Instance rs = i /\
  Forall (mapping_ok i) (RuleSet_PortMappings rs) /\ NoDup (map port_key (RuleSet_PortMappings rs)) /\
  Forall (nat_ok i) (RuleSet_NATRules rs) /\ NoDup (map NR_ID (RuleSet_NATRules rs)).

Lemma replace_or_add_Forall {A} (P : A -> Prop) same x l : P x -> Forall P l -> Forall P (replace_or_add same x l).
Proof.
  intros Hx. induction 1 as [|y l Hy Hl IH]; simpl; [by constructor|]. destruct (same y); by constructor.
Qed.
Lemma replace_or_add_keys {A K} (key : A -> K) same x l : (forall y, same y = true <-> key y = key x) ->
  NoDup (map key l) -> NoDup (map key (replace_or_add same x l)) /\ forall k, k ∈ map key (replace_or_add same x l) -> k = key x \/ k ∈ map key l.
Proof.
  intros Hs. induction l as [|y l IH]; simpl; [split; [by apply NoDup_singleton|set_solver]|].
  rewrite NoDup_cons. intros [Hy Hl]. destruct (IH Hl) as [IH1 IH2]. destruct (same y) eqn:E.
  - apply Hs in E. simpl. rewrite <- E. split; [by apply NoDup_cons|set_solver].
  - assert (key y <> key x) by (rewrite <- Hs; congruence). simpl. split; [|set_solver].
    apply NoDup_cons. split; [|done]. intros [|]%IH2; congruence.
Qed.

Lemma same_port_key m y : same_port (PM_HostPort m) (PM_Protocol m) y = true <-> port_key y = port_key m.
Proof.
  unfold same_port, port_key. rewrite andb_true_iff, Z.eqb_eq, streq_true. split; [by intros [-> ->]|by intros [= -> ->]].
Qed.

Lemma rules_before_ok w i : (forall rs, on_file w i = Some (Ok rs) -> rules_ok i rs) -> rules_ok i (rules_before w i).
Proof.
  intros Hw. unfold rules_before, rules_ok. destruct (on_file w i) as [[rs|e]|]; simpl; try (split_and!; try done; constructor).
  destruct (Hw rs eq_refl) as (E & ? & ? & ? & ?). split_and!; try done. by destruct (streq _ _).
Qed.
Lemma with_mapping_ok i m rs : mapping_ok i m -> rules_ok i rs -> rules_ok i (with_mapping m rs).
Proof.
  intros Hm (E & Hp & Hk & Hn & Hd). unfold rules_ok. simpl. split_and!; try done; [by apply replace_or_add_Forall|].
  apply replace_or_add_keys; [apply same_port_key|done].
Qed.
Lemma with_nat_rule_ok i r rs : nat_ok i r -> rules_ok i rs -> rules_ok i (with_nat_rule r rs).
Proof.
  intros Hm (E & Hp & Hk & Hn & Hd). unfold rules_ok. simpl. split_and!; try done; [by apply replace_or_add_Forall|].
  apply replace_or_add_keys; [intros y; apply streq_true|done].
Qed.
Lemma filter_keys {A K} (key : A -> K) (f : A -> bool) l : NoDup (map key l) -> NoDup (map key (List.filter f l)).
Proof.
  induction l as [|x l IH]; simpl; [done|]. rewrite NoDup_cons. intros [Hx Hl]. destruct (f x); [|by apply IH].
  simpl. apply NoDup_cons. split; [|by apply IH]. intros Hin. apply Hx. apply list_elem_of_fmap in Hin as (y & -> & Hy).
  apply list_elem_of_In, filter_In in Hy as [Hy _]. apply list_elem_of_fmap. exists y. split; [done|by apply list_elem_of_In].
Qed.
Lemma without_port_ok i hp proto rs : rules_ok i rs -> rules_ok i (without_port hp proto rs).
Proof.
  intros (E & Hp & Hk & Hn & Hd). unfold rules_ok. simpl. split_and!; try done; [|by apply filter_keys].
  rewrite Forall_forall in Hp |- *. intros m Hin. apply list_elem_of_In, filter_In in Hin as [Hin _]. by apply Hp, list_elem_of_In.
Qed.

Lemma changes_ok i v w w' : changes i v w w' -> (forall rs, v = Some (Some (Ok rs)) -> rules_ok i rs) ->
  (forall j rs, ValidateInstanceName j = None -> on_file w j = Some (Ok rs) -> rules_ok j rs) ->
  (forall j rs, ValidateInstanceName j = None -> on_file w' j = Some (Ok rs) -> rules_ok j rs).
Proof.
  intros [Hc Hi] Hv Hw j rs Hj Hrs. destruct (decide (j = i)) as [->|Hne]; [|rewrite Hc in Hrs by done; by apply Hw].
  rewrite Hi in Hrs. destruct v as [v|]; [|by apply Hw]. apply Hv. congruence.
Qed.

(** ** Start-up *)

Lemma ApplyRules_frame rs : frames untouched (fun b w => ApplyRules b w rs).
Proof.
  apply (frames_then untouched (fun b w => be_RemoveAllRules b w _)); [apply remove_all_frame|].
  apply (frames_then untouched (for_all_steps _ _)); apply frames_all; intros x; apply frames_wrap;
    [apply add_nat_frame|apply add_mapping_frame].
Qed.

Lemma restore_all_frame l : frames untouched (fun b w => (restore_all rulesDir l b w, None)).
Proof.
  induction l as [|i l IH]; [by intros b w x Hx|]. intros b w x Hx. simpl. destruct (loadRuleSet rulesDir w i) as [rs|e]; [|by apply IH].
  destruct (ApplyRules_frame rs b w x Hx) as [Hu Hf]. destruct (ApplyRules b w rs) as [[b1 w1] e1]. simpl in Hu, Hf.
  destruct (IH b1 w1 x Hu) as [Hu2 Hf2]. simpl in Hu2, Hf2. split; [done|]. by rewrite Hf2.
Qed.
Lemma restoreRules_frame : frames untouched (restoreRules rulesDir).
Proof.
  intros b w x Hx. unfold restoreRules. destruct (ReadDir w rulesDir) as [l|e]; [|by destruct (errors_Is _ _)].
  destruct (restore_all_frame (json_instances l) b w x Hx) as [Hu Hf]. by destruct (restore_all _ _ _ _) as [b1 w1].
Qed.

(** One request, or a start. *)
Inductive fstep : B * W -> B * W -> Prop :=
  | f_expose b w i prov proto hp tp ip b' w' r : ExposePort rulesDir b w i prov proto hp tp ip = (b', w', r) -> fstep (b, w) (b', w')
  | f_unexpose b w i hp proto b' w' e : UnexposePort rulesDir b w i hp proto = (b', w', e) -> fstep (b, w) (b', w')
  | f_setup b w i prov net out b' w' r : SetupNAT rulesDir b w i prov net out = (b', w', r) -> fstep (b, w) (b', w')
  | f_nat b w i b' w' e : RemoveNAT rulesDir b w i = (b', w', e) -> fstep (b, w) (b', w')
  | f_all b w i b' w' e : ValidateInstanceName i = None -> fm_RemoveAllRules rulesDir b w i = (b', w', e) -> fstep (b, w) (b', w')
  | f_restore b w b' w' e : restoreRules rulesDir b w = (b', w', e) -> fstep (b, w) (b', w').

Definition rules_inv (s : B * W) : Prop :=
  quiet s.1 /\ forall i rs, ValidateInstanceName i = None -> on_file s.2 i = Some (Ok rs) -> rules_ok i rs.

Lemma fstep_inv s s' : fstep s s' -> rules_inv s -> rules_inv s'.
Proof.
  intros Hs [Hq Hw]. destruct Hs as [b w i prov proto hp tp ip b' w' r E|b w i hp proto b' w' e E|b w i prov net out b' w' r E
    |b w i b' w' e E|b w i b' w' e Hi E|b w b' w' e E]; simpl in *.
  - apply ExposePort_changes in E as (Hq' & Hc & Hm); [|done]. split; [done|]. apply (changes_ok _ _ _ _ Hc); [|done].
    destruct r as [m|]; [|done]. intros rs [= <-]. destruct (Hm m eq_refl) as [-> Hv].
    destruct (PortMapping_Validate_None _ Hv) as [Hi _]. apply with_mapping_ok; [done|].
    apply rules_before_ok. intros rs Hrs. by apply Hw.
  - apply UnexposePort_changes in E as (Hq' & Hc); [|done]. split; [done|]. destruct e as [e|]; [by apply (changes_ok _ _ _ _ Hc)|].
    destruct Hc as (rs & Hi & Hrs & Hc). apply (changes_ok _ _ _ _ Hc); [|done]. intros rs' [= <-]. apply without_port_ok. by apply Hw.
  - apply SetupNAT_changes in E as (Hq' & Hc & Hm); [|done]. split; [done|]. apply (changes_ok _ _ _ _ Hc); [|done].
    destruct r as [x|]; [|done]. intros rs [= <-]. destruct (Hm x eq_refl) as (Hv & Hx & Hid).
    destruct (NATRule_Validate_None _ Hv) as [Hi _]. rewrite Hx in Hi. apply with_nat_rule_ok; [done|].
    apply rules_before_ok. intros rs Hrs. by apply Hw.
  - apply RemoveNAT_changes in E as (Hq' & Hc); [|done]. split; [done|].
    destruct Hc as [Hc|(-> & rs & Hi & Hrs & Hc)]; [by apply (changes_ok _ _ _ _ Hc)|].
    apply (changes_ok _ _ _ _ Hc); [|done]. intros rs' [= <-]. destruct (Hw _ _ Hi Hrs) as (? & ? & ? & _).
    unfold rules_ok. simpl. split_and!; try done; constructor.
  - apply RemoveAllRules_changes in E as (Hq' & Hc); [|done|done]. split; [done|]. apply (changes_ok _ _ _ _ Hc); [|done]. by destruct e.
  - destruct (quiet_step _ _ _ _ _ _ restoreRules_frame Hq E) as [Hq' Hf]. split; [done|]. simpl. intros i rs Hi. rewrite Hf by done. by apply Hw.
Qed.
End manager.

(** ** Properties *)

Section properties.
Context {B W : Type} `{FwBackend B W} `{FileOps W} `{!FileLaws W} `{!FwFrame B W} `{Json RuleSet} `{!JsonLaws RuleSet}.

(** C9: the rule files follow the requests.  Against any backend that leaves them
    alone, every request touches the rules of its own instance only; one that is
    refused or fails, at any step and whether or not its rollback succeeds, leaves
    them as they were; an accepted one replaces or adds its mapping or NAT rule,
    takes the port out, or removes the file. *)
Theorem rule_files_follow_requests (dir : list path) (b : B) (w : W) (i : string) (b' : B) (w' : W) :
  Forall good_comp dir -> (forall j, ValidateInstanceName j = None -> ~ temp_path (rule_file dir j)) -> quiet dir b ->
  let rulesDir := of_bytes (abs_path dir) in
  (forall prov proto hp tp ip r, ExposePort rulesDir b w i prov proto hp tp ip = (b', w', r) ->
     changes dir i (match r with Ok m => Some (Some (Ok (with_mapping m (rules_before dir w i)))) | Err _ => None end) w w') /\
  (forall prov net out r, SetupNAT rulesDir b w i prov net out = (b', w', r) ->
     changes dir i (match r with Ok x => Some (Some (Ok (with_nat_rule x (rules_before dir w i)))) | Err _ => None end) w w') /\
  (forall hp proto e, UnexposePort rulesDir b w i hp proto = (b', w', e) ->
     match e with
     | Some _ => changes dir i None w w'
     | None => exists rs, on_file dir w i = Some (Ok rs) /\ changes dir i (Some (Some (Ok (without_port hp proto rs)))) w w'
     end) /\
  (forall e, ValidateInstanceName i = None -> fm_RemoveAllRules rulesDir b w i = (b', w', e) -> changes dir i (if e then None else Some None) w w').
Proof.
  intros Hd Hn Hq rulesDir. split_and!.
  - intros prov proto hp tp ip r E. by eapply ExposePort_changes in E as (_ & Hc & _).
  - intros prov net out r E. by eapply SetupNAT_changes in E as (_ & Hc & _).
  - intros hp proto e E. eapply UnexposePort_changes in E as (_ & Hc); [|done..]. destruct e; [done|]. destruct Hc as (rs & _ & ? & ?). by exists rs.
  - intros e Hi E. by eapply RemoveAllRules_changes in E as (_ & Hc).
Qed.

(** Every stored rule is one the manager accepted.  After any requests and
    restarts from an empty directory, whatever rule set is loaded for an instance
    is that instance's: its mappings and NAT rules pass validation and carry the
    identifiers generated for them, no two mappings share a host port and
    protocol, and no two NAT rules an identifier. *)
Theorem stored_rules_stay_valid (dir : list path) (b0 b : B) (w0 w : W) :
  Forall good_comp dir -> (forall j, ValidateInstanceName j = None -> ~ temp_path (rule_file dir j)) -> quiet dir b0 ->
  (forall i, ValidateInstanceName i = None -> on_file dir w0 i = None) ->
  rtc (fstep dir) (b0, w0) (b, w) ->
  forall i rs, loadRuleSet (of_bytes (abs_path dir)) w i = Ok rs -> rules_ok i rs.
Proof.
  intros Hd Hn Hq Hempty Hr i rs Hl. assert (rules_inv dir (b, w)) as [_ Hw].
  { assert (rules_inv dir (b0, w0)) as Hi by (split; [done|]; intros j rj Hj Hf; simpl in Hf; by rewrite Hempty in Hf).
    clear -Hr Hi Hd Hn JsonLaws0. revert Hi. induction Hr as [|x y z Hxy _ IH]; [done|]. intros Hx. apply IH. by eapply fstep_inv. }
  apply loadRuleSet_Ok in Hl as [Hi Hf]; [|done]. by apply Hw.
Qed.
End properties.
