(* ===== verification/FirewallRuns.v ===== *)
(** * The firewall on a sample machine

    A machine that is its files and a list of what its next commands report, with
    the laws of files; the properties of [PfFacts] and [FwManagerFacts] on it, and
    runs of the PF backend in which a rule is lost or left behind. *)

From stdpp Require Import base list gmap strings sets relations.
From Stdlib Require Import Ascii ZArith Lia.
From S2P Require Import Prelude GoStrings GoText GoWords GoNet Host GoHttp Files GoPath Validation ValidationFacts InstanceStore FwRules Pf PfFacts FwManager FwManagerFacts.

Local Open Scope Z_scope.

Record box := { bx_files : gmap string string; bx_exits : list (option error) }.

Definition put_files (w : box) (m : gmap string string) : box := {| bx_files := m; bx_exits := bx_exits w |}.
Definition no_such_file : error := Sentinel ErrNotExist.
Definition box_temp (d : string) : string := d +:+ "/.pf-tmp-0".

#[export] Instance box_files_ops : FileOps box := {
  ReadFile w f := match bx_files w !! f with Some c => Ok c | None => Err no_such_file end;
  WriteFile w f s := (put_files w (<[f := s]> (bx_files w)), None);
  OpenAppend w f := (put_files w (<[f := default "" (bx_files w !! f)]> (bx_files w)), None);
  WriteString w f s := (put_files w (<[f := default "" (bx_files w !! f) +:+ s]> (bx_files w)), None);
  CreateTemp w d p :=
    match bx_files w !! box_temp d with
    | Some _ => (w, Err (Sentinel "fs.ErrExist"))
    | None => (put_files w (<[box_temp d := ""]> (bx_files w)), Ok (box_temp d))
    end;
  Chmod w f p := (w, None);
  Sync w f := (w, None);
  CloseFile w f := (w, None);
  Rename w a b := match bx_files w !! a with
                  | Some c => (put_files w (<[b := c]> (delete a (bx_files w))), None)
                  | None => (w, Some no_such_file)
                  end;
  RemoveFile w f := match bx_files w !! f with
                    | Some _ => (put_files w (delete f (bx_files w)), None)
                    | None => (w, Some no_such_file)
                    end;
  MakeDirs w d := (w, None);
  ReadDir w d := Ok []
}.

#[export] Program Instance box_file_laws : FileLaws box := {|
  files := bx_files;
  temp_path t := exists d, t = box_temp d
|}.
Next Obligation. intros w f. simpl. by destruct (bx_files w !! f). Qed.
Next Obligation. done. Qed.
Next Obligation. intros w d p. simpl. destruct (bx_files w !! box_temp d) eqn:E; simpl; [done|]. split_and!; [by eexists|done..]. Qed.
Next Obligation. done. Qed.
Next Obligation. done. Qed.
Next Obligation. done. Qed.
Next Obligation. intros w a b. simpl. destruct (bx_files w !! a) eqn:E; simpl; [by eexists|done]. Qed.
Next Obligation. intros w f. simpl. destruct (bx_files w !! f) eqn:E; simpl; [done|]. split; [done|by intros]. Qed.

(** Every command prints the default route. *)
#[export] Instance box_host : Host box := {
  exec w c := ({| bx_files := bx_files w; bx_exits := tail (bx_exits w) |},
               {| ex_stdout := "interface: em0"; ex_stderr := ""; ex_combined := ""; ex_err := default None (head (bx_exits w)) |});
  pipeline w a b := (w, NoPipe (Sentinel "no pipes"));
  LookPath w p := None;
  Stat w f := match bx_files w !! f with
              | Some _ => Ok {| fi_size := 0; fi_isdir := false; fi_regular := true; fi_perm := 384; fi_uid := None |}
              | None => Err no_such_file
              end;
  Lstat w f := Err no_such_file;
  EvalSymlinks w f := Ok f;
  MkdirAll w f := (w, None);
  CreateExcl w f := (w, None);
  Close w f := (w, None);
  OpenRead w f := None;
  Remove w f := (w, None);
  Geteuid w := 0
}.

(** ** Runs *)

Definition free_ports (w : box) (addr : string) : option error := None.
Definition fresh_box : box := {| bx_files := ∅; bx_exits := [] |}.
Definition pf0 : PFBackend := NewPFBackendWithDir "/pf".
Definition started : box := (pf_Initialize pf0 fresh_box).1.

Definition mapping (instance : string) (port : Z) : PortMapping :=
  let m id := {| PM_ID := id; PM_Instance := instance; PM_Provider := "jail"; PM_Protocol := "tcp"; PM_HostPort := port;
                 PM_TargetIP := "10.0.0.2"; PM_TargetPort := 80; PM_HostInterface := "em0"; PM_Description := ""; PM_Active := true |} in
  m (GenerateID (m "")).

Inductive fw_op := AddM (m : PortMapping) | RemoveM (m : PortMapping).
Definition do_op (s : PFBackend * box * list (option error)) (o : fw_op) : PFBackend * box * list (option error) :=
  let '(p, w, errs) := s in
  let '(p, w, err) := match o with AddM m => pf_AddPortMapping free_ports p w m | RemoveM m => pf_RemovePortMapping p w m end in
  (p, w, errs ++ [err]).
Definition do_ops (w : box) (l : list fw_op) : PFBackend * box * list (option error) := foldl do_op (pf0, w, []) l.
Definition listed (s : PFBackend * box * list (option error)) : result (list string) :=
  let '(p, w, _) := s in match pf_ListRules p w with Ok l => Ok (map PM_ID l) | Err e => Err e end.

Definition web := mapping "web" 8001.
Definition db := mapping "db" 8002.
Definition api := mapping "api" 8003.


(** An addition whose rules could not be loaded leaves its block in the file
    and stops its proxy; the next request for the same mapping finds the port
    taken by that very mapping and reports success, with nothing loaded and no
    proxy. *)
Theorem retry_reports_success_unloaded :
  let w := {| bx_files := bx_files started; bx_exits := [Some (Errorf "pfctl: busy" [])] |} in
  let s := do_ops w [AddM web; AddM web] in
  (exists e, s.2 = [Some e; None]) /\ pf_proxy s.1.1 = ∅ /\ (do_ops w [AddM web]).1.2 = s.1.2 /\ listed s = Ok [PM_ID web].
Proof. split_and!; [eexists; vm_compute; reflexivity|vm_compute; reflexivity..]. Qed.

(** ** The properties on samples *)

Lemma mapping_ids_identify_witness :
  PortMapping_Validate web = None /\ PM_HostPort web = PM_HostPort (mapping "web" 8001).
Proof.
  split; [vm_compute; reflexivity|].
  pose proof (mapping_ids_identify web (mapping "web" 8001) ltac:(vm_compute; reflexivity) ltac:(vm_compute; reflexivity) eq_refl)
    as (_ & _ & _ & Hp & _). exact Hp.
Defined.

Definition comments : list string := ["# Hospitus redirect rules"].

Lemma comments_ok : Forall (fun c => comment_line c /\ HasPrefix c "rdr " = false) comments.
Proof. repeat constructor; try (vm_compute; reflexivity). by intros Hin; apply ascii_in_true in Hin. Qed.

Lemma samples_ok : Forall (fun p => validateIfaceName p.1 = None /\ PortMapping_Validate p.2 = None /\ PM_ID p.2 = GenerateID p.2) [("em0", web); ("em0", db)].
Proof. repeat (constructor; [split_and!; vm_compute; reflexivity|]). constructor. Qed.

Lemma written_mappings_are_listed_witness :
  listed_mappings "" "" (Lines (file_text comments (map mapping_block [("em0", web); ("em0", db)]) true)) =
  [activate (read_back web (PM_ID web) "web"); activate (read_back db (PM_ID db) "db")].
Proof. exact (proj2 (written_mappings_are_listed comments [("em0", web); ("em0", db)] comments_ok samples_ok)). Defined.

Lemma sample_blocks_ok : Forall comment_line comments /\ Forall wf_block (map mapping_block [("em0", web); ("em0", db)]).
Proof.
  split; [eapply Forall_impl; [exact comments_ok|]; by intros c [? _]|].
  apply Forall_map. eapply Forall_impl; [exact samples_ok|]. intros [i m] (Hi & Hm & Hid). unfold wf_block. simpl in *. split_and!; [| | |done].
  - rewrite Hid. by apply GenerateID_word.
  - apply PortMapping_Validate_None in Hm as [Hn _]. by apply instance_word in Hn as [? _].
  - constructor; [by apply rdr_rule_line|constructor].
Qed.

Lemma rule_file_refines_blocks_witness :
  rule_in_text (file_text comments (map mapping_block [("em0", web); ("em0", db)]) true) (PM_ID db) = true.
Proof.
  destruct sample_blocks_ok as [Hc Hb]. destruct (rule_file_refines_blocks _ _ Hc Hb) as (_ & Hr & _).
  rewrite Hr; [vm_compute; reflexivity|]. apply (GenerateID_word db). vm_compute. reflexivity.
Defined.

(** ** The manager on the sample machine *)

#[export] Instance RuleSet_eq_dec : EqDecision RuleSet.
Proof. solve_decision. Defined.

Definition web_mapping : PortMapping := new_mapping "web" "jail" "tcp" 8001 80 "10.0.0.2".
Definition web_rules : RuleSet :=
  {| RuleSet_Instance := "web"; RuleSet_Provider := ""; RuleSet_PortMappings := [web_mapping]; RuleSet_NATRules := [] |}.

(** A codec that knows one rule set. *)
#[export] Instance box_json : Json RuleSet := {
  Marshal rs := if decide (rs = web_rules) then Ok "{web}" else Err (Errorf "unknown rule set" []);
  Unmarshal s := if streq s "{web}" then Ok web_rules else Err (Errorf "not JSON" [])
}.
#[export] Instance box_json_laws : JsonLaws RuleSet.
Proof. constructor. intros rs s. simpl. destruct (decide (rs = web_rules)) as [->|]; [|done]. by intros [= <-]. Qed.

#[local] Instance box_pf : FwBackend PFBackend box := pf_backend free_ports.

Lemma box_exec_frame w c : files (W := box) (exec w c).1 = files w.
Proof. done. Qed.
Lemma box_append_frame w f g : g <> f -> files (W := box) (OpenAppend w f).1 !! g = files w !! g.
Proof. intros Hne. simpl. by rewrite lookup_insert_ne. Qed.
Lemma box_write_frame w f s g : g <> f -> files (W := box) (WriteFile w f s).1 !! g = files w !! g.
Proof. intros Hne. simpl. by rewrite lookup_insert_ne. Qed.
Lemma box_dirs_frame w d : files (W := box) (MakeDirs w d).1 = files w.
Proof. done. Qed.
#[local] Instance box_frame : FwFrame PFBackend box := pf_frame free_ports box_exec_frame box_append_frame box_write_frame box_dirs_frame.

Definition rules_dir : list path := [bytes "rules"].

Lemma rules_dir_good : Forall good_comp rules_dir.
Proof. constructor; [|constructor]. unfold good_comp. split_and!; try done. by intros Hin; apply ascii_in_true in Hin. Qed.

(** A temporary file ends in a digit. *)
Lemma not_temp f c : last (bytes f) = Some c -> c <> "0"%char -> ~ temp_path (W := box) f.
Proof.
  intros Hl Hc [d ->]. unfold box_temp in Hl. rewrite bytes_app, last_app in Hl. simpl in Hl. congruence.
Qed.
Lemma rule_file_end i : last (bytes (rule_file rules_dir i)) = Some "n"%char.
Proof.
  unfold rule_file, rules_dir. rewrite bytes_of_bytes. unfold abs_path. cbn [app join_path].
  rewrite bytes_app. change (slash :: bytes "rules" ++ slash :: bytes i ++ bytes ".json") with
    (bytes "/rules" ++ (slash :: bytes i ++ bytes ".json")). rewrite last_app.
  change (slash :: bytes i ++ bytes ".json") with ((slash :: bytes i) ++ bytes ".json"). by rewrite last_app.
Qed.
Lemma rule_files_named j : ValidateInstanceName j = None -> ~ temp_path (W := box) (rule_file rules_dir j).
Proof. intros _. by apply (not_temp _ "n"%char); [apply rule_file_end|]. Qed.

Lemma pf0_quiet : quiet (W := box) rules_dir pf0.
Proof.
  intros i Hi. split_and!.
  - intros Hin. apply list_elem_of_fmap_2 with (f := fun f => take 2 (bytes f)) in Hin. vm_compute in Hin. set_solver.
  - by apply rule_files_named.
  - repeat (constructor; [by apply (not_temp _ "s"%char); [vm_compute|]|]). constructor.
Qed.

Definition expose_web := ExposePort (of_bytes (abs_path rules_dir)) pf0 started "web" "jail" "tcp" 8001 80 "10.0.0.2".

Lemma rule_files_follow_requests_witness :
  expose_web.2 = Ok web_mapping /\ on_file rules_dir expose_web.1.2 "web" = Some (Ok web_rules).
Proof.
  assert (expose_web.2 = Ok web_mapping) as Hr by (vm_compute; reflexivity). split; [done|].
  destruct (rule_files_follow_requests rules_dir pf0 started "web" expose_web.1.1 expose_web.1.2 rules_dir_good rule_files_named pf0_quiet)
    as (He & _).
  destruct (He "jail" "tcp" 8001 80 "10.0.0.2" expose_web.2) as [_ Hw]; [by rewrite <- !surjective_pairing|].
  rewrite Hw, Hr. vm_compute. reflexivity.
Defined.

Lemma nothing_on_file i : ValidateInstanceName i = None -> on_file (W := box) rules_dir started i = None.
Proof.
  intros Hi. unfold on_file. assert (files started !! rule_file rules_dir i = None) as ->; [|done].
  apply not_elem_of_dom. intros Hin.
  assert (forall f, f ∈ dom (files started) -> take 2 (bytes f) = bytes "/p") as Hd.
  { intros f Hf. apply elem_of_elements in Hf. revert f Hf. apply Forall_forall. vm_compute. repeat constructor. }
  apply Hd in Hin. vm_compute in Hin. done.
Qed.

Lemma stored_rules_stay_valid_witness :
  loadRuleSet (of_bytes (abs_path rules_dir)) expose_web.1.2 "web" = Ok web_rules /\ rules_ok "web" web_rules.
Proof.
  assert (loadRuleSet (of_bytes (abs_path rules_dir)) expose_web.1.2 "web" = Ok web_rules) as Hl by (vm_compute; reflexivity).
  split; [done|].
  apply (stored_rules_stay_valid rules_dir pf0 expose_web.1.1 started expose_web.1.2 rules_dir_good rule_files_named pf0_quiet nothing_on_file);
    [|done].
  eapply rtc_once, f_expose. rewrite <- !surjective_pairing. reflexivity.
Defined.
