(* ===== verification/CloudInit.v ===== *)
(** * Cloud-init documents (pkg/cloudinit/cloudinit.go)

    The configuration of a guest at first boot and the three documents rendered
    from it, each the list of its lines; every value of a manifest is written as a
    quoted scalar. *)

From stdpp Require Import base list strings.
From Stdlib Require Import Ascii ZArith Lia.
From S2P Require Import Prelude GoStrings GoText GoWords GoHttp Host Files.

Local Open Scope Z_scope.

Record NetworkConfig := {
  NC_Name : string; NC_Type : string; NC_Address : string; NC_Gateway : string; NC_DNS : list string; NC_MACAddress : string
}.
Record UserConfig := {
  UC_Name : string; UC_Groups : list string; UC_Shell : string; UC_Sudo : string; UC_Doas : string;
  UC_SSHAuthorizedKeys : list string; UC_LockPasswd : bool; UC_PlainTextPasswd : string
}.
Record Config := {
  CC_InstanceID : string; CC_LocalHostname : string; CC_Networks : list NetworkConfig; CC_Users : list UserConfig;
  CC_Packages : list string; CC_RunCMD : list string; CC_SSHAuthorizedKeys : list string; CC_CustomUserData : string
}.

(** ** Scalars *)

Definition dquote : ascii := "034"%char.
Definition backslash : ascii := "092"%char.

(** What [yamlScalar] writes for one rune. *)
Definition scalar_rune (r : Z) : list ascii :=
  if r =? 34 then [backslash; dquote]
  else if r =? 92 then [backslash; backslash]
  else if r =? 10 then [backslash; "n"%char]
  else if r =? 13 then [backslash; "r"%char]
  else if r =? 9 then [backslash; "t"%char]
  else if r <? 32 then [backslash; "x"%char; hex_digit (r / 16); hex_digit (r mod 16)]
  else encode_rune r.
Definition yamlScalar (s : string) : string := of_bytes (dquote :: flat_map scalar_rune (runes s) ++ [dquote]).

(** [strings.ReplaceAll(rule, "%u", user)]. *)
Fixpoint replace_u (user l : list ascii) : list ascii :=
  match l with
  | "%"%char :: "u"%char :: l => user ++ replace_u user l
  | c :: l => c :: replace_u user l
  | [] => []
  end.
Definition doasRule (rule user : string) : string := of_bytes (replace_u (bytes user) (bytes rule)).

(** ** Documents *)

Definition unless_empty (s : string) (line : string) : list string := if streq s "" then [] else [line].
(** A list of scalars under a key, left out where it is empty. *)
Definition scalar_list (key item : string) (l : list string) : list string :=
  match l with [] => [] | _ => key :: map (fun s => item +:+ yamlScalar s) l end.
(** Every line is followed by a newline. *)
Definition document (lines : list string) : string := JoinStrings lines (String newline "") +:+ String newline "".

Definition meta_lines (c : Config) : list string :=
  ["instance-id: " +:+ yamlScalar (CC_InstanceID c); "local-hostname: " +:+ yamlScalar (CC_LocalHostname c)].
Definition generateMetaData (c : Config) : string := document (meta_lines c).

Definition user_lines (u : UserConfig) : list string :=
  ["  - name: " +:+ yamlScalar (UC_Name u)] ++
  (match UC_Groups u with [] => [] | l => ["    groups: " +:+ yamlScalar (JoinStrings l ", ")] end) ++
  unless_empty (UC_Shell u) ("    shell: " +:+ yamlScalar (UC_Shell u)) ++
  unless_empty (UC_Sudo u) ("    sudo: " +:+ yamlScalar (UC_Sudo u)) ++
  unless_empty (UC_Doas u) ("    doas: " +:+ yamlScalar (doasRule (UC_Doas u) (UC_Name u))) ++
  unless_empty (UC_PlainTextPasswd u) ("    plain_text_passwd: " +:+ yamlScalar (UC_PlainTextPasswd u)) ++
  (if UC_LockPasswd u then ["    lock_passwd: true"] else []) ++
  scalar_list "    ssh_authorized_keys:" "      - " (UC_SSHAuthorizedKeys u).

Definition user_data_lines (c : Config) : list string :=
  ["#cloud-config"] ++
  (match CC_Users c with [] => [] | l => "users:" :: flat_map user_lines l end) ++
  scalar_list "ssh_authorized_keys:" "  - " (CC_SSHAuthorizedKeys c) ++
  scalar_list "packages:" "  - " (CC_Packages c) ++
  scalar_list "runcmd:" "  - " (CC_RunCMD c).
Definition generateUserData (c : Config) : string :=
  document (user_data_lines c) +:+
  (if streq (CC_CustomUserData c) "" then "" else String newline "" +:+ CC_CustomUserData c).

Definition network_lines (n : NetworkConfig) : list string :=
  ["  " +:+ yamlScalar (NC_Name n) +:+ ":"] ++
  (if streq (NC_Type n) "dhcp" then ["    dhcp4: true"]
   else ["    dhcp4: false"; "    addresses:"; "      - " +:+ yamlScalar (NC_Address n)] ++
     (if streq (NC_Gateway n) "" then [] else ["    routes:"; "      - to: default"; "        via: " +:+ yamlScalar (NC_Gateway n)]) ++
     (match NC_DNS n with [] => [] | l => "    nameservers:" :: scalar_list "      addresses:" "        - " l end)) ++
  (if streq (NC_MACAddress n) "" then [] else ["    match:"; "      macaddress: " +:+ yamlScalar (NC_MACAddress n)]).
Definition network_config_lines (c : Config) : list string := ["version: 2"; "ethernets:"] ++ flat_map network_lines (CC_Networks c).

Definition check_network (i : nat) (n : NetworkConfig) : option error :=
  if streq (NC_Name n) "" then Some (Errorf "network %d: interface name is required" [Itoa (Z.of_nat i)])
  else if streq (NC_Type n) "dhcp" then None
  else if streq (NC_Type n) "static" then
    if streq (NC_Address n) "" then Some (Errorf "network %q: a static configuration needs an address" [NC_Name n]) else None
  else Some (Errorf "network %q: type must be dhcp or static, got %q" [NC_Name n; NC_Type n]).
Definition generateNetworkConfig (c : Config) : result string :=
  match first_error (imap check_network (CC_Networks c)) with
  | Some e => Err e
  | None => Ok (document (network_config_lines c))
  end.

(** ** Configurations *)

Definition ConfigFromSpec (instanceID hostname : string) (networks : list NetworkConfig) (sshKeys : list string) : Config :=
  {| CC_InstanceID := instanceID; CC_LocalHostname := hostname; CC_Networks := networks;
     CC_Users := match sshKeys with
                 | [] => []
                 | _ => [{| UC_Name := "hospitus"; UC_Groups := ["wheel"; "sudo"]; UC_Shell := "/bin/sh"; UC_Sudo := "ALL=(ALL) NOPASSWD:ALL";
                            UC_Doas := ""; UC_SSHAuthorizedKeys := sshKeys; UC_LockPasswd := true; UC_PlainTextPasswd := "" |}]
                 end;
     CC_Packages := []; CC_RunCMD := []; CC_SSHAuthorizedKeys := sshKeys; CC_CustomUserData := "" |}.

Definition NetworkFromProviderSpec (name ipv4 gateway : string) (dns : list string) (mac : string) : NetworkConfig :=
  if streq ipv4 "" || streq ipv4 "dhcp"
  then {| NC_Name := name; NC_Type := "dhcp"; NC_Address := ""; NC_Gateway := ""; NC_DNS := []; NC_MACAddress := mac |}
  else {| NC_Name := name; NC_Type := "static"; NC_Address := ipv4; NC_Gateway := gateway; NC_DNS := dns; NC_MACAddress := mac |}.

(** ** The seed image *)

Section iso.
Context {W : Type} `{Host W} `{FileOps W}.
(** [os.MkdirTemp("", pattern)] and [os.RemoveAll]. *)
Context (MkdirTemp : W -> string -> W * result string) (RemoveAll : W -> string -> W).

Definition NewGenerator (w : W) : result string :=
  match LookPath w "mkisofs" with
  | None => Ok "mkisofs"
  | Some _ => match LookPath w "genisoimage" with
              | None => Ok "genisoimage"
              | Some _ => Err (Errorf "neither mkisofs nor genisoimage found in PATH" [])
              end
  end.

Definition GenerateISO (mkisofsBin : string) (w : W) (config : Config) (outputPath : string) : W * option error :=
  match MkdirTemp w "cloudinit-" with
  | (w, Err e) => (w, Some (Wrapf "failed to create temp directory: %w" [] e))
  | (w, Ok tmpDir) =>
      let '(w, err) :=
        and_then (wrapped "failed to write meta-data: %w" (WriteFile w (path_Join tmpDir "meta-data") (generateMetaData config))) (fun w =>
        and_then (wrapped "failed to write user-data: %w" (WriteFile w (path_Join tmpDir "user-data") (generateUserData config))) (fun w =>
        and_then (match CC_Networks config with
                  | [] => (w, None)
                  | _ => match generateNetworkConfig config with
                         | Err e => (w, Some (Wrapf "failed to generate network-config: %w" [] e))
                         | Ok networkConfig =>
                             wrapped "failed to write network-config: %w" (WriteFile w (path_Join tmpDir "network-config") networkConfig)
                         end
                  end) (fun w =>
        let '(w, x) := exec w (Command [mkisofsBin; "-output"; outputPath; "-volid"; "cidata"; "-joliet"; "-rock"; tmpDir]) in
        (w, match ex_err x with Some e => Some (Wrapf "failed to create ISO: %w (output: %s)" [ex_combined x] e) | None => None end)))) in
      (RemoveAll w tmpDir, err)
  end.
End iso.

(** ** What a quoted scalar reads as *)

(** The reader of a double-quoted scalar, as far as the writer uses the escapes:
    the text up to the closing quote, and what follows.  A raw newline ends no
    such scalar. *)
Definition hex_value (c : ascii) : option Z :=
  if between "0" "9" c then Some (code c - 48) else if between "a" "f" c then Some (code c - 87) else None.

Fixpoint read_scalar (l : list ascii) : option (list ascii * list ascii) :=
  match l with
  | [] => None
  | c :: l =>
      if Ascii.eqb c dquote then Some ([], l)
      else if Ascii.eqb c newline then None
      else if Ascii.eqb c backslash then
        match l with
        | e :: l =>
            let give x := match read_scalar l with Some (s, r) => Some (x :: s, r) | None => None end in
            if Ascii.eqb e "n" then give newline
            else if Ascii.eqb e "r" then give "013"%char
            else if Ascii.eqb e "t" then give "009"%char
            else if Ascii.eqb e dquote || Ascii.eqb e backslash then give e
            else if Ascii.eqb e "x" then
              match l with
              | h :: g :: l =>
                  match hex_value h, hex_value g, read_scalar l with
                  | Some a, Some b, Some (s, r) => Some (byte_of (16 * a + b) :: s, r)
                  | _, _, _ => None
                  end
              | _ => None
              end
            else None
        | [] => None
        end
      else match read_scalar l with Some (s, r) => Some (c :: s, r) | None => None end
  end.

Lemma read_plain l rest : Forall (fun c => c <> dquote /\ c <> newline /\ c <> backslash) l ->
  read_scalar (l ++ rest) = match read_scalar rest with Some (s, r) => Some (l ++ s, r) | None => None end.
Proof.
  induction 1 as [|c l (H1 & H2 & H3) _ IH]; simpl; [by destruct (read_scalar rest) as [[? ?]|]|].
  apply Ascii.eqb_neq in H1, H2, H3. rewrite H1, H2, H3, IH. by destruct (read_scalar rest) as [[? ?]|].
Qed.

Lemma code_byte_of n : 0 <= n < 256 -> code (byte_of n) = n.
Proof. intros Hn. unfold code, byte_of. rewrite N_ascii_embedding by lia. lia. Qed.

Lemma encode_rune_high r : 127 < r -> Forall (fun c => 128 <= code c) (encode_rune r).
Proof.
  intros Hr. unfold encode_rune. rewrite (proj2 (Z.leb_gt r 127)) by lia. rewrite andb_false_r.
  assert (forall n, 128 <= n < 256 -> 128 <= code (byte_of n)) as Hb by (intros n Hn; rewrite code_byte_of; lia).
  assert (0 <= r mod 64 < 64) by (apply Z.mod_pos_bound; lia). assert (0 <= (r / 64) mod 64 < 64) by (apply Z.mod_pos_bound; lia).
  assert (0 <= (r / 4096) mod 64 < 64) by (apply Z.mod_pos_bound; lia).
  destruct ((0 <=? r) && (r <=? 2047)) eqn:E1.
  { rewrite andb_true_iff, !Z.leb_le in E1. assert (r / 64 < 32) by (apply Z.div_lt_upper_bound; lia).
    assert (0 <= r / 64) by (apply Z.div_pos; lia). repeat constructor; apply Hb; lia. }
  destruct ((r <? 0) || (1114111 <? r) || _) eqn:E2; [repeat constructor; vm_compute; done|].
  rewrite !orb_false_iff, !Z.ltb_ge in E2. destruct E2 as [[_ Hmax] _].
  destruct (r <=? 65535) eqn:E3.
  - apply Z.leb_le in E3. assert (r / 4096 < 16) by (apply Z.div_lt_upper_bound; lia). assert (0 <= r / 4096) by (apply Z.div_pos; lia).
    repeat constructor; apply Hb; lia.
  - assert (r / 262144 < 16) by (apply Z.div_lt_upper_bound; lia). assert (0 <= r / 262144) by (apply Z.div_pos; lia).
    repeat constructor; apply Hb; lia.
Qed.

Lemma code_range c : 0 <= code c < 256.
Proof. unfold code. pose proof (N_ascii_bounded c). lia. Qed.
Lemma byte_of_code c : byte_of (code c) = c.
Proof. unfold byte_of, code. rewrite N2Z.id. apply ascii_N_embedding. Qed.

Lemma cont_byte_range lo hi c : cont_byte lo hi c = true -> lo <= code c <= hi.
Proof. unfold cont_byte. rewrite andb_true_iff, !Z.leb_le. lia. Qed.

(** The encodings of decoded runes, by the number of bytes. *)
Lemma encode_one c : code c < 128 -> encode_rune (code c) = [c].
Proof.
  intros Hc. pose proof (code_range c). unfold encode_rune. rewrite (proj2 (Z.leb_le 0 _)), (proj2 (Z.leb_le _ 127)) by lia.
  by rewrite byte_of_code.
Qed.
Lemma encode_two c0 c1 : 194 <= code c0 < 224 -> 128 <= code c1 <= 191 ->
  encode_rune ((code c0 - 192) * 64 + (code c1 - 128)) = [c0; c1].
Proof.
  intros H0 H1. unfold encode_rune. set (r := _ * 64 + _). assert (128 <= r <= 2047) by (unfold r; Z.div_mod_to_equations; lia).
  rewrite (proj2 (Z.leb_gt r 127)), (proj2 (Z.leb_le r 2047)), (proj2 (Z.leb_le 0 r)) by lia. simpl.
  replace (192 + r / 64) with (code c0) by (unfold r; Z.div_mod_to_equations; lia). replace (128 + r mod 64) with (code c1) by (unfold r; Z.div_mod_to_equations; lia).
  by rewrite !byte_of_code.
Qed.
Lemma encode_three c0 c1 c2 : 224 <= code c0 < 240 ->
  (if code c0 =? 224 then 160 else 128) <= code c1 <= (if code c0 =? 237 then 159 else 191) -> 128 <= code c2 <= 191 ->
  encode_rune ((code c0 - 224) * 4096 + (code c1 - 128) * 64 + (code c2 - 128)) = [c0; c1; c2].
Proof.
  intros H0 H1 H2. unfold encode_rune. set (r := _ * 4096 + _ + _).
  assert (2048 <= r <= 65535 /\ ~ (55296 <= r <= 57343)) as [Hr Hs].
  { unfold r. destruct (code c0 =? 224) eqn:E1, (code c0 =? 237) eqn:E2; rewrite ?Z.eqb_eq, ?Z.eqb_neq in *; lia. }
  rewrite (proj2 (Z.leb_gt r 127)), (proj2 (Z.leb_gt r 2047)), !andb_false_r by lia.
  rewrite (proj2 (Z.ltb_ge r 0)), (proj2 (Z.ltb_ge 1114111 r)) by lia. simpl.
  replace ((55296 <=? r) && (r <=? 57343)) with false by (symmetry; apply andb_false_iff; rewrite !Z.leb_gt; lia).
  rewrite (proj2 (Z.leb_le r 65535)) by lia. assert (128 <= code c1 <= 191) by (destruct (code c0 =? 224), (code c0 =? 237); lia).
  replace (224 + r / 4096) with (code c0) by (unfold r; Z.div_mod_to_equations; lia). replace (128 + (r / 64) mod 64) with (code c1) by (unfold r; Z.div_mod_to_equations; lia).
  replace (128 + r mod 64) with (code c2) by (unfold r; Z.div_mod_to_equations; lia). by rewrite !byte_of_code.
Qed.
Lemma encode_four c0 c1 c2 c3 : 240 <= code c0 < 245 ->
  (if code c0 =? 240 then 144 else 128) <= code c1 <= (if code c0 =? 244 then 143 else 191) -> 128 <= code c2 <= 191 -> 128 <= code c3 <= 191 ->
  encode_rune ((code c0 - 240) * 262144 + (code c1 - 128) * 4096 + (code c2 - 128) * 64 + (code c3 - 128)) = [c0; c1; c2; c3].
Proof.
  intros H0 H1 H2 H3. unfold encode_rune. set (r := _ * 262144 + _ + _ + _).
  assert (65536 <= r <= 1114111) as Hr.
  { unfold r. destruct (code c0 =? 240) eqn:E1, (code c0 =? 244) eqn:E2; rewrite ?Z.eqb_eq, ?Z.eqb_neq in *; lia. }
  rewrite (proj2 (Z.leb_gt r 127)), (proj2 (Z.leb_gt r 2047)), !andb_false_r by lia.
  rewrite (proj2 (Z.ltb_ge r 0)), (proj2 (Z.ltb_ge 1114111 r)) by lia. simpl.
  replace ((55296 <=? r) && (r <=? 57343)) with false by (symmetry; apply andb_false_iff; rewrite !Z.leb_gt; lia).
  rewrite (proj2 (Z.leb_gt r 65535)) by lia. assert (128 <= code c1 <= 191) by (destruct (code c0 =? 240), (code c0 =? 244); lia).
  replace (240 + r / 262144) with (code c0) by (unfold r; Z.div_mod_to_equations; lia). replace (128 + (r / 4096) mod 64) with (code c1) by (unfold r; Z.div_mod_to_equations; lia).
  replace (128 + (r / 64) mod 64) with (code c2) by (unfold r; Z.div_mod_to_equations; lia). replace (128 + r mod 64) with (code c3) by (unfold r; Z.div_mod_to_equations; lia).
  by rewrite !byte_of_code.
Qed.

(** What decoding yields: runes that are no negative numbers and, where every
    encoding is valid, encode to the bytes they came from. *)
Definition decodes (l : list ascii) (d : list (Z * bool)) : Prop :=
  Forall (fun p => 0 <= p.1) d /\ (forallb snd d = true -> flat_map encode_rune (map fst d) = l).

Lemma decodes_bad c l d : decodes l d -> decodes (c :: l) ((RuneError, false) :: d).
Proof. intros [Hd _]. split; [|done]. constructor; [vm_compute; done|done]. Qed.
Lemma decodes_good pre l d r : 0 <= r -> encode_rune r = pre -> decodes l d -> decodes (pre ++ l) ((r, true) :: d).
Proof. intros Hr Hp [Hd He]. split; [by constructor|]. simpl. intros Hv. by rewrite Hp, He. Qed.

Lemma decode_runes_spec n : forall l, (length l <= n)%nat -> decodes l (decode_runes l).
Proof.
  induction n as [|n IH]; intros l Hl; [destruct l; [split; [constructor|done]|simpl in Hl; lia]|].
  destruct l as [|c0 r0]; [split; [constructor|done]|]. simpl in Hl. cbn [decode_runes]. pose proof (code_range c0) as Hc.
  assert (decodes (c0 :: r0) ((RuneError, false) :: decode_runes r0)) as Hbad by (apply decodes_bad, IH; lia).
  destruct (code c0 <? 128) eqn:E1; [apply Z.ltb_lt in E1; apply (decodes_good [c0]); [lia|by apply encode_one|apply IH; lia]|].
  apply Z.ltb_ge in E1. destruct (code c0 <? 194) eqn:E2; [done|]. apply Z.ltb_ge in E2.
  destruct (code c0 <? 224) eqn:E3; [apply Z.ltb_lt in E3|apply Z.ltb_ge in E3; destruct (code c0 <? 240) eqn:E4;
    [apply Z.ltb_lt in E4|apply Z.ltb_ge in E4; destruct (code c0 <? 245) eqn:E5; [apply Z.ltb_lt in E5|done]]].
  - destruct r0 as [|c1 r1]; [done|]. destruct (cont_byte 128 191 c1) eqn:F1; [|done]. apply cont_byte_range in F1. simpl in Hl.
    apply (decodes_good [c0; c1]); [lia|by apply encode_two|apply IH; lia].
  - destruct r0 as [|c1 [|c2 r2]]; [done..|]. destruct (cont_byte _ _ c1 && _) eqn:F; [|done]. apply andb_true_iff in F as [F1 F2].
    apply cont_byte_range in F1, F2. simpl in Hl. apply (decodes_good [c0; c1; c2]); [|by apply encode_three|apply IH; lia].
    destruct (code c0 =? 224), (code c0 =? 237); lia.
  - destruct r0 as [|c1 [|c2 [|c3 r3]]]; [done..|]. destruct (cont_byte _ _ c1 && _ && _) eqn:F; [|done].
    rewrite !andb_true_iff in F. destruct F as [[F1 F2] F3]. apply cont_byte_range in F1, F2, F3. simpl in Hl.
    apply (decodes_good [c0; c1; c2; c3]); [|by apply encode_four|apply IH; lia]. destruct (code c0 =? 240), (code c0 =? 244); lia.
Qed.

Lemma runes_nonneg s : Forall (fun r => 0 <= r) (runes s).
Proof. unfold runes. apply Forall_map. apply (decode_runes_spec (length (bytes s))). lia. Qed.
Lemma encode_runes s : ValidString s = true -> flat_map encode_rune (runes s) = bytes s.
Proof. intros Hv. unfold runes. apply (decode_runes_spec (length (bytes s))); [lia|done]. Qed.

(** A test of the first [n] runes, run on each. *)
Lemma low_runes (test : Z -> bool) (n : nat) : forallb test (map Z.of_nat (seq 0 n)) = true -> forall r, 0 <= r < Z.of_nat n -> test r = true.
Proof.
  rewrite forallb_forall. intros Ht r Hr. apply Ht. apply in_map_iff. exists (Z.to_nat r). split; [lia|]. apply in_seq. lia.
Qed.

Definition plain (c : ascii) : bool := negb (Ascii.eqb c dquote) && negb (Ascii.eqb c newline) && negb (Ascii.eqb c backslash).
Lemma plain_true c : plain c = true -> c <> dquote /\ c <> newline /\ c <> backslash.
Proof. unfold plain. rewrite !andb_true_iff, !negb_true_iff, !Ascii.eqb_neq. tauto. Qed.
Lemma high_byte_plain c : 128 <= code c -> c <> dquote /\ c <> newline /\ c <> backslash.
Proof. intros Hc. split_and!; intros ->; vm_compute in Hc; by apply Hc. Qed.

(** One rune is read back as its encoding. *)
Definition reads_as (l x : list ascii) : Prop :=
  forall rest, read_scalar (l ++ rest) = match read_scalar rest with Some (s, t) => Some (x ++ s, t) | None => None end.

Lemma reads_plain l : forallb plain l = true -> reads_as l l.
Proof.
  intros Hl rest. apply read_plain. apply List.Forall_forall. intros c Hc. rewrite forallb_forall in Hl. by apply plain_true, Hl.
Qed.
Lemma reads_hex h g a b : hex_value h = Some a -> hex_value g = Some b -> reads_as [backslash; "x"%char; h; g] [byte_of (16 * a + b)].
Proof. intros Ha Hb rest. cbn. rewrite Ha, Hb. by destruct (read_scalar rest) as [[? ?]|]. Qed.

Definition is_hex_escape (r : Z) : bool :=
  (r =? 34) || (r =? 92) || (r =? 10) || (r =? 13) || (r =? 9) ||
  (bool_decide (hex_value (hex_digit (r / 16)) = Some (r / 16)) && bool_decide (hex_value (hex_digit (r mod 16)) = Some (r mod 16)) &&
   bool_decide (encode_rune r = [byte_of (16 * (r / 16) + r mod 16)])).
Definition is_plain_rune (r : Z) : bool :=
  (r <? 32) || (r =? 34) || (r =? 92) || forallb plain (encode_rune r).

Lemma reads_rune r : 0 <= r -> reads_as (scalar_rune r) (encode_rune r).
Proof.
  intros Hr. unfold scalar_rune.
  destruct (r =? 34) eqn:E1; [apply Z.eqb_eq in E1 as ->; by intros rest; cbn; destruct (read_scalar rest) as [[? ?]|]|].
  destruct (r =? 92) eqn:E2; [apply Z.eqb_eq in E2 as ->; by intros rest; cbn; destruct (read_scalar rest) as [[? ?]|]|].
  destruct (r =? 10) eqn:E3; [apply Z.eqb_eq in E3 as ->; by intros rest; cbn; destruct (read_scalar rest) as [[? ?]|]|].
  destruct (r =? 13) eqn:E4; [apply Z.eqb_eq in E4 as ->; by intros rest; cbn; destruct (read_scalar rest) as [[? ?]|]|].
  destruct (r =? 9) eqn:E5; [apply Z.eqb_eq in E5 as ->; by intros rest; cbn; destruct (read_scalar rest) as [[? ?]|]|].
  destruct (r <? 32) eqn:E6.
  - apply Z.ltb_lt in E6. assert (is_hex_escape r = true) as Hh by (apply (low_runes _ 32); [vm_compute; reflexivity|lia]).
    unfold is_hex_escape in Hh. rewrite E1, E2, E3, E4, E5 in Hh. cbn [orb] in Hh. rewrite !andb_true_iff, !bool_decide_eq_true in Hh.
    destruct Hh as [[Ha Hb] ->]. by apply reads_hex.
  - destruct (Z_lt_le_dec r 128) as [Hlt|Hge].
    + apply reads_plain. assert (is_plain_rune r = true) as Hp by (apply (low_runes _ 128); [vm_compute; reflexivity|lia]).
      unfold is_plain_rune in Hp. by rewrite E6, E1, E2 in Hp.
    + intros rest. apply read_plain. eapply Forall_impl; [apply encode_rune_high; lia|]. apply high_byte_plain.
Qed.

Lemma reads_runes l : Forall (fun r => 0 <= r) l -> reads_as (flat_map scalar_rune l) (flat_map encode_rune l).
Proof.
  induction 1 as [|r l Hr _ IH]; intros rest; simpl; [by destruct (read_scalar rest) as [[? ?]|]|].
  rewrite <- app_assoc, reads_rune, IH by done. destruct (read_scalar rest) as [[? ?]|]; [|done]. by rewrite app_assoc.
Qed.

Lemma yamlScalar_reads s rest : read_scalar (tail (bytes (yamlScalar s)) ++ rest) = Some (flat_map encode_rune (runes s), rest).
Proof.
  unfold yamlScalar. rewrite bytes_of_bytes. simpl. rewrite <- app_assoc, reads_runes by apply runes_nonneg. simpl. by rewrite app_nil_r.
Qed.

Lemma scalar_one_line s : newline ∉ bytes (yamlScalar s).
Proof.
  unfold yamlScalar. rewrite bytes_of_bytes, elem_of_cons, elem_of_app. intros [Hq|[Hin|Hq]]; [done| |by apply list_elem_of_singleton in Hq].
  apply list_elem_of_In, in_flat_map in Hin as (r & Hr & Hin). pose proof (runes_nonneg s) as Hn. rewrite Forall_forall in Hn.
  specialize (Hn r (proj2 (list_elem_of_In _ _) Hr)). destruct (Z_lt_le_dec r 128) as [Hlt|Hge].
  - assert (negb (existsb (Ascii.eqb newline) (scalar_rune r)) = true) as Hx
      by (apply (low_runes (fun r => negb (existsb (Ascii.eqb newline) (scalar_rune r))) 128); [vm_compute; reflexivity|lia]).
    apply negb_true_iff, existsb_false_iff in Hx. rewrite Forall_forall in Hx. specialize (Hx _ (proj2 (list_elem_of_In _ _) Hin)).
    by rewrite Ascii.eqb_refl in Hx.
  - unfold scalar_rune in Hin. repeat (rewrite (proj2 (Z.eqb_neq r _)) in Hin by lia). rewrite (proj2 (Z.ltb_ge r 32)) in Hin by lia.
    pose proof (encode_rune_high r ltac:(lia)) as Hh. rewrite Forall_forall in Hh. specialize (Hh _ (proj2 (list_elem_of_In _ _) Hin)).
    vm_compute in Hh. by apply Hh.
Qed.

(** ** The documents *)

Definition one_line (l : string) : Prop := newline ∉ bytes l.

Lemma one_line_app a b : one_line (a +:+ b) <-> one_line a /\ one_line b.
Proof. unfold one_line. rewrite bytes_app, elem_of_app. tauto. Qed.
Lemma one_line_scalar s : one_line (yamlScalar s).
Proof. apply scalar_one_line. Qed.

(** A line of fixed text and scalars. *)
Ltac fixed_line := repeat rewrite one_line_app; repeat split; try apply one_line_scalar;
  try (intros Hin; apply ascii_in_true in Hin; vm_compute in Hin; discriminate Hin).

Lemma scalar_list_lines key item l : one_line key -> one_line item -> Forall one_line (scalar_list key item l).
Proof.
  intros Hk Hi. unfold scalar_list. destruct l as [|x l]; [constructor|]. constructor; [done|]. apply Forall_map, Forall_true.
  intros s. rewrite one_line_app. split; [done|apply one_line_scalar].
Qed.
Lemma unless_empty_lines s line : one_line line -> Forall one_line (unless_empty s line).
Proof. intros Hl. unfold unless_empty. by destruct (streq s ""); repeat constructor. Qed.

Lemma meta_lines_ok c : Forall one_line (meta_lines c).
Proof. repeat (constructor; [by fixed_line|]). constructor. Qed.
Lemma user_lines_ok u : Forall one_line (user_lines u).
Proof.
  unfold user_lines. repeat (apply Forall_app; split); try (apply unless_empty_lines; by fixed_line).
  - repeat (constructor; [by fixed_line|]). constructor.
  - destruct (UC_Groups u); repeat (constructor; [by fixed_line|]); constructor.
  - destruct (UC_LockPasswd u); repeat (constructor; [by fixed_line|]); constructor.
  - apply scalar_list_lines; by fixed_line.
Qed.
Lemma user_data_lines_ok c : Forall one_line (user_data_lines c).
Proof.
  unfold user_data_lines. repeat (apply Forall_app; split); try (apply scalar_list_lines; by fixed_line).
  - repeat (constructor; [by fixed_line|]). constructor.
  - destruct (CC_Users c) as [|u l]; [constructor|]. constructor; [by fixed_line|]. apply Forall_flat_map, Forall_true. apply user_lines_ok.
Qed.
Lemma network_lines_ok n : Forall one_line (network_lines n).
Proof.
  unfold network_lines. repeat (apply Forall_app; split).
  - repeat (constructor; [by fixed_line|]). constructor.
  - destruct (streq (NC_Type n) "dhcp"); [repeat (constructor; [by fixed_line|]); constructor|].
    repeat (apply Forall_app; split).
    + repeat (constructor; [by fixed_line|]). constructor.
    + destruct (streq (NC_Gateway n) ""); repeat (constructor; [by fixed_line|]); constructor.
    + destruct (NC_DNS n); [constructor|]. constructor; [by fixed_line|]. apply scalar_list_lines; by fixed_line.
  - destruct (streq (NC_MACAddress n) ""); repeat (constructor; [by fixed_line|]); constructor.
Qed.
Lemma network_config_lines_ok c : Forall one_line (network_config_lines c).
Proof.
  unfold network_config_lines. apply Forall_app. split; [repeat (constructor; [by fixed_line|]); constructor|].
  apply Forall_flat_map, Forall_true. apply network_lines_ok.
Qed.

Lemma document_Lines ls : ls <> [] -> Forall one_line ls -> Lines (document ls) = ls ++ [""].
Proof.
  intros Hne Hf. unfold document. transitivity (Lines (JoinStrings (ls ++ [""]) (String newline ""))).
  - f_equal. apply (inj bytes). unfold JoinStrings. rewrite bytes_app, !bytes_of_bytes, map_app. clear Hf.
    induction ls as [|l ls IH]; [done|]. destruct ls as [|l' ls]; [reflexivity|].
    cbn [map app join_l]. rewrite <- !app_assoc. do 2 f_equal. by apply IH.
  - apply Lines_Join; [by destruct ls|]. apply Forall_app. split; [done|]. constructor; [apply not_elem_of_nil|constructor].
Qed.


(** A host name that carries a line of its own. *)
Definition injecting : Config := ConfigFromSpec "web" ("web" +:+ String newline "runcmd:") [] [].
