(* ===== verification/Convert.v ===== *)
(** * Manifests to instance specifications (pkg/manifest/convert.go)

    A workload and an instance of a stack are converted by two functions that
    share most of their parts; both end in the validator.  Provider settings are
    collected in a map; [visit] is the order in which it is read.  The YAML encoder
    and the directory user data are read from are parameters. *)

From stdpp Require Import base list gmap strings.
From Stdlib Require Import Ascii ZArith Lia Floats.SpecFloat.
From S2P Require Import Prelude GoStrings GoText GoPath ProviderTypes ManifestTypes Validation ManifestParse CloudInit.

Local Open Scope Z_scope.

(** [int64] arithmetic. *)
Definition wrap_int64 (n : Z) : Z := (n + 2 ^ 63) mod 2 ^ 64 - 2 ^ 63.

(** ** Settings *)

Abbreviation settings := (gmap string value).
Definition is_empty {A} (l : list A) : bool := match l with [] => true | _ => false end.

Definition put_if (b : bool) (k : string) (v : value) (c : settings) : settings := if b then <[k := v]> c else c.
Definition put_text (k s : string) (c : settings) : settings := put_if (negb (streq s "")) k (VString s) c.
Definition strings_value (l : list string) : value := VTypedSlice (map VString l).
Definition put_strings (k : string) (l : list string) (c : settings) : settings := put_if (negb (is_empty l)) k (strings_value l) c.

(** An entry of a literal map, where the text is not empty. *)
Definition text_entry (k s : string) : list (string * value) := if streq s "" then [] else [(k, VString s)].

Definition structuredHooks (specs : list HookSpec) : value :=
  VTypedSlice (map (fun h => VMap ([("type", VString (HK_Type h)); ("commands", strings_value (HK_Commands h))] ++
                                   text_entry "on_failure" (HK_OnFailure h))) specs).

Definition mount_value (vol : VolumeSpec) : value :=
  VMap [("name", VString (Vol_Name vol)); ("host_path", VString (Vol_HostPath vol)); ("mount_path", VString (Vol_MountPath vol));
        ("read_only", VBool (Vol_ReadOnly vol))].
Definition port_value (p : PortConfig) : value :=
  VMap [("host", VInt (PC_Host p)); ("container", VInt (PC_Container p)); ("protocol", VString (PC_Protocol p))].

Definition add_zfs (c : settings) (vol : VolumeSpec) : settings :=
  match Vol_ZFS vol with
  | None => c
  | Some z =>
      let entries := text_entry "compression" (ZC_Compression z) ++ text_entry "quota" (ZC_Quota z) in
      put_if (negb (is_empty entries)) ("zfs_" +:+ Vol_Name vol) (VMap entries) c
  end.

Definition addStorageAndPortConfig (c : settings) (storage : StorageSpec) (networks : list ManifestNetwork) : settings :=
  let mounts := map mount_value (List.filter (fun v => negb (streq (Vol_HostPath v) "")) (Volumes storage)) in
  let c := put_if (negb (is_empty mounts)) "mounts" (VTypedSlice mounts) c in
  let c := foldl add_zfs c (Volumes storage) in
  let ports := map port_value (flat_map MN_Ports networks) in
  put_if (negb (is_empty ports)) "port_forwards" (VTypedSlice ports) c.

Definition addLifecycleExtras (c : settings) (l : LifecycleSpec) : settings :=
  let c := put_if (0 <? StopTimeout l) "stop_timeout" (VInt (StopTimeout l)) c in
  match HealthCheck_ l with
  | Some h =>
      put_if (negb (is_empty (HS_Command h))) "health_check"
        (VMap ([("command", strings_value (HS_Command h))] ++ text_entry "interval" (HS_Interval h) ++ text_entry "timeout" (HS_Timeout h) ++
               (if 0 <? HS_Retries h then [("retries", VInt (HS_Retries h))] else []) ++ text_entry "start_period" (HS_StartPeriod h))) c
  | None => c
  end.

Definition add_autostart (c : settings) (l : LifecycleSpec) : settings :=
  match Autostart l with
  | Some a => put_if (AS_Enabled a) "autostart"
                (VMap [("enabled", VBool (AS_Enabled a)); ("priority", VInt (AS_Priority a)); ("delay", VString (AS_Delay a))]) c
  | None => c
  end.

Definition add_hooks (c : settings) (l : LifecycleSpec) : settings :=
  match Hooks l with
  | Some h =>
      let hooks := text_entry "pre_start" (HK_PreStart h) ++ text_entry "post_start" (HK_PostStart h) ++ text_entry "pre_stop" (HK_PreStop h) ++
        (if is_empty (HK_PreCreate h) then [] else [("pre_create", structuredHooks (HK_PreCreate h))]) ++
        (if is_empty (HK_PostCreate h) then [] else [("post_create", structuredHooks (HK_PostCreate h))]) in
      put_if (negb (is_empty hooks)) "hooks" (VMap hooks) c
  | None => c
  end.

Definition add_environment (c : settings) (env : list (string * string)) : settings :=
  put_if (negb (is_empty env)) "environment" (VTypedMap (map (fun e => (Some e.1, VString e.2)) env)) c.

Definition copy_parameters (c : settings) (o : ProviderConfig) : settings :=
  foldl (fun c e => <[e.1 := e.2]> c) c (PV_Parameters o).

(** The settings of an override, in the order of each of the two functions. *)
Definition workload_override (c : settings) (o : ProviderConfig) : settings :=
  let c := copy_parameters c o in
  let c := put_text "bootloader" (PV_Bootloader o) c in
  let c := put_text "console_type" (PV_ConsoleType o) c in
  let c := put_strings "passthrough" (PV_Passthrough o) c in
  let c := put_text "vnc" (PV_VNC o) c in
  let c := put_text "disk_driver" (PV_DiskDriver o) c in
  let c := put_text "machine" (PV_Machine o) c in
  let c := put_text "cpu" (PV_CPU o) c in
  put_strings "command" (PV_Command o) c.
Definition stack_override (c : settings) (o : ProviderConfig) : settings :=
  let c := copy_parameters c o in
  let c := put_text "bootloader" (PV_Bootloader o) c in
  let c := put_text "console_type" (PV_ConsoleType o) c in
  let c := put_strings "passthrough" (PV_Passthrough o) c in
  let c := put_text "vnc" (PV_VNC o) c in
  let c := put_text "disk_driver" (PV_DiskDriver o) c in
  let c := put_text "cpu" (PV_CPU o) c in
  let c := put_text "machine" (PV_Machine o) c in
  put_strings "command" (PV_Command o) c.

(** The OS type and version, which an override may replace. *)
Definition os_override (os : string * string) (o : ProviderConfig) : string * string :=
  (if streq (PV_OSType o) "" then os.1 else PV_OSType o, if streq (PV_OSVersion o) "" then os.2 else PV_OSVersion o).

Definition convertProviderConfig (m : WorkloadManifest) (os : string * string) : settings * (string * string) :=
  let '(c, os) := match assoc (PS_Type (W_Provider m)) (W_ProviderOverrides m) with
                  | Some o => (workload_override ∅ o, os_override os o)
                  | None => (∅, os)
                  end in
  let c := addStorageAndPortConfig c (W_Storage m) (W_Networks m) in
  let c := add_hooks (add_autostart c (W_Lifecycle m)) (W_Lifecycle m) in
  let c := addLifecycleExtras c (W_Lifecycle m) in
  (add_environment c (W_Environment m), os).

Definition stack_config (inst : InstanceConfig) (os : string * string) : settings * (string * string) :=
  let '(c, os) := match assoc (Inst_Provider inst) (Inst_ProviderOverrides inst) with
                  | Some o => (stack_override ∅ o, os_override os o)
                  | None => (∅, os)
                  end in
  let c := addStorageAndPortConfig c (Inst_Storage inst) (Inst_Networks inst) in
  let c := add_environment c (Inst_Environment inst) in
  let c := add_hooks (add_autostart c (Inst_Lifecycle inst)) (Inst_Lifecycle inst) in
  (addLifecycleExtras c (Inst_Lifecycle inst), os).

(** ** Images, networks and disks *)

Definition convertImageReference (imageType reference : string) : string := reference.
Definition parseCloudImage (reference : string) : string * string :=
  match Cut reference "-" with Some (a, b) => (a, b) | None => (reference, "") end.

(** The OS type and version an image stands for. *)
Definition image_os (imageType reference : string) : string * string :=
  if streq imageType ImageTypeFreeBSD then ("freebsd", reference)
  else if streq imageType ImageTypeOCI then ("oci", "")
  else if streq imageType ImageTypeCloud then parseCloudImage reference
  else if streq imageType ImageTypeISO then ("iso", "")
  else ("", "").

Definition is_linux_jail (provider : string) (overrides : list (string * ProviderConfig)) : bool :=
  streq provider ProviderTypeJail &&
  match assoc ProviderTypeJail overrides with Some o => streq (PV_OSType o) "linux" | None => false end.

Definition convert_image (linux_jail : bool) (source : string) : result (string * (string * string)) :=
  if linux_jail then Ok ("", ("", ""))
  else match ParseImageSource source with
       | Err e => Err (Wrapf "invalid image source: %w" [] e)
       | Ok (imageType, reference) => Ok (convertImageReference imageType reference, image_os imageType reference)
       end.

Definition network_type (t : string) : option string :=
  if streq t NetworkTypeBridge || streq t "" then Some "bridge"
  else if streq t NetworkTypeNAT then Some "nat"
  else if streq t NetworkTypeMacvlan then Some "macvlan"
  else if streq t NetworkTypeVXLAN then Some "vxlan"
  else if streq t NetworkTypeNone then Some "none"
  else None.
Definition network_ipv4 (ip : option IPConfig) : string :=
  match ip with
  | Some ip => if streq (IP_Mode ip) IPModeDHCP || streq (IP_Mode ip) "" then "dhcp"
               else if streq (IP_Mode ip) IPModeStatic then IP_Address ip
               else ""
  | None => ""
  end.
Definition convertNetwork (net : ManifestNetwork) : result NetworkSpec :=
  match network_type (MN_Type net) with
  | None => Err (Errorf "unknown network type: %s" [MN_Type net])
  | Some t => Ok {| Net_ID := MN_Name net; Net_Type := t; Net_Bridge := MN_Bridge net; Net_BridgeFlags := MN_BridgeFlags net;
                    Net_VLAN := MN_VLAN net; Net_MAC := MN_MAC net; Net_IPv4 := network_ipv4 (MN_IP net); Net_IPv6 := "";
                    Net_IPPool := MN_IPPool net; Net_MTU := MN_MTU net |}
  end.
Fixpoint convert_networks (i : nat) (nets : list ManifestNetwork) : result (list NetworkSpec) :=
  match nets with
  | [] => Ok []
  | net :: rest =>
      match convertNetwork net with
      | Err e => Err (Wrapf "invalid network[%d]: %w" [Itoa (Z.of_nat i)] e)
      | Ok n => match convert_networks (S i) rest with Err e => Err e | Ok l => Ok (n :: l) end
      end
  end.

Definition bytesPerGiB : Z := 1024 * 1024 * 1024.
Definition bytesToGiBRoundUp (sizeBytes : Z) : Z :=
  if sizeBytes <=? 0 then 0 else Z.quot (wrap_int64 (sizeBytes + bytesPerGiB - 1)) bytesPerGiB.

Definition root_disk_type (t : string) : string :=
  if streq t DiskTypeZVOL then "zvol" else if streq t DiskTypeQCOW2 then "qcow2" else if streq t DiskTypeRaw then "raw"
  else if streq t DiskTypePhysical then "physical" else "".
Definition new_disk (id type path : string) (size : Z) (bootable readonly : bool) : DiskSpec :=
  {| Disk_ID := id; Disk_Type := type; Disk_Path := path; Disk_SizeGB := size; Disk_Bootable := bootable; Disk_ReadOnly := readonly;
     Disk_Cache := ""; Disk_DeviceName := ""; Disk_SectorSize := 0 |}.

Section convert.
Context (int64_overflow : spec_float -> Z).

Definition disk_size (msg : string) (args : list string) (size : string) : result Z :=
  if streq size "" then Ok 0
  else match ParseMemorySize int64_overflow size with
       | Err e => Err (Wrapf msg args e)
       | Ok b => Ok (bytesToGiBRoundUp b)
       end.

Fixpoint convert_volumes (i : nat) (vols : list VolumeSpec) : result (list DiskSpec) :=
  match vols with
  | [] => Ok []
  | vol :: rest =>
      if negb (streq (Vol_HostPath vol) "") then convert_volumes (S i) rest
      else match disk_size "invalid volume[%d] size: %w" [Itoa (Z.of_nat i)] (Vol_Size vol) with
           | Err e => Err e
           | Ok n => match convert_volumes (S i) rest with
                     | Err e => Err e
                     | Ok l => Ok (new_disk (Vol_Name vol) "" "" n false (Vol_ReadOnly vol) :: l)
                     end
           end
  end.

Definition convertStorage (storage : StorageSpec) : result (list DiskSpec) :=
  match RootDisk storage with
  | None => convert_volumes 0 (Volumes storage)
  | Some rd =>
      match disk_size "invalid root disk size: %w" [] (RD_Size rd) with
      | Err e => Err e
      | Ok n => match convert_volumes 0 (Volumes storage) with
                | Err e => Err e
                | Ok l => Ok (new_disk "root" (root_disk_type (RD_Type rd))
                                (if streq (RD_Type rd) DiskTypePhysical then RD_Path rd else "") n true false :: l)
                end
      end
  end.

(** ** User data from a file *)

(** [os.OpenRoot], and [Open] in the root followed by [io.ReadAll]. *)
Context (OpenRoot : string -> option error) (OpenIn : string -> string -> result (result string)).

Definition readUserDataFile (path root : string) : result string :=
  let cleaned := of_bytes (Clean (bytes path)) in
  if Contains cleaned ".." then Err (Errorf "path traversal detected in user_data_file: %s" [path])
  else if ContainsNul path then Err (Errorf "null byte in user_data_file path: %s" [path])
  else if streq root "" then Err (Errorf "user_data_file is not accepted here: no cloud-init directory is configured" [])
  else match OpenRoot root with
  | Some e => Err (Wrapf "cannot open the cloud-init directory %s: %w" [root] e)
  | None =>
      match (if IsAbs (bytes cleaned) then Rel (bytes root) (bytes cleaned) else Ok (bytes cleaned)) with
      | Err _ => Err (Errorf "user_data_file %s must be under %s" [path; root])
      | Ok relative =>
          let relative := of_bytes relative in
          if streq relative ".." || HasPrefix relative "../" then Err (Errorf "user_data_file %s must be under %s" [path; root])
          else match OpenIn root relative with
               | Err e => Err (Wrapf "failed to read user_data_file %s (it must be under %s): %w" [path; root] e)
               | Ok (Err e) => Err (Wrapf "failed to read user_data_file %s: %w" [path] e)
               | Ok (Ok data) => Ok data
               end
      end
  end.

(** ** Cloud-init *)

Record ciUserYAML := {
  CY_Name : string; CY_Groups : string; CY_Shell : string; CY_Sudo : string; CY_Doas : string; CY_PlainTextPasswd : string;
  CY_LockPasswd : option bool; CY_SSHAuthorizedKeys : list string
}.
Record ciUserDataYAML := {
  CD_Users : list ciUserYAML; CD_SSHAuthorizedKeys : list string; CD_Packages : list string; CD_RunCMD : list string
}.
Record networkV1Subnet := { V1_SubnetType : string; V1_Address : string; V1_Gateway : string; V1_DNS : list string }.
Record networkV1Device := { V1_Type : string; V1_Name : string; V1_Subnets : list networkV1Subnet }.
Record networkV2Ethernet := { V2_DHCP4 : bool; V2_Addresses : list string; V2_Routes : list (string * string); V2_Nameservers : option (list string) }.
Inductive network_document := NetworkV1 (devices : list networkV1Device) | NetworkV2 (ethernets : gmap string networkV2Ethernet).

(** [yaml.Marshal] on the three documents. *)
Context (marshal_user_data : ciUserDataYAML -> result string) (marshal_meta_data : string -> string -> result string).
Context (marshal_network : network_document -> result string).

Definition user_yaml (u : UserConfig) : ciUserYAML :=
  {| CY_Name := UC_Name u; CY_Groups := if is_empty (UC_Groups u) then "" else JoinStrings (UC_Groups u) ", "; CY_Shell := UC_Shell u;
     CY_Sudo := UC_Sudo u; CY_Doas := UC_Doas u; CY_PlainTextPasswd := UC_PlainTextPasswd u;
     CY_LockPasswd := if UC_LockPasswd u then Some true else if streq (UC_PlainTextPasswd u) "" then None else Some false;
     CY_SSHAuthorizedKeys := UC_SSHAuthorizedKeys u |}.

Definition buildUserDataYAML (c : Config) : string :=
  let doc := {| CD_Users := map user_yaml (CC_Users c); CD_SSHAuthorizedKeys := CC_SSHAuthorizedKeys c;
                CD_Packages := CC_Packages c; CD_RunCMD := CC_RunCMD c |} in
  let filled := negb (is_empty (CD_Users doc)) || negb (is_empty (CD_SSHAuthorizedKeys doc)) || negb (is_empty (CD_Packages doc))
                || negb (is_empty (CD_RunCMD doc)) in
  "#cloud-config" +:+ String newline "" +:+
  (if filled then match marshal_user_data doc with Ok out => out | Err _ => "" end else "") +:+ CC_CustomUserData c.

Definition buildMetaDataYAML (c : Config) : string :=
  match marshal_meta_data (CC_InstanceID c) (CC_LocalHostname c) with Ok out => out | Err _ => "" end.

Definition is_dhcp (n : NetworkConfig) : bool := streq (NC_Type n) "dhcp".
Definition v1_device (n : NetworkConfig) : networkV1Device :=
  {| V1_Type := "physical"; V1_Name := NC_Name n;
     V1_Subnets := [if is_dhcp n then {| V1_SubnetType := "dhcp4"; V1_Address := ""; V1_Gateway := ""; V1_DNS := [] |}
                    else {| V1_SubnetType := "static"; V1_Address := NC_Address n; V1_Gateway := NC_Gateway n; V1_DNS := NC_DNS n |}] |}.
Definition v2_ethernet (n : NetworkConfig) : networkV2Ethernet :=
  if is_dhcp n then {| V2_DHCP4 := true; V2_Addresses := []; V2_Routes := []; V2_Nameservers := None |}
  else {| V2_DHCP4 := false; V2_Addresses := [NC_Address n];
          V2_Routes := if streq (NC_Gateway n) "" then [] else [("default", NC_Gateway n)];
          V2_Nameservers := if is_empty (NC_DNS n) then None else Some (NC_DNS n) |}.
Definition buildNetworkConfigYAML (c : Config) (isFreeBSD : bool) : string :=
  if forallb is_dhcp (CC_Networks c) then ""
  else match marshal_network (if isFreeBSD then NetworkV1 (map v1_device (CC_Networks c))
                              else NetworkV2 (foldl (fun m n => <[NC_Name n := v2_ethernet n]> m) ∅ (CC_Networks c))) with
       | Ok out => out
       | Err _ => ""
       end.

Definition generateCloudInitYAML (c : Config) (osType : string) : CloudInitConfig :=
  {| CI_UserData := buildUserDataYAML c; CI_MetaData := buildMetaDataYAML c; CI_Network := buildNetworkConfigYAML c (streq osType "freebsd") |}.

Definition user_config (u : CloudInitUser) : UserConfig :=
  {| UC_Name := CU_Name u; UC_Groups := CU_Groups u; UC_Shell := CU_Shell u; UC_Sudo := CU_Sudo u; UC_Doas := CU_Doas u;
     UC_SSHAuthorizedKeys := CU_SSHAuthorizedKeys u; UC_LockPasswd := CU_LockPasswd u; UC_PlainTextPasswd := CU_PlainTextPasswd u |}.

Definition interface_name (i : nat) : string := if decide (i = 0%nat) then "ens3" else "eth" +:+ Itoa (Z.of_nat i).

(** The address, gateway and name servers of a network; [None]: mode none. *)
Definition ip_settings (ip : option IPConfig) : option (string * string * list string) :=
  match ip with
  | None => Some ("dhcp", "", [])
  | Some ip => if streq (IP_Mode ip) IPModeDHCP || streq (IP_Mode ip) "" then Some ("dhcp", "", [])
               else if streq (IP_Mode ip) IPModeStatic then Some (IP_Address ip, IP_Gateway ip, IP_DNS ip)
               else if streq (IP_Mode ip) IPModeNone then None
               else Some ("", "", [])
  end.

(** The networks of [autoCloudInitForVM], where mode none has no case. *)
Definition auto_network (i : nat) (net : ManifestNetwork) : NetworkConfig :=
  let '(ipv4, gateway, dns) := default ("", "", []) (ip_settings (MN_IP net)) in
  NetworkFromProviderSpec (interface_name i) ipv4 gateway dns (MN_MAC net).
(** Those of [generateFromCloudInitSpec], where it is skipped. *)
Definition declared_network (i : nat) (net : ManifestNetwork) : option NetworkConfig :=
  '(ipv4, gateway, dns) ← ip_settings (MN_IP net); Some (NetworkFromProviderSpec (interface_name i) ipv4 gateway dns "").

Definition providerAppliesCloudInit (providerType : string) : bool := streq providerType "bhyve" || streq providerType "qemu".
Definition errCloudInitUnsupported (providerType : string) : error :=
  Errorf "provider %q cannot apply a cloud_init block: only bhyve and qemu can" [providerType].

Definition seeded_os : list string :=
  ["linux"; "ubuntu"; "debian"; "centos"; "fedora"; "alpine"; "rocky"; "almalinux"; "arch"; "opensuse"; "freebsd"].

Definition authorized_keys (providerType : string) (overrides : list (string * ProviderConfig)) : list string :=
  match assoc providerType overrides with
  | Some o => match assoc "ssh_authorized_keys" (PV_Parameters o) with
              | Some (VSlice keys) => omap (fun k => match k with VString s => Some s | _ => None end) keys
              | _ => []
              end
  | None => []
  end.

(** Both callers come here with no cloud-init on the specification yet, so that
    the guard against overriding one never holds. *)
Definition autoCloudInitForVM (providerType imageSource : string) (nets : list ManifestNetwork) (overrides : list (string * ProviderConfig))
    (name osType : string) : option CloudInitConfig :=
  if existsb (streq osType) seeded_os || HasPrefix imageSource "cloud:"
  then Some (generateCloudInitYAML (ConfigFromSpec name name (imap auto_network nets) (authorized_keys providerType overrides)) osType)
  else None.

Variable cloudInitRoot : string.

Definition generateFromCloudInitSpec (ci : CloudInitSpec) (nets : list ManifestNetwork) (name osType : string) : result CloudInitConfig :=
  let custom := if negb (streq (CS_UserDataFile ci) "") then readUserDataFile (CS_UserDataFile ci) cloudInitRoot else Ok (CS_UserData ci) in
  match custom with
  | Err e => Err e
  | Ok custom =>
      Ok (generateCloudInitYAML
        {| CC_InstanceID := name; CC_LocalHostname := if streq (CS_Hostname ci) "" then name else CS_Hostname ci;
           CC_Networks := omap id (imap declared_network nets); CC_Users := map user_config (CS_Users ci); CC_Packages := CS_Packages ci;
           CC_RunCMD := CS_RunCMD ci; CC_SSHAuthorizedKeys := CS_SSHAuthorizedKeys ci; CC_CustomUserData := custom |} osType)
  end.

Definition enabled_is (b : bool) (ci : option CloudInitSpec) : bool :=
  match ci with Some ci => bool_decide (CS_Enabled ci = Some b) | None => false end.

Definition generateCloudInitForVM (m : WorkloadManifest) (name osType : string) : result (option CloudInitConfig) :=
  let providerType := PS_Type (W_Provider m) in
  let declared := enabled_is true (W_CloudInit m) in
  if negb (providerAppliesCloudInit providerType) then if declared then Err (errCloudInitUnsupported providerType) else Ok None
  else match W_CloudInit m with
       | Some ci =>
           if declared then match generateFromCloudInitSpec ci (W_Networks m) name osType with Ok x => Ok (Some x) | Err e => Err e end
           else Ok (autoCloudInitForVM providerType (Img_Source (W_Image m)) (W_Networks m) (W_ProviderOverrides m) name osType)
       | None => Ok (autoCloudInitForVM providerType (Img_Source (W_Image m)) (W_Networks m) (W_ProviderOverrides m) name osType)
       end.

(** The three states of a stack instance's block. *)
Definition stack_cloud_init (inst : InstanceConfig) (name osType : string) : result (option CloudInitConfig) :=
  if enabled_is false (Inst_CloudInit inst) then Ok None
  else match Inst_CloudInit inst with
       | Some ci =>
           if enabled_is true (Some ci) then
             if negb (providerAppliesCloudInit (Inst_Provider inst)) then Err (errCloudInitUnsupported (Inst_Provider inst))
             else match generateFromCloudInitSpec ci (Inst_Networks inst) name osType with
                  | Ok x => Ok (Some x)
                  | Err e => Err (Wrapf "invalid cloud-init: %w" [] e)
                  end
           else if providerAppliesCloudInit (Inst_Provider inst)
           then Ok (autoCloudInitForVM (Inst_Provider inst) (Img_Source (Inst_Image inst)) (Inst_Networks inst) (Inst_ProviderOverrides inst) name osType)
           else Ok None
       | None =>
           if providerAppliesCloudInit (Inst_Provider inst)
           then Ok (autoCloudInitForVM (Inst_Provider inst) (Img_Source (Inst_Image inst)) (Inst_Networks inst) (Inst_ProviderOverrides inst) name osType)
           else Ok None
       end.

(** ** The two conversions *)

Definition memory_mb (memory : string) : result Z :=
  if streq memory "" then Ok 0
  else match ParseMemoryToMB int64_overflow memory with Ok n => Ok n | Err e => Err (Wrapf "invalid memory size: %w" [] e) end.

Definition named_network (i : nat) (net : ManifestNetwork) : option NetworkConfig :=
  match MN_IP net with
  | None => None
  | Some _ =>
      '(ipv4, gateway, dns) ← ip_settings (MN_IP net);
      Some (NetworkFromProviderSpec (if streq (MN_Name net) "" then "eth" +:+ Itoa (Z.of_nat i) else MN_Name net) ipv4 gateway dns "")
  end.

Definition ToCloudInitConfig (spec : option CloudInitSpec) (instanceID hostname : string) (networks : list ManifestNetwork) (root : string)
    : result (option Config) :=
  match spec with
  | None => Ok None
  | Some ci =>
      if negb (enabled_is true (Some ci)) then Ok None
      else
        (let* custom := if negb (streq (CS_UserDataFile ci) "") then readUserDataFile (CS_UserDataFile ci) root else Ok (CS_UserData ci) in
         Ok (Some {| CC_InstanceID := instanceID; CC_LocalHostname := if streq (CS_Hostname ci) "" then hostname else CS_Hostname ci;
                     CC_Networks := omap id (imap named_network networks); CC_Users := map user_config (CS_Users ci);
                     CC_Packages := CS_Packages ci; CC_RunCMD := CS_RunCMD ci; CC_SSHAuthorizedKeys := CS_SSHAuthorizedKeys ci;
                     CC_CustomUserData := custom |}))%go
  end.

(** The order in which the settings are read. *)
Variable visit : settings -> list (string * value).

Definition checked (msg name : string) (spec : InstanceSpec) : result InstanceSpec :=
  match ValidateInstanceSpec spec with Some e => Err (Wrapf msg [name] e) | None => Ok spec end.

Definition ToInstanceSpec (m : WorkloadManifest) : result InstanceSpec :=
  let name := WM_Name (W_Workload m) in
  (let* mem := memory_mb (Res_Memory (W_Resources m)) in
   let* (image, os) := convert_image (is_linux_jail (PS_Type (W_Provider m)) (W_ProviderOverrides m)) (Img_Source (W_Image m)) in
   let* nets := convert_networks 0 (W_Networks m) in
   let* disks := match convertStorage (W_Storage m) with Ok d => Ok d | Err e => Err (Wrapf "invalid storage: %w" [] e) end in
   let '(config, os) := convertProviderConfig m os in
   let* ci := generateCloudInitForVM m name os.1 in
   checked "workload %s: %w" name
     {| Spec_Name := name; Spec_Description := WM_Description (W_Workload m); Spec_CPUs := Res_CPU (W_Resources m); Spec_MemoryMB := mem;
        Spec_MaxProc := 0; Spec_ReadBPS := 0; Spec_WriteBPS := 0; Spec_ReadIOPS := 0; Spec_WriteIOPS := 0; Spec_Image := image;
        Spec_OSType := os.1; Spec_OSVersion := os.2; Spec_Arch := Img_Arch (W_Image m); Spec_CloudInit := ci; Spec_Bootloader := "";
        Spec_Disks := disks; Spec_Networks := nets; Spec_ProviderConfig := visit config;
        Spec_Labels := WM_Labels (W_Workload m); Spec_Annotations := WM_Annotations (W_Workload m) |})%go.

Definition instanceConfigToSpec (inst : InstanceConfig) : result InstanceSpec :=
  let name := Inst_Name inst in
  (let* mem := memory_mb (Res_Memory (Inst_Resources inst)) in
   let* (image, os) := convert_image (is_linux_jail (Inst_Provider inst) (Inst_ProviderOverrides inst)) (Img_Source (Inst_Image inst)) in
   let* nets := convert_networks 0 (Inst_Networks inst) in
   let* disks := match convertStorage (Inst_Storage inst) with Ok d => Ok d | Err e => Err (Wrapf "invalid storage: %w" [] e) end in
   let '(config, os) := stack_config inst os in
   let* ci := stack_cloud_init inst name os.1 in
   checked "instance %s: %w" name
     {| Spec_Name := name; Spec_Description := ""; Spec_CPUs := Res_CPU (Inst_Resources inst); Spec_MemoryMB := mem;
        Spec_MaxProc := 0; Spec_ReadBPS := 0; Spec_WriteBPS := 0; Spec_ReadIOPS := 0; Spec_WriteIOPS := 0; Spec_Image := image;
        Spec_OSType := os.1; Spec_OSVersion := os.2; Spec_Arch := Img_Arch (Inst_Image inst); Spec_CloudInit := ci; Spec_Bootloader := "";
        Spec_Disks := disks; Spec_Networks := nets; Spec_ProviderConfig := visit config; Spec_Labels := []; Spec_Annotations := [] |})%go.

Fixpoint to_specs (i : nat) (insts : list InstanceConfig) : result (list InstanceSpec) :=
  match insts with
  | [] => Ok []
  | inst :: rest =>
      match instanceConfigToSpec inst with
      | Err e => Err (Wrapf "instance[%d] (%s): %w" [Itoa (Z.of_nat i); Inst_Name inst] e)
      | Ok spec => match to_specs (S i) rest with Err e => Err e | Ok l => Ok (spec :: l) end
      end
  end.
Definition ToInstanceSpecs (m : StackManifest) : result (list InstanceSpec) := to_specs 0 (Manifest_Instances m).
End convert.

(** [NewConverterWithCloudInitRoot(root).instanceConfigToSpec(inst)]. *)
Definition InstanceConfigToSpec int64_overflow OpenRoot OpenIn mu mm mn visit (inst : InstanceConfig) (cloudInitRoot : string) : result InstanceSpec :=
  instanceConfigToSpec int64_overflow OpenRoot OpenIn mu mm mn cloudInitRoot visit inst.

(** ** What the command line reads off a manifest *)

Record Mount := { Mt_Name : string; Mt_HostPath : string; Mt_MountPath : string; Mt_ReadOnly : bool }.
Definition GetMounts (m : WorkloadManifest) : list Mount :=
  map (fun v => {| Mt_Name := Vol_Name v; Mt_HostPath := Vol_HostPath v; Mt_MountPath := Vol_MountPath v; Mt_ReadOnly := Vol_ReadOnly v |})
    (List.filter (fun v => negb (streq (Vol_HostPath v) "")) (Volumes (W_Storage m))).
Record PortForward := { PF_HostPort : Z; PF_ContainerPort : Z; PF_Protocol : string }.
Definition GetPortForwards (m : WorkloadManifest) : list PortForward :=
  map (fun p => {| PF_HostPort := PC_Host p; PF_ContainerPort := PC_Container p; PF_Protocol := PC_Protocol p |}) (flat_map MN_Ports (W_Networks m)).
