(* ===== verification/ConvertFacts.v ===== *)
(** * Facts about the conversion of manifests

    The two conversions agree; what they write reaches the permission check of
    the API; disk sizes are rounded up; user data is read below its directory. *)

From stdpp Require Import base list gmap strings sets.
From Stdlib Require Import Ascii ZArith Lia Floats.SpecFloat.
From S2P Require Import Prelude GoStrings GoText GoPath ProviderTypes ManifestTypes Validation ManifestParse CloudInit Convert InstanceHandlers.

Local Open Scope Z_scope.

(** ** Settings *)

Lemma put_if_comm b1 b2 k1 k2 v1 v2 (c : settings) : k1 <> k2 -> put_if b1 k1 v1 (put_if b2 k2 v2 c) = put_if b2 k2 v2 (put_if b1 k1 v1 c).
Proof. intros Hne. destruct b1, b2; simpl; try done. by apply insert_insert_ne. Qed.

Lemma override_agree c o : workload_override c o = stack_override c o.
Proof. unfold workload_override, stack_override, put_text. cbv zeta. f_equal. by rewrite put_if_comm. Qed.

(** Steps that write other keys than the environment commute with it. *)
Definition ignores (k : string) (f : settings -> settings) : Prop := forall c v, f (<[k := v]> c) = <[k := v]> (f c).
Definition leaves (k : string) (f : settings -> settings) : Prop := forall c, f c !! k = c !! k.

Lemma put_if_ignores k b k' v : k <> k' -> ignores k (put_if b k' v).
Proof. intros Hne c x. destruct b; simpl; [|done]. by apply insert_insert_ne. Qed.
Lemma put_if_leaves k b k' v : k <> k' -> leaves k (put_if b k' v).
Proof. intros Hne c. destruct b; simpl; [|done]. by rewrite lookup_insert_ne. Qed.

Lemma autostart_ignores l : ignores "environment" (fun c => add_autostart c l).
Proof. intros c v. unfold add_autostart. destruct (Autostart l); [|done]. by apply put_if_ignores. Qed.
Lemma hooks_ignores l : ignores "environment" (fun c => add_hooks c l).
Proof. intros c v. unfold add_hooks. destruct (Hooks l); [|done]. by apply put_if_ignores. Qed.
Lemma extras_ignores l : ignores "environment" (fun c => addLifecycleExtras c l).
Proof.
  intros c v. unfold addLifecycleExtras. cbv zeta. rewrite put_if_ignores by done. destruct (HealthCheck_ l); [|done]. by apply put_if_ignores.
Qed.
Lemma environment_last c l env :
  addLifecycleExtras (add_hooks (add_autostart (add_environment c env) l) l) l =
  add_environment (addLifecycleExtras (add_hooks (add_autostart c l) l) l) env.
Proof.
  unfold add_environment, put_if. destruct (negb (is_empty env)); [|done].
  rewrite autostart_ignores. cbv beta. rewrite hooks_ignores. cbv beta. by rewrite extras_ignores.
Qed.

(** ** The two conversions *)

(** The stack instance that says what a workload says. *)
Definition as_instance (m : WorkloadManifest) : InstanceConfig :=
  {| Inst_Name := WM_Name (W_Workload m); Inst_Provider := PS_Type (W_Provider m); Inst_Image := W_Image m; Inst_Resources := W_Resources m;
     Inst_Networks := W_Networks m; Inst_Storage := W_Storage m; Inst_CloudInit := W_CloudInit m; Inst_Lifecycle := W_Lifecycle m;
     Inst_Environment := W_Environment m; Inst_ProviderOverrides := W_ProviderOverrides m; Inst_DependsOn := None |}.

Lemma config_agree m os : convertProviderConfig m os = stack_config (as_instance m) os.
Proof.
  unfold convertProviderConfig, stack_config. simpl. destruct (assoc _ _) as [o|]; rewrite ?override_agree, environment_last; done.
Qed.

(** Both succeed with related results, or both fail. *)
Definition agree {A} (r1 r2 : result A) : Prop :=
  match r1, r2 with Ok a, Ok b => a = b | Err _, Err _ => True | _, _ => False end.

Section agree.
Context (int64_overflow : spec_float -> Z) (OpenRoot : string -> option error) (OpenIn : string -> string -> result (result string)).
Context (mu : ciUserDataYAML -> result string) (mm : string -> string -> result string) (mn : network_document -> result string).
Context (root : string) (visit : settings -> list (string * value)).

Lemma cloud_init_agree m name os :
  enabled_is false (W_CloudInit m) = false \/ providerAppliesCloudInit (PS_Type (W_Provider m)) = false ->
  agree (generateCloudInitForVM OpenRoot OpenIn mu mm mn root m name os) (stack_cloud_init OpenRoot OpenIn mu mm mn root (as_instance m) name os).
Proof.
  intros Hen. unfold generateCloudInitForVM, stack_cloud_init. simpl. set (p := PS_Type (W_Provider m)) in *.
  destruct (W_CloudInit m) as [ci|]; simpl in *; [|by destruct (providerAppliesCloudInit p)].
  destruct (CS_Enabled ci) as [[|]|] eqn:E; simpl in *; try (destruct Hen as [|Hp]; [done|rewrite Hp; done]);
    destruct (providerAppliesCloudInit p); simpl; try done;
    unfold generateFromCloudInitSpec; destruct (negb _); try destruct (readUserDataFile _ _ _ _); done.
Qed.
End agree.

(** C21: a workload and the stack instance that says the same are converted to the
    same specification, or both refused: images, sizes, networks, disks, settings,
    hooks, environment and cloud-init.  The workload's own description, labels and
    annotations apart, the one case excepted is a block that declines cloud-init
    on a provider that could apply it. *)
Theorem workload_and_stack_agree int64_overflow OpenRoot OpenIn mu mm mn root visit (m : WorkloadManifest) :
  WM_Description (W_Workload m) = "" -> WM_Labels (W_Workload m) = [] -> WM_Annotations (W_Workload m) = [] ->
  enabled_is false (W_CloudInit m) = false \/ providerAppliesCloudInit (PS_Type (W_Provider m)) = false ->
  agree (ToInstanceSpec int64_overflow OpenRoot OpenIn mu mm mn root visit m)
        (instanceConfigToSpec int64_overflow OpenRoot OpenIn mu mm mn root visit (as_instance m)).
Proof.
  intros Hd Hl Ha Hen. unfold ToInstanceSpec, instanceConfigToSpec. rewrite Hd, Hl, Ha. simpl.
  destruct (memory_mb _ _) as [mem|]; [|done]. destruct (convert_image _ _) as [[image os]|]; [|done].
  destruct (convert_networks _ _) as [nets|]; [|done]. destruct (convertStorage _ _) as [disks|]; [|done].
  rewrite config_agree. destruct (stack_config (as_instance m) os) as [config os'].
  pose proof (cloud_init_agree OpenRoot OpenIn mu mm mn root m (WM_Name (W_Workload m)) os'.1 Hen) as Hc.
  destruct (generateCloudInitForVM _ _ _ _ _ _ _ _ _) as [ci|], (stack_cloud_init _ _ _ _ _ _ _ _ _) as [ci'|]; simpl in Hc |- *; try done.
  subst ci'. unfold checked. by destruct (ValidateInstanceSpec _).
Qed.

(** A workload whose cloud-init block says enabled = false gets seed data all
    the same, on every provider that can apply it and for every cloud image; the
    stack instance that says the same gets none. *)
Theorem declined_seed_is_written OpenRoot OpenIn mu mm mn root (m : WorkloadManifest) (name os : string) :
  enabled_is false (W_CloudInit m) = true -> providerAppliesCloudInit (PS_Type (W_Provider m)) = true ->
  HasPrefix (Img_Source (W_Image m)) "cloud:" = true ->
  (exists ci, generateCloudInitForVM OpenRoot OpenIn mu mm mn root m name os = Ok (Some ci) /\ CI_UserData ci <> "") /\
  stack_cloud_init OpenRoot OpenIn mu mm mn root (as_instance m) name os = Ok None.
Proof.
  intros He Hp Hs. unfold generateCloudInitForVM, stack_cloud_init. simpl. rewrite He, Hp. split; [|done].
  destruct (W_CloudInit m) as [ci|]; [|done]. simpl in He |- *. apply bool_decide_eq_true in He. rewrite He.
  rewrite bool_decide_eq_false_2 by done. unfold autoCloudInitForVM. rewrite Hs, orb_true_r. eexists. split; [reflexivity|]. done.
Qed.

(** ** Mounts *)

Lemma foldl_leaves {A} k (f : settings -> A -> settings) l c : (forall x, leaves k (fun c => f c x)) -> foldl f c l !! k = c !! k.
Proof. intros Hf. revert c. induction l as [|x l IH]; intros c; simpl; [done|]. rewrite IH. apply (Hf x). Qed.

Lemma zfs_leaves k vol : HasPrefix k "zfs_" = false -> leaves k (fun c => add_zfs c vol).
Proof.
  intros Hk c. unfold add_zfs. destruct (Vol_ZFS vol); [|done]. apply put_if_leaves. intros ->.
  assert (HasPrefix ("zfs_" +:+ Vol_Name vol) "zfs_" = true); [|congruence]. apply HasPrefix_spec. by eexists.
Qed.

Definition host_volumes (storage : StorageSpec) : list VolumeSpec := List.filter (fun v => negb (streq (Vol_HostPath v) "")) (Volumes storage).

Lemma storage_mounts c storage nets : host_volumes storage <> [] ->
  addStorageAndPortConfig c storage nets !! "mounts" = Some (VTypedSlice (map mount_value (host_volumes storage))).
Proof.
  intros Hne. unfold addStorageAndPortConfig. cbv zeta. rewrite put_if_leaves by done.
  rewrite (foldl_leaves "mounts" add_zfs) by (intros v; by apply zfs_leaves). fold (host_volumes storage).
  destruct (host_volumes storage) as [|v l]; [done|]. simpl. by rewrite lookup_insert_eq.
Qed.

Lemma environment_leaves env : leaves "mounts" (fun c => add_environment c env).
Proof. intros c. by apply put_if_leaves. Qed.
Lemma autostart_leaves l : leaves "mounts" (fun c => add_autostart c l).
Proof. intros c. unfold add_autostart. destruct (Autostart l); [|done]. by apply put_if_leaves. Qed.
Lemma hooks_leaves l : leaves "mounts" (fun c => add_hooks c l).
Proof. intros c. unfold add_hooks. destruct (Hooks l); [|done]. by apply put_if_leaves. Qed.
Lemma extras_leaves l : leaves "mounts" (fun c => addLifecycleExtras c l).
Proof.
  intros c. unfold addLifecycleExtras. cbv zeta. destruct (HealthCheck_ l); [rewrite put_if_leaves by done|]; by apply put_if_leaves.
Qed.

Lemma stack_mounts inst os : host_volumes (Inst_Storage inst) <> [] ->
  (stack_config inst os).1 !! "mounts" = Some (VTypedSlice (map mount_value (host_volumes (Inst_Storage inst)))).
Proof.
  intros Hne. unfold stack_config. destruct (assoc _ _) as [o|]; simpl; rewrite extras_leaves; cbv beta; rewrite hooks_leaves; cbv beta;
    rewrite autostart_leaves; cbv beta; rewrite environment_leaves; by apply storage_mounts.
Qed.

Lemma lookup_value_visit (visit : settings -> list (string * value)) c k v : visit c ≡ₚ map_to_list c -> c !! k = Some v -> lookup_value k (visit c) = Some v.
Proof.
  intros Hv Hk. unfold lookup_value. assert ((k, v) ∈ visit c) as Hin by (rewrite Hv; by apply elem_of_map_to_list).
  destruct (List.find (fun p => streq p.1 k) (visit c)) as [[k' v']|] eqn:E.
  - apply find_some in E as [Hin' Hs%streq_true]. simpl in *. subst k'. apply list_elem_of_In in Hin'. rewrite Hv in Hin'.
    apply elem_of_map_to_list in Hin'. congruence.
  - exfalso. apply list_elem_of_In in Hin. apply (find_none _ _ E) in Hin. simpl in Hin. by apply streq_false in Hin.
Qed.

Definition mount_entry (v : VolumeSpec) : list (string * value) :=
  [("name", VString (Vol_Name v)); ("host_path", VString (Vol_HostPath v)); ("mount_path", VString (Vol_MountPath v));
   ("read_only", VBool (Vol_ReadOnly v))].
Lemma mount_entries_of vols : mountEntries (Some (VTypedSlice (map mount_value vols))) = map mount_entry vols.
Proof. unfold mountEntries. induction vols as [|v vols IH]; [done|]. cbn [map]. cbn. f_equal. exact IH. Qed.


(** ** Disk sizes *)

Lemma wrap_int64_id n : - 2 ^ 63 <= n < 2 ^ 63 -> wrap_int64 n = n.
Proof. intros Hn. unfold wrap_int64. rewrite Z.mod_small by lia. lia. Qed.
Lemma wrap_int64_above n : 2 ^ 63 <= n < 2 ^ 64 -> wrap_int64 n = n - 2 ^ 64.
Proof.
  intros Hn. unfold wrap_int64. replace (n + 2 ^ 63) with (n - 2 ^ 63 + 1 * 2 ^ 64) by lia. rewrite Z.mod_add, Z.mod_small by lia. lia.
Qed.

(** The size of a disk in GiB, computed in [int64].  A size up to one GiB below
    the largest is rounded up to the next whole GiB, so that no disk is smaller
    than asked for and a size that is not zero never becomes zero; in the last GiB
    the addition overflows and the result is negative. *)
Theorem disk_sizes_round_up (n : Z) : n < 2 ^ 63 ->
  (n <= 0 -> bytesToGiBRoundUp n = 0) /\
  (0 < n <= 2 ^ 63 - bytesPerGiB -> n <= bytesToGiBRoundUp n * bytesPerGiB < n + bytesPerGiB) /\
  (2 ^ 63 - bytesPerGiB < n -> bytesToGiBRoundUp n < 0).
Proof.
  intros Hmax. unfold bytesToGiBRoundUp, bytesPerGiB. change (1024 * 1024 * 1024) with 1073741824. split_and!.
  - intros Hn. by rewrite (proj2 (Z.leb_le n 0)).
  - intros Hn. rewrite (proj2 (Z.leb_gt n 0)), wrap_int64_id by lia. rewrite Z.quot_div_nonneg by lia.
    pose proof (Z.div_mod (n + 1073741824 - 1) 1073741824 ltac:(lia)). pose proof (Z.mod_pos_bound (n + 1073741824 - 1) 1073741824 ltac:(lia)). lia.
  - intros Hn. rewrite (proj2 (Z.leb_gt n 0)), wrap_int64_above by lia.
    rewrite <- (Z.opp_involutive (n + 1073741824 - 1 - 2 ^ 64)), Z.quot_opp_l by lia. 
    rewrite Z.quot_div_nonneg by lia. assert (1 <= (- (n + 1073741824 - 1 - 2 ^ 64)) / 1073741824); [|lia].
    apply Z.div_le_lower_bound; lia.
Qed.

Lemma disk_sizes_round_up_witness : bytesToGiBRoundUp 1 = 1 /\ bytesToGiBRoundUp (2 ^ 63 - 1024) < 0.
Proof.
  destruct (disk_sizes_round_up 1 ltac:(lia)) as (_ & Hr & _). destruct (disk_sizes_round_up (2 ^ 63 - 1024) ltac:(lia)) as (_ & _ & Ho).
  split; [|apply Ho; unfold bytesPerGiB; lia]. unfold bytesPerGiB in Hr. lia.
Defined.

(** ** User data *)

Lemma not_climbing rel : streq (of_bytes rel) ".." || HasPrefix (of_bytes rel) "../" = climbs rel.
Proof.
  unfold climbs, HasPrefix, streq. rewrite bytes_of_bytes. f_equal. apply bool_decide_ext. split.
  - intros E. apply (f_equal bytes) in E. by rewrite bytes_of_bytes in E.
  - intros ->. done.
Qed.

Lemma clean_step_comps r ws : forall out, Forall (fun w => slash ∉ w) ws -> Forall (fun w => w <> [] /\ slash ∉ w) out ->
  Forall (fun w => w <> [] /\ slash ∉ w) (fold_left (clean_step r) ws out).
Proof.
  induction ws as [|w ws IH]; intros out Hw Ho; simpl; [done|]. inversion_clear Hw as [|? ? Hs Hws]. apply IH; [done|]. unfold clean_step.
  destruct (bool_decide (w = [])) eqn:E1; [done|]. apply bool_decide_eq_false in E1. simpl. destruct (bool_decide (w = dot)); [done|].
  destruct (bool_decide (w = dotdot)); [|by constructor]. destruct Ho as [|top rest Ht Hr]; [destruct r; by repeat constructor|].
  destruct (bool_decide (top = dotdot)); [constructor; [done|by constructor]|done].
Qed.

Lemma Clean_IsAbs s : IsAbs (Clean s) = IsAbs s.
Proof.
  unfold Clean. destruct (IsAbs s) eqn:E; [done|]. unfold clean_comps.
  pose proof (clean_step_comps false (split_path s) [] (split_no_slash_comps s) ltac:(constructor)) as Hc. apply Forall_rev in Hc.
  destruct Hc as [|w ws [Hne Hs] _]; [done|]. rewrite bool_decide_eq_false_2 by done.
  destruct w as [|c w]; [done|]. assert (c <> slash) as Hc by (intros ->; apply Hs; constructor).
  destruct ws; simpl; by apply Ascii.eqb_neq.
Qed.

(** User data is read below its directory only.  If a file is accepted, a
    directory is configured, and what is opened is a path relative to it that does
    not climb out; if the manifest names an absolute path, its components begin
    with those of the directory. *)
Theorem user_data_is_confined OpenRoot OpenIn (rs : list path) (file data : string) :
  Forall good_comp rs ->
  readUserDataFile OpenRoot OpenIn file (of_bytes (abs_path rs)) = Ok data ->
  exists rel, OpenIn (of_bytes (abs_path rs)) (of_bytes rel) = Ok (Ok data) /\ climbs rel = false /\
    (IsAbs (bytes file) = true -> exists r, Clean (bytes file) = abs_path (rs ++ r)) /\
    (IsAbs (bytes file) = false -> rel = Clean (bytes file)).
Proof.
  intros Hrs. unfold readUserDataFile. rewrite !bytes_of_bytes.
  destruct (Contains _ ".."); [done|]. destruct (ContainsNul file); [done|]. destruct (streq _ ""); [done|]. destruct (OpenRoot _); [done|].
  rewrite Clean_IsAbs. destruct (IsAbs (bytes file)) eqn:E.
  - destruct (Clean_abs_form _ E) as (ws & Hws & ->). destruct (decide (rs = ws)) as [<-|Hne].
    + unfold Rel. rewrite bool_decide_eq_true_2 by done. rewrite not_climbing. destruct (climbs dot) eqn:Ec; [done|].
      destruct (OpenIn _ _) as [[d|]|] eqn:Eo; [|done..]. intros [= <-]. exists dot. split_and!; try done. intros _. exists []. by rewrite app_nil_r.
    + destruct (Rel_abs rs ws Hrs Hws Hne) as (rel & -> & Hrel). rewrite not_climbing. destruct (climbs rel) eqn:Ec; [done|].
      destruct (OpenIn _ _) as [[d|]|] eqn:Eo; [|done..]. intros [= <-]. exists rel. split_and!; try done. intros _.
      destruct Hrel as [Hrel _]. destruct (Hrel eq_refl) as [r ->]. by exists r.
  - rewrite not_climbing. destruct (climbs _) eqn:Ec; [done|]. destruct (OpenIn _ _) as [[d|]|] eqn:Eo; [|done..]. intros [= <-].
    eexists. split_and!; try done.
Qed.

(** ** The properties on a sample manifest *)

Definition sample_workload (provider source : string) (ci : option CloudInitSpec) (vols : list VolumeSpec) : WorkloadManifest :=
  {| W_Workload := {| WM_APIVersion := APIVersion; WM_Name := "web"; WM_Description := ""; WM_Labels := []; WM_Annotations := [] |};
     W_Provider := {| PS_Type := provider |}; W_Image := {| Img_Source := source; Img_Arch := "amd64" |};
     W_Resources := {| Res_CPU := 1; Res_Memory := "512Mi" |}; W_Networks := [];
     W_Storage := {| RootDisk := None; Volumes := vols |}; W_CloudInit := ci;
     W_Lifecycle := {| StopTimeout := 0; Autostart := None; Hooks := None; HealthCheck_ := None; Restart := None |};
     W_Environment := [("MODE", "test")]; W_ProviderOverrides := [] |}.
Definition declined : CloudInitSpec :=
  {| CS_Enabled := Some false; CS_Hostname := ""; CS_Users := []; CS_Packages := []; CS_RunCMD := []; CS_SSHAuthorizedKeys := [];
     CS_UserData := ""; CS_UserDataFile := "" |}.
Definition host_volume : VolumeSpec :=
  {| Vol_Name := "data"; Vol_Size := ""; Vol_MountPath := "/data"; Vol_HostPath := "/srv"; Vol_ReadOnly := true; Vol_ZFS := None |}.

Definition sample_open (root : string) : option error := None.
Definition sample_read (root file : string) : result (result string) := Ok (Ok "#cloud-config").
Definition sample_yaml {A} (doc : A) : result string := Ok "".
Definition to_spec := ToInstanceSpec (fun _ => 0) sample_open sample_read sample_yaml (fun _ => sample_yaml) sample_yaml "" map_to_list.
Definition stack_spec := instanceConfigToSpec (fun _ => 0) sample_open sample_read sample_yaml (fun _ => sample_yaml) sample_yaml "" map_to_list.

Lemma workload_and_stack_agree_witness :
  let m := sample_workload "qemu" "cloud:ubuntu-24.04" None [host_volume] in
  is_ok (to_spec m) = true /\ agree (to_spec m) (stack_spec (as_instance m)).
Proof.
  split; [vm_compute; reflexivity|].
  apply (workload_and_stack_agree (fun _ => 0) sample_open sample_read sample_yaml (fun _ => sample_yaml) sample_yaml "" map_to_list
    (sample_workload "qemu" "cloud:ubuntu-24.04" None [host_volume])); [reflexivity..|]. by left.
Defined.

Lemma declined_seed_is_written_witness :
  let m := sample_workload "qemu" "cloud:ubuntu-24.04" (Some declined) [] in
  stack_cloud_init sample_open sample_read sample_yaml (fun _ => sample_yaml) sample_yaml "" (as_instance m) "web" "ubuntu" = Ok None.
Proof.
  apply (declined_seed_is_written sample_open sample_read sample_yaml (fun _ => sample_yaml) sample_yaml ""
    (sample_workload "qemu" "cloud:ubuntu-24.04" (Some declined) []) "web" "ubuntu"); reflexivity.
Defined.


Lemma user_data_is_confined_witness :
  exists rel, sample_read "/ci" (of_bytes rel) = Ok (Ok "#cloud-config") /\ climbs rel = false.
Proof.
  destruct (user_data_is_confined sample_open sample_read [bytes "ci"] "/ci/web.yaml" "#cloud-config") as (rel & Ho & Hc & _).
  - constructor; [|constructor]. unfold good_comp. split_and!; try done. by intros Hin; apply ascii_in_true in Hin.
  - vm_compute. reflexivity.
  - by exists rel.
Defined.
