(* ===== verification/Podman.v ===== *)
(** * The podman provider (pkg/provider/podman)

    The command lines the provider builds from a specification, the texts it reads
    back from podman, and its operations over the cache of containers and the
    programs of the machine. *)

From stdpp Require Import base list gmap strings.
From Stdlib Require Import Ascii ZArith Lia.
From S2P Require Import Prelude GoStrings GoText GoPath GoNet GoHttp Host Validation PathConfine ProviderTypes ManifestTypes.

Local Open Scope Z_scope.

(** ** Values of a provider configuration *)

Definition config_at (k : string) (config : list (string * value)) : option value := ManifestTypes.assoc k config.
(** [config[k].([]interface{})], [.(string)] and [.(map[string]interface{})]. *)
Definition slice_at (k : string) (config : list (string * value)) : option (list value) :=
  match config_at k config with Some (VSlice l) => Some l | _ => None end.
Definition text_at (k : string) (config : list (string * value)) : option string :=
  match config_at k config with Some (VString s) => Some s | _ => None end.
Definition map_at (k : string) (config : list (string * value)) : option (list (string * value)) :=
  match config_at k config with Some (VMap m) => Some m | _ => None end.

Definition stringSlice (v : option value) : list string :=
  match v with
  | Some (VSlice l) => omap (fun x => match x with VString s => if streq s "" then None else Some s | _ => None end) l
  | _ => []
  end.

(** ** Volumes *)

Definition mount_string (mount : list (string * value)) : option string :=
  let hostPath := default "" (text_at "host_path" mount) in
  let mountPath := default "" (text_at "mount_path" mount) in
  if streq hostPath "" || streq mountPath "" then None
  else Some (hostPath +:+ ":" +:+ mountPath +:+ match config_at "read_only" mount with Some (VBool true) => ":ro" | _ => "" end).

Definition podmanVolumeStrings (config : list (string * value)) : list string :=
  omap (fun v => match v with VString s => Some s | _ => None end) (default [] (slice_at "volumes" config)) ++
  omap (fun m => match m with VMap e => mount_string e | _ => None end) (default [] (slice_at "mounts" config)).

Definition podmanVolumeRoots : list string := ["/var/lib/hospitus/volumes"].

Section volumes.
(** The working directory and [filepath.EvalSymlinks]. *)
Context (cwd : path) (EvalSymlinks : path -> result path).

Definition checkPodmanVolumeUnder (volStr : string) (allowedRoots : list string) : option error :=
  match Split volStr ":" with
  | source :: _ :: _ =>
      let sourcePath := Clean (bytes source) in
      if Contains (of_bytes sourcePath) ".." then Some (Errorf "path traversal detected in volume mount: %s" [volStr])
      else match PathWithinAny cwd EvalSymlinks sourcePath (map bytes allowedRoots) with
           | Some (Ok true) => None
           | Some (Err e) => Some (Wrapf "cannot resolve volume source %s: %w" [of_bytes sourcePath] e)
           | _ => Some (Errorf "volume source %s not under allowed roots %v" [of_bytes sourcePath])
           end
  | _ => Some (Errorf "invalid volume mount format: %s (expected source:dest)" [volStr])
  end.
Definition checkPodmanVolume (volStr : string) : option error := checkPodmanVolumeUnder volStr podmanVolumeRoots.
End volumes.

(** ** Ports *)

Definition normalizePortProtocol (proto : string) : result string :=
  let lower := ToLower proto in
  if streq lower "tcp" || streq lower "udp" then Ok lower
  else Err (Errorf "invalid port-forward protocol %q (must be tcp or udp)" [proto]).

Definition isPodmanNamespaceMode (name : string) : bool :=
  let lower := ToLower name in streq lower "host" || HasPrefix lower "ns:" || HasPrefix lower "container:".

Definition port_text (v : string) : option error :=
  match Atoi v with
  | Err _ => Some (Errorf "port %q is not numeric" [v])
  | Ok n => if (n <? 1) || (65535 <? n) then Some (Errorf "port %d out of range (1-65535)" [Itoa n]) else None
  end.
Definition validatePortComponent (p : string) : option error :=
  match Cut p "-" with
  | Some (lo, hi) => match port_text lo with Some e => Some e | None => port_text hi end
  | None => port_text p
  end.

(** The protocol after the last slash, taken off. *)
Definition without_protocol (spec : string) : result string :=
  match CutLast spec "/" with
  | None => Ok spec
  | Some (s, proto) =>
      let proto := ToLower proto in
      if streq proto "tcp" || streq proto "udp" then Ok s
      else Err (Errorf "invalid protocol in port mapping %q (must be tcp or udp)" [spec])
  end.
(** A bracketed address at the front, taken off. *)
Definition without_address (spec s : string) : result string :=
  if negb (HasPrefix s "[") then Ok s
  else match Cut (of_bytes (tail (bytes s))) "]" with
       | None => Err (Errorf "invalid port mapping %q: unterminated IPv6 address" [spec])
       | Some (ip, rest) =>
           match ParseIP ip with
           | None => Err (Errorf "invalid port mapping %q: %q is not an IP address" [spec; ip])
           | Some _ => Ok (TrimPrefix rest ":")
           end
       end.

Definition validatePodmanPortSpec (spec : string) : option error :=
  if streq spec "" then Some (Errorf "empty port mapping" [])
  else match without_protocol spec with
  | Err e => Some e
  | Ok s =>
  match without_address spec s with
  | Err e => Some e
  | Ok s =>
      let ports := match Split s ":" with [h; c] => Some (h, c) | [_; h; c] => Some (h, c) | _ => None end in
      match ports with
      | None => Some (Errorf "invalid port mapping %q (expected [ip:]host:container[/proto])" [spec])
      | Some (h, c) =>
          match validatePortComponent h with
          | Some e => Some (Wrapf "invalid port mapping %q: %w" [spec] e)
          | None => match validatePortComponent c with
                    | Some e => Some (Wrapf "invalid port mapping %q: %w" [spec] e)
                    | None => None
                    end
          end
      end
  end end.

Definition portNumber (v : option value) : result Z :=
  match v with
  | None => Ok 0
  | Some (VInt n) | Some (VInt64 n) => Ok n
  | Some _ => Err (Errorf "port %v is not a number" [])
  end.
Definition checkPortRange (port : Z) : option error :=
  if (port <? 1) || (65535 <? port) then Some (Errorf "port %d is out of range (1-65535)" [Itoa port]) else None.
Definition checked_port (v : option value) : result Z :=
  match portNumber v with Err e => Err e | Ok n => match checkPortRange n with Some e => Err e | None => Ok n end end.

Definition portForwardArg (pf : list (string * value)) : result string :=
  match checked_port (config_at "host" pf) with
  | Err e => Err (Wrapf "port forward host: %w" [] e)
  | Ok hostPort =>
  match checked_port (config_at "container" pf) with
  | Err e => Err (Wrapf "port forward container: %w" [] e)
  | Ok containerPort =>
      let protocol := match config_at "protocol" pf with
                      | None => Ok "tcp"
                      | Some (VString raw) => if streq raw "" then Ok "tcp" else normalizePortProtocol raw
                      | Some _ => Err (Errorf "port forward protocol %v: expected a string" [])
                      end in
      match protocol with
      | Err e => Err e
      | Ok protocol => Ok (Itoa hostPort +:+ ":" +:+ Itoa containerPort +:+ "/" +:+ protocol)
      end
  end end.

(** [publishedPortSpecs]: the -p strings of inspect's PortBindings. *)
Definition bracketed (ip : string) : string := if Contains ip ":" then "[" +:+ ip +:+ "]" else ip.
Definition published (containerPort proto : string) (entry : value) : option string :=
  match entry with
  | VMap e =>
      let hostPort := default "" (text_at "HostPort" e) in
      let hostIP := default "" (text_at "HostIp" e) in
      if streq hostPort "" then None
      else let spec := hostPort +:+ ":" +:+ containerPort +:+ "/" +:+ proto in
           Some (if streq hostIP "" || streq hostIP "0.0.0.0" then spec else bracketed hostIP +:+ ":" +:+ spec)
  | _ => None
  end.
Definition publishedPortSpecs (v : option value) : list string :=
  match v with
  | Some (VMap bindings) =>
      flat_map (fun key => match Cut key "/" with
                           | None => []
                           | Some (containerPort, proto) =>
                               if streq containerPort "" then []
                               else omap (published containerPort proto) (default [] (slice_at key bindings))
                           end) (sort_strings (map fst bindings))
  | _ => []
  end.

(** ** The command line of podman create *)

Definition labelArgs (labels : list (string * string)) : list string :=
  flat_map (fun k => ["--label"; k +:+ "=" +:+ default "" (ManifestTypes.assoc k labels)]) (sort_strings (map fst labels)).

Fixpoint drop_zeros (l : list ascii) : list ascii :=
  match l with c :: l' => if Ascii.eqb c "0" then drop_zeros l' else l | [] => [] end.
Fixpoint pad_zeros (n : nat) (l : list ascii) : list ascii := match n with O => l | S n => if (length l <? S n)%nat then "0"%char :: pad_zeros n l else l end.
(** [strconv.FormatFloat(nano/1e9, 'f', -1, 64)], exact for every quota that has
    a 15 digit decimal. *)
Definition format_cpus (nano : Z) : string :=
  let frac := rev (drop_zeros (rev (pad_zeros 9 (bytes (Itoa (nano mod 1000000000)))))) in
  Itoa (nano / 1000000000) +:+ match frac with [] => "" | _ => "." +:+ of_bytes frac end.

Definition network_args (nw : NetworkSpec) : result (list string) :=
  let ip := if streq (Net_IPv4 nw) "" || streq (Net_IPv4 nw) "dhcp" then Ok []
            else let addr := match Split (Net_IPv4 nw) "/" with a :: _ => a | [] => "" end in
                 match ParseIP addr with
                 | None => Err (Errorf "network address %q is not an IP address" [Net_IPv4 nw])
                 | Some _ => Ok ["--ip"; addr]
                 end in
  let net := if streq (Net_Type nw) "bridge" then
               if streq (Net_Bridge nw) "" then Ok "bridge"
               else if isPodmanNamespaceMode (Net_Bridge nw)
               then Err (Errorf "network %q is a podman namespace mode, not a bridge network" [Net_Bridge nw])
               else Ok (Net_Bridge nw)
             else if streq (Net_Type nw) "none" then Ok "none" else Ok "bridge" in
  match net with
  | Err e => Err e
  | Ok n => match ip with Err e => Err e | Ok ip => Ok (["--network"; n] ++ ip) end
  end.

(** The results of a list, concatenated, up to the first error. *)
Fixpoint collect {A B} (f : A -> result (list B)) (l : list A) : result (list B) :=
  match l with
  | [] => Ok []
  | x :: l => match f x with Err e => Err e | Ok y => match collect f l with Err e => Err e | Ok z => Ok (y ++ z) end end
  end.

Definition mode_args (spec : InstanceSpec) : result (list string) :=
  match Spec_Networks spec with
  | _ :: _ => Ok []
  | [] => match text_at "network_mode" (Spec_ProviderConfig spec) with
          | Some mode => if streq mode "" then Ok []
                         else if isPodmanNamespaceMode mode then Ok ["--network"; mode]
                         else Err (Errorf "network mode %q is not a podman namespace mode" [mode])
          | None => Ok []
          end
  end.

Definition port_args (config : list (string * value)) : result (list string) :=
  collect (fun port => match port with
                       | VString s => match validatePodmanPortSpec s with Some e => Err e | None => Ok ["-p"; s] end
                       | _ => Err (Errorf "invalid port mapping %v: expected a string" [])
                       end) (default [] (slice_at "ports" config)).

Definition forward_args (config : list (string * value)) : result (list string) :=
  match config_at "port_forwards" config with
  | Some (VTypedSlice l) =>
      if forallb (fun v => match v with VMap _ => true | _ => false end) l
      then collect (fun v => match v with
                             | VMap pf => match portForwardArg pf with Ok a => Ok ["-p"; a] | Err e => Err e end
                             | _ => Ok []
                             end) l
      else Ok []
  | Some (VSlice l) =>
      collect (fun v => match v with
                        | VMap pf => match portForwardArg pf with Ok a => Ok ["-p"; a] | Err e => Err e end
                        | _ => Err (Errorf "invalid port forward %v: expected an object" [])
                        end) l
  | _ => Ok []
  end.

Section create_args.
Context (cwd : path) (EvalSymlinks : path -> result path).
(** [envValue] of a number that is not whole, and [json.Marshal] on a list of
    texts. *)
Context (fraction_text : result string) (marshal_strings : list string -> result string).

Definition envValue (v : value) : result string :=
  match v with
  | VString s => Ok s
  | VBool b => Ok (if b then "true" else "false")
  | VInt n | VInt64 n => Ok (Itoa n)
  | VScalar => fraction_text
  | _ => Err (Errorf "value %v has no environment representation" [])
  end.

Definition env_args (config : list (string * value)) : result (list string) :=
  match map_at "environment" config with
  | None => Ok []
  | Some vars =>
      collect (fun k => match envValue (default VScalar (ManifestTypes.assoc k vars)) with
                        | Ok s => Ok ["-e"; k +:+ "=" +:+ s]
                        | Err e => Err (Wrapf "environment variable %s: %w" [k] e)
                        end) (sort_strings (map fst vars))
  end.

Definition utf8_text (what : string) (v : value) : result (list string) :=
  match v with
  | VString s => if ValidString s then Ok [s] else Err (Errorf (what +:+ " argument is not valid UTF-8") [])
  | _ => Err (Errorf ("invalid " +:+ what +:+ " argument %v: expected a string") [])
  end.
Definition entrypoint_args (config : list (string * value)) : result (list string) :=
  match slice_at "entrypoint" config with
  | Some (_ :: _ as raw) =>
      match collect (utf8_text "entrypoint") raw with
      | Err e => Err e
      | Ok l => match marshal_strings l with
                | Err e => Err (Wrapf "failed to encode entrypoint: %w" [] e)
                | Ok encoded => Ok ["--entrypoint"; encoded]
                end
      end
  | _ => Ok []
  end.
Definition command_args (config : list (string * value)) : result (list string) :=
  collect (utf8_text "command") (default [] (slice_at "command" config)).

Definition volume_args (config : list (string * value)) : result (list string) :=
  collect (fun v => match checkPodmanVolume cwd EvalSymlinks v with Some e => Err e | None => Ok ["-v"; v] end) (podmanVolumeStrings config).

Definition buildCreateArgs (name image : string) (spec : InstanceSpec) (extraLabels : list (string * string)) (nanoCPUs memoryMB : Z) : result (list string) :=
  let config := Spec_ProviderConfig spec in
  (let* networks := collect network_args (Spec_Networks spec) in
   let* mode := mode_args spec in
   let* volumes := volume_args config in
   let* ports := port_args config in
   let* forwards := forward_args config in
   let* env := env_args config in
   let* entrypoint := entrypoint_args config in
   let* command := command_args config in
   Ok (["create"; "--name"; name] ++ (if 0 <? nanoCPUs then ["--cpus"; format_cpus nanoCPUs] else []) ++
       (if 0 <? memoryMB then ["--memory"; Itoa memoryMB +:+ "m"] else []) ++ networks ++ mode ++
       labelArgs (Spec_Labels spec) ++ labelArgs extraLabels ++ ["--label"; "hospitus.managed=true"] ++
       volumes ++ ports ++ forwards ++ env ++ entrypoint ++ [image] ++ command))%go.
End create_args.

(** ** Images and identifiers *)

Definition ValidateImageSource (source : string) : option error :=
  if streq source "" then Some (Errorf "image source is required" [])
  else if HasPrefix source "oci:" || HasPrefix source "docker://" || Contains source "/" || Contains source ":" then None
  else if negb (Contains source " ") then None
  else Some (Errorf "invalid image source for podman: %s (use oci:image:tag or image:tag format)" [source]).

Definition isShortName (image : string) : bool :=
  match Cut image "/" with
  | None => true
  | Some (first, _) => negb (Contains first "." || streq first "localhost" || Contains first ":")
  end.
Definition normalizeImageName (source : string) : string :=
  let source := TrimPrefix (TrimPrefix source "oci:") "docker://" in
  if isShortName source then
    match Cut source "/" with None => "docker.io/library/" +:+ source | Some _ => "docker.io/" +:+ source end
  else source.

Definition isHexDigit (c : ascii) : bool := between "0" "9" c || between "a" "f" c || between "A" "F" c.
Definition isValidContainerID (s : string) : bool := ((len s =? 64) || (len s =? 12)) && forallb isHexDigit (bytes s).
Definition extractContainerID (output : string) : string :=
  default "" (List.find (fun line => negb (HasPrefix line "WARNING:" || HasPrefix line "Error:") && isValidContainerID line)
                (map TrimSpace (rev (Lines (TrimSpace output))))).

Definition parseContainerLabels (field : string) : gmap string string :=
  let field := TrimSpace field in
  if streq field "" || streq field "map[]" then ∅
  else foldl (fun m p => <[p.1 := p.2]> m) ∅ (omap (fun pair => Cut (TrimSpace pair) "=") (Split field ",")).
