(* ===== verification/PodmanOps.v ===== *)
(** * Operations of the podman provider (podman.go, pause.go, rename.go, clone.go, autostart.go)

    Each operation over the cache of containers the provider keeps and the machine
    podman runs on.  The cache is also where a creation under way reserves its
    name. *)

From stdpp Require Import base list gmap strings sorting.
From Stdlib Require Import Ascii ZArith Lia.
From S2P Require Import Prelude GoStrings GoText GoPath GoHttp Host Files Validation ProviderTypes ManifestTypes InstanceStore Convert Podman.

Local Open Scope Z_scope.

Definition podmanName : string := "podman".

(** The address and the annotations of a record, which nothing reads, apart. *)
Record containerInfo := {
  ct_ID : string; ct_Name : string; ct_Image : string; ct_State : string; ct_CreatedAt : Z; ct_StartedAt : Z; ct_Labels : gmap string string
}.
Record PodmanProvider := { pp_bin : string; pp_dataDir : string; pp_instances : gmap string containerInfo }.

Definition set_instances (p : PodmanProvider) (m : gmap string containerInfo) : PodmanProvider :=
  {| pp_bin := pp_bin p; pp_dataDir := pp_dataDir p; pp_instances := m |}.
Definition placeholder (name : string) : containerInfo :=
  {| ct_ID := ""; ct_Name := name; ct_Image := ""; ct_State := StateCreating; ct_CreatedAt := 0; ct_StartedAt := 0; ct_Labels := ∅ |}.
Definition reserved_name (p : PodmanProvider) (name : string) : bool :=
  match pp_instances p !! name with Some c => streq (ct_State c) StateCreating | None => false end.

Definition forgetInstance (p : PodmanProvider) (name : string) : PodmanProvider := set_instances p (delete name (pp_instances p)).
(** The zero time: no start is recorded. *)
Definition setInstanceState (p : PodmanProvider) (name state : string) (started : option Z) : PodmanProvider :=
  match pp_instances p !! name with
  | None => p
  | Some c => set_instances p (<[name := {| ct_ID := ct_ID c; ct_Name := ct_Name c; ct_Image := ct_Image c; ct_State := state;
                                            ct_CreatedAt := ct_CreatedAt c; ct_StartedAt := default (ct_StartedAt c) started;
                                            ct_Labels := ct_Labels c |}]> (pp_instances p))
  end.

Definition invalid_id (id : string) (e : error) : error := Wrapf "invalid instance id %q: %w" [id] e.

(** ** Reading podman's answers *)

Definition status_state (status : string) : string :=
  if streq status "running" then StateRunning
  else if existsb (streq status) ["created"; "exited"; "stopped"] then StateStopped
  else if streq status "paused" then StatePaused
  else if streq status "removing" then StateDeleting
  else StateUnknown.

(** One line of podman ps; a line with fewer fields is skipped. *)
Definition listed_container (line : string) : option (string * containerInfo) :=
  match Split line "009"%char with
  | id :: name :: image :: status :: rest =>
      let status := ToLower status in
      let state := if HasPrefix status "up" then StateRunning else if Contains status "paused" then StatePaused else StateStopped in
      Some (name, {| ct_ID := id; ct_Name := name; ct_Image := image; ct_State := state; ct_CreatedAt := 0; ct_StartedAt := 0;
                     ct_Labels := match rest with f :: _ => parseContainerLabels f | [] => ∅ end |})
  | _ => None
  end.
Definition listed_containers (output : string) : gmap string containerInfo :=
  foldl (fun m p => <[p.1 := p.2]> m) ∅ (omap listed_container (Lines (TrimSpace output))).

(** The names whose creation is under way keep their place. *)
Definition synced (old listed : gmap string containerInfo) : gmap string containerInfo :=
  listed ∪ filter (fun e => streq (ct_State e.2) StateCreating = true) old.

Record AutoStartConfig := { as_Enabled : bool; as_Priority : Z; as_DelayMS : Z }.

Section ops.
Context {W : Type} `{Host W} `{FileOps W} `{Json AutoStartConfig}.
Context (cwd : path) (eval_links : path -> result path) (fraction_text : result string) (marshal_strings : list string -> result string).

Definition podman (p : PodmanProvider) (w : W) (args : list string) : W * exit := exec w (Command (pp_bin p :: args)).
(** An error carries what podman printed. *)
Definition podman_run (msg : string) (p : PodmanProvider) (w : W) (args : list string) : W * option error :=
  let '(w, x) := podman p w args in
  (w, match ex_err x with Some e => Some (Wrapf msg [ex_combined x] e) | None => None end).

Definition containerExists (p : PodmanProvider) (w : W) (name : string) : W * bool :=
  let '(w, x) := podman p w ["container"; "exists"; name] in (w, is_nil (ex_err x)).

(** ** Images *)

Definition pullImageIfNeeded (GOOS : string) (p : PodmanProvider) (w : W) (image : string) : W * option error :=
  let '(w, x) := podman p w ["image"; "exists"; image] in
  match ex_err x with
  | None => (w, None)
  | Some _ =>
      let '(w, native) := podman p w ["pull"; image] in
      match ex_err native with
      | None => (w, None)
      | Some e =>
          if streq GOOS "freebsd" then
            let '(w, linux) := podman p w ["pull"; "--os"; "linux"; image] in
            (w, match ex_err linux with
                | None => None
                | Some e2 => Some (Wrapf "failed to pull image %s: native: %w (output: %s); linux: %w (output: %s)"
                                     [image; ex_combined native; ex_combined linux] (Joined [e; e2]))
                end)
          else (w, Some (Wrapf "failed to pull image %s: %w (output: %s)" [image; ex_combined native] e))
      end
  end.

(** ** Auto-start *)

Definition defaultAutoStartPriority : Z := 50.
Definition autostartDir (p : PodmanProvider) : string := path_Join (path_Join (pp_dataDir p) "podman") "autostart".
Definition autostartFilePath (p : PodmanProvider) (name : string) : string := path_Join (autostartDir p) (name +:+ ".json").

Definition SetAutoStart (p : PodmanProvider) (w : W) (id : string) (config : AutoStartConfig) : W * option error :=
  match ValidateInstanceName id with
  | Some e => (w, Some (invalid_id id e))
  | None =>
      if (as_Priority config <? 0) || (100 <? as_Priority config)
      then (w, Some (Errorf "priority must be between 1 and 100, got %d" [Itoa (as_Priority config)]))
      else
        let config := {| as_Enabled := as_Enabled config; as_DelayMS := as_DelayMS config;
                         as_Priority := if as_Priority config =? 0 then defaultAutoStartPriority else as_Priority config |} in
        and_then (podman_run "failed to update restart policy for container: %s: %w" p w
                    ["update"; "--restart=" +:+ (if as_Enabled config then "always" else "no"); id]) (fun w =>
        and_then (wrapped "failed to create autostart directory: %w" (MakeDirs w (autostartDir p))) (fun w =>
        match Marshal config with
        | Err e => (w, Some (Wrapf "failed to marshal autostart config: %w" [] e))
        | Ok data => wrapped "failed to write autostart config: %w" (WriteFile w (autostartFilePath p id) data)
        end))
  end.

Definition GetAutoStart (p : PodmanProvider) (w : W) (id : string) : result AutoStartConfig :=
  match ValidateInstanceName id with
  | Some e => Err (invalid_id id e)
  | None =>
      match ReadFile w (autostartFilePath p id) with
      | Err e => if errors_Is e ErrNotExist
                 then Ok {| as_Enabled := false; as_Priority := defaultAutoStartPriority; as_DelayMS := 0 |}
                 else Err (Wrapf "failed to read autostart config: %w" [] e)
      | Ok data => match Unmarshal data with Ok c => Ok c | Err e => Err (Wrapf "failed to parse autostart config: %w" [] e) end
      end
  end.

(** Sorted by priority, then by name. *)
Definition autostart_le (a b : Z * string) : Prop := a.1 < b.1 \/ a.1 = b.1 /\ String.le a.2 b.2.
#[global] Instance autostart_le_dec a b : Decision (autostart_le a b).
Proof. unfold autostart_le. apply _. Defined.

Definition autostart_entry (p : PodmanProvider) (w : W) (e : DirEntry) : option (Z * string) :=
  if de_isdir e || negb (HasSuffix (de_name e) ".json") then None
  else let name := TrimSuffix (de_name e) ".json" in
       match GetAutoStart p w name with
       | Ok c => if as_Enabled c then Some (as_Priority c, name) else None
       | Err _ => None
       end.
Definition ListAutoStartInstances (p : PodmanProvider) (w : W) : result (list string) :=
  match ReadDir w (autostartDir p) with
  | Err e => if errors_Is e ErrNotExist then Ok [] else Err (Wrapf "failed to read autostart directory: %w" [] e)
  | Ok entries => Ok (map snd (merge_sort autostart_le (omap (autostart_entry p w) entries)))
  end.

(** ** Life cycle *)

(** Wraps the error of an operation, as the deferred [provider.WrapError] does. *)
Definition named_error (op id : string) (r : PodmanProvider * W * option error) : PodmanProvider * W * option error :=
  let '(p, w, e) := r in (p, w, WrapError podmanName op id e).

(** [autostart], [autostart_priority] and [autostart_delay] of the settings. *)
Definition requested_autostart (config : list (string * value)) : option AutoStartConfig :=
  match config_at "autostart" config with
  | Some (VBool true) =>
      Some {| as_Enabled := true;
              as_Priority := match config_at "autostart_priority" config with Some (VInt n) | Some (VInt64 n) => n | _ => 50 end;
              as_DelayMS := match config_at "autostart_delay" config with Some (VInt n) | Some (VInt64 n) => n | _ => 0 end |}
  | _ => None
  end.

(** What runs between the reservation of the name and its end. *)
Definition create_container (GOOS : string) (p : PodmanProvider) (w : W) (spec : InstanceSpec) : W * result (string * string) :=
  let image := Spec_Image spec in
  if streq image "" then (w, Err (Errorf "image is required" []))
  else match ValidateImageSource image with
  | Some e => (w, Err e)
  | None =>
      let image := normalizeImageName image in
      match buildCreateArgs cwd eval_links fraction_text marshal_strings (Spec_Name spec) image spec [] (wrap_int64 (Spec_CPUs spec * 1000000000)) (Spec_MemoryMB spec) with
      | Err e => (w, Err e)
      | Ok args =>
          match pullImageIfNeeded GOOS p w image with
          | (w, Some e) => (w, Err e)
          | (w, None) =>
              let '(w, x) := podman p w args in
              (w, match ex_err x with
                  | Some e => Err (Wrapf "failed to create container: %w (output: %s)" [ex_combined x] e)
                  | None => let id := extractContainerID (ex_combined x) in
                            if streq id "" then Err (Errorf "failed to get container ID from output: %s" [ex_combined x]) else Ok (id, image)
                  end)
          end
      end
  end.

Definition already_exists (name : string) : error := Errorf "container with name %s already exists" [name].

Definition CreateInstance (GOOS : string) (p : PodmanProvider) (w : W) (now : Z) (spec : InstanceSpec) : PodmanProvider * W * result InstanceHandle :=
  let name := Spec_Name spec in
  let fail p w e := (p, w, match WrapError podmanName "create" name (Some e) with Some e => Err e | None => Err e end) in
  match ValidateInstanceName name with
  | Some e => fail p w (Wrapf "invalid container name: %w" [] e)
  | None =>
      if reserved_name p name then fail p w (already_exists name)
      else
        let '(w, taken) := if bool_decide (is_Some (pp_instances p !! name)) then containerExists p w name else (w, false) in
        if taken then fail p w (already_exists name)
        else
          let p := set_instances p (<[name := placeholder name]> (pp_instances p)) in
          match create_container GOOS p w spec with
          | (w, Err e) => fail (if reserved_name p name then forgetInstance p name else p) w e
          | (w, Ok (id, image)) =>
              let p := set_instances p (<[name := {| ct_ID := id; ct_Name := name; ct_Image := image; ct_State := StateStopped; ct_CreatedAt := now;
                                                     ct_StartedAt := 0; ct_Labels := list_to_map (Spec_Labels spec) |}]> (pp_instances p)) in
              let w := match requested_autostart (Spec_ProviderConfig spec) with
                       | Some c => (SetAutoStart p w name c).1
                       | None => w
                       end in
              (p, w, Ok {| Handle_ID := name; Handle_Provider := podmanName;
                           Handle_Metadata := [("name", VString name); ("image", VString image)] |})
          end
  end.

Definition DeleteInstance (p : PodmanProvider) (w : W) (id : string) (force : bool) : PodmanProvider * W * option error :=
  named_error "delete" id
  match ValidateInstanceName id with
  | Some e => (p, w, Some (invalid_id id e))
  | None =>
      let w := if force then w else (podman p w ["stop"; id]).1 in
      let '(w, x) := podman p w (["rm"] ++ (if force then ["-f"] else []) ++ [id]) in
      match ex_err x with
      | Some e => if Contains (ex_combined x) "no such container" then (forgetInstance p id, w, None)
                  else (p, w, Some (Wrapf "failed to delete container: %w (output: %s)" [ex_combined x] e))
      | None => (forgetInstance p id, w, None)
      end
  end.

Definition StartInstance (p : PodmanProvider) (w : W) (now : Z) (id : string) : PodmanProvider * W * option error :=
  named_error "start" id
  match ValidateInstanceName id with
  | Some e => (p, w, Some (invalid_id id e))
  | None => match podman_run "failed to start container: %w (output: %s)" p w ["start"; id] with
            | (w, Some e) => (p, w, Some e)
            | (w, None) => (setInstanceState p id StateRunning (Some now), w, None)
            end
  end.

Definition StopInstance (p : PodmanProvider) (w : W) (id : string) (opts : StopOptions) : PodmanProvider * W * option error :=
  named_error "stop" id
  match ValidateInstanceName id with
  | Some e => (p, w, Some (invalid_id id e))
  | None =>
      let timeout := if Stop_Force opts then ["-t"; "0"]
                     else if 0 <? Stop_Timeout opts then ["-t"; Itoa (Stop_Timeout opts / 1000000000)] else [] in
      let '(w, x) := podman p w (["stop"] ++ timeout ++ [id]) in
      match ex_err x with
      | Some e => if Contains (ex_combined x) "already stopped" then (p, w, None)
                  else (p, w, Some (Wrapf "failed to stop container: %w (output: %s)" [ex_combined x] e))
      | None => (setInstanceState p id StateStopped None, w, None)
      end
  end.

Definition RestartInstance (p : PodmanProvider) (w : W) (now : Z) (id : string) : PodmanProvider * W * option error :=
  named_error "restart" id
  match ValidateInstanceName id with
  | Some e => (p, w, Some (invalid_id id e))
  | None => match podman_run "failed to restart container: %w (output: %s)" p w ["restart"; id] with
            | (w, Some e) => (p, w, Some e)
            | (w, None) => (setInstanceState p id StateRunning (Some now), w, None)
            end
  end.

Definition PauseInstance (p : PodmanProvider) (w : W) (id : string) : PodmanProvider * W * option error :=
  match ValidateInstanceName id with
  | Some e => (p, w, Some (invalid_id id e))
  | None => match podman_run "podman pause failed: %s: %w" p w ["pause"; id] with
            | (w, Some e) => (p, w, Some e)
            | (w, None) => (setInstanceState p id StatePaused None, w, None)
            end
  end.
Definition ResumeInstance (p : PodmanProvider) (w : W) (id : string) : PodmanProvider * W * option error :=
  match ValidateInstanceName id with
  | Some e => (p, w, Some (invalid_id id e))
  | None => match podman_run "podman unpause failed: %s: %w" p w ["unpause"; id] with
            | (w, Some e) => (p, w, Some e)
            | (w, None) => (setInstanceState p id StateRunning None, w, None)
            end
  end.

Definition podman_GetInstanceState (p : PodmanProvider) (w : W) (id : string) : W * string * option error :=
  match ValidateInstanceName id with
  | Some e => (w, "", Some (invalid_id id e))
  | None =>
      let '(w, x) := podman p w ["inspect"; "--format"; "{{.State.Status}}"; id] in
      match ex_err x with
      | Some e => (w, StateUnknown, Some e)
      | None => (w, status_state (TrimSpace (ex_stdout x)), None)
      end
  end.

Definition podman_RenameInstance (p : PodmanProvider) (w : W) (id newName : string) : PodmanProvider * W * option error :=
  match ValidateInstanceName newName with
  | Some e => (p, w, Some (Wrapf "invalid container name: %w" [] e))
  | None =>
      if existsb (fun e => streq (ct_Name e.2) newName) (map_to_list (pp_instances p)) then (p, w, Some (already_exists newName))
      else match podman_GetInstanceState p w id with
      | (w, _, Some e) => (p, w, Some (Wrapf "failed to get container state: %w" [] e))
      | (w, state, None) =>
          if negb (streq state StateStopped)
          then (p, w, Some (Errorf "container %s must be stopped before renaming (current state: %s)" [id; state]))
          else match podman_run "failed to rename container: %w: %s" p w ["rename"; id; newName] with
          | (w, Some e) => (p, w, Some e)
          | (w, None) =>
              (match pp_instances p !! id with
               | Some c => set_instances p (<[newName := {| ct_ID := ct_ID c; ct_Name := newName; ct_Image := ct_Image c; ct_State := ct_State c;
                                                            ct_CreatedAt := ct_CreatedAt c; ct_StartedAt := ct_StartedAt c;
                                                            ct_Labels := ct_Labels c |}]> (delete id (pp_instances p)))
               | None => p
               end, w, None)
          end
      end
  end.

Definition SetInstanceResources (p : PodmanProvider) (w : W) (id : string) (cpus memoryMB : Z) : W * option error :=
  match ValidateInstanceName id with
  | Some e => (w, Some (invalid_id id e))
  | None => podman_run "failed to update resources: %w (output: %s)" p w
              (["update"] ++ (if 0 <? cpus then ["--cpus"; Itoa cpus] else []) ++
               (if 0 <? memoryMB then ["--memory"; Itoa memoryMB +:+ "m"] else []) ++ [id])
  end.

Definition AttachNetwork (p : PodmanProvider) (w : W) (id network : string) : W * option error :=
  match ValidateInstanceName id with
  | Some e => (w, Some (invalid_id id e))
  | None => match ValidateInstanceName network with
            | Some e => (w, Some (Wrapf "invalid network name %q: %w" [network] e))
            | None => podman_run "failed to connect network: %w (output: %s)" p w ["network"; "connect"; network; id]
            end
  end.
Definition DetachNetwork (p : PodmanProvider) (w : W) (id network : string) : W * option error :=
  match ValidateInstanceName id with
  | Some e => (w, Some (invalid_id id e))
  | None => match ValidateInstanceName network with
            | Some e => (w, Some (Wrapf "invalid network name %q: %w" [network] e))
            | None => podman_run "failed to disconnect network %q: %w (output: %s)" p w ["network"; "disconnect"; network; id]
            end
  end.

Definition syncContainersLocked (p : PodmanProvider) (w : W) : PodmanProvider * W * option error :=
  let '(w, x) := podman p w ["ps"; "-a"; "--filter"; "label=hospitus.managed=true"; "--format";
                             "{{.ID}}\t{{.Names}}\t{{.Image}}\t{{.Status}}\t{{.Labels}}"] in
  match ex_err x with
  | Some e => (p, w, Some (Wrapf "podman ps failed: %w" [] e))
  | None => (set_instances p (synced (pp_instances p) (listed_containers (ex_stdout x))), w, None)
  end.

Record InstanceFilter := { if_States : list string; if_Labels : list (string * string) }.
Definition passes (f : InstanceFilter) (c : containerInfo) : bool :=
  (match if_States f with [] => true | l => existsb (streq (ct_State c)) l end) &&
  forallb (fun l => streq (default "" (ct_Labels c !! l.1)) l.2) (if_Labels f).
Definition podman_ListInstances (p : PodmanProvider) (w : W) (f : InstanceFilter) : PodmanProvider * W * result (list InstanceHandle) :=
  match syncContainersLocked p w with
  | (p, w, Some e) => (p, w, Err e)
  | (p, w, None) =>
      (p, w, Ok (omap (fun e : string * containerInfo =>
        if passes f e.2 then Some {| Handle_ID := e.1; Handle_Provider := podmanName;
                                     Handle_Metadata := [("name", VString (ct_Name e.2)); ("image", VString (ct_Image e.2))] |}
        else None) (map_to_list (pp_instances p))))
  end.

(** One container after the other, by priority; a failure does not stop the rest. *)
Fixpoint start_all (now : Z) (ids : list string) (p : PodmanProvider) (w : W) (last : option error) : PodmanProvider * W * option error :=
  match ids with
  | [] => (p, w, last)
  | id :: rest =>
      match GetAutoStart p w id with
      | Err e => start_all now rest p w (Some e)
      | Ok _ =>
          match podman_GetInstanceState p w id with
          | (w, state, err) =>
              if is_nil err && streq state StateRunning then start_all now rest p w last
              else match StartInstance p w now id with
                   | (p, w, Some e) => start_all now rest p w (Some (Wrapf "failed to auto-start container %s: %w" [id] e))
                   | (p, w, None) => start_all now rest p w last
                   end
          end
      end
  end.
Definition StartAutoStartInstances (p : PodmanProvider) (w : W) (now : Z) : PodmanProvider * W * option error :=
  match ListAutoStartInstances p w with
  | Err e => (p, w, Some (Wrapf "failed to list auto-start instances: %w" [] e))
  | Ok ids => start_all now ids p w None
  end.

Definition podman_Initialize (p : PodmanProvider) (w : W) (dataDir : string) : PodmanProvider * W * option error :=
  let bin := match LookPath w "podman" with
             | None => Ok "podman"
             | Some _ => match LookPath w "podman-remote" with None => Ok "podman-remote" | Some e => Err (Wrapf "podman not found: %w" [] e) end
             end in
  match bin with
  | Err e => ({| pp_bin := pp_bin p; pp_dataDir := dataDir; pp_instances := pp_instances p |}, w, Some e)
  | Ok bin =>
      let p := {| pp_bin := bin; pp_dataDir := dataDir; pp_instances := pp_instances p |} in
      let '(w, x) := podman p w ["version"; "--format"; "{{.Client.Version}}"] in
      match ex_err x with
      | Some e => (p, w, Some (Wrapf "podman not responding: %v, output: %s" [ex_combined x] e))
      | None =>
          if streq (ex_combined x) "" then (p, w, Some (Errorf "podman returned empty version" []))
          else match MakeDirs w (path_Join dataDir "podman") with
          | (w, Some e) => (p, w, Some (Wrapf "failed to create data directory: %w" [] e))
          | (w, None) => match syncContainersLocked p w with
                         | (p, w, Some _) => (set_instances p ∅, w, None)
                         | (p, w, None) => (p, w, None)
                         end
          end
      end
  end.
End ops.
