(* ===== verification/PodmanSnapshots.v ===== *)
(** * Inspection, clones, snapshots and exports of podman containers
      (podman.go, clone.go, snapshot.go, snapshot_guard.go, export.go, health.go, address.go)

    What the provider reads back of a container, and the operations that build a
    new container from an existing one.  Numbers of a decoded JSON text are whole
    numbers. *)

From stdpp Require Import base list gmap strings sorting.
From Stdlib Require Import Ascii ZArith Lia.
From S2P Require Import Prelude GoStrings GoText GoPath GoNet GoHttp Host Files Regexp Validation PathConfine ProviderTypes ManifestTypes InstanceStore Convert Podman PodmanOps.

Local Open Scope Z_scope.

(** ** Reading podman inspect *)

Definition bare_spec : InstanceSpec :=
  {| Spec_Name := ""; Spec_Description := ""; Spec_CPUs := 0; Spec_MemoryMB := 0; Spec_MaxProc := 0; Spec_ReadBPS := 0; Spec_WriteBPS := 0;
     Spec_ReadIOPS := 0; Spec_WriteIOPS := 0; Spec_Image := ""; Spec_OSType := ""; Spec_OSVersion := ""; Spec_Arch := ""; Spec_CloudInit := None;
     Spec_Bootloader := ""; Spec_Disks := []; Spec_Networks := []; Spec_ProviderConfig := []; Spec_Labels := []; Spec_Annotations := [] |}.
Definition bridge_network (type bridge : string) : NetworkSpec :=
  {| Net_ID := ""; Net_Type := type; Net_Bridge := bridge; Net_BridgeFlags := []; Net_VLAN := 0; Net_MAC := ""; Net_IPv4 := ""; Net_IPv6 := "";
     Net_IPPool := ""; Net_MTU := 0 |}.

(** A number; [n > 0]. *)
Definition positive_at (k : string) (m : list (string * value)) : option Z :=
  match config_at k m with Some (VInt n) => if 0 <? n then Some n else None | _ => None end.

Definition env_vars (env : list string) : gmap string value :=
  foldl (fun m kv => match Cut kv "=" with
                     | Some (k, v) => if streq k "" then m else <[k := VString v]> m
                     | None => m
                     end) ∅ env.
Definition text_labels (raw : list (string * value)) : list (string * string) :=
  omap (fun e => match e.2 with VString s => Some (e.1, s) | _ => None end) raw.

Definition inspected_state (data : list (string * value)) : string :=
  match map_at "State" data with
  | Some state => match text_at "Status" state with
                  | Some status => if streq status "running" then StateRunning else if streq status "paused" then StatePaused else StateStopped
                  | None => ""
                  end
  | None => ""
  end.

(** The settings a container carries: its environment, command, entry point,
    volumes, ports and namespace mode. *)
Definition texts (l : list string) : value := VSlice (map VString l).
Definition config_settings (config : list (string * value)) (c : settings) : settings :=
  let vars := env_vars (stringSlice (config_at "Env" config)) in
  let c := put_if (bool_decide (vars <> ∅)) "environment" (VMap (map_to_list vars)) c in
  let cmd := stringSlice (config_at "Cmd" config) in
  let c := put_if (negb (is_empty cmd)) "command" (texts cmd) c in
  let entrypoint := stringSlice (config_at "Entrypoint" config) in
  put_if (negb (is_empty entrypoint)) "entrypoint" (texts entrypoint) c.
Definition host_settings (host : list (string * value)) (c : settings) : settings :=
  let binds := stringSlice (config_at "Binds" host) in
  let c := put_if (negb (is_empty binds)) "volumes" (texts binds) c in
  let ports := publishedPortSpecs (config_at "PortBindings" host) in
  let c := put_if (negb (is_empty ports)) "ports" (texts ports) c in
  match text_at "NetworkMode" host with
  | Some mode => put_if (negb (streq mode "none") && isPodmanNamespaceMode mode) "network_mode" (VString mode) c
  | None => c
  end.

Definition inspected_spec (cached : option string) (data : list (string * value)) : InstanceSpec :=
  let config := default [] (map_at "Config" data) in
  let host := default [] (map_at "HostConfig" data) in
  let networks := match map_at "NetworkSettings" data with
                  | Some s => map (bridge_network "bridge") (sort_strings (map fst (default [] (map_at "Networks" s))))
                  | None => []
                  end in
  let isolated := match text_at "NetworkMode" host with Some "none" => [bridge_network "none" ""] | _ => [] end in
  {| Spec_Name := default (default "" (text_at "Hostname" config)) cached; Spec_Description := "";
     Spec_CPUs := match positive_at "NanoCpus" host with
                  | Some nano => let cpus := nano / 1000000000 in if 0 <? cpus then cpus else 1
                  | None => 0
                  end;
     Spec_MemoryMB := match positive_at "Memory" host with Some mem => mem / (1024 * 1024) | None => 0 end;
     Spec_MaxProc := 0; Spec_ReadBPS := 0; Spec_WriteBPS := 0; Spec_ReadIOPS := 0; Spec_WriteIOPS := 0;
     Spec_Image := default "" (text_at "Image" config); Spec_OSType := ""; Spec_OSVersion := ""; Spec_Arch := ""; Spec_CloudInit := None;
     Spec_Bootloader := ""; Spec_Disks := []; Spec_Networks := isolated ++ networks;
     Spec_ProviderConfig := map_to_list (host_settings host (config_settings config ∅));
     Spec_Labels := text_labels (default [] (map_at "Labels" config)); Spec_Annotations := [] |}.

Record podman_info := { pi_State : string; pi_Spec : InstanceSpec }.

(** ** What the image itself carries *)

Definition with_settings (spec : InstanceSpec) (c : list (string * value)) : InstanceSpec :=
  {| Spec_Name := Spec_Name spec; Spec_Description := Spec_Description spec; Spec_CPUs := Spec_CPUs spec; Spec_MemoryMB := Spec_MemoryMB spec;
     Spec_MaxProc := Spec_MaxProc spec; Spec_ReadBPS := Spec_ReadBPS spec; Spec_WriteBPS := Spec_WriteBPS spec;
     Spec_ReadIOPS := Spec_ReadIOPS spec; Spec_WriteIOPS := Spec_WriteIOPS spec; Spec_Image := Spec_Image spec; Spec_OSType := Spec_OSType spec;
     Spec_OSVersion := Spec_OSVersion spec; Spec_Arch := Spec_Arch spec; Spec_CloudInit := Spec_CloudInit spec;
     Spec_Bootloader := Spec_Bootloader spec; Spec_Disks := Spec_Disks spec; Spec_Networks := Spec_Networks spec; Spec_ProviderConfig := c;
     Spec_Labels := Spec_Labels spec; Spec_Annotations := Spec_Annotations spec |}.

(** [delete] and assignment on a [map[string]interface{}]. *)
Definition without_key (k : string) (c : list (string * value)) : list (string * value) := List.filter (fun e => negb (streq e.1 k)) c.
Definition set_key (k : string) (v : value) (c : list (string * value)) : list (string * value) := (k, v) :: without_key k c.

Section recreate.
Context (fraction_text : result string).

Definition from_image (imageEnv : list string) (e : string * value) : bool :=
  match envValue fraction_text e.2 with
  | Ok s => existsb (streq (e.1 +:+ "=" +:+ s)) imageEnv
  | Err _ => false
  end.
Definition drop_image_env (imageEnv : list string) (c : list (string * value)) : list (string * value) :=
  match map_at "environment" c with
  | Some (_ :: _ as vars) =>
      match List.filter (fun e => negb (from_image imageEnv e)) vars with
      | [] => without_key "environment" c
      | kept => set_key "environment" (VMap kept) c
      end
  | _ => c
  end.
Definition drop_image_argv (key : string) (fromImage : list string) (c : list (string * value)) : list (string * value) :=
  match slice_at key c with
  | Some (_ :: _ as argv) =>
      if bool_decide (map (fun a => match a with VString s => s | _ => "" end) argv = fromImage) then without_key key c else c
  | _ => c
  end.
Definition without_image_defaults (imageEnv imageCmd imageEntrypoint : list string) (c : list (string * value)) : list (string * value) :=
  match imageEnv, imageCmd, imageEntrypoint with
  | [], [], [] => c
  | _, _, _ => drop_image_argv "entrypoint" imageEntrypoint (drop_image_argv "command" imageCmd (drop_image_env imageEnv c))
  end.
End recreate.

(** ** Snapshots *)

Definition snapshotPrefix : string := "hospitus-snapshot-".
Definition snapshotContainerLabel : string := "hospitus.snapshot.container".
Definition snapshotNameLabel : string := "hospitus.snapshot.name".
Definition commitArgs (container image snapshot : string) : list string :=
  ["commit"; "--pause=false"; "--format"; "oci"; "--change"; "LABEL " +:+ snapshotContainerLabel +:+ "=" +:+ container;
   "--change"; "LABEL " +:+ snapshotNameLabel +:+ "=" +:+ snapshot; container; image].
Definition snapshotNameFromLabels (labels : list (string * string)) (containerName : string) : option string :=
  if negb (streq (default "" (ManifestTypes.assoc snapshotContainerLabel labels)) containerName) then None
  else let name := default "" (ManifestTypes.assoc snapshotNameLabel labels) in if streq name "" then None else Some name.
Definition containerLabels (data : list (string * value)) : list (string * string) :=
  text_labels (default [] (map_at "Labels" (default [] (map_at "Config" data)))).

(** The code of an [*exec.ExitError] of the chain. *)
Fixpoint exit_code (e : error) : option string :=
  match e with
  | Typed "*exec.ExitError" (code :: _) _ => Some code
  | Typed _ _ e' | Wrapf _ _ e' => exit_code e'
  | Joined es => head (omap exit_code es)
  | _ => None
  end.

Record SnapshotHandle := { sh_ID : string; sh_Instance : string; sh_Metadata : list (string * value) }.
Record SnapshotInfo := { si_Handle : SnapshotHandle; si_Name : string; si_CreatedAt : Z; si_SizeMB : Z }.
(** What podman reads of the options. *)
Record CloneOptions := { co_LinkedClone : bool; co_CPUs : Z; co_MemoryMB : Z; co_Labels : list (string * string) }.

Definition imageIDPattern : re := let hex := Cls (fun c => between "0" "9" c || between "a" "f" c) in Seq (Times 12 hex) (UpTo 52 hex).
Definition bareImageName (image : string) : string :=
  let image := match CutLast image "/" with Some (_, rest) => rest | None => image end in
  match CutLast image ":" with Some (name, _) => if streq name "" then image else name | None => image end.

Definition snapshotImageFor (s : SnapshotHandle) : result string :=
  match text_at "imageName" (sh_Metadata s) with
  | Some (String _ _ as imageName) =>
      match ValidateInstanceName (sh_Instance s) with
      | Some e => Err (Wrapf "invalid snapshot instance %q: %w" [sh_Instance s] e)
      | None => if HasPrefix (bareImageName imageName) (snapshotPrefix +:+ sh_Instance s +:+ "-") then Ok imageName
                else Err (Errorf "image %s is not a snapshot of the instance %q it is presented for" [imageName; sh_Instance s])
      end
  | _ =>
      if streq (sh_ID s) "" then Err (Errorf "invalid snapshot metadata: missing imageName" [])
      else if negb (MatchString imageIDPattern (sh_ID s)) then Err (Errorf "refusing snapshot id %q: not an image id" [sh_ID s])
      else match ValidateInstanceName (sh_Instance s) with
           | Some e => Err (Wrapf "invalid snapshot instance %q: %w" [sh_Instance s] e)
           | None => Ok (sh_ID s)
           end
  end.
Definition snapshotContainerFor (s : SnapshotHandle) : result string :=
  match text_at "container" (sh_Metadata s) with
  | Some (String _ _ as containerName) =>
      match ValidateInstanceName containerName with
      | Some e => Err (Wrapf "invalid container name %q: %w" [containerName] e)
      | None => if negb (streq (sh_Instance s) "") && negb (streq containerName (sh_Instance s))
                then Err (Errorf "snapshot names container %s but is presented for %q" [containerName; sh_Instance s])
                else Ok containerName
      end
  | _ => Err (Errorf "invalid snapshot metadata: missing container name" [])
  end.

(** ** Decoded answers *)

Record inspect_record := {
  ir_Id : string; ir_Created : string; ir_Image : string; ir_Status : string; ir_StartedAt : string; ir_Labels : list (string * string)
}.
Record limits_record := { lr_NanoCpus : Z; lr_Memory : Z }.
Record image_record := { im_Id : string; im_Names : list string; im_Created : Z; im_Size : Z; im_Labels : list (string * string) }.
Record podmanNetworkSettings := { ns_IPAddress : string; ns_GlobalIPv6Address : string; ns_Networks : list (string * (string * string)) }.

Section ops.
Context {W : Type} `{Host W} `{FileOps W} `{Json AutoStartConfig} `{Json (list (list (string * value)))}.
Context `{Json (list inspect_record)} `{Json (list limits_record)} `{Json (list image_record)} `{Json podmanNetworkSettings}.
Context (cwd : path) (eval_links : path -> result path) (fraction_text : result string) (marshal_strings : list string -> result string).
(** [err.Error()], and [time.Parse]: the zero time where the text is no time. *)
Context (error_text : error -> string) (parse_time : string -> Z).

Definition imageDefaults (p : PodmanProvider) (w : W) (image : string) : W * (list string * list string * list string) :=
  if streq image "" then (w, ([], [], []))
  else let '(w, x) := podman p w ["image"; "inspect"; image] in
       (w, match ex_err x with
           | Some _ => ([], [], [])
           | None => match Unmarshal (A := list (list (string * value))) (ex_stdout x) with
                     | Ok (first :: _) =>
                         match map_at "Config" first with
                         | Some config => (stringSlice (config_at "Env" config), stringSlice (config_at "Cmd" config),
                                           stringSlice (config_at "Entrypoint" config))
                         | None => ([], [], [])
                         end
                     | _ => ([], [], [])
                     end
           end).

Definition recreateSpec (p : PodmanProvider) (w : W) (spec : InstanceSpec) : W * InstanceSpec :=
  let '(w, (env, cmd, entrypoint)) := imageDefaults p w (Spec_Image spec) in
  (w, with_settings spec (without_image_defaults fraction_text env cmd entrypoint (Spec_ProviderConfig spec))).

Definition podman_GetInstanceInfo (p : PodmanProvider) (w : W) (id : string) : W * result podman_info :=
  match ValidateInstanceName id with
  | Some e => (w, Err (invalid_id id e))
  | None =>
      let '(w, x) := podman p w ["inspect"; id] in
      (w, match ex_err x with
          | Some e => Err (Wrapf "failed to inspect container: %w" [] e)
          | None => match Unmarshal (A := list (list (string * value))) (ex_stdout x) with
                    | Err e => Err (Wrapf "failed to parse inspect output: %w" [] e)
                    | Ok [] => Err (Errorf "no container data found" [])
                    | Ok (data :: _) => Ok {| pi_State := inspected_state data;
                                              pi_Spec := inspected_spec (ct_Name <$> pp_instances p !! id) data |}
                    end
          end)
  end.

Definition refreshContainerInfo (p : PodmanProvider) (w : W) (containerName : string) : PodmanProvider * W * option error :=
  let '(w, x) := podman p w ["inspect"; "--format"; "json"; containerName] in
  match ex_err x with
  | Some e => (p, w, Some (Wrapf "failed to inspect container: %w" [] e))
  | None =>
      match Unmarshal (A := list inspect_record) (ex_stdout x) with
      | Err e => (p, w, Some (Wrapf "failed to parse container info: %w" [] e))
      | Ok [] => (p, w, Some (Errorf "container not found" []))
      | Ok (data :: _) =>
          let state := if streq (ir_Status data) "running" then StateRunning else if streq (ir_Status data) "paused" then StatePaused else StateStopped in
          (set_instances p (<[containerName := {| ct_ID := ir_Id data; ct_Name := containerName; ct_Image := ir_Image data; ct_State := state;
                                                  ct_CreatedAt := parse_time (ir_Created data); ct_StartedAt := parse_time (ir_StartedAt data);
                                                  ct_Labels := list_to_map (ir_Labels data) |}]> (pp_instances p)), w, None)
      end
  end.

(** ** Clones *)

Definition containerResourceLimits (p : PodmanProvider) (w : W) (containerName : string) : W * (Z * Z) :=
  let '(w, x) := podman p w ["inspect"; "--format"; "json"; containerName] in
  (w, match ex_err x, Unmarshal (A := list limits_record) (ex_stdout x) with
      | None, Ok (host :: _) => (if 0 <? lr_NanoCpus host then lr_NanoCpus host else 0,
                                 if 0 <? lr_Memory host then lr_Memory host / (1024 * 1024) else 0)
      | _, _ => (0, 0)
      end).

(** From the creation on, every failure removes the container again. *)
Definition createClone (p : PodmanProvider) (w : W) (cloneName image : string) (spec : InstanceSpec) (limitsFrom : string) (opts : CloneOptions)
    : PodmanProvider * W * option error :=
  let '(w, (nanoCPUs, memoryMB)) := containerResourceLimits p w limitsFrom in
  let nanoCPUs := if 0 <? co_CPUs opts then wrap_int64 (co_CPUs opts * 1000000000) else nanoCPUs in
  let memoryMB := if 0 <? co_MemoryMB opts then co_MemoryMB opts else memoryMB in
  match buildCreateArgs cwd eval_links fraction_text marshal_strings cloneName image spec (co_Labels opts) nanoCPUs memoryMB with
  | Err e => (p, w, Some e)
  | Ok args =>
      let '(w, x) := podman p w args in
      match ex_err x with
      | Some e => (p, w, Some (Wrapf "failed to create clone container: %w: %s" [ex_combined x] e))
      | None =>
          let rollback w := (podman p w ["rm"; "--force"; cloneName]).1 in
          if streq (extractContainerID (ex_combined x)) ""
          then (p, rollback w, Some (Errorf "failed to get clone container ID from output: %s" [ex_combined x]))
          else match refreshContainerInfo p w cloneName with
               | (p, w, Some e) => (p, rollback w, Some (Wrapf "failed to refresh clone container info: %w" [] e))
               | (p, w, None) => (p, w, None)
               end
      end
  end.

Definition clone_handle (cloneName image from : string) (linked : bool) : InstanceHandle :=
  {| Handle_ID := cloneName; Handle_Provider := podmanName;
     Handle_Metadata := [("name", VString cloneName); ("image", VString image)] ++
                        (if linked then [("linked_clone", VBool true); ("clone_of", VString from)] else []) |}.

(** [now] names the image of the clone, which is removed unless a clone uses it. *)
Definition CloneInstance (p : PodmanProvider) (w : W) (now : Z) (source cloneName : string) (opts : CloneOptions)
    : PodmanProvider * W * result InstanceHandle :=
  match ValidateInstanceName cloneName with
  | Some e => (p, w, Err (Wrapf "invalid clone name: %w" [] e))
  | None =>
  match ValidateInstanceName source with
  | Some e => (p, w, Err (Wrapf "invalid source name: %w" [] e))
  | None =>
      match containerExists p w source with
      | (w, false) => (p, w, Err (Errorf "source container %s not found" [source]))
      | (w, true) =>
          let cloneImage := "hospitus-clone-" +:+ cloneName +:+ "-" +:+ Itoa now in
          let change := if co_LinkedClone opts then ["--change"; "LABEL hospitus.clone=true"] else [] in
          match podman_run "failed to commit source container: %w: %s" p w (["commit"; "--pause=false"] ++ change ++ [source; cloneImage]) with
          | (w, Some e) => (p, w, Err e)
          | (w, None) =>
              let unused w := (podman p w ["rmi"; "--force"; cloneImage]).1 in
              match podman_GetInstanceInfo p w source with
              | (w, Err e) => (p, unused w, Err (Wrapf "failed to get source container info: %w" [] e))
              | (w, Ok info) =>
                  let '(w, spec) := recreateSpec p w (pi_Spec info) in
                  match createClone p w cloneName cloneImage spec source opts with
                  | (p, w, Some e) => (p, unused w, Err e)
                  | (p, w, None) => (p, w, Ok (clone_handle cloneName cloneImage source (co_LinkedClone opts)))
                  end
              end
          end
      end
  end end.

(** ** Snapshots *)

(** The two labels of the image name the container and a snapshot. *)
Definition imageIsSnapshotOf (p : PodmanProvider) (w : W) (image instance : string) : W * option error :=
  let '(w, x) := podman p w ["inspect"; "--type"; "image"; "--format";
                             "{{index .Config.Labels " +:+ Quote snapshotContainerLabel +:+ "}}" +:+ String "009" ("{{index .Config.Labels " +:+
                             Quote snapshotNameLabel +:+ "}}"); image] in
  (w, match ex_err x with
      | Some e => Some (Wrapf "cannot inspect image %s: %w" [image] e)
      | None =>
          let text := TrimSpace (ex_stdout x) in
          let '(container, name) := default (text, "") (Cut text "009") in
          if negb (streq container instance) || streq name "" then Some (Errorf "image %s is not a Hospitus snapshot of %q" [image; instance]) else None
      end).

Definition isPodmanImageAbsent (e : error) : bool :=
  match exit_code e with
  | Some code => streq code "1"
  | None => Contains (error_text e) "image not known"
  end.

Definition CreateSnapshot (p : PodmanProvider) (w : W) (id name : string) : W * result SnapshotHandle :=
  match ValidateInstanceName id with
  | Some e => (w, Err (invalid_id id e))
  | None =>
      match containerExists p w id with
      | (w, false) => (w, Err (Errorf "container %s not found" [id]))
      | (w, true) =>
          match ValidateSnapshotName name with
          | Some e => (w, Err (Wrapf "invalid snapshot name: %w" [] e))
          | None =>
              let imageName := snapshotPrefix +:+ id +:+ "-" +:+ name in
              let '(w, x) := podman p w ["image"; "exists"; imageName] in
              match ex_err x with
              | None => (w, Err (Errorf "snapshot %q already exists for %s" [name; id]))
              | Some e =>
                  if negb (isPodmanImageAbsent e) then (w, Err (Wrapf "cannot tell whether snapshot %q exists: %w" [name] e))
                  else let '(w, x) := podman p w (commitArgs id imageName name) in
                       match ex_err x with
                       | Some e => (w, Err (Wrapf "failed to create snapshot: %w" [] e))
                       | None => (w, Ok {| sh_ID := TrimSpace (ex_stdout x); sh_Instance := id;
                                           sh_Metadata := [("name", VString name); ("imageName", VString imageName); ("container", VString id)] |})
                       end
              end
          end
      end
  end.

Definition DeleteSnapshot (p : PodmanProvider) (w : W) (s : SnapshotHandle) : W * option error :=
  match snapshotImageFor s with
  | Err e => (w, Some e)
  | Ok image =>
      match imageIsSnapshotOf p w image (sh_Instance s) with
      | (w, Some e) => (w, Some e)
      | (w, None) =>
          let '(w, x) := podman p w ["rmi"; "--force"; image] in
          (w, match ex_err x with
              | Some e => if Contains (ex_combined x) "image not known" then None
                          else Some (Wrapf "failed to delete snapshot: %w: %s" [ex_combined x] e)
              | None => None
              end)
      end
  end.

Definition backup_name (containerName : string) : string := containerName +:+ ".restore-bak".

(** The old container is set aside under another name while the new one is made. *)
Definition replace_container (p : PodmanProvider) (w : W) (containerName imageName : string) (data : list (string * value))
    : PodmanProvider * W * option error :=
  let backupName := backup_name containerName in
  let w := (podman p w ["rm"; "--force"; backupName]).1 in
  match podman_run "failed to set aside old container: %w: %s" p w ["rename"; containerName; backupName] with
  | (w, Some e) => (p, w, Some e)
  | (w, None) =>
      let labels := flat_map (fun l : string * string => ["--label"; l.1 +:+ "=" +:+ l.2]) (containerLabels data) in
      let '(w, x) := podman p w (["create"; "--name"; containerName] ++ labels ++ [imageName]) in
      match ex_err x with
      | Some e =>
          let '(w, rb) := podman p w ["rename"; backupName; containerName] in
          (p, w, Some (match ex_err rb with
                       | Some _ => Wrapf "failed to create container from snapshot: %w: %s; the original is still set aside as %s" [ex_combined x; backupName] e
                       | None => Wrapf "failed to create container from snapshot (rolled back): %w: %s" [ex_combined x] e
                       end))
      | None =>
          let w := (podman p w ["rm"; "--force"; backupName]).1 in
          match refreshContainerInfo p w containerName with
          | (p, w, Some e) => (p, w, Some (Wrapf "failed to refresh container info: %w" [] e))
          | (p, w, None) => (p, w, None)
          end
      end
  end.

Definition RestoreSnapshot (p : PodmanProvider) (w : W) (id : string) (s : SnapshotHandle) : PodmanProvider * W * option error :=
  match ValidateInstanceName id with
  | Some e => (p, w, Some (invalid_id id e))
  | None =>
  match snapshotImageFor s with
  | Err e => (p, w, Some e)
  | Ok imageName =>
      if negb (streq (sh_Instance s) id)
      then (p, w, Some (Errorf "snapshot belongs to %q and cannot be restored onto %q" [sh_Instance s; id]))
      else match imageIsSnapshotOf p w imageName (sh_Instance s) with
      | (w, Some e) => (p, w, Some e)
      | (w, None) =>
      match containerExists p w id with
      | (w, false) => (p, w, Some (Errorf "container %s not found" [id]))
      | (w, true) =>
      match podman_GetInstanceState p w id with
      | (w, _, Some e) => (p, w, Some (Wrapf "failed to get container state: %w" [] e))
      | (w, state, None) =>
          let stop := if streq state StateRunning || streq state StatePaused
                      then podman_run "failed to stop container: %w: %s" p w ["stop"; id] else (w, None) in
          match stop with
          | (w, Some e) => (p, w, Some e)
          | (w, None) =>
              let '(w, x) := podman p w ["inspect"; "--format"; "json"; id] in
              match ex_err x with
              | Some e => (p, w, Some (Wrapf "failed to inspect container: %w" [] e))
              | None => match Unmarshal (A := list (list (string * value))) (ex_stdout x) with
                        | Err e => (p, w, Some (Wrapf "failed to parse container info: %w" [] e))
                        | Ok [] => (p, w, Some (Errorf "no container info found" []))
                        | Ok (data :: _) => replace_container p w id imageName data
                        end
              end
          end
      end end end
  end end.

Definition snapshot_info (containerName : string) (img : image_record) : option SnapshotInfo :=
  name ← snapshotNameFromLabels (im_Labels img) containerName;
  Some {| si_Handle := {| sh_ID := im_Id img; sh_Instance := containerName;
                          sh_Metadata := [("name", VString name); ("imageName", VString (default "" (head (im_Names img))));
                                          ("container", VString containerName)] |};
          si_Name := name; si_CreatedAt := im_Created img; si_SizeMB := Z.quot (im_Size img) (1024 * 1024) |}.
Definition podman_ListSnapshots (p : PodmanProvider) (w : W) (id : string) : W * result (list SnapshotInfo) :=
  match ValidateInstanceName id with
  | Some e => (w, Err (invalid_id id e))
  | None =>
      let '(w, x) := podman p w ["images"; "--format"; "json"; "--filter"; "label=" +:+ snapshotContainerLabel +:+ "=" +:+ id] in
      (w, match ex_err x with
          | Some e => Err (Wrapf "failed to list snapshots: %w" [] e)
          | None =>
              if streq (ex_stdout x) "" || streq (ex_stdout x) ("null" +:+ String newline EmptyString) || streq (ex_stdout x) ("[]" +:+ String newline EmptyString) then Ok []
              else match Unmarshal (A := list image_record) (ex_stdout x) with
                   | Err e => Err (Wrapf "failed to parse images: %w" [] e)
                   | Ok images => Ok (omap (snapshot_info id) images)
                   end
          end)
  end.

Definition CloneFromSnapshot (p : PodmanProvider) (w : W) (s : SnapshotHandle) (cloneName : string) (opts : CloneOptions)
    : PodmanProvider * W * result InstanceHandle :=
  match ValidateInstanceName cloneName with
  | Some e => (p, w, Err (Wrapf "invalid clone name: %w" [] e))
  | None =>
  match snapshotContainerFor s with
  | Err e => (p, w, Err e)
  | Ok containerName =>
  match snapshotImageFor s with
  | Err e => (p, w, Err e)
  | Ok imageName =>
  match imageIsSnapshotOf p w imageName (sh_Instance s) with
  | (w, Some e) => (p, w, Err e)
  | (w, None) =>
      let '(w, x) := podman p w ["image"; "exists"; imageName] in
      match ex_err x with
      | Some _ => (p, w, Err (Errorf "snapshot image %s not found" [imageName]))
      | None =>
          let '(w, spec) := match podman_GetInstanceInfo p w containerName with
                            | (w, Ok info) => recreateSpec p w (pi_Spec info)
                            | (w, Err _) => (w, bare_spec)
                            end in
          match createClone p w cloneName imageName spec containerName opts with
          | (p, w, Some e) => (p, w, Err e)
          | (p, w, None) => (p, w, Ok (clone_handle cloneName imageName (sh_Instance s) (co_LinkedClone opts)))
          end
      end
  end end end end.

(** ** Health *)

(** The texts that explain a status, and the time, apart. *)
Inductive HealthStatus := HealthStatusHealthy | HealthStatusUnhealthy | HealthStatusDegraded | HealthStatusUnknown.
Record HealthCheck := { hk_Name : string; hk_Status : HealthStatus }.
Record InstanceHealth := { ih_Status : HealthStatus; ih_Checks : list HealthCheck }.

Definition healthcheckConfigured (raw : string) : bool := negb (existsb (streq (TrimSpace raw)) ["<nil>"; ""; "[]"; "{}"]).
Definition hasHealthCheck (p : PodmanProvider) (w : W) (containerName : string) : W * result bool :=
  let '(w, x) := podman p w ["inspect"; "--format"; "{{.Config.Healthcheck}}"; containerName] in
  (w, match ex_err x with
      | Some e => Err (Wrapf "inspecting %s for a healthcheck: %w" [containerName] e)
      | None => Ok (healthcheckConfigured (ex_stdout x))
      end).
Definition getHealthCheckStatus (p : PodmanProvider) (w : W) (containerName : string) : W * result string :=
  let '(w, x) := podman p w ["inspect"; "--format"; "json"; containerName] in
  (w, match ex_err x with
      | Some e => Err (Wrapf "failed to inspect container: %w" [] e)
      | None => match Unmarshal (A := list (list (string * value))) (ex_stdout x) with
                | Err e => Err (Wrapf "failed to parse inspect output: %w" [] e)
                | Ok [] => Err (Errorf "no container data found" [])
                | Ok (data :: _) =>
                    match map_at "State" data with
                    | None => Err (Errorf "no state data found" [])
                    | Some state => match map_at "Health" state with
                                    | None => Err (Errorf "no health data found" [])
                                    | Some health => match text_at "Status" health with
                                                     | None => Err (Errorf "no health status found" [])
                                                     | Some s => Ok s
                                                     end
                                    end
                    end
                end
      end).
Definition reported_health (status : string) : HealthStatus :=
  if streq status "healthy" then HealthStatusHealthy
  else if streq status "unhealthy" then HealthStatusUnhealthy
  else if streq status "starting" then HealthStatusDegraded else HealthStatusUnknown.

Definition CheckInstanceHealth (p : PodmanProvider) (w : W) (id : string) : W * result InstanceHealth :=
  match ValidateInstanceName id with
  | Some e => (w, Err (invalid_id id e))
  | None =>
      match podman_GetInstanceState p w id with
      | (w, _, Some _) => (w, Ok {| ih_Status := HealthStatusUnknown; ih_Checks := [{| hk_Name := "container_running"; hk_Status := HealthStatusUnknown |}] |})
      | (w, state, None) =>
          if negb (streq state StateRunning)
          then (w, Ok {| ih_Status := HealthStatusUnhealthy; ih_Checks := [{| hk_Name := "container_running"; hk_Status := HealthStatusUnhealthy |}] |})
          else
            let running := {| hk_Name := "container_running"; hk_Status := HealthStatusHealthy |} in
            let result s overall := Ok {| ih_Status := overall; ih_Checks := [running; {| hk_Name := "healthcheck"; hk_Status := s |}] |} in
            match hasHealthCheck p w id with
            | (w, Err _) => (w, result HealthStatusUnknown HealthStatusUnknown)
            | (w, Ok false) => (w, result HealthStatusUnknown HealthStatusHealthy)
            | (w, Ok true) =>
                let '(w, r) := getHealthCheckStatus p w id in
                let s := match r with Err _ => HealthStatusUnknown | Ok status => reported_health status end in
                (w, result s s)
            end
      end
  end.

(** ** Addresses *)

(** The addresses in the order they are met, each once; the networks of the map
    are visited in some order. *)
Definition add_address (acc : list string) (s : string) : list string :=
  if streq s "" || existsb (streq s) acc then acc else match ParseIP s with Some _ => acc ++ [s] | None => acc end.
Definition InstanceAddresses (p : PodmanProvider) (w : W) (id : string) : W * result (list string) :=
  match ValidateInstanceName id with
  | Some e => (w, Err (invalid_id id e))
  | None =>
      let '(w, x) := podman p w ["inspect"; id; "--format"; "{{json .NetworkSettings}}"] in
      (w, match ex_err x with
          | Some e => Err (Wrapf "failed to inspect container %s: %w" [id] e)
          | None => match Unmarshal (A := podmanNetworkSettings) (ex_stdout x) with
                    | Err e => Err (Wrapf "failed to parse network settings for %s: %w" [id] e)
                    | Ok s => Ok (foldl add_address [] ([ns_IPAddress s; ns_GlobalIPv6Address s] ++
                                                        flat_map (fun n => [n.2.1; n.2.2]) (ns_Networks s)))
                    end
          end)
  end.
End ops.
