(* ===== verification/PodmanFacts.v ===== *)
(** * Facts about the podman provider

    What a manifest's settings become on podman; the cache and the reservation of
    names; a restored snapshot never loses the container it replaces; a recreated
    container keeps its environment. *)

From stdpp Require Import base list gmap strings sets.
From Stdlib Require Import Ascii ZArith Lia Floats.SpecFloat.
From S2P Require Import Prelude GoStrings GoText GoPath GoHttp Host Files Regexp Validation ValidationFacts PathConfine ProviderTypes ManifestTypes ManifestParse InstanceStore CloudInit Convert ConvertFacts Podman PodmanOps PodmanSnapshots.

Local Open Scope Z_scope.

(** ** Settings of a manifest *)

(** A value podman does not look at under its key: a slice, a map or a flag of
    another type than the one it asserts. *)
Definition blind (k : string) (v : value) : Prop :=
  match v with
  | VSlice _ => k <> "volumes" /\ k <> "mounts" /\ k <> "command"
  | VMap _ => k <> "environment"
  | VBool _ => k <> "autostart"
  | _ => True
  end.

Lemma put_if_blind b k v c : blind k v -> map_Forall blind c -> map_Forall blind (put_if b k v c).
Proof. intros Hv Hc. destruct b; simpl; [|done]. by apply map_Forall_insert_2. Qed.
Lemma put_text_blind k s c : map_Forall blind c -> map_Forall blind (put_text k s c).
Proof. by apply put_if_blind. Qed.
Lemma put_strings_blind k l c : map_Forall blind c -> map_Forall blind (put_strings k l c).
Proof. by apply put_if_blind. Qed.

Lemma override_blind o : PV_Parameters o = [] -> map_Forall blind (stack_override ∅ o).
Proof. intros Hp. unfold stack_override, copy_parameters. rewrite Hp. cbv zeta. simpl. repeat first [apply put_strings_blind|apply put_text_blind]. apply map_Forall_empty. Qed.
Lemma zfs_blind vols c : map_Forall blind c -> map_Forall blind (foldl add_zfs c vols).
Proof.
  revert c. induction vols as [|v vols IH]; intros c Hc; simpl; [done|]. apply IH. unfold add_zfs. destruct (Vol_ZFS v); [|done].
  apply put_if_blind; [|done]. simpl. by destruct (Vol_Name v).
Qed.
Lemma storage_blind c storage nets : map_Forall blind c -> map_Forall blind (addStorageAndPortConfig c storage nets).
Proof. intros Hc. unfold addStorageAndPortConfig. cbv zeta. apply put_if_blind, zfs_blind, put_if_blind; done. Qed.
Lemma lifecycle_blind c l : map_Forall blind c -> map_Forall blind (addLifecycleExtras (add_hooks (add_autostart c l) l) l).
Proof.
  intros Hc. unfold addLifecycleExtras, add_hooks, add_autostart. cbv zeta.
  destruct (HealthCheck_ l), (Hooks l), (Autostart l); repeat apply put_if_blind; done.
Qed.

Definition no_parameters (inst : InstanceConfig) : Prop :=
  forall o, assoc (Inst_Provider inst) (Inst_ProviderOverrides inst) = Some o -> PV_Parameters o = [].

Lemma stack_config_blind inst os : no_parameters inst -> map_Forall blind (stack_config inst os).1.
Proof.
  intros Hp. unfold stack_config. destruct (assoc _ _) as [o|] eqn:E; simpl; apply lifecycle_blind, put_if_blind, storage_blind; try done.
  - by apply override_blind, Hp.
Qed.

Lemma assoc_settings (c : settings) k : assoc k (map_to_list c) = c !! k.
Proof.
  unfold assoc. destruct (List.find _ (map_to_list c)) as [[k' v]|] eqn:E; simpl.
  - apply find_some in E as [Hin Hk%bool_decide_eq_true]. simpl in Hk. subst k'. symmetry. by apply elem_of_map_to_list, list_elem_of_In.
  - destruct (c !! k) as [v|] eqn:Ec; [|done]. apply elem_of_map_to_list, list_elem_of_In in Ec. apply (find_none _ _ E) in Ec. simpl in Ec.
    by rewrite bool_decide_eq_true_2 in Ec.
Qed.

(** C25: what a stack manifest asks of a podman container is not passed on.  Apart
    from the parameters of its override, an instance's settings reach the provider
    as slices and maps of Go types it does not look for: whatever mounts,
    environment, command and auto-start the manifest declares, the container is
    created without any. *)
Theorem stack_settings_lost_on_podman int64_overflow OpenRoot OpenIn mu mm mn root visit fraction_text (inst : InstanceConfig) (spec : InstanceSpec) :
  (forall (c : settings) k, assoc k (visit c) = c !! k) -> no_parameters inst ->
  instanceConfigToSpec int64_overflow OpenRoot OpenIn mu mm mn root visit inst = Ok spec ->
  podmanVolumeStrings (Spec_ProviderConfig spec) = [] /\ env_args fraction_text (Spec_ProviderConfig spec) = Ok [] /\
  command_args (Spec_ProviderConfig spec) = Ok [] /\ requested_autostart (Spec_ProviderConfig spec) = None.
Proof.
  intros Hv Hp Hok. unfold instanceConfigToSpec in Hok. destruct (memory_mb _ _); [|done]. destruct (convert_image _ _) as [[image os]|]; [|done].
  destruct (convert_networks _ _); [|done]. destruct (convertStorage _ _); [|done].
  pose proof (stack_config_blind inst os Hp) as Hb. destruct (stack_config inst os) as [config os']. simpl in Hb.
  destruct (stack_cloud_init _ _ _ _ _ _ _ _ _); [|done]. unfold checked in Hok. destruct (ValidateInstanceSpec _); [done|].
  injection Hok as <-. cbn [Spec_ProviderConfig].
  assert (forall k v, config_at k (visit config) = Some v -> blind k v) as Hk by (intros k v; unfold config_at; rewrite Hv; apply Hb).
  unfold podmanVolumeStrings, env_args, command_args, requested_autostart, slice_at, map_at.
  split_and!.
  - destruct (config_at "volumes" _) as [[]|] eqn:E1; try (apply Hk in E1; simpl in E1; naive_solver);
      destruct (config_at "mounts" _) as [[]|] eqn:E2; try (apply Hk in E2; simpl in E2; naive_solver); done.
  - destruct (config_at "environment" _) as [[]|] eqn:E; try done. by apply Hk in E.
  - destruct (config_at "command" _) as [[]|] eqn:E; try done. apply Hk in E. simpl in E. naive_solver.
  - destruct (config_at "autostart" _) as [[]|] eqn:E; try done. by apply Hk in E.
Qed.

(** ** The containers of the machine *)

(** The commands that neither make, remove nor rename a container. *)
Definition looks_only (args : list string) : bool :=
  match args with sub :: _ => existsb (streq sub) ["inspect"; "stop"; "container"; "image"; "ps"] | [] => false end.

(** What podman's commands do to the containers of the machine, each known by
    what it runs: a failed command changes none. *)
Class PodmanLaws (W : Type) `{Host W} := {
  containers : W -> gmap string string;
  looks_law w bin args : looks_only args = true -> containers (exec w (Command (bin :: args))).1 = containers w;
  rm_law w bin n : containers (exec w (Command [bin; "rm"; "--force"; n])).1 = delete n (containers w) \/
                   containers (exec w (Command [bin; "rm"; "--force"; n])).1 = containers w;
  rename_law w bin a b : match exec w (Command [bin; "rename"; a; b]) with
                         | (w', x) => match ex_err x with
                                      | None => exists c, containers w !! a = Some c /\ containers w !! b = None /\
                                                          containers w' = <[b := c]> (delete a (containers w))
                                      | Some _ => containers w' = containers w
                                      end
                         end;
  create_law w bin n opts image : match exec w (Command (bin :: ["create"; "--name"; n] ++ opts ++ [image])) with
                                  | (w', x) => match ex_err x with
                                               | None => containers w !! n = None /\ containers w' = <[n := image]> (containers w)
                                               | Some _ => containers w' = containers w
                                               end
                                  end
}.

Lemma backup_not_instance id n : ValidateInstanceName n = None -> n <> backup_name id.
Proof.
  intros Hn ->. apply ValidateInstanceName_shape in Hn. apply (shaped_all _ _ _ _ plain_char) in Hn; [|by intros c; unfold plain_char; intros ->|done].
  apply (no_char _ _ ".") in Hn; [|done]. apply Hn. unfold backup_name. rewrite bytes_app. set_solver.
Qed.

Section restore.
Context {W : Type} `{Host W} `{FileOps W} `{Json AutoStartConfig} `{Json (list (list (string * value)))}.
Context `{Json (list inspect_record)} `{!PodmanLaws W} (parse_time : string -> Z).

Lemma podman_looks p w args : looks_only args = true -> containers (podman p w args).1 = containers w.
Proof. apply looks_law. Qed.

Lemma exists_looks p w n : containers (containerExists p w n).1 = containers w.
Proof. unfold containerExists. pose proof (podman_looks p w ["container"; "exists"; n] eq_refl). by destruct (podman p w _). Qed.
Lemma labels_looks p w image instance : containers (imageIsSnapshotOf p w image instance).1 = containers w.
Proof.
  unfold imageIsSnapshotOf. match goal with |- context [podman p w ?a] => pose proof (podman_looks p w a eq_refl); destruct (podman p w a) end. done.
Qed.
Lemma state_looks p w id : containers (podman_GetInstanceState p w id).1.1 = containers w.
Proof.
  unfold podman_GetInstanceState. destruct (ValidateInstanceName id); [done|].
  match goal with |- context [podman p w ?a] => pose proof (podman_looks p w a eq_refl); destruct (podman p w a) as [w' x] end. by destruct (ex_err x).
Qed.
Lemma refresh_looks p w n : containers (refreshContainerInfo parse_time p w n).1.2 = containers w.
Proof.
  unfold refreshContainerInfo. match goal with |- context [podman p w ?a] => pose proof (podman_looks p w a eq_refl); destruct (podman p w a) as [w' x] end.
  destruct (ex_err x); [done|]. by destruct (Unmarshal _) as [[]|].
Qed.

(** Only the container and its name aside are touched, and what it was is under
    one of the two names unless the new one has taken its place. *)
Definition kept (m m' : gmap string string) (id image : string) (r : option error) : Prop :=
  (forall n, n <> id -> n <> backup_name id -> m' !! n = m !! n) /\
  (r = None -> m' !! id = Some image) /\
  (m' !! id = m !! id \/ m' !! backup_name id = m !! id \/ m' !! id = Some image).

Lemma kept_same m id image e : kept m m id image (Some e).
Proof. split_and!; [done|done|by left]. Qed.

(** [(podman rm --force n).1], then a rename. *)
Lemma removed p w n : containers (podman p w ["rm"; "--force"; n]).1 = delete n (containers w) \/
                      containers (podman p w ["rm"; "--force"; n]).1 = containers w.
Proof. apply rm_law. Qed.

Lemma removed_other p w n k : k <> n -> containers (podman p w ["rm"; "--force"; n]).1 !! k = containers w !! k.
Proof. intros Hk. destruct (removed p w n) as [->| ->]; [by rewrite lookup_delete_ne|done]. Qed.

Lemma renamed p w a b w' x : podman p w ["rename"; a; b] = (w', x) ->
  match ex_err x with
  | None => exists c, containers w !! a = Some c /\ containers w !! b = None /\ containers w' = <[b := c]> (delete a (containers w))
  | Some _ => containers w' = containers w
  end.
Proof. intros E. pose proof (rename_law w (pp_bin p) a b) as Hl. unfold podman in E. by rewrite E in Hl. Qed.
Lemma created p w n opts image w' x : podman p w (["create"; "--name"; n] ++ opts ++ [image]) = (w', x) ->
  match ex_err x with
  | None => containers w !! n = None /\ containers w' = <[n := image]> (containers w)
  | Some _ => containers w' = containers w
  end.
Proof. intros E. pose proof (create_law w (pp_bin p) n opts image) as Hl. unfold podman in E. by rewrite E in Hl. Qed.

Lemma backup_differs id : id <> backup_name id.
Proof. unfold backup_name. intros E. apply (f_equal (fun s => length (bytes s))) in E. rewrite bytes_app, length_app in E. simpl in E. lia. Qed.

Lemma replace_kept p w id image data p' w' r : replace_container parse_time p w id image data = (p', w', r) ->
  kept (containers w) (containers w') id image r.
Proof.
  unfold replace_container. cbv zeta. pose proof (backup_differs id) as Hne. set (bak := backup_name id) in *.
  pose proof (fun k => removed_other p w bak k) as Hr. destruct (podman p w ["rm"; "--force"; bak]) as [w1 x1]. cbn [fst] in *.
  unfold podman_run. destruct (podman p w1 ["rename"; id; bak]) as [w2 x2] eqn:E2. apply renamed in E2. destruct (ex_err x2) as [e2|].
  { intros [= <- <- <-]. rewrite E2. split; [intros k _ Hk; by apply Hr|]. split; [done|]. left. by apply Hr. }
  destruct E2 as (c & Hid & _ & E2). rewrite Hr in Hid by done.
  assert (forall k, k <> id -> k <> bak -> containers w2 !! k = containers w !! k) as Ho.
  { intros k Hk Hk'. rewrite E2, lookup_insert_ne, lookup_delete_ne by done. by apply Hr. }
  destruct (podman p w2 (["create"; "--name"; id] ++ _)) as [w3 x3] eqn:E3. apply created in E3. destruct (ex_err x3) as [e3|].
  - destruct (podman p w3 ["rename"; bak; id]) as [w4 x4] eqn:E4. apply renamed in E4. rewrite E3 in E4. intros [= <- <- <-].
    destruct (ex_err x4); [rewrite E4|].
    + split; [done|]. split; [done|]. right; left. by rewrite E2, lookup_insert_eq.
    + destruct E4 as (c' & Hb & _ & ->). rewrite E2, lookup_insert_eq in Hb. simplify_eq. split; [|split; [done|]].
      * intros k Hk Hk'. rewrite lookup_insert_ne, lookup_delete_ne by done. by apply Ho.
      * left. by rewrite lookup_insert_eq.
  - destruct E3 as [_ E3]. pose proof (fun k => removed_other p w3 bak k) as Hr3. destruct (podman p w3 ["rm"; "--force"; bak]) as [w4 x4].
    cbn [fst] in *. assert (containers w4 !! id = Some image) as Hi by (rewrite Hr3, E3, lookup_insert_eq; done).
    pose proof (refresh_looks p w4 id) as Hf. destruct (refreshContainerInfo _ _ _ _) as [[p5 w5] r5]. simpl in Hf.
    assert (kept (containers w) (containers w5) id image r5) as Hk.
    { rewrite Hf. split; [|split; [done|by right; right]]. intros k Hk Hk'. rewrite Hr3, E3, lookup_insert_ne by done. by apply Ho. }
    destruct r5; intros [= <- <- <-]; [|done]. destruct Hk as (? & _ & ?). by split_and!.
Qed.

Lemma restore_kept p w id s p' w' r : RestoreSnapshot parse_time p w id s = (p', w', r) ->
  (is_Some r /\ containers w' = containers w) \/ exists image, snapshotImageFor s = Ok image /\ kept (containers w) (containers w') id image r.
Proof.
  unfold RestoreSnapshot. intros E.
  destruct (ValidateInstanceName id); [simplify_eq; left; done|]. destruct (snapshotImageFor s) as [image|]; [|simplify_eq; left; done].
  destruct (negb _); [simplify_eq; left; done|].
  pose proof (labels_looks p w image (sh_Instance s)) as L. destruct (imageIsSnapshotOf p w image (sh_Instance s)) as [w1 [e|]]; simpl in L;
    [simplify_eq; left; done|]. rewrite <- L; clear L.
  pose proof (exists_looks p w1 id) as L. destruct (containerExists p w1 id) as [w2 []]; simpl in L; [|simplify_eq; left; done]. rewrite <- L; clear L.
  pose proof (state_looks p w2 id) as L. destruct (podman_GetInstanceState p w2 id) as [[w3 st] [e|]]; simpl in L;
    [simplify_eq; left; done|]. rewrite <- L; clear L.
  match type of E with context [if ?b then podman_run ?m p w3 ?a else (w3, None)] =>
    assert (containers (if b then podman_run m p w3 a else (w3, None)).1 = containers w3) as L;
    [destruct b; [|done]; unfold podman_run; pose proof (podman_looks p w3 a eq_refl); by destruct (podman p w3 a)|];
    destruct (if b then podman_run m p w3 a else (w3, None)) as [w4 [e|]] end; simpl in L; [simplify_eq; left; done|]. rewrite <- L; clear L.
  pose proof (podman_looks p w4 ["inspect"; "--format"; "json"; id] eq_refl) as L. destruct (podman p w4 _) as [w5 x]; simpl in L.
  destruct (ex_err x); [simplify_eq; left; done|]. destruct (Unmarshal (ex_stdout x)) as [[|data rest]|]; [simplify_eq; left; done| |simplify_eq; left; done].
  right. exists image. split; [done|]. rewrite <- L. by apply replace_kept in E.
Qed.
End restore.

(** C23: restoring a snapshot never loses the container.  No container of another
    instance is touched, the name used to set the old one aside being no name of
    an instance; the old container is still there, under its name or aside, unless
    the one made from the snapshot has taken its place; and if the restore
    succeeds, it has. *)
Theorem restore_keeps_the_container {W : Type} `{Host W, FileOps W, Json AutoStartConfig, Json (list (list (string * value))), Json (list inspect_record), !PodmanLaws W}
    (parse_time : string -> Z) (p p' : PodmanProvider) (w w' : W) (id : string) (s : SnapshotHandle) (r : option error) :
  RestoreSnapshot parse_time p w id s = (p', w', r) ->
  (forall n, ValidateInstanceName n = None -> n <> id -> containers w' !! n = containers w !! n) /\
  (r = None -> exists image, snapshotImageFor s = Ok image /\ containers w' !! id = Some image) /\
  (containers w' !! id = containers w !! id \/ containers w' !! backup_name id = containers w !! id \/
   exists image, snapshotImageFor s = Ok image /\ containers w' !! id = Some image).
Proof.
  intros E. apply restore_kept in E as [[[e ->] ->]|(image & Hi & Ho & Hr & Hk)]; [by split_and!; [..|left]|].
  split_and!; [|naive_solver..]. intros n Hn Hne. apply Ho; [done|by apply backup_not_instance].
Qed.

(** ** Snapshot handles *)

Lemma CutLast_absent s c : c ∉ bytes s -> CutLast s c = None.
Proof. intros Hc. unfold CutLast. rewrite (proj2 (cut_l_None c (rev (bytes s)))); [done|]. rewrite list_elem_of_In, <- in_rev, <- list_elem_of_In. done. Qed.

Lemma image_name_bytes id name c : ValidateInstanceName id = None -> ValidateSnapshotName name = None -> dotted_char c = false ->
  c ∉ bytes (snapshotPrefix +:+ id +:+ "-" +:+ name).
Proof.
  intros Hi Hn Hc. apply ValidateInstanceName_shape in Hi. apply ValidateSnapshotName_shape in Hn as [Hn _].
  assert (c ∉ bytes id) by (eapply no_char; [eapply (shaped_all _ _ _ _ dotted_char); [| |exact Hi]|done]; auto).
  assert (c ∉ bytes name) by (eapply no_char; [eapply (shaped_all _ _ _ _ dotted_char); [| |exact Hn]|done]; auto).
  rewrite !bytes_app. rewrite !elem_of_app. intros [Hp|[?|[Hd|?]]]; try done; apply list_elem_of_In in Hp || apply list_elem_of_In in Hd.
  - simpl in Hp. repeat destruct Hp as [<-|Hp]; done.
  - simpl in Hd. destruct Hd as [<-|[]]. done.
Qed.

Lemma app_assoc_text a b c : a +:+ (b +:+ c) = (a +:+ b) +:+ c.
Proof. induction a as [|x a IH]; [done|]. by change (String x (a +:+ (b +:+ c)) = String x ((a +:+ b) +:+ c)); rewrite IH. Qed.

Definition snapshot_meta (name image id : string) : list (string * value) :=
  [("name", VString name); ("imageName", VString image); ("container", VString id)].

Lemma handle_image id name n image i : ValidateInstanceName id = None -> image <> "" ->
  bareImageName image = snapshotPrefix +:+ id +:+ "-" +:+ name ->
  snapshotImageFor {| sh_ID := i; sh_Instance := id; sh_Metadata := snapshot_meta n image id |} = Ok image.
Proof.
  intros Hv Hne Hb. unfold snapshotImageFor. simpl. destruct image as [|c im] eqn:E; [done|]. rewrite <- E in *. rewrite Hv.
  rewrite (proj2 (HasPrefix_spec _ _)); [done|]. exists name. by rewrite Hb, !app_assoc_text.
Qed.
Lemma handle_container id n image i : ValidateInstanceName id = None ->
  snapshotContainerFor {| sh_ID := i; sh_Instance := id; sh_Metadata := snapshot_meta n image id |} = Ok id.
Proof.
  intros Hv. unfold snapshotContainerFor. simpl. destruct id as [|c nm] eqn:E; [done|]. rewrite <- E in *. rewrite Hv.
  rewrite (proj2 (streq_true id id)) by done. by rewrite andb_false_r.
Qed.

Lemma bare_plain x : "/"%char ∉ bytes x -> ":"%char ∉ bytes x -> bareImageName x = x.
Proof. intros Hs Hc. unfold bareImageName. rewrite (CutLast_absent x "/"), (CutLast_absent x ":") by done. done. Qed.
Lemma bare_reported x : x <> "" -> "/"%char ∉ bytes x -> ":"%char ∉ bytes x -> bareImageName ("localhost/" +:+ x +:+ ":latest") = x.
Proof.
  intros Hne Hs Hc. unfold bareImageName.
  rewrite (proj2 (CutLast_Some ("localhost/" +:+ x +:+ ":latest") "/" "localhost" (x +:+ ":latest"))).
  2: { split; [done|]. rewrite bytes_app. set_solver. }
  rewrite (proj2 (CutLast_Some (x +:+ ":latest") ":" x "latest")); [|split; [done|set_solver]].
  by rewrite (proj2 (streq_false x "")).
Qed.

(** A snapshot can be used under the handle its creation returned, and under
    the handle the listing gives for the name podman reports, with the local
    registry and a tag around it: both name the image and the container. *)
Theorem snapshot_handles_are_accepted {W : Type} `{Host W, FileOps W, Json AutoStartConfig} (error_text : error -> string) (p : PodmanProvider) (w w' : W)
    (id name : string) (h : SnapshotHandle) (img : image_record) (info : SnapshotInfo) :
  CreateSnapshot error_text p w id name = (w', Ok h) ->
  im_Names img = ["localhost/" +:+ snapshotPrefix +:+ id +:+ "-" +:+ name +:+ ":latest"] -> snapshot_info id img = Some info ->
  snapshotImageFor h = Ok (snapshotPrefix +:+ id +:+ "-" +:+ name) /\ snapshotContainerFor h = Ok id /\
  snapshotImageFor (si_Handle info) = Ok ("localhost/" +:+ snapshotPrefix +:+ id +:+ "-" +:+ name +:+ ":latest") /\
  snapshotContainerFor (si_Handle info) = Ok id.
Proof.
  unfold CreateSnapshot. destruct (ValidateInstanceName id) eqn:Hv; [done|]. destruct (containerExists p w id) as [w1 []]; [|done].
  destruct (ValidateSnapshotName name) eqn:Hs; [done|]. destruct (podman p w1 _) as [w2 x2]. destruct (ex_err x2); [|done].
  destruct (negb _); [done|]. destruct (podman p w2 _) as [w3 x3]. destruct (ex_err x3); [done|]. intros [= <- <-] Hn Hi.
  unfold snapshot_info in Hi. rewrite Hn in Hi. simpl in Hi. destruct (snapshotNameFromLabels _ _) as [n|]; [|done]. simpl in Hi. simplify_eq.
  pose proof (image_name_bytes id name "/" Hv Hs eq_refl) as Hb1. pose proof (image_name_bytes id name ":" Hv Hs eq_refl) as Hb2.
  split_and!; [apply (handle_image _ name)|apply handle_container|apply (handle_image _ name)|apply handle_container]; try done.
  - by apply bare_plain.
  - assert (forall x, x +:+ ":latest" <> "") as Hx by (by intros []). rewrite <- (bare_reported (snapshotPrefix +:+ id +:+ "-" +:+ name)) by done.
    by rewrite !app_assoc_text.
Qed.

(** ** A recreated environment *)

Definition env_pair (kv : string) : option (string * string) :=
  match Cut kv "=" with Some (k, v) => if streq k "" then None else Some (k, v) | None => None end.

Lemma env_vars_snoc env kv : env_vars (env ++ [kv]) =
  match env_pair kv with Some (k, v) => <[k := VString v]> (env_vars env) | None => env_vars env end.
Proof. unfold env_vars, env_pair. rewrite foldl_app. simpl. destruct (Cut kv "=") as [[k v]|]; [|done]. by destruct (streq k ""). Qed.

Lemma env_vars_text env k x : env_vars env !! k = Some x -> exists v, x = VString v /\ env_pair (k +:+ "=" +:+ v) = Some (k, v).
Proof.
  revert k x. induction env as [|kv env IH] using rev_ind; intros k x; [done|]. rewrite env_vars_snoc. destruct (env_pair kv) as [[k' v]|] eqn:E; [|apply IH].
  destruct (decide (k' = k)) as [->|Hne]; [|rewrite lookup_insert_ne by done; apply IH]. rewrite lookup_insert_eq. intros [= <-]. exists v. split; [done|].
  unfold env_pair in *. destruct (Cut kv "=") as [[a b]|] eqn:Ec; [|done]. destruct (streq a "") eqn:Es; [done|]. injection E as -> ->.
  apply Cut_Some in Ec as [_ Hn]. rewrite (proj2 (Cut_Some (k +:+ "=" +:+ v) "=" k v)) by done. by rewrite Es.
Qed.

(** With distinct keys, the environment says what its entries say. *)
Lemma env_vars_entry env k v : NoDup (map fst (omap env_pair env)) -> env_pair (k +:+ "=" +:+ v) = Some (k, v) ->
  k +:+ "=" +:+ v ∈ env -> env_vars env !! k = Some (VString v).
Proof.
  induction env as [|kv env IH] using rev_ind; [by intros _ _ ?%elem_of_nil|]. rewrite env_vars_snoc. rewrite omap_app, map_app. intros [Hnd [Hdis _]]%NoDup_app Hp.
  rewrite elem_of_app, list_elem_of_singleton. intros [Hin| <-].
  - destruct (env_pair kv) as [[k' v']|] eqn:E; [|by apply IH]. rewrite lookup_insert_ne; [by apply IH|]. intros ->.
    apply (Hdis k).
    + apply list_elem_of_fmap. exists (k, v). split; [done|]. apply list_elem_of_omap. eauto.
    + simpl. rewrite E. simpl. by apply list_elem_of_singleton.
  - rewrite Hp. by rewrite lookup_insert_eq.
Qed.

(** What a container sees: the variables it is created with over those of its
    image. *)
Definition effective (imageEnv : list string) (explicit : list (string * value)) : gmap string value :=
  list_to_map explicit ∪ env_vars imageEnv.

Lemma from_image_text fraction imageEnv k v : from_image fraction imageEnv (k, VString v) = bool_decide (k +:+ "=" +:+ v ∈ imageEnv).
Proof.
  unfold from_image. simpl. induction imageEnv as [|x l IH]; simpl; [done|]. rewrite IH. unfold streq.
  apply Bool.eq_iff_eq_true. rewrite orb_true_iff, !bool_decide_eq_true, elem_of_cons. done.
Qed.

(** A recreated container has the environment of the original.  The variables
    the image itself carries are left out of the new command line, and with those
    of the image beneath them the new container sees exactly what the old one saw,
    provided that the image names no variable twice and none the container lacks. *)
Theorem recreated_environment_is_whole fraction (imageEnv env : list string) :
  NoDup (map fst (omap env_pair imageEnv)) -> dom (env_vars imageEnv) ⊆ dom (env_vars env) ->
  effective imageEnv (List.filter (fun e => negb (from_image fraction imageEnv e)) (map_to_list (env_vars env))) = env_vars env.
Proof.
  intros Hnd Hsub. set (kept_vars := List.filter _ _). assert (NoDup kept_vars.*1) as Hk.
  { unfold kept_vars. pose proof (NoDup_fst_map_to_list (env_vars env)) as Hn. induction (map_to_list (env_vars env)) as [|e l IH]; [done|].
    simpl in Hn. apply NoDup_cons in Hn as [He Hl]. simpl. destruct (negb _); [|by apply IH]. apply NoDup_cons. split; [|by apply IH].
    intros (e' & Ee & Hin)%list_elem_of_fmap. apply He, list_elem_of_fmap. exists e'. split; [done|].
    apply list_elem_of_In, filter_In in Hin as [Hin _]. by apply list_elem_of_In. }
  apply map_eq. intros k. unfold effective. destruct (env_vars env !! k) as [x|] eqn:Ek.
  - destruct (env_vars_text env k x Ek) as (v & -> & Hp). destruct (decide (k +:+ "=" +:+ v ∈ imageEnv)) as [Hin|Hout].
    + rewrite lookup_union_r; [by apply env_vars_entry|]. apply not_elem_of_list_to_map_1. intros ([k' y] & Ee & Hy)%list_elem_of_fmap. simpl in Ee. subst k'.
      apply list_elem_of_In, filter_In in Hy as [Hy Hf]. apply list_elem_of_In, elem_of_map_to_list in Hy. rewrite Ek in Hy. simplify_eq.
      rewrite from_image_text, bool_decide_eq_true_2 in Hf by done. done.
    + rewrite (lookup_union_Some_l _ _ k (VString v)); [done|]. apply elem_of_list_to_map_1; [done|]. apply list_elem_of_In, filter_In. split.
      * by apply list_elem_of_In, elem_of_map_to_list.
      * by rewrite from_image_text, bool_decide_eq_false_2.
  - apply lookup_union_None. split.
    + apply not_elem_of_list_to_map_1. intros ([k' y] & Ee & Hy)%list_elem_of_fmap. simpl in Ee. subst k'.
      apply list_elem_of_In, filter_In in Hy as [Hy _]. apply list_elem_of_In, elem_of_map_to_list in Hy. congruence.
    + apply not_elem_of_dom. apply not_elem_of_dom in Ek. set_solver.
Qed.

(** ** The cache *)

(** Every record is kept under its own name, and no name is reserved. *)
Definition settled (n : string) (c : containerInfo) : Prop := ct_Name c = n /\ ct_State c <> StateCreating.
Definition cache_settled (p : PodmanProvider) : Prop := map_Forall settled (pp_instances p).

Lemma settled_insert p n c : cache_settled p -> settled n c -> cache_settled (set_instances p (<[n := c]> (pp_instances p))).
Proof. intros Hp Hc. by apply map_Forall_insert_2. Qed.
Lemma settled_forget p n : cache_settled p -> cache_settled (forgetInstance p n).
Proof. intros Hp. by apply map_Forall_delete. Qed.
Lemma settled_state p n s t : s <> StateCreating -> cache_settled p -> cache_settled (setInstanceState p n s t).
Proof.
  intros Hs Hp. unfold setInstanceState. destruct (pp_instances p !! n) as [c|] eqn:E; [|done]. apply settled_insert; [done|].
  split; [|done]. by apply Hp in E as [? _].
Qed.
Lemma listed_settled output : map_Forall settled (listed_containers output).
Proof.
  unfold listed_containers. generalize (Lines (TrimSpace output)). intros ls. assert (map_Forall settled (∅ : gmap string containerInfo)) as H0 by apply map_Forall_empty.
  revert H0. generalize (∅ : gmap string containerInfo). induction ls as [|l ls IH]; intros m Hm; simpl; [done|].
  destruct (listed_container l) as [[n c]|] eqn:E; [|by apply IH]. simpl. apply IH. apply map_Forall_insert_2; [|done].
  unfold listed_container in E. destruct (Split l _) as [|? [|? [|? [|? ?]]]]; try done. injection E as <- <-. split; [done|]. simpl.
  destruct (HasPrefix _ _); [done|]. by destruct (Contains _ _).
Qed.
Lemma synced_settled old listed : map_Forall settled old -> map_Forall settled listed -> map_Forall settled (synced old listed).
Proof.
  intros Ho Hl n c [E|[_ E]]%lookup_union_Some_raw; [by apply Hl|]. apply map_lookup_filter_Some in E as [E Hc]. exfalso.
  apply Ho in E as [_ E]. simpl in Hc. by apply streq_true in Hc.
Qed.

(** A creation reserves its name and gives it back: what it leaves differs from
    what it found under this name only, which is forgotten or stands for the new
    container. *)
Lemma create_settles {W} `{Host W, FileOps W, Json AutoStartConfig} cwd eval_links fraction marshal GOOS p (w : W) now spec p' w' r :
  CreateInstance cwd eval_links fraction marshal GOOS p w now spec = (p', w', r) ->
  p' = p \/ pp_instances p' = delete (Spec_Name spec) (pp_instances p) \/
  exists c, settled (Spec_Name spec) c /\ isValidContainerID (ct_ID c) = true /\ pp_instances p' = <[Spec_Name spec := c]> (pp_instances p).
Proof.
  unfold CreateInstance. destruct (ValidateInstanceName _); [intros [= <- _ _]; by left|]. destruct (reserved_name p _); [intros [= <- _ _]; by left|].
  destruct (if bool_decide _ then _ else _) as [w1 []]; [intros [= <- _ _]; by left|].
  set (p1 := set_instances p _). destruct (create_container _ _ _ _ _ _ _ _) as [w2 [[id image]|e]] eqn:E.
  - intros [= <- _ _]. right; right. eexists. split_and!; [| |by simpl; rewrite insert_insert_eq]; [done|]. simpl.
    unfold create_container in E. destruct (streq _ ""); [done|]. destruct (ValidateImageSource _); [done|]. destruct (buildCreateArgs _ _ _ _ _ _ _ _ _); [|done].
    destruct (pullImageIfNeeded _ _ _ _) as [w3 [|]]; [done|]. destruct (podman _ _ _) as [w4 x]. destruct (ex_err x); [done|].
    unfold extractContainerID in E. destruct (List.find _ _) as [l|] eqn:Ef; [|done]. apply find_some in Ef as [_ Hl]. simpl in E.
    apply andb_true_iff in Hl as [_ Hl]. destruct (streq l ""); simplify_eq; done.
  - unfold reserved_name. simpl. rewrite lookup_insert_eq. simpl. intros [= <- _ _]. right; left. simpl. by rewrite delete_insert_eq.
Qed.

Section cache.
Context {W : Type} `{Host W, FileOps W, Json AutoStartConfig, Json (list (list (string * value))), Json (list inspect_record), Json (list limits_record)}.
Context (cwd : path) (eval_links : path -> result path) (fraction : result string) (marshal : list string -> result string) (parse_time : string -> Z).

(** One operation of the provider, on its own. *)
Inductive podman_step : PodmanProvider -> PodmanProvider -> Prop :=
  | P_create GOOS p w now spec p' w' r : CreateInstance cwd eval_links fraction marshal GOOS p w now spec = (p', w', r) -> podman_step p p'
  | P_delete p w id force p' w' r : DeleteInstance p w id force = (p', w', r) -> podman_step p p'
  | P_start p w now id p' w' r : StartInstance p w now id = (p', w', r) -> podman_step p p'
  | P_stop p w id opts p' w' r : StopInstance p w id opts = (p', w', r) -> podman_step p p'
  | P_restart p w now id p' w' r : RestartInstance p w now id = (p', w', r) -> podman_step p p'
  | P_pause p w id p' w' r : PauseInstance p w id = (p', w', r) -> podman_step p p'
  | P_resume p w id p' w' r : ResumeInstance p w id = (p', w', r) -> podman_step p p'
  | P_rename p w id newName p' w' r : podman_RenameInstance p w id newName = (p', w', r) -> podman_step p p'
  | P_list p w f p' w' r : podman_ListInstances p w f = (p', w', r) -> podman_step p p'
  | P_clone p w now source name opts p' w' r :
      CloneInstance cwd eval_links fraction marshal parse_time p w now source name opts = (p', w', r) -> podman_step p p'
  | P_clone_snapshot p w s name opts p' w' r :
      CloneFromSnapshot cwd eval_links fraction marshal parse_time p w s name opts = (p', w', r) -> podman_step p p'
  | P_restore p w id s p' w' r : RestoreSnapshot parse_time p w id s = (p', w', r) -> podman_step p p'
  | P_autostart p w now p' w' r : StartAutoStartInstances p w now = (p', w', r) -> podman_step p p'
  | P_initialize p w dataDir p' w' r : podman_Initialize p w dataDir = (p', w', r) -> podman_step p p'.

Lemma refresh_settled p w n p' w' r : refreshContainerInfo parse_time p w n = (p', w', r) -> cache_settled p -> cache_settled p'.
Proof.
  unfold refreshContainerInfo. destruct (podman p w _) as [w1 x]. destruct (ex_err x); [by intros [= <- _ _]|].
  destruct (Unmarshal _) as [[|data rest]|]; intros [= <- _ _]; try done. intros Hp. apply settled_insert; [done|]. split; [done|]. simpl.
  destruct (streq _ _); [done|]. by destruct (streq _ _).
Qed.
Lemma createClone_settled p w n image spec from opts p' w' r :
  createClone cwd eval_links fraction marshal parse_time p w n image spec from opts = (p', w', r) -> cache_settled p -> cache_settled p'.
Proof.
  unfold createClone. destruct (containerResourceLimits p w from) as [w1 [nano mem]]. destruct (buildCreateArgs _ _ _ _ _ _ _ _ _); [|by intros [= <- _ _]].
  destruct (podman p w1 _) as [w2 x]. destruct (ex_err x); [by intros [= <- _ _]|]. cbv zeta. destruct (streq _ ""); [by intros [= <- _ _]|].
  destruct (refreshContainerInfo _ _ _ _) as [[p3 w3] r3] eqn:E. pose proof (refresh_settled _ _ _ _ _ _ E). by destruct r3; intros [= <- _ _].
Qed.
Lemma replace_settled p w id image data p' w' r : replace_container parse_time p w id image data = (p', w', r) -> cache_settled p -> cache_settled p'.
Proof.
  unfold replace_container, podman_run. cbv zeta. destruct (podman p _ ["rename"; _; _]) as [w2 x2]. destruct (ex_err x2); [by intros [= <- _ _]|].
  destruct (podman p w2 _) as [w3 x3]. destruct (ex_err x3); [destruct (podman p w3 _); by intros [= <- _ _]|].
  destruct (refreshContainerInfo _ _ _ _) as [[p4 w4] r4] eqn:E. pose proof (refresh_settled _ _ _ _ _ _ E). by destruct r4; intros [= <- _ _].
Qed.

Lemma clone_settled p w now source n opts p' w' r :
  CloneInstance cwd eval_links fraction marshal parse_time p w now source n opts = (p', w', r) -> cache_settled p -> cache_settled p'.
Proof.
  unfold CloneInstance, podman_run. destruct (ValidateInstanceName n); [by intros [= <- _ _]|]. destruct (ValidateInstanceName source); [by intros [= <- _ _]|].
  destruct (containerExists p w source) as [w1 []]; [|by intros [= <- _ _]]. cbv zeta. destruct (podman p w1 _) as [w2 x2].
  destruct (ex_err x2); [by intros [= <- _ _]|]. destruct (podman_GetInstanceInfo p w2 source) as [w3 [info|]]; [|by intros [= <- _ _]].
  destruct (recreateSpec _ _ _ _) as [w4 spec]. destruct (createClone _ _ _ _ _ _ _ _ _ _ _ _) as [[p5 w5] r5] eqn:E.
  pose proof (createClone_settled _ _ _ _ _ _ _ _ _ _ E). by destruct r5; intros [= <- _ _].
Qed.
Lemma clone_snapshot_settled p w s n opts p' w' r :
  CloneFromSnapshot cwd eval_links fraction marshal parse_time p w s n opts = (p', w', r) -> cache_settled p -> cache_settled p'.
Proof.
  unfold CloneFromSnapshot. destruct (ValidateInstanceName n); [by intros [= <- _ _]|]. destruct (snapshotContainerFor s); [|by intros [= <- _ _]].
  destruct (snapshotImageFor s); [|by intros [= <- _ _]]. destruct (imageIsSnapshotOf p w _ _) as [w1 [|]]; [by intros [= <- _ _]|].
  destruct (podman p w1 _) as [w2 x2]. destruct (ex_err x2); [by intros [= <- _ _]|].
  destruct (podman_GetInstanceInfo p w2 _) as [w3 [info|]]; [destruct (recreateSpec _ _ _ _) as [w4 spec]|];
    destruct (createClone _ _ _ _ _ _ _ _ _ _ _ _) as [[p5 w5] r5] eqn:E; pose proof (createClone_settled _ _ _ _ _ _ _ _ _ _ E);
    by destruct r5; intros [= <- _ _].
Qed.
Lemma restore_settled p w id s p' w' r : RestoreSnapshot parse_time p w id s = (p', w', r) -> cache_settled p -> cache_settled p'.
Proof.
  unfold RestoreSnapshot. destruct (ValidateInstanceName id); [by intros [= <- _ _]|]. destruct (snapshotImageFor s); [|by intros [= <- _ _]].
  destruct (negb _); [by intros [= <- _ _]|]. destruct (imageIsSnapshotOf p w _ _) as [w1 [|]]; [by intros [= <- _ _]|].
  destruct (containerExists p w1 id) as [w2 []]; [|by intros [= <- _ _]].
  destruct (podman_GetInstanceState p w2 id) as [[w3 st] [|]]; [by intros [= <- _ _]|].
  match goal with |- context [if ?b then podman_run ?m p w3 ?a else (w3, None)] => destruct (if b then podman_run m p w3 a else (w3, None)) as [w4 [|]] end;
    [by intros [= <- _ _]|]. destruct (podman p w4 _) as [w5 x].
  destruct (ex_err x); [by intros [= <- _ _]|]. destruct (Unmarshal _) as [[|data rest]|]; [by intros [= <- _ _]| |by intros [= <- _ _]].
  apply replace_settled.
Qed.

Lemma start_settled p w now id p' w' r : StartInstance p w now id = (p', w', r) -> cache_settled p -> cache_settled p'.
Proof.
  unfold StartInstance, named_error. destruct (ValidateInstanceName id); [by intros [= <- _ _]|].
  destruct (podman_run _ p w _) as [w1 [|]]; intros [= <- _ _]; [done|]. by apply settled_state.
Qed.
Lemma start_all_settled now ids : forall p w last p' w' r, start_all now ids p w last = (p', w', r) -> cache_settled p -> cache_settled p'.
Proof.
  induction ids as [|id ids IH]; intros p w last p' w' r; simpl; [by intros [= <- _ _]|]. destruct (GetAutoStart p w id); [|apply IH].
  destruct (podman_GetInstanceState p w id) as [[w1 st] err]. destruct (_ && _); [apply IH|].
  destruct (StartInstance p w1 now id) as [[p2 w2] r2] eqn:E. pose proof (start_settled _ _ _ _ _ _ _ E) as Hs.
  destruct r2; intros Hr Hp; by apply IH in Hr; auto.
Qed.
Lemma sync_settled p w p' w' r : syncContainersLocked p w = (p', w', r) -> cache_settled p -> cache_settled p'.
Proof.
  unfold syncContainersLocked. destruct (podman p w _) as [w1 x]. destruct (ex_err x); intros [= <- _ _]; [done|]. intros Hp.
  apply synced_settled; [done|apply listed_settled].
Qed.
Lemma rename_settled p w id n p' w' r : podman_RenameInstance p w id n = (p', w', r) -> cache_settled p -> cache_settled p'.
Proof.
  unfold podman_RenameInstance. destruct (ValidateInstanceName n); [by intros [= <- _ _]|]. destruct (existsb _ _); [by intros [= <- _ _]|].
  destruct (podman_GetInstanceState p w id) as [[w1 st] [|]]; [by intros [= <- _ _]|]. destruct (negb _); [by intros [= <- _ _]|].
  destruct (podman_run _ p w1 _) as [w2 [|]]; intros [= <- _ _]; [done|]. intros Hp. destruct (pp_instances p !! id) as [c|] eqn:E; [|done].
  apply map_Forall_insert_2; [|by apply map_Forall_delete]. split; [done|]. by apply Hp in E as [_ ?].
Qed.

Lemma step_settled p p' : podman_step p p' -> cache_settled p -> cache_settled p'.
Proof.
  intros Hs Hp. destruct Hs as [? ? ? ? ? ? ? ? E|? ? ? ? ? ? ? E|? ? ? ? ? ? ? E|? ? ? ? ? ? ? E|? ? ? ? ? ? ? E|? ? ? ? ? ? E|? ? ? ? ? ? E|? ? ? ? ? ? ? E
    |? ? ? ? ? ? E|? ? ? ? ? ? ? ? ? E|? ? ? ? ? ? ? ? E|? ? ? ? ? ? ? E|? ? ? ? ? ? E|? ? ? ? ? ? E].
  - apply create_settles in E as [->|[Hd|(c & Hc & _ & Hi)]]; [done| |]; unfold cache_settled.
    + rewrite Hd. by apply map_Forall_delete.
    + rewrite Hi. by apply map_Forall_insert_2.
  - unfold DeleteInstance, named_error in E. destruct (ValidateInstanceName _); [by simplify_eq|]. destruct (podman _ _ _) as [w1 x].
    destruct (ex_err x); [destruct (Contains _ _)|]; simplify_eq; try done; by apply settled_forget.
  - by eapply start_settled.
  - unfold StopInstance, named_error in E. destruct (ValidateInstanceName _); [by simplify_eq|]. destruct (podman _ _ _) as [w1 x].
    destruct (ex_err x); [destruct (Contains _ _)|]; simplify_eq; try done; by apply settled_state.
  - unfold RestartInstance, named_error in E. destruct (ValidateInstanceName _); [by simplify_eq|].
    destruct (podman_run _ _ _ _) as [w1 [|]]; simplify_eq; [done|]. by apply settled_state.
  - unfold PauseInstance in E. destruct (ValidateInstanceName _); [by simplify_eq|]. destruct (podman_run _ _ _ _) as [w1 [|]]; simplify_eq; [done|]. by apply settled_state.
  - unfold ResumeInstance in E. destruct (ValidateInstanceName _); [by simplify_eq|]. destruct (podman_run _ _ _ _) as [w1 [|]]; simplify_eq; [done|]. by apply settled_state.
  - by eapply rename_settled.
  - unfold podman_ListInstances in E. destruct (syncContainersLocked _ _) as [[p2 w2] r2] eqn:Es. pose proof (sync_settled _ _ _ _ _ Es). destruct r2; simplify_eq; auto.
  - by eapply clone_settled.
  - by eapply clone_snapshot_settled.
  - by eapply restore_settled.
  - unfold StartAutoStartInstances in E. destruct (ListAutoStartInstances _ _); [|by simplify_eq]. by eapply start_all_settled.
  - unfold podman_Initialize in E. cbv zeta in E. destruct (match LookPath _ _ with Some _ => _ | None => _ end); [|by simplify_eq].
    destruct (podman _ _ _) as [w1 x]. destruct (ex_err x); [by simplify_eq|]. destruct (streq _ _); [by simplify_eq|].
    destruct (MakeDirs _ _) as [w2 [|]]; [by simplify_eq|]. destruct (syncContainersLocked _ _) as [[p3 w3] r3] eqn:Es.
    pose proof (sync_settled _ _ _ _ _ Es) as Hs. destruct r3; simplify_eq; [apply map_Forall_empty|by apply Hs].
Qed.
End cache.


(** ** The properties on a sample machine *)

(** A machine that is its containers; podman answers the label check of the
    snapshot s1 of web, and refuses to create a container from a bad image. *)
Record pmachine := { pm_containers : gmap string string; pm_files : gmap string string }.
Definition pm_exit (out : string) (e : option error) : exit := {| ex_stdout := out; ex_stderr := ""; ex_combined := out; ex_err := e |}.
Definition pm_refused : exit := pm_exit "" (Some (Typed "*exec.ExitError" ["1"] (Sentinel "exit status 1"))).
Definition pm_put (w : pmachine) (m : gmap string string) : pmachine := {| pm_containers := m; pm_files := pm_files w |}.

Definition pm_answer (args : list string) : exit :=
  match args with
  | "image" :: _ => pm_refused
  | "inspect" :: "--type" :: _ => pm_exit ("web" +:+ String "009" "s1") None
  | "inspect" :: "--format" :: "{{.State.Status}}" :: _ => pm_exit "exited" None
  | "commit" :: _ => pm_exit "sha256" None
  | _ => pm_exit "ok" None
  end.
Definition pm_run (w : pmachine) (args : list string) : pmachine * exit :=
  match args with
  | ["rm"; "--force"; n] => (pm_put w (delete n (pm_containers w)), pm_exit "" None)
  | ["rename"; a; b] => match pm_containers w !! a, pm_containers w !! b with
                        | Some c, None => (pm_put w (<[b := c]> (delete a (pm_containers w))), pm_exit "" None)
                        | _, _ => (w, pm_refused)
                        end
  | "create" :: "--name" :: n :: rest =>
      match pm_containers w !! n, last rest with
      | None, Some image => if streq image "bad" then (w, pm_refused) else (pm_put w (<[n := image]> (pm_containers w)), pm_exit "" None)
      | _, _ => (w, pm_refused)
      end
  | _ => (w, pm_answer args)
  end.

#[export] Instance pm_host : Host pmachine := {
  exec w c := pm_run w (tail (argv c));
  pipeline w a b := (w, NoPipe (Sentinel "no pipes"));
  LookPath w n := None; Stat w f := Err (Sentinel ErrNotExist); Lstat w f := Err (Sentinel ErrNotExist); EvalSymlinks w f := Ok f;
  MkdirAll w f := (w, None); CreateExcl w f := (w, None); Close w f := (w, None); OpenRead w f := None; Remove w f := (w, None); Geteuid w := 0
}.
#[export] Instance pm_file_ops : FileOps pmachine := {
  ReadFile w f := match pm_files w !! f with Some c => Ok c | None => Err (Sentinel ErrNotExist) end;
  WriteFile w f s := ({| pm_containers := pm_containers w; pm_files := <[f := s]> (pm_files w) |}, None);
  OpenAppend w f := (w, None); WriteString w f s := (w, None); CreateTemp w d p := (w, Err (Sentinel "none")); Chmod w f p := (w, None);
  Sync w f := (w, None); CloseFile w f := (w, None); Rename w a b := (w, None);
  RemoveFile w f := ({| pm_containers := pm_containers w; pm_files := delete f (pm_files w) |}, None);
  MakeDirs w d := (w, None); ReadDir w d := Ok []
}.
#[export] Program Instance pm_laws : PodmanLaws pmachine := {| containers := pm_containers |}.
Next Obligation.
  intros w bin [|sub rest] Hl; [done|]. simpl. unfold looks_only in Hl. simpl in Hl.
  repeat (apply orb_true_iff in Hl as [->%streq_true|Hl]; [done|]). done.
Qed.
Next Obligation. intros w bin n. by left. Qed.
Next Obligation. intros w bin a b. simpl. destruct (pm_containers w !! a) eqn:E1, (pm_containers w !! b) eqn:E2; simpl; try done. by eexists. Qed.
Next Obligation.
  intros w bin n opts image. simpl. rewrite last_snoc. destruct (pm_containers w !! n); simpl; [done|]. by destruct (streq image "bad").
Qed.

#[export] Instance pm_json_values : Json (list (list (string * value))) := {| Marshal l := Ok ""; Unmarshal s := Ok [[]] |}.
#[export] Instance pm_json_inspect : Json (list inspect_record) := {| Marshal l := Ok "";
  Unmarshal s := Ok [{| ir_Id := s; ir_Created := ""; ir_Image := ""; ir_Status := "created"; ir_StartedAt := ""; ir_Labels := [] |}] |}.
#[export] Instance pm_json_limits : Json (list limits_record) := {| Marshal l := Ok ""; Unmarshal s := Ok [] |}.
#[export] Instance pm_json_autostart : Json AutoStartConfig := {| Marshal c := Ok (Itoa (as_Priority c));
  Unmarshal s := Ok {| as_Enabled := true; as_Priority := 50; as_DelayMS := 0 |} |}.

Definition pm_provider : PodmanProvider := {| pp_bin := "podman"; pp_dataDir := "/var/db/hospitus"; pp_instances := ∅ |}.
Definition pm_web : pmachine := {| pm_containers := {["web" := "nginx"; "db" := "postgres"]}; pm_files := ∅ |}.
Definition pm_snapshot (image : string) : SnapshotHandle := {| sh_ID := "abc"; sh_Instance := "web"; sh_Metadata := snapshot_meta "s1" image "web" |}.

Lemma restore_keeps_the_container_witness :
  exists p' w', RestoreSnapshot (fun _ => 0) pm_provider pm_web "web" (pm_snapshot "hospitus-snapshot-web-s1") = (p', w', None) /\
    containers w' !! "db" = Some "postgres" /\ containers w' !! "web" = Some "hospitus-snapshot-web-s1".
Proof.
  destruct (RestoreSnapshot (fun _ => 0) pm_provider pm_web "web" (pm_snapshot "hospitus-snapshot-web-s1")) as [[p' w'] r] eqn:E.
  pose proof (restore_keeps_the_container _ _ _ _ _ _ _ _ E) as (Ho & Hn & _). assert (r = None) as ->.
  { transitivity (RestoreSnapshot (fun _ => 0) pm_provider pm_web "web" (pm_snapshot "hospitus-snapshot-web-s1")).2; [by rewrite E|]. by vm_compute. }
  exists p', w'. split; [done|]. rewrite (Ho "db") by (by vm_compute). destruct (Hn eq_refl) as (image & Hi & ->). split; [done|].
  vm_compute in Hi. by injection Hi as <-.
Defined.

Lemma snapshot_handles_are_accepted_witness :
  exists w' h, CreateSnapshot (fun _ => "") pm_provider pm_web "web" "s1" = (w', Ok h) /\ snapshotImageFor h = Ok "hospitus-snapshot-web-s1".
Proof.
  destruct (CreateSnapshot (fun _ => "") pm_provider pm_web "web" "s1") as [w' [h|]] eqn:E; [|by vm_compute in E].
  exists w', h. split; [done|].
  apply (snapshot_handles_are_accepted (fun _ => "") pm_provider pm_web w' "web" "s1" h
    {| im_Id := "abc"; im_Names := ["localhost/hospitus-snapshot-web-s1:latest"]; im_Created := 0; im_Size := 0;
       im_Labels := [(snapshotContainerLabel, "web"); (snapshotNameLabel, "s1")] |}
    {| si_Handle := {| sh_ID := "abc"; sh_Instance := "web"; sh_Metadata := snapshot_meta "s1" "localhost/hospitus-snapshot-web-s1:latest" "web" |};
       si_Name := "s1"; si_CreatedAt := 0; si_SizeMB := 0 |}); [done|by vm_compute..].
Defined.

Lemma recreated_environment_is_whole_witness :
  effective ["PATH=/bin"] (List.filter (fun e => negb (from_image (Ok "") ["PATH=/bin"] e)) (map_to_list (env_vars ["PATH=/bin"; "MODE=a=b"]))) =
  {["PATH" := VString "/bin"; "MODE" := VString "a=b"]}.
Proof.
  rewrite (recreated_environment_is_whole (Ok "") ["PATH=/bin"] ["PATH=/bin"; "MODE=a=b"]).
  - by vm_compute.
  - apply NoDup_singleton.
  - by apply (bool_decide_eq_true_1 _); vm_compute.
Defined.


Lemma stack_settings_lost_on_podman_witness :
  exists spec, stack_spec (as_instance (sample_workload "podman" "oci:nginx" None [host_volume])) = Ok spec /\ podmanVolumeStrings (Spec_ProviderConfig spec) = [].
Proof.
  destruct (stack_spec (as_instance (sample_workload "podman" "oci:nginx" None [host_volume]))) as [spec|] eqn:E; [|by vm_compute in E].
  exists spec. split; [done|]. refine (proj1 (stack_settings_lost_on_podman _ _ _ _ _ _ _ _ (Ok "") _ _ _ _ E)).
  - apply assoc_settings.
  - by intros o.
Defined.
