(* ===== verification/JailParams.v ===== *)
(** * Parameters of jails (pkg/provider/jail: parameters.go, osversion.go, the names of crossarch.go)

    The struct of parameters with its fields under the names their tags give them,
    which are those of jail(8): the defaults, the checks, the arguments they become
    and the overlay of a map onto them; the release and the architecture read off
    the name of an image. *)

From stdpp Require Import base list gmap strings.
From Stdlib Require Import Ascii ZArith Lia.
From S2P Require Import Prelude GoStrings GoText GoPath Regexp Validation ProviderTypes.

Local Open Scope Z_scope.

(** ** The struct *)

Definition allow_keys : list string :=
  ["allow.raw_sockets"; "allow.sysvipc"; "allow.mount"; "allow.mount.devfs"; "allow.mount.nullfs"; "allow.mount.procfs"; "allow.mount.tmpfs";
   "allow.mount.zfs"; "allow.mount.fdescfs"; "allow.mount.linprocfs"; "allow.mount.linsysfs"; "allow.mount.fusefs"; "allow.vmm"; "allow.mlock";
   "allow.reserved_ports"; "allow.chflags"; "allow.quotas"; "allow.socket_af"; "allow.set_hostname"; "allow.nfsd"; "allow.suser";
   "allow.read_msgbuf"; "allow.unprivileged_proc_debug"; "allow.extattr"; "allow.adjtime"; "allow.settime"; "allow.routing"; "allow.setaudit"].
Definition bool_keys : list string :=
  allow_keys ++ ["exec.clean"; "mount.devfs"; "mount.fdescfs"; "mount.procfs"; "mount.linprocfs"; "mount.linsysfs"; "mount.tmpfs";
                 "ip4.saddrsel"; "ip6.saddrsel"; "persist"; "ip_hostname"; "depending"].
Definition int_keys : list string :=
  ["exec.fib"; "exec.timeout"; "stop.timeout"; "devfs_ruleset"; "children.max"; "enforce_statfs"; "sysvmsg"; "sysvsem"; "sysvshm"; "securelevel";
   "osreldate"].
Definition command_keys : list string :=
  ["exec.prestart"; "exec.start"; "exec.poststart"; "exec.prestop"; "exec.stop"; "exec.poststop"; "exec.created"; "exec.prepare"; "exec.release"].
Definition user_keys : list string := ["exec.system_user"; "exec.jail_user"].
Definition plain_keys : list string :=
  ["mount.fstab"; "ip4"; "ip6"; "linux.osrelease"; "linux.osname"; "osrelease"; "host.hostname"; "host.hostuuid"; "host.hostid"; "host.domainname"].

(** A field that is absent has the zero value of its type. *)
Record JailParameters := { jp_bools : gmap string bool; jp_ints : gmap string Z; jp_texts : gmap string string }.
Definition jbool (p : JailParameters) (k : string) : bool := default false (jp_bools p !! k).
Definition jint (p : JailParameters) (k : string) : Z := default 0 (jp_ints p !! k).
Definition jtext (p : JailParameters) (k : string) : string := default "" (jp_texts p !! k).
Definition set_bool (k : string) (b : bool) (p : JailParameters) : JailParameters :=
  {| jp_bools := <[k := b]> (jp_bools p); jp_ints := jp_ints p; jp_texts := jp_texts p |}.
Definition set_int (k : string) (n : Z) (p : JailParameters) : JailParameters :=
  {| jp_bools := jp_bools p; jp_ints := <[k := n]> (jp_ints p); jp_texts := jp_texts p |}.
Definition set_text (k s : string) (p : JailParameters) : JailParameters :=
  {| jp_bools := jp_bools p; jp_ints := jp_ints p; jp_texts := <[k := s]> (jp_texts p) |}.

Definition DefaultJailParameters : JailParameters :=
  {| jp_bools := {["allow.set_hostname" := true; "allow.suser" := true; "mount.devfs" := true; "ip4.saddrsel" := true; "ip6.saddrsel" := true;
                   "persist" := true]};
     jp_ints := {["exec.timeout" := 60; "stop.timeout" := 30; "devfs_ruleset" := 4; "enforce_statfs" := 2; "securelevel" := -1]};
     jp_texts := {["exec.start" := "/bin/sh /etc/rc"; "exec.stop" := "/bin/sh /etc/rc.shutdown"; "ip4" := "new"; "ip6" := "new"]} |}.

(** ** Checks *)

Definition within (msg : string) (lo hi : Z) (n : Z) : option error := fail_if ((n <? lo) || (hi <? n)) (Errorf msg [Itoa n]).
Definition non_negative (msg : string) (n : Z) : option error := fail_if (n <? 0) (Errorf msg [Itoa n]).
Definition ip_mode (msg mode : string) : option error :=
  fail_if (negb (existsb (streq mode) ["inherit"; "new"; "disable"; ""])) (Errorf msg [mode]).

Definition ValidateJailParameters (p : JailParameters) : option error :=
  first_error [
    non_negative "exec.timeout must be non-negative, got %d" (jint p "exec.timeout");
    non_negative "stop.timeout must be non-negative, got %d" (jint p "stop.timeout");
    non_negative "children.max must be non-negative, got %d" (jint p "children.max");
    within "enforce_statfs must be 0, 1, or 2, got %d" 0 2 (jint p "enforce_statfs");
    within "sysvmsg must be 0, 1, or 2, got %d" 0 2 (jint p "sysvmsg");
    within "sysvsem must be 0, 1, or 2, got %d" 0 2 (jint p "sysvsem");
    within "sysvshm must be 0, 1, or 2, got %d" 0 2 (jint p "sysvshm");
    within "securelevel must be between -1 and 3, got %d" (-1) 3 (jint p "securelevel");
    non_negative "devfs_ruleset must be non-negative, got %d" (jint p "devfs_ruleset");
    non_negative "exec.fib must be non-negative, got %d" (jint p "exec.fib");
    ip_mode "ip4 must be 'inherit', 'new', or 'disable', got %s" (jtext p "ip4");
    ip_mode "ip6 must be 'inherit', 'new', or 'disable', got %s" (jtext p "ip6");
    non_negative "osreldate must be non-negative, got %d" (jint p "osreldate")].

(** ** Arguments *)

Definition boolToJailValue (b : bool) : string := if b then "1" else "0".
Definition sysvIPCValueToString (v : Z) : string := if v =? 0 then "inherit" else if v =? 1 then "new" else if v =? 2 then "disable" else "new".

Definition bool_arg (p : JailParameters) (k : string) : string := k +:+ "=" +:+ boolToJailValue (jbool p k).
Definition int_arg (p : JailParameters) (k : string) : list string := if 0 <? jint p k then [k +:+ "=" +:+ Itoa (jint p k)] else [].
(** A text that is set is checked and passed on. *)
Definition text_arg (check : string -> option error) (msg : string) (p : JailParameters) (k : string) : result (list string) :=
  let s := jtext p k in
  if streq s "" then Ok []
  else match check s with Some e => Err (Wrapf msg [] e) | None => Ok [k +:+ "=" +:+ s] end.
Fixpoint text_args (check : string -> option error) (msg : string -> string) (p : JailParameters) (keys : list string) : result (list string) :=
  match keys with
  | [] => Ok []
  | k :: keys => (let* a := text_arg check (msg k) p k in let* l := text_args check msg p keys in Ok (a ++ l))%go
  end.
Definition ip_args (p : JailParameters) (k : string) : list string :=
  if streq (jtext p k) "" then [] else [k +:+ "=" +:+ jtext p k; bool_arg p (k +:+ ".saddrsel")].
Definition sysv_arg (p : JailParameters) (k : string) : string :=
  k +:+ "=" +:+ sysvIPCValueToString (if jint p k =? 0 then 1 else jint p k).

Definition ToJailArgs (p : JailParameters) : result (list string) :=
  (let* commands := text_args ValidateExecCommand (fun k => "invalid " +:+ k +:+ " command: %w") p command_keys in
   let* consolelog := text_arg (fun s => ValidateFilePath s true) "invalid exec.consolelog path: %w" p "exec.consolelog" in
   let* users := text_args ValidateUsername (fun k => "invalid " +:+ k +:+ ": %w") p user_keys in
   let* fstab := text_arg (fun s => ValidateFilePath s true) "invalid mount.fstab path: %w" p "mount.fstab" in
   let* linux := text_args ValidateJailParameterValue (fun k => "invalid " +:+ k +:+ " value: %w") p ["linux.osrelease"; "linux.osname"; "osrelease"] in
   let* host := text_args ValidateJailParameterValue (fun k => "invalid " +:+ k +:+ " value: %w") p
                  ["host.hostname"; "host.hostuuid"; "host.hostid"; "host.domainname"] in
   Ok (map (bool_arg p) allow_keys ++ commands ++ consolelog ++ users ++ int_arg p "exec.fib" ++ [bool_arg p "exec.clean"] ++
       int_arg p "exec.timeout" ++ int_arg p "stop.timeout" ++ [bool_arg p "mount.devfs"] ++ int_arg p "devfs_ruleset" ++
       [bool_arg p "mount.fdescfs"; bool_arg p "mount.procfs"] ++ fstab ++ ip_args p "ip4" ++ ip_args p "ip6" ++ [bool_arg p "persist"] ++
       int_arg p "children.max" ++ ["enforce_statfs=" +:+ Itoa (jint p "enforce_statfs")] ++
       (if jbool p "allow.sysvipc" then map (sysv_arg p) ["sysvmsg"; "sysvsem"; "sysvshm"] else []) ++
       (if jint p "securelevel" =? -1 then [] else ["securelevel=" +:+ Itoa (jint p "securelevel")]) ++
       linux ++ int_arg p "osreldate" ++ host))%go.

(** ** Overlay of a map *)

(** Whole numbers of the type [int64] are none of the cases of the two switches. *)
Definition toBool (v : value) : bool :=
  match v with
  | VBool b => b
  | VInt n => negb (n =? 0)
  | VString s => streq s "true" || streq s "1" || streq s "yes"
  | _ => false
  end.
Definition toInt (v : value) : Z :=
  match v with
  | VInt n => n
  | VString s => match ParseInt (TrimSpace s) 64 with Ok n => n | Err _ => 0 end
  | _ => 0
  end.

Section overlay.
(** [fmt.Sprintf("%v", v)] of a collection, a pointer, another scalar, and of a
    number so large that a [float64] is printed with an exponent. *)
Context (sprint : value -> string).

Definition toString (v : value) : string :=
  match v with
  | VString s => s
  | VBool b => if b then "true" else "false"
  | VInt n => if Z.abs n <? 1000000 then Itoa n else sprint v
  | VInt64 n => Itoa n
  | _ => sprint v
  end.

Definition checked_text (check : string -> option error) (k : string) (v : value) (p : JailParameters) : result JailParameters :=
  let s := toString v in
  match (if streq s "" then None else check s) with
  | Some e => Err (Wrapf ("invalid " +:+ k +:+ ": %w") [] e)
  | None => Ok (set_text k s p)
  end.

Definition mem (k : string) (l : list string) : bool := existsb (streq k) l.

Definition apply_parameter (p : JailParameters) (key : string) (v : value) : result JailParameters :=
  let k := ToLower key in
  if mem k bool_keys then Ok (set_bool k (toBool v) p)
  else if mem k int_keys then Ok (set_int k (toInt v) p)
  else if mem k command_keys then checked_text ValidateExecCommand k v p
  else if streq k "exec.consolelog" then checked_text (fun s => ValidateFilePath s true) k v p
  else if mem k user_keys then checked_text ValidateUsername k v p
  else if mem k plain_keys then Ok (set_text k (toString v) p)
  else if mem k ["exec.jail"; "exec.console"] then Err (Errorf "jail parameter %q is not supported" [key])
  else if streq k "fdescfs" then Err (Errorf "fdescfs is not configurable; use mount.fdescfs to mount it, at the fixed /dev/fd target" [])
  else Ok p.

(** The entries in the order they are visited. *)
Fixpoint ApplyJailParameterMap (base : JailParameters) (m : list (string * value)) : result JailParameters :=
  match m with
  | [] => Ok base
  | (k, v) :: m => match apply_parameter base k v with Err e => Err e | Ok p => ApplyJailParameterMap p m end
  end.
Definition ParseJailParametersFromMap (m : list (string * value)) : result JailParameters := ApplyJailParameterMap DefaultJailParameters m.
End overlay.

(** ** What the name of an image says *)

Fixpoint digits_span (l : list ascii) : list ascii * list ascii :=
  match l with
  | c :: rest => if is_digit c then let '(d, r) := digits_span rest in (c :: d, r) else ([], l)
  | [] => ([], [])
  end.
(** The alternatives of the third group, in order, with their digits. *)
Definition release_kind (l : list ascii) : option (list ascii) :=
  let plain w := if has_prefix_l (bytes w) l then Some (bytes w) else None in
  let numbered w := if has_prefix_l (bytes w) l then Some (bytes w ++ (digits_span (drop (length (bytes w)) l)).1) else None in
  match plain "RELEASE", plain "STABLE", plain "CURRENT", numbered "BETA", numbered "RC", plain "PRERELEASE" with
  | Some w, _, _, _, _, _ | None, Some w, _, _, _, _ | None, None, Some w, _, _, _ | None, None, None, Some w, _, _
  | None, None, None, None, Some w, _ | None, None, None, None, None, Some w => Some w
  | None, None, None, None, None, None => None
  end.
Definition release_at (l : list ascii) : option (string * string * string) :=
  let '(major, r1) := digits_span l in
  match major, r1 with
  | _ :: _, "."%char :: r2 =>
      let '(minor, r3) := digits_span r2 in
      match minor, r3 with
      | _ :: _, "-"%char :: r4 =>
          kind ← release_kind r4; Some (of_bytes major, of_bytes minor, of_bytes (major ++ ["."%char] ++ minor ++ ["-"%char] ++ kind))
      | _, _ => None
      end
  | _, _ => None
  end.
Fixpoint find_release (l : list ascii) : option (string * string * string) :=
  match release_at l with
  | Some r => Some r
  | None => match l with _ :: rest => find_release rest | [] => None end
  end.

Definition candidate_version (candidate : string) : option (string * Z) :=
  '(major, minor, release) ← find_release (bytes candidate);
  match Atoi major, Atoi minor with
  | Ok a, Ok b => Some (release, a * 100000 + b * 1000)
  | _, _ => None
  end.
Definition freebsdUserlandVersion (image osVersion : string) : string * Z :=
  match candidate_version osVersion with
  | Some r => r
  | None => default ("", 0) (candidate_version image)
  end.

Definition detectImageOS (image : string) : string :=
  let imageLower := ToLower image in
  if negb (Contains imageLower "-rootfs-") then ""
  else if existsb (fun distro => HasPrefix imageLower (distro +:+ "-")) ["ubuntu"; "alpine"; "fedora"; "debian"; "rocky"; "centos"; "arch"]
  then "linux" else "".

Definition archPatterns : list (string * string) :=
  [("-arm64", "arm64"); ("-aarch64", "arm64"); (".arm64", "arm64"); (".aarch64", "arm64"); ("-riscv64", "riscv64"); ("-riscv", "riscv64");
   (".riscv64", "riscv64"); ("-i386", "i386"); (".i386", "i386"); ("-armv7", "armv7"); (".armv7", "armv7"); ("-amd64", "amd64"); (".amd64", "amd64")].
Definition detectImageArch (image : string) : string :=
  match List.find (fun p => Contains (ToLower image) p.1) archPatterns with Some p => p.2 | None => "" end.

Section arch.
(** [runtime.GOARCH]. *)
Context (GOARCH : string).

Definition normalizeArch (arch : string) : string :=
  let a := ToLower arch in
  if existsb (streq a) ["arm64"; "aarch64"] then "arm64"
  else if existsb (streq a) ["riscv64"; "riscv"] then "riscv64"
  else if existsb (streq a) ["i386"; "i686"; "x86"] then "i386"
  else if existsb (streq a) ["amd64"; "x86_64"; "x64"] then "amd64"
  else if existsb (streq a) ["armv7"; "arm"] then "armv7"
  else if existsb (streq a) ["native"; ""] then GOARCH
  else arch.
Definition isCrossArch (targetArch : string) : bool :=
  let target := normalizeArch targetArch in
  negb (streq target GOARCH || streq GOARCH "amd64" && streq target "i386").

End arch.
