(* ===== verification/JailNet.v ===== *)
(** * Networking of jails (pkg/provider/jail: dhcp.go, network_manager.go; pkg/config/config.go)

    Address pools and their allocation, the addresses jails hold, gateways and
    netmasks, bridges, the interfaces of a jail, its resolver configuration, and
    the daemon's configuration these read. *)

From stdpp Require Import base list gmap strings.
From Stdlib Require Import Ascii ZArith Lia.
From S2P Require Import Prelude GoStrings GoText GoPath GoNet GoHttp Host Files Validation ProviderTypes.

Local Open Scope Z_scope.

(** ** Texts of addresses *)

Definition dotted (b : list Z) : string := JoinStrings (map Itoa b) ".".

Definition hex_text (n : Z) : string :=
  of_bytes ((if 4095 <? n then [GoHttp.hex_digit (n / 4096)] else []) ++ (if 255 <? n then [GoHttp.hex_digit (n / 256 mod 16)] else []) ++
            (if 15 <? n then [GoHttp.hex_digit (n / 16 mod 16)] else []) ++ [GoHttp.hex_digit (n mod 16)]).
Fixpoint groups (b : list Z) : list Z := match b with x :: y :: r => (x * 256 + y) :: groups r | _ => [] end.
Fixpoint zero_run (g : list Z) : nat := match g with x :: r => if x =? 0 then S (zero_run r) else 0 | [] => 0 end.
(** The first of the longest runs of zero groups: where it starts, its length. *)
Fixpoint longest_run (i : nat) (g : list Z) (best : nat * nat) : nat * nat :=
  match g with
  | [] => best
  | _ :: r => longest_run (S i) r (if (best.2 <? zero_run g)%nat then (i, zero_run g) else best)
  end.
Definition ip6_text (b : list Z) : string :=
  let g := groups b in
  let '(i, n) := longest_run 0 g (0%nat, 1%nat) in
  if (n <? 2)%nat then JoinStrings (map hex_text g) ":"
  else JoinStrings (map hex_text (take i g)) ":" +:+ "::" +:+ JoinStrings (map hex_text (drop (i + n) g)) ":".
(** [ip.String()]. *)
Definition IP_String (ip : list Z) : string := match To4 ip with Some b => dotted b | None => ip6_text ip end.

Fixpoint ones_byte (fuel : nat) (b : Z) : Z := match fuel with O => 0 | S f => if 128 <=? b then 1 + ones_byte f (b * 2 mod 256) else 0 end.
(** [mask.Size()] of a mask [CIDRMask] made. *)
Definition mask_ones (m : list Z) : Z := fold_right (fun b n => ones_byte 8 b + n) 0 m.
Definition IPNet_String (n : IPNet) : string := IP_String (N_IP n) +:+ "/" +:+ Itoa (mask_ones (N_Mask n)).

(** ** Addresses written with a prefix *)

Definition addressWithoutPrefix (addr : string) : string := match Cut addr "/" with Some (a, _) => a | None => addr end.

Definition in_v4_net (ip : list Z) (net : string) : bool := match ParseCIDR_net net with Some n => Contains_ip n ip | None => false end.
Definition isPrivateIP (ipWithMask : string) : bool :=
  match ParseIP (addressWithoutPrefix ipWithMask) with
  | None => false
  | Some ip => existsb (in_v4_net ip) ["10.0.0.0/8"; "172.16.0.0/12"; "192.168.0.0/16"]
  end.

Definition getNetworkCIDR (ipWithMask : string) : string :=
  let s := if Contains ipWithMask "/" then ipWithMask else ipWithMask +:+ "/24" in
  match ParseCIDR_net s with None => s | Some n => IPNet_String n end.

(** The first address of the network; the last byte wraps around. *)
Definition gateway_bytes (network : list Z) : list Z :=
  match To4 network with
  | Some [a; b; c; d] => [a; b; c; (d + 1) mod 256]
  | Some _ => []
  | None => take 15 network ++ [1]
  end.
Definition getGatewayForIP (ipWithMask : string) : string :=
  if negb (Contains ipWithMask "/") then ""
  else match ParseCIDR_net ipWithMask with None => "" | Some n => IP_String (gateway_bytes (N_IP n)) end.

(** The network a pool's gateway is taken from: its first prefix, or the /24 of
    its first range that begins with an IPv4 address. *)
Definition pool_network (part : string) : option string :=
  if Contains part "/" then Some part
  else if Contains part "-" then
    ip ← ParseIP (match Split part "-" with a :: _ => a | [] => "" end);
    match To4 ip with Some [a; b; c; _] => Some (dotted [a; b; c; 0] +:+ "/24") | _ => None end
  else None.
Definition gatewayIPFromPool (pool : string) : string :=
  match omap pool_network (Fields pool) with
  | [] => ""
  | networkCIDR :: _ =>
      let gatewayIP := getGatewayForIP networkCIDR in
      if streq gatewayIP "" then ""
      else match ParseCIDR_net networkCIDR with
           | None => ""
           | Some n => gatewayIP +:+ "/" +:+ Itoa (mask_ones (N_Mask n))
           end
  end.

Definition getMaskFromBits (bits : Z) : string := if (bits <? 0) || (32 <? bits) then "" else dotted (CIDRMask bits 4).

(** ** Pools *)

Definition maxPoolBits : Z := 16.

(** [incIP], from the last byte on. *)
Fixpoint inc_rev (b : list Z) : list Z :=
  match b with [] => [] | x :: r => let y := (x + 1) mod 256 in if 0 <? y then y :: r else y :: inc_rev r end.
Definition incIP (ip : list Z) : list Z := rev (inc_rev (rev ip)).

(** The addresses from [ip] on while the network contains them. *)
Fixpoint pool_addresses (fuel : nat) (n : IPNet) (ip : list Z) : option (list string) :=
  match fuel with
  | O => None
  | S fuel => if negb (Contains_ip n ip) then Some []
              else match pool_addresses fuel n (incIP ip) with Some l => Some (IP_String ip :: l) | None => None end
  end.
Definition pool_fuel : nat := N.to_nat (2 ^ 16 + 1).

(** Without the first and the last of more than two. *)
Definition without_ends (l : list string) : list string := if (2 <? length l)%nat then removelast (tail l) else l.

Definition bad_pool (pool : string) : error := Errorf "invalid IP pool format: %s" [pool].
Fixpoint range_addresses (base : string) (i : Z) (count : nat) : option (list string) :=
  match count with
  | O => Some []
  | S count =>
      let candidate := base +:+ "." +:+ Itoa i in
      match ParseIP candidate with
      | None => None
      | Some _ => match range_addresses base (i + 1) count with Some l => Some (candidate :: l) | None => None end
      end
  end.
(** The last octet of a range and the three before it. *)
Definition pool_range (pool : string) : option (string * string) :=
  match Split pool "." with [a; b; c; d] => if Contains d "-" then Some (JoinStrings [a; b; c] ".", d) else None | _ => None end.

Definition parse_range (pool base last : string) : result (list string) :=
  match Split last "-" with
  | [lo; hi] =>
      match Atoi lo with
      | Err _ => Err (Errorf "invalid range start: %s" [lo])
      | Ok start =>
      match Atoi hi with
      | Err _ => Err (Errorf "invalid range end: %s" [hi])
      | Ok stop =>
          if (start <? 0) || (255 <? start) || (stop <? 0) || (255 <? stop) then Err (Errorf "range octets must be 0-255 in %s" [pool])
          else if stop <? start then Err (Errorf "range start exceeds range end in %s" [pool])
          else match range_addresses base start (Z.to_nat (stop - start + 1)) with
               | Some l => Ok l
               | None => Err (bad_pool pool)
               end
      end end
  | _ => Err (Errorf "invalid range notation: %s" [pool])
  end.

(** [None]: the enumeration does not end within its fuel. *)
Definition parseIPPool (pool : string) : option (result (list string)) :=
  if Contains pool "/" then
    match ParseCIDR_net pool with
    | None => Some (Err (Errorf "invalid CIDR notation %s: %w" [pool]))
    | Some n =>
        if maxPoolBits <? 8 * Z.of_nat (length (N_Mask n)) - mask_ones (N_Mask n) then Some (Err (Errorf "IP pool %s is too large (max /%d)" [pool]))
        else match pool_addresses pool_fuel n (N_IP n) with Some l => Some (Ok (without_ends l)) | None => None end
    end
  else match pool_range pool with
  | Some (base, last) => Some (parse_range pool base last)
  | None => Some (match ParseIP pool with Some _ => Ok [pool] | None => Err (bad_pool pool) end)
  end.

Definition poolGateways (pools : list string) : list string :=
  List.filter (fun gw => negb (streq gw "")) (map (fun pool => addressWithoutPrefix (gatewayIPFromPool pool)) pools).

(** ** Allocation *)

Definition pool_netmask (pool : string) : string :=
  match Split pool "/" with _ :: bits :: _ => "/" +:+ bits | _ => "/24" end.
(** The first address of the pools that is not used, with its netmask. *)
Fixpoint first_free (used : string -> bool) (pools : list string) : option string :=
  match pools with
  | [] => None
  | pool :: rest =>
      match parseIPPool pool with
      | Some (Ok candidates) =>
          match List.find (fun c => negb (used c)) candidates with
          | Some c => Some (c +:+ pool_netmask pool)
          | None => first_free used rest
          end
      | _ => first_free used rest
      end
  end.

(** The address a network holds: none before it is allocated. *)
Definition held_address (n : NetworkSpec) : option string :=
  if streq (Net_IPv4 n) "" || streq (Net_IPv4 n) "dhcp" then None else Some (addressWithoutPrefix (Net_IPv4 n)).
Definition holder := (string * list NetworkSpec)%type.
(** The readable configurations of jails, by name, with their networks. *)
Definition addressesInUse (jails : list holder) (exclude : string) : list (string * string) :=
  flat_map (fun j => if negb (streq exclude "") && streq j.1 exclude then [] else map (fun a => (a, j.1)) (omap held_address j.2)) jails.

Definition in_use (held : list (string * string)) (ip : string) : bool := existsb (fun h => streq h.1 ip) held.

Definition allocateDHCPAddress (pools : list string) (jails : list holder) (declaredPool : string) : result string :=
  let pools := if streq declaredPool "" then pools else Fields declaredPool ++ pools in
  let used c := existsb (streq c) (poolGateways pools) || in_use (addressesInUse jails "") c in
  match first_free used pools with
  | Some a => Ok a
  | None => Err (Errorf "no available IP addresses in configured pools: %v" [])
  end.

Definition refuseAddressInUse (pools : list string) (jails : list holder) (jailName addr : string) : option error :=
  if streq addr "" || streq addr "dhcp" then None
  else
    let ip := addressWithoutPrefix addr in
    if existsb (streq ip) (poolGateways pools) then Some (Errorf "address %s is the gateway address of a configured IP pool" [ip])
    else match rev (List.filter (fun h => streq h.1 ip) (addressesInUse jails jailName)) with
         | h :: _ => Some (Errorf "address %s is already held by jail %s" [ip; h.2])
         | [] => None
         end.

Definition bridgePoolFor (pools : list string) (bridgeName declaredPool defaultBridge : string) : string :=
  if negb (streq declaredPool "") then declaredPool
  else if negb (streq bridgeName defaultBridge) then ""
  else match pools with p :: _ => p | [] => "" end.

(** [None]: no network has an address. *)
Fixpoint default_route (defaultBridge : string) (networks : list NetworkSpec) (i : nat) (first : option nat) : option nat :=
  match networks with
  | [] => first
  | n :: rest =>
      if streq (Net_IPv4 n) "" then default_route defaultBridge rest (S i) first
      else if streq (Net_Bridge n) defaultBridge then Some i
      else default_route defaultBridge rest (S i) (match first with Some f => Some f | None => Some i end)
  end.
Definition defaultRouteNetwork (networks : list NetworkSpec) (defaultBridge : string) : option nat := default_route defaultBridge networks 0 None.

(** ** The daemon's configuration *)

Record Config := {
  Cf_IPPool : string; Cf_EnableIPForwarding : bool; Cf_EnableNAT : bool; Cf_ExternalInterface : string; Cf_FirewallType : string;
  Cf_DefaultGateway : string; Cf_AutoCreateBridges : bool; Cf_NATNetwork : string; Cf_BridgePrefix : string; Cf_PFAnchorName : string;
  Cf_EnableIPv6 : bool; Cf_IPv6Prefix : string; Cf_AllowedPhysicalDisks : list string
}.

Definition parseBool (value : string) : option bool :=
  let v := ToLower value in
  if existsb (streq v) ["true"; "yes"; "1"; "on"; "enabled"] then Some true
  else if existsb (streq v) ["false"; "no"; "0"; "off"; "disabled"] then Some false else None.
Definition boolOr (value : string) (defaultValue : bool) : bool := default defaultValue (parseBool value).
Definition or_text (s d : string) : string := if streq s "" then d else s.

Definition zero_config : Config :=
  {| Cf_IPPool := ""; Cf_EnableIPForwarding := true; Cf_EnableNAT := true; Cf_ExternalInterface := ""; Cf_FirewallType := ""; Cf_DefaultGateway := "";
     Cf_AutoCreateBridges := true; Cf_NATNetwork := ""; Cf_BridgePrefix := ""; Cf_PFAnchorName := ""; Cf_EnableIPv6 := false; Cf_IPv6Prefix := "";
     Cf_AllowedPhysicalDisks := [] |}.
Definition applyDefaults (c : Config) : Config :=
  {| Cf_IPPool := Cf_IPPool c; Cf_EnableIPForwarding := Cf_EnableIPForwarding c; Cf_EnableNAT := Cf_EnableNAT c;
     Cf_ExternalInterface := or_text (Cf_ExternalInterface c) "auto"; Cf_FirewallType := or_text (Cf_FirewallType c) "pf";
     Cf_DefaultGateway := or_text (Cf_DefaultGateway c) "auto"; Cf_AutoCreateBridges := Cf_AutoCreateBridges c;
     Cf_NATNetwork := or_text (Cf_NATNetwork c) "auto"; Cf_BridgePrefix := or_text (Cf_BridgePrefix c) "hospitus";
     Cf_PFAnchorName := or_text (Cf_PFAnchorName c) "hospitus"; Cf_EnableIPv6 := Cf_EnableIPv6 c;
     Cf_IPv6Prefix := or_text (Cf_IPv6Prefix c) "fd00::/48"; Cf_AllowedPhysicalDisks := Cf_AllowedPhysicalDisks c |}.

Definition with_text (c : Config) (key value : string) : Config :=
  let pick k old := if streq key k then value else old in
  {| Cf_IPPool := pick "ip_pool" (Cf_IPPool c);
     Cf_EnableIPForwarding := if streq key "enable_ip_forwarding" then boolOr value true else Cf_EnableIPForwarding c;
     Cf_EnableNAT := if streq key "enable_nat" then boolOr value true else Cf_EnableNAT c;
     Cf_ExternalInterface := pick "external_interface" (Cf_ExternalInterface c); Cf_FirewallType := pick "firewall_type" (Cf_FirewallType c);
     Cf_DefaultGateway := pick "default_gateway" (Cf_DefaultGateway c);
     Cf_AutoCreateBridges := if streq key "auto_create_bridges" then boolOr value true else Cf_AutoCreateBridges c;
     Cf_NATNetwork := pick "nat_network" (Cf_NATNetwork c); Cf_BridgePrefix := pick "bridge_prefix" (Cf_BridgePrefix c);
     Cf_PFAnchorName := pick "pf_anchor_name" (Cf_PFAnchorName c);
     Cf_EnableIPv6 := if streq key "enable_ipv6" then boolOr value false else Cf_EnableIPv6 c;
     Cf_IPv6Prefix := pick "ipv6_prefix" (Cf_IPv6Prefix c);
     Cf_AllowedPhysicalDisks := if streq key "allowed_physical_disks" then Fields value else Cf_AllowedPhysicalDisks c |}.
Definition config_line (c : Config) (line : string) : Config :=
  let line := TrimSpace line in
  if streq line "" || HasPrefix line "#" then c
  else match Cut line "=" with
       | None => c
       | Some (key, value) => with_text c (TrimSpace key) (Trim (TrimSpace value) (of_bytes [chr 34; "'"%char]))
       end.
(** The scanner's limit on a line. *)
Definition maxLine : Z := 1024 * 1024.

Section config.
Context {W : Type} `{Host W} `{FileOps W}.

(** [None]: there is no such file. *)
Definition LoadConfig (w : W) (path : string) : result (option Config) :=
  match OpenRead w path with
  | Some e => if errors_Is e ErrNotExist then Ok None else Err (Wrapf "cannot open %s: %w" [path] e)
  | None =>
      match Stat w path with
      | Err e => Err (Wrapf "cannot stat %s: %w" [path] e)
      | Ok info =>
          if negb (Z.land (fi_perm info) 18 =? 0) then Err (Errorf "%s is writable by group or others (%04o); refusing to read it" [path])
          else if match fi_uid info with Some owner => negb (owner =? 0) && negb (owner =? Geteuid w) | None => false end
          then Err (Errorf "%s is owned by uid %d, neither root nor uid %d; refusing to read it" [path])
          else match ReadFile w path with
               | Err e => Err e
               | Ok text =>
                   let lines := Split text newline in
                   if existsb (fun l => maxLine <=? len l) lines then Err (Sentinel "bufio.ErrTooLong")
                   else Ok (Some (applyDefaults (foldl config_line zero_config lines)))
               end
      end
  end.
Definition DefaultConfigPaths : list string := ["/usr/local/etc/hospitus/hospitusd.conf"; "/etc/hospitus/hospitusd.conf"].
Fixpoint load_first (w : W) (paths : list string) : result Config :=
  match paths with
  | [] => Ok (applyDefaults zero_config)
  | path :: rest => match LoadConfig w path with Err e => Err e | Ok (Some c) => Ok c | Ok None => load_first w rest end
  end.
Definition LoadConfigWithDefaults (w : W) : result Config := load_first w DefaultConfigPaths.

(** The environment's pools, those of the configuration file, the provider's
    setting, or the default. *)
Definition getIPPools (w : W) (env_pool : string) (setting : option value) : list string :=
  if negb (streq env_pool "") then Fields env_pool
  else match LoadConfigWithDefaults w with
       | Ok cfg => if negb (streq (Cf_IPPool cfg) "") then Fields (Cf_IPPool cfg)
                   else match setting with
                        | Some (VString s) => if streq s "" then ["10.0.0.0/24"] else Fields s
                        | _ => ["10.0.0.0/24"]
                        end
       | Err _ => match setting with
                  | Some (VString s) => if streq s "" then ["10.0.0.0/24"] else Fields s
                  | _ => ["10.0.0.0/24"]
                  end
       end.
End config.

(** ** The resolver configuration of a jail *)

Definition fallbackDNS : string := "1.1.1.1".
Definition fallbackDNS2 : string := "1.0.0.1".

Inductive dns_line := Dropped | Kept (line : string) | Replaced | Real (line : string).
Definition classify_dns (line : string) : dns_line :=
  let trimmed := TrimSpace line in
  if negb (HasPrefix trimmed "nameserver") then
    if HasPrefix trimmed "search" || HasPrefix trimmed "domain" || HasPrefix trimmed "options" then Kept line else Dropped
  else match Fields trimmed with
       | _ :: addr :: _ =>
           if streq addr "127.0.0.1" || streq addr "::1" || HasPrefix addr "127." then Replaced
           else if Contains addr ":" then Dropped else Real line
       | _ => Dropped
       end.
Definition dns_text (replacement line : string) : option string :=
  match classify_dns line with
  | Dropped => None
  | Kept l | Real l => Some l
  | Replaced => Some ("nameserver " +:+ replacement +:+ " # replaced loopback by hospitusd")
  end.
Definition is_real (line : string) : bool := match classify_dns line with Real _ => true | _ => false end.
Definition jail_resolv_conf (content fallbackForLoopback : string) : string :=
  let replacement := if streq fallbackForLoopback "" then fallbackDNS else fallbackForLoopback in
  let lines := Split content newline in
  JoinStrings (omap (dns_text replacement) lines ++ (if existsb is_real lines then [] else ["nameserver " +:+ fallbackDNS2]))
    (String newline "").

(** ** Reading ifconfig *)

Definition has_inet (kinds : list string) (ipOnly line : string) : bool :=
  match Fields line with
  | f :: addr :: _ => existsb (streq f) kinds && streq (if existsb (streq "inet6") kinds then addressWithoutPrefix addr else addr) ipOnly
  | _ => false
  end.
(** The interface a line names, or the one before it. *)
Definition next_interface (cur line : string) : string :=
  match bytes line with
  | c :: _ => if Ascii.eqb c " " || Ascii.eqb c "009" then cur else TrimSpace (match Split line ":" with p :: _ => p | [] => "" end)
  | [] => cur
  end.
Fixpoint find_conflict (ipOnly exclude cur : string) (lines : list string) : string :=
  match lines with
  | [] => ""
  | line :: rest =>
      let cur := next_interface cur line in
      let trimmed := TrimSpace line in
      if HasPrefix trimmed "inet " && negb (streq cur exclude) && match Fields trimmed with _ :: a :: _ => streq a ipOnly | _ => false end
      then cur else find_conflict ipOnly exclude cur rest
  end.

(** ** The network manager *)

Record VNetInterface := { EpairA : string; EpairB : string; VN_Bridge : string }.

(** The firewall manager: started once, then used. *)
Class JailFirewall (W : Type) := {
  fw_init : W -> W * option error;
  fw_SetupNAT : W -> string -> string -> string -> W * option error;
  fw_RemoveAllRules : W -> string -> W * option error;
  fw_restore_ports : W -> string -> W * option error
}.
(** What jails need of the file system beyond [Host]: whether a path is a
    symbolic link itself, and a write that does not follow one. *)
Class LinkHost (W : Type) := { is_symlink : W -> string -> bool; write_nofollow : W -> string -> string -> W * option error }.

Section manager.
Context {W : Type} `{Host W} `{FileOps W} `{JailFirewall W} `{LinkHost W}.
Context (cfg : Config).

Definition run (w : W) (argv : list string) : W * option error := let '(w, x) := exec w (Command argv) in (w, ex_err x).
Definition run_msg (msg : string) (args : list string) (w : W) (argv : list string) : W * option error :=
  let '(w, e) := run w argv in (w, match e with Some e => Some (Wrapf msg args e) | None => None end).

Definition CleanupFirewallRules (w : W) (jailName : string) : W * option error :=
  if streq (Cf_FirewallType cfg) "none" then (w, None)
  else match fw_init w with
       | (w, Some e) => (w, Some (Wrapf "failed to initialize firewall for cleanup of jail %q: %w" [jailName] e))
       | (w, None) => fw_RemoveAllRules w jailName
       end.

Definition bridgeExists (w : W) (name : string) : W * bool := let '(w, e) := run w ["ifconfig"; name] in (w, is_nil e).

Definition bridgeHasAddress (w : W) (bridgeName addr : string) : W * bool :=
  let '(w, x) := exec w (Command ["ifconfig"; bridgeName]) in
  (w, match ex_err x with
      | Some _ => false
      | None => existsb (has_inet ["inet"] (addressWithoutPrefix addr)) (Split (ex_stdout x) newline)
      end).
Definition hasIPOnInterface (w : W) (ifname targetIP : string) : W * bool :=
  let '(w, x) := exec w (Command ["ifconfig"; ifname]) in
  (w, match ex_err x with
      | Some _ => false
      | None => existsb (has_inet ["inet"; "inet6"] (addressWithoutPrefix targetIP)) (Split (ex_stdout x) newline)
      end).

Definition CheckIPConflicts (w : W) (targetIP excludeInterface : string) : W * result string :=
  let '(w, x) := exec w (Command ["ifconfig"; "-a"]) in
  (w, match ex_err x with
      | Some e => Err (Wrapf "failed to get interface list: %w" [] e)
      | None => Ok (find_conflict (addressWithoutPrefix targetIP) excludeInterface "" (Split (ex_stdout x) newline))
      end).
Definition DetectAndWarnIPConflicts (w : W) (bridgeName bridgeIP : string) : W * option error :=
  match CheckIPConflicts w bridgeIP bridgeName with
  | (w, Err _) => (w, None)
  | (w, Ok iface) => (w, if streq iface "" then None else Some (Errorf "IP conflict: %s already assigned to %s" [bridgeIP; iface]))
  end.

Definition EnsureBridge (w : W) (bridgeName ipPool : string) : W * option error :=
  match ValidateBridgeName bridgeName with
  | Some e => (w, Some (Wrapf "invalid bridge name %q: %w" [bridgeName] e))
  | None =>
      let '(w, present) := bridgeExists w bridgeName in
      if negb (Cf_AutoCreateBridges cfg)
      then (w, if present then None else Some (Errorf "bridge %s does not exist and auto_create_bridges is disabled" [bridgeName]))
      else
        and_then (if present then (w, None)
                  else and_then (run_msg "failed to create bridge %s: %w" [bridgeName] w ["ifconfig"; "bridge"; "create"; "name"; bridgeName])
                         (fun w => run_msg "failed to bring up bridge %s: %w" [bridgeName] w ["ifconfig"; bridgeName; "up"])) (fun w =>
        let gatewayIP := gatewayIPFromPool ipPool in
        if streq ipPool "" || streq gatewayIP "" then (w, None)
        else let '(w, has) := bridgeHasAddress w bridgeName gatewayIP in
             if has then (w, None)
             else match DetectAndWarnIPConflicts w bridgeName gatewayIP with
                  | (w, Some e) => (w, Some (Wrapf "IP conflict check failed for bridge %q gateway %q: %w" [bridgeName; gatewayIP] e))
                  | (w, None) => ((run w ["ifconfig"; bridgeName; "inet"; gatewayIP; "alias"]).1, None)
                  end)
  end.

Definition EnableIPForwarding (w : W) : W * option error :=
  and_then (run_msg "failed to enable IPv4 forwarding: %w" [] w ["sysctl"; "net.inet.ip.forwarding=1"]) (fun w =>
  (if Cf_EnableIPv6 cfg then (run w ["sysctl"; "net.inet6.ip6.forwarding=1"]).1 else w, None)).

Definition getDefaultInterface (w : W) : W * result string :=
  let '(w, x) := exec w (Command ["route"; "-n"; "get"; "default"]) in
  (w, match ex_err x with
      | Some e => Err (Wrapf "failed to get default route: %w" [] e)
      | None =>
          match omap (fun line => let line := TrimSpace line in
                                  if HasPrefix line "interface:" then match Fields line with _ :: i :: _ => Some i | _ => None end else None)
                  (Split (ex_stdout x) newline) with
          | i :: _ => Ok i
          | [] => Err (Errorf "could not determine default interface from route output" [])
          end
      end).

Definition ConfigureNAT (w : W) (jailName ipAddress : string) : W * option error :=
  if streq (Cf_FirewallType cfg) "none" then (w, None)
  else match fw_init w with
  | (w, Some e) => (w, Some (Wrapf "failed to initialize firewall for NAT setup: %w" [] e))
  | (w, None) =>
      let '(w, extIf) := if streq (Cf_ExternalInterface cfg) "auto" then getDefaultInterface w else (w, Ok (Cf_ExternalInterface cfg)) in
      match extIf with
      | Err e => (w, Some (Wrapf "failed to auto-detect external interface: %w" [] e))
      | Ok extIf =>
          let network := if streq (Cf_NATNetwork cfg) "auto" then getNetworkCIDR ipAddress else Cf_NATNetwork cfg in
          match fw_SetupNAT w jailName network extIf with
          | (w, Some e) => (w, Some (Wrapf "failed to setup NAT: %w" [] e))
          | (w, None) => (w, None)
          end
      end
  end.

Definition ConfigureGateway (w : W) (jailPath gateway : string) : W * option error :=
  let rcConfPath := jailPath +:+ "/etc/rc.conf" in
  let append := and_then (wrapped "failed to open rc.conf for gateway config: %w" (OpenAppend w rcConfPath)) (fun w =>
                wrapped "failed to write gateway to rc.conf: %w"
                  (WriteString w rcConfPath ("defaultrouter=" +:+ Quote gateway +:+ String newline ""))) in
  match ReadFile w rcConfPath with
  | Ok existing => if Contains existing "defaultrouter" then (w, None) else append
  | Err e => if errors_Is e ErrNotExist then append else (w, Some (Wrapf "failed to read rc.conf: %w" [] e))
  end.

Definition no_resolv_conf : string :=
  "# Written by hospitusd (host has no resolv.conf)" +:+ String newline ("nameserver " +:+ fallbackDNS +:+ String newline ("nameserver " +:+
  fallbackDNS2 +:+ String newline "")).
Definition ConfigureDNS (w : W) (jailPath fallbackForLoopback : string) : W * option error :=
  let jailResolvConf := jailPath +:+ "/etc/resolv.conf" in
  match ReadFile w "/etc/resolv.conf" with
  | Err e => if errors_Is e ErrNotExist then WriteFile w jailResolvConf no_resolv_conf
             else (w, Some (Wrapf "failed to read host resolv.conf: %w" [] e))
  | Ok content =>
      and_then (if is_symlink w jailResolvConf
                then wrapped "jail resolv.conf is a symlink that cannot be removed; refusing to write through it: %w" (RemoveFile w jailResolvConf)
                else (w, None)) (fun w =>
      wrapped "failed to write jail resolv.conf: %w" (write_nofollow w jailResolvConf (jail_resolv_conf content fallbackForLoopback)))
  end.

Definition ApplyPortForwards (w : W) (jailName : string) : W * option error :=
  if streq (Cf_FirewallType cfg) "none" then (w, None)
  else match fw_init w with
       | (w, Some e) => (w, Some (Wrapf "failed to initialize firewall for port forwards of jail %q: %w" [jailName] e))
       | (w, None) => fw_restore_ports w jailName
       end.

(** The gateway written for a jail and given to its resolver. *)
Definition gateway_for (withDefaultGateway : bool) (ipAddress : string) : string :=
  if withDefaultGateway && negb (streq (Cf_DefaultGateway cfg) "") && negb (streq (Cf_DefaultGateway cfg) "none")
  then if streq (Cf_DefaultGateway cfg) "auto" then getGatewayForIP ipAddress else Cf_DefaultGateway cfg else "".

(** Every step only warns. *)
Definition SetupNetworking (w : W) (jailName jailPath ipAddress : string) (withDefaultGateway : bool) : W :=
  let w := if Cf_EnableIPForwarding cfg then (EnableIPForwarding w).1 else w in
  let w := if Cf_EnableNAT cfg && negb (streq ipAddress "") && isPrivateIP ipAddress then (ConfigureNAT w jailName ipAddress).1 else w in
  let gateway := gateway_for withDefaultGateway ipAddress in
  let w := if streq gateway "" then w else (ConfigureGateway w jailPath gateway).1 in
  let w := (ConfigureDNS w jailPath gateway).1 in
  (ApplyPortForwards w jailName).1.

Definition DestroyVNetInterface (w : W) (epairName : string) : W * option error :=
  run_msg "failed to destroy %s: %w" [epairName] w ["ifconfig"; epairName; "destroy"].
Definition bringUpInterface (w : W) (ifname : string) : W * option error :=
  run_msg "failed to bring up %s: %w" [ifname] w ["ifconfig"; ifname; "up"].

Fixpoint set_flags (bridge ifname : string) (flags : list string) (w : W) : W * option error :=
  match flags with
  | [] => (w, None)
  | flag :: rest =>
      match ValidateBridgeFlag flag with
      | Some e => (w, Some e)
      | None => and_then (run_msg "failed to set flag %s on %s for bridge %s: %w" [flag; ifname; bridge] w ["ifconfig"; bridge; flag; ifname])
                  (set_flags bridge ifname rest)
      end
  end.
Definition attachInterfaceToBridge (w : W) (ifname : string) (spec : NetworkSpec) : W * option error :=
  let bridge := Net_Bridge spec in
  if streq bridge "" then (w, Some (Errorf "bridge name is required" []))
  else match ValidateBridgeName bridge with
  | Some e => (w, Some (Wrapf "invalid bridge name %q: %w" [bridge] e))
  | None =>
  match ValidateInterfaceName ifname with
  | Some e => (w, Some (Wrapf "invalid interface name %q: %w" [ifname] e))
  | None =>
      if (Net_VLAN spec <? 0) || (4094 <? Net_VLAN spec) then (w, Some (Errorf "invalid VLAN %d: expected 0..4094" [Itoa (Net_VLAN spec)]))
      else
        let args := [bridge; "addm"; ifname] ++ (if 0 <? Net_VLAN spec then ["untagged"; Itoa (Net_VLAN spec)] else []) in
        and_then (run_msg "failed to add %s to bridge %s (args: %v): %w" [ifname; bridge] w ("ifconfig" :: args))
          (set_flags bridge ifname (Net_BridgeFlags spec))
  end end.

(** The epair's jail side. *)
Definition epairBSide (epairA : string) : string := TrimSuffix epairA "a" +:+ "b".

Definition CreateVNetInterface (w : W) (spec : NetworkSpec) : W * result VNetInterface :=
  let '(w, x) := exec w (Command ["ifconfig"; "epair"; "create"]) in
  match ex_err x with
  | Some e => (w, Err (Wrapf "failed to create epair: %w (output: %s)" [ex_combined x] e))
  | None =>
      let epairA := TrimSpace (ex_combined x) in
      if streq epairA "" then (w, Err (Errorf "failed to get epair name from output: %s" [ex_combined x]))
      else
        let epairB := epairBSide epairA in
        let w := if 0 <? Net_MTU spec
                 then (run (run w ["ifconfig"; epairA; "mtu"; Itoa (Net_MTU spec)]).1 ["ifconfig"; epairB; "mtu"; Itoa (Net_MTU spec)]).1 else w in
        match bringUpInterface w epairA with
        | (w, Some e) => ((DestroyVNetInterface w epairA).1, Err (Wrapf "failed to bring up %s: %w" [epairA] e))
        | (w, None) =>
            match (if streq (Net_Bridge spec) "" then (w, None) else attachInterfaceToBridge w epairA spec) with
            | (w, Some e) => ((DestroyVNetInterface w epairA).1, Err (Wrapf "failed to attach %s to bridge %s: %w" [epairA; Net_Bridge spec] e))
            | (w, None) => (w, Ok {| EpairA := epairA; EpairB := epairB; VN_Bridge := Net_Bridge spec |})
            end
        end
  end.

Definition EnsureGatewayOnBridge (w : W) (bridgeName gateway jailIP : string) : W * option error :=
  match ValidateBridgeName bridgeName with
  | Some e => (w, Some (Wrapf "invalid bridge name %q: %w" [bridgeName] e))
  | None =>
  match ValidateIPAddress gateway with
  | Some e => (w, Some (Wrapf "invalid gateway %q: %w" [gateway] e))
  | None =>
      let '(w, has) := hasIPOnInterface w bridgeName gateway in
      if has then (w, None)
      else
        let maskBits := match ParseCIDR_net jailIP with Some n => mask_ones (N_Mask n) | None => 24 end in
        let netmask := getMaskFromBits maskBits in
        if streq netmask "" then (w, Some (Errorf "cannot express a /%d prefix as an IPv4 netmask (jail address %q)" [Itoa maskBits; jailIP]))
        else run_msg "failed to add gateway IP to bridge: %w (output: %s)" [] w ["ifconfig"; bridgeName; "inet"; gateway; "netmask"; netmask; "alias"]
  end end.

Definition loopbackCIDR : string := "127.0.0.1/8".

(** The address is part of the command line only if it is one, or dhcp. *)
Definition checked_address (ipAddress : string) : option error :=
  if streq ipAddress "" || streq ipAddress "dhcp" then None
  else match ValidateIPAddress (addressWithoutPrefix ipAddress) with
       | Some e => Some (Wrapf "invalid address %q: %w" [ipAddress] e)
       | None => None
       end.

Definition ConfigureVNetJailNetwork (w : W) (jailName bridgeName ifname ipAddress runtimeType : string) (withDefaultRoute : bool) : W * option error :=
  match first_error [
    wrap "invalid jail name %q: %w" [jailName] (ValidateInstanceName jailName);
    if streq bridgeName "" then None else wrap "invalid bridge name %q: %w" [bridgeName] (ValidateBridgeName bridgeName);
    wrap "invalid interface name %q: %w" [ifname] (ValidateInterfaceName ifname);
    checked_address ipAddress] with
  | Some e => (w, Some e)
  | None =>
      let host := streq runtimeType "crossarch" || streq runtimeType "linux" in
      let inside args := if host then ["ifconfig"; "-j"; jailName] ++ args else ["jexec"; jailName; "ifconfig"] ++ args in
      let w := (run w (inside ["lo0"; "inet"; loopbackCIDR; "up"])).1 in
      and_then (run_msg "failed to configure %s in jail: %w (output: %s)" [ifname] w (inside [ifname; ipAddress; "up"])) (fun w =>
      let gateway := gateway_for withDefaultRoute ipAddress in
      if streq gateway "" then (w, None)
      else
        let w := if streq bridgeName "" then w else (EnsureGatewayOnBridge w bridgeName gateway ipAddress).1 in
        ((run w ["route"; "-j"; jailName; "add"; "default"; gateway]).1, None))
  end.
End manager.
