(* ===== verification/JailConfig.v ===== *)
(** * Datasets and configurations of jails (pkg/provider/jail: zfs.go, config.go, the state queries of state.go)

    Which datasets and snapshots the provider takes for its own, the ones a handle
    names, and the zfs(8) commands run on them; the configuration a jail is created with and that every later operation reads
    back from its file, and what is asked of a running jail. *)

From stdpp Require Import base list gmap strings.
From Stdlib Require Import Ascii ZArith Lia.
From S2P Require Import Prelude GoStrings GoText GoPath GoNet GoHttp Host Files Validation ZfsNames ProviderTypes ManifestTypes InstanceStore Podman PodmanOps PodmanSnapshots JailParams JailNet.

Local Open Scope Z_scope.

(** ** Datasets *)

(** The provider: its directories, its parent dataset, the environment variable
    the default parent comes from, where the address pools are configured, and the
    daemon's configuration. *)
Record JailProvider := {
  JP_root : string;          (* [config.DataDir] *)
  JP_dataDir : string;
  JP_stateDir : string;
  JP_zfsParent : string;
  JP_zfsEnv : string;
  JP_poolEnv : string;
  JP_poolSetting : option value;
  JP_hospitusConfig : Config
}.

Fixpoint replace_last (l : list string) (x : string) : list string :=
  match l with [] => [] | [_] => [x] | y :: l => y :: replace_last l x end.
Definition getVolumesParent (p : JailProvider) : string :=
  let parts := Split (JP_zfsParent p) "/" in
  if (length parts <? 2)%nat then Child (JP_zfsEnv p) "volumes" else JoinStrings (replace_last parts "volumes") "/".

(** ** Ownership *)

Definition blanks : string := of_bytes ["@"%char; " "%char; "009"%char; newline].
Definition bad_dataset_name (ds : string) : bool := ContainsAny ds blanks || Contains ds "/../" || HasSuffix ds "/.." || HasPrefix ds "-".
Definition below (ds parent : string) : bool :=
  negb (streq parent "") && HasPrefix ds (parent +:+ "/") && (len parent + 1 <? len ds).
Definition ensureOwnDataset (p : JailProvider) (ds : string) : option error :=
  if streq ds "" || bad_dataset_name ds then Some (Errorf "refusing dataset %q: invalid name" [ds])
  else if existsb (below ds) [JP_zfsParent p; getVolumesParent p] then None
  else Some (Errorf "refusing dataset %q: not under %s" [ds; JP_zfsParent p]).
Definition ensureOwnDatasetOrSnapshot (p : JailProvider) (name : string) : option error :=
  match Cut name "@" with
  | None => ensureOwnDataset p name
  | Some (ds, snap) =>
      match ValidateSnapshotName snap with
      | Some e => Some (Wrapf "refusing snapshot %q: %w" [name] e)
      | None => ensureOwnDataset p ds
      end
  end.
Definition ensureOwnSnapshot (p : JailProvider) (name : string) : option error :=
  if negb (Contains name "@") then Some (Errorf "refusing %q: not a snapshot name" [name]) else ensureOwnDatasetOrSnapshot p name.
Definition ensureOwnDatasetOrParent (p : JailProvider) (ds : string) : option error :=
  if existsb (fun parent => negb (streq parent "") && streq ds parent) [JP_zfsParent p; getVolumesParent p]
  then fail_if (bad_dataset_name ds) (Errorf "refusing dataset %q: invalid name" [ds])
  else ensureOwnDataset p ds.

Definition jail_dataset (p : JailProvider) (id : string) : string := JP_zfsParent p +:+ "/" +:+ id.
Definition datasetFor (p : JailProvider) (handle : InstanceHandle) : result string :=
  match ValidateInstanceName (Handle_ID handle) with
  | Some e => Err (Wrapf "invalid instance id %q: %w" [Handle_ID handle] e)
  | None =>
      let want := jail_dataset p (Handle_ID handle) in
      match text_at "zfs_dataset" (Handle_Metadata handle) with
      | None => Ok want
      | Some ds =>
          if streq ds "" then Ok want
          else match ensureOwnDataset p ds with
               | Some e => Err e
               | None => if negb (streq ds want)
                         then Err (Errorf "handle %q carries dataset %s, which belongs to another instance" [Handle_ID handle; ds])
                         else Ok ds
               end
      end
  end.
Definition snapshotFor (p : JailProvider) (snapshot : SnapshotHandle) : result string :=
  match text_at "zfs_name" (sh_Metadata snapshot) with
  | None => Err (Errorf "invalid snapshot metadata: missing zfs_name" [])
  | Some zfsName =>
      if streq zfsName "" then Err (Errorf "invalid snapshot metadata: missing zfs_name" [])
      else match ensureOwnSnapshot p zfsName with
      | Some e => Err e
      | None =>
      match ValidateInstanceName (sh_Instance snapshot) with
      | Some e => Err (Wrapf "invalid snapshot instance %q: %w" [sh_Instance snapshot] e)
      | None =>
          let ds := match Cut zfsName "@" with Some (ds, _) => ds | None => zfsName end in
          if negb (streq ds (jail_dataset p (sh_Instance snapshot)))
          then Err (Errorf "snapshot %s belongs to %s, not to the instance %q it is presented for" [zfsName; ds; sh_Instance snapshot])
          else Ok zfsName
      end end
  end.

(** ** Commands *)

Section zfs.
Context {W : Type} `{Host W}.

Definition createZFSDataset (p : JailProvider) (w : W) (dataset : string) : W * option error :=
  match ensureOwnDatasetOrParent p dataset with
  | Some e => (w, Some e)
  | None => run_msg "zfs create failed: %w" [] w ["zfs"; "create"; "-p"; dataset]
  end.
Definition ensureZFSDataset (p : JailProvider) (w : W) (dataset : string) : W * option error :=
  match ensureOwnDatasetOrParent p dataset with
  | Some e => (w, Some e)
  | None => match run w ["zfs"; "list"; dataset] with
            | (w, None) => (w, None)
            | (w, Some _) => createZFSDataset p w dataset
            end
  end.

(** The last output and error are those reported. *)
Definition destroy_failed (x : exit) (e : error) : option error :=
  let detail := TrimSpace (ex_combined x) in
  Some (if streq detail "" then Wrapf "zfs destroy failed: %w" [] e else Wrapf "zfs destroy failed: %w: %s" [detail] e).
Definition destroyZFSDataset (p : JailProvider) (w : W) (dataset : string) (force : bool) : W * option error :=
  match ensureOwnDataset p dataset with
  | Some e => (w, Some e)
  | None =>
      let '(w, x) := exec w (Command (["zfs"; "destroy"; "-r"] ++ (if force then ["-f"] else []) ++ [dataset])) in
      match ex_err x with
      | None => (w, None)
      | Some e =>
          if Contains (ex_combined x) "dataset does not exist" then (w, None)
          else if negb force && Contains (ex_combined x) "dataset is busy" then
            let '(w, x') := exec w (Command ["zfs"; "destroy"; "-r"; "-f"; dataset]) in
            (w, match ex_err x' with None => None | Some e' => destroy_failed x' e' end)
          else (w, destroy_failed x e)
      end
  end.
Definition destroyZFSDatasetCleanup (p : JailProvider) (w : W) (dataset : string) : W := (destroyZFSDataset p w dataset true).1.
Definition zfsDestroyCleanup (p : JailProvider) (w : W) (dataset : string) : W :=
  match ensureOwnDatasetOrSnapshot p dataset with Some _ => w | None => (run w ["zfs"; "destroy"; dataset]).1 end.

Definition getZFSMountpoint (w : W) (dataset : string) : W * result string :=
  let '(w, x) := exec w (Command ["zfs"; "get"; "-H"; "-o"; "value"; "mountpoint"; dataset]) in
  (w, match ex_err x with Some e => Err (Wrapf "failed to get ZFS mountpoint: %w" [] e) | None => Ok (TrimSpace (ex_stdout x)) end).

Definition applyZFSQuotas (p : JailProvider) (w : W) (dataset : string) (diskGB : Z) : W * option error :=
  if diskGB <=? 0 then (w, None)
  else match ensureOwnDatasetOrParent p dataset with
  | Some e => (w, Some e)
  | None =>
      let quota := Itoa diskGB +:+ "G" in
      and_then (run_msg "failed to set ZFS quota: %w" [] w ["zfs"; "set"; "quota=" +:+ quota; dataset]) (fun w =>
      ((run w ["zfs"; "set"; "refquota=" +:+ quota; dataset]).1, None))
  end.
End zfs.

(** ** Configurations *)

Record ResourceSpec := {
  Rs_CPUs : Z; Rs_MemoryMB : Z; Rs_DiskGB : Z; Rs_MaxProc : Z; Rs_ReadBPS : Z; Rs_WriteBPS : Z; Rs_ReadIOPS : Z; Rs_WriteIOPS : Z
}.

Record JailConfig := {
  JC_Name : string;
  JC_Path : string;
  JC_Spec : InstanceSpec;
  JC_Networks : list NetworkSpec;
  JC_Parameters : list (string * value);
  JC_JailParameters : JailParameters;
  JC_Resources : ResourceSpec;
  JC_AutoStart : AutoStartConfig;
  JC_RuntimeType : string;
  JC_VnetEpair : string;
  JC_VnetEpairs : list string;
  JC_Hooks : gmap string (list string)
}.

(** ** Updates of single fields *)

Definition with_networks (c : JailConfig) (spec : InstanceSpec) (nets : list NetworkSpec) : JailConfig :=
  {| JC_Name := JC_Name c; JC_Path := JC_Path c; JC_Spec := spec; JC_Networks := nets; JC_Parameters := JC_Parameters c;
     JC_JailParameters := JC_JailParameters c; JC_Resources := JC_Resources c; JC_AutoStart := JC_AutoStart c; JC_RuntimeType := JC_RuntimeType c;
     JC_VnetEpair := JC_VnetEpair c; JC_VnetEpairs := JC_VnetEpairs c; JC_Hooks := JC_Hooks c |}.
Definition with_params (c : JailConfig) (p : JailParameters) : JailConfig :=
  {| JC_Name := JC_Name c; JC_Path := JC_Path c; JC_Spec := JC_Spec c; JC_Networks := JC_Networks c; JC_Parameters := JC_Parameters c;
     JC_JailParameters := p; JC_Resources := JC_Resources c; JC_AutoStart := JC_AutoStart c; JC_RuntimeType := JC_RuntimeType c;
     JC_VnetEpair := JC_VnetEpair c; JC_VnetEpairs := JC_VnetEpairs c; JC_Hooks := JC_Hooks c |}.
Definition with_epairs (c : JailConfig) (first : string) (all : list string) : JailConfig :=
  {| JC_Name := JC_Name c; JC_Path := JC_Path c; JC_Spec := JC_Spec c; JC_Networks := JC_Networks c; JC_Parameters := JC_Parameters c;
     JC_JailParameters := JC_JailParameters c; JC_Resources := JC_Resources c; JC_AutoStart := JC_AutoStart c; JC_RuntimeType := JC_RuntimeType c;
     JC_VnetEpair := first; JC_VnetEpairs := all; JC_Hooks := JC_Hooks c |}.
Definition with_autostart (c : JailConfig) (a : AutoStartConfig) : JailConfig :=
  {| JC_Name := JC_Name c; JC_Path := JC_Path c; JC_Spec := JC_Spec c; JC_Networks := JC_Networks c; JC_Parameters := JC_Parameters c;
     JC_JailParameters := JC_JailParameters c; JC_Resources := JC_Resources c; JC_AutoStart := a; JC_RuntimeType := JC_RuntimeType c;
     JC_VnetEpair := JC_VnetEpair c; JC_VnetEpairs := JC_VnetEpairs c; JC_Hooks := JC_Hooks c |}.
Definition with_hooks (c : JailConfig) (h : gmap string (list string)) : JailConfig :=
  {| JC_Name := JC_Name c; JC_Path := JC_Path c; JC_Spec := JC_Spec c; JC_Networks := JC_Networks c; JC_Parameters := JC_Parameters c;
     JC_JailParameters := JC_JailParameters c; JC_Resources := JC_Resources c; JC_AutoStart := JC_AutoStart c; JC_RuntimeType := JC_RuntimeType c;
     JC_VnetEpair := JC_VnetEpair c; JC_VnetEpairs := JC_VnetEpairs c; JC_Hooks := h |}.
Definition with_resources (c : JailConfig) (r : ResourceSpec) : JailConfig :=
  {| JC_Name := JC_Name c; JC_Path := JC_Path c; JC_Spec := JC_Spec c; JC_Networks := JC_Networks c; JC_Parameters := JC_Parameters c;
     JC_JailParameters := JC_JailParameters c; JC_Resources := r; JC_AutoStart := JC_AutoStart c; JC_RuntimeType := JC_RuntimeType c;
     JC_VnetEpair := JC_VnetEpair c; JC_VnetEpairs := JC_VnetEpairs c; JC_Hooks := JC_Hooks c |}.

(** ** Building *)

(** The commands one element of a structured hook gives. *)
Definition hook_item (item : value) : list string :=
  match item with
  | VMap v =>
      match slice_at "commands" v with
      | Some cmds => omap (fun c => match c with VString s => Some s | _ => None end) cmds
      | None => match text_at "command" v with Some cmd => [cmd] | None => [] end
      end
  | VString s => [s]
  | _ => []
  end.
(** A [[]string] is a collection of another element type, all of it texts. *)
Definition string_slice (l : list value) : option (list string) := mapM (fun x => match x with VString s => Some s | _ => None end) l.
Definition hook_commands (v : value) : option (list string) :=
  match v with
  | VString s => Some [s]
  | VTypedSlice l => string_slice l
  | VSlice l => Some (flat_map hook_item l)
  | _ => None
  end.
Definition applyHooksKey (c : JailConfig) (v : value) : JailConfig :=
  match v with
  | VMap hooks => with_hooks c (foldl (fun m h => match hook_commands h.2 with Some l => <[h.1 := l]> m | None => m end) (JC_Hooks c) hooks)
  | _ => c
  end.

Definition jailParametersFrom (config : list (string * value)) : list (string * value) :=
  List.filter (fun p => is_nil (ValidateJailParameter p.1)) config.

Section build.
Context (GOARCH : string) (sprint : value -> string).

Definition determineRuntimeType (spec : InstanceSpec) : string :=
  if EqualFold (Spec_OSType spec) "linux" then "linux"
  else if streq (detectImageOS (Spec_Image spec)) "linux" then "linux"
  else
    let targetArch := normalizeArch GOARCH (Spec_Arch spec) in
    if negb (streq targetArch "") && isCrossArch GOARCH targetArch then "crossarch"
    else
      let detectedArch := normalizeArch GOARCH (detectImageArch (Spec_Image spec)) in
      if negb (streq detectedArch "") && isCrossArch GOARCH detectedArch then "crossarch" else "freebsd".

(** The release the image says it is, unless it says nothing. *)
Definition stamped (spec : InstanceSpec) (p : JailParameters) : JailParameters :=
  let '(release, reldate) := freebsdUserlandVersion (Spec_Image spec) (Spec_OSVersion spec) in
  if streq release "" then p else set_int "osreldate" reldate (set_text "osrelease" release p).

Definition setting (c : JailConfig) (key : string) (v : value) : JailConfig :=
  let a := JC_AutoStart c in
  if streq key "hooks" then applyHooksKey c v
  else if streq key "autostart" then
    match v with VBool b => with_autostart c {| as_Enabled := b; as_Priority := as_Priority a; as_DelayMS := as_DelayMS a |} | _ => c end
  else if streq key "autostart_priority" then
    match v with VInt n => with_autostart c {| as_Enabled := as_Enabled a; as_Priority := n; as_DelayMS := as_DelayMS a |} | _ => c end
  else if streq key "autostart_delay" then
    match v with VInt n => with_autostart c {| as_Enabled := as_Enabled a; as_Priority := as_Priority a; as_DelayMS := n |} | _ => c end
  else c.

(** The settings are in the order the code visits them; no settings and an empty
    map of them give the same configuration. *)
Definition buildJailConfig (spec : InstanceSpec) (mountpoint : string) : JailConfig :=
  let settings := Spec_ProviderConfig spec in
  let parsed := match ParseJailParametersFromMap sprint settings with Ok p => p | Err _ => DefaultJailParameters end in
  let params := if streq (jtext parsed "osrelease") "" then stamped spec parsed else parsed in
  let config :=
    {| JC_Name := Spec_Name spec; JC_Path := mountpoint; JC_Spec := spec; JC_Networks := Spec_Networks spec;
       JC_Parameters := jailParametersFrom settings; JC_JailParameters := params;
       JC_Resources := {| Rs_CPUs := Spec_CPUs spec; Rs_MemoryMB := Spec_MemoryMB spec; Rs_DiskGB := 0; Rs_MaxProc := 0; Rs_ReadBPS := 0;
                          Rs_WriteBPS := 0; Rs_ReadIOPS := 0; Rs_WriteIOPS := 0 |};
       JC_AutoStart := {| as_Enabled := false; as_Priority := 50; as_DelayMS := 0 |};
       JC_RuntimeType := determineRuntimeType spec; JC_VnetEpair := ""; JC_VnetEpairs := []; JC_Hooks := ∅ |} in
  let config := foldl (fun c p => setting c p.1 p.2) config settings in
  match config_at "vnet" settings with
  | Some (VBool true) => with_params config (set_text "ip4" "" (set_text "ip6" "" (JC_JailParameters config)))
  | _ => config
  end.

(** ** The file *)

Section file.
Context {W : Type} `{Host W} `{FileOps W} `{LinkHost W} `{Json JailConfig}.

Definition config_path (p : JailProvider) (name : string) : string := path_Join (JP_stateDir p) (name +:+ ".json").

Definition saveJailConfig (w : W) (c : JailConfig) (file : string) : W * option error :=
  match Marshal c with
  | Err e => (w, Some e)
  | Ok data =>
  match CreateTemp w (path_Dir file) ("." +:+ of_bytes (Base (bytes file)) +:+ "-*") with
  | (w, Err e) => (w, Some e)
  | (w, Ok tmpName) =>
      let '(w, err) :=
        match Chmod w tmpName 384 with
        | (w, Some e) => ((CloseFile w tmpName).1, Some e)
        | (w, None) =>
        match WriteString w tmpName data with
        | (w, Some e) => ((CloseFile w tmpName).1, Some e)
        | (w, None) =>
        match Sync w tmpName with
        | (w, Some e) => ((CloseFile w tmpName).1, Some e)
        | (w, None) => and_then (CloseFile w tmpName) (fun w => Rename w tmpName file)
        end end end in
      ((RemoveFile w tmpName).1, err)
  end end.

Definition with_runtime (c : JailConfig) : JailConfig :=
  if negb (streq (JC_RuntimeType c) "") then c
  else {| JC_Name := JC_Name c; JC_Path := JC_Path c; JC_Spec := JC_Spec c; JC_Networks := JC_Networks c; JC_Parameters := JC_Parameters c;
          JC_JailParameters := JC_JailParameters c; JC_Resources := JC_Resources c; JC_AutoStart := JC_AutoStart c;
          JC_RuntimeType := determineRuntimeType (JC_Spec c); JC_VnetEpair := JC_VnetEpair c; JC_VnetEpairs := JC_VnetEpairs c;
          JC_Hooks := JC_Hooks c |}.
Definition loadJailConfig (w : W) (file : string) : result JailConfig :=
  match ReadFile w file with
  | Err e => Err e
  | Ok data => match Unmarshal data with Err e => Err e | Ok c => Ok (with_runtime c) end
  end.

(** A configuration whose dataset is gone is removed. *)
Definition jailExists (p : JailProvider) (w : W) (name : string) : W * result bool :=
  match ValidateInstanceName name with
  | Some e => (w, Err (Wrapf "invalid jail name %q: %w" [name] e))
  | None =>
      let file := config_path p name in
      match Stat w file with
      | Err e => (w, if errors_Is e ErrNotExist then Ok false else Err e)
      | Ok _ =>
          let '(w, x) := exec w (Command ["zfs"; "list"; "-H"; jail_dataset p name]) in
          match ex_err x with
          | None => (w, Ok true)
          | Some e =>
              if negb (Contains (ex_combined x) "does not exist")
              then (w, Err (Wrapf "failed to check ZFS dataset %s: %w (output: %s)" [jail_dataset p name; TrimSpace (ex_combined x)] e))
              else ((RemoveFile w file).1, Ok false)
          end
      end
  end.

(** The directories every jail needs; a link or a directory in the way is one. *)
Fixpoint ensure_dirs (jailPath : string) (dirs : list string) (w : W) : W * option error :=
  match dirs with
  | [] => (w, None)
  | dir :: rest =>
      let dirPath := path_Join jailPath dir in
      match Lstat w dirPath with
      | Ok info => if is_symlink w dirPath || fi_isdir info then ensure_dirs jailPath rest w
                   else (w, Some (Errorf "path %s exists but is not a directory or symlink" [dir]))
      | Err _ => match MkdirAll w dirPath with
                 | (w, Some e) => (w, Some (Wrapf "failed to create directory %s: %w" [dir] e))
                 | (w, None) => ensure_dirs jailPath rest w
                 end
      end
  end.
Definition ensureJailDirectories (w : W) (jailPath : string) : W * option error := ensure_dirs jailPath ["dev"; "tmp"; "var/run"] w.

(** ** Running jails *)

Definition bad_name (name : string) : option error := wrap "invalid jail name %q: %w" [name] (ValidateInstanceName name).

Definition isJailRunning (w : W) (name : string) : W * result bool :=
  match bad_name name with
  | Some e => (w, Err e)
  | None => let '(w, e) := run w ["jls"; "-j"; name; "-N"] in (w, Ok (is_nil e))
  end.
(** [fmt.Sscanf] of a decimal number at the start of a text. *)
Definition scan_int (s : string) : option Z :=
  let '(neg, digits) := match bytes s with "-"%char :: r => (true, r) | "+"%char :: r => (false, r) | r => (false, r) end in
  match (digits_span digits).1 with
  | [] => None
  | d => match Atoi (of_bytes d) with Ok n => Some (if neg : bool then - n else n) | Err _ => None end
  end.
Definition getJailID (w : W) (name : string) : W * result Z :=
  match bad_name name with
  | Some e => (w, Err e)
  | None =>
      let '(w, x) := exec w (Command ["jls"; "-j"; name; "-h"; "jid"]) in
      (w, match ex_err x with
          | Some e => Err e
          | None => match scan_int (TrimSpace (ex_stdout x)) with Some n => Ok n | None => Err (Errorf "expected integer" []) end
          end)
  end.
Definition getJailIPs (w : W) (name : string) : W * result (list (list Z)) :=
  match bad_name name with
  | Some e => (w, Err e)
  | None =>
      let '(w, x) := exec w (Command ["jls"; "-j"; name; "-h"; "ip4.addr"]) in
      (w, match ex_err x with
          | Some e => Err e
          | None =>
              let ipStr := TrimSpace (ex_stdout x) in
              Ok (if streq ipStr "" || streq ipStr "-" then [] else omap (fun s => ParseIP (TrimSpace s)) (Split ipStr ","))
          end)
  end.

Definition getDefaultFreeBSDImage (w : W) : W * result string :=
  let '(w, x) := exec w (Command ["freebsd-version"; "-u"]) in
  match ex_err x with
  | Some e => (w, Err (Wrapf "failed to detect FreeBSD version: %w" [] e))
  | None =>
      let '(w, y) := exec w (Command ["uname"; "-m"]) in
      (w, Ok (TrimSpace (ex_stdout x) +:+ "-" +:+ match ex_err y with None => TrimSpace (ex_stdout y) | Some _ => "amd64" end))
  end.

Definition GetInstanceState (p : JailProvider) (w : W) (id : string) : W * (string * option error) :=
  match ValidateInstanceName id with
  | Some e => (w, ("", Some (Wrapf "invalid instance id %q: %w" [id] e)))
  | None =>
      match Stat w (config_path p id) with
      | Err e => (w, (StateUnknown, Some (if errors_Is e ErrNotExist then ErrInstanceNotFound
                                           else Wrapf "cannot read the jail configuration: %w" [] e)))
      | Ok _ =>
          match isJailRunning w id with
          | (w, Err e) => (w, (StateUnknown, Some e))
          | (w, Ok running) => (w, (if running then StateRunning else StateStopped, None))
          end
      end
  end.
End file.
End build.
