(* ===== verification/JailHooks.v ===== *)
(** * Hooks of jails (pkg/provider/jail/hooks.go)

    Scripts run around the operations on a jail: those of the global directory,
    those of the jail's own directory, and those its configuration names.  A script
    is run only if it lies in a directory of hooks, links followed. *)

From stdpp Require Import base list gmap strings.
From Stdlib Require Import Ascii ZArith Lia.
From S2P Require Import Prelude GoStrings GoText GoPath PathConfine GoHttp Host Files Validation ProviderTypes InstanceStore JailParams JailNet JailConfig.

Local Open Scope Z_scope.

Definition HookPreCreate : string := "pre-create".
Definition HookPostCreate : string := "post-create".
Definition HookPreStart : string := "pre-start".
Definition HookPostStart : string := "post-start".
Definition HookPreStop : string := "pre-stop".
Definition HookPostStop : string := "post-stop".
Definition HookPreDestroy : string := "pre-destroy".
Definition HookPostDestroy : string := "post-destroy".
Definition hook_types : list string :=
  [HookPreCreate; HookPostCreate; HookPreStart; HookPostStart; HookPreStop; HookPostStop; HookPreDestroy; HookPostDestroy].

(** The exit code and the duration, which nothing modelled reads, apart. *)
Record HookResult := { HR_Type : string; HR_Command : string; HR_TimedOut : bool; HR_Output : string; HR_Error : option error; HR_Fatal : bool }.
Record HookEnv := {
  HE_JailName : string; HE_JailPath : string; HE_JailIP : string; HE_JailBridge : string; HE_HookType : string; HE_ZFSDataset : string
}.

Definition hookIsFatal (hookType : string) : bool :=
  negb (existsb (streq hookType) [HookPostCreate; HookPostStart; HookPostStop; HookPostDestroy]).
Definition validateHookType (hookType : string) : option error :=
  if existsb (streq hookType) hook_types then None else Some (Errorf "invalid hook type: %s" [hookType]).

Definition buildHookEnv (e : HookEnv) : list string :=
  ["PATH=/usr/local/sbin:/usr/local/bin:/usr/sbin:/usr/bin:/sbin:/bin"; "HOSPITUS_JAIL_NAME=" +:+ HE_JailName e;
   "HOSPITUS_JAIL_PATH=" +:+ HE_JailPath e; "HOSPITUS_JAIL_IP=" +:+ HE_JailIP e; "HOSPITUS_JAIL_BRIDGE=" +:+ HE_JailBridge e;
   "HOSPITUS_HOOK_TYPE=" +:+ HE_HookType e; "HOSPITUS_ZFS_DATASET=" +:+ HE_ZFSDataset e].

Definition shell_metacharacters : string := "|&;`$(){}<>!\" +:+ of_bytes [chr 34; "'"%char].
Definition DeadlineExceeded : string := "context deadline exceeded".

Definition rejected (hookType cmd msg : string) (e : error) : HookResult :=
  {| HR_Type := hookType; HR_Command := cmd; HR_TimedOut := false; HR_Output := ""; HR_Error := Some (Wrapf msg [] e); HR_Fatal := false |}.
Definition set_type (e : HookEnv) (hookType : string) : HookEnv :=
  {| HE_JailName := HE_JailName e; HE_JailPath := HE_JailPath e; HE_JailIP := HE_JailIP e; HE_JailBridge := HE_JailBridge e; HE_HookType := hookType;
     HE_ZFSDataset := HE_ZFSDataset e |}.
Definition set_ip (e : HookEnv) (ip : string) : HookEnv :=
  {| HE_JailName := HE_JailName e; HE_JailPath := HE_JailPath e; HE_JailIP := ip; HE_JailBridge := HE_JailBridge e; HE_HookType := HE_HookType e;
     HE_ZFSDataset := HE_ZFSDataset e |}.

(** The entry of the configuration: with hyphens, or else with underscores. *)
Definition configured_hooks (c : JailConfig) (hookType : string) : list string :=
  match JC_Hooks c !! hookType with
  | Some l => l
  | None => if streq hookType HookPostCreate then [] else default [] (JC_Hooks c !! ReplaceByte hookType "-" "_")
  end.

Section hooks.
Context {W : Type} `{Host W} `{FileOps W} `{LinkHost W} `{Json JailConfig}.
Context (GOARCH : string) (cwd : path).

(** [filepath.EvalSymlinks] of the machine, on paths as bytes. *)
Definition eval_path (w : W) (p : path) : result path :=
  match EvalSymlinks w (of_bytes p) with Ok r => Ok (bytes r) | Err e => Err e end.
Definition path_within (w : W) (p root : string) : result bool :=
  match PathWithin cwd (eval_path w) (bytes p) (bytes root) with Some r => r | None => Ok false end.
Definition path_within_any (w : W) (p : string) (roots : list string) : result bool :=
  match PathWithinAny cwd (eval_path w) (bytes p) (map bytes roots) with Some r => r | None => Ok false end.

Definition dirExists (w : W) (path : string) : bool := match Stat w path with Ok i => fi_isdir i | Err _ => false end.
Definition fileExists (w : W) (path : string) : bool := match Stat w path with Ok i => negb (fi_isdir i) | Err _ => false end.

Definition getGlobalHooksDir (w : W) : string :=
  if dirExists w "/usr/local/etc/hospitus/hooks" then "/usr/local/etc/hospitus/hooks" else "/etc/hospitus/hooks".
Definition hooks_root (p : JailProvider) : string := path_Join (JP_stateDir p) "hooks".
Definition getJailHooksDir (p : JailProvider) (jailName : string) : string := if streq jailName "" then hooks_root p else path_Join (hooks_root p) jailName.
Definition allowed_dirs (p : JailProvider) (w : W) : list string := [getGlobalHooksDir w; getJailHooksDir p ""; hooks_root p].

Definition validateHookPath (p : JailProvider) (w : W) (cmd : string) : result string :=
  if ContainsAny cmd shell_metacharacters then Err (Errorf "hook contains shell metacharacters; only script paths are allowed" [])
  else if HasPrefix cmd "-" then Err (Errorf "hook must be an absolute path, not a flag" [])
  else if negb (IsAbs (bytes cmd)) then Err (Errorf "hook must be an absolute path (got: %s)" [cmd])
  else
    let cleaned := of_bytes (Clean (bytes cmd)) in
    match path_within_any w cleaned (allowed_dirs p w) with
    | Err e => Err (Wrapf "cannot verify hook script location %s: %w" [cleaned] e)
    | Ok false => Err (Errorf "hook script must be under an allowed hooks directory (got: %s)" [cleaned])
    | Ok true =>
        match Lstat w cleaned with
        | Err _ => Err (Errorf "hook script not found: %s" [cleaned])
        | Ok info =>
            if is_symlink w cleaned then
              match EvalSymlinks w cleaned with
              | Err _ => Err (Errorf "hook symlink target cannot be resolved: %s" [cleaned])
              | Ok target =>
                  match Stat w target with
                  | Err _ => Err (Errorf "hook symlink target not accessible: %s" [cleaned; target])
                  | Ok ti =>
                      if negb (fi_regular ti) then Err (Errorf "hook symlink target is not a regular file: %s" [cleaned; target])
                      else match path_within_any w target (allowed_dirs p w) with
                           | Err e => Err (Wrapf "cannot verify hook symlink target %s: %w" [target] e)
                           | Ok false => Err (Errorf "hook symlink target is outside allowed directories: %s" [cleaned; target])
                           | Ok true => Ok target
                           end
                  end
              end
            else if negb (fi_regular info) then Err (Errorf "hook must be a regular file, not a directory or special file" [])
            else Ok cleaned
        end
    end.

(** The permissions are set for the owner only, and a failure to do so is only
    logged. *)
Definition executeHook (w : W) (scriptPath : string) (env : HookEnv) (failOnError : bool) : W * HookResult :=
  let w := (Chmod w scriptPath 448).1 in
  let '(w, x) := exec w {| argv := [scriptPath]; cmd_env := Some (buildHookEnv env); cmd_stdin := None; cmd_stdout := None |} in
  (w, match ex_err x with
      | None => {| HR_Type := HE_HookType env; HR_Command := scriptPath; HR_TimedOut := false; HR_Output := ex_combined x; HR_Error := None;
                   HR_Fatal := false |}
      | Some e =>
          let late := errors_Is e DeadlineExceeded in
          {| HR_Type := HE_HookType env; HR_Command := scriptPath; HR_TimedOut := late; HR_Output := ex_combined x;
             HR_Error := Some (if late then Errorf "hook %s timed out after %s (output: %s)" [scriptPath; ex_combined x]
                               else Wrapf "hook %s failed: %w (output: %s)" [scriptPath; ex_combined x] e);
             HR_Fatal := failOnError |}
      end).

Definition runDiscoveredHook (p : JailProvider) (w : W) (hookType scriptPath : string) (env : HookEnv) : W * HookResult :=
  match validateHookPath p w scriptPath with
  | Err e => (w, rejected hookType scriptPath "hook script rejected: %w" e)
  | Ok validated => executeHook w validated (set_type env hookType) true
  end.

(** Scripts in order, up to the first that fails where failures are fatal. *)
Fixpoint run_scripts (p : JailProvider) (hookType : string) (env : HookEnv) (scripts : list string) (w : W) : W * list HookResult * option error :=
  match scripts with
  | [] => (w, [], None)
  | s :: rest =>
      let '(w, r) := runDiscoveredHook p w hookType s env in
      match HR_Error r, hookIsFatal hookType with
      | Some e, true => (w, [r], Some e)
      | _, _ => let '(w, l, e) := run_scripts p hookType env rest w in (w, r :: l, e)
      end
  end.
Definition hook_scripts (dir : string) (entries : list DirEntry) : list string :=
  omap (fun e => if de_isdir e || negb (HasSuffix (de_name e) ".sh") then None else Some (path_Join dir (de_name e))) entries.
Definition executeHooksFromDir (p : JailProvider) (w : W) (hookType dir : string) (env : HookEnv) : W * list HookResult * option error :=
  if negb (dirExists w dir) then (w, [], None)
  else
    let hookScript := path_Join dir (hookType +:+ ".sh") in
    let hookSubdir := path_Join dir hookType in
    let '(w, l, e) := if fileExists w hookScript then run_scripts p hookType env [hookScript] w else (w, [], None) in
    match e with
    | Some _ => (w, l, e)
    | None =>
        if negb (dirExists w hookSubdir) then (w, l, None)
        else match ReadDir w hookSubdir with
             | Err _ => (w, l, None)
             | Ok entries => let '(w, l', e) := run_scripts p hookType env (hook_scripts hookSubdir entries) w in (w, l ++ l', e)
             end
    end.

Fixpoint config_hooks (p : JailProvider) (hookType : string) (env : HookEnv) (cmds : list string) (w : W) : W * list HookResult * option error :=
  match cmds with
  | [] => (w, [], None)
  | cmd :: rest =>
      if streq cmd "" then config_hooks p hookType env rest w
      else
        let failOnError := HasPrefix hookType "pre-" in
        let '(w, r) := match validateHookPath p w cmd with
                       | Err e => (w, rejected hookType cmd "config hook rejected (must be an absolute path within hooks dir): %w" e)
                       | Ok validated => executeHook w validated env failOnError
                       end in
        match HR_Error r, failOnError with
        | Some e, true => (w, [r], Some e)
        | _, _ => let '(w, l, e) := config_hooks p hookType env rest w in (w, r :: l, e)
        end
  end.
Definition executeConfigHooks (p : JailProvider) (w : W) (hookType : string) (c : JailConfig) (env : HookEnv) : W * list HookResult * option error :=
  config_hooks p hookType env (configured_hooks c hookType) w.

(** The address of a running jail replaces the configured one. *)
Definition live_env (w : W) (env : HookEnv) : W * HookEnv :=
  match isJailRunning w (HE_JailName env) with
  | (w, Ok true) => match getJailIPs w (HE_JailName env) with
                    | (w, Ok (ip :: _)) => (w, set_ip env (IP_String ip))
                    | (w, _) => (w, env)
                    end
  | (w, _) => (w, env)
  end.
Definition first_of (a b : option error) : option error := match a with Some e => Some e | None => b end.
Definition ExecuteHooks (p : JailProvider) (w : W) (hookType : string) (env : HookEnv) : W * list HookResult * option error :=
  let '(w, env) := live_env w env in
  let '(w, l1, e1) := executeHooksFromDir p w hookType (getGlobalHooksDir w) env in
  let '(w, l2, e2) := executeHooksFromDir p w hookType (getJailHooksDir p (HE_JailName env)) env in
  match loadJailConfig GOARCH w (config_path p (HE_JailName env)) with
  | Err _ => (w, l1 ++ l2, first_of e1 e2)
  | Ok c => let '(w, l3, e3) := executeConfigHooks p w hookType c env in (w, l1 ++ l2 ++ l3, first_of e1 (first_of e2 e3))
  end.

Definition GetHookEnvForJail (p : JailProvider) (w : W) (jailName hookType : string) : HookEnv :=
  match loadJailConfig GOARCH w (config_path p jailName) with
  | Err _ => {| HE_JailName := jailName; HE_JailPath := ""; HE_JailIP := ""; HE_JailBridge := ""; HE_HookType := hookType; HE_ZFSDataset := "" |}
  | Ok c =>
      let '(ip, bridge) := match JC_Networks c with n :: _ => (Net_IPv4 n, Net_Bridge n) | [] => ("", "") end in
      {| HE_JailName := jailName; HE_JailPath := JC_Path c; HE_JailIP := ip; HE_JailBridge := bridge; HE_HookType := hookType;
         HE_ZFSDataset := jail_dataset p jailName |}
  end.

(** ** Scripts kept for a jail *)

Definition CreateHookScript (p : JailProvider) (w : W) (jailName hookType content : string) : W * option error :=
  match first_error [validateHookType hookType; bad_name jailName] with
  | Some e => (w, Some e)
  | None =>
      let hookDir := getJailHooksDir p jailName in
      and_then (wrapped "failed to create hooks directory: %w" (MkdirAll w hookDir)) (fun w =>
      let hookPath := path_Join hookDir (hookType +:+ ".sh") in
      match path_within w hookDir (hooks_root p) with
      | Err e => (w, Some (Wrapf "cannot verify hook directory %s: %w" [hookDir] e))
      | Ok false => (w, Some (Errorf "hook directory is outside allowed path: %s" [hookDir]))
      | Ok true =>
          let content := if HasPrefix content "#!" then content else "#!/usr/bin/env bash" +:+ String newline content in
          and_then (wrapped "failed to write hook script: %w" (WriteFile w hookPath content)) (fun w =>
          wrapped "failed to set hook script permissions: %w" (Chmod w hookPath 448))
      end)
  end.
Definition DeleteHookScript (p : JailProvider) (w : W) (jailName hookType : string) : W * option error :=
  match first_error [bad_name jailName; validateHookType hookType] with
  | Some e => (w, Some e)
  | None =>
      match RemoveFile w (path_Join (getJailHooksDir p jailName) (hookType +:+ ".sh")) with
      | (w, Some e) => (w, if errors_Is e ErrNotExist then None else Some (Wrapf "failed to delete hook script: %w" [] e))
      | (w, None) => (w, None)
      end
  end.
Definition listed_hook (w : W) (hookDir : string) (e : DirEntry) : option (string * string) :=
  if de_isdir e || negb (HasSuffix (de_name e) ".sh") then None
  else let hookType := TrimSuffix (de_name e) ".sh" in
       if existsb (streq hookType) hook_types
       then match ReadFile w (path_Join hookDir (de_name e)) with Ok content => Some (hookType, content) | Err _ => None end else None.
Definition ListHookScripts (p : JailProvider) (w : W) (jailName : string) : result (list (string * string)) :=
  match bad_name jailName with
  | Some e => Err e
  | None =>
      let hookDir := getJailHooksDir p jailName in
      if negb (dirExists w hookDir) then Ok []
      else match ReadDir w hookDir with
           | Err e => Err (Wrapf "failed to read hooks directory: %w" [] e)
           | Ok entries => Ok (omap (listed_hook w hookDir) entries)
           end
  end.
End hooks.
