(* ===== verification/JailRctl.v ===== *)
(** * Resource limits of jails (pkg/provider/jail/jail_rctl.go)

    The rctl(8) rules of a jail: what may be asked for, how the rules are read
    back, replaced, and put back when the replacement fails; the priority of a
    jail's processes.  The lock that serializes replacements is not modelled: an
    operation runs without another one on the same jail in between. *)

From stdpp Require Import base list gmap strings.
From Stdlib Require Import Ascii ZArith Lia.
From S2P Require Import Prelude GoStrings GoText GoPath GoNet Regexp Host Files Validation ProviderTypes InstanceStore JailParams JailNet JailConfig.

Local Open Scope Z_scope.

Record ResourceLimit := { RL_Resource : string; RL_Action : string; RL_Amount : string }.
#[export] Instance ResourceLimit_eq_dec : EqDecision ResourceLimit.
Proof. solve_decision. Defined.

Definition ErrInvalidResourceLimit : error := Sentinel "invalid resource limit".

(** ** What may be asked for *)

Definition isValidRctlResource (resource : string) : bool :=
  existsb (streq resource)
    ["cputime"; "datasize"; "stacksize"; "coredumpsize"; "memoryuse"; "memorylocked"; "maxproc"; "openfiles"; "vmemoryuse"; "pseudoterminals";
     "swapuse"; "nthr"; "msgqqueued"; "msgqsize"; "nmsgq"; "nsem"; "nsemop"; "nshm"; "shmsize"; "wallclock"; "pcpu"; "readbps"; "writebps";
     "readiops"; "writeiops"].
Definition isValidRctlAction (action : string) : bool :=
  existsb (streq action)
    ["deny"; "log"; "devctl"; "throttle"; "sigabrt"; "sigalrm"; "sigbus"; "sigchld"; "sigcont"; "sigemt"; "sigfpe"; "sighup"; "sigill"; "siginfo";
     "sigint"; "sigio"; "sigkill"; "sigpipe"; "sigprof"; "sigquit"; "sigsegv"; "sigstop"; "sigsys"; "sigterm"; "sigthr"; "sigtrap"; "sigtstp";
     "sigttin"; "sigttou"; "sigurg"; "sigusr1"; "sigusr2"; "sigvtalrm"; "sigwinch"; "sigxcpu"; "sigxfsz"].
Definition rctlCombinationError (resource action : string) : option error :=
  first_error [
    fail_if (streq action "deny" && existsb (streq resource) ["cputime"; "wallclock"; "readbps"; "writebps"; "readiops"; "writeiops"])
      (Wrapf "%w: rctl does not deny %q; use log, devctl or a signal" [resource] ErrInvalidResourceLimit);
    fail_if (streq action "throttle" && negb (existsb (streq resource) ["readbps"; "writebps"; "readiops"; "writeiops"]))
      (Wrapf "%w: rctl only throttles readbps, writebps, readiops and writeiops, not %q" [resource] ErrInvalidResourceLimit)].

(** Digits, then at most one unit. *)
Definition unit_shift (c : ascii) : Z :=
  if ascii_in (bytes "Kk") c then 10 else if ascii_in (bytes "Mm") c then 20 else if ascii_in (bytes "Gg") c then 30
  else if ascii_in (bytes "Tt") c then 40 else if ascii_in (bytes "Pp") c then 50 else if ascii_in (bytes "Ee") c then 60 else 0.
Definition rctlAmountPattern : re := Seq (Cls is_digit) (Seq (Star (Cls is_digit)) (UpTo 1 (Cls (one_of "KMGTPEkmgtpe")))).

Definition MaxUint64 : Z := 2 ^ 64 - 1.
(** An empty amount, on which the index would panic, does not reach it. *)
Definition expandRCTLAmount (amount : string) : result Z :=
  let shift := match rev (bytes amount) with c :: _ => unit_shift c | [] => 0 end in
  let digits := if 0 <? shift then of_bytes (removelast (bytes amount)) else amount in
  match ParseUint digits 64 with
  | Err _ => Err (Errorf "amount %q does not fit a 64-bit count" [amount])
  | Ok n => if (0 <? shift) && (Z.shiftr MaxUint64 shift <? n) then Err (Errorf "amount %q overflows once its unit suffix is applied" [amount])
            else Ok (Z.shiftl n shift mod 2 ^ 64)
  end.
Definition validateRCTLAmount (amount : string) : option error :=
  if 20 <? len amount then Some (Errorf "invalid amount: too long (max 20 characters)" [])
  else if negb (MatchString rctlAmountPattern amount)
  then Some (Errorf "invalid amount %q: expected a whole number with an optional unit suffix, e.g. 2G, 512M or 3600" [amount])
  else match expandRCTLAmount amount with Err e => Some e | Ok _ => None end.

Definition validate_limit (l : ResourceLimit) : option error :=
  first_error [
    fail_if (negb (isValidRctlResource (RL_Resource l))) (Wrapf "%w: unknown resource %q" [RL_Resource l] ErrInvalidResourceLimit);
    fail_if (negb (isValidRctlAction (RL_Action l))) (Wrapf "%w: unknown action %q" [RL_Action l] ErrInvalidResourceLimit);
    match validateRCTLAmount (RL_Amount l) with Some e => Some (Joined [ErrInvalidResourceLimit; e]) | None => None end;
    rctlCombinationError (RL_Resource l) (RL_Action l)].

(** ** Rules as texts *)

Definition rule_text (jail : string) (l : ResourceLimit) : string :=
  "jail:" +:+ jail +:+ ":" +:+ RL_Resource l +:+ ":" +:+ RL_Action l +:+ "=" +:+ RL_Amount l.
Definition parse_rule (line : string) : option ResourceLimit :=
  let line := TrimSpace line in
  if streq line "" then None
  else match Split line ":" with
       | _ :: _ :: resource :: act :: _ =>
           match SplitN2 act "=" with
           | [action; amount] => Some {| RL_Resource := resource; RL_Action := action; RL_Amount := amount |}
           | _ => None
           end
       | _ => None
       end.
Definition parse_rules (output : string) : list ResourceLimit := omap parse_rule (Split (TrimSpace output) newline).

Definition no_rules (output : string) : bool := Contains output "No rules" || Contains output "not found".

(** The limits start applies, with the words errors use for them. *)
Definition maxMemoryMB : Z := 2 ^ 40.
Definition resource_rules (r : ResourceSpec) : list (ResourceLimit * string) :=
  let rule b res act n what := if b : bool then [({| RL_Resource := res; RL_Action := act; RL_Amount := n |}, what)] else [] in
  rule (0 <? Rs_CPUs r) "pcpu" "deny" (Itoa (Rs_CPUs r * 100)) "CPU limit" ++
  rule (0 <? Rs_MemoryMB r) "memoryuse" "deny" (Itoa (Rs_MemoryMB r * 1024 * 1024)) "memory limit" ++
  rule (0 <? Rs_ReadBPS r) "readbps" "throttle" (Itoa (Rs_ReadBPS r)) "read BPS limit" ++
  rule (0 <? Rs_WriteBPS r) "writebps" "throttle" (Itoa (Rs_WriteBPS r)) "write BPS limit" ++
  rule (0 <? Rs_ReadIOPS r) "readiops" "throttle" (Itoa (Rs_ReadIOPS r)) "read IOPS limit" ++
  rule (0 <? Rs_WriteIOPS r) "writeiops" "throttle" (Itoa (Rs_WriteIOPS r)) "write IOPS limit" ++
  rule true "maxproc" "deny" (if 0 <? Rs_MaxProc r then Itoa (Rs_MaxProc r) else "1000") "maxproc limit".

(** ** Commands *)

Section rctl.
Context {W : Type} `{Host W} `{FileOps W} `{LinkHost W} `{Json JailConfig}.
Context (GOARCH : string).

Definition getResourceLimitsLocked (w : W) (id : string) : W * result (list ResourceLimit) :=
  match ValidateInstanceName id with
  | Some e => (w, Err (Wrapf "invalid instance handle: %w" [] e))
  | None =>
      let '(w, x) := exec w (Command ["rctl"; "-l"; "jail:" +:+ id]) in
      (w, match ex_err x with
          | Some e => if no_rules (ex_combined x) then Ok [] else Err (Wrapf "failed to list rctl rules: %w (output: %s)" [ex_combined x] e)
          | None => Ok (parse_rules (ex_combined x))
          end)
  end.
Definition removeResourceLimitsLocked (w : W) (id : string) : W * option error :=
  match ValidateInstanceName id with
  | Some e => (w, Some (Wrapf "invalid instance handle: %w" [] e))
  | None =>
      let '(w, x) := exec w (Command ["rctl"; "-r"; "jail:" +:+ id]) in
      (w, match ex_err x with
          | Some e => if no_rules (ex_combined x) then None else Some (Wrapf "failed to remove rctl rules: %w (output: %s)" [ex_combined x] e)
          | None => None
          end)
  end.
Definition add_rule (w : W) (id : string) (l : ResourceLimit) : W * option error := run w ["rctl"; "-a"; rule_text id l].

(** A rule that cannot be put back is logged and left out. *)
Definition restoreResourceLimits (w : W) (id : string) (previous : list ResourceLimit) : W :=
  match removeResourceLimitsLocked w id with
  | (w, Some _) => w
  | (w, None) => foldl (fun w l => (add_rule w id l).1) w previous
  end.

(** Rules in order; the first that fails puts the previous ones back. *)
Fixpoint add_rules (id : string) (previous : list ResourceLimit) (failed : ResourceLimit * string -> error -> error)
    (rules : list (ResourceLimit * string)) (w : W) : W * option error :=
  match rules with
  | [] => (w, None)
  | r :: rest =>
      match add_rule w id r.1 with
      | (w, Some e) => (restoreResourceLimits w id previous, Some (failed r e))
      | (w, None) => add_rules id previous failed rest w
      end
  end.
Definition replace_rules (w : W) (id refused : string) (failed : ResourceLimit * string -> error -> error) (rules : list (ResourceLimit * string))
    : W * option error :=
  match getResourceLimitsLocked w id with
  | (w, Err e) => (w, Some (Wrapf refused [] e))
  | (w, Ok previous) =>
      and_then (wrapped "failed to remove the existing RCTL rules: %w" (removeResourceLimitsLocked w id)) (add_rules id previous failed rules)
  end.

Definition applyRCTLLimits (w : W) (name : string) (r : ResourceSpec) : W * option error :=
  match first_error [
    bad_name name;
    fail_if ((Rs_MemoryMB r <? 0) || (maxMemoryMB <? Rs_MemoryMB r)) (Errorf "memory limit %d MB is out of range (0..%d)" [Itoa (Rs_MemoryMB r)]);
    fail_if ((Rs_CPUs r <? 0) || (1024 <? Rs_CPUs r)) (Errorf "cpu limit %d is out of range (0..1024)" [Itoa (Rs_CPUs r)])] with
  | Some e => (w, Some e)
  | None =>
      let '(w, x) := exec w (Command ["sysctl"; "-n"; "kern.racct.enable"]) in
      if negb (is_nil (ex_err x)) || negb (streq (TrimSpace (ex_stdout x)) "1")
      then (w, Some (Errorf "RACCT/RCTL is not enabled; resource limits cannot be applied to jail %q" [name]))
      else replace_rules w name "refusing to apply the RCTL limits: the existing rules could not be read, so a failure could not be undone: %w"
             (fun r e => Wrapf "failed to set %s: %w" [r.2] e) (resource_rules r)
  end.

Definition SetResourceLimits (p : JailProvider) (w : W) (id : string) (limits : list ResourceLimit) : W * option error :=
  match ValidateInstanceName id with
  | Some e => (w, Some (Wrapf "invalid instance handle: %w" [] e))
  | None =>
      match GetInstanceState p w id with
      | (w, (_, Some e)) => (w, Some (Wrapf "jail not found: %w" [] e))
      | (w, (_, None)) =>
          match first_error (map validate_limit limits) with
          | Some e => (w, Some e)
          | None =>
              replace_rules w id "refusing to replace the RCTL rules: the existing ones could not be read, so a failure could not be undone: %w"
                (fun r e => Wrapf "failed to add rctl rule %s: %w (output: %s)" [rule_text id r.1] e) (map (fun l => (l, "")) limits)
          end
      end
  end.
Definition GetResourceLimits (w : W) (id : string) : W * result (list ResourceLimit) := getResourceLimitsLocked w id.
Definition RemoveResourceLimits (w : W) (id : string) : W * option error := removeResourceLimitsLocked w id.

Definition SetInstanceResources (p : JailProvider) (w : W) (id : string) (r : ResourceSpec) : W * option error :=
  match ValidateInstanceName id with
  | Some e => (w, Some (Wrapf "invalid instance id %q: %w" [id] e))
  | None =>
      match loadJailConfig GOARCH w (config_path p id) with
      | Err e => (w, Some e)
      | Ok c =>
          and_then (saveJailConfig w (with_resources c r) (config_path p id)) (fun w =>
          match isJailRunning w id with
          | (w, Err e) => (w, Some e)
          | (w, Ok false) => (w, None)
          | (w, Ok true) => wrapped "failed to apply RCTL limits: %w" (applyRCTLLimits w id r)
          end)
      end
  end.

(** ** Priorities *)

Definition pids_of (output : string) : list string := List.filter (fun p => negb (streq p "")) (map TrimSpace (Split output newline)).

Fixpoint renice (priority : Z) (pids : list string) (w : W) : W * list string :=
  match pids with
  | [] => (w, [])
  | pid :: rest =>
      let '(w, x) := exec w (Command ["renice"; "-n"; Itoa priority; "-p"; pid]) in
      let '(w, failed) := renice priority rest w in
      (w, if is_nil (ex_err x) || Contains (ToLower (ex_combined x)) "no such process" then failed
          else (pid +:+ " (" +:+ TrimSpace (ex_combined x) +:+ ")") :: failed)
  end.
Definition live_jail (w : W) (id : string) : W * option error :=
  match bad_name id with
  | Some e => (w, Some e)
  | None => match getJailID w id with
            | (w, Err e) => (w, Some (Wrapf "failed to get jail ID: %w" [] e))
            | (w, Ok jid) => (w, fail_if (jid =? 0) (Errorf "jail %s is not running" [id]))
            end
  end.
Definition SetCPUPriority (w : W) (id : string) (priority : Z) : W * option error :=
  match bad_name id with
  | Some e => (w, Some e)
  | None =>
      if (priority <? -20) || (19 <? priority) then (w, Some (Errorf "priority must be between -20 and 19 (got: %d)" [Itoa priority]))
      else and_then (live_jail w id) (fun w =>
        let '(w, x) := exec w (Command ["jexec"; id; "ps"; "-ax"; "-o"; "pid="]) in
        match ex_err x with
        | Some e => (w, Some (Wrapf "failed to get jail processes: %w (output: %s)" [ex_combined x] e))
        | None =>
            match pids_of (ex_combined x) with
            | [] => (w, Some (Errorf "no processes found in jail %s" [id]))
            | pids => let '(w, failed) := renice priority pids w in
                      (w, match failed with [] => None | _ => Some (Errorf "failed to set CPU priority for %d of %d processes in jail %s: %s" failed) end)
            end
        end)
  end.
Definition GetCPUPriority (w : W) (id : string) : W * result Z :=
  match live_jail w id with
  | (w, Some e) => (w, Err e)
  | (w, None) =>
      let '(w, x) := exec w (Command ["jexec"; id; "ps"; "-ax"; "-o"; "pid="]) in
      match ex_err x with
      | Some e => (w, Err (Wrapf "failed to get jail init process: %w (output: %s)" [ex_combined x] e))
      | None =>
          match pids_of (ex_combined x) with
          | [] => (w, Err (Errorf "no processes found in jail %s" [id]))
          | pid :: _ =>
              let '(w, y) := exec w (Command ["ps"; "-o"; "nice="; "-p"; pid]) in
              (w, match ex_err y with
                  | Some e => Err (Wrapf "failed to get process priority: %w" [] e)
                  | None => wrap_err "failed to parse nice value: %w" [] (Atoi (TrimSpace (ex_combined y)))
                  end)
          end
      end
  end.
End rctl.
