(* ===== verification/JailFacts.v ===== *)
(** * Datasets and parameters of jails: what they guarantee

    A handle names only the dataset of its own jail; what the API lets a key
    without the admin permission set never reaches the parameters that open the
    host to a jail; and which settings of a manifest a jail never sees. *)

From stdpp Require Import base list gmap strings.
From Stdlib Require Import Ascii ZArith Lia.
From S2P Require Import Prelude GoStrings GoText GoPath GoHttp Host Files Validation ProviderTypes ManifestTypes InstanceHandlers Podman PodmanOps PodmanSnapshots JailParams JailNet JailConfig JailRctl.

Local Open Scope Z_scope.

(** ** Datasets *)

Lemma split_l_tail c s w : w ∈ tail (split_l c s) -> exists a b, s = a ++ c :: w ++ b /\ (b = [] \/ exists b', b = c :: b').
Proof.
  intros Hw. pose proof (join_split c s) as Hj. destruct (split_l c s) as [|x ws] eqn:E; [by apply not_elem_of_nil in Hw|]. simpl in Hw.
  rewrite <- Hj. clear E Hj s. revert x. induction ws as [|y ws IH]; intros x; [by apply not_elem_of_nil in Hw|].
  apply elem_of_cons in Hw as [->|Hw].
  - exists x. exists (match ws with [] => [] | _ => c :: join_l [c] ws end). cbn [join_l]. split; [destruct ws; simpl; [by rewrite app_nil_r|done]|]. destruct ws; [by left|right; eauto].
  - destruct (IH Hw y) as (a & b & E & Hb). exists (x ++ [c] ++ a), b. split; [|done]. cbn [join_l]. cbn [join_l] in E. rewrite E.
    by rewrite <- !app_assoc.
Qed.

(** What the check of a name excludes. *)
Lemma good_dataset_name ds : bad_dataset_name ds = false -> "@"%char ∉ bytes ds /\ ".."%string ∉ tail (Split ds "/").
Proof.
  unfold bad_dataset_name. rewrite !orb_false_iff. intros [[[Ha Hc] Hs] _]. split.
  - rewrite ContainsAny_false, Forall_forall in Ha. intros Hin. apply (Ha _ Hin). vm_compute. left.
  - intros Hin. unfold Split in Hin. assert (bytes ".."%string ∈ tail (split_l "/" (bytes ds))) as Hin'.
    { destruct (split_l "/" (bytes ds)) as [|x l]; cbn [map tail] in *; [by apply not_elem_of_nil in Hin|]. apply list_elem_of_fmap in Hin as (w & Ew & Hw).
      apply (f_equal bytes) in Ew. rewrite bytes_of_bytes in Ew. by rewrite Ew. }
    apply split_l_tail in Hin' as (a & b & E & [->|[b' ->]]).
    + apply Bool.not_true_iff_false in Hs. apply Hs, HasSuffix_spec. exists (of_bytes a). apply (inj bytes). rewrite bytes_app, bytes_of_bytes, E.
      by rewrite app_nil_r.
    + apply Bool.not_true_iff_false in Hc. apply Hc, Contains_spec. exists (of_bytes a), (of_bytes b'). apply (inj bytes).
      rewrite !bytes_app, !bytes_of_bytes, E. done.
Qed.

Lemma below_spec ds parent : below ds parent = true -> exists rest, rest <> "" /\ ds = parent +:+ "/" +:+ rest.
Proof.
  unfold below. rewrite !andb_true_iff. intros [[_ Hp] Hl]. apply HasPrefix_spec in Hp as [rest ->]. exists rest. split.
  - intros ->. apply Z.ltb_lt in Hl. unfold len in Hl. rewrite !bytes_app, !length_app in Hl. simpl in Hl. lia.
  - apply (inj bytes). by rewrite !bytes_app, <- app_assoc.
Qed.

Section owned.
Context (p : JailProvider).

Lemma owned_below ds : ensureOwnDataset p ds = None ->
  exists parent rest, (parent = JP_zfsParent p \/ parent = getVolumesParent p) /\ rest <> "" /\ ds = parent +:+ "/" +:+ rest /\
    "@"%char ∉ bytes ds /\ ".."%string ∉ tail (Split ds "/").
Proof.
  unfold ensureOwnDataset. destruct (_ || _) eqn:Eb; [done|]. apply orb_false_iff in Eb as [_ Eb]. destruct (existsb _ _) eqn:Ee; [|done]. intros _.
  apply existsb_exists in Ee as (parent & Hin & Hb). apply below_spec in Hb as (rest & Hr & ->). exists parent, rest.
  split_and!; [|done|done|by apply good_dataset_name..]. destruct Hin as [<-|[<-|[]]]; auto.
Qed.

Lemma datasetFor_own h ds : datasetFor p h = Ok ds -> ds = jail_dataset p (Handle_ID h) /\ ValidateInstanceName (Handle_ID h) = None.
Proof.
  unfold datasetFor. destruct (ValidateInstanceName _); [done|]. destruct (text_at _ _) as [d|]; [|naive_solver]. destruct (streq d ""); [naive_solver|].
  destruct (ensureOwnDataset p d); [done|]. destruct (streq d _) eqn:E; [|done]. apply streq_true in E. naive_solver.
Qed.

Lemma snapshotFor_own s z : snapshotFor p s = Ok z ->
  exists snap, z = jail_dataset p (sh_Instance s) +:+ "@" +:+ snap /\ ValidateSnapshotName snap = None /\ ValidateInstanceName (sh_Instance s) = None.
Proof.
  unfold snapshotFor. destruct (text_at _ _) as [n|]; [|done]. destruct (streq n ""); [done|]. unfold ensureOwnSnapshot.
  destruct (Contains n "@") eqn:Ec; [|done]. cbn [negb]. unfold ensureOwnDatasetOrSnapshot. destruct (Cut n "@") as [[ds snap]|] eqn:Ecut.
  - destruct (ValidateSnapshotName snap) eqn:Es; [done|]. destruct (ensureOwnDataset p ds); [done|]. destruct (ValidateInstanceName _) eqn:Ei; [done|].
    destruct (streq ds _) eqn:Ed; [|done]. apply streq_true in Ed as ->. intros [= <-]. exists snap. apply Cut_Some in Ecut as [-> _].
    split_and!; [|done..]. by apply (inj bytes); rewrite !bytes_app.
  - exfalso. apply Cut_None in Ecut. apply Contains_char in Ec. done.
Qed.

Context {W : Type} `{Host W}.

Lemma destroy_owned (w : W) ds force : ensureOwnDataset p ds <> None -> (destroyZFSDataset p w ds force).1 = w /\ (destroyZFSDataset p w ds force).2 <> None.
Proof. unfold destroyZFSDataset. by destruct (ensureOwnDataset p ds). Qed.
End owned.

(** C17: a handle reaches only the data of its own jail.  Whatever a client wrote
    into the metadata of a handle, the dataset taken from it is that of the jail it
    is the handle of, and a snapshot is one of that dataset; and no dataset is
    destroyed unless it lies strictly below a parent of the provider, by a name
    without snapshot and without a step upwards. *)
Theorem handles_stay_with_their_jail {W : Type} `{Host W} (p : JailProvider) (h : InstanceHandle) (s : SnapshotHandle) (ds z d : string) (w : W) (force : bool) :
  (datasetFor p h = Ok ds -> ds = jail_dataset p (Handle_ID h) /\ ValidateInstanceName (Handle_ID h) = None) /\
  (snapshotFor p s = Ok z -> exists snap, z = jail_dataset p (sh_Instance s) +:+ "@" +:+ snap /\ ValidateSnapshotName snap = None) /\
  ((destroyZFSDataset p w d force).1 <> w ->
   exists parent rest, (parent = JP_zfsParent p \/ parent = getVolumesParent p) /\ rest <> "" /\ d = parent +:+ "/" +:+ rest /\
     "@"%char ∉ bytes d /\ ".."%string ∉ tail (Split d "/")).
Proof.
  split_and!.
  - apply datasetFor_own.
  - intros (snap & ? & ? & _)%snapshotFor_own. eauto.
  - intros Hd. destruct (ensureOwnDataset p d) eqn:E; [|by apply owned_below]. exfalso. apply Hd, destroy_owned. by rewrite E.
Qed.

(** ** Parameters a key without the admin permission cannot reach *)

Section overlay_facts.
Context (sprint : value -> string).

Lemma checked_text_other check k v p p' k' : checked_text sprint check k v p = Ok p' -> k <> k' ->
  jbool p' k' = jbool p k' /\ jint p' k' = jint p k' /\ jtext p' k' = jtext p k'.
Proof.
  unfold checked_text. destruct (if streq _ _ then _ else _); [done|]. intros [= <-] Hk. split_and!; [done|done|].
  unfold jtext, set_text. simpl. by rewrite lookup_insert_ne.
Qed.
Lemma apply_other p key v p' k : apply_parameter sprint p key v = Ok p' -> ToLower key <> k ->
  jbool p' k = jbool p k /\ jint p' k = jint p k /\ jtext p' k = jtext p k.
Proof.
  unfold apply_parameter. intros E Hk.
  repeat match type of E with (if ?b then _ else _) = _ => destruct b end; try done; try (by eapply checked_text_other); simplify_eq; try done;
    unfold jbool, jint, jtext, set_bool, set_int, set_text; simpl; rewrite ?lookup_insert_ne by done; done.
Qed.
Lemma overlay_other m : forall p p' k, ApplyJailParameterMap sprint p m = Ok p' -> Forall (fun e => ToLower e.1 <> k) m ->
  jbool p' k = jbool p k /\ jint p' k = jint p k /\ jtext p' k = jtext p k.
Proof.
  induction m as [|[key v] m IH]; intros p p' k E Hm; simpl in E; [by simplify_eq|]. apply Forall_cons in Hm as [Hk Hm].
  destruct (apply_parameter sprint p key v) as [q|] eqn:Eq; [|done]. destruct (IH _ _ k E Hm) as (-> & -> & ->).
  eapply apply_other; done.
Qed.

Lemma setting_params c k v : JC_JailParameters (setting c k v) = JC_JailParameters c.
Proof. unfold setting, applyHooksKey. repeat case_match; done. Qed.
Lemma settings_params m : forall c, JC_JailParameters (foldl (fun c p => setting c p.1 p.2) c m) = JC_JailParameters c.
Proof. induction m as [|e m IH]; intros c; simpl; [done|]. by rewrite IH, setting_params. Qed.
Lemma setting_rest c k v : JC_Parameters (setting c k v) = JC_Parameters c /\ JC_Resources (setting c k v) = JC_Resources c.
Proof. unfold setting, applyHooksKey. repeat case_match; done. Qed.
Lemma settings_rest m : forall c, JC_Parameters (foldl (fun c p => setting c p.1 p.2) c m) = JC_Parameters c /\
  JC_Resources (foldl (fun c p => setting c p.1 p.2) c m) = JC_Resources c.
Proof. induction m as [|e m IH]; intros c; simpl; [done|]. destruct (IH (setting c e.1 e.2)) as [-> ->]. apply setting_rest. Qed.

Lemma stamped_other spec p k : k <> "osrelease" -> k <> "osreldate" ->
  jbool (stamped spec p) k = jbool p k /\ jint (stamped spec p) k = jint p k /\ jtext (stamped spec p) k = jtext p k.
Proof.
  intros H1 H2. unfold stamped. destruct (freebsdUserlandVersion _ _) as [r d]. destruct (streq r ""); [done|].
  unfold jbool, jint, jtext, set_int, set_text. simpl. by rewrite !lookup_insert_ne.
Qed.

Definition outside_stamp (k : string) : Prop := k <> "osrelease" /\ k <> "osreldate" /\ k <> "ip4" /\ k <> "ip6".

(** A parameter no setting names keeps its default. *)
Lemma build_other GOARCH spec mp k : outside_stamp k -> Forall (fun e => ToLower e.1 <> k) (Spec_ProviderConfig spec) ->
  let p := JC_JailParameters (buildJailConfig GOARCH sprint spec mp) in
  jbool p k = jbool DefaultJailParameters k /\ jint p k = jint DefaultJailParameters k /\ jtext p k = jtext DefaultJailParameters k.
Proof.
  intros (H1 & H2 & H3 & H4) Hm. unfold buildJailConfig.
  set (parsed := match ParseJailParametersFromMap _ _ with Ok p => p | Err _ => _ end).
  assert (jbool parsed k = jbool DefaultJailParameters k /\ jint parsed k = jint DefaultJailParameters k /\ jtext parsed k = jtext DefaultJailParameters k) as Hp.
  { unfold parsed. destruct (ParseJailParametersFromMap _ _) eqn:E; [|done]. by eapply overlay_other. }
  set (params := if streq (jtext parsed "osrelease") "" then _ else _).
  assert (jbool params k = jbool DefaultJailParameters k /\ jint params k = jint DefaultJailParameters k /\ jtext params k = jtext DefaultJailParameters k) as Hq.
  { unfold params. destruct (streq _ _); [|done]. destruct (stamped_other spec parsed k H1 H2) as (-> & -> & ->). done. }
  clearbody params. cbn zeta. repeat case_match; cbn [JC_JailParameters with_params]; rewrite !settings_params; cbn [JC_JailParameters].
  all: try exact Hq. destruct Hq as (? & ? & Ht). split_and!; [done|done|]. rewrite <- Ht. unfold jtext, set_text. cbn [jp_texts].
  by rewrite !lookup_insert_ne.
Qed.
End overlay_facts.

(** Every parameter with a field. *)
Definition jail_keys : list string := bool_keys ++ int_keys ++ command_keys ++ ["exec.consolelog"] ++ user_keys ++ plain_keys.

Lemma jail_keys_lower : Forall (fun k => ToLower k = k) jail_keys.
Proof. apply (bool_decide_unpack _). by vm_compute. Qed.

Lemma privileged_outside_stamp k : privilegedProviderConfigKey k = true -> outside_stamp k.
Proof. intros Hk. split_and!; intros ->; by vm_compute in Hk. Qed.

Lemma unprivileged_keys settings : privilegedProviderConfig settings = "" -> Forall (fun e : string * value => privilegedProviderConfigKey e.1 = false) settings.
Proof.
  unfold privilegedProviderConfig. destruct (List.find _ _) as [[key v]|] eqn:E.
  - intros ->. apply find_some in E as [_ E]. by vm_compute in E.
  - intros _. apply Forall_forall. intros e He. apply (find_none _ _ E), list_elem_of_In, He.
Qed.

Lemma setting_path m : forall c, JC_Path (foldl (fun c p => setting c p.1 p.2) c m) = JC_Path c.
Proof. induction m as [|e m IH]; intros c; simpl; [done|]. rewrite IH. unfold setting, applyHooksKey. repeat case_match; done. Qed.

(** The other fields of a configuration. *)
Lemma build_fields sprint GOARCH spec mp : let c := buildJailConfig GOARCH sprint spec mp in
  JC_Parameters c = jailParametersFrom (Spec_ProviderConfig spec) /\ JC_Path c = mp /\
  JC_Resources c = {| Rs_CPUs := Spec_CPUs spec; Rs_MemoryMB := Spec_MemoryMB spec; Rs_DiskGB := 0; Rs_MaxProc := 0; Rs_ReadBPS := 0;
                      Rs_WriteBPS := 0; Rs_ReadIOPS := 0; Rs_WriteIOPS := 0 |}.
Proof.
  unfold buildJailConfig. set (parsed := match ParseJailParametersFromMap _ _ with Ok p => p | Err _ => _ end).
  set (params := if streq (jtext parsed "osrelease") "" then _ else _). clearbody params.
  set (c0 := {| JC_Name := _ |}). set (c1 := foldl _ c0 _). assert (forall c2, c2 = c1 \/ (exists q, c2 = with_params c1 q) ->
    JC_Parameters c2 = JC_Parameters c0 /\ JC_Path c2 = JC_Path c0 /\ JC_Resources c2 = JC_Resources c0) as Hc.
  { destruct (settings_rest (Spec_ProviderConfig spec) c0) as [E1 E2]. pose proof (setting_path (Spec_ProviderConfig spec) c0) as E3.
    intros c2 [->|[q ->]]; done. }
  apply Hc. destruct (config_at "vnet" _) as [[]|]; try (by left). destruct b; [right; by eexists|by left].
Qed.

Lemma privileged_fold a b : ToLower a = ToLower b -> privilegedProviderConfigKey a = privilegedProviderConfigKey b.
Proof. intros E. unfold privilegedProviderConfigKey. by rewrite E. Qed.

Lemma unprivileged_key_free k settings : k ∈ jail_keys -> privilegedProviderConfigKey k = true ->
  Forall (fun e : string * value => privilegedProviderConfigKey e.1 = false) settings -> Forall (fun e => ToLower e.1 <> k) settings.
Proof.
  intros Hin Hpk Hk. pose proof (proj1 (Forall_forall _ _) jail_keys_lower k Hin) as Hlow. cbn beta in Hlow.
  eapply Forall_impl; [exact Hk|]. intros e Hp E. cbn beta in Hp, E. rewrite (privileged_fold e.1 k), Hpk in Hp; [discriminate Hp|]. by rewrite E, Hlow.
Qed.

(** C18: the boundary the API draws is the one jails keep.  A configuration that
    needs no admin key leaves every privileged parameter of the jail at its
    default - the commands jail(8) runs on the host, the mounts a jail may make,
    its devices, its security level and what it sees of the file systems - and
    hands jail(8) no privileged parameter of the free form either. *)
Theorem unprivileged_settings_keep_the_boundary sprint GOARCH (spec : InstanceSpec) (mountpoint k : string) :
  privilegedProviderConfig (Spec_ProviderConfig spec) = "" ->
  let c := buildJailConfig GOARCH sprint spec mountpoint in
  (k ∈ jail_keys -> privilegedProviderConfigKey k = true ->
   jbool (JC_JailParameters c) k = jbool DefaultJailParameters k /\ jint (JC_JailParameters c) k = jint DefaultJailParameters k /\
   jtext (JC_JailParameters c) k = jtext DefaultJailParameters k) /\
  Forall (fun e => privilegedProviderConfigKey e.1 = false) (JC_Parameters c) /\ JC_Path c = mountpoint.
Proof.
  intros Hu c. pose proof (unprivileged_keys _ Hu) as Hk. destruct (build_fields sprint GOARCH spec mountpoint) as (Hp & Hpath & _).
  fold c in Hp, Hpath. split_and!; [|rewrite Hp|done].
  - intros Hin Hpk. exact (build_other sprint GOARCH spec mountpoint k (privileged_outside_stamp k Hpk) (unprivileged_key_free k _ Hin Hpk Hk)).
  - apply Forall_forall. intros e He. apply list_elem_of_In, filter_In in He as [He _]. rewrite Forall_forall in Hk. by apply Hk, list_elem_of_In.
Qed.

Definition plain_spec (settings : list (string * value)) (maxproc readbps : Z) : InstanceSpec :=
  {| Spec_Name := "web"; Spec_Description := ""; Spec_CPUs := 2; Spec_MemoryMB := 0; Spec_MaxProc := maxproc; Spec_ReadBPS := readbps;
     Spec_WriteBPS := 0; Spec_ReadIOPS := 0; Spec_WriteIOPS := 0; Spec_Image := "14.1-RELEASE-amd64"; Spec_OSType := ""; Spec_OSVersion := "";
     Spec_Arch := ""; Spec_CloudInit := None; Spec_Bootloader := ""; Spec_Disks := []; Spec_Networks := []; Spec_ProviderConfig := settings;
     Spec_Labels := []; Spec_Annotations := [] |}.

Lemma unprivileged_settings_keep_the_boundary_witness :
  jint (JC_JailParameters (buildJailConfig "amd64" (fun _ => "") (plain_spec [("allow.raw_sockets", VBool true)] 0 0) "/jails/web")) "securelevel" =
  jint DefaultJailParameters "securelevel".
Proof.
  assert (privilegedProviderConfig (Spec_ProviderConfig (plain_spec [("allow.raw_sockets", VBool true)] 0 0)) = "") as Hu by (by vm_compute).
  destruct (unprivileged_settings_keep_the_boundary (fun _ => "") "amd64" (plain_spec [("allow.raw_sockets", VBool true)] 0 0) "/jails/web" "securelevel" Hu)
    as [Hk _].
  apply Hk; [apply (bool_decide_unpack _); by vm_compute|by vm_compute].
Defined.

(** ** Numbers of a manifest *)

Lemma overlay_app sprint m : forall m' p, ApplyJailParameterMap sprint p (m ++ m') =
  match ApplyJailParameterMap sprint p m with Ok q => ApplyJailParameterMap sprint q m' | Err e => Err e end.
Proof. induction m as [|[k v] m IH]; intros m' p; simpl; [done|]. by destruct (apply_parameter sprint p k v). Qed.

Lemma int_keys_not_bool : Forall (fun k => mem k bool_keys = false /\ mem k int_keys = true) int_keys.
Proof. apply (bool_decide_unpack _). by vm_compute. Qed.

(** A number a stack manifest gives for a jail is lost.  TOML yields numbers
    of the type [int64], which the overlay has no case for: the parameter becomes
    0, whatever was asked for; and unless it is one of the few parameters of the
    free form, nothing else of it reaches jail(8). *)
Theorem stack_numbers_lost_on_jails sprint (pre post : list (string * value)) (key : string) (n : Z) (p : JailParameters) :
  ToLower key ∈ int_keys -> Forall (fun e => ToLower e.1 <> ToLower key) post ->
  ParseJailParametersFromMap sprint (pre ++ (key, VInt64 n) :: post) = Ok p ->
  jint p (ToLower key) = 0 /\
  (ValidateJailParameter key <> None -> Forall (fun e => e.1 <> key) (jailParametersFrom (pre ++ (key, VInt64 n) :: post))).
Proof.
  intros Hin Hpost E. pose proof (proj1 (Forall_forall _ _) int_keys_not_bool _ Hin) as [Hb Hi]. split.
  - unfold ParseJailParametersFromMap in E. rewrite overlay_app in E. destruct (ApplyJailParameterMap _ _ pre) as [q|]; [|done].
    cbn [ApplyJailParameterMap] in E. unfold apply_parameter in E. rewrite Hb, Hi in E.
    destruct (overlay_other sprint post _ _ (ToLower key) E Hpost) as (_ & -> & _). unfold jint, set_int. cbn [jp_ints]. by rewrite lookup_insert_eq.
  - intros Hv. apply Forall_forall. intros e He E'. subst key. apply list_elem_of_In, filter_In in He as [_ He].
    by destruct (ValidateJailParameter e.1).
Qed.

Lemma stack_numbers_lost_on_jails_witness : exists p, ParseJailParametersFromMap (fun _ => "") [("securelevel", VInt64 3)] = Ok p /\ jint p "securelevel" = 0.
Proof.
  destruct (ParseJailParametersFromMap (fun _ => "") [("securelevel", VInt64 3)]) as [p|] eqn:E; [|by vm_compute in E].
  exists p. split; [done|]. change "securelevel" with (ToLower "securelevel").
  refine (proj1 (stack_numbers_lost_on_jails (fun _ => "") [] [] "securelevel" 3 p _ _ E)); [apply (bool_decide_unpack _); by vm_compute|by constructor].
Defined.

(** ** Limits of a specification *)

(** C39: of the limits a specification asks for, a jail is started under those on
    processors and memory only.  The limits on processes, bytes and operations are
    not copied into its configuration: whatever they are, the rules made from it
    are those two and the standard limit of a thousand processes. *)
Theorem spec_limits_not_enforced sprint GOARCH (spec : InstanceSpec) (mountpoint : string) (l : ResourceLimit) :
  l ∈ map fst (resource_rules (JC_Resources (buildJailConfig GOARCH sprint spec mountpoint))) ->
  RL_Resource l = "pcpu" \/ RL_Resource l = "memoryuse" \/ l = {| RL_Resource := "maxproc"; RL_Action := "deny"; RL_Amount := "1000" |}.
Proof.
  destruct (build_fields sprint GOARCH spec mountpoint) as (_ & _ & ->). unfold resource_rules. cbn. 
  destruct (0 <? Spec_CPUs spec), (0 <? Spec_MemoryMB spec); cbn; rewrite ?elem_of_cons, ?elem_of_nil; naive_solver.
Qed.

Lemma spec_limits_not_enforced_witness :
  let l := {| RL_Resource := "maxproc"; RL_Action := "deny"; RL_Amount := "1000" |} in
  let rules := map fst (resource_rules (JC_Resources (buildJailConfig "amd64" (fun _ => "") (plain_spec [] 50 1000000) "/jails/web"))) in
  l ∈ rules /\ (RL_Resource l = "pcpu" \/ RL_Resource l = "memoryuse" \/ l = {| RL_Resource := "maxproc"; RL_Action := "deny"; RL_Amount := "1000" |}).
Proof.
  intros l rules. assert (l ∈ rules) as Hl by (apply (bool_decide_unpack _); by vm_compute). split; [exact Hl|].
  exact (spec_limits_not_enforced (fun _ => "") "amd64" (plain_spec [] 50 1000000) "/jails/web" l Hl).
Defined.
