(* ===== verification/JailRctlFacts.v ===== *)
(** * Resource limits of jails: replacement is all or nothing

    What rctl(8) does with rules is the class [RctlLaws]; a sample machine that
    keeps it is at the end. *)

From stdpp Require Import base list gmap strings.
From Stdlib Require Import Ascii ZArith Lia.
From S2P Require Import Prelude GoStrings GoText GoWords GoPath GoNet Regexp Host Files Validation ValidationFacts ProviderTypes InstanceStore JailParams JailNet JailConfig JailRctl.

Local Open Scope Z_scope.

(** ** Rules as rctl prints them *)

Definition clean_field (s : string) : Prop := word s /\ ":"%char ∉ bytes s /\ "="%char ∉ bytes s.
Definition clean_rule (l : ResourceLimit) : Prop := clean_field (RL_Resource l) /\ clean_field (RL_Action l) /\ clean_field (RL_Amount l).

Lemma TrimSpace_newline s c d l : bytes s = c :: l -> graphic c = true -> last (bytes s) = Some d -> graphic d = true ->
  TrimSpace (s +:+ String newline "") = s.
Proof.
  intros Es Hc Hd Hg. unfold TrimSpace. rewrite bytes_app. change (bytes (String newline "")) with [newline].
  assert (strip_all (length (bytes s ++ [newline])) space_encodings (bytes s ++ [newline]) = bytes s ++ [newline]) as ->.
  { rewrite Es. cbn [length app strip_all]. by rewrite strip_graphic. }
  assert (exists l', rev (bytes s) = d :: l') as [l' El].
  { apply last_Some in Hd as [l' ->]. rewrite rev_app_distr. simpl. eauto. }
  rewrite rev_app_distr, length_app. cbn [rev app length]. rewrite Nat.add_comm. cbn [Nat.add strip_all].
  change (strip_one (map (@rev ascii) space_encodings) (newline :: rev (bytes s))) with (Some (rev (bytes s))). cbn match.
  assert (strip_all (length (bytes s)) (map (@rev ascii) space_encodings) (rev (bytes s)) = rev (bytes s)) as ->.
  { rewrite El. destruct (bytes s); [done|]. cbn [length strip_all]. by rewrite strip_graphic_end. }
  by rewrite rev_involutive, of_bytes_bytes.
Qed.

Lemma word_app a b : word a -> word b -> word (a +:+ b).
Proof.
  intros [Ha Fa] [Hb Fb]. split; [by destruct a|]. rewrite bytes_app. by apply Forall_app.
Qed.
Lemma rule_word jail l : word jail -> clean_rule l -> word (rule_text jail l).
Proof.
  intros Hj ((Hr & _) & (Ha & _) & (Hm & _)). unfold rule_text.
  repeat apply word_app; try done; (split; [done|by apply (bool_decide_unpack _)]).
Qed.

Lemma rule_parts jail l : ":"%char ∉ bytes jail -> clean_rule l ->
  Split (rule_text jail l) ":" = ["jail"; jail; RL_Resource l; RL_Action l +:+ "=" +:+ RL_Amount l].
Proof.
  intros Hj ((_ & Hr & _) & (_ & Ha & _) & (_ & Hm & _)). unfold Split, rule_text. rewrite !bytes_app.
  change (bytes "jail:") with (bytes "jail" ++ [":"%char]). change (bytes ":") with [":"%char]. rewrite <- !app_assoc. cbn [app].
  rewrite split_cons by (apply (bool_decide_unpack _); by vm_compute). rewrite split_cons by done. rewrite split_cons by done. rewrite split_none.
  2: { rewrite !elem_of_app. intros [?|[?|?]]; set_solver. }
  cbn [map]. rewrite !of_bytes_bytes. do 3 f_equal. by rewrite <- !bytes_app, of_bytes_bytes.
Qed.

Lemma parse_rule_text jail l : word jail -> ":"%char ∉ bytes jail -> clean_rule l -> parse_rule (rule_text jail l) = Some l.
Proof.
  intros Hw Hj Hl. unfold parse_rule. rewrite TrimSpace_word by by apply rule_word. rewrite (proj2 (streq_false (rule_text jail l) "")) by done.
  rewrite rule_parts by done. cbn match. unfold SplitN2. destruct Hl as (Hr & (Ha & _ & Hae) & Hm).
  rewrite (proj2 (Cut_Some (RL_Action l +:+ "=" +:+ RL_Amount l) "=" (RL_Action l) (RL_Amount l))); [by destruct l|].
  split; [done|]. done.
Qed.

(** One rule on a line. *)
Definition listing (jail : string) (ls : list ResourceLimit) : string := fold_right (fun l text => rule_text jail l +:+ String newline text) "" ls.

Lemma listing_join jail ls : ls <> [] -> listing jail ls = JoinStrings (map (rule_text jail) ls) (String newline "") +:+ String newline "".
Proof.
  intros Hne. apply (inj bytes). unfold JoinStrings. rewrite bytes_app, bytes_of_bytes, map_map. change (bytes (String newline "")) with [newline].
  induction ls as [|l ls IH]; [done|]. cbn [listing fold_right]. rewrite bytes_app. change (bytes (String newline ?t)) with (newline :: bytes t).
  destruct ls as [|l' ls]; [done|]. fold (listing jail (l' :: ls)). rewrite IH by done. cbn [map join_l]. by rewrite <- !app_assoc.
Qed.

Lemma parse_listing jail ls : word jail -> ":"%char ∉ bytes jail -> Forall clean_rule ls -> parse_rules (listing jail ls) = ls.
Proof.
  intros Hw Hj Hls. destruct (decide (ls = [])) as [->|Hne]; [by vm_compute|]. unfold parse_rules.
  assert (Forall word (map (rule_text jail) ls)) as Hws by (apply Forall_fmap; eapply Forall_impl; [exact Hls|]; intros; by apply rule_word).
  rewrite listing_join by done. set (text := JoinStrings _ _).
  assert (exists c d l, bytes text = c :: l /\ graphic c = true /\ last (bytes text) = Some d /\ graphic d = true) as (c & d & l & ? & ? & ? & ?).
  { unfold text, JoinStrings. rewrite bytes_of_bytes. destruct (map (rule_text jail) ls) as [|x xs] eqn:E; [by destruct ls|]. clear E text.
    assert (forall x xs, Forall word (x :: xs) -> exists d, last (join_l (bytes (String newline "")) (map bytes (x :: xs))) = Some d /\ graphic d = true) as Hlast.
    { clear. intros x xs. revert x. induction xs as [|y xs IH]; intros x H; inversion H as [|? ? Hx Hxs]; subst.
      - simpl. by apply word_ends in Hx as (? & d & ? & ? & ? & ? & ?); eauto.
      - destruct (IH y Hxs) as (d & Hd & Hg). exists d. split; [|done]. cbn [map join_l] in Hd |- *.
        rewrite last_app. destruct (last (_ ++ _)) as [e|] eqn:E; [rewrite last_app, Hd in E; congruence|]. by rewrite last_app, Hd in E. }
    destruct (Hlast x xs Hws) as (d & Hd & Hg). inversion Hws as [|? ? Hx _]; subst. apply word_ends in Hx as (c & ? & l & E & Hc & _).
    cbn [map]. destruct xs; cbn [map join_l] in *; rewrite E in *; cbn [app] in *; repeat eexists; done. }
  rewrite (TrimSpace_newline text c d l) by done. change (Split text newline) with (Lines text). unfold text.
  rewrite Lines_Join; [|by destruct ls|].
  - clear -Hw Hj Hls. induction Hls as [|l ls Hl Hls IH]; [done|]. cbn [map omap list_omap]. rewrite parse_rule_text by done. f_equal. exact IH.
  - apply Forall_fmap. eapply Forall_impl; [exact Hls|]. intros r Hr. by apply word_no_space, rule_word.
Qed.

(** ** What rctl does *)

(** A rule as the kernel keeps it: the unit multiplied out. *)
Definition expanded (l : ResourceLimit) : ResourceLimit :=
  {| RL_Resource := RL_Resource l; RL_Action := RL_Action l;
     RL_Amount := match expandRCTLAmount (RL_Amount l) with Ok n => Itoa n | Err _ => RL_Amount l end |}.

(** The rules of each jail.  Whether a rule is taken depends on the rule alone,
    and what is listed can be given back. *)
Class RctlLaws (W : Type) `{Host W} := {
  rules : W -> string -> list ResourceLimit;
  accepts : ResourceLimit -> bool;
  rules_law w j : Forall (fun l => clean_rule l /\ accepts l = true /\ expanded l = l) (rules w j);
  add_law w j l : ValidateInstanceName j = None -> clean_rule l ->
    let '(w', x) := exec w (Command ["rctl"; "-a"; rule_text j l]) in
    (ex_err x = None <-> accepts l = true) /\
    forall k, rules w' k = if decide (k = j /\ accepts l = true) then rules w k ++ [expanded l] else rules w k;
  remove_law w j : let '(w', x) := exec w (Command ["rctl"; "-r"; "jail:" +:+ j]) in
    (ex_err x = None \/ no_rules (ex_combined x) = true) /\ forall k, rules w' k = if decide (k = j) then [] else rules w k;
  list_law w j : let '(w', x) := exec w (Command ["rctl"; "-l"; "jail:" +:+ j]) in
    (forall k, rules w' k = rules w k) /\
    match ex_err x with
    | None => ex_combined x = listing j (rules w j)
    | Some _ => no_rules (ex_combined x) = true /\ rules w j = []
    end;
  other_law w c k : head (argv c) <> Some "rctl" -> rules (exec w c).1 k = rules w k
}.

Lemma plain_char_clean c : plain_char c = true -> graphic c = true /\ c <> ":"%char.
Proof.
  pose proof (forall_ascii (fun c => implb (plain_char c) (graphic c && negb (Ascii.eqb c ":"))) eq_refl c) as Hall.
  intros Hc. cbn beta in Hall. rewrite Hc in Hall. apply andb_true_iff in Hall as [Hg Hn].
  split; [done|]. intros ->. done.
Qed.
Lemma name_clean id : ValidateInstanceName id = None -> word id /\ ":"%char ∉ bytes id.
Proof.
  intros (c & t & E & Hc & Ht & _)%ValidateInstanceName_shape.
  assert (Forall (fun d => plain_char d = true) (bytes id)) as Hf.
  { rewrite E. constructor; [|done]. unfold plain_char. by rewrite Hc. }
  split; [split; [by intros ->|eapply Forall_impl; [exact Hf|]; intros; by apply plain_char_clean]|].
  rewrite Forall_forall in Hf. intros Hin. by apply (plain_char_clean _ (Hf _ Hin)).
Qed.

(** ** What is asked for is clean *)

Lemma clean_decimal n : 0 <= n -> clean_field (Itoa n).
Proof.
  intros Hn. split; [by apply Itoa_word|]. destruct (Itoa_digits n Hn) as (_ & Hd & _). rewrite forallb_true_iff, Forall_forall in Hd.
  split; intros Hin; by specialize (Hd _ Hin).
Qed.
Definition clean_char (c : ascii) : bool := graphic c && negb (Ascii.eqb c ":") && negb (Ascii.eqb c "=").
Lemma clean_chars s : s <> "" -> forallb clean_char (bytes s) = true -> clean_field s.
Proof.
  intros Hne Hf. rewrite forallb_true_iff in Hf. assert (forall c, c ∈ bytes s -> clean_char c = true) as Hc by (by apply Forall_forall).
  split; [split; [done|]|split; intros Hin; by specialize (Hc _ Hin)].
  eapply Forall_impl; [exact Hf|]. intros c. unfold clean_char. by rewrite !andb_true_iff; intros [[? _] _].
Qed.
Lemma listed_clean l s : forallb (fun x => bool_decide (x <> "") && forallb clean_char (bytes x)) l = true -> existsb (streq s) l = true -> clean_field s.
Proof.
  intros Hl (x & Hx & ->%streq_true)%existsb_exists. rewrite forallb_forall in Hl. specialize (Hl _ Hx). apply andb_true_iff in Hl as [Hne Hc].
  apply clean_chars; [by apply bool_decide_eq_true in Hne|done].
Qed.
Lemma amount_clean a : validateRCTLAmount a = None -> clean_field a.
Proof.
  unfold validateRCTLAmount. destruct (_ <? _); [done|]. destruct (MatchString rctlAmountPattern a) eqn:E; [|done]. intros _. apply clean_chars.
  - intros ->. by vm_compute in E.
  - apply forallb_true_iff. eapply MatchString_covers; [|exact E].
    pose proof (ascii_implies is_digit clean_char ltac:(vm_compute; reflexivity)) as Hd.
    pose proof (ascii_implies (one_of "KMGTPEkmgtpe") clean_char ltac:(vm_compute; reflexivity)) as Hu. simpl. split_and!; auto.
Qed.

Lemma limit_clean l : validate_limit l = None -> clean_rule l.
Proof.
  unfold validate_limit. intros E.
  destruct (isValidRctlResource (RL_Resource l)) eqn:Hr; [|done]. destruct (isValidRctlAction (RL_Action l)) eqn:Ha; [|done].
  destruct (validateRCTLAmount (RL_Amount l)) eqn:Hm; [done|]. split_and!.
  - eapply listed_clean; [|exact Hr]. by vm_compute.
  - eapply listed_clean; [|exact Ha]. by vm_compute.
  - by apply amount_clean.
Qed.
Lemma resource_rules_clean r : Forall (fun l => clean_rule l.1) (resource_rules r).
Proof.
  assert (forall b res act n what, clean_field res -> clean_field act -> ((b : bool) = true -> 0 <= n) ->
    Forall (fun l => clean_rule l.1) (if b : bool then [({| RL_Resource := res; RL_Action := act; RL_Amount := Itoa n |}, what : string)] else [])) as Hrule.
  { intros b res act n what Hres Hact Hn. destruct b; [|constructor]. constructor; [|constructor]. split_and!; [done..|]. by apply clean_decimal, Hn. }
  assert (forall s, existsb (streq s) ["pcpu"; "memoryuse"; "readbps"; "writebps"; "readiops"; "writeiops"; "maxproc"; "deny"; "throttle"] = true -> clean_field s) as Hlit
    by (intros s; by apply listed_clean).
  unfold resource_rules. rewrite !Forall_app. split_and!; try (apply Hrule; [by apply Hlit|by apply Hlit|intros ?%Z.ltb_lt; lia]).
  constructor; [|constructor]. split_and!; [by apply Hlit..|]. simpl. destruct (0 <? Rs_MaxProc r) eqn:E; [apply clean_decimal, Z.lt_le_incl; by apply Z.ltb_lt|].
  by apply (clean_decimal 1000).
Qed.
Lemma limits_clean limits : first_error (map validate_limit limits) = None -> Forall clean_rule limits.
Proof.
  intros E. apply first_error_None in E. induction limits as [|l limits IH]; [constructor|]. inversion E; subst. constructor; [by apply limit_clean|by apply IH].
Qed.

Section replacement.
Context {W : Type} `{Host W} `{FileOps W} `{LinkHost W} `{Json JailConfig} `{!RctlLaws W}.


Lemma listed_rules w id w' r : ValidateInstanceName id = None -> getResourceLimitsLocked w id = (w', r) ->
  r = Ok (rules w id) /\ forall k, rules w' k = rules w k.
Proof.
  intros Hid. unfold getResourceLimitsLocked. rewrite Hid. pose proof (list_law w id) as Hl. destruct (exec w _) as [w1 x]. destruct Hl as [Hk Hl].
  intros [= <- <-]. split; [|done]. destruct (ex_err x).
  - destruct Hl as [-> ->]. done.
  - rewrite Hl. f_equal. destruct (name_clean id Hid) as [Hw Hc]. apply parse_listing; [done|done|].
    eapply Forall_impl; [apply rules_law|]. naive_solver.
Qed.
Lemma removed_rules w id w' e : ValidateInstanceName id = None -> removeResourceLimitsLocked w id = (w', e) ->
  e = None /\ forall k, rules w' k = if decide (k = id) then [] else rules w k.
Proof.
  intros Hid. unfold removeResourceLimitsLocked. rewrite Hid. pose proof (remove_law w id) as Hl. destruct (exec w _) as [w1 x]. destruct Hl as [Hx Hl].
  intros [= <- <-]. split; [|done]. destruct (ex_err x); [|done]. destruct Hx as [?| ->]; done.
Qed.
Lemma added_rule w id l w' e : ValidateInstanceName id = None -> clean_rule l -> add_rule w id l = (w', e) ->
  (e = None <-> accepts l = true) /\ forall k, rules w' k = if decide (k = id /\ accepts l = true) then rules w k ++ [expanded l] else rules w k.
Proof.
  intros Hid Hc. unfold add_rule, run. pose proof (add_law w id l Hid Hc) as Ha. destruct (exec w _) as [w1 x]. intros [= <- <-]. done.
Qed.

(** Rules that are taken are all added. *)
Lemma readd w id ls : ValidateInstanceName id = None -> Forall (fun l => clean_rule l /\ accepts l = true /\ expanded l = l) ls ->
  forall k, rules (foldl (fun w l => (add_rule w id l).1) w ls) k = if decide (k = id) then rules w k ++ ls else rules w k.
Proof.
  intros Hid Hls. revert w. induction Hls as [|l ls (Hc & Ha & He) _ IH]; intros w k; simpl; [case_decide; by rewrite ?app_nil_r|].
  rewrite IH. destruct (add_rule w id l) as [w1 e] eqn:E. apply added_rule in E as [_ ->]; [|done|done]. simpl.
  repeat case_decide; naive_solver (rewrite <- ?app_assoc, ?He; done).
Qed.
Lemma restored w0 w id : ValidateInstanceName id = None -> (forall k, k <> id -> rules w k = rules w0 k) ->
  forall k, rules (restoreResourceLimits w id (rules w0 id)) k = rules w0 k.
Proof.
  intros Hid Ho k. unfold restoreResourceLimits. destruct (removeResourceLimitsLocked w id) as [w1 e] eqn:E.
  apply removed_rules in E as [-> Hr]; [|done]. rewrite readd; [|done|apply rules_law].
  rewrite Hr. repeat case_decide; [by subst|by apply Ho].
Qed.

Lemma add_rules_spec w0 id failed rs : ValidateInstanceName id = None -> Forall (fun r => clean_rule r.1) rs -> forall w w' e done_, (forall k, k <> id -> rules w k = rules w0 k) ->
  rules w id = done_ -> add_rules id (rules w0 id) failed rs w = (w', e) ->
  (forall k, k <> id -> rules w' k = rules w0 k) /\
  rules w' id = match e with None => done_ ++ map (fun r => expanded r.1) rs | Some _ => rules w0 id end.
Proof.
  intros Hid Hrs. induction Hrs as [|r rs Hr0 Hrs IH]; intros w w' e done_ Ho Hd E; cbn [add_rules] in E.
  - simplify_eq. by rewrite app_nil_r.
  - destruct (add_rule w id r.1) as [w1 e1] eqn:E1. apply added_rule in E1 as [He Hr]; [|done|done]. destruct e1 as [e1|].
    + simplify_eq. split; [intros k _|]; by apply restored; [|intros k' Hk'; rewrite Hr, decide_False by naive_solver; apply Ho].
    + apply (IH w1 w' e (done_ ++ [expanded r.1])) in E as [Hk ->].
      * split; [done|]. destruct e; [done|]. by rewrite <- app_assoc.
      * intros k Hk. rewrite Hr, decide_False by naive_solver. by apply Ho.
      * rewrite Hr, decide_True by naive_solver. by rewrite Hd.
Qed.
Lemma replace_spec w id refused failed rs w' e : ValidateInstanceName id = None -> Forall (fun r => clean_rule r.1) rs -> replace_rules w id refused failed rs = (w', e) ->
  (forall k, k <> id -> rules w' k = rules w k) /\
  rules w' id = match e with None => map (fun r => expanded r.1) rs | Some _ => rules w id end.
Proof.
  intros Hid Hrs. unfold replace_rules. destruct (getResourceLimitsLocked w id) as [w1 r] eqn:E1. apply listed_rules in E1 as [-> Hl1]; [|done].
  unfold wrapped. destruct (removeResourceLimitsLocked w1 id) as [w2 e2] eqn:E2. apply removed_rules in E2 as [-> Hl2]; [|done]. cbn.
  intros E. apply (add_rules_spec w id failed rs Hid Hrs w2 w' e []) in E as [Ho Hr]; [by split| |].
  - intros k Hk. by rewrite Hl2, decide_False, Hl1.
  - by rewrite Hl2, decide_True.
Qed.

Lemma same_rules w c k : head (argv c) <> Some "rctl" -> rules (exec w c).1 k = rules w k.
Proof. apply other_law. Qed.
End replacement.


(** ** A machine with rctl *)

#[export] Instance clean_rule_dec l : Decision (clean_rule l).
Proof. unfold clean_rule, clean_field, word. apply _. Defined.

(** A machine whose kernel keeps rules, and whose other programs do nothing: it
    knows of every resource but one. *)
Record rmachine := { rm_rules : gmap string (list ResourceLimit) }.
Definition taken (l : ResourceLimit) : bool := negb (streq (RL_Resource l) "nsemop").
Definition keepable (l : ResourceLimit) : Prop := clean_rule l /\ taken l = true /\ expanded l = l.
Definition rules_of (m : rmachine) (j : string) : list ResourceLimit := filter keepable (default [] (rm_rules m !! j)).
Definition said (text : string) (e : option error) : exit := {| ex_stdout := text; ex_stderr := ""; ex_combined := text; ex_err := e |}.
Definition rctl_run (m : rmachine) (argv : list string) : rmachine * exit :=
  match argv with
  | ["rctl"; "-a"; rule] =>
      match Split rule ":", parse_rule rule with
      | [_; j; _; _], Some l => if taken l then ({| rm_rules := <[j := rules_of m j ++ [expanded l]]> (rm_rules m) |}, said "" None)
                                else (m, said "rctl: failed" (Some (Sentinel "exit status 1")))
      | _, _ => (m, said "rctl: failed" (Some (Sentinel "exit status 1")))
      end
  | ["rctl"; "-r"; s] => ({| rm_rules := delete (TrimPrefix s "jail:") (rm_rules m) |}, said "" None)
  | ["rctl"; "-l"; s] => let j := TrimPrefix s "jail:" in (m, said (listing j (rules_of m j)) None)
  | _ => (m, said "1" None)
  end.

Lemma expand_decimal n : 0 <= n < 2 ^ 64 -> expandRCTLAmount (Itoa n) = Ok n.
Proof.
  intros Hn. unfold expandRCTLAmount. destruct (Itoa_digits n ltac:(lia)) as (Hne & Hd & _).
  assert (match rev (bytes (Itoa n)) with c :: _ => unit_shift c | [] => 0 end = 0) as ->.
  { destruct (rev (bytes (Itoa n))) as [|c l] eqn:E; [done|]. assert (In c (bytes (Itoa n))) as Hc by (rewrite in_rev, E; by left).
    rewrite forallb_forall in Hd. specialize (Hd c Hc).
    pose proof (ascii_implies is_digit (fun c => unit_shift c =? 0) ltac:(vm_compute; reflexivity) c Hd) as Hu. by apply Z.eqb_eq. }
  change (0 <? 0) with false. cbn match. rewrite ParseUint_Itoa by lia. cbn [andb]. rewrite Z.shiftl_0_r, Z.mod_small by lia. done.
Qed.
Lemma expand_range a n : expandRCTLAmount a = Ok n -> 0 <= n < 2 ^ 64.
Proof. unfold expandRCTLAmount. destruct (ParseUint _ _); [|done]. destruct (_ && _); [done|]. intros [= <-]. apply Z.mod_pos_bound. lia. Qed.
Lemma expanded_twice l : expanded (expanded l) = expanded l.
Proof.
  unfold expanded. cbn [RL_Resource RL_Action RL_Amount]. destruct (expandRCTLAmount (RL_Amount l)) as [n|] eqn:E; [|by rewrite E].
  by rewrite expand_decimal by (by eapply expand_range).
Qed.
Lemma expanded_keepable l : clean_rule l -> taken l = true -> keepable (expanded l).
Proof.
  intros (Hr & Ha & Hm) Ht. split; [split; [exact Hr|split; [exact Ha|]]|split; [exact Ht|apply expanded_twice]].
  cbn [expanded RL_Amount].
  destruct (expandRCTLAmount (RL_Amount l)) as [n|] eqn:E; [|done]. apply clean_decimal. apply expand_range in E. lia.
Qed.

#[export] Instance rmachine_host : Host rmachine := {
  exec m c := rctl_run m (argv c); pipeline m _ _ := (m, NoPipe (Sentinel "unsupported")); LookPath _ _ := None;
  Stat _ _ := Ok {| fi_size := 0; fi_isdir := false; fi_regular := true; fi_perm := 384; fi_uid := None |}; Lstat _ _ := Err (Sentinel ErrNotExist);
  EvalSymlinks _ f := Ok f; MkdirAll m _ := (m, None); CreateExcl m _ := (m, None); Close m _ := (m, None); OpenRead _ _ := None;
  Remove m _ := (m, None); Geteuid _ := 0 }.
#[export] Instance rmachine_files : FileOps rmachine := {
  ReadFile _ _ := Err (Sentinel ErrNotExist); WriteFile m _ _ := (m, None); OpenAppend m _ := (m, None); WriteString m _ _ := (m, None);
  CreateTemp m _ _ := (m, Ok ""); Chmod m _ _ := (m, None); Sync m _ := (m, None); CloseFile m _ := (m, None); Rename m _ _ := (m, None);
  RemoveFile m _ := (m, None); MakeDirs m _ := (m, None); ReadDir _ _ := Ok [] }.
#[export] Instance rmachine_links : LinkHost rmachine := { is_symlink _ _ := false; write_nofollow m _ _ := (m, None) }.
#[local] Instance no_json : Json JailConfig := { Marshal _ := Err (Sentinel "unsupported"); Unmarshal _ := Err (Sentinel "unsupported") }.

Lemma trim_jail j : TrimPrefix ("jail:" +:+ j) "jail:" = j.
Proof.
  unfold TrimPrefix. rewrite bytes_app, (proj2 (cut_prefix_l_Some (bytes "jail:") (bytes "jail:" ++ bytes j) (bytes j))) by done. apply of_bytes_bytes.
Qed.
Lemma rules_kept m j : Forall keepable (rules_of m j).
Proof. apply Forall_forall. intros l [Hl _]%list_elem_of_filter. done. Qed.
Lemma rules_update m j l k : keepable l ->
  rules_of {| rm_rules := <[j := rules_of m j ++ [l]]> (rm_rules m) |} k = if decide (k = j) then rules_of m k ++ [l] else rules_of m k.
Proof.
  intros Hl. unfold rules_of at 1. cbn [rm_rules]. destruct (decide (k = j)) as [->|Hk]; [|by rewrite lookup_insert_ne].
  rewrite lookup_insert_eq. cbn [from_option]. change (id ?x) with x. rewrite filter_app, filter_cons_True, filter_nil by done. f_equal.
  pose proof (rules_kept m j) as Hk. induction Hk as [|r rs Hr _ IH]; [done|]. by rewrite filter_cons_True, IH.
Qed.

#[export] Instance rmachine_rctl : RctlLaws rmachine.
Proof.
  refine {| rules := rules_of; accepts := taken |}.
  - apply rules_kept.
  - intros w j l Hj Hl. cbn [exec rmachine_host argv Command rctl_run]. destruct (name_clean j Hj) as [Hw Hc].
    rewrite rule_parts, parse_rule_text by done. destruct (taken l) eqn:Ht; (split; [done|]); intros k.
    + rewrite rules_update by (by apply expanded_keepable). repeat case_decide; naive_solver.
    + by rewrite decide_False by naive_solver.
  - intros w j. cbn [exec rmachine_host argv Command rctl_run]. split; [by left|]. intros k. unfold rules_of. cbn [rm_rules].
    rewrite trim_jail. case_decide as Hk; [subst; by rewrite lookup_delete_eq|by rewrite lookup_delete_ne].
  - intros w j. cbn [exec rmachine_host argv Command rctl_run]. split; [done|]. cbn [ex_err ex_combined said]. by rewrite trim_jail.
  - intros w c k Hc. cbn [exec rmachine_host]. unfold rctl_run. repeat case_match; simplify_eq; done.
Defined.

Definition sample_jails : JailProvider :=
  {| JP_root := "/var/db/hospitus"; JP_dataDir := "/var/db/hospitus/jails"; JP_stateDir := "/var/db/hospitus/state/jails"; JP_zfsParent := "zroot/hospitus/jails";
     JP_zfsEnv := ""; JP_poolEnv := ""; JP_poolSetting := None; JP_hospitusConfig := applyDefaults zero_config |}.
Definition no_resources : ResourceSpec :=
  {| Rs_CPUs := 0; Rs_MemoryMB := 0; Rs_DiskGB := 0; Rs_MaxProc := 0; Rs_ReadBPS := 0; Rs_WriteBPS := 0; Rs_ReadIOPS := 0; Rs_WriteIOPS := 0 |}.
Definition gib_memory : ResourceLimit := {| RL_Resource := "memoryuse"; RL_Action := "deny"; RL_Amount := "2G" |}.
Definition old_rule : ResourceLimit := {| RL_Resource := "pcpu"; RL_Action := "deny"; RL_Amount := "100" |}.
Definition limited : rmachine := {| rm_rules := {["web" := [old_rule]]} |}.

