(* ===== verification/JailNetFacts.v ===== *)
(** * Networking of jails: pools end, addresses are given once

    The enumeration of a pool ends for every text of one; an allocated address is
    a candidate of a pool that no gateway and no jail has; the resolver
    configuration of a jail names no address of its own loopback. *)

From stdpp Require Import base list gmap strings pretty.
From Stdlib Require Import Ascii ZArith Lia.
From S2P Require Import Prelude GoStrings GoText GoWords GoPath GoNet GoHttp Host Files Validation ProviderTypes JailNet.

Local Open Scope Z_scope.

(** ** Bytes *)

Definition is_byte (b : Z) : Prop := 0 <= b < 256.

Lemma land_byte a m : is_byte m -> is_byte (Z.land a m).
Proof.
  intros Hm. assert (0 <= Z.land a m) as Hp by (apply Z.land_nonneg; right; destruct Hm; lia).
  assert (m - Z.land a m = Z.ldiff m (Z.land a m)) as E.
  { apply Z.sub_nocarry_ldiff. apply Z.bits_inj'. intros i Hi. rewrite Z.ldiff_spec, Z.land_spec, Z.bits_0. by destruct (Z.testbit a i), (Z.testbit m i). }
  assert (0 <= Z.ldiff m (Z.land a m)) by (apply Z.ldiff_nonneg; left; destruct Hm; lia). unfold is_byte in *. lia.
Qed.
Lemma land_255 a b : is_byte a -> is_byte b -> Z.land a 255 = Z.land b 255 -> a = b.
Proof. intros Ha Hb. change 255 with (Z.ones 8). rewrite !Z.land_ones by lia. unfold is_byte in *. rewrite !Z.mod_small by lia. done. Qed.

Lemma masked_bytes a m : Forall is_byte m -> Forall is_byte (and_bytes a m).
Proof.
  intros Hm. revert a. induction Hm as [|x m Hx _ IH]; intros [|y a]; try (by constructor). cbn. constructor; [by apply land_byte|apply IH].
Qed.

(** ** Masks *)

(** With at most sixteen bits for hosts, all but the last two bytes are full. *)
Definition full_but_two (k : nat) (n : Z) : bool :=
  implb (8 * Z.of_nat k - mask_ones (CIDRMask n k) <=? 16) (bool_decide (take (k - 2) (CIDRMask n k) = replicate (k - 2) 255)) &&
  bool_decide (Forall is_byte (CIDRMask n k)) && bool_decide (length (CIDRMask n k) = k).

Lemma masks_full n : 0 <= n <= 128 -> full_but_two 4 n = true /\ full_but_two 16 n = true.
Proof.
  intros Hn. assert (forallb (fun n => full_but_two 4 n && full_but_two 16 n) (map Z.of_nat (seq 0 129)) = true) as Hall by (by vm_compute).
  rewrite forallb_forall in Hall. specialize (Hall n). rewrite andb_true_iff in Hall. apply Hall. apply in_map_iff. exists (Z.to_nat n).
  split; [lia|]. apply in_seq. lia.
Qed.

Lemma and_bytes_prefix j : forall a b m, take j m = replicate j 255 -> Forall is_byte a -> Forall is_byte b -> length a = length b ->
  and_bytes a m = and_bytes b m -> take j a = take j b.
Proof.
  induction j as [|j IH]; intros a b m Hm Ha Hb Hl E; [done|]. destruct m as [|x m]; [done|]. cbn in Hm. injection Hm as -> Hm.
  destruct a as [|y a], b as [|z b]; try done. cbn in E, Hl. injection Hl as Hl. injection E as E1 E2. apply Forall_cons in Ha as [Hy Ha], Hb as [Hz Hb].
  cbn. f_equal; [by apply land_255|]. by apply (IH a b m).
Qed.

(** The networks whose hosts are enumerated. *)
Definition small_net (n : IPNet) : Prop :=
  exists k : nat, (k = 4 \/ k = 16)%nat /\ length (N_Mask n) = k /\ take (k - 2) (N_Mask n) = replicate (k - 2) 255 /\ Forall is_byte (N_IP n).

Lemma cidr_small s n : ParseCIDR_net s = Some n -> 8 * Z.of_nat (length (N_Mask n)) - mask_ones (N_Mask n) <= maxPoolBits -> small_net n.
Proof.
  unfold ParseCIDR_net. destruct (ParseCIDR s) as [[ip bits]|] eqn:E; [|done]. apply ParseCIDR_bits in E. unfold maxPoolBits.
  destruct (masks_full bits E) as [H4 H16].
  assert (exists k : nat, (k = 4 \/ k = 16)%nat /\ (if ascii_in (bytes s) ":" then CIDRMask bits 16 else CIDRMask bits 4) = CIDRMask bits k /\ full_but_two k bits = true)
    as (k & Hk & -> & Hf) by (destruct (ascii_in _ _); eauto).
  cbv zeta. intros En. apply (inj Some) in En. subst n. cbn [N_IP N_Mask].
  apply andb_true_iff in Hf as [[Hf Hb%bool_decide_eq_true]%andb_true_iff Hl%bool_decide_eq_true]. intros Hbits. exists k.
  split_and!; [done|done| |].
  - rewrite Hl in Hbits. rewrite (proj2 (Z.leb_le _ _) Hbits) in Hf. by apply bool_decide_eq_true in Hf.
  - unfold Mask. case_if; by apply masked_bytes.
Qed.

Lemma To4_16 ip : length ip = 16%nat -> To4 ip = if is_v4 ip then Some (drop 12 ip) else None.
Proof. intros Hl. unfold To4. by rewrite Hl. Qed.

(** The address and the mask compared. *)
Lemma contains_parts n ip : Contains_ip n ip = true -> exists nn x m, nn = default (N_IP n) (To4 (N_IP n)) /\ x = default ip (To4 ip) /\
  m = (if bool_decide (length (N_Mask n) = 16%nat) && bool_decide (length nn = 4%nat) then drop 12 (N_Mask n) else N_Mask n) /\
  length nn = length m /\ length x = length nn /\ and_bytes nn m = and_bytes x m.
Proof.
  unfold Contains_ip. cbv zeta. intros [[H1 H2]%andb_true_iff H3]%andb_true_iff. apply bool_decide_eq_true in H1, H2, H3. eauto 10.
Qed.

(** An address of the network has all its bytes but the last two. *)
Lemma contains_prefix n ip : small_net n -> Forall is_byte ip -> length ip = length (N_IP n) -> Contains_ip n ip = true ->
  take (length ip - 2) ip = take (length ip - 2) (N_IP n) /\ (4 <= length ip)%nat.
Proof.
  intros (k & Hk & Hlm & Hm & Hn) Hip Hl (nn & x & m & En & Ex & Em & H1 & H2 & H3)%contains_parts.
  assert (forall q, (q = 2)%nat -> length nn = 4%nat -> take q m = replicate q 255) as Htail.
  { intros q -> H4. rewrite Em, Hlm, H4. destruct Hk as [->| ->]; cbn [andb bool_decide]; [done|].
    change (bool_decide (16%nat = 16%nat) && bool_decide (4%nat = 4%nat)) with true. cbn match.
    change 2%nat with (14 - 12)%nat. change (16 - 2)%nat with 14%nat in Hm. rewrite <- skipn_firstn_comm, Hm. done. }
  destruct (decide (length ip = 4%nat)) as [E4|Hne].
  { unfold To4 in En, Ex. rewrite bool_decide_eq_true_2 in En by congruence. rewrite bool_decide_eq_true_2 in Ex by done. cbn in En, Ex. subst nn x.
    split; [|lia]. rewrite E4. symmetry. apply (and_bytes_prefix 2 _ _ m); [apply Htail; [done|congruence]|done|done|done|done]. }
  destruct (decide (length ip = 16%nat)) as [E16|Hne16].
  - rewrite To4_16 in En by congruence. rewrite To4_16 in Ex by done. split; [|lia]. rewrite E16.
    destruct (is_v4 (N_IP n)) eqn:Vn, (is_v4 ip) eqn:Vi; cbn in En, Ex; subst nn x; rewrite ?length_drop in H2; try lia.
    + assert (forall a, is_v4 a = true -> take 12 a = v4_prefix) as Hv.
      { intros a [_ Ha%bool_decide_eq_true]%andb_true_iff. done. }
      rewrite <- (take_drop 12 ip), <- (take_drop 12 (N_IP n)), (Hv ip), (Hv (N_IP n)) by done. change (16 - 2)%nat with (length v4_prefix + 2)%nat.
      rewrite !take_app_add. f_equal. symmetry. apply (and_bytes_prefix 2 _ _ m); try done.
      * apply Htail; [done|]. rewrite length_drop. lia.
      * by apply Forall_drop.
      * by apply Forall_drop.
      * rewrite !length_drop. congruence.
    + symmetry. rewrite (bool_decide_eq_false_2 (length (N_IP n) = 4%nat)), andb_false_r in Em by lia. subst m. destruct Hk as [->| ->]; [lia|]. by apply (and_bytes_prefix 14 _ _ (N_Mask n)).
  - exfalso. unfold To4, is_v4 in En. rewrite !bool_decide_eq_false_2 in En by congruence. cbn in En. subst nn.
    rewrite (bool_decide_eq_false_2 (length (N_IP n) = 4%nat)), andb_false_r in Em by congruence. subst m. destruct Hk; lia.
Qed.

(** ** Counting *)

Lemma inc_rev_bytes l : Forall is_byte l -> Forall is_byte (inc_rev l).
Proof.
  induction 1 as [|x l Hx Hl IH]; cbn; [constructor|]. assert (is_byte ((x + 1) mod 256)) as Hy by (apply Z.mod_pos_bound; lia).
  case_if; by constructor.
Qed.
Lemma incIP_bytes ip : Forall is_byte ip -> Forall is_byte (incIP ip).
Proof. intros Hip. unfold incIP. by apply Forall_rev, inc_rev_bytes, Forall_rev. Qed.
Lemma incIP_length ip : length (incIP ip) = length ip.
Proof.
  unfold incIP. rewrite length_rev, <- (length_rev ip). induction (rev ip) as [|x l IH]; [done|]. cbn. case_if; cbn; by rewrite ?IH.
Qed.

(** The number in the last two bytes. *)
Definition low (ip : list Z) : Z := match rev ip with y :: x :: _ => 256 * x + y | _ => 0 end.

Lemma take_rev_low (ip : list Z) r y x : rev ip = y :: x :: r -> take (length ip - 2) ip = rev r.
Proof.
  intros E. apply (f_equal (@rev Z)) in E. rewrite rev_involutive in E. subst ip. cbn. rewrite <- !app_assoc, !length_app. cbn.
  rewrite length_rev. replace (length r + 2 - 2)%nat with (length (rev r)) by (rewrite length_rev; lia). apply take_app_length.
Qed.

(** Below the last value the other bytes stay; after it they do not. *)
Lemma incIP_low ip : Forall is_byte ip -> (4 <= length ip)%nat -> 
  (low ip < 65535 /\ low (incIP ip) = low ip + 1) \/ (low ip = 65535 /\ take (length ip - 2) (incIP ip) <> take (length ip - 2) ip).
Proof.
  intros Hb Hl. assert (Forall is_byte (rev ip)) as Hr by (by apply Forall_rev). rewrite <- (length_rev ip) in Hl.
  assert (rev (incIP ip) = inc_rev (rev ip)) as Ei by (unfold incIP; by rewrite rev_involutive).
  destruct (rev ip) as [|y [|x [|p r]]] eqn:E; cbn in Hl; try lia. unfold low. rewrite E, Ei. cbn [inc_rev] in *.
  apply Forall_cons in Hr as [Hy Hr]. apply Forall_cons in Hr as [Hx Hr]. apply Forall_cons in Hr as [Hp _]. unfold is_byte in *.
  destruct (decide (y = 255)) as [->|Hy'].
  - change ((255 + 1) mod 256) with 0 in *. change (0 <? 0) with false in *. cbn match in *. destruct (decide (x = 255)) as [->|Hx'].
    + change ((255 + 1) mod 256) with 0 in *. change (0 <? 0) with false in *. cbn match in *. right. split; [done|]. rewrite (take_rev_low ip (p :: r) 255 255 E).
      rewrite <- (incIP_length ip), (take_rev_low (incIP ip) _ 0 0 Ei). intros Et. apply (f_equal (@rev Z)) in Et. rewrite !rev_involutive in Et.
      assert ((p + 1) mod 256 <> p) as Hpp.
      { destruct (decide (p = 255)) as [->|]; [done|]. rewrite Z.mod_small by lia. lia. }
      destruct (0 <? (p + 1) mod 256); congruence.
    + left. rewrite (Z.mod_small (x + 1)) in * by lia. rewrite (proj2 (Z.ltb_lt 0 (x + 1))) by lia. lia.
  - left. rewrite (Z.mod_small (y + 1)) in * by lia. rewrite (proj2 (Z.ltb_lt 0 (y + 1))) by lia. lia.
Qed.

Lemma low_range ip : Forall is_byte ip -> 0 <= low ip <= 65535.
Proof.
  intros Hb. apply Forall_rev in Hb. unfold low. destruct (rev ip) as [|y [|x r]]; [lia|lia|].
  apply Forall_cons in Hb as [Hy Hb]. apply Forall_cons in Hb as [Hx _]. unfold is_byte in *. lia.
Qed.

(** ** The enumeration ends *)

(** The address [i] places after [ip]. *)
Definition after (ip : list Z) (i : nat) : list Z := Nat.iter i incIP ip.
Lemma after_S ip i : after ip (S i) = after (incIP ip) i.
Proof. unfold after. by rewrite Nat.iter_succ_r. Qed.

Lemma pool_addresses_shape n : forall fuel ip l, pool_addresses fuel n ip = Some l ->
  exists k, l = map (fun i => IP_String (after ip i)) (seq 0 k) /\ (forall i, (i < k)%nat -> Contains_ip n (after ip i) = true) /\ Contains_ip n (after ip k) = false.
Proof.
  induction fuel as [|fuel IH]; intros ip l; cbn [pool_addresses]; [done|]. destruct (Contains_ip n ip) eqn:Ec; cbn [negb].
  - destruct (pool_addresses fuel n (incIP ip)) as [l'|] eqn:E; [|done]. intros [= <-]. apply IH in E as (k & -> & Hin & Hout). exists (S k). split_and!.
    + cbn [seq map]. f_equal. rewrite <- seq_shift, map_map. apply map_ext. intros i. by rewrite after_S.
    + intros [|i] Hi; [done|]. rewrite after_S. apply Hin. lia.
    + by rewrite after_S.
  - intros [= <-]. exists 0%nat. split_and!; [done|lia|done].
Qed.

Lemma pool_addresses_end n : small_net n -> forall (k : nat) fuel ip, Forall is_byte ip -> length ip = length (N_IP n) ->
  65535 - low ip <= Z.of_nat k -> (S k < fuel)%nat -> pool_addresses fuel n ip <> None.
Proof.
  intros Hn k. induction k as [|k IH]; intros fuel ip Hb Hl Hk Hf; (destruct fuel as [|[|fuel]]; [lia|lia|]); cbn [pool_addresses];
    (destruct (Contains_ip n ip) eqn:Ec; [|done]); cbn [negb]; destruct (contains_prefix n ip Hn Hb Hl Ec) as [Hpre H4];
    pose proof (incIP_bytes ip Hb) as Hb'; pose proof (incIP_length ip) as Hl'; pose proof (low_range _ Hb');
    destruct (incIP_low ip Hb H4) as [[Hlt Hlow]|[Hlast Hne]]; try lia;
    try (assert (Contains_ip n (incIP ip) = false) as ->; [|done];
         destruct (Contains_ip n (incIP ip)) eqn:Ec'; [|done]; destruct (contains_prefix n (incIP ip) Hn Hb' ltac:(congruence) Ec') as [Hpre' _];
         rewrite Hl' in Hpre'; congruence).
  pose proof (IH (S fuel) (incIP ip) Hb' ltac:(congruence) ltac:(lia) ltac:(lia)) as Hi. cbn [pool_addresses] in Hi.
  by destruct (if negb (Contains_ip n (incIP ip)) then _ else _).
Qed.

Lemma pool_fuel_enough n : small_net n -> pool_addresses pool_fuel n (N_IP n) <> None.
Proof.
  intros Hn. pose proof Hn as (_ & _ & _ & _ & Hb). apply (pool_addresses_end n Hn (N.to_nat 65535)); [done|done| |].
  - pose proof (low_range _ Hb). rewrite N_nat_Z. lia.
  - unfold pool_fuel. change (2 ^ 16 + 1)%N with (N.succ (N.succ 65535)). rewrite !N2Nat.inj_succ. lia.
Qed.

(** C33: every pool is enumerated, whatever its text.  The loop over the addresses
    of a network ends within the fuel the model gives it, as no network with more
    than sixteen bits for hosts is entered and the count leaves a smaller one; and
    what it lists are the addresses from the first of the network on, as many as
    lie in it, without the first and the last of more than two. *)
Theorem pools_are_enumerated (pool : string) : exists r, parseIPPool pool = Some r /\
  (forall n l, Contains pool "/" = true -> ParseCIDR_net pool = Some n -> r = Ok l ->
   exists k, l = without_ends (map (fun i => IP_String (after (N_IP n) i)) (seq 0 k)) /\
     (forall i, (i < k)%nat -> Contains_ip n (after (N_IP n) i) = true) /\ Contains_ip n (after (N_IP n) k) = false).
Proof.
  unfold parseIPPool. destruct (Contains pool "/") eqn:Es.
  - destruct (ParseCIDR_net pool) as [n|] eqn:En; [|eexists; split; [reflexivity|]; done].
    destruct (maxPoolBits <? _) eqn:Eb; [eexists; split; [reflexivity|]; done|]. apply Z.ltb_ge in Eb. pose proof (cidr_small _ _ En Eb) as Hn.
    destruct (pool_addresses pool_fuel n (N_IP n)) as [l|] eqn:El; [|by apply pool_fuel_enough in El]. eexists. split; [reflexivity|].
    intros n' l' _ [= <-] [= <-]. apply pool_addresses_shape in El as (k & -> & Hin & Hout). by exists k.
  - destruct (pool_range pool) as [[base last]|]; eexists; (split; [reflexivity|done]).
Qed.

(** ** Allocation *)

Definition no_slash (s : string) : Prop := "/"%char ∉ bytes s.

Lemma octet_text_no_slash n : no_slash (Itoa n).
Proof.
  assert (forall m, 0 <= m -> no_slash (Itoa m)) as Hpos.
  { intros m Hm Hin. destruct (Itoa_digits m Hm) as (_ & Hd & _). rewrite forallb_true_iff, Forall_forall in Hd. by specialize (Hd _ Hin). }
  destruct (Z.le_gt_cases 0 n) as [Hn|Hn]; [by apply Hpos|]. destruct n as [|q|q]; try lia. unfold no_slash, Itoa.
  change (pretty (Z.neg q)) with ("-" +:+ pretty (N.pos q)). rewrite bytes_app, elem_of_app. intros [Hin|Hin]; [by apply list_elem_of_singleton in Hin|].
  by apply (Hpos (Z.pos q) ltac:(lia)).
Qed.
Lemma join_no_slash ws sep : no_slash sep -> Forall no_slash ws -> no_slash (JoinStrings ws sep).
Proof.
  intros Hs Hw. unfold no_slash, JoinStrings. rewrite bytes_of_bytes. induction Hw as [|w ws Hw Hws IH]; [by apply not_elem_of_nil|].
  destruct ws as [|w' ws]; [done|]. change (join_l (bytes sep) (map bytes (w :: w' :: ws))) with (bytes w ++ bytes sep ++ join_l (bytes sep) (map bytes (w' :: ws))).
  rewrite !elem_of_app. unfold no_slash in *. tauto.
Qed.
Lemma app_no_slash a b : no_slash a -> no_slash b -> no_slash (a +:+ b).
Proof. unfold no_slash. rewrite bytes_app, elem_of_app. tauto. Qed.

Lemma hex_digit_range n : 0 <= n < 16 -> GoHttp.hex_digit n <> "/"%char.
Proof.
  intros Hn. assert (forallb (fun n => negb (Ascii.eqb (GoHttp.hex_digit n) "/")) (map Z.of_nat (seq 0 16)) = true) as Hall by (by vm_compute).
  rewrite forallb_forall in Hall. intros E. specialize (Hall n). rewrite E in Hall. apply diff_false_true. apply Hall. apply in_map_iff. exists (Z.to_nat n).
  split; [lia|]. apply in_seq. lia.
Qed.
Lemma hex_no_slash n : 0 <= n < 65536 -> no_slash (hex_text n).
Proof.
  intros Hn. unfold no_slash, hex_text. rewrite bytes_of_bytes, !elem_of_app.
  assert (forall m, 0 <= m < 16 -> "/"%char ∉ [GoHttp.hex_digit m]) as Hd by (intros m Hm Hin%list_elem_of_singleton; by apply (hex_digit_range m Hm)).
  assert (forall (b : bool) m, 0 <= m < 16 -> "/"%char ∉ (if b then [GoHttp.hex_digit m] else [])) as Hi.
  { intros [] m Hm; [by apply Hd|by apply not_elem_of_nil]. }
  intros [Hin|[Hin|[Hin|Hin]]]; revert Hin; first [apply Hi|apply Hd].
  - split; [apply Z.div_pos; lia|apply Z.div_lt_upper_bound; lia].
  - apply Z.mod_pos_bound. lia.
  - apply Z.mod_pos_bound. lia.
  - apply Z.mod_pos_bound. lia.
Qed.
Lemma groups_range b : Forall is_byte b -> Forall (fun g => 0 <= g < 65536) (groups b).
Proof.
  assert (forall k b, (length b <= k)%nat -> Forall is_byte b -> Forall (fun g => 0 <= g < 65536) (groups b)) as Hk; [|by apply (Hk (length b))].
  induction k as [|k IH]; intros [|x [|y l]] Hl Hb; cbn in *; try (by constructor); [lia|]. apply Forall_cons in Hb as [Hx Hb]. apply Forall_cons in Hb as [Hy Hb].
  constructor; [unfold is_byte in *; lia|]. apply IH; [lia|done].
Qed.

Lemma IP_String_no_slash ip : Forall is_byte ip -> no_slash (IP_String ip).
Proof.
  intros Hb. unfold IP_String. destruct (To4 ip) as [b|]; [apply join_no_slash; [by vm_compute; set_solver|]; apply Forall_fmap, Forall_true; intros; apply octet_text_no_slash|].
  unfold ip6_text. pose proof (groups_range ip Hb) as Hg. assert (no_slash ":") as Hc by (by vm_compute; set_solver). assert (no_slash "::") as Hcc by (by vm_compute; set_solver).
  assert (forall l, Forall (fun g => 0 <= g < 65536) l -> no_slash (JoinStrings (map hex_text l) ":")) as Hj.
  { intros l Hl. apply join_no_slash; [done|]. apply Forall_fmap. eapply Forall_impl; [exact Hl|]. intros; by apply hex_no_slash. }
  destruct (longest_run _ _ _) as [i m]. destruct (m <? 2)%nat; [by apply Hj|].
  apply app_no_slash; [apply Hj; by apply Forall_take|]. apply app_no_slash; [done|]. apply Hj. by apply Forall_drop.
Qed.

Lemma without_ends_sub l x : x ∈ without_ends l -> x ∈ l.
Proof.
  unfold without_ends. destruct (2 <? length l)%nat; [|done]. destruct l as [|a l]; [done|]. cbn [tail]. intros Hin. right. revert Hin.
  induction l as [|b [|c l] IH]; cbn; [done|by intros ?%not_elem_of_nil|]. rewrite !elem_of_cons in *. naive_solver.
Qed.

Lemma range_no_slash base : no_slash base -> forall count i l, range_addresses base i count = Some l -> Forall no_slash l.
Proof.
  intros Hb. induction count as [|count IH]; intros i l; cbn [range_addresses]; [intros [= <-]; constructor|].
  destruct (ParseIP _); [|done]. destruct (range_addresses base (i + 1) count) as [l'|] eqn:E; [|done]. intros [= <-].
  constructor; [|by eapply IH]. repeat apply app_no_slash; [done|by vm_compute; set_solver|apply octet_text_no_slash].
Qed.

Lemma split_parts_sub c s w x : w ∈ Split s c -> x ∈ bytes w -> x ∈ bytes s.
Proof.
  unfold Split. intros (u & -> & Hu)%list_elem_of_fmap. rewrite bytes_of_bytes. rewrite <- (join_split c (bytes s)). revert Hu.
  induction (split_l c (bytes s)) as [|v l IH]; [by intros ?%not_elem_of_nil|]. intros [->|Hu]%elem_of_cons Hx.
  - destruct l; cbn [join_l]; [done|]. rewrite elem_of_app. by left.
  - destruct l as [|v' l]; [by apply not_elem_of_nil in Hu|]. cbn [join_l]. rewrite !elem_of_app. right. right. by apply IH.
Qed.

(** No address that is handed out has a prefix of its own. *)
Lemma candidates_no_slash pool l : parseIPPool pool = Some (Ok l) -> Forall no_slash l.
Proof.
  unfold parseIPPool. destruct (Contains pool "/") eqn:Es.
  - destruct (ParseCIDR_net pool) as [n|] eqn:En; [|done]. destruct (maxPoolBits <? _) eqn:Eb; [done|]. apply Z.ltb_ge in Eb.
    pose proof (cidr_small _ _ En Eb) as (_ & _ & _ & _ & Hb). destruct (pool_addresses _ _ _) as [l'|] eqn:El; [|done]. intros [= <-].
    apply pool_addresses_shape in El as (k & -> & _). apply Forall_forall. intros x Hx%without_ends_sub. apply list_elem_of_fmap in Hx as (i & -> & _).
    apply IP_String_no_slash. unfold after. induction i as [|i IH]; cbn; [done|by apply incIP_bytes].
  - assert (no_slash pool) as Hp by (intros Hin; apply Contains_char in Hin; congruence).
    destruct (pool_range pool) as [[base last]|] eqn:Er.
    + intros [= E]. unfold parse_range in E. repeat case_match; try done. simplify_eq. eapply range_no_slash; [|done].
      unfold pool_range in Er. destruct (Split pool ".") as [|oa [|ob [|oc [|od []]]]] eqn:Ep; try done. destruct (Contains od "-"); [|done]. injection Er as <- <-.
      apply join_no_slash; [by vm_compute; set_solver|]. repeat constructor; intros Hin; apply Hp; eapply (split_parts_sub "."); try exact Hin; rewrite Ep; set_solver.
    + destruct (ParseIP pool); [|done]. intros [= <-]. by constructor.
Qed.

Lemma mask_begins pool : exists t, pool_netmask pool = String "/" t.
Proof. unfold pool_netmask. repeat case_match; by eexists. Qed.
Lemma address_part c pool : no_slash c -> addressWithoutPrefix (c +:+ pool_netmask pool) = c.
Proof.
  intros Hc. destruct (mask_begins pool) as [t ->]. unfold addressWithoutPrefix.
  rewrite (proj2 (Cut_Some (c +:+ String "/" t) "/" c t)); [done|]. split; [done|exact Hc].
Qed.

Lemma first_free_spec used pools :
  match first_free used pools with
  | Some a => exists pool l c, pool ∈ pools /\ parseIPPool pool = Some (Ok l) /\ c ∈ l /\ used c = false /\ a = c +:+ pool_netmask pool
  | None => forall pool l c, pool ∈ pools -> parseIPPool pool = Some (Ok l) -> c ∈ l -> used c = true
  end.
Proof.
  induction pools as [|pool pools IH]; cbn [first_free]; [by intros ? ? ? ?%not_elem_of_nil|].
  assert (forall l, parseIPPool pool = Some (Ok l) -> List.find (fun c => negb (used c)) l = None -> forall c, c ∈ l -> used c = true) as Hall.
  { intros l _ Hf c Hc. apply list_elem_of_In in Hc. pose proof (find_none _ _ Hf c Hc) as Hu. by apply negb_false_iff in Hu. }
  destruct (parseIPPool pool) as [[l|e]|] eqn:E; [destruct (List.find _ l) as [c|] eqn:Ef|..].
  - apply find_some in Ef as [Hc Hu%negb_true_iff]. exists pool, l, c. split_and!; [by left|done|by apply list_elem_of_In|done|done].
  - destruct (first_free used pools); [destruct IH as (q & l' & c & ? & ?); exists q, l', c; split; [by right|done]|].
    intros q l' c [->|Hq]%elem_of_cons El Hc; [|by eapply IH]. rewrite E in El. injection El as <-. by eapply Hall.
  - destruct (first_free used pools); [destruct IH as (q & l' & c & ? & ?); exists q, l', c; split; [by right|done]|].
    intros q l' c [->|Hq]%elem_of_cons El Hc; [congruence|by eapply IH].
  - destruct (first_free used pools); [destruct IH as (q & l' & c & ? & ?); exists q, l', c; split; [by right|done]|].
    intros q l' c [->|Hq]%elem_of_cons El Hc; [congruence|by eapply IH].
Qed.

(** Some jail has the address. *)
Definition held_by (jails : list holder) (c : string) : Prop := exists name nets n, (name, nets) ∈ jails /\ n ∈ nets /\ held_address n = Some c.

Lemma in_use_held jails c : in_use (addressesInUse jails "") c = true <-> held_by jails c.
Proof.
  unfold in_use, held_by. rewrite existsb_exists. split.
  - intros ([a j] & Hin & E%streq_true). cbn in E. subst a. unfold addressesInUse in Hin. apply in_flat_map in Hin as ([name nets] & Hj & Hin). cbn in Hin.
    apply in_map_iff in Hin as (a & [= <- <-] & Ha). apply list_elem_of_In, list_elem_of_omap in Ha as (n & Hn & Eh). exists name, nets, n.
    split_and!; [by apply list_elem_of_In|done|done].
  - intros (name & nets & n & Hj & Hn & Eh). exists (c, name). split; [|by apply streq_true]. unfold addressesInUse. apply in_flat_map. exists (name, nets).
    split; [by apply list_elem_of_In|]. cbn. apply in_map_iff. exists c. split; [done|]. apply list_elem_of_In, list_elem_of_omap. eauto.
Qed.
Lemma others_in_use jails name h : h ∈ addressesInUse jails name -> h ∈ addressesInUse jails "".
Proof.
  unfold addressesInUse. rewrite !list_elem_of_In, !in_flat_map. intros (j & Hj & Hin). exists j. split; [done|]. cbn. by destruct (_ && _).
Qed.
Lemma gateways_app a b c : c ∈ poolGateways b -> c ∈ poolGateways (a ++ b).
Proof. unfold poolGateways. rewrite map_app, List.filter_app, elem_of_app. by right. Qed.

(** The pools tried for a network. *)
Definition tried (pools : list string) (declared : string) : list string := if streq declared "" then pools else Fields declared ++ pools.

(** C19: an address is given to one jail only.  A lease is a candidate of a pool
    that was tried, with the length of that pool's prefix; it is no pool's
    gateway, no jail whose configuration can be read holds it, and the check made
    of static addresses accepts it for whatever jail.  There is no lease only when
    every candidate is a gateway or held. *)
Theorem leases_are_free (pools : list string) (jails : list holder) (declared : string) :
  match allocateDHCPAddress pools jails declared with
  | Ok a => exists pool l c, pool ∈ tried pools declared /\ parseIPPool pool = Some (Ok l) /\ c ∈ l /\ a = c +:+ pool_netmask pool /\
      c ∉ poolGateways (tried pools declared) /\ ~ held_by jails c /\ forall name, refuseAddressInUse pools jails name a = None
  | Err _ => forall pool l c, pool ∈ tried pools declared -> parseIPPool pool = Some (Ok l) -> c ∈ l ->
      c ∈ poolGateways (tried pools declared) \/ held_by jails c
  end.
Proof.
  unfold allocateDHCPAddress. fold (tried pools declared). set (used := fun c => _). pose proof (first_free_spec used (tried pools declared)) as Hs.
  assert (forall c, used c = true <-> c ∈ poolGateways (tried pools declared) \/ held_by jails c) as Hu.
  { intros c. unfold used. rewrite orb_true_iff, in_use_held, existsb_exists. split; (intros [Hg|Hh]; [left|by right]).
    - destruct Hg as (x & Hx & ->%streq_true). by apply list_elem_of_In.
    - exists c. split; [by apply list_elem_of_In|by apply streq_true]. }
  destruct (first_free used _) as [a|].
  - destruct Hs as (pool & l & c & Hp & El & Hc & Hfree & ->). exists pool, l, c.
    assert (c ∉ poolGateways (tried pools declared) /\ ~ held_by jails c) as [Hg Hh] by (rewrite <- (not_true_iff_false (used c)), Hu in Hfree; tauto).
    split_and!; try done. intros name. unfold refuseAddressInUse. destruct (_ || _); [done|].
    rewrite address_part by (pose proof (candidates_no_slash _ _ El) as Hn; rewrite Forall_forall in Hn; by apply Hn).
    destruct (existsb _ _) eqn:Eg.
    { exfalso. apply Hg. apply existsb_exists in Eg as (x & Hx & ->%streq_true). apply list_elem_of_In in Hx. unfold tried. destruct (streq declared ""); [done|].
      by apply gateways_app. }
    destruct (rev _) as [|h t] eqn:Er; [done|]. exfalso. apply Hh, in_use_held. assert (In h (h :: t)) as Hin by (by left). rewrite <- Er, <- in_rev in Hin.
    apply filter_In in Hin as [Hin E]. apply list_elem_of_In, others_in_use, list_elem_of_In in Hin. apply existsb_exists. by exists h.
  - intros pool l c Hp El Hc. apply Hu. by eapply Hs.
Qed.

Example second_lease : allocateDHCPAddress ["10.0.0.0/29"] [("db", [{| Net_ID := ""; Net_Type := ""; Net_Bridge := ""; Net_BridgeFlags := []; Net_VLAN := 0;
    Net_MAC := ""; Net_IPv4 := "10.0.0.2/29"; Net_IPv6 := ""; Net_IPPool := ""; Net_MTU := 0 |}])] "" = Ok "10.0.0.3/29".
Proof. by vm_compute. Qed.
