(* ===== verification/JailMounts.v ===== *)
(** * Mounts and named volumes of jails (pkg/provider/jail: volumes.go, lifecycle.go, the mounts of start.go and jail.go; pkg/validation/zfs.go)

    Where a path inside a jail lies on the host, the jail's fstab, the mounts made
    when it starts and undone when it stops, and the named volumes mounted into
    jails with the record of where each is mounted. *)

From stdpp Require Import base list gmap strings sorting.
From Stdlib Require Import Ascii ZArith Lia.
From S2P Require Import Prelude GoStrings GoText GoPath Regexp Host Files Validation ProviderTypes InstanceStore Podman JailParams JailNet JailConfig JailHooks.

Local Open Scope Z_scope.

Definition tab : string := String "009" "".

(** ** Lines of an fstab *)

Definition mount_opts (readOnly : bool) : string := if readOnly then "ro" else "rw".
Definition fstab_line (source mountPoint : string) (readOnly : bool) : string :=
  source +:+ tab +:+ mountPoint +:+ tab +:+ "nullfs" +:+ tab +:+ mount_opts readOnly +:+ tab +:+ "0" +:+ tab +:+ "0".
(** The lines of other sources. *)
Definition without_source (source content : string) : string :=
  JoinStrings (List.filter (fun line => negb (HasPrefix line (source +:+ tab))) (Split content newline)) (String newline "").
(** Where the first line of a source is mounted. *)
Definition mounted_at (source content : string) : string :=
  match List.find (fun line => HasPrefix line (source +:+ tab)) (Split content newline) with
  | Some line => match Split line "009" with _ :: m :: _ => m | _ => "" end
  | None => ""
  end.

(** ** The mount table *)

(** Longer paths first. *)
Definition deeper (a b : string) : Prop := len b <= len a.
#[export] Instance deeper_dec : RelDecision deeper.
Proof. intros a b. unfold deeper. apply _. Defined.
Definition mount_points (root output : string) : list string :=
  let prefix := TrimSuffix root "/" +:+ "/" in
  omap (fun line => match Fields line with _ :: m :: _ => if HasPrefix m prefix then Some m else None | _ => None end) (Split output newline).

(** ** Sizes *)

(** [zfsSizeRegex]: a number, a fraction, a unit, a B. *)
Definition zfsSizeRegex : re :=
  let digits := Seq (Cls is_digit) (Star (Cls is_digit)) in
  Seq digits (Seq (UpTo 1 (Seq (Cls (Ascii.eqb ".")) digits)) (Seq (UpTo 1 (Cls (one_of "KMGTPEkmgtpe"))) (UpTo 1 (Cls (one_of "Bb"))))).
Definition validateZFSSize (value field : string) : option error :=
  if streq value "" || streq value "none" then None
  else if negb (MatchString zfsSizeRegex value) then Some (Errorf "invalid %s %q: expected a size such as 10G, 500M or none" [field; value])
  else None.

Definition compressionLevel (rest : string) : option Z :=
  match bytes rest with
  | [] => None
  | c :: l => if (Ascii.eqb c "0" && negb (bool_decide (l = []))) || negb (forallb is_digit (c :: l)) then None
              else match Atoi rest with Ok n => Some n | Err _ => None end
  end.
Definition validZstdFastLevel (level : Z) : bool :=
  ((1 <=? level) && (level <=? 10)) || ((20 <=? level) && (level <=? 100) && (level mod 10 =? 0)) || (level =? 500) || (level =? 1000).
Definition ValidZFSCompression (value : string) : bool :=
  if existsb (streq value) ["on"; "off"; "lz4"; "zle"; "lzjb"; "gzip"; "zstd"; "zstd-fast"] then true
  else match CutPrefix value "gzip-" with
  | Some rest => match bytes rest with [c] => between "1" "9" c | _ => false end
  | None =>
  match CutPrefix value "zstd-fast-" with
  | Some rest => match compressionLevel rest with Some level => validZstdFastLevel level | None => false end
  | None =>
  match CutPrefix value "zstd-" with
  | Some rest => match compressionLevel rest with Some level => (1 <=? level) && (level <=? 19) | None => false end
  | None => false
  end end end.

(** The float64 nearest to [num/den], ties to even, as a mantissa and an exponent
    of two; [None]: it is too large. *)
Definition half_even (num den : Z) : Z :=
  let q := num / den in
  let r := 2 * (num mod den) in
  if (den <? r) || ((r =? den) && Z.odd q) then q + 1 else q.
Definition nearest_float (num den : Z) : option (Z * Z) :=
  if num =? 0 then Some (0, 0)
  else
    let e := Z.log2 num - Z.log2 den in
    let k := if num * 2 ^ Z.max 0 (- e) <? den * 2 ^ Z.max 0 e then e - 1 else e in
    let s := k - 52 in
    let m := half_even (num * 2 ^ Z.max 0 (- s)) (den * 2 ^ Z.max 0 s) in
    if (1024 <=? k) || ((k =? 1023) && (m =? 2 ^ 53)) then None else Some (m, s).
(** [int64] of a float; one that is too large becomes the least number. *)
Definition to_int64 (n : Z) : Z := if n <=? MaxInt64 then n else - 2 ^ 63.

Definition size_shift (c : ascii) : Z :=
  if Ascii.eqb c "K" then 10 else if Ascii.eqb c "M" then 20 else if Ascii.eqb c "G" then 30 else if Ascii.eqb c "T" then 40
  else if Ascii.eqb c "P" then 50 else if Ascii.eqb c "E" then 60 else 0.
(** Digits with at most one point between them, as a fraction. *)
Definition decimal (s : string) : option (Z * Z) :=
  match Cut s "." with
  | None => n ← Atoi_digits s; Some (n, 1)
  | Some (a, b) => n ← Atoi_digits (a +:+ b); Some (n, 10 ^ Z.of_nat (length (bytes b)))
  end.
(** Of the sizes [validateZFSSize] accepts; nothing else reaches it. *)
Definition parseSize (s : string) : Z :=
  let s := TrimSpace (ToUpper s) in
  if streq s "" || streq s "NONE" || streq s "0" then 0
  else
    let s := TrimSuffix s "B" in
    let shift := match rev (bytes s) with c :: _ => size_shift c | [] => 0 end in
    let s := if shift =? 0 then s else of_bytes (removelast (bytes s)) in
    match '(n, d) ← decimal s; nearest_float n d with
    | None => 0
    | Some (m, e) => to_int64 (if 0 <=? e + shift then m * 2 ^ (e + shift) else m / 2 ^ (- (e + shift)))
    end.

(** ** Volumes *)

Record VolumeMountInfo := { VM_JailName : string; VM_MountPath : string; VM_ReadOnly : bool }.
Record NamedVolume := {
  NV_Name : string; NV_Description : string; NV_ZFSDataset : string; NV_Mountpoint : string; NV_Quota : Z; NV_Reservation : Z;
  NV_Compression : string; NV_ReadOnly : bool; NV_Created : Z; NV_UsedBytes : Z; NV_AvailableBytes : Z; NV_MountedTo : list VolumeMountInfo;
  NV_Labels : list (string * string)
}.
Record VolumeCreateOptions := {
  VO_Description : string; VO_Quota : string; VO_Reservation : string; VO_Compression : string; VO_Labels : list (string * string)
}.

Definition with_mounts (v : NamedVolume) (m : list VolumeMountInfo) : NamedVolume :=
  {| NV_Name := NV_Name v; NV_Description := NV_Description v; NV_ZFSDataset := NV_ZFSDataset v; NV_Mountpoint := NV_Mountpoint v;
     NV_Quota := NV_Quota v; NV_Reservation := NV_Reservation v; NV_Compression := NV_Compression v; NV_ReadOnly := NV_ReadOnly v;
     NV_Created := NV_Created v; NV_UsedBytes := NV_UsedBytes v; NV_AvailableBytes := NV_AvailableBytes v; NV_MountedTo := m;
     NV_Labels := NV_Labels v |}.
Definition with_quota (v : NamedVolume) (q : Z) : NamedVolume :=
  {| NV_Name := NV_Name v; NV_Description := NV_Description v; NV_ZFSDataset := NV_ZFSDataset v; NV_Mountpoint := NV_Mountpoint v;
     NV_Quota := q; NV_Reservation := NV_Reservation v; NV_Compression := NV_Compression v; NV_ReadOnly := NV_ReadOnly v;
     NV_Created := NV_Created v; NV_UsedBytes := NV_UsedBytes v; NV_AvailableBytes := NV_AvailableBytes v; NV_MountedTo := NV_MountedTo v;
     NV_Labels := NV_Labels v |}.
(** A volume no metadata describes: its name, its dataset, and the zero time. *)
Definition bare_volume (name dataset : string) : NamedVolume :=
  {| NV_Name := name; NV_Description := ""; NV_ZFSDataset := dataset; NV_Mountpoint := ""; NV_Quota := 0; NV_Reservation := 0; NV_Compression := "";
     NV_ReadOnly := false; NV_Created := -62135596800; NV_UsedBytes := 0; NV_AvailableBytes := 0; NV_MountedTo := []; NV_Labels := [] |}.

(** What zfs answered for the mountpoint, the used and available space, the quota
    and the compression: [None] where the query failed. *)
Record zfs_answers := { za_mountpoint : option string; za_used : option string; za_available : option string; za_quota : option string;
                        za_compression : option string }.
(** [strconv.ParseInt], its error dropped: out of range is the nearest bound. *)
Definition parse_or_zero (s : string) : Z :=
  match ParseInt s 64 with
  | Ok n => n
  | Err e => if errors_Is e "strconv.ErrRange" then (if HasPrefix s "-" then - 2 ^ 63 else MaxInt64) else 0
  end.
Definition described (name dataset : string) (v : NamedVolume) (a : zfs_answers) : NamedVolume :=
  let text old (o : option string) := match o with Some s => TrimSpace s | None => old end in
  let number old (o : option string) := match o with Some s => parse_or_zero (TrimSpace s) | None => old end in
  {| NV_Name := name; NV_Description := NV_Description v; NV_ZFSDataset := dataset; NV_Mountpoint := default (NV_Mountpoint v) (za_mountpoint a);
     NV_Quota := match za_quota a with
                 | Some s => let val := TrimSpace s in if streq val "none" || streq val "0" then NV_Quota v else parse_or_zero val
                 | None => NV_Quota v
                 end;
     NV_Reservation := NV_Reservation v; NV_Compression := text (NV_Compression v) (za_compression a); NV_ReadOnly := NV_ReadOnly v;
     NV_Created := NV_Created v; NV_UsedBytes := number (NV_UsedBytes v) (za_used a); NV_AvailableBytes := number (NV_AvailableBytes v) (za_available a);
     NV_MountedTo := NV_MountedTo v; NV_Labels := NV_Labels v |}.

(** The storage manager the volumes are made with: created with a quota and
    properties it answers the path they are mounted at. *)
Class VolumeBackend (W : Type) := {
  be_init : W -> string -> W * option error;
  be_CreateVolume : W -> string -> string -> list (string * string) -> W * result string;
  be_DeleteVolume : W -> string -> bool -> W * option error
}.

Section mounts.
Context {W : Type} `{Host W} `{FileOps W} `{LinkHost W} `{Json JailConfig} `{Json NamedVolume} `{VolumeBackend W}.
Context (GOARCH : string) (cwd : path).

(** ** Targets and fstabs *)

Definition jailMountTarget (w : W) (jailRoot mountPath : string) : result string :=
  let target := path_Join jailRoot (TrimPrefix mountPath "/") in
  match path_within cwd w target jailRoot with
  | Err e => Err (Wrapf "cannot resolve mount path %q: %w" [mountPath] e)
  | Ok false => Err (Errorf "mount path %q escapes the jail root" [mountPath])
  | Ok true => Ok target
  end.

Definition fstab_path (p : JailProvider) (name : string) : string := path_Join (path_Join (JP_stateDir p) "fstab") name.

Definition addToJailFstab (w : W) (fstabPath source mountPoint : string) (readOnly : bool) : W * option error :=
  let entry := fstab_line source mountPoint readOnly +:+ String newline "" in
  and_then (MkdirAll w (path_Dir fstabPath)) (fun w =>
  if match ReadFile w fstabPath with Ok existing => Contains existing entry | Err _ => false end then (w, None)
  else and_then (OpenAppend w fstabPath) (fun w => WriteString w fstabPath entry)).
Definition removeFromJailFstab (w : W) (fstabPath source : string) : W * option error :=
  match ReadFile w fstabPath with
  | Err e => (w, if errors_Is e ErrNotExist then None else Some e)
  | Ok content => WriteFile w fstabPath (without_source source content)
  end.

Definition nullfs (readOnly : bool) (source target : string) : list string := ["mount"; "-t"; "nullfs"; "-o"; mount_opts readOnly; source; target].

(** ** Mounts of a jail *)

(** One entry of the [mounts] setting; what cannot be mounted safely is left out,
    what cannot be mounted fails. *)
Definition apply_mount (p : JailProvider) (c : JailConfig) (w : W) (m : value) : W * option error :=
  match m with
  | VMap mount =>
      let hostPath := default "" (text_at "host_path" mount) in
      let mountPath := default "" (text_at "mount_path" mount) in
      let readOnly := match config_at "read_only" mount with Some (VBool b) => b | _ => false end in
      if streq hostPath "" || streq mountPath "" then (w, None)
      else if negb (is_nil (ValidateFilePath hostPath true)) || negb (is_nil (ValidateFilePath mountPath true)) then (w, None)
      else
        let w := (MkdirAll w hostPath).1 in
        match jailMountTarget w (JC_Path c) mountPath with
        | Err _ => (w, None)
        | Ok targetPath =>
            and_then (wrapped "failed to create mount point %s: %w" (MkdirAll w targetPath)) (fun w =>
            and_then (run_msg "failed to mount %s at %s in jail %s: %w (output: %s)" [hostPath; mountPath; JC_Name c] w (nullfs readOnly hostPath targetPath))
              (fun w =>
            if streq (jtext (JC_JailParameters c) "mount.fstab") ""
            then ((addToJailFstab w (fstab_path p (JC_Name c)) hostPath targetPath readOnly).1, None) else (w, None)))
        end
  | _ => (w, None)
  end.
Fixpoint apply_each (p : JailProvider) (c : JailConfig) (mounts : list value) (w : W) : W * option error :=
  match mounts with [] => (w, None) | m :: rest => and_then (apply_mount p c w m) (apply_each p c rest) end.
Definition applyMounts (p : JailProvider) (w : W) (c : JailConfig) : W * option error :=
  and_then (apply_each p c (default [] (slice_at "mounts" (Spec_ProviderConfig (JC_Spec c)))) w) (fun w =>
  let file := fstab_path p (JC_Name c) in
  if streq (jtext (JC_JailParameters c) "mount.fstab") "" && is_ok (Stat w file)
  then run_msg "failed to mount the volumes recorded in %s for jail %s: %w (output: %s)" [file; JC_Name c] w ["mount"; "-a"; "-F"; file]
  else (w, None)).

(** Deepest first; mount points of one length in the order of the table. *)
Definition jailMounts (w : W) (root : string) : W * list string :=
  let '(w, x) := exec w (Command ["mount"; "-p"]) in
  (w, match ex_err x with Some _ => [] | None => merge_sort deeper (mount_points root (ex_stdout x)) end).
Definition umountJail (p : JailProvider) (w : W) (jailName : string) : W :=
  match ValidateInstanceName jailName with
  | Some _ => w
  | None =>
      match loadJailConfig GOARCH w (config_path p jailName) with
      | Err _ => w
      | Ok c => if streq (JC_Path c) "" then w
                else let '(w, targets) := jailMounts w (JC_Path c) in foldl (fun w t => (run w ["umount"; "-f"; t]).1) w targets
      end
  end.

(** ** Disks *)

Definition AttachDisk (p : JailProvider) (w : W) (id diskPath mountPoint : string) (readOnly : bool) : W * option error :=
  match ValidateInstanceName id with
  | Some e => (w, Some (Wrapf "invalid instance id %q: %w" [id] e))
  | None =>
  match loadJailConfig GOARCH w (config_path p id) with
  | Err e => (w, Some (Wrapf "failed to load jail config: %w" [] e))
  | Ok c =>
      let targetPath := path_Join (JC_Path c) (TrimPrefix mountPoint "/") in
      match path_within cwd w targetPath (JC_Path c) with
      | Err e => (w, Some (Wrapf "cannot resolve mount point %q: %w" [mountPoint] e))
      | Ok false => (w, Some (Errorf "mount point %q resolves to %s, outside the jail root %s" [mountPoint; targetPath; JC_Path c]))
      | Ok true =>
          and_then (wrapped "failed to create mount point: %w" (MkdirAll w targetPath)) (fun w =>
          match isJailRunning w id with
          | (w, Err e) => (w, Some e)
          | (w, Ok running) =>
              and_then (if running then run_msg "failed to mount disk: %w (output: %s)" [] w (nullfs readOnly diskPath targetPath) else (w, None)) (fun w =>
              wrapped "failed to add to fstab: %w" (addToJailFstab w (fstab_path p id) diskPath targetPath readOnly))
          end)
      end
  end end.
Definition DetachDisk (p : JailProvider) (w : W) (id diskID : string) : W * option error :=
  match ValidateInstanceName id with
  | Some e => (w, Some (Wrapf "invalid instance id %q: %w" [id] e))
  | None =>
  match loadJailConfig GOARCH w (config_path p id) with
  | Err e => (w, Some (Wrapf "failed to load jail config: %w" [] e))
  | Ok c =>
  match ReadFile w (fstab_path p id) with
  | Err e => (w, Some (if errors_Is e ErrNotExist then Errorf "disk %s not found in jail fstab" [diskID] else e))
  | Ok content =>
      let mountPoint := mounted_at diskID content in
      if streq mountPoint "" then (w, Some (Errorf "disk %s not found in jail fstab" [diskID]))
      else
        let targetPath := if HasPrefix mountPoint (JC_Path c +:+ "/") || streq mountPoint (JC_Path c) then mountPoint
                          else path_Join (JC_Path c) (TrimPrefix mountPoint "/") in
        match isJailRunning w id with
        | (w, Err e) => (w, Some e)
        | (w, Ok running) =>
            and_then (if running then run_msg "failed to unmount disk: %w (output: %s)" [] w ["umount"; "-f"; targetPath] else (w, None)) (fun w =>
            wrapped "failed to remove from fstab: %w" (removeFromJailFstab w (fstab_path p id) diskID))
        end
  end end end.
End mounts.

(** ** Operations on named volumes

    Volumes are created and deleted through the storage manager, described from
    their metadata and from zfs, and mounted into jails; the metadata of a volume
    records where it is mounted. *)

Section volumes.
Context {W : Type} `{Host W} `{FileOps W} `{LinkHost W} `{Json JailConfig} `{Json NamedVolume} `{VolumeBackend W}.
Context (GOARCH : string) (cwd : path).

Definition volume_dataset (p : JailProvider) (name : string) : string := getVolumesParent p +:+ "/" +:+ name.
Definition volume_path (p : JailProvider) (name : string) : string := path_Join (path_Join (JP_stateDir p) "volumes") (name +:+ ".json").

Definition saveVolumeMetadata (p : JailProvider) (w : W) (v : NamedVolume) : W * option error :=
  and_then (MkdirAll w (path_Join (JP_stateDir p) "volumes")) (fun w =>
  match Marshal v with
  | Err e => (w, Some e)
  | Ok data => WriteFile w (volume_path p (NV_Name v)) data
  end).
Definition loadVolumeMetadata (p : JailProvider) (w : W) (name : string) : result NamedVolume :=
  match ReadFile w (volume_path p name) with Err e => Err e | Ok data => Unmarshal data end.

(** One property of a dataset. *)
Definition zfs_value (w : W) (property dataset : string) : W * option string :=
  let '(w, x) := exec w (Command ["zfs"; "get"; "-Hp"; "-o"; "value"; property; dataset]) in
  (w, match ex_err x with None => Some (ex_stdout x) | Some _ => None end).
Definition updateVolumeFromZFS (w : W) (name dataset : string) (v : NamedVolume) : W * NamedVolume :=
  let '(w, mountpoint) := getZFSMountpoint w dataset in
  let '(w, used) := zfs_value w "used" dataset in
  let '(w, available) := zfs_value w "available" dataset in
  let '(w, quota) := zfs_value w "quota" dataset in
  let '(w, compression) := zfs_value w "compression" dataset in
  (w, described name dataset v
        {| za_mountpoint := match mountpoint with Ok m => Some m | Err _ => None end; za_used := used; za_available := available; za_quota := quota;
           za_compression := compression |}).

Definition GetVolume (p : JailProvider) (w : W) (name : string) : W * result NamedVolume :=
  match ValidateInstanceName name with
  | Some e => (w, Err (Wrapf "invalid volume name %q: %w" [name] e))
  | None =>
      let dataset := volume_dataset p name in
      match run w ["zfs"; "list"; "-H"; dataset] with
      | (w, Some _) => (w, Err (Errorf "volume %s not found" [name]))
      | (w, None) =>
          let described v := let '(w, v) := updateVolumeFromZFS w name dataset v in (w, Ok v) in
          match loadVolumeMetadata p w name with
          | Ok v => described v
          | Err e => if errors_Is e ErrNotExist then described (bare_volume name dataset)
                     else (w, Err (Wrapf "volume %s has unreadable metadata; refusing to describe it from ZFS alone: %w" [name] e))
          end
      end
  end.

(** The volumes the listed datasets are; one that cannot be read is left out. *)
Fixpoint each_volume (p : JailProvider) (names : list string) (w : W) : W * list NamedVolume :=
  match names with
  | [] => (w, [])
  | name :: rest =>
      let '(w, r) := GetVolume p w name in
      let '(w, l) := each_volume p rest w in
      (w, match r with Ok v => v :: l | Err _ => l end)
  end.
Definition volume_names (parent output : string) : list string :=
  omap (fun line => let ds := TrimSpace line in
                    let name := TrimPrefix ds (parent +:+ "/") in
                    if streq ds "" || streq ds parent || Contains name "/" then None else Some name)
    (Split (TrimSpace output) newline).
Definition ListVolumes (p : JailProvider) (w : W) : W * result (list NamedVolume) :=
  let parent := getVolumesParent p in
  match run w ["zfs"; "list"; "-H"; parent] with
  | (w, Some _) => (w, Ok [])
  | (w, None) =>
      let '(w, x) := exec w (Command ["zfs"; "list"; "-H"; "-r"; "-t"; "filesystem"; "-o"; "name"; parent]) in
      match ex_err x with
      | Some e => (w, Err (Wrapf "failed to list volumes: %w" [] e))
      | None => let '(w, l) := each_volume p (volume_names parent (ex_stdout x)) w in (w, Ok l)
      end
  end.

Definition storage_ready (p : JailProvider) (w : W) : W * option error :=
  wrapped "failed to initialize storage backend: %w" (be_init w (getVolumesParent p)).

Definition CreateVolume (p : JailProvider) (w : W) (now : Z) (name : string) (opts : VolumeCreateOptions) : W * result NamedVolume :=
  match ValidateInstanceName name with
  | Some e => (w, Err (Wrapf "invalid volume name: %w" [] e))
  | None =>
      let compression := if streq (VO_Compression opts) "" then "lz4" else VO_Compression opts in
      if negb (ValidZFSCompression compression) then (w, Err (Errorf "invalid compression %q" [compression]))
      else match storage_ready p w with
      | (w, Some e) => (w, Err e)
      | (w, None) =>
      match first_error [validateZFSSize (VO_Quota opts) "quota"; validateZFSSize (VO_Reservation opts) "reservation"] with
      | Some e => (w, Err e)
      | None =>
          let properties := ("compression", compression) :: (if streq (VO_Reservation opts) "" then [] else [("reservation", VO_Reservation opts)]) in
          match be_CreateVolume w name (VO_Quota opts) properties with
          | (w, Err e) => (w, Err e)
          | (w, Ok created) =>
              match (if streq created "" then getZFSMountpoint w (volume_dataset p name) else (w, Ok created)) with
              | (w, Err e) => (destroyZFSDatasetCleanup p w (volume_dataset p name), Err (Wrapf "failed to get volume mountpoint: %w" [] e))
              | (w, Ok mountpoint) =>
                  let volume :=
                    {| NV_Name := name; NV_Description := VO_Description opts; NV_ZFSDataset := volume_dataset p name; NV_Mountpoint := mountpoint;
                       NV_Quota := if streq (VO_Quota opts) "" then 0 else parseSize (VO_Quota opts);
                       NV_Reservation := if streq (VO_Reservation opts) "" then 0 else parseSize (VO_Reservation opts);
                       NV_Compression := compression; NV_ReadOnly := false; NV_Created := now; NV_UsedBytes := 0; NV_AvailableBytes := 0;
                       NV_MountedTo := []; NV_Labels := VO_Labels opts |} in
                  ((saveVolumeMetadata p w volume).1, Ok volume)
              end
          end
      end end
  end.

Definition ResizeVolume (p : JailProvider) (w : W) (name newQuota : string) : W * option error :=
  match validateZFSSize newQuota "quota" with
  | Some e => (w, Some e)
  | None =>
      match GetVolume p w name with
      | (w, Err e) => (w, Some e)
      | (w, Ok v) =>
          and_then (run_msg "failed to set quota: %w (output: %s)" [] w ["zfs"; "set"; "quota=" +:+ newQuota; NV_ZFSDataset v]) (fun w =>
          ((saveVolumeMetadata p w (with_quota v (parseSize newQuota))).1, None))
      end
  end.

(** ** Mounting *)

Definition mount_of (jailName : string) (v : NamedVolume) : option VolumeMountInfo :=
  List.find (fun m => streq (VM_JailName m) jailName) (NV_MountedTo v).
Fixpoint without_mount (jailName : string) (l : list VolumeMountInfo) : list VolumeMountInfo :=
  match l with [] => [] | m :: l => if streq (VM_JailName m) jailName then l else m :: without_mount jailName l end.

Definition undoMount (w : W) (mounted : bool) (targetPath : string) : W := if mounted then (run w ["umount"; targetPath]).1 else w.

(** The fstab and the metadata of a mount that was made; either failing undoes it. *)
Definition record_mount (p : JailProvider) (w : W) (v : NamedVolume) (running : bool) (jailName mountPath targetPath : string) (readOnly : bool)
    : W * option error :=
  match addToJailFstab w (fstab_path p jailName) (NV_Mountpoint v) targetPath readOnly with
  | (w, Some e) => (undoMount w running targetPath, Some (Wrapf "failed to record the mount in the jail fstab: %w" [] e))
  | (w, None) =>
      match saveVolumeMetadata p w
              (with_mounts v (NV_MountedTo v ++ [{| VM_JailName := jailName; VM_MountPath := mountPath; VM_ReadOnly := readOnly |}])) with
      | (w, Some e) =>
          let w := (removeFromJailFstab w (fstab_path p jailName) (NV_Mountpoint v)).1 in
          (undoMount w running targetPath, Some (Wrapf "failed to persist volume metadata after mount: %w" [] e))
      | (w, None) => (w, None)
      end
  end.
Definition MountVolumeToJail (p : JailProvider) (w : W) (volumeName jailName mountPath : string) (readOnly : bool) : W * option error :=
  match first_error [
    wrap "invalid volume name: %w" [] (ValidateInstanceName volumeName);
    wrap "invalid jail name: %w" [] (ValidateInstanceName jailName);
    fail_if (negb (IsAbs (bytes mountPath))) (Errorf "mount path must be absolute: %q" [mountPath]);
    wrap "invalid mount path: %w" [] (ValidateFilePath mountPath true)] with
  | Some e => (w, Some e)
  | None =>
  match GetVolume p w volumeName with
  | (w, Err e) => (w, Some e)
  | (w, Ok v) =>
  match loadJailConfig GOARCH w (config_path p jailName) with
  | Err e => (w, Some (Wrapf "failed to load jail config: %w" [] e))
  | Ok c =>
  match jailMountTarget cwd w (JC_Path c) mountPath with
  | Err e => (w, Some e)
  | Ok targetPath =>
  match mount_of jailName v with
  | Some m => (w, Some (if streq (VM_MountPath m) mountPath then Errorf "volume %s is already mounted at %s in jail %s" [volumeName; mountPath; jailName]
                        else Errorf "volume %s is already mounted in jail %s at %s; unmount it first" [volumeName; jailName; VM_MountPath m]))
  | None =>
      and_then (wrapped "failed to create mount point: %w" (MkdirAll w targetPath)) (fun w =>
      match isJailRunning w jailName with
      | (w, Err e) => (w, Some e)
      | (w, Ok running) =>
          and_then (if running then run_msg "failed to mount volume: %w (output: %s)" [] w (nullfs readOnly (NV_Mountpoint v) targetPath) else (w, None))
            (fun w => record_mount p w v running jailName mountPath targetPath readOnly)
      end)
  end end end end end.

Definition UnmountVolumeFromJail (p : JailProvider) (w : W) (volumeName jailName : string) : W * option error :=
  match GetVolume p w volumeName with
  | (w, Err e) => (w, Some e)
  | (w, Ok v) =>
  match mount_of jailName v with
  | None => (w, Some (Errorf "volume %s is not mounted to jail %s" [volumeName; jailName]))
  | Some m =>
  match loadJailConfig GOARCH w (config_path p jailName) with
  | Err e => (w, Some (Wrapf "failed to load jail config: %w" [] e))
  | Ok c =>
  match jailMountTarget cwd w (JC_Path c) (VM_MountPath m) with
  | Err e => (w, Some e)
  | Ok targetPath =>
  match isJailRunning w jailName with
  | (w, Err e) => (w, Some e)
  | (w, Ok running) =>
      and_then (if running then run_msg "failed to unmount volume: %w (output: %s)" [] w ["umount"; targetPath] else (w, None)) (fun w =>
      and_then (wrapped "unmounted %s but could not update the jail fstab: %w" (removeFromJailFstab w (fstab_path p jailName) (NV_Mountpoint v))) (fun w =>
      wrapped "unmounted %s but could not persist the volume metadata: %w"
        (saveVolumeMetadata p w (with_mounts v (without_mount jailName (NV_MountedTo v))))))
  end end end end end.

Fixpoint unmount_all (p : JailProvider) (force : bool) (name : string) (mounts : list VolumeMountInfo) (w : W) : W * option error :=
  match mounts with
  | [] => (w, None)
  | m :: rest =>
      match UnmountVolumeFromJail p w name (VM_JailName m) with
      | (w, Some e) => if force then unmount_all p force name rest w else (w, Some (Wrapf "failed to unmount from %s: %w" [VM_JailName m] e))
      | (w, None) => unmount_all p force name rest w
      end
  end.
Definition DeleteVolume (p : JailProvider) (w : W) (name : string) (force : bool) : W * option error :=
  match GetVolume p w name with
  | (w, Err e) => (w, Some e)
  | (w, Ok v) =>
      if negb (bool_decide (NV_MountedTo v = [])) && negb force
      then (w, Some (Errorf "volume is mounted to jails: %s. Use force=true to delete anyway" (map VM_JailName (NV_MountedTo v))))
      else
        and_then (unmount_all p force name (NV_MountedTo v) w) (fun w =>
        and_then (storage_ready p w) (fun w =>
        and_then (wrapped "failed to destroy ZFS dataset: %w" (be_DeleteVolume w name force)) (fun w =>
        ((RemoveFile w (volume_path p name)).1, None))))
  end.

(** ** Snapshots of volumes *)

Definition SnapshotVolume (p : JailProvider) (w : W) (volumeName snapshotName : string) : W * option error :=
  match first_error [
    wrap "invalid volume name: %w" [] (ValidateInstanceName volumeName);
    wrap "invalid snapshot name: %w" [] (ValidateSnapshotName snapshotName)] with
  | Some e => (w, Some e)
  | None =>
      match GetVolume p w volumeName with
      | (w, Err e) => (w, Some e)
      | (w, Ok v) => run_msg "failed to create snapshot: %w (output: %s)" [] w ["zfs"; "snapshot"; NV_ZFSDataset v +:+ "@" +:+ snapshotName]
      end
  end.
Definition CloneVolume (p : JailProvider) (w : W) (volumeName snapshotName newVolumeName : string) : W * result NamedVolume :=
  match first_error [
    wrap "invalid volume name: %w" [] (ValidateInstanceName volumeName);
    wrap "invalid snapshot name: %w" [] (ValidateSnapshotName snapshotName);
    wrap "invalid new volume name: %w" [] (ValidateInstanceName newVolumeName)] with
  | Some e => (w, Err e)
  | None =>
      match GetVolume p w volumeName with
      | (w, Err e) => (w, Err e)
      | (w, Ok v) =>
          match run_msg "failed to clone volume: %w (output: %s)" [] w
                  ["zfs"; "clone"; NV_ZFSDataset v +:+ "@" +:+ snapshotName; volume_dataset p newVolumeName] with
          | (w, Some e) => (w, Err e)
          | (w, None) => GetVolume p w newVolumeName
          end
      end
  end.
End volumes.
