(* ===== verification/JailImages.v ===== *)
(** * Base systems of jails (pkg/provider/jail: image.go, linux.go, the emulation of crossarch.go)

    The archive a jail's root is unpacked from, downloads checked against a digest,
    the bootstrap of a Linux root, its mounts, and the emulator of a foreign
    architecture. *)

From stdpp Require Import base list gmap strings.
From Stdlib Require Import Ascii ZArith Lia.
From S2P Require Import Prelude GoStrings GoText GoPath GoHttp Host Files Validation ProviderTypes ManifestTypes InstanceStore Podman JailParams JailNet JailConfig JailHooks JailMounts.

Local Open Scope Z_scope.

Record OSRelease := { OR_Type : string; OR_Version : string; OR_Arch : string; OR_BaseURL : string; OR_SHA256 : string; OR_GPGKey : string }.

Definition freeBSDArchPath (arch : string) : string :=
  if existsb (streq arch) ["arm64"; "aarch64"] then "arm64/aarch64"
  else if existsb (streq arch) ["riscv64"; "riscv"] then "riscv/riscv64"
  else if streq arch "386" then "i386" else arch.

(** Of a release that is not FreeBSD's, only what was asked for. *)
Definition GetOSRelease (GOARCH osType osVersion arch : string) : OSRelease :=
  let arch := if streq arch "" then GOARCH else arch in
  if streq osType "freebsd" || streq osType "" then
    let tree := if Contains osVersion "CURRENT" || Contains osVersion "STABLE" then "snapshots" else "releases" in
    {| OR_Type := "freebsd"; OR_Version := osVersion; OR_Arch := arch;
       OR_BaseURL := "https://download.freebsd.org/" +:+ tree +:+ "/" +:+ freeBSDArchPath arch +:+ "/" +:+ osVersion +:+ "/base.txz";
       OR_SHA256 := ""; OR_GPGKey := "" |}
  else {| OR_Type := osType; OR_Version := osVersion; OR_Arch := arch; OR_BaseURL := ""; OR_SHA256 := ""; OR_GPGKey := "" |}.

(** The digest a MANIFEST lists for an archive. *)
Definition manifest_digest (content archiveName : string) : option string :=
  match List.find (fun l => match Split l "009" with f :: _ :: _ => streq f archiveName | _ => false end) (Split content newline) with
  | Some l => match Split l "009" with _ :: d :: _ => Some (TrimSpace d) | _ => None end
  | None => None
  end.

Definition extensions : list string := [".txz"; ".tar.gz"; ".tar.xz"; ".tar.bz2"; ".tgz"].
(** Where the archive of an image is looked for, in order. *)
Definition arch_suffixes (GOARCH image arch : string) : list string :=
  if negb (streq arch "") && negb (streq arch "native")
  then let requested := normalizeArch GOARCH arch in
       ("-" +:+ requested) :: (if HasSuffix image ("-" +:+ requested) then [""] else [])
  else ["-" +:+ GOARCH; "-amd64"; "-arm64"; "-i386"; "-riscv64"; ""].
Definition image_candidates (GOARCH imageDir image arch : string) : list string :=
  flat_map (fun dir =>
    path_Join dir image ::
    flat_map (fun prefix =>
      flat_map (fun suffix =>
        let imageName := prefix +:+ image +:+ suffix in
        map (fun ext => path_Join dir (if HasSuffix imageName ext then imageName else imageName +:+ ext)) extensions)
      (arch_suffixes GOARCH image arch))
    ["freebsd-"; ""])
  [path_Join imageDir "sets"; imageDir].

Definition qemuArchMap : list (string * string) :=
  [("arm64", "qemu-aarch64-static"); ("aarch64", "qemu-aarch64-static"); ("riscv64", "qemu-riscv64-static"); ("riscv", "qemu-riscv64-static");
   ("i386", "qemu-i386-static"); ("armv7", "qemu-arm-static"); ("arm", "qemu-arm-static")].

Definition debootstrapArch (arch : string) : result string :=
  if existsb (streq arch) [""; "amd64"; "x86_64"] then Ok "amd64"
  else if existsb (streq arch) ["arm64"; "aarch64"] then Ok "arm64"
  else if existsb (streq arch) ["i386"; "386"] then Ok "i386"
  else if streq arch "riscv64" then Ok "riscv64"
  else if existsb (streq arch) ["armv7"; "arm"] then Ok "armhf"
  else Err (Errorf "architecture %q is not supported by debootstrap" [arch]).
Definition validateMirrorScheme (mirror : string) : option error :=
  fail_if (negb (HasPrefix mirror "https://")) (Errorf "insecure mirror %q: only https:// mirrors are allowed" [mirror]).

Definition debianKeyrings : list string := ["/usr/local/share/keyrings/debian-archive-keyring.gpg"; "/usr/share/keyrings/debian-archive-keyring.gpg"].
Definition ubuntuKeyrings : list string := ["/usr/local/share/keyrings/ubuntu-archive-keyring.gpg"; "/usr/share/keyrings/ubuntu-archive-keyring.gpg"].
Definition debian_codenames : list (string * string) := [("debian-11", "bullseye"); ("debian-12", "bookworm")].
Definition ubuntu_codenames : list (string * string) := [("ubuntu-20.04", "focal"); ("ubuntu-22.04", "jammy"); ("ubuntu-24.04", "noble")].

(** The name of a distribution, its release package and its version. *)
Definition rhel_release (version : string) : string * string * string :=
  if Contains version "rocky-8" then ("Rocky Linux 8", "rocky-release", "8")
  else if Contains version "rocky-9" then ("Rocky Linux 9", "rocky-release", "9")
  else if Contains version "alma-8" then ("AlmaLinux 8", "almalinux-release", "8")
  else if Contains version "alma-9" then ("AlmaLinux 9", "almalinux-release", "9")
  else if Contains version "centos" then ("CentOS Stream 9", "centos-stream-release", "9")
  else ("", "", "9").
Definition text_lines (l : list string) : string := fold_right (fun s t => s +:+ String newline t) "" l.
Definition repo_file (repoName baseURL key : string) : string :=
  text_lines ["[baseos]"; "name=" +:+ repoName +:+ " - BaseOS"; "baseurl=" +:+ baseURL; "enabled=1"; "gpgcheck=1"; "gpgkey=" +:+ key].

(** The parameters a Linux jail is given. *)
Definition linux_parameters (fstab : string) (p : JailParameters) : JailParameters :=
  let p := set_text "mount.fstab" fstab (set_int "devfs_ruleset" 4 (set_bool "mount.devfs" true p)) in
  let p := foldl (fun p k => set_bool k true p) p
             ["allow.mount"; "allow.mount.devfs"; "allow.mount.linprocfs"; "allow.mount.linsysfs"; "allow.mount.tmpfs"; "allow.mount.fdescfs";
              "allow.mount.nullfs"] in
  set_int "enforce_statfs" 1 p.
Definition tabs (n : nat) : string := of_bytes (repeat "009"%char n).
Definition linux_fstab (root : string) : string :=
  text_lines
    ["# Linux jail mounts";
     "devfs" +:+ tabs 2 +:+ root +:+ "/dev" +:+ tabs 2 +:+ "devfs" +:+ tabs 2 +:+ "rw" +:+ tabs 4 +:+ "0" +:+ tabs 1 +:+ "0";
     "tmpfs" +:+ tabs 2 +:+ root +:+ "/dev/shm" +:+ tabs 1 +:+ "tmpfs" +:+ tabs 2 +:+ "rw,mode=1777,size=1g" +:+ tabs 2 +:+ "0" +:+ tabs 1 +:+ "0";
     "fdescfs" +:+ tabs 2 +:+ root +:+ "/dev/fd" +:+ tabs 1 +:+ "fdescfs" +:+ tabs 2 +:+ "rw,linrdlnk" +:+ tabs 3 +:+ "0" +:+ tabs 1 +:+ "0";
     "linprocfs" +:+ tabs 1 +:+ root +:+ "/proc" +:+ tabs 2 +:+ "linprocfs" +:+ tabs 1 +:+ "rw" +:+ tabs 4 +:+ "0" +:+ tabs 1 +:+ "0";
     "linsysfs" +:+ tabs 1 +:+ root +:+ "/sys" +:+ tabs 2 +:+ "linsysfs" +:+ tabs 1 +:+ "rw" +:+ tabs 4 +:+ "0" +:+ tabs 1 +:+ "0";
     "tmpfs" +:+ tabs 2 +:+ root +:+ "/run" +:+ tabs 2 +:+ "tmpfs" +:+ tabs 2 +:+ "rw,mode=0755,size=100m" +:+ tabs 2 +:+ "0" +:+ tabs 1 +:+ "0";
     "tmpfs" +:+ tabs 2 +:+ root +:+ "/tmp" +:+ tabs 2 +:+ "tmpfs" +:+ tabs 2 +:+ "rw,mode=1777,size=1g" +:+ tabs 2 +:+ "0" +:+ tabs 1 +:+ "0"].

(** Directories with names of their own, removed with all they hold. *)
Class TempDirs (W : Type) := { MkdirTemp : W -> string -> W * result string; RemoveAll : W -> string -> W * option error }.

Section images.
Context {W : Type} `{Host W} `{FileOps W} `{LinkHost W} `{TempDirs W} `{Json JailConfig}.
(** [sha256hex]: the SHA-256 of a content, in hexadecimal; [image_env]: the value
    of HOSPITUS_IMAGE_DIR. *)
Context (GOARCH image_env : string) (sha256hex : string -> string).

Definition image_dir (p : JailProvider) : string := if streq image_env "" then path_Join (JP_root p) "images" else image_env.

(** ** Downloads *)

Definition digestFromManifest (w : W) (tmpDir archiveURL : string) : W * result string :=
  match CutLast archiveURL "/" with
  | None => (w, Err (Errorf "cannot locate a MANIFEST for %s" [archiveURL]))
  | Some (dir, archiveName) =>
      let manifestURL := dir +:+ "/MANIFEST" in
      let manifestPath := path_Join tmpDir "MANIFEST" in
      match run_msg "cannot fetch %s to verify the base system: %w (output: %s)" [manifestURL] w ["fetch"; "-o"; manifestPath; manifestURL] with
      | (w, Some e) => (w, Err e)
      | (w, None) =>
          (w, match ReadFile w manifestPath with
              | Err e => Err (Wrapf "cannot read the fetched MANIFEST: %w" [] e)
              | Ok data => match manifest_digest data archiveName with
                           | Some d => Ok d
                           | None => Err (Errorf "%s lists no digest for %s" [manifestURL; archiveName])
                           end
              end)
      end
  end.
Definition verifyArchiveDigest (w : W) (path expected : string) : option error :=
  if streq expected "" then Some (Errorf "no SHA-256 is recorded for this base system; refusing to extract %s unverified" [path])
  else match ReadFile w path with
       | Err e => Some (Wrapf "cannot read the downloaded archive: %w" [] e)
       | Ok data => fail_if (negb (EqualFold (sha256hex data) expected)) (Errorf "base system digest mismatch: got %s, expected %s" [sha256hex data; expected])
       end.
Definition DownloadBaseSystem (w : W) (release : OSRelease) (destination : string) : W * option error :=
  if streq (OR_BaseURL release) "" then (w, Some (Errorf "no base URL for %s %s %s" [OR_Type release; OR_Version release; OR_Arch release]))
  else match MkdirTemp w "hospitus-base-*" with
  | (w, Err e) => (w, Some (Wrapf "failed to create temp directory: %w" [] e))
  | (w, Ok tmpDir) =>
      let archivePath := path_Join tmpDir "base.txz" in
      let '(w, err) :=
        and_then (run_msg "failed to download base system: %w (output: %s)" [] w ["fetch"; "-o"; archivePath; OR_BaseURL release]) (fun w =>
        match (if streq (OR_SHA256 release) "" then digestFromManifest w tmpDir (OR_BaseURL release) else (w, Ok (OR_SHA256 release))) with
        | (w, Err e) => (w, Some e)
        | (w, Ok expected) =>
            match verifyArchiveDigest w archivePath expected with
            | Some e => (w, Some e)
            | None => run_msg "failed to extract base system: %w (output: %s)" [] w ["tar"; "-xf"; archivePath; "-C"; destination]
            end
        end) in
      ((RemoveAll w tmpDir).1, err)
  end.

Definition extract (w : W) (archive destination : string) : W * option error :=
  run_msg "failed to extract base system: %w (output: %s)" [] w ["tar"; "-xf"; archive; "-C"; destination].
Definition extractBaseSystem (p : JailProvider) (w : W) (image destination arch : string) : W * option error :=
  if streq image "" then (w, None)
  else if is_ok (Stat w image) then extract w image destination
  else if Contains image ".." || ContainsAny image "/\" then (w, Some (Errorf "invalid image name %q: must not contain path separators or '..'" [image]))
  else match List.find (fun c => is_ok (Stat w c)) (image_candidates GOARCH (image_dir p) image arch) with
       | Some archive => extract w archive destination
       | None => (w, Some (Errorf "image not found: %s" [image]))
       end.

(** ** Emulation *)

Definition getQEMUBinaryPath (w : W) (targetArch : string) : result string :=
  match ManifestTypes.assoc (normalizeArch GOARCH targetArch) qemuArchMap with
  | None => Err (Errorf "no QEMU binary mapping for architecture: %s" [targetArch])
  | Some binaryName =>
      match List.find (fun path => is_ok (Stat w path)) ["/usr/local/bin/" +:+ binaryName; "/usr/bin/" +:+ binaryName; "/usr/local/libexec/qemu/" +:+ binaryName] with
      | Some path => Ok path
      | None => Err (Errorf "QEMU binary %s not found. Install qemu-user-static package: pkg install qemu-user-static" [binaryName])
      end
  end.
Definition copy_rescue (jailPath : string) (w : W) (bin : string) : W :=
  let src := path_Join "/rescue" bin in
  if is_ok (Stat w src) then (run w ["cp"; src; path_Join (path_Join jailPath "rescue") bin]).1 else w.
Definition setupCrossArchEmulation (w : W) (jailPath targetArch : string) : W * option error :=
  if negb (isCrossArch GOARCH targetArch) then (w, None)
  else match getQEMUBinaryPath w (normalizeArch GOARCH targetArch) with
  | Err e => (w, Some e)
  | Ok qemuSrc =>
      let qemuDst := path_Join jailPath qemuSrc in
      and_then (wrapped "failed to create QEMU directory in jail: %w" (MkdirAll w (path_Dir qemuDst))) (fun w =>
      and_then (run_msg "failed to copy QEMU binary: %w (output: %s)" [] w ["cp"; qemuSrc; qemuDst]) (fun w =>
      and_then (wrapped "failed to set QEMU binary permissions: %w" (Chmod w qemuDst 493)) (fun w =>
      if negb (is_ok (Stat w "/rescue")) then (w, None)
      else match MkdirAll w (path_Join jailPath "rescue") with
           | (w, Some _) => (w, None)
           | (w, None) => (foldl (copy_rescue jailPath) w ["route"; "ping"; "ping6"; "ifconfig"; "netstat"], None)
           end)))
  end.

(** ** Linux *)

Definition ensureSysrc (w : W) (key value : string) : W * option error :=
  if Contains key "=" || Contains key " " then (w, Some (Errorf "invalid sysrc key: %s" [key]))
  else run_msg "sysrc %s=%s failed: %w (output: %s)" [key; value] w ["sysrc"; key +:+ "=" +:+ value].
Definition setSysctlIfNotSet (w : W) (key value : string) : W * option error :=
  let '(w, x) := exec w (Command ["sysctl"; "-n"; key]) in
  let current := TrimSpace (ex_stdout x) in
  if is_nil (ex_err x) && negb (streq current "") && negb (streq current "-1") then (w, None)
  else run_msg "sysctl %s=%s failed: %w (output: %s)" [key; value] w ["sysctl"; key +:+ "=" +:+ value].

Fixpoint load_modules (mods : list string) (w : W) : W * option error :=
  match mods with
  | [] => (w, None)
  | m :: rest =>
      match run w ["kldstat"; "-q"; "-n"; m] with
      | (w, None) => load_modules rest w
      | (w, Some _) =>
      match run w ["kldstat"; "-q"; "-m"; m] with
      | (w, None) => load_modules rest w
      | (w, Some _) =>
          let '(w, x) := exec w (Command ["kldload"; m]) in
          match ex_err x with
          | None => load_modules rest w
          | Some e => if Contains (ToLower (ex_combined x)) "already loaded" || streq m "fdescfs" || streq m "tmpfs" then load_modules rest w
                      else (w, Some (Wrapf "failed to load %s module: %w (output: %s)" [m; ex_combined x] e))
          end
      end end
  end.
Definition ensureLinuxCompatibility (w : W) : W * option error :=
  and_then (load_modules ["linux_common"; "linux64"; "linprocfs"; "linsysfs"; "fdescfs"; "tmpfs"] w) (fun w =>
  let w := (ensureSysrc w "linux_enable" "YES").1 in
  let w := (setSysctlIfNotSet w "compat.linux.osrelease" "4.4.0").1 in
  ((setSysctlIfNotSet w "kern.elf64.fallback_brand" "3").1, None)).

(** [Ok true]: it was extracted. *)
Definition tryExtractPrebuiltRootfs (p : JailProvider) (w : W) (jailPath : string) (r : OSRelease) : W * result bool :=
  let arch := if streq (OR_Arch r) "" then "amd64" else OR_Arch r in
  match SplitN2 (OR_Version r) "-" with
  | [distro; version] =>
      let filename := distro +:+ "-" +:+ version +:+ "-rootfs-" +:+ arch +:+ ".tar.xz" in
      match List.find (fun c => is_ok (Stat w c)) [path_Join (path_Join (image_dir p) "sets") filename; path_Join (image_dir p) filename] with
      | None => (w, Ok false)
      | Some candidate =>
          let '(w, e) := run_msg "failed to extract pre-built rootfs %s: %w (output: %s)" [candidate] w
                           ["tar"; "--no-xattrs"; "-xJf"; candidate; "-C"; jailPath] in
          (w, match e with Some e => Err e | None => Ok true end)
      end
  | _ => (w, Ok false)
  end.

Definition firstExistingFile (w : W) (paths : list string) : string := default "" (List.find (fileExists w) paths).
Definition debootstrapBase (w : W) (jailPath : string) (r : OSRelease) (codenames : list (string * string)) (defaultMirror : string)
    (keyrings : list string) : W * option error :=
  if negb (is_nil (LookPath w "debootstrap")) then (w, Some (Errorf "debootstrap not found (install: pkg install debootstrap)" []))
  else match ManifestTypes.assoc (OR_Version r) codenames with
  | None => (w, Some (Errorf "unknown version: %s" [OR_Version r]))
  | Some codename =>
      let mirror := if streq (OR_BaseURL r) "" then defaultMirror else OR_BaseURL r in
      match validateMirrorScheme mirror with
      | Some e => (w, Some e)
      | None =>
          let keyring := firstExistingFile w keyrings in
          if streq keyring "" then (w, Some (Errorf "no archive keyring found at %s; refusing to bootstrap without GPG verification" keyrings))
          else match debootstrapArch (OR_Arch r) with
               | Err e => (w, Some e)
               | Ok debArch =>
                   run_msg "debootstrap failed: %w (output: %s)" [] w
                     ["debootstrap"; "--arch=" +:+ debArch; "--keyring=" +:+ keyring; "--variant=minbase"; codename; jailPath; mirror]
               end
      end
  end.
Definition installDebianBase (w : W) (jailPath : string) (r : OSRelease) : W * option error :=
  debootstrapBase w jailPath r debian_codenames "https://deb.debian.org/debian" debianKeyrings.
Definition installUbuntuBase (w : W) (jailPath : string) (r : OSRelease) : W * option error :=
  debootstrapBase w jailPath r ubuntu_codenames "https://archive.ubuntu.com/ubuntu" ubuntuKeyrings.

Fixpoint make_dirs (dirs : list string) (w : W) : W * option error :=
  match dirs with
  | [] => (w, None)
  | d :: rest => match MkdirAll w d with (w, Some e) => (w, Some (Wrapf "failed to create %s: %w" [d] e)) | (w, None) => make_dirs rest w end
  end.
(** [dnfPath]: where dnf is found. *)
Definition installRHELBase (w : W) (dnfPath jailPath : string) (r : OSRelease) : W * option error :=
  if negb (is_nil (LookPath w "dnf")) then (w, Some (Errorf "dnf not found (install: pkg install dnf)" []))
  else
    let '(repoName, releasePkg, version) := rhel_release (OR_Version r) in
    and_then (make_dirs (map (path_Join jailPath) ["etc/yum.repos.d"; "var/lib/rpm"; "var/cache/dnf"]) w) (fun w =>
    if streq (OR_GPGKey r) ""
    then (w, Some (Errorf "no package-signing key is known for %s; refusing to install the base system without signature verification" [OR_Version r]))
    else
      and_then (wrapped "failed to create repo file: %w"
                  (WriteFile w (path_Join jailPath "etc/yum.repos.d/baseos.repo") (repo_file repoName (OR_BaseURL r) (OR_GPGKey r)))) (fun w =>
      and_then (run_msg "failed to initialize RPM database: %w (output: %s)" [] w ["rpm"; "--root"; jailPath; "--initdb"]) (fun w =>
      run_msg "dnf install failed: %w (output: %s)" [] w
        [dnfPath; "-y"; "--installroot=" +:+ jailPath; "--releasever=" +:+ version; "--setopt=install_weak_deps=False"; "--nodocs"; "install";
         releasePkg; "basesystem"; "filesystem"; "bash"; "coreutils"; "glibc-minimal-langpack"]))).

Definition verifyAlpineDigest (w : W) (tmpDir tarballPath downloadURL : string) : W * option error :=
  let sumPath := path_Join tmpDir "alpine-minirootfs.tar.gz.sha256" in
  and_then (run_msg "cannot fetch %s.sha256 to verify the minirootfs: %w (output: %s)" [downloadURL] w ["fetch"; "-o"; sumPath; downloadURL +:+ ".sha256"])
    (fun w => (w, match ReadFile w sumPath with
                  | Err e => Some (Wrapf "cannot read the fetched checksum: %w" [] e)
                  | Ok data => match Fields data with
                               | [] => Some (Errorf "%s.sha256 is empty" [downloadURL])
                               | digest :: _ => verifyArchiveDigest w tarballPath digest
                               end
                  end)).
Definition alpine_url (version arch minor : string) : string :=
  "https://dl-cdn.alpinelinux.org/alpine/v" +:+ version +:+ "/releases/" +:+ arch +:+ "/alpine-minirootfs-" +:+ version +:+ minor +:+ "-" +:+ arch +:+
  ".tar.gz".
(** The first of the URLs that can be fetched, or the last one tried. *)
Fixpoint fetch_first (tarball last : string) (urls : list string) (w : W) : W * (bool * string) :=
  match urls with
  | [] => (w, (false, last))
  | u :: rest => match run w ["fetch"; "-o"; tarball; u] with (w, None) => (w, (true, u)) | (w, Some _) => fetch_first tarball u rest w end
  end.
Definition installAlpineBase (w : W) (jailPath : string) (r : OSRelease) : W * option error :=
  let version := TrimPrefix (OR_Version r) "alpine-" in
  if streq version (OR_Version r) then (w, Some (Errorf "invalid Alpine version format: %s" [OR_Version r]))
  else
    let arch := if streq (OR_Arch r) "arm64" || streq (OR_Arch r) "aarch64" then "aarch64" else "x86_64" in
    match MkdirTemp w "hospitus-alpine-*" with
    | (w, Err e) => (w, Some (Wrapf "failed to create temp directory: %w" [] e))
    | (w, Ok tmpDir) =>
        let tarballPath := path_Join tmpDir "alpine-minirootfs.tar.gz" in
        let '(w, (found, url)) := fetch_first tarballPath "" (map (alpine_url version arch) [".1"; ".0"]) w in
        let '(w, err) :=
          if negb found then (w, Some (Errorf "failed to download Alpine minirootfs from %s" [url]))
          else
            and_then (verifyAlpineDigest w tmpDir tarballPath url) (fun w =>
            and_then (run_msg "failed to extract Alpine minirootfs: %w (output: %s)" [] w ["tar"; "-xzf"; tarballPath; "-C"; jailPath]) (fun w =>
            wrapped "failed to configure Alpine repositories: %w"
              (WriteFile w (path_Join jailPath "etc/apk/repositories")
                 (text_lines ["https://dl-cdn.alpinelinux.org/alpine/v" +:+ version +:+ "/main";
                              "https://dl-cdn.alpinelinux.org/alpine/v" +:+ version +:+ "/community"])))) in
        ((RemoveAll w tmpDir).1, err)
    end.

Definition installLinuxBase (p : JailProvider) (w : W) (dnfPath jailPath : string) (r : OSRelease) : W * option error :=
  match tryExtractPrebuiltRootfs p w jailPath r with
  | (w, Err e) => (w, Some e)
  | (w, Ok true) => (w, None)
  | (w, Ok false) =>
      let v := OR_Version r in
      if Contains v "debian" then installDebianBase w jailPath r
      else if Contains v "ubuntu" then installUbuntuBase w jailPath r
      else if Contains v "centos" || Contains v "rocky" || Contains v "alma" then installRHELBase w dnfPath jailPath r
      else if Contains v "alpine" then installAlpineBase w jailPath r
      else (w, Some (Errorf "unsupported Linux distribution: %s" [v]))
  end.

Definition copyResolvConf (w : W) (jailPath : string) : W * option error :=
  let dst := path_Join (path_Join jailPath "etc") "resolv.conf" in
  match ReadFile w "/etc/resolv.conf" with
  | Err e => (w, Some (Wrapf "failed to read host resolv.conf: %w" [] e))
  | Ok data =>
      and_then (if is_symlink w dst then wrapped "failed to remove resolv.conf symlink: %w" (RemoveFile w dst) else (w, None)) (fun w =>
      wrapped "failed to write jail resolv.conf: %w" (WriteFile w dst data))
  end.
Definition fixupDebianFamily (w : W) (jailPath : string) : W :=
  let aptDir := path_Join jailPath "etc/apt/apt.conf.d" in
  match MkdirAll w aptDir with
  | (w, Some _) => w
  | (w, None) => (WriteFile w (path_Join aptDir "00freebsd") (text_lines ["APT::Cache-Start 251658240;"])).1
  end.
Definition fixupLinuxJail (w : W) (jailPath : string) (r : OSRelease) : W :=
  let w := (copyResolvConf w jailPath).1 in
  if Contains (OR_Version r) "debian" || Contains (OR_Version r) "ubuntu" then fixupDebianFamily w jailPath else w.

Fixpoint linux_dirs (jailPath : string) (dirs : list string) (w : W) : W * option error :=
  match dirs with
  | [] => (w, None)
  | dir :: rest =>
      let dirPath := path_Join jailPath dir in
      match Lstat w dirPath with
      | Ok _ => linux_dirs jailPath rest w
      | Err e =>
          if negb (errors_Is e ErrNotExist) then (w, Some (Wrapf "failed to lstat %s: %w" [dir] e))
          else match MkdirAll w dirPath with
               | (w, Some e) => (w, Some (Wrapf "failed to create %s: %w" [dir] e))
               | (w, None) => linux_dirs jailPath rest w
               end
      end
  end.
Definition setupLinuxJail (p : JailProvider) (w : W) (dnfPath jailPath : string) (r : OSRelease) : W * option error :=
  and_then (wrapped "failed to enable Linux compatibility: %w" (ensureLinuxCompatibility w)) (fun w =>
  and_then (wrapped "failed to install Linux base system: %w" (installLinuxBase p w dnfPath jailPath r)) (fun w =>
  and_then (linux_dirs jailPath ["proc"; "sys"; "dev/shm"; "dev/fd"; "tmp"; "run"] w) (fun w =>
  (fixupLinuxJail w jailPath r, None)))).

Definition configureLinuxMounts (p : JailProvider) (w : W) (c : JailConfig) : W * result JailConfig :=
  let fstabPath := fstab_path p (JC_Name c) in
  match and_then (wrapped "failed to create fstab directory: %w" (MkdirAll w (path_Dir fstabPath))) (fun w =>
        wrapped "failed to create fstab: %w" (WriteFile w fstabPath (linux_fstab (JC_Path c)))) with
  | (w, Some e) => (w, Err e)
  | (w, None) => (w, Ok (with_params c (linux_parameters fstabPath (JC_JailParameters c))))
  end.
End images.
