(* ===== verification/JailOps.v ===== *)
(** * The life of a jail (pkg/provider/jail: create.go, start.go, stop.go, delete.go, lifecycle.go, reconfigure.go, state.go)

    Creating a jail and undoing a creation that fails; starting it, with its
    interfaces, addresses, mounts and limits, and taking all of it down again when
    a step fails; stopping, restarting, deleting, reconfiguring and describing it.
    The metadata of a handle is a map the operations write to, and is threaded
    through them.  The lock of an instance is that of [InstanceLocks]: an operation
    here is one that holds it.  [ctx_err] is the error of the request's context
    where an operation looks at it. *)

From stdpp Require Import base list gmap strings.
From Stdlib Require Import Ascii ZArith Lia.
From S2P Require Import Prelude GoStrings GoText GoPath Host Files Validation ProviderTypes InstanceStore Podman PodmanSnapshots JailParams JailNet JailConfig JailHooks JailRctl JailMounts JailImages.

Local Open Scope Z_scope.

(** ** Updates *)

Definition net_with (n : NetworkSpec) (bridge ipv4 mac : string) : NetworkSpec :=
  {| Net_ID := Net_ID n; Net_Type := Net_Type n; Net_Bridge := bridge; Net_BridgeFlags := Net_BridgeFlags n; Net_VLAN := Net_VLAN n; Net_MAC := mac;
     Net_IPv4 := ipv4; Net_IPv6 := Net_IPv6 n; Net_IPPool := Net_IPPool n; Net_MTU := Net_MTU n |}.
Definition set_ipv4 (ip : string) (n : NetworkSpec) : NetworkSpec := net_with n (Net_Bridge n) ip (Net_MAC n).
Definition set_bridge (bridge : string) (n : NetworkSpec) : NetworkSpec := net_with n bridge (Net_IPv4 n) (Net_MAC n).
Definition spec_with (s : InstanceSpec) (cpus memoryMB : Z) (nets : list NetworkSpec) (config : list (string * value)) : InstanceSpec :=
  {| Spec_Name := Spec_Name s; Spec_Description := Spec_Description s; Spec_CPUs := cpus; Spec_MemoryMB := memoryMB; Spec_MaxProc := Spec_MaxProc s;
     Spec_ReadBPS := Spec_ReadBPS s; Spec_WriteBPS := Spec_WriteBPS s; Spec_ReadIOPS := Spec_ReadIOPS s; Spec_WriteIOPS := Spec_WriteIOPS s;
     Spec_Image := Spec_Image s; Spec_OSType := Spec_OSType s; Spec_OSVersion := Spec_OSVersion s; Spec_Arch := Spec_Arch s;
     Spec_CloudInit := Spec_CloudInit s; Spec_Bootloader := Spec_Bootloader s; Spec_Disks := Spec_Disks s; Spec_Networks := nets;
     Spec_ProviderConfig := config; Spec_Labels := Spec_Labels s; Spec_Annotations := Spec_Annotations s |}.
Definition spec_networks (s : InstanceSpec) (nets : list NetworkSpec) : InstanceSpec :=
  spec_with s (Spec_CPUs s) (Spec_MemoryMB s) nets (Spec_ProviderConfig s).
(** The address of a network, in the configuration and in the specification it
    reports. *)
Definition config_address (c : JailConfig) (i : nat) (ip : string) : JailConfig :=
  with_networks c (spec_networks (JC_Spec c) (alter (set_ipv4 ip) i (Spec_Networks (JC_Spec c)))) (alter (set_ipv4 ip) i (JC_Networks c)).
Definition config_bridge (c : JailConfig) (i : nat) (bridge : string) : JailConfig :=
  with_networks c (JC_Spec c) (alter (set_bridge bridge) i (JC_Networks c)).

(** The specification reports the address the first network was given. *)
Definition sync_spec (c : JailConfig) : JailConfig * bool :=
  match JC_Networks c, Spec_Networks (JC_Spec c) with
  | n :: _, s :: rest =>
      if streq (Net_IPv4 n) (Net_IPv4 s) then (c, false)
      else (with_networks c (spec_networks (JC_Spec c) (set_ipv4 (Net_IPv4 n) s :: rest)) (JC_Networks c), true)
  | _, _ => (c, false)
  end.

Definition hook_env (p : JailProvider) (name path hookType : string) (nets : list NetworkSpec) : HookEnv :=
  let '(ip, bridge) := match nets with n :: _ => (Net_IPv4 n, Net_Bridge n) | [] => ("", "") end in
  {| HE_JailName := name; HE_JailPath := path; HE_JailIP := ip; HE_JailBridge := bridge; HE_HookType := hookType; HE_ZFSDataset := jail_dataset p name |}.
Definition bare_env (name hookType dataset : string) : HookEnv :=
  {| HE_JailName := name; HE_JailPath := ""; HE_JailIP := ""; HE_JailBridge := ""; HE_HookType := hookType; HE_ZFSDataset := dataset |}.

Definition metadata := list (string * value).

(** ** The state of a start *)

Record start_state := {
  st_config : JailConfig;
  st_meta : metadata;
  st_vnets : list (nat * VNetInterface * string);   (* the network's index, its interface, its address *)
  st_rollback : list string;                        (* host sides to destroy *)
  st_save : bool;
  st_firewall : bool;
  st_mounts : bool;
  st_created : bool
}.
Definition st_with_config (st : start_state) (c : JailConfig) : start_state :=
  {| st_config := c; st_meta := st_meta st; st_vnets := st_vnets st; st_rollback := st_rollback st; st_save := st_save st;
     st_firewall := st_firewall st; st_mounts := st_mounts st; st_created := st_created st |}.
Definition st_add_vnet (st : start_state) (i : nat) (v : VNetInterface) (ip : string) : start_state :=
  let c := st_config st in
  {| st_config := with_epairs c (if (i =? 0)%nat then EpairA v else JC_VnetEpair c) (JC_VnetEpairs c ++ [EpairA v]);
     st_meta := if (i =? 0)%nat then set_key "vnet_epair" (VString (EpairA v)) (st_meta st) else st_meta st;
     st_vnets := st_vnets st ++ [(i, v, ip)]; st_rollback := st_rollback st ++ [EpairA v]; st_save := true;
     st_firewall := true; st_mounts := st_mounts st; st_created := st_created st |}.
Definition st_mounting (st : start_state) : start_state :=
  {| st_config := st_config st; st_meta := st_meta st; st_vnets := st_vnets st; st_rollback := st_rollback st; st_save := st_save st;
     st_firewall := st_firewall st; st_mounts := true; st_created := st_created st |}.
Definition st_running (st : start_state) : start_state :=
  {| st_config := st_config st; st_meta := st_meta st; st_vnets := st_vnets st; st_rollback := st_rollback st; st_save := st_save st;
     st_firewall := st_firewall st; st_mounts := st_mounts st; st_created := true |}.

(** What a jail is started with depends on its runtime: the parameters, and the
    command to run once the network is up. *)
Definition runtime_parameters (runtime : string) (vnet : bool) (p : JailParameters) : JailParameters * string :=
  if streq runtime "linux" then (set_bool "persist" true (set_text "exec.stop" "" (set_text "exec.start" "/bin/true" p)), "")
  else if streq runtime "crossarch" then (set_bool "persist" true p, "")
  else if vnet then
    (set_bool "persist" true (set_text "exec.start" "/usr/bin/true" p),
     if streq (jtext p "exec.start") "" then "/bin/sh /etc/rc" else jtext p "exec.start")
  else (p, "").

Section args.
(** [fmt.Sprintf("%v", v)]. *)
Context (sprint : value -> string).

(** The free-form parameters, after the structured ones. *)
Fixpoint legacy_args (params : list (string * value)) : result (list string) :=
  match params with
  | [] => Ok []
  | (key, v) :: rest =>
      if mem key ["vnet"; "autostart"; "autostart_priority"; "autostart_delay"] then legacy_args rest
      else match ValidateJailParameter key with
      | Some e => Err (Wrapf "invalid jail parameter: %w" [] e)
      | None =>
          match ValidateJailParameterValue (toString sprint v) with
          | Some e => Err (Wrapf "invalid jail parameter value for %s: %w" [key] e)
          | None => match legacy_args rest with Err e => Err e | Ok l => Ok ((key +:+ "=" +:+ toString sprint v) :: l) end
          end
      end
  end.
Definition start_args (name path : string) (networks : list NetworkSpec) (interfaces : list string) (params : JailParameters)
    (legacy : list (string * value)) : result (list string) :=
  match ValidateJailParameters params with
  | Some e => Err (Wrapf "invalid jail parameters: %w" [] e)
  | None =>
      match ToJailArgs params with
      | Err e => Err (Wrapf "invalid jail parameters: %w" [] e)
      | Ok structured =>
          match legacy_args legacy with
          | Err e => Err e
          | Ok free =>
              Ok (["-c"; "name=" +:+ name; "path=" +:+ path; "host.hostname=" +:+ name] ++ (if bool_decide (networks = []) then [] else ["vnet"]) ++
                  map (fun i => "vnet.interface=" +:+ i) interfaces ++ structured ++ free)
          end
      end
  end.
End args.

(** The epairs a jail has, as its handle and its configuration name them. *)
Definition recorded_epairs (meta : metadata) (c : option JailConfig) : list string :=
  List.filter (fun e => negb (streq e ""))
    ((match text_at "vnet_epair" meta with Some e => [e] | None => [] end) ++
     (match c with Some c => JC_VnetEpair c :: JC_VnetEpairs c | None => [] end)).

Section ops.
Context {W : Type} `{Host W} `{FileOps W} `{LinkHost W} `{TempDirs W} `{JailFirewall W} `{Json JailConfig}.
Context (GOARCH image_env dnfPath : string) (sha256hex : string -> string) (sprint : value -> string) (cwd : path) (ctx_err : W -> option error).

(** The configurations that can be read, with the networks they hold. *)
Definition holders (p : JailProvider) (w : W) : list holder :=
  match ReadDir w (JP_stateDir p) with
  | Err _ => []
  | Ok entries =>
      omap (fun e => if HasSuffix (de_name e) ".json"
                     then match loadJailConfig GOARCH w (path_Join (JP_stateDir p) (de_name e)) with
                          | Ok c => Some (JC_Name c, JC_Networks c)
                          | Err _ => None
                          end
                     else None) entries
  end.
Definition pools (p : JailProvider) (w : W) : list string := getIPPools w (JP_poolEnv p) (JP_poolSetting p).
Definition default_bridge (p : JailProvider) : string := Cf_BridgePrefix (JP_hospitusConfig p) +:+ "0".

(** ** Starting *)

(** An address is allocated where one is asked for, and recorded at once. *)
Definition lease (p : JailProvider) (name : string) (w : W) (c : JailConfig) (i : nat) (n : NetworkSpec) : W * result (JailConfig * string) :=
  if negb (streq (Net_IPv4 n) "dhcp") then (w, Ok (c, Net_IPv4 n))
  else match allocateDHCPAddress (pools p w) (holders p w) (Net_IPPool n) with
  | Err e => (w, Err (Wrapf "failed to allocate DHCP address for network %d: %w" [] e))
  | Ok ip =>
      let c := config_address c i ip in
      match saveJailConfig w c (config_path p name) with
      | (w, Some e) => (w, Err (Wrapf "failed to persist DHCP allocation for network %d: %w" [] e))
      | (w, None) => (w, Ok (c, ip))
      end
  end.

Definition start_network (p : JailProvider) (name : string) (route : option nat) (i : nat) (w : W) (st : start_state) : W * start_state * option error :=
  match JC_Networks (st_config st) !! i with
  | None => (w, st, None)
  | Some n =>
      if streq (Net_IPv4 n) "" then (w, st, None)
      else match lease p name w (st_config st) i n with
      | (w, Err e) => (w, st, Some e)
      | (w, Ok (c, ip)) =>
      match refuseAddressInUse (pools p w) (holders p w) name ip with
      | Some e => (w, st_with_config st c, Some (Wrapf "network %d: %w" [] e))
      | None =>
          let bridge := if streq (Net_Bridge n) "" then default_bridge p else Net_Bridge n in
          let st := st_with_config st (config_bridge c i bridge) in
          match EnsureBridge (JP_hospitusConfig p) w bridge (bridgePoolFor (pools p w) bridge (Net_IPPool n) (default_bridge p)) with
          | (w, Some e) => (w, st, Some (Wrapf "failed to ensure bridge %s: %w" [bridge] e))
          | (w, None) =>
              match CreateVNetInterface w (net_with n bridge ip (Net_MAC n)) with
              | (w, Err e) => (w, st, Some (Wrapf "failed to create VNET interface for network %d: %w" [] e))
              | (w, Ok v) =>
                  let st := st_add_vnet st i v ip in
                  (SetupNetworking (JP_hospitusConfig p) w name (JC_Path (st_config st)) ip (bool_decide (route = Some i)), st, None)
              end
          end
      end end
  end.
Fixpoint start_networks (p : JailProvider) (name : string) (route : option nat) (idx : list nat) (w : W) (st : start_state) : W * start_state * option error :=
  match idx with
  | [] => (w, st, None)
  | i :: rest =>
      match start_network p name route i w st with
      | (w, st, Some e) => (w, st, Some e)
      | (w, st, None) => start_networks p name route rest w st
      end
  end.

(** A link in the place of a mount point is replaced by a directory. *)
Definition mount_dir (root : string) (w : W) (d : string) : W :=
  let target := path_Join root d in
  let '(w, e) := if is_symlink w target then RemoveFile w target else (w, None) in
  match e with Some _ => w | None => (MkdirAll w target).1 end.
Definition mount_dirs (w : W) (c : JailConfig) : W :=
  let p := JC_JailParameters c in
  if streq (JC_RuntimeType c) "linux" || jbool p "mount.linprocfs" || jbool p "mount.linsysfs" || jbool p "mount.fdescfs"
  then foldl (mount_dir (JC_Path c)) w ["proc"; "sys"; "dev/shm"; "dev/fd"] else w.

Definition renameJailInterface (w : W) (jailName epairB name : string) : W :=
  match run w ["ifconfig"; "-j"; jailName; epairB; "name"; name] with
  | (w, None) => w
  | (w, Some _) => (run w ["jexec"; jailName; "ifconfig"; epairB; "name"; name]).1
  end.

(** The interfaces of a jail that runs, in the order they were made. *)
Fixpoint configure_interfaces (p : JailProvider) (name : string) (c : JailConfig) (route : option nat) (first : bool)
    (vnets : list (nat * VNetInterface * string)) (w : W) : W * option error :=
  match vnets with
  | [] => (w, None)
  | (i, v, ip) :: rest =>
      match ConfigureVNetJailNetwork (JP_hospitusConfig p) w name (VN_Bridge v) (EpairB v) ip (JC_RuntimeType c) (bool_decide (route = Some i)) with
      | (w, Some e) => (w, Some (Wrapf "failed to configure VNET network in jail %s (ip %s): %w" [name; ip] e))
      | (w, None) =>
          let w := match JC_Networks c !! i with
                   | Some n => if streq (Net_ID n) "" || streq (Net_ID n) (EpairB v) then w else renameJailInterface w name (EpairB v) (Net_ID n)
                   | None => w
                   end in
          let w := if first : bool
                   then (ConfigureDNS w (JC_Path c) (if streq (Cf_DefaultGateway (JP_hospitusConfig p)) "none" then "" else getGatewayForIP ip)).1
                   else w in
          configure_interfaces p name c route false rest w
      end
  end.
Definition start_services (w : W) (name command : string) : W :=
  if streq command "" || streq command "/usr/bin/true" || negb (is_nil (ValidateExecCommand command)) then w
  else (run w (["jexec"; name] ++ Fields command)).1.

(** After jail(8): the network inside, the services, the limits, the hooks. *)
Definition after_start (p : JailProvider) (name : string) (route : option nat) (deferred : string) (w : W) (st : start_state) : W * option error :=
  let c := st_config st in
  and_then (if bool_decide (st_vnets st = []) then (w, None)
            else match ctx_err w with
                 | Some e => (w, Some e)
                 | None => and_then (configure_interfaces p name c route true (st_vnets st) w) (fun w => (start_services w name deferred, None))
                 end) (fun w =>
  let w := if 0 <? Rs_DiskGB (JC_Resources c) then (applyZFSQuotas p w (jail_dataset p name) (Rs_DiskGB (JC_Resources c))).1 else w in
  let w := if (0 <? Rs_CPUs (JC_Resources c)) || (0 <? Rs_MemoryMB (JC_Resources c)) then (applyRCTLLimits w name (JC_Resources c)).1 else w in
  let '(w, _, _) := ExecuteHooks GOARCH cwd p w HookPostStart (hook_env p name (JC_Path c) HookPostStart (JC_Networks c)) in
  (w, None)).

(** Whatever was set up comes down again. *)
Definition rollback_start (p : JailProvider) (name : string) (st : start_state) (w : W) : W :=
  let w := if st_created st then (run w ["jail"; "-r"; name]).1 else w in
  let w := if st_mounts st then umountJail GOARCH p w name else w in
  let w := if st_firewall st then (CleanupFirewallRules (JP_hospitusConfig p) w name).1 else w in
  foldl (fun w e => if streq e "" then w else (DestroyVNetInterface w e).1) w (st_rollback st).

Definition launch (p : JailProvider) (name : string) (route : option nat) (w : W) (st : start_state) : W * start_state * option error :=
  let w := if st_save st then (saveJailConfig w (st_config st) (config_path p name)).1 else w in
  let c := st_config st in
  match ApplyJailParameterMap sprint (JC_JailParameters c) (st_meta st) with
  | Err e => (w, st, Some (Wrapf "invalid jail parameter override: %w" [] e))
  | Ok merged =>
      let '(params, deferred) := runtime_parameters (JC_RuntimeType c) (negb (bool_decide (st_vnets st = []))) merged in
      let c := with_params c params in
      let st := st_with_config st c in
      match start_args sprint name (JC_Path c) (JC_Networks c) (map (fun v => EpairB v.1.2) (st_vnets st)) params (JC_Parameters c) with
      | Err e => (w, st, Some e)
      | Ok args =>
          let st := st_mounting st in
          match applyMounts cwd p w c with
          | (w, Some e) => (w, st, Some (Wrapf "failed to apply volume mounts for jail %s: %w" [name] e))
          | (w, None) =>
              let w := mount_dirs w c in
              let '(w, x) := exec w (Command ("jail" :: args)) in
              match ex_err x with
              | Some e => (w, st, Some (NewProviderError "jail" "start" name (Wrapf "jail command failed: %s: %w" [ex_combined x] e)))
              | None => let st := st_running st in let '(w, e) := after_start p name route deferred w st in (w, st, e)
              end
          end
      end
  end.

Definition within_root (p : JailProvider) (w : W) (name path : string) : option error :=
  if streq (JP_dataDir p) "" then None
  else match path_within cwd w path (JP_dataDir p) with
       | Err e => Some (Wrapf "cannot resolve the jail path %q: %w" [path] e)
       | Ok false => Some (Errorf "jail %s has path %q, outside the managed jail root %s" [name; path; JP_dataDir p])
       | Ok true => None
       end.

Definition set_up (p : JailProvider) (name : string) (c : JailConfig) (save : bool) (meta : metadata) (w : W) : W * metadata * option error :=
  let route := defaultRouteNetwork (JC_Networks c) (default_bridge p) in
  let c := if bool_decide (JC_Networks c = []) then c
           else with_params c (set_text "ip4" "" (set_text "ip6" "" (JC_JailParameters c))) in
  let st := {| st_config := c; st_meta := meta; st_vnets := []; st_rollback := []; st_save := save; st_firewall := false; st_mounts := false;
               st_created := false |} in
  let '(w, st, e) := match start_networks p name route (seq 0 (length (JC_Networks c))) w st with
                     | (w, st, Some e) => (w, st, Some e)
                     | (w, st, None) => launch p name route w st
                     end in
  match e with
  | Some e => (rollback_start p name st w, st_meta st, Some e)
  | None => (w, st_meta st, None)
  end.

Definition start_jail (p : JailProvider) (w : W) (handle : InstanceHandle) : W * metadata * option error :=
  let name := Handle_ID handle in
  let meta := Handle_Metadata handle in
  match ValidateInstanceName name with
  | Some e => (w, meta, Some (Wrapf "invalid instance id %q: %w" [name] e))
  | None =>
  match isJailRunning w name with
  | (w, Err e) => (w, meta, Some e)
  | (w, Ok true) => (w, meta, Some (Errorf "jail %s is already running" [name]))
  | (w, Ok false) =>
  match loadJailConfig GOARCH w (config_path p name) with
  | Err e => (w, meta, Some (Wrapf "failed to load jail configuration: %w" [] e))
  | Ok c =>
  match ExecuteHooks GOARCH cwd p w HookPreStart (hook_env p name (JC_Path c) HookPreStart (JC_Networks c)) with
  | (w, _, Some e) => (w, meta, Some (Wrapf "pre-start hook failed: %w" [] e))
  | (w, _, None) =>
      let '(c, save) := sync_spec c in
      match ensureJailDirectories w (JC_Path c) with
      | (w, Some e) => (w, meta, Some (Wrapf "failed to create jail directories: %w" [] e))
      | (w, None) =>
          match within_root p w name (JC_Path c) with
          | Some e => (w, meta, Some e)
          | None => set_up p name c save meta w
          end
      end
  end end end end.
Definition named (op id : string) (r : W * metadata * option error) : W * metadata * option error :=
  let '(w, m, e) := r in (w, m, WrapError "jail" op id e).
Definition StartInstance (p : JailProvider) (w : W) (handle : InstanceHandle) : W * metadata * option error :=
  named "start" (Handle_ID handle) (start_jail p w handle).

(** ** Stopping *)

(** The epairs that could not be destroyed. *)
Fixpoint destroy_epairs (epairs : list string) (w : W) : W * list string :=
  match epairs with
  | [] => (w, [])
  | e :: rest =>
      let '(w, err) := DestroyVNetInterface w e in
      let '(w, kept) := destroy_epairs rest w in
      (w, if is_nil err then kept else e :: kept)
  end.
Definition stop_jail (p : JailProvider) (w : W) (handle : InstanceHandle) (opts : StopOptions) : W * metadata * option error :=
  let name := Handle_ID handle in
  let meta := Handle_Metadata handle in
  match ValidateInstanceName name with
  | Some e => (w, meta, Some (Wrapf "invalid instance id %q: %w" [name] e))
  | None =>
  match isJailRunning w name with
  | (w, Err e) => (w, meta, Some e)
  | (w, Ok false) => (w, meta, None)
  | (w, Ok true) =>
  match ExecuteHooks GOARCH cwd p w HookPreStop (GetHookEnvForJail GOARCH p w name HookPreStop) with
  | (w, _, Some e) => (w, meta, Some (Wrapf "pre-stop hook failed: %w" [] e))
  | (w, _, None) =>
      let '(w, x) := exec w (Command ["jail"; if Stop_Force opts then "-R" else "-r"; name]) in
      match ex_err x with
      | Some e => (w, meta, Some (NewProviderError "jail" "stop" name (Wrapf "jail command failed: %s: %w" [ex_combined x] e)))
      | None =>
          let w := umountJail GOARCH p w name in
          let c := match loadJailConfig GOARCH w (config_path p name) with Ok c => Some c | Err _ => None end in
          let '(w, remaining) := destroy_epairs (recorded_epairs meta c) w in
          let meta := match text_at "vnet_epair" meta with Some e => if streq e "" then meta else without_key "vnet_epair" meta | None => meta end in
          let w := match c with Some c => (saveJailConfig w (with_epairs c "" remaining) (config_path p name)).1 | None => w end in
          let '(w, _, _) := ExecuteHooks GOARCH cwd p w HookPostStop (GetHookEnvForJail GOARCH p w name HookPostStop) in
          (w, meta, None)
      end
  end end end.
Definition StopInstance (p : JailProvider) (w : W) (handle : InstanceHandle) (opts : StopOptions) : W * metadata * option error :=
  named "stop" (Handle_ID handle) (stop_jail p w handle opts).

Definition RestartInstance (p : JailProvider) (w : W) (handle : InstanceHandle) : W * metadata * option error :=
  named "restart" (Handle_ID handle)
    (match ValidateInstanceName (Handle_ID handle) with
     | Some e => (w, Handle_Metadata handle, Some (Wrapf "invalid instance id %q: %w" [Handle_ID handle] e))
     | None =>
     match StopInstance p w handle {| Stop_Force := false; Stop_Timeout := 0 |} with
     | (w, m, Some e) => (w, m, Some e)
     | (w, m, None) =>
         match ctx_err w with
         | Some e => (w, m, Some e)
         | None => StartInstance p w {| Handle_ID := Handle_ID handle; Handle_Provider := Handle_Provider handle; Handle_Metadata := m |}
         end
     end end).

(** ** Deleting *)

Definition delete_jail (p : JailProvider) (w : W) (handle : InstanceHandle) (force : bool) : W * metadata * option error :=
  let name := Handle_ID handle in
  let file := config_path p name in
  match ValidateInstanceName name with
  | Some e => (w, Handle_Metadata handle, Some (Wrapf "invalid instance id %q: %w" [name] e))
  | None =>
  match ExecuteHooks GOARCH cwd p w HookPreDestroy (GetHookEnvForJail GOARCH p w name HookPreDestroy) with
  | (w, _, Some e) => (w, Handle_Metadata handle, Some (Wrapf "pre-destroy hook failed: %w" [] e))
  | (w, _, None) =>
      let w := (CleanupFirewallRules (JP_hospitusConfig p) w name).1 in
      match isJailRunning w name with
      | (w, Err e) => (w, Handle_Metadata handle, Some e)
      | (w, Ok running) =>
          match (if running then StopInstance p w handle {| Stop_Force := force; Stop_Timeout := 0 |} else (w, Handle_Metadata handle, None)) with
          | (w, meta, Some e) => (w, meta, Some e)
          | (w, meta, None) =>
              let w := umountJail GOARCH p w name in
              let c := match loadJailConfig GOARCH w file with Ok c => Some c | Err _ => None end in
              let w := (destroy_epairs (recorded_epairs meta c) w).1 in
              match datasetFor p {| Handle_ID := name; Handle_Provider := Handle_Provider handle; Handle_Metadata := meta |} with
              | Err e => (w, meta, Some e)
              | Ok dataset =>
                  match wrapped "failed to destroy ZFS dataset: %w" (destroyZFSDataset p w dataset force) with
                  | (w, Some e) => (w, meta, Some e)
                  | (w, None) =>
                      match RemoveFile w file with
                      | (w, Some e) => if errors_Is e ErrNotExist then (w, meta, None) else (w, meta, Some (Wrapf "failed to remove configuration file: %w" [] e))
                      | (w, None) => (w, meta, None)
                      end
                  end
              end
          end
      end
  end end.
(** What is left of the jail, once its configuration is gone. *)
Definition forget_jail (p : JailProvider) (w : W) (name : string) : W :=
  let w := (RemoveAll w (getJailHooksDir p name)).1 in
  let w := (RemoveFile w (fstab_path p name)).1 in
  let '(w, _, _) := ExecuteHooks GOARCH cwd p w HookPostDestroy (bare_env name HookPostDestroy (jail_dataset p name)) in w.
Definition jail_DeleteInstance (p : JailProvider) (w : W) (handle : InstanceHandle) (force : bool) : W * metadata * option error :=
  named "delete" (Handle_ID handle)
    (match delete_jail p w handle force with
     | (w, meta, Some e) => (w, meta, Some e)
     | (w, meta, None) => (forget_jail p w (Handle_ID handle), meta, None)
     end).

(** ** Creating *)

(** The root of the jail, filled from an image or by a distribution's tools. *)
Definition populate (p : JailProvider) (w : W) (spec : InstanceSpec) (mountpoint : string) : W * option error :=
  if streq (Spec_OSType spec) "linux" then
    let r := GetOSRelease GOARCH (Spec_OSType spec) (Spec_OSVersion spec) (Spec_Arch spec) in
    and_then (wrapped "failed to setup Linux jail: %w" (setupLinuxJail image_env sha256hex p w dnfPath mountpoint r)) (fun w =>
    wrapped "failed to setup cross-architecture emulation: %w" (setupCrossArchEmulation GOARCH w mountpoint (OR_Arch r)))
  else if streq (Spec_Image spec) "" then
    (w, Some (Errorf "no base system image specified. Please specify an image" []))
  else
    and_then (wrapped "failed to extract base system: %w" (extractBaseSystem GOARCH image_env p w (Spec_Image spec) mountpoint (Spec_Arch spec))) (fun w =>
    let targetArch := if streq (Spec_Arch spec) "" || streq (Spec_Arch spec) "native" then detectImageArch (Spec_Image spec) else Spec_Arch spec in
    if streq targetArch "" then (w, None)
    else wrapped "failed to setup cross-architecture emulation: %w" (setupCrossArchEmulation GOARCH w mountpoint targetArch)).
(** The configuration written for it. *)
Definition configure (p : JailProvider) (w : W) (spec : InstanceSpec) (mountpoint : string) : W * result JailConfig :=
  let c := buildJailConfig GOARCH sprint spec mountpoint in
  let '(w, r) := if streq (Spec_OSType spec) "linux" then configureLinuxMounts p w c else (w, Ok c) in
  match r with
  | Err e => (w, Err (Wrapf "failed to configure Linux mounts: %w" [] e))
  | Ok c => match wrapped "failed to save jail configuration: %w" (saveJailConfig w c (config_path p (Spec_Name spec))) with
            | (w, Some e) => (w, Err e)
            | (w, None) => (w, Ok c)
            end
  end.
Definition refuse_addresses (p : JailProvider) (w : W) (name : string) (nets : list NetworkSpec) : option error :=
  first_error (map (fun n => wrap "network %d: %w" [] (refuseAddressInUse (pools p w) (holders p w) name (Net_IPv4 n))) nets).

Definition created_handle (p : JailProvider) (spec : InstanceSpec) (mountpoint : string) : InstanceHandle :=
  let release := (freebsdUserlandVersion (Spec_Image spec) (Spec_OSVersion spec)).1 in
  {| Handle_ID := Spec_Name spec; Handle_Provider := "jail";
     Handle_Metadata := [("zfs_dataset", VString (jail_dataset p (Spec_Name spec))); ("mountpoint", VString mountpoint)] ++
                        (if streq release "" then [] else [("os_release", VString release)]) |}.
(** The resolver and the hooks of a jail that has been created. *)
Definition announce (p : JailProvider) (w : W) (spec : InstanceSpec) (c : JailConfig) (mountpoint : string) : W :=
  let name := Spec_Name spec in
  let w := match JC_Networks c with
           | n :: _ => if streq (Net_IPv4 n) "" then w
                       else (ConfigureDNS w mountpoint
                               (if streq (Cf_DefaultGateway (JP_hospitusConfig p)) "none" then "" else getGatewayForIP (Net_IPv4 n))).1
           | [] => w
           end in
  let '(w, _, _) := ExecuteHooks GOARCH cwd p w HookPostCreate (hook_env p name mountpoint HookPostCreate (Spec_Networks spec)) in w.

Definition create_jail (p : JailProvider) (w : W) (spec : InstanceSpec) : W * result InstanceHandle :=
  let name := Spec_Name spec in
  let dataset := jail_dataset p name in
  match first_error [
    wrap "invalid jail name: %w" [] (ValidateInstanceName name);
    wrap "invalid resource limits: %w" [] (ValidateResourceLimits (Spec_CPUs spec) (Spec_MemoryMB spec))] with
  | Some e => (w, Err e)
  | None =>
  match jailExists p w name with
  | (w, Err e) => (w, Err e)
  | (w, Ok true) => (w, Err ErrInstanceExists)
  | (w, Ok false) =>
  match refuse_addresses p w name (Spec_Networks spec) with
  | Some e => (w, Err e)
  | None =>
  match ExecuteHooks GOARCH cwd p w HookPreCreate (bare_env name HookPreCreate "") with
  | (w, _, Some e) => (w, Err (Wrapf "pre-create hook failed: %w" [] e))
  | (w, _, None) =>
      let '(w, x) := exec w (Command ["zfs"; "list"; "-H"; "-o"; "name"; dataset]) in
      if is_nil (ex_err x) && streq (TrimSpace (ex_stdout x)) dataset
      then (w, Err (Errorf "ZFS dataset %s already exists: destroy it or import the jail instead" [dataset]))
      else match wrapped "failed to create ZFS dataset: %w" (createZFSDataset p w dataset) with
      | (w, Some e) => (w, Err e)
      | (w, None) =>
      match getZFSMountpoint w dataset with
      | (w, Err e) => (w, Err (Wrapf "failed to get ZFS mountpoint: %w" [] e))
      | (w, Ok mountpoint) =>
      match populate p w spec mountpoint with
      | (w, Some e) =>
          let w := destroyZFSDatasetCleanup p w dataset in
          (if negb (streq (Spec_OSType spec) "linux") && streq (Spec_Image spec) "" then (getDefaultFreeBSDImage w).1 else w, Err e)
      | (w, None) =>
      match configure p w spec mountpoint with
      | (w, Err e) => (destroyZFSDatasetCleanup p w dataset, Err e)
      | (w, Ok c) => (announce p w spec c mountpoint, Ok (created_handle p spec mountpoint))
      end end end end
  end end end end.
Definition jail_CreateInstance (p : JailProvider) (w : W) (spec : InstanceSpec) : W * result InstanceHandle :=
  let '(w, r) := create_jail p w spec in
  (w, match r with Ok h => Ok h | Err e => match WrapError "jail" "create" (Spec_Name spec) (Some e) with Some e => Err e | None => Err e end end).

(** ** Changing and describing *)

Definition reconfigured (c : JailConfig) (spec : InstanceSpec) : result JailConfig :=
  let s := JC_Spec c in
  let r := JC_Resources c in
  let pick n old := if 0 <? n then n else old in
  let limits := {| Rs_CPUs := pick (Spec_CPUs spec) (Rs_CPUs r); Rs_MemoryMB := pick (Spec_MemoryMB spec) (Rs_MemoryMB r); Rs_DiskGB := Rs_DiskGB r;
                   Rs_MaxProc := Rs_MaxProc r; Rs_ReadBPS := Rs_ReadBPS r; Rs_WriteBPS := Rs_WriteBPS r; Rs_ReadIOPS := Rs_ReadIOPS r;
                   Rs_WriteIOPS := Rs_WriteIOPS r |} in
  let given := jailParametersFrom (Spec_ProviderConfig spec) in
  let put old := foldl (fun m e => set_key e.1 e.2 m) old given in
  match (if bool_decide (Spec_ProviderConfig spec = []) then Ok (JC_JailParameters c)
         else ApplyJailParameterMap sprint (JC_JailParameters c) (Spec_ProviderConfig spec)) with
  | Err e => Err (Wrapf "invalid jail parameter: %w" [] e)
  | Ok params =>
      Ok {| JC_Name := JC_Name c; JC_Path := JC_Path c;
            JC_Spec := spec_with s (pick (Spec_CPUs spec) (Spec_CPUs s)) (pick (Spec_MemoryMB spec) (Spec_MemoryMB s)) (Spec_Networks s)
                         (put (Spec_ProviderConfig s));
            JC_Networks := JC_Networks c; JC_Parameters := put (JC_Parameters c); JC_JailParameters := params; JC_Resources := limits;
            JC_AutoStart := JC_AutoStart c; JC_RuntimeType := JC_RuntimeType c; JC_VnetEpair := JC_VnetEpair c; JC_VnetEpairs := JC_VnetEpairs c;
            JC_Hooks := JC_Hooks c |}
  end.
Definition Reconfigure (p : JailProvider) (w : W) (id : string) (spec : InstanceSpec) : W * option error :=
  match ValidateInstanceName id with
  | Some e => (w, Some (Wrapf "invalid jail name %q: %w" [id] e))
  | None =>
      match loadJailConfig GOARCH w (config_path p id) with
      | Err e => (w, Some (Wrapf "failed to load jail configuration: %w" [] e))
      | Ok c =>
          match reconfigured c spec with
          | Err e => (w, Some e)
          | Ok c => wrapped "failed to write jail configuration: %w" (saveJailConfig w c (config_path p id))
          end
      end
  end.

(** The process id and the addresses of a running jail apart. *)
Definition GetInstanceInfo (p : JailProvider) (w : W) (id : string) : W * result (string * InstanceSpec) :=
  match ValidateInstanceName id with
  | Some e => (w, Err (Wrapf "invalid instance id %q: %w" [id] e))
  | None =>
      match loadJailConfig GOARCH w (config_path p id) with
      | Err _ => (w, Err ErrInstanceNotFound)
      | Ok c =>
          match GetInstanceState p w id with
          | (w, (_, Some e)) => (w, Err e)
          | (w, (state, None)) =>
              (if streq state StateRunning then (getJailIPs (getJailID w id).1 id).1 else w, Ok (state, JC_Spec c))
          end
      end
  end.
End ops.
