(* ===== verification/JailFeatures.v ===== *)
(** * What is done with jails that exist (pkg/provider/jail: snapshot.go, clone.go, autostart.go, vnet.go, multinic.go, services.go, packages.go, jail_admin.go, traffic.go, jail.go)

    Their snapshots, copies of them, the order they are started in with the host,
    interfaces given to and taken from one that runs, the services and packages
    inside, a new name and a new release. *)

From stdpp Require Import base list gmap strings sorting.
From Stdlib Require Import Ascii ZArith Lia.
From S2P Require Import Prelude GoStrings GoText GoPath GoNet GoHttp Regexp Host Files Validation ZfsNames ProviderTypes InstanceStore Podman PodmanOps PodmanSnapshots JailParams JailNet JailConfig JailHooks JailMounts JailImages JailOps.

Local Open Scope Z_scope.

Record CloneOptions := {
  jc_LinkedClone : bool; jc_CPUs : Z; jc_MemoryMB : Z; jc_ResetMAC : bool; jc_Labels : list (string * string); jc_Annotations : list (string * string)
}.

Definition put_all (given old : list (string * string)) : list (string * string) :=
  foldl (fun m e => e :: List.filter (fun o => negb (streq o.1 e.1)) m) old given.
Definition clone_spec (source : InstanceSpec) (name : string) (o : CloneOptions) : InstanceSpec :=
  {| Spec_Name := name; Spec_Description := Spec_Description source;
     Spec_CPUs := if 0 <? jc_CPUs o then jc_CPUs o else Spec_CPUs source;
     Spec_MemoryMB := if 0 <? jc_MemoryMB o then jc_MemoryMB o else Spec_MemoryMB source; Spec_MaxProc := Spec_MaxProc source;
     Spec_ReadBPS := Spec_ReadBPS source; Spec_WriteBPS := Spec_WriteBPS source; Spec_ReadIOPS := Spec_ReadIOPS source;
     Spec_WriteIOPS := Spec_WriteIOPS source; Spec_Image := Spec_Image source; Spec_OSType := Spec_OSType source;
     Spec_OSVersion := Spec_OSVersion source; Spec_Arch := Spec_Arch source; Spec_CloudInit := Spec_CloudInit source;
     Spec_Bootloader := Spec_Bootloader source; Spec_Disks := Spec_Disks source;
     Spec_Networks := if jc_ResetMAC o then map (fun n => net_with n (Net_Bridge n) (Net_IPv4 n) "") (Spec_Networks source) else Spec_Networks source;
     Spec_ProviderConfig := Spec_ProviderConfig source; Spec_Labels := put_all (jc_Labels o) (Spec_Labels source);
     Spec_Annotations := put_all (jc_Annotations o) (Spec_Annotations source) |}.

Definition snapshot_handle (id dataset name zfsName : string) (created : list (string * value)) : SnapshotHandle :=
  {| sh_ID := id +:+ "_" +:+ name; sh_Instance := id;
     sh_Metadata := [("dataset", VString dataset); ("snapshot_name", VString name); ("zfs_name", VString zfsName)] ++ created |}.
(** A line of the listing: a snapshot of the jail's own dataset. *)
Definition listed_snapshot (id dataset line : string) : option SnapshotInfo :=
  if streq (TrimSpace line) "" then None
  else match Split line "009" with
       | fullName :: creation :: used :: _ =>
           match Split fullName "@" with
           | [ds; name] =>
               if negb (streq ds dataset) then None
               else Some {| si_Handle := snapshot_handle id dataset name fullName []; si_Name := name; si_CreatedAt := parse_or_zero creation;
                            si_SizeMB := if streq used "" then 0 else Z.quot (parse_or_zero used) (1024 * 1024) |}
           | _ => None
           end
       | _ => None
       end.

Definition autostart_pair_le (a b : AutoStartConfig * string) : Prop := autostart_le (as_Priority a.1, a.2) (as_Priority b.1, b.2).
#[export] Instance autostart_pair_le_dec : RelDecision autostart_pair_le.
Proof. intros a b. unfold autostart_pair_le. apply _. Defined.

Record VNETConfig := {
  VC_Enabled : bool; VC_Bridge : string; VC_IPv4Address : string; VC_IPv6Address : string; VC_DefaultRoute : string; VC_Interfaces : list string
}.
Definition ErrInvalidVNETConfig : error := Sentinel "invalid VNET configuration".
Definition invalid_vnet (check : option error) : option error :=
  match check with Some e => Some (Joined [ErrInvalidVNETConfig; e]) | None => None end.
Definition vnet_errors (config : VNETConfig) : option error :=
  first_error [
    invalid_vnet (when (negb (streq (VC_Bridge config) "")) (ValidateBridgeName (VC_Bridge config)));
    invalid_vnet (when (negb (streq (VC_IPv4Address config) "") && negb (streq (VC_IPv4Address config) "dhcp")) (ValidateIPAddress (VC_IPv4Address config)));
    invalid_vnet (when (negb (streq (VC_IPv6Address config) "")) (ValidateIPAddress (VC_IPv6Address config)));
    invalid_vnet (when (negb (streq (VC_DefaultRoute config) "")) (ValidateIPAddress (VC_DefaultRoute config)))].
(** The address of the first line that has one. *)
Definition inet_address (output : string) : option string :=
  match omap (fun line => if Contains line "inet " then match Fields line with _ :: a :: _ => Some a | _ => None end else None) (Split output newline) with
  | a :: _ => Some a
  | [] => None
  end.
Definition wired (iface : string) : bool := HasPrefix iface "epair" || HasPrefix iface "vtnet" || HasPrefix iface "em".

Section ops.
Context {W : Type} `{Host W} `{FileOps W} `{LinkHost W} `{TempDirs W} `{JailFirewall W} `{Json JailConfig}.
Context (GOARCH : string) (sprint : value -> string) (cwd : path) (ctx_err : W -> option error).

(** ** Snapshots *)

Definition CreateSnapshot (p : JailProvider) (w : W) (now : string) (handle : InstanceHandle) (name : string) : W * result SnapshotHandle :=
  match first_error [
    wrap "invalid instance id %q: %w" [Handle_ID handle] (ValidateInstanceName (Handle_ID handle));
    wrap "invalid snapshot name: %w" [] (ValidateSnapshotName name)] with
  | Some e => (w, Err e)
  | None =>
      match datasetFor p handle with
      | Err e => (w, Err e)
      | Ok dataset =>
          let zfsName := dataset +:+ "@" +:+ name in
          match run_msg "failed to create ZFS snapshot %s: %w (%s)" [zfsName] w ["zfs"; "snapshot"; zfsName] with
          | (w, Some e) => (w, Err e)
          | (w, None) => (w, Ok (snapshot_handle (Handle_ID handle) dataset name zfsName [("created", VString now)]))
          end
      end
  end.
Definition DeleteSnapshot (p : JailProvider) (w : W) (s : SnapshotHandle) : W * option error :=
  match snapshotFor p s with
  | Err e => (w, Some e)
  | Ok zfsName => run_msg "failed to delete ZFS snapshot %s: %w (%s)" [zfsName] w ["zfs"; "destroy"; zfsName]
  end.
Definition RestoreSnapshot (p : JailProvider) (w : W) (id : string) (s : SnapshotHandle) : W * option error :=
  match first_error [
    wrap "invalid instance id %q: %w" [id] (ValidateInstanceName id);
    fail_if (negb (streq (sh_Instance s) id)) (Errorf "snapshot does not belong to instance %s" [id])] with
  | Some e => (w, Some e)
  | None =>
      match GetInstanceInfo GOARCH p w id with
      | (w, Err e) => (w, Some (Wrapf "failed to get instance info: %w" [] e))
      | (w, Ok (state, _)) =>
          if negb (streq state StateStopped) then (w, Some (Errorf "jail must be stopped to restore snapshot (current state: %s)" [state]))
          else match snapshotFor p s with
               | Err e => (w, Some e)
               | Ok zfsName => run_msg "failed to roll back to ZFS snapshot %s: %w (%s)" [zfsName] w ["zfs"; "rollback"; "-r"; zfsName]
               end
      end
  end.
Definition ListSnapshots (p : JailProvider) (w : W) (handle : InstanceHandle) : W * result (list SnapshotInfo) :=
  match wrap "invalid instance id %q: %w" [Handle_ID handle] (ValidateInstanceName (Handle_ID handle)) with
  | Some e => (w, Err e)
  | None =>
      match datasetFor p handle with
      | Err e => (w, Err e)
      | Ok dataset =>
          let '(w, x) := exec w (Command ["zfs"; "list"; "-H"; "-p"; "-t"; "snapshot"; "-o"; "name,creation,used"; "-r"; dataset]) in
          (w, match ex_err x with
              | Some e => if Contains (ex_combined x) "no datasets available" then Ok [] else Err (Wrapf "failed to list ZFS snapshots: %w" [] e)
              | None => Ok (omap (listed_snapshot (Handle_ID handle) dataset) (Split (ex_combined x) newline))
              end)
      end
  end.

(** ** Clones *)

(** The configuration of a clone, and what undoes it. *)
Definition finalizeClone (p : JailProvider) (w : W) (spec : InstanceSpec) (name dataset mountpoint : string) (undo : W -> W) : W * result InstanceHandle :=
  match wrapped "failed to persist clone config: %w"
          (saveJailConfig w (buildJailConfig GOARCH sprint spec mountpoint) (path_Join (JP_stateDir p) (name +:+ ".json"))) with
  | (w, Some e) => (undo w, Err e)
  | (w, None) => (w, Ok {| Handle_ID := name; Handle_Provider := "jail";
                           Handle_Metadata := [("zfs_dataset", VString dataset); ("path", VString mountpoint)] |})
  end.
(** The copy of a snapshot: [Ok] the snapshot it still depends on, if any. *)
Definition copy_dataset (p : JailProvider) (w : W) (linked : bool) (snapshot clone : string) : W * result (option string) :=
  if linked then
    match run_msg "failed to create ZFS clone: %w (output: %s)" [] w ["zfs"; "clone"; snapshot; clone] with
    | (w, Some e) => (zfsDestroyCleanup p w snapshot, Err e)
    | (w, None) => (w, Ok (Some snapshot))
    end
  else
    let '(w, r) := pipeline w (Command ["zfs"; "send"; snapshot]) (Command ["zfs"; "receive"; clone]) in
    let undo_both w := zfsDestroyCleanup p (zfsDestroyCleanup p w clone) snapshot in
    match r with
    | NoPipe e => (zfsDestroyCleanup p w snapshot, Err (Wrapf "failed to create pipe: %w" [] e))
    | ConsumerNotStarted e => (zfsDestroyCleanup p w snapshot, Err (Wrapf "failed to start receive: %w" [] e))
    | ProducerNotStarted e _ => (undo_both w, Err (Wrapf "failed to send data: %w" [] e))
    | BothWaited (Some e) _ _ _ => (undo_both w, Err (Wrapf "failed to send data: %w" [] e))
    | BothWaited None (Some e) _ _ => (undo_both w, Err (Wrapf "failed to receive data: %w" [] e))
    | BothWaited None None _ _ => (zfsDestroyCleanup p w snapshot, Ok None)
    end.
Definition CloneInstance (p : JailProvider) (w : W) (nanos : Z) (source : InstanceHandle) (cloneName : string) (o : CloneOptions) : W * result InstanceHandle :=
  match wrap "invalid clone name: %w" [] (ValidateInstanceName cloneName) with
  | Some e => (w, Err e)
  | None =>
  match datasetFor p source with
  | Err e => (w, Err e)
  | Ok sourceDataset =>
  match GetInstanceInfo GOARCH p w (Handle_ID source) with
  | (w, Err e) => (w, Err (Wrapf "failed to get source jail info: %w" [] e))
  | (w, Ok (state, spec)) =>
      if negb (streq state StateStopped) then (w, Err (Errorf "source jail must be stopped for cloning (current state: %s)" [state]))
      else
        let snapshot := sourceDataset +:+ "@clone-source-" +:+ Itoa nanos in
        let clone := jail_dataset p cloneName in
        match run_msg "failed to create source snapshot: %w (output: %s)" [] w ["zfs"; "snapshot"; snapshot] with
        | (w, Some e) => (w, Err e)
        | (w, None) =>
        match copy_dataset p w (jc_LinkedClone o) snapshot clone with
        | (w, Err e) => (w, Err e)
        | (w, Ok kept) =>
            let undo w := let w := zfsDestroyCleanup p w clone in match kept with Some s => zfsDestroyCleanup p w s | None => w end in
            match getZFSMountpoint w clone with
            | (w, Err e) => (undo w, Err (Wrapf "failed to get clone mountpoint: %w" [] e))
            | (w, Ok mountpoint) => finalizeClone p w (clone_spec spec cloneName o) cloneName clone mountpoint undo
            end
        end end
  end end end.
Definition CloneFromSnapshot (p : JailProvider) (w : W) (s : SnapshotHandle) (cloneName : string) (o : CloneOptions) : W * result InstanceHandle :=
  match wrap "invalid clone name: %w" [] (ValidateInstanceName cloneName) with
  | Some e => (w, Err e)
  | None =>
  match snapshotFor p s with
  | Err e => (w, Err e)
  | Ok zfsSnapshot =>
      let clone := jail_dataset p cloneName in
      match run_msg "failed to create ZFS clone from snapshot: %w (output: %s)" [] w ["zfs"; "clone"; zfsSnapshot; clone] with
      | (w, Some e) => (w, Err e)
      | (w, None) =>
      match getZFSMountpoint w clone with
      | (w, Err e) => (zfsDestroyCleanup p w clone, Err (Wrapf "failed to get clone mountpoint: %w" [] e))
      | (w, Ok mountpoint) =>
      match GetInstanceInfo GOARCH p w (sh_Instance s) with
      | (w, Err e) => (zfsDestroyCleanup p w clone, Err (Wrapf "failed to get original jail info: %w" [] e))
      | (w, Ok (_, spec)) => finalizeClone p w (clone_spec spec cloneName o) cloneName clone mountpoint (fun w => zfsDestroyCleanup p w clone)
      end end end
  end end.

(** ** Automatic starts *)

Definition SetAutoStart (p : JailProvider) (w : W) (id : string) (config : AutoStartConfig) : W * option error :=
  match first_error [
    wrap "invalid instance id %q: %w" [id] (ValidateInstanceName id);
    fail_if ((as_Priority config <? 0) || (100 <? as_Priority config)) (Errorf "priority must be between 0 and 100, got %d" [Itoa (as_Priority config)]);
    fail_if (as_DelayMS config <? 0) (Errorf "delay must be non-negative, got %d" [Itoa (as_DelayMS config)])] with
  | Some e => (w, Some e)
  | None =>
      let config := if (as_Priority config =? 0) && as_Enabled config
                    then {| as_Enabled := true; as_Priority := 50; as_DelayMS := as_DelayMS config |} else config in
      match loadJailConfig GOARCH w (config_path p id) with
      | Err e => (w, Some (Wrapf "failed to load jail configuration: %w" [] e))
      | Ok c => wrapped "failed to save jail configuration: %w" (saveJailConfig w (with_autostart c config) (config_path p id))
      end
  end.
Definition GetAutoStart (p : JailProvider) (w : W) (id : string) : result AutoStartConfig :=
  match ValidateInstanceName id with
  | Some e => Err (Wrapf "invalid instance id %q: %w" [id] e)
  | None =>
      match loadJailConfig GOARCH w (config_path p id) with
      | Err e => Err (Wrapf "failed to load jail configuration: %w" [] e)
      | Ok c => Ok (JC_AutoStart c)
      end
  end.
Definition getAutoStartInstances (p : JailProvider) (w : W) : result (list (AutoStartConfig * string)) :=
  match ReadDir w (JP_stateDir p) with
  | Err e => if errors_Is e ErrNotExist then Ok [] else Err (Wrapf "failed to read state directory: %w" [] e)
  | Ok entries =>
      Ok (merge_sort autostart_pair_le
            (omap (fun e => if de_isdir e || negb (HasSuffix (de_name e) ".json") then None
                            else match loadJailConfig GOARCH w (path_Join (JP_stateDir p) (de_name e)) with
                                 | Ok c => if as_Enabled (JC_AutoStart c) then Some (JC_AutoStart c, JC_Name c) else None
                                 | Err _ => None
                                 end) entries))
  end.
Definition ListAutoStartInstances (p : JailProvider) (w : W) : result (list InstanceHandle) :=
  match getAutoStartInstances p w with
  | Err e => Err e
  | Ok l => Ok (map (fun i => {| Handle_ID := i.2; Handle_Provider := "jail"; Handle_Metadata := [] |}) l)
  end.
(** One after the other; a failure does not keep the rest from starting. *)
Fixpoint start_each (p : JailProvider) (l : list (AutoStartConfig * string)) (failed : list string) (w : W) : W * option error :=
  match l with
  | [] => (w, match failed with [] => None | _ => Some (Errorf "errors during auto-start: %s" failed) end)
  | (config, name) :: rest =>
      match ctx_err w with
      | Some e => (w, Some e)
      | None =>
          match isJailRunning w name with
          | (w, Ok true) => start_each p rest failed w
          | (w, _) =>
              match (if 0 <? as_DelayMS config then ctx_err w else None) with
              | Some e => (w, Some e)
              | None =>
                  match StartInstance GOARCH sprint cwd ctx_err p w {| Handle_ID := name; Handle_Provider := "jail"; Handle_Metadata := [] |} with
                  | (w, _, Some _) => start_each p rest (failed ++ ["failed to start jail " +:+ name]) w
                  | (w, _, None) => start_each p rest failed w
                  end
              end
          end
      end
  end.
Definition StartAutoStartInstances (p : JailProvider) (w : W) : W * option error :=
  match getAutoStartInstances p w with
  | Err e => (w, Some (Wrapf "failed to list auto-start instances: %w" [] e))
  | Ok l => start_each p l [] w
  end.

(** ** An interface of a running jail *)

Definition recordVnetEpair (p : JailProvider) (w : W) (jailName epairA : string) : W :=
  match loadJailConfig GOARCH w (config_path p jailName) with
  | Err _ => w
  | Ok c =>
      if existsb (streq epairA) (JC_VnetEpairs c) then w
      else (saveJailConfig w (with_epairs c (if streq (JC_VnetEpair c) "" then epairA else JC_VnetEpair c) (JC_VnetEpairs c ++ [epairA]))
              (config_path p jailName)).1
  end.

(** The commands that connect the two sides, stopping at the first that fails. *)
Fixpoint run_all (cmds : list (string * list string)) (w : W) : W * option error :=
  match cmds with [] => (w, None) | (msg, argv) :: rest => and_then (run_msg msg [] w argv) (run_all rest) end.
Definition vnet_commands (id epairA epairB : string) (config : VNETConfig) : list (string * list string) :=
  let inside args := ["jexec"; id] ++ args in
  (if streq (VC_Bridge config) "" then [] else [("failed to add %s to bridge %s: %w (output: %s)", ["ifconfig"; VC_Bridge config; "addm"; epairA])]) ++
  [("failed to bring up %s: %w", ["ifconfig"; epairA; "up"]);
   ("failed to assign %s to jail %s: %w (output: %s)", ["ifconfig"; epairB; "vnet"; id])] ++
  (if streq (VC_IPv4Address config) "" then []
   else [("failed to configure IP %s on %s: %w (output: %s)", inside ["ifconfig"; epairB; "inet"; VC_IPv4Address config]);
         ("failed to bring up %s in jail: %w", inside ["ifconfig"; epairB; "up"])]) ++
  (if streq (VC_IPv6Address config) "" then []
   else [("failed to configure IPv6 %s on %s: %w (output: %s)", inside ["ifconfig"; epairB; "inet6"; VC_IPv6Address config])]) ++
  (if streq (VC_DefaultRoute config) "" then []
   else [("failed to add default route %s: %w (output: %s)", inside ["route"; "add"; "default"; VC_DefaultRoute config])]).

Definition EnableVNET (p : JailProvider) (w : W) (id : string) (config : VNETConfig) : W * option error :=
  match first_error [wrap "invalid instance handle: %w" [] (ValidateInstanceName id); vnet_errors config] with
  | Some e => (w, Some e)
  | None =>
      if negb (VC_Enabled config) then (w, None)
      else if streq (VC_IPv4Address config) "dhcp"
      then (w, Some (Wrapf "%w: EnableVNET needs a static address; %q is resolved when the jail starts" ["dhcp"] ErrInvalidVNETConfig))
      else match refuseAddressInUse (pools p w) (holders GOARCH p w) id (VC_IPv4Address config) with
      | Some e => (w, Some e)
      | None =>
      match GetInstanceState p w id with
      | (w, (_, Some e)) => (w, Some (Wrapf "failed to get jail state: %w" [] e))
      | (w, (state, None)) =>
          if negb (streq state StateRunning) then (w, Some (Errorf "jail must be running to configure VNET" []))
          else
            let '(w, x) := exec w (Command ["ifconfig"; "epair"; "create"]) in
            match ex_err x with
            | Some e => (w, Some (Wrapf "failed to create epair: %w (output: %s)" [ex_combined x] e))
            | None =>
                let epairA := TrimSpace (ex_combined x) in
                match run_all (vnet_commands id epairA (epairBSide epairA) config) w with
                | (w, Some e) => ((run w ["ifconfig"; epairA; "destroy"]).1, Some e)
                | (w, None) => (recordVnetEpair p w id epairA, None)
                end
            end
      end end
  end.

Fixpoint remove_epairs (id : string) (ifaces : list string) (w : W) (first : option error) : W * option error :=
  match ifaces with
  | [] => (w, first)
  | iface :: rest =>
      if negb (HasPrefix iface "epair") then remove_epairs id rest w first
      else match run_msg "failed to move %s out of jail %s: %w" [iface; id] w ["ifconfig"; iface; "-vnet"; id] with
      | (w, Some e) => remove_epairs id rest w (first_of first (Some e))
      | (w, None) =>
          let baseName := TrimSuffix (TrimSuffix iface "b") "a" +:+ "a" in
          let '(w, e) := run_msg "failed to destroy epair %s: %w" [baseName] w ["ifconfig"; baseName; "destroy"] in
          remove_epairs id rest w (first_of first e)
      end
  end.
Definition DisableVNET (p : JailProvider) (w : W) (id : string) : W * option error :=
  match ValidateInstanceName id with
  | Some e => (w, Some (Wrapf "invalid instance handle: %w" [] e))
  | None =>
      let '(w, x) := exec w (Command ["jexec"; id; "ifconfig"; "-l"]) in
      match ex_err x with
      | Some _ => (w, None)
      | None =>
          let '(w, first) := remove_epairs id (Fields (ex_combined x)) w None in
          match loadJailConfig GOARCH w (config_path p id) with
          | Err _ => (w, first)
          | Ok c =>
              let w := foldl (fun w e => if streq e "" then w else (run w ["ifconfig"; e; "destroy"]).1) w (JC_VnetEpairs c) in
              ((saveJailConfig w (with_epairs c "" []) (config_path p id)).1, first)
          end
      end
  end.

(** The last of the interfaces that have an address gives it. *)
Fixpoint vnet_address (id : string) (ifaces : list string) (w : W) (cur : string) : W * string :=
  match ifaces with
  | [] => (w, cur)
  | iface :: rest =>
      if negb (wired iface) then vnet_address id rest w cur
      else
        let '(w, x) := exec w (Command ["jexec"; id; "ifconfig"; iface; "inet"]) in
        vnet_address id rest w (match ex_err x with None => default cur (inet_address (ex_combined x)) | Some _ => cur end)
  end.
Definition GetVNETStatus (w : W) (id : string) : W * result VNETConfig :=
  match ValidateInstanceName id with
  | Some e => (w, Err (Wrapf "invalid instance handle: %w" [] e))
  | None =>
      let '(w, x) := exec w (Command ["jls"; "-j"; id; "vnet"]) in
      match ex_err x with
      | Some e => (w, Err (Wrapf "failed to get VNET status: %w" [] e))
      | None =>
          let status := TrimSpace (ex_combined x) in
          let off := {| VC_Enabled := false; VC_Bridge := ""; VC_IPv4Address := ""; VC_IPv6Address := ""; VC_DefaultRoute := ""; VC_Interfaces := [] |} in
          if negb (streq status "new" || streq status "1") then (w, Ok off)
          else
            let '(w, y) := exec w (Command ["jexec"; id; "ifconfig"; "-l"]) in
            let ifaces := match ex_err y with None => Fields (ex_combined y) | Some _ => [] end in
            let '(w, ip) := vnet_address id ifaces w "" in
            (w, Ok {| VC_Enabled := true; VC_Bridge := ""; VC_IPv4Address := ip; VC_IPv6Address := ""; VC_DefaultRoute := ""; VC_Interfaces := ifaces |})
      end
  end.

(** ** The provider *)

Definition jail_Initialize (w : W) (dataDir stateDir zfsEnv poolEnv : string) (settings : list (string * value)) : W * result JailProvider :=
  let zfsParent := match text_at "zfs_parent" settings with Some s => s | None => Child zfsEnv "jails" end in
  match LoadConfigWithDefaults w with
  | Err e => (w, Err (Wrapf "failed to load hospitus configuration: %w" [] e))
  | Ok cfg =>
      let p := {| JP_root := dataDir; JP_dataDir := path_Join dataDir "jails"; JP_stateDir := path_Join stateDir "jails"; JP_zfsParent := zfsParent;
                  JP_zfsEnv := zfsEnv; JP_poolEnv := poolEnv; JP_poolSetting := config_at "ip_pool" settings; JP_hospitusConfig := cfg |} in
      match and_then (wrapped "failed to create data directory: %w" (MkdirAll w (JP_dataDir p))) (fun w =>
            and_then (wrapped "failed to create state directory: %w" (MkdirAll w (JP_stateDir p))) (fun w =>
            wrapped "failed to ensure ZFS parent dataset: %w" (ensureZFSDataset p w zfsParent))) with
      | (w, Some e) => (w, Err e)
      | (w, None) => (w, Ok p)
      end
  end.

(** The handles of the configuration files, filtered by state. *)
Fixpoint with_states (p : JailProvider) (states : list string) (names : list string) (w : W) : W * list InstanceHandle :=
  match names with
  | [] => (w, [])
  | name :: rest =>
      let handle := {| Handle_ID := name; Handle_Provider := "jail"; Handle_Metadata := [("zfs_dataset", VString (jail_dataset p name))] |} in
      let '(w, keep) := match states with
                        | [] => (w, true)
                        | _ => match GetInstanceState p w name with
                               | (w, (_, Some _)) => (w, false)
                               | (w, (state, None)) => (w, existsb (streq state) states)
                               end
                        end in
      let '(w, l) := with_states p states rest w in
      (w, if keep : bool then handle :: l else l)
  end.
Definition jail_ListInstances (p : JailProvider) (w : W) (states : list string) : W * list InstanceHandle :=
  let files := match ReadDir w (JP_stateDir p) with Ok entries => List.filter (fun n => HasSuffix n ".json") (map de_name entries) | Err _ => [] end in
  with_states p states (map (fun f => TrimSuffix f ".json") files) w.
End ops.

(** ** Interfaces of a running jail *)

Record Route := { Ro_Destination : string; Ro_Gateway : string; Ro_Metric : Z }.
Record NetworkInterface := {
  NI_Name : string; NI_Bridge : string; NI_BridgeFlags : list string; NI_VLAN : Z; NI_IPv4Address : string; NI_IPv4Gateway : string;
  NI_IPv6Address : string; NI_IPv6Gateway : string; NI_DHCPv4 : bool; NI_DHCPv6 : bool; NI_SLAAC : bool; NI_MTU : Z; NI_MAC : string;
  NI_Description : string; NI_Primary : bool; NI_Routes : list Route; NI_DNSServers : list string; NI_HostInterface : string; NI_JailInterface : string
}.
Record MultiNICConfig := { MC_Interfaces : list NetworkInterface; MC_DefaultInterface : Z; MC_EnableIPv6 : bool; MC_Hostname : string }.

Definition ni_with (i : NetworkInterface) (name bridge : string) (primary : bool) (host jail : string) : NetworkInterface :=
  {| NI_Name := name; NI_Bridge := bridge; NI_BridgeFlags := NI_BridgeFlags i; NI_VLAN := NI_VLAN i; NI_IPv4Address := NI_IPv4Address i;
     NI_IPv4Gateway := NI_IPv4Gateway i; NI_IPv6Address := NI_IPv6Address i; NI_IPv6Gateway := NI_IPv6Gateway i; NI_DHCPv4 := NI_DHCPv4 i;
     NI_DHCPv6 := NI_DHCPv6 i; NI_SLAAC := NI_SLAAC i; NI_MTU := NI_MTU i; NI_MAC := NI_MAC i; NI_Description := NI_Description i; NI_Primary := primary;
     NI_Routes := NI_Routes i; NI_DNSServers := NI_DNSServers i; NI_HostInterface := host; NI_JailInterface := jail |}.

(** [net.ParseMAC]: 6, 8 or 20 octets, with colons or hyphens between them, or
    dots between pairs of them. *)
Definition hex_groups (size : nat) (counts : list nat) (sep : ascii) (s : string) : bool :=
  let parts := Split s sep in
  forallb (fun g => bool_decide (length (bytes g) = size) && forallb isHexDigit (bytes g)) parts && existsb (Nat.eqb (length parts)) counts.
Definition validMAC (s : string) : bool := hex_groups 2 [6; 8; 20]%nat ":" s || hex_groups 2 [6; 8; 20]%nat "-" s || hex_groups 4 [3; 4; 10]%nat "." s.

Definition bad_address (what text addr : string) : option error := wrap what [text] (ValidateIPAddress addr).
Definition bad_route (r : Route) : option error :=
  first_error [
    when (negb (streq (Ro_Gateway r) "")) (bad_address "invalid route gateway %q: %w" (Ro_Gateway r) (Ro_Gateway r));
    when (negb (streq (Ro_Destination r) "") && negb (streq (Ro_Destination r) "default"))
      (bad_address "invalid route destination %q: %w" (Ro_Destination r) (addressWithoutPrefix (Ro_Destination r)))].
Definition line_breaks : string := of_bytes ["013"%char; newline].
Definition validateNetworkInterface (jailName : string) (i : NetworkInterface) : option error :=
  first_error ([
    wrap "invalid jail name %q: %w" [jailName] (ValidateInstanceName jailName);
    when (negb (streq (NI_Bridge i) "")) (wrap "invalid bridge %q: %w" [NI_Bridge i] (ValidateBridgeName (NI_Bridge i)));
    when (negb (streq (NI_Name i) "")) (wrap "invalid interface name %q: %w" [NI_Name i] (ValidateInterfaceName (NI_Name i)));
    fail_if (negb (streq (NI_MAC i) "") && negb (validMAC (NI_MAC i))) (Errorf "invalid MAC address %q" [NI_MAC i]);
    fail_if ((NI_VLAN i <? 0) || (4094 <? NI_VLAN i)) (Errorf "invalid VLAN %d: expected 0..4094" [Itoa (NI_VLAN i)]);
    fail_if (negb (streq (NI_Description i) "") && ContainsAny (NI_Description i) line_breaks) (Errorf "interface description must not contain a newline" [])] ++
    map (fun f => wrap "invalid bridge flag %q: %w" [f] (ValidateBridgeFlag f)) (NI_BridgeFlags i) ++
    map (fun ns => bad_address "invalid DNS server %q: %w" ns ns) (NI_DNSServers i) ++
    [fail_if (negb (NI_MTU i =? 0) && ((NI_MTU i <? 68) || (65535 <? NI_MTU i))) (Errorf "invalid MTU %d: expected 68..65535" [Itoa (NI_MTU i)])] ++
    map (fun a => when (negb (streq a "") && negb (streq a "dhcp")) (bad_address "invalid address %q: %w" a (addressWithoutPrefix a)))
      [NI_IPv4Address i; NI_IPv6Address i] ++
    map (fun g => when (negb (streq g "")) (bad_address "invalid gateway %q: %w" g g)) [NI_IPv4Gateway i; NI_IPv6Gateway i] ++
    map bad_route (NI_Routes i)).

Fixpoint upsertNetworkSpec (l : list NetworkSpec) (spec : NetworkSpec) : list NetworkSpec :=
  match l with
  | [] => [spec]
  | n :: rest => if streq (Net_ID n) (Net_ID spec) then spec :: rest else n :: upsertNetworkSpec rest spec
  end.
(** What is kept of an interface. *)
Definition recorded_network (i : NetworkInterface) (jailIface : string) : NetworkSpec :=
  {| Net_ID := jailIface; Net_Type := "bridge"; Net_Bridge := NI_Bridge i; Net_BridgeFlags := []; Net_VLAN := 0; Net_MAC := "";
     Net_IPv4 := if NI_DHCPv4 i then "dhcp" else NI_IPv4Address i; Net_IPv6 := NI_IPv6Address i; Net_IPPool := ""; Net_MTU := NI_MTU i |}.
Definition without_networks (names : list string) (l : list NetworkSpec) : list NetworkSpec :=
  List.filter (fun n => streq (Net_ID n) "" || negb (mem (Net_ID n) names)) l.

(** The commands that address an interface inside the jail, each of them allowed to
    fail. *)
Definition nic_commands (jailName jailIface : string) (i : NetworkInterface) : list (list string) :=
  let inside args := ["jexec"; jailName] ++ args in
  [inside ["ifconfig"; jailIface; "up"]] ++
  map (fun r => inside ["route"; "add"; "-net"; Ro_Destination r; Ro_Gateway r]) (NI_Routes i) ++
  (if streq (NI_IPv4Gateway i) "" then [] else [inside ["route"; "add"; "default"; NI_IPv4Gateway i]]) ++
  (if streq (NI_IPv6Gateway i) "" then [] else [inside ["route"; "-6"; "add"; "default"; NI_IPv6Gateway i]]) ++
  (if streq (NI_Description i) "" then [] else [inside ["ifconfig"; jailIface; "description"; NI_Description i]]).

(** *** Reading ifconfig *)

(** What follows the first occurrence of a text, and what stands before a byte. *)
Fixpoint after_l (sub s : list ascii) : option (list ascii) :=
  match cut_prefix_l sub s with
  | Some r => Some r
  | None => match s with [] => None | _ :: s => after_l sub s end
  end.
Definition after_text (s sub : string) : option string := of_bytes <$> after_l (bytes sub) (bytes s).
Definition until (c : ascii) (s : string) : string := match Cut s c with Some (a, _) => a | None => s end.

Definition nibble (c : ascii) : Z :=
  let n := Z.of_nat (nat_of_ascii c) in
  if between "0" "9" c then n - 48 else if between "a" "f" c then n - 87 else if between "A" "F" c then n - 55 else 0.
Definition ones (n : Z) : Z := Z.b2z (Z.testbit n 0) + Z.b2z (Z.testbit n 1) + Z.b2z (Z.testbit n 2) + Z.b2z (Z.testbit n 3).
Definition hexNetmaskToCIDR (hex : string) : string :=
  let hex := TrimPrefix hex "0x" in
  if negb (len hex =? 8) then "24" else Itoa (foldr (fun c n => ones (nibble c) + n) 0 (bytes hex)).
Fixpoint netmask_of (fields : list string) : string :=
  match fields with
  | f :: rest => match rest with m :: _ => if streq f "netmask" then "/" +:+ hexNetmaskToCIDR m else netmask_of rest | [] => "" end
  | [] => ""
  end.
Definition inet_of (output : string) : string :=
  match after_text output "inet " with
  | None => ""
  | Some line => match Fields ("inet " +:+ until newline line) with a :: b :: rest => b +:+ netmask_of (a :: b :: rest) | _ => "" end
  end.
Definition inet6_of (output : string) : string :=
  match after_text output "inet6 " with
  | None => ""
  | Some line => match Fields ("inet6 " +:+ until newline line) with _ :: b :: _ => b | _ => "" end
  end.
Definition word_after (output sub : string) : option string := (fun line => TrimSpace (until newline (until " " line))) <$> after_text output sub.
Definition read_interface (name output : string) : NetworkInterface :=
  {| NI_Name := ""; NI_Bridge := ""; NI_BridgeFlags := []; NI_VLAN := 0; NI_IPv4Address := inet_of output; NI_IPv4Gateway := "";
     NI_IPv6Address := inet6_of output; NI_IPv6Gateway := ""; NI_DHCPv4 := false; NI_DHCPv6 := false; NI_SLAAC := false;
     NI_MTU := match word_after output "mtu " with Some m => parse_or_zero m | None => 0 end; NI_MAC := default "" (word_after output "ether ");
     NI_Description := ""; NI_Primary := false; NI_Routes := []; NI_DNSServers := []; NI_HostInterface := ""; NI_JailInterface := name |}.
(** The bridge of an interface, from the networks of the configuration. *)
Definition bridge_of (nets : list NetworkSpec) (i : NetworkInterface) : string :=
  match List.find (fun n => (negb (streq (Net_IPv4 n) "") && streq (Net_IPv4 n) (NI_IPv4Address i)) ||
                            (negb (streq (Net_ID n) "") && streq (Net_ID n) (NI_JailInterface i))) nets with
  | Some n => Net_Bridge n
  | None => NI_Bridge i
  end.

(** Processes that are started and left to themselves. *)
Class Spawner (W : Type) := { Spawn : W -> cmd -> W * option error }.
(** [MinimalEnv] of variables that choose neither a program nor a library. *)
Definition MinimalEnv (extra : list string) : list string :=
  "PATH=/usr/local/sbin:/usr/local/bin:/usr/sbin:/usr/bin:/sbin:/bin" ::
  List.filter (fun e => negb (existsb (HasPrefix e) ["PATH="; "LD_"; "DYLD_"])) extra.

Section nics.
Context {W : Type} `{Host W} `{FileOps W} `{LinkHost W} `{Spawner W} `{Json JailConfig}.
Context (GOARCH : string).

Definition jailHasVNET (w : W) (jailName : string) : W * result bool :=
  let '(w, x) := exec w (Command ["jls"; "-j"; jailName; "-n"; "vnet"]) in
  let line := TrimSpace (ex_stdout x) in
  (w, match ex_err x with Some e => Err (Wrapf "failed to check VNET status: %w" [] e) | None => Ok (Contains line "=1" || Contains line "=new") end).
Definition startDHCPClient (w : W) (client jailName jailIface : string) : W :=
  (Spawn w {| argv := ["jexec"; jailName; client; jailIface]; cmd_env := Some (MinimalEnv []); cmd_stdin := None; cmd_stdout := None |}).1.

Definition recordNetworkInterface (p : JailProvider) (w : W) (jailName : string) (i : NetworkInterface) (jailIface : string) : W * option error :=
  match loadJailConfig GOARCH w (config_path p jailName) with
  | Err e => (w, Some (Wrapf "failed to load jail config: %w" [] e))
  | Ok c =>
      let spec := recorded_network i jailIface in
      saveJailConfig w (with_networks c (spec_networks (JC_Spec c) (upsertNetworkSpec (Spec_Networks (JC_Spec c)) spec)) (upsertNetworkSpec (JC_Networks c) spec))
        (config_path p jailName)
  end.
Definition forgetNetworkInterface (p : JailProvider) (w : W) (jailName : string) (names : list string) : W * option error :=
  match loadJailConfig GOARCH w (config_path p jailName) with
  | Err e => (w, Some (Wrapf "failed to load jail config: %w" [] e))
  | Ok c =>
      saveJailConfig w (with_networks c (spec_networks (JC_Spec c) (without_networks names (Spec_Networks (JC_Spec c)))) (without_networks names (JC_Networks c)))
        (config_path p jailName)
  end.

(** The host's side: on its bridge, and up. *)
Definition connect_nic (p : JailProvider) (w : W) (epairA epairB : string) (i : NetworkInterface) : W * option error :=
  let destroy w := (run w ["ifconfig"; epairA; "destroy"]).1 in
  let w := if streq (NI_MAC i) "" then w else (run w ["ifconfig"; epairB; "ether"; NI_MAC i]).1 in
  let w := if 0 <? NI_MTU i then (run (run w ["ifconfig"; epairA; "mtu"; Itoa (NI_MTU i)]).1 ["ifconfig"; epairB; "mtu"; Itoa (NI_MTU i)]).1 else w in
  and_then (if streq (NI_Bridge i) "" then (w, None)
            else match EnsureBridge (JP_hospitusConfig p) w (NI_Bridge i) "" with
                 | (w, Some e) => (destroy w, Some (Wrapf "bridge %s: %w" [NI_Bridge i] e))
                 | (w, None) =>
                     let spec := {| Net_ID := ""; Net_Type := ""; Net_Bridge := NI_Bridge i; Net_BridgeFlags := NI_BridgeFlags i; Net_VLAN := NI_VLAN i;
                                    Net_MAC := ""; Net_IPv4 := ""; Net_IPv6 := ""; Net_IPPool := ""; Net_MTU := 0 |} in
                     match attachInterfaceToBridge w epairA spec with
                     | (w, Some e) => (destroy w, Some (Wrapf "failed to add %s to bridge %s: %w" [epairA; NI_Bridge i] e))
                     | (w, None) => (w, None)
                     end
                 end) (fun w =>
  run_msg "failed to bring up %s: %w" [epairA] w ["ifconfig"; epairA; "up"]).
(** The jail's side: moved in, named, addressed and recorded. *)
Definition address_nic (p : JailProvider) (w : W) (jailName epairA epairB : string) (i : NetworkInterface) : W * result NetworkInterface :=
  let inside args := ["jexec"; jailName; "ifconfig"] ++ args in
  match run_msg "failed to assign %s to jail: %w (output: %s)" [epairB] w ["ifconfig"; epairB; "vnet"; jailName] with
  | (w, Some e) => (w, Err e)
  | (w, None) =>
      let '(w, jailIface) := if streq (NI_Name i) "" then (w, epairB)
                             else match run w (inside [epairB; "name"; NI_Name i]) with (w, None) => (w, NI_Name i) | (w, Some _) => (w, epairB) end in
      let i := ni_with i (NI_Name i) (NI_Bridge i) (NI_Primary i) epairA jailIface in
      match (if negb (streq (NI_IPv4Address i) "")
             then run_msg "failed to configure IPv4: %w (output: %s)" [] w (inside [jailIface; "inet"; NI_IPv4Address i])
             else (if NI_DHCPv4 i then startDHCPClient w "dhclient" jailName jailIface else w, None)) with
      | (w, Some e) => (w, Err e)
      | (w, None) =>
          let w := if negb (streq (NI_IPv6Address i) "") then (run w (inside [jailIface; "inet6"; NI_IPv6Address i])).1
                   else if NI_SLAAC i then (run w (inside [jailIface; "inet6"; "accept_rtadv"])).1
                   else if NI_DHCPv6 i then startDHCPClient w "dhcp6c" jailName jailIface else w in
          let w := foldl (fun w c => (run w c).1) w (nic_commands jailName jailIface i) in
          ((recordNetworkInterface p w jailName i jailIface).1, Ok i)
      end
  end.
Definition AddNetworkInterface (p : JailProvider) (w : W) (jailName : string) (i : NetworkInterface) : W * result NetworkInterface :=
  match ValidateInstanceName jailName with
  | Some e => (w, Err (Wrapf "invalid instance id %q: %w" [jailName] e))
  | None =>
  match GetInstanceState p w jailName with
  | (w, (_, Some e)) => (w, Err (Wrapf "failed to get jail state: %w" [] e))
  | (w, (state, None)) =>
      if negb (streq state StateRunning) then (w, Err (Errorf "jail must be running to add network interface" []))
      else match jailHasVNET w jailName with
      | (w, Err e) => (w, Err e)
      | (w, Ok false) => (w, Err (Errorf "jail must have VNET enabled to add network interfaces" []))
      | (w, Ok true) =>
      match first_error [validateNetworkInterface jailName i;
                         when (negb (streq (NI_IPv4Address i) "")) (refuseAddressInUse (pools p w) (holders GOARCH p w) jailName (NI_IPv4Address i))] with
      | Some e => (w, Err e)
      | None =>
          let '(w, x) := exec w (Command ["ifconfig"; "epair"; "create"]) in
          match ex_err x with
          | Some e => (w, Err (Wrapf "failed to create epair: %w (output: %s)" [ex_combined x] e))
          | None =>
              let epairA := TrimSpace (ex_combined x) in
              let epairB := epairBSide epairA in
              let '(w, r) := match connect_nic p w epairA epairB i with
                             | (w, Some e) => (w, Err e)
                             | (w, None) => address_nic p w jailName epairA epairB i
                             end in
              (match r with Ok _ => w | Err _ => (run w ["ifconfig"; epairA; "destroy"]).1 end, r)
          end
      end end
  end end.

Definition RemoveNetworkInterface (p : JailProvider) (w : W) (jailName interfaceName : string) : W * option error :=
  match first_error [
    wrap "invalid instance id %q: %w" [jailName] (ValidateInstanceName jailName);
    wrap "invalid interface name %q: %w" [interfaceName] (ValidateInterfaceName interfaceName)] with
  | Some e => (w, Some e)
  | None =>
      match GetInstanceState p w jailName with
      | (w, (_, Some e)) => (w, Some (Wrapf "failed to get jail state: %w" [] e))
      | (w, (state, None)) =>
          let w := if streq state StateRunning then (run w ["ifconfig"; interfaceName; "-vnet"; jailName]).1 else w in
          if negb (HasPrefix interfaceName "epair") then ((forgetNetworkInterface p w jailName [interfaceName]).1, None)
          else
            let epairA := if HasSuffix interfaceName "b" then TrimSuffix interfaceName "b" +:+ "a" else interfaceName in
            and_then (run_msg "failed to destroy %s: %w (output: %s)" [epairA] w ["ifconfig"; epairA; "destroy"]) (fun w =>
            ((forgetNetworkInterface p w jailName [interfaceName; TrimSuffix epairA "a" +:+ "b"; epairA]).1, None))
      end
  end.

Fixpoint read_interfaces (jailName : string) (names : list string) (w : W) : W * list NetworkInterface :=
  match names with
  | [] => (w, [])
  | name :: rest =>
      if streq name "lo0" then read_interfaces jailName rest w
      else
        let '(w, x) := exec w (Command ["jexec"; jailName; "ifconfig"; name]) in
        let '(w, l) := read_interfaces jailName rest w in
        (w, match ex_err x with None => read_interface name (ex_stdout x) :: l | Some _ => l end)
  end.
Definition ListNetworkInterfaces (p : JailProvider) (w : W) (jailName : string) : W * result (list NetworkInterface) :=
  match ValidateInstanceName jailName with
  | Some e => (w, Err (Wrapf "invalid instance id %q: %w" [jailName] e))
  | None =>
  match GetInstanceState p w jailName with
  | (w, (_, Some e)) => (w, Err (Wrapf "failed to get jail state: %w" [] e))
  | (w, (state, None)) =>
      if negb (streq state StateRunning) then (w, Err (Errorf "jail must be running to list interfaces" []))
      else
        let '(w, x) := exec w (Command ["jexec"; jailName; "ifconfig"; "-l"]) in
        match ex_err x with
        | Some e => (w, Err (Wrapf "failed to list interfaces: %w" [] e))
        | None =>
            let '(w, l) := read_interfaces jailName (Fields (ex_stdout x)) w in
            (w, Ok (match loadJailConfig GOARCH w (config_path p jailName) with
                    | Err _ => l
                    | Ok c => map (fun i => ni_with i (NI_JailInterface i) (bridge_of (JC_Networks c) i) (NI_Primary i) (NI_HostInterface i) (NI_JailInterface i)) l
                    end))
        end
  end end.

(** The names of the interfaces added: on the host and in the jail. *)
Fixpoint add_nics (p : JailProvider) (jailName : string) (primary : Z) (k : Z) (l : list NetworkInterface) (w : W) : W * list (string * string) * option error :=
  match l with
  | [] => (w, [], None)
  | i :: rest =>
      let i := if k =? primary then ni_with i (NI_Name i) (NI_Bridge i) true (NI_HostInterface i) (NI_JailInterface i) else i in
      match AddNetworkInterface p w jailName i with
      | (w, Err e) => (w, [], Some (Wrapf "failed to add interface %d: %w" [Itoa k] e))
      | (w, Ok added) =>
          let host := if negb (streq (NI_HostInterface added) "") then NI_HostInterface added
                      else if negb (streq (NI_JailInterface added) "") then NI_JailInterface added else NI_Name added in
          let '(w, names, e) := add_nics p jailName primary (k + 1) rest w in
          (w, (host, NI_JailInterface added) :: names, e)
      end
  end.
Definition remove_nic (p : JailProvider) (jailName : string) (w : W) (names : string * string) : W :=
  let w := (RemoveNetworkInterface p w jailName names.1).1 in
  if negb (streq names.2 "") && negb (streq names.2 names.1) then (forgetNetworkInterface p w jailName [names.2]).1 else w.
Definition ConfigureMultiNIC (p : JailProvider) (w : W) (jailName : string) (config : MultiNICConfig) : W * option error :=
  match first_error [
    wrap "invalid instance id %q: %w" [jailName] (ValidateInstanceName jailName);
    when (negb (streq (MC_Hostname config) "")) (wrap "invalid hostname %q: %w" [MC_Hostname config] (ValidateJailParameterValue (MC_Hostname config)))] with
  | Some e => (w, Some e)
  | None =>
      match add_nics p jailName (MC_DefaultInterface config) 0 (MC_Interfaces config) w with
      | (w, _, Some e) => (w, Some e)
      | (w, added, None) =>
          if streq (MC_Hostname config) "" then (w, None)
          else match run_msg "failed to set hostname %q: %w (output: %s)" [MC_Hostname config] w ["jexec"; jailName; "hostname"; MC_Hostname config] with
               | (w, Some e) => (foldl (remove_nic p jailName) w added, Some e)
               | (w, None) => (w, None)
               end
      end
  end.

Definition GetDefaultRoute (w : W) (id : string) : W * result string :=
  match ValidateInstanceName id with
  | Some e => (w, Err (Wrapf "invalid instance id %q: %w" [id] e))
  | None =>
      let '(w, x) := exec w (Command ["jexec"; id; "route"; "-n"; "get"; "default"]) in
      (w, Ok (match ex_err x with
              | Some _ => ""
              | None => match omap (fun line => let line := TrimSpace line in
                                                if HasPrefix line "gateway:" then Some (TrimSpace (TrimPrefix line "gateway:")) else None)
                                (Split (ex_stdout x) newline) with g :: _ => g | [] => "" end
              end))
  end.
Definition SetDefaultRoute (w : W) (id gateway : string) (ipv6 : bool) : W * option error :=
  match first_error [
    wrap "invalid instance id %q: %w" [id] (ValidateInstanceName id);
    bad_address "invalid gateway %q: %w" gateway gateway;
    fail_if (match ParseIP gateway with None => true | Some a => Bool.eqb (bool_decide (is_Some (To4 a))) ipv6 end)
      (Errorf "gateway %q is not an %s address" [gateway; if ipv6 then "IPv6" else "IPv4"])] with
  | Some e => (w, Some e)
  | None =>
      let route args := ["jexec"; id; "route"] ++ (if ipv6 then ["-6"] else []) ++ args in
      let w := (run w (route ["delete"; "default"])).1 in
      run_msg (if ipv6 then "failed to set IPv6 default route: %w (output: %s)" else "failed to set default route: %w (output: %s)") [] w (route ["add"; "default"; gateway])
  end.
End nics.

(** ** Services, packages, a new name, a new release *)

(** A service of a jail ([provider.ServiceInfo]). *)
Record JailService := { JS_Name : string; JS_Enabled : bool; JS_Running : bool; JS_Description : string; JS_RCScript : string }.
Definition ServiceActionStart : string := "start".
Definition ServiceActionStop : string := "stop".
Definition ServiceActionRestart : string := "restart".
Definition ServiceActionReload : string := "reload".
Definition validRcVariable : re :=
  Seq (Cls (fun c => alpha c || one_of "_" c)) (UpTo 63 (Cls (fun c => alnum c || one_of "_" c))).
Definition validateRcVariable (name : string) : option error :=
  fail_if (negb (MatchString validRcVariable name)) (Errorf "invalid rc variable %q: expected a plain rc.conf variable name" [name]).
Definition yes_value (output : string) : bool := existsb (streq (TrimSpace (ToUpper output))) ["YES"; "TRUE"; "1"].
(** The scripts of an rc.d directory. *)
Definition rc_scripts (output : string) : list string :=
  List.filter (fun name => negb (streq name "" || HasPrefix name "." || HasSuffix name ".sample")) (Split (TrimSpace output) newline).

Record PackageInfo := { PI_Name : string; PI_Description : string }.
Definition package_rune (r : Z) : bool :=
  (97 <=? r) && (r <=? 122) || (65 <=? r) && (r <=? 90) || (48 <=? r) && (r <=? 57) || existsb (Z.eqb r) (runes "._+/@-<>=~*").
Definition validatePackageName (name : string) : option error :=
  first_error [
    fail_if (streq name "") (Errorf "package name cannot be empty" []);
    fail_if (HasPrefix name "-") (Errorf "package name %q must not start with '-'" [name]);
    match List.find (fun r => negb (package_rune r)) (runes name) with
    | Some r => Some (Errorf "package name %q contains invalid character %q" [name; of_bytes (encode_rune r)])
    | None => None
    end].
Definition listed_package (line : string) : option PackageInfo :=
  let '(name, description) := match Cut line "009" with Some p => p | None => (line, "") end in
  if streq name "" then None else Some {| PI_Name := name; PI_Description := description |}.

(** *** The text of a configuration under a new name *)

Definition span_l (f : ascii -> bool) (s : list ascii) : list ascii * list ascii :=
  let rest := drop_while f s in (firstn (length s - length rest) s, rest).
Definition conf_space (c : ascii) : bool := ascii_in ["009"; "010"; "012"; "013"; " "]%char c.
Definition conf_name (c : ascii) : bool := alnum c || one_of "_.-" c.
(** The header of a block, at the start of a line: what is before the name, the
    name, what follows up to the brace, and the rest. *)
Definition block_header (s : list ascii) : option (list ascii * list ascii * list ascii * list ascii) :=
  let '(before, s) := span_l conf_space s in
  let '(name, s) := span_l conf_name s in
  let '(after, s) := span_l conf_space s in
  match name, s with
  | _ :: _, "{"%char :: rest => Some (before, name, after ++ ["{"%char], rest)
  | _, _ => None
  end.
Fixpoint rename_blocks (fuel : nat) (old new : list ascii) (line_start : bool) (s : list ascii) : list ascii :=
  match fuel, s with
  | S fuel, c :: r =>
      match (if line_start then block_header s else None) with
      | Some (before, name, after, rest) =>
          before ++ (if bool_decide (name = old) then new else name) ++ after ++ rename_blocks fuel old new false rest
      | None => c :: rename_blocks fuel old new (Ascii.eqb c newline) r
      end
  | _, _ => []
  end.
Definition renameJailConfBlock (content oldName newName : string) : string :=
  of_bytes (rename_blocks (length (bytes content)) (bytes oldName) (bytes newName) true (bytes content)).

(** [strings.ReplaceAll]; of nothing by nothing, the text itself. *)
Fixpoint replace_l (fuel : nat) (old new s : list ascii) : list ascii :=
  match fuel, s with
  | S fuel, c :: r =>
      match cut_prefix_l old s with
      | Some rest => new ++ replace_l fuel old new rest
      | None => c :: replace_l fuel old new r
      end
  | _, _ => []
  end.
Definition ReplaceText (s old new : string) : string :=
  if streq old "" then s else of_bytes (replace_l (length (bytes s)) (bytes old) (bytes new) (bytes s)).
Definition path_Base (a : string) : string := of_bytes (Base (bytes a)).
(** The root of the jail: only the component that is its name changes. *)
Definition renamed_root (oldPath oldName newName : string) : string :=
  if streq (path_Base oldPath) oldName then path_Join (path_Dir oldPath) newName
  else if streq (path_Base (path_Dir oldPath)) oldName then path_Join (path_Join (path_Dir (path_Dir oldPath)) newName) (path_Base oldPath)
  else oldPath.
Definition renamed_config (c : JailConfig) (name root : string) : JailConfig :=
  {| JC_Name := name; JC_Path := root; JC_Spec := JC_Spec c; JC_Networks := JC_Networks c; JC_Parameters := JC_Parameters c;
     JC_JailParameters := JC_JailParameters c; JC_Resources := JC_Resources c; JC_AutoStart := JC_AutoStart c; JC_RuntimeType := JC_RuntimeType c;
     JC_VnetEpair := JC_VnetEpair c; JC_VnetEpairs := JC_VnetEpairs c; JC_Hooks := JC_Hooks c |}.
Definition spec_release (s : InstanceSpec) (release : string) : InstanceSpec :=
  {| Spec_Name := Spec_Name s; Spec_Description := Spec_Description s; Spec_CPUs := Spec_CPUs s; Spec_MemoryMB := Spec_MemoryMB s; Spec_MaxProc := Spec_MaxProc s;
     Spec_ReadBPS := Spec_ReadBPS s; Spec_WriteBPS := Spec_WriteBPS s; Spec_ReadIOPS := Spec_ReadIOPS s; Spec_WriteIOPS := Spec_WriteIOPS s;
     Spec_Image := Spec_Image s; Spec_OSType := Spec_OSType s; Spec_OSVersion := release; Spec_Arch := Spec_Arch s;
     Spec_CloudInit := Spec_CloudInit s; Spec_Bootloader := Spec_Bootloader s; Spec_Disks := Spec_Disks s; Spec_Networks := Spec_Networks s;
     Spec_ProviderConfig := Spec_ProviderConfig s; Spec_Labels := Spec_Labels s; Spec_Annotations := Spec_Annotations s |}.

(** *** Traffic *)

Record TrafficStats := { TS_InterfaceName : string; TS_RxBytes : Z; TS_TxBytes : Z; TS_RxPackets : Z; TS_TxPackets : Z }.
(** The first line under the header that has eleven columns. *)
Definition netstat_line (iface line : string) : option TrafficStats :=
  let fields := Fields line in
  let number k := parse_or_zero (nth k fields "") in
  if (length fields <? 11)%nat then None
  else Some {| TS_InterfaceName := iface; TS_RxBytes := number 7%nat; TS_TxBytes := number 10%nat; TS_RxPackets := number 4%nat; TS_TxPackets := number 8%nat |}.
Definition ErrUnsupportedOperation : error := Sentinel "operation not supported".
Definition ResetTrafficStats : option error := Some (Wrapf "reset traffic stats: %w" [] ErrUnsupportedOperation).

Section inside.
Context {W : Type} `{Host W} `{FileOps W} `{LinkHost W} `{JailFirewall W} `{Json JailConfig}.
Context (GOARCH : string) (sprint : value -> string) (cwd : path) (ctx_err : W -> option error) (error_text : error -> string).

(** A command whose output is part of its error. *)
Definition run_out (msg : string) (args : list string) (w : W) (argv : list string) : W * option error :=
  let '(w, x) := exec w (Command argv) in (w, match ex_err x with Some e => Some (Wrapf msg (args ++ [ex_combined x]) e) | None => None end).

Definition ensureJailRunning (p : JailProvider) (w : W) (id : string) : W * option error :=
  match GetInstanceState p w id with
  | (w, (_, Some e)) => (w, Some (Wrapf "failed to get jail state: %w" [] e))
  | (w, (state, None)) => (w, fail_if (negb (streq state StateRunning)) (Errorf "jail must be running to manage services" []))
  end.
Definition bad_service (id serviceName : string) : option error :=
  first_error [wrap "invalid instance id %q: %w" [id] (ValidateInstanceName id); ValidateServiceName serviceName].
Definition when_valid (bad : option error) (w : W) (f : W -> W * option error) : W * option error :=
  match bad with Some e => (w, Some e) | None => f w end.

Definition EnableService (p : JailProvider) (w : W) (id serviceName : string) : W * option error :=
  when_valid (bad_service id serviceName) w (fun w => and_then (ensureJailRunning p w id) (fun w =>
  run_out "failed to enable service %s: %w (output: %s)" [serviceName] w ["jexec"; id; "sysrc"; serviceName +:+ "_enable=YES"])).
Definition DisableService (p : JailProvider) (w : W) (id serviceName : string) : W * option error :=
  when_valid (bad_service id serviceName) w (fun w => and_then (ensureJailRunning p w id) (fun w =>
  run_out "failed to disable service %s: %w (output: %s)" [serviceName] w ["jexec"; id; "sysrc"; serviceName +:+ "_enable=NO"])).
Definition serviceAction (p : JailProvider) (w : W) (id serviceName action : string) : W * option error :=
  and_then (ensureJailRunning p w id) (fun w =>
  run_out "failed to %s service %s: %w (output: %s)" [action; serviceName] w ["jexec"; id; "service"; serviceName; action]).
Definition StartService (p : JailProvider) (w : W) (id serviceName : string) : W * option error :=
  when_valid (bad_service id serviceName) w (fun w => serviceAction p w id serviceName ServiceActionStart).
Definition StopService (p : JailProvider) (w : W) (id serviceName : string) : W * option error :=
  when_valid (bad_service id serviceName) w (fun w => serviceAction p w id serviceName ServiceActionStop).
Definition RestartService (p : JailProvider) (w : W) (id serviceName : string) : W * option error :=
  when_valid (bad_service id serviceName) w (fun w => serviceAction p w id serviceName ServiceActionRestart).
Definition ReloadService (p : JailProvider) (w : W) (id serviceName : string) : W * option error :=
  when_valid (bad_service id serviceName) w (fun w => serviceAction p w id serviceName ServiceActionReload).

Definition service_enabled (w : W) (id name : string) : W * bool :=
  let '(w, x) := exec w (Command ["jexec"; id; "sysrc"; "-n"; name +:+ "_enable"]) in
  (w, is_nil (ex_err x) && yes_value (ex_stdout x)).
Definition service_running (w : W) (id name : string) : W * bool :=
  let '(w, e) := run w ["jexec"; id; "service"; name; "onestatus"] in (w, is_nil e).
Definition GetServiceStatus (p : JailProvider) (w : W) (id serviceName : string) : W * result JailService :=
  match when_valid (bad_service id serviceName) w (fun w => ensureJailRunning p w id) with
  | (w, Some e) => (w, Err e)
  | (w, None) =>
      let '(w, enabled) := service_enabled w id serviceName in
      let '(w, running) := service_running w id serviceName in
      let '(w, x) := exec w (Command ["jexec"; id; "which"; "/usr/local/etc/rc.d/" +:+ serviceName]) in
      let '(w, script) := if is_nil (ex_err x) then (w, TrimSpace (ex_stdout x))
                          else let '(w, y) := exec w (Command ["jexec"; id; "which"; "/etc/rc.d/" +:+ serviceName]) in
                               (w, if is_nil (ex_err y) then TrimSpace (ex_stdout y) else "") in
      (w, Ok {| JS_Name := serviceName; JS_Enabled := enabled; JS_Running := running; JS_Description := ""; JS_RCScript := script |})
  end.
Fixpoint read_services (id dir : string) (names : list string) (w : W) : W * list JailService :=
  match names with
  | [] => (w, [])
  | name :: rest =>
      let '(w, enabled) := service_enabled w id name in
      let '(w, running) := service_running w id name in
      let '(w, l) := read_services id dir rest w in
      (w, {| JS_Name := name; JS_Enabled := enabled; JS_Running := running; JS_Description := ""; JS_RCScript := dir +:+ "/" +:+ name |} :: l)
  end.
Definition listServicesInDir (w : W) (id dir : string) : W * result (list JailService) :=
  let '(w, x) := exec w (Command ["jexec"; id; "ls"; "-1"; dir]) in
  match ex_err x with
  | Some e => (w, Err e)
  | None => let '(w, l) := read_services id dir (rc_scripts (ex_stdout x)) w in (w, Ok l)
  end.
Definition ListServices (p : JailProvider) (w : W) (id : string) : W * result (list JailService) :=
  match when_valid (wrap "invalid instance id %q: %w" [id] (ValidateInstanceName id)) w (fun w => ensureJailRunning p w id) with
  | (w, Some e) => (w, Err e)
  | (w, None) =>
      match listServicesInDir w id "/etc/rc.d" with
      | (w, Err e) => (w, Err (Wrapf "failed to list the base services of jail %s: %w" [id] e))
      | (w, Ok base) =>
          let '(w, r) := listServicesInDir w id "/usr/local/etc/rc.d" in
          (w, Ok (base ++ match r with Ok l => l | Err _ => [] end))
      end
  end.
(** The services that are enabled, or running. *)
Definition services_that (f : JailService -> bool) (p : JailProvider) (w : W) (id : string) : W * result (list JailService) :=
  match wrap "invalid instance id %q: %w" [id] (ValidateInstanceName id) with
  | Some e => (w, Err e)
  | None => let '(w, r) := ListServices p w id in (w, match r with Ok l => Ok (List.filter f l) | Err e => Err e end)
  end.
Definition ListEnabledServices : JailProvider -> W -> string -> W * result (list JailService) := services_that JS_Enabled.
Definition ListRunningServices : JailProvider -> W -> string -> W * result (list JailService) := services_that JS_Running.

Definition SetServiceConfig (p : JailProvider) (w : W) (id serviceName variable value : string) : W * option error :=
  when_valid (first_error [bad_service id serviceName; validateRcVariable variable;
                           fail_if (existsb (fun c => Ascii.eqb c newline || Ascii.eqb c "013") (bytes value))
                             (Errorf "service configuration value must not contain a newline" [])]) w (fun w =>
  and_then (ensureJailRunning p w id) (fun w =>
  let setting := serviceName +:+ "_" +:+ variable +:+ "=" +:+ value in
  run_out "failed to set %s: %w (output: %s)" [setting] w ["jexec"; id; "sysrc"; setting])).
Definition GetServiceConfig (p : JailProvider) (w : W) (id serviceName variable : string) : W * result string :=
  match when_valid (first_error [bad_service id serviceName; validateRcVariable variable]) w (fun w => ensureJailRunning p w id) with
  | (w, Some e) => (w, Err e)
  | (w, None) =>
      let varName := serviceName +:+ "_" +:+ variable in
      let '(w, x) := exec w (Command ["jexec"; id; "sysrc"; "-n"; varName]) in
      (w, match ex_err x with Some e => Err (Wrapf "failed to get %s: %w" [varName] e) | None => Ok (TrimSpace (ex_stdout x)) end)
  end.
Definition EnableAndStartService (p : JailProvider) (w : W) (id serviceName : string) : W * option error :=
  when_valid (bad_service id serviceName) w (fun w => and_then (EnableService p w id serviceName) (fun w => StartService p w id serviceName)).
Definition isAlreadyStopped (e : error) : bool :=
  let msg := ToLower (error_text e) in Contains msg "not running" || Contains msg "isn't running".
Definition StopAndDisableService (p : JailProvider) (w : W) (id serviceName : string) : W * option error :=
  when_valid (bad_service id serviceName) w (fun w =>
  match StopService p w id serviceName with
  | (w, Some e) => if isAlreadyStopped e then DisableService p w id serviceName
                   else (w, Some (Wrapf "failed to stop service %s before disabling it: %w" [serviceName] e))
  | (w, None) => DisableService p w id serviceName
  end).

(** *** Packages *)

Definition bootstrapPkg (w : W) (jailName : string) : W * option error :=
  match run w ["jexec"; jailName; "which"; "pkg"] with
  | (w, None) => (w, None)
  | (w, Some _) => run_out "pkg bootstrap failed: %w (output: %s)" [] w ["jexec"; jailName; "env"; "ASSUME_ALWAYS_YES=yes"; "/usr/sbin/pkg"; "bootstrap"]
  end.
Definition installPackage (w : W) (jailName packageName : string) : W * option error :=
  run_out "pkg install failed: %w (output: %s)" [] w ["jexec"; jailName; "env"; "ASSUME_ALWAYS_YES=yes"; "pkg"; "install"; packageName].
Fixpoint install_each (jailName : string) (packages : list string) (w : W) : W * option error :=
  match packages with
  | [] => (w, None)
  | pkg :: rest =>
      match installPackage w jailName pkg with
      | (w, Some e) => (w, Some (Wrapf "failed to install package %s: %w" [pkg] e))
      | (w, None) => install_each jailName rest w
      end
  end.
Definition InstallPackages (p : JailProvider) (w : W) (handle : InstanceHandle) (packages : list string) : W * metadata * option error :=
  let id := Handle_ID handle in
  let meta := Handle_Metadata handle in
  match packages with [] => (w, meta, None) | _ =>
  match first_error (wrap "invalid jail name: %w" [] (ValidateInstanceName id) :: map validatePackageName packages) with
  | Some e => (w, meta, Some e)
  | None =>
  match GetInstanceState p w id with
  | (w, (_, Some e)) => (w, meta, Some (Wrapf "failed to get jail state: %w" [] e))
  | (w, (state, None)) =>
      let install w := and_then (wrapped "failed to bootstrap pkg: %w" (bootstrapPkg w id)) (install_each id packages) in
      if streq state StateRunning then let '(w, e) := install w in (w, meta, e)
      else match StartInstance GOARCH sprint cwd ctx_err p w handle with
           | (w, meta, Some e) => (w, meta, Some (Wrapf "failed to start jail for package installation: %w" [] e))
           | (w, meta, None) =>
               let '(w, e) := install w in
               let '(w, meta, _) := StopInstance GOARCH cwd p w {| Handle_ID := id; Handle_Provider := Handle_Provider handle; Handle_Metadata := meta |}
                                      {| Stop_Force := false; Stop_Timeout := 30 * 10 ^ 9 |} in
               (w, meta, e)
           end
  end end end.
(** A jail whose packages are read or removed is running. *)
Definition running_jail (p : JailProvider) (w : W) (id msg : string) : W * option error :=
  match GetInstanceState p w id with
  | (w, (_, Some e)) => (w, Some (Wrapf "failed to get jail state: %w" [] e))
  | (w, (state, None)) => (w, fail_if (negb (streq state StateRunning)) (Errorf msg []))
  end.
Definition ListPackages (p : JailProvider) (w : W) (id : string) : W * result (list PackageInfo) :=
  match when_valid (wrap "invalid jail name: %w" [] (ValidateInstanceName id)) w (fun w => running_jail p w id "jail must be running to list packages") with
  | (w, Some e) => (w, Err e)
  | (w, None) =>
      let '(w, x) := exec w (Command ["jexec"; id; "pkg"; "query"; "%n-%v" +:+ of_bytes ["009"%char] +:+ "%c"]) in
      (w, match ex_err x with Some e => Err (Wrapf "failed to list packages: %w" [] e) | None => Ok (omap listed_package (Lines (ex_combined x))) end)
  end.
Definition RemovePackage (p : JailProvider) (w : W) (id packageName : string) : W * option error :=
  when_valid (first_error [wrap "invalid jail name: %w" [] (ValidateInstanceName id); validatePackageName packageName]) w (fun w =>
  and_then (running_jail p w id "jail must be running to remove packages") (fun w =>
  run_out "failed to remove package: %w (output: %s)" [] w ["jexec"; id; "env"; "ASSUME_ALWAYS_YES=yes"; "pkg"; "delete"; packageName])).

(** *** A new release, a new name *)

Definition freebsd_update (msg : string) (w : W) (args : list string) : W * option error :=
  let '(w, x) := exec w {| argv := "freebsd-update" :: args; cmd_env := Some (MinimalEnv ["PAGER=cat"; "ASSUME_ALWAYS_YES=yes"]); cmd_stdin := None; cmd_stdout := None |} in
  (w, match ex_err x with Some e => Some (Wrapf (msg +:+ " failed: %w" +:+ of_bytes [newline] +:+ "output: %s") [ex_combined x] e) | None => None end).
(** A jail that is changed while it is stopped. *)
Definition stopped_jail (p : JailProvider) (w : W) (id msg : string) : W * option error :=
  match GetInstanceState p w id with
  | (w, (_, Some e)) => (w, Some (Wrapf "failed to get jail state: %w" [] e))
  | (w, (state, None)) => (w, fail_if (negb (streq state StateStopped)) (Errorf msg [state]))
  end.
Definition UpgradeInstance (p : JailProvider) (w : W) (id targetRelease : string) : W * option error :=
  when_valid (wrap "invalid jail name: %w" [] (ValidateInstanceName id)) w (fun w =>
  and_then (stopped_jail p w id "jail must be stopped before upgrading (current state: %s)") (fun w =>
  match loadJailConfig GOARCH w (config_path p id) with
  | Err e => (w, Some (Wrapf "failed to load jail config: %w" [] e))
  | Ok c =>
      let root := JC_Path c in
      if streq root "" then (w, Some (Errorf "jail %q has no path in config" [id]))
      else
        let current := if streq (Spec_OSVersion (JC_Spec c)) "" then targetRelease else Spec_OSVersion (JC_Spec c) in
        and_then (freebsd_update "freebsd-update upgrade" w ["-b"; root; "--currently-running"; current; "-r"; targetRelease; "upgrade"]) (fun w =>
        and_then (freebsd_update "freebsd-update install" w ["-b"; root; "install"]) (fun w =>
        wrapped "upgrade completed but failed to update config: %w"
          (saveJailConfig w (with_networks c (spec_release (JC_Spec c) targetRelease) (JC_Networks c)) (config_path p id))))
  end)).

Definition updateFstabParameter (p : JailProvider) (w : W) (name fstabPath : string) : W * option error :=
  match loadJailConfig GOARCH w (config_path p name) with
  | Err e => (w, Some e)
  | Ok c =>
      if streq (jtext (JC_JailParameters c) "mount.fstab") "" then (w, None)
      else saveJailConfig w (with_params c (set_text "mount.fstab" fstabPath (JC_JailParameters c))) (config_path p name)
  end.
Definition renameJailFstab (p : JailProvider) (w : W) (oldName newName oldPath newPath : string) : W * option error :=
  let fstab name := path_Join (path_Join (JP_stateDir p) "fstab") name in
  match ReadFile w (fstab oldName) with
  | Err e => (w, if errors_Is e ErrNotExist then None else Some e)
  | Ok data =>
      and_then (WriteFile w (fstab newName) (ReplaceText data oldPath newPath)) (fun w =>
      match RemoveFile w (fstab oldName) with
      | (w, Some e) => if errors_Is e ErrNotExist then updateFstabParameter p w newName (fstab newName) else (w, Some e)
      | (w, None) => updateFstabParameter p w newName (fstab newName)
      end)
  end.
(** The block of the jail in /etc/jail.conf.d, under its new name. *)
Definition rename_conf (w : W) (oldName newName oldPath newPath : string) : W :=
  let conf name := "/etc/jail.conf.d/" +:+ name +:+ ".conf" in
  match Stat w (conf oldName), ReadFile w (conf oldName) with
  | Ok _, Ok data =>
      match WriteFile w (conf newName) (renameJailConfBlock (ReplaceText data oldPath newPath) oldName newName) with
      | (w, None) => (RemoveFile w (conf oldName)).1
      | (w, Some _) => w
      end
  | _, _ => w
  end.
Definition RenameInstance (p : JailProvider) (w : W) (oldName newName : string) : W * option error :=
  when_valid (first_error [wrap "invalid new name: %w" [] (ValidateInstanceName newName); wrap "invalid jail name: %w" [] (ValidateInstanceName oldName)]) w (fun w =>
  and_then (stopped_jail p w oldName "jail must be stopped to rename (current state: %s)") (fun w =>
  if is_ok (Stat w (config_path p newName)) then (w, Some (Errorf "jail %q already exists" [newName]))
  else
    let dataset name := JP_zfsParent p +:+ "/" +:+ name in
    let '(w, absent) := run w ["zfs"; "list"; "-H"; dataset oldName] in
    let back w := if is_nil absent then (run w ["zfs"; "rename"; dataset newName; dataset oldName]).1 else w in
    and_then (if is_nil absent then let '(w, x) := exec w (Command ["zfs"; "rename"; dataset oldName; dataset newName]) in
                                    (w, match ex_err x with Some e => Some (Wrapf "zfs rename failed: %s: %w" [TrimSpace (ex_combined x)] e) | None => None end)
              else (w, None)) (fun w =>
    match loadJailConfig GOARCH w (config_path p oldName) with
    | Err e => (back w, Some (Wrapf "failed to load jail config: %w" [] e))
    | Ok c =>
        let oldPath := JC_Path c in
        let newPath := renamed_root oldPath oldName newName in
        match saveJailConfig w (renamed_config c newName newPath) (config_path p newName) with
        | (w, Some e) => (back w, Some (Wrapf "failed to save renamed config: %w" [] e))
        | (w, None) =>
            let w := (RemoveFile w (config_path p oldName)).1 in
            let w := rename_conf w oldName newName oldPath newPath in
            ((renameJailFstab p w oldName newName oldPath newPath).1, None)
        end
    end))).

(** *** Traffic of the interfaces of a jail *)

Fixpoint read_traffic (jailName : string) (interfaces : list string) (w : W) : W * list TrafficStats :=
  match interfaces with
  | [] => (w, [])
  | iface :: rest =>
      if streq iface "lo0" || negb (is_nil (ValidateInterfaceName iface)) then read_traffic jailName rest w
      else
        let '(w, x) := exec w (Command ["jexec"; jailName; "netstat"; "-I"; iface; "-b"; "-n"]) in
        let '(w, l) := read_traffic jailName rest w in
        (w, if is_nil (ex_err x) then firstn 1 (omap (netstat_line iface) (tail (Lines (ex_combined x)))) ++ l else l)
  end.
Definition GetTrafficStats (w : W) (id : string) : W * result (list TrafficStats) :=
  match ValidateInstanceName id with
  | Some e => (w, Err (Wrapf "invalid instance id %q: %w" [id] e))
  | None =>
      match getJailID w id with
      | (w, Err e) => (w, Err (Wrapf "failed to get jail ID: %w" [] e))
      | (w, Ok jid) =>
          if jid =? 0 then (w, Err (Errorf "jail %s is not running" [id]))
          else
            let '(w, x) := exec w (Command ["jexec"; id; "ifconfig"; "-l"]) in
            match ex_err x with
            | Some e => (w, Err (Wrapf "failed to list interfaces: %w" [] e))
            | None => let '(w, l) := read_traffic id (Fields (ex_combined x)) w in (w, Ok l)
            end
      end
  end.
End inside.

(** ** Facts *)

Lemma drop_while_suffix f s : exists n, drop_while f s = skipn n s /\ (n <= length s)%nat.
Proof.
  induction s as [|c s (n & E & L)]; simpl; [by exists 0%nat|].
  destruct (f c); [exists (S n) | exists 0%nat]; simpl; split; try done; lia.
Qed.
(** A span is the text, cut in two. *)
Lemma span_l_app f s : (span_l f s).1 ++ (span_l f s).2 = s.
Proof.
  unfold span_l; simpl. destruct (drop_while_suffix f s) as (n & -> & L).
  rewrite length_skipn. replace (length s - (length s - n))%nat with n by lia. apply firstn_skipn.
Qed.
(** The header of a block is the start of the text it is found in. *)
Lemma block_header_app s before name after rest :
  block_header s = Some (before, name, after, rest) -> s = before ++ name ++ after ++ rest /\ (length rest < length s)%nat.
Proof.
  unfold block_header. pose proof (span_l_app conf_space s) as E1. destruct (span_l conf_space s) as [b s1]; simpl in E1.
  pose proof (span_l_app conf_name s1) as E2. destruct (span_l conf_name s1) as [n s2]; simpl in E2.
  pose proof (span_l_app conf_space s2) as E3. destruct (span_l conf_space s2) as [a s3]; simpl in E3.
  destruct n as [|c n]; [done|]. destruct s3 as [|d s3]; [done|].
  destruct (decide (d = "{"%char)) as [->|Hd]; last by intros E; exfalso; revert E; clear -Hd; destruct d as [[] [] [] [] [] [] [] []]; done.
  intros [= <- <- <- <-]. subst s2 s1 s. split; [by rewrite <- !app_assoc|]. repeat (rewrite ?length_app; simpl). lia.
Qed.
(** Renaming changes the name in the headers that have it and nothing else: under
    the same name, the configuration is what it was. *)
Lemma rename_blocks_same fuel old start s : (length s <= fuel)%nat -> rename_blocks fuel old old start s = s.
Proof.
  revert start s. induction fuel as [|fuel IH]; intros start [|c s] L; simpl in *; try done; [lia|].
  destruct (if start then block_header (c :: s) else None) as [[[[b n] a] rest]|] eqn:E.
  - destruct start; [|done]. apply block_header_app in E as [E L']. simpl in L'.
    rewrite IH, E by lia. case_bool_decide as E2; [by rewrite E2 | done].
  - f_equal. apply IH. lia.
Qed.
Lemma renameJailConfBlock_same content name : renameJailConfBlock content name name = content.
Proof. unfold renameJailConfBlock. rewrite rename_blocks_same by done. apply of_bytes_bytes. Qed.

(** Only the header is renamed; a path that only begins like the root is
    rewritten with it. *)
Example rename_one_block : renameJailConfBlock "a { path = /jails/a; } ab {}" "a" "web" = "web { path = /jails/a; } ab {}".
Proof. vm_compute. reflexivity. Qed.
Example rename_rewrites_neighbour : ReplaceText "/data /jails/web2/mnt nullfs rw 0 0" "/jails/web" "/jails/www" = "/data /jails/www2/mnt nullfs rw 0 0".
Proof. vm_compute. reflexivity. Qed.
Example root_renamed : renamed_root "/jails/a/a" "a" "web" = "/jails/a/web" /\ renamed_root "/jails/a/root" "a" "web" = "/jails/web/root" /\
  renamed_root "/srv/other" "a" "web" = "/srv/other".
Proof. vm_compute. done. Qed.
