(* ===== verification/JailStartFacts.v ===== *)
(** * A start that fails leaves nothing behind

    The commands a machine has run, as a list that only grows, with what each
    answered ([CommandLog]); which of them create an interface or a jail; and that
    whatever a failed start created it has destroyed again by the time it returns.
    A sample machine that keeps the laws is at the end. *)

From stdpp Require Import base list gmap strings.
From Stdlib Require Import Ascii ZArith Lia.
From S2P Require Import Prelude GoStrings GoText GoPath Host Files Validation ProviderTypes InstanceStore Podman JailParams JailNet JailConfig JailHooks JailRctl JailFacts JailRctlFacts JailMounts JailOps.

Local Open Scope Z_scope.

(** ** Commands and what they create *)

Definition event : Type := list string * exit.
Definition epair_create : list string := ["ifconfig"; "epair"; "create"].
(** A command that creates neither an interface nor a jail. *)
Definition quiet (argv : list string) : Prop := argv <> epair_create /\ forall rest, argv <> "jail" :: "-c" :: rest.

(** The interface a command created, if it created one. *)
Definition made (e : event) : option string :=
  if bool_decide (e.1 = epair_create) && is_nil (ex_err e.2) && negb (streq (TrimSpace (ex_combined e.2)) "")
  then Some (TrimSpace (ex_combined e.2)) else None.
Definition started (e : event) : bool := match e.1 with "jail" :: "-c" :: _ => is_nil (ex_err e.2) | _ => false end.
Definition done_later (argv : list string) (l : list event) : Prop := argv ∈ map fst l.
Definition destroy (n : string) : list string := ["ifconfig"; n; "destroy"].
Definition remove (name : string) : list string := ["jail"; "-r"; name].

(** What was created is destroyed later in the list, or is held to be destroyed:
    the interfaces in [held], the jail if [running]. *)
Fixpoint covered (name : string) (held : list string) (running : bool) (l : list event) : Prop :=
  match l with
  | [] => True
  | e :: l =>
      (forall n, made e = Some n -> n ∈ held \/ done_later (destroy n) l) /\
      (started e = true -> running = true \/ done_later (remove name) l) /\ covered name held running l
  end.

Lemma quiet_made e : quiet e.1 -> made e = None /\ started e = false.
Proof.
  intros [He Hj]. unfold made, started. rewrite bool_decide_false by done. split; [done|].
  destruct e as [[|a [|b rest]] x]; simpl in *; try done; try (by repeat case_match). 
  destruct (decide (a = "jail")) as [->|Ha]; [destruct (decide (b = "-c")) as [->|Hb]; [by destruct (Hj rest)|]|];
    repeat case_match; congruence.
Qed.
Lemma made_named e n : made e = Some n -> n <> "".
Proof. unfold made. case_match eqn:E; [|done]. intros [= <-]. apply andb_true_iff in E as [_ E]. apply negb_true_iff in E. by apply streq_false. Qed.
Lemma later_app argv l l' : done_later argv l -> done_later argv (l ++ l').
Proof. unfold done_later. rewrite map_app, elem_of_app. by left. Qed.
Lemma later_app_r argv l l' : done_later argv l' -> done_later argv (l ++ l').
Proof. unfold done_later. rewrite map_app, elem_of_app. by right. Qed.

Lemma covered_app name held running l l' : covered name held running l -> covered name held running l' -> covered name held running (l ++ l').
Proof.
  induction l as [|e l IH]; simpl; [done|]. intros (Hm & Hs & Hl) Hl'. split_and!; [| |by apply IH].
  - intros n Hn. destruct (Hm n Hn); [by left|right; by apply later_app].
  - intros Hj. destruct (Hs Hj); [by left|right; by apply later_app].
Qed.
Lemma covered_quiet name held running l : Forall (fun e => quiet e.1) l -> covered name held running l.
Proof. induction 1 as [|e l He _ IH]; simpl; [done|]. apply quiet_made in He as [-> ->]. done. Qed.
Lemma covered_mono name held held' running running' l : held ⊆ held' -> (running = true -> running' = true) ->
  covered name held running l -> covered name held' running' l.
Proof.
  intros Hh Hr. induction l as [|e l IH]; simpl; [done|]. intros (Hm & Hs & Hl). split_and!; [| |by apply IH].
  - intros n Hn. destruct (Hm n Hn); [left; by apply Hh|by right].
  - intros Hj. destruct (Hs Hj); [left; by apply Hr|by right].
Qed.
(** A list that destroys everything held settles it. *)
Lemma covered_settled name held running l l' : covered name held running l ->
  (forall n, n ∈ held -> n <> "" -> done_later (destroy n) l') -> (running = true -> done_later (remove name) l') ->
  Forall (fun e => quiet e.1) l' -> covered name [] false (l ++ l').
Proof.
  intros Hl Hd Hr Hq. induction l as [|e l IH]; simpl; [by apply covered_quiet|]. destruct Hl as (Hm & Hs & Hl). split_and!; [| |by apply IH].
  - intros n Hn. right. destruct (Hm n Hn); [|by apply later_app]. apply later_app_r, Hd; [done|]. by eapply made_named.
  - intros Hj. right. destruct (Hs Hj); [by apply later_app_r, Hr|by apply later_app].
Qed.
Lemma covered_split name pre e post : covered name [] false (pre ++ e :: post) ->
  (forall n, made e = Some n -> done_later (destroy n) post) /\ (started e = true -> done_later (remove name) post).
Proof.
  induction pre as [|e' pre IH]; simpl; [|naive_solver]. intros (Hm & Hs & _). split.
  - intros n Hn. destruct (Hm n Hn) as [?%not_elem_of_nil|?]; done.
  - intros Hj. by destruct (Hs Hj).
Qed.

(** ** Machines that remember their commands *)

Class CommandLog (W : Type) `{Host W, FileOps W, LinkHost W, JailFirewall W} := {
  log : W -> list event;
  exec_log w c : log (exec w c).1 = log w ++ [(argv c, (exec w c).2)];
  (* files are not commands *)
  mkdir_log w d : log (MkdirAll w d).1 = log w;
  write_log w f s : log (WriteFile w f s).1 = log w;
  nofollow_log w f s : log (write_nofollow w f s).1 = log w;
  append_log w f : log (OpenAppend w f).1 = log w;
  string_log w f s : log (WriteString w f s).1 = log w;
  temp_log w d s : log (CreateTemp w d s).1 = log w;
  chmod_log w f m : log (Chmod w f m).1 = log w;
  fsync_log w f : log (Sync w f).1 = log w;
  fclose_log w f : log (CloseFile w f).1 = log w;
  frename_log w a b : log (Rename w a b).1 = log w;
  fremove_log w f : log (RemoveFile w f).1 = log w;
  (* the firewall runs commands of its own, none of which creates anything *)
  fw_init_log w : exists l, log (fw_init w).1 = log w ++ l /\ Forall (fun e => quiet e.1) l;
  fw_nat_log w a b c : exists l, log (fw_SetupNAT w a b c).1 = log w ++ l /\ Forall (fun e => quiet e.1) l;
  fw_remove_log w a : exists l, log (fw_RemoveAllRules w a).1 = log w ++ l /\ Forall (fun e => quiet e.1) l;
  fw_ports_log w a : exists l, log (fw_restore_ports w a).1 = log w ++ l /\ Forall (fun e => quiet e.1) l
}.

Create HintDb grow.

Section grows.
Context {W : Type} `{Host W, FileOps W, LinkHost W, JailFirewall W, !CommandLog W, Json JailConfig}.
Implicit Types w : W.

(** Commands were run that created nothing. *)
Definition grows w w' : Prop := exists l, log w' = log w ++ l /\ Forall (fun e => quiet e.1) l.

Lemma grows_refl w : grows w w.
Proof. exists []. by rewrite app_nil_r. Qed.
Lemma grows_trans w1 w2 w3 : grows w1 w2 -> grows w2 w3 -> grows w1 w3.
Proof. intros (l & E & Hl) (l' & E' & Hl'). exists (l ++ l'). rewrite E', E, app_assoc. split; [done|]. by apply Forall_app. Qed.
Lemma grows_same w w' : log w' = log w -> grows w w'.
Proof. intros E. exists []. by rewrite app_nil_r. Qed.
Lemma g_exec w c : quiet (argv c) -> grows w (exec w c).1.
Proof. intros Hq. eexists. split; [apply exec_log|]. by constructor. Qed.
Lemma g_run w a : quiet a -> grows w (run w a).1.
Proof. intros Hq. unfold run. pose proof (g_exec w (Command a) Hq). by destruct (exec w _). Qed.
Lemma g_run_msg m args w a : quiet a -> grows w (run_msg m args w a).1.
Proof. intros Hq. unfold run_msg. pose proof (g_run w a Hq). by destruct (run w _). Qed.
Lemma g_wrapped m (r : W * option error) w : grows w r.1 -> grows w (wrapped m r).1.
Proof. done. Qed.
Lemma g_and_then (r : W * option error) f w : grows w r.1 -> (forall w1, grows w w1 -> grows w (f w1).1) -> grows w (and_then r f).1.
Proof. intros Hr Hf. unfold and_then. destruct r as [w1 [e|]]; simpl in *; [done|]. by apply Hf. Qed.
Lemma g_foldl {A} (f : W -> A -> W) l w : (forall w a, grows w (f w a)) -> grows w (foldl f w l).
Proof. intros Hf. revert w. induction l as [|a l IH]; intros w; simpl; [apply grows_refl|]. by eapply grows_trans. Qed.
End grows.

(** A command whose words show that it creates nothing. *)
Ltac be_quiet := split; [|intros ?]; simpl; intros [=].
#[export] Hint Extern 0 (quiet _) => be_quiet : grow.
#[export] Hint Resolve g_exec g_run g_run_msg g_wrapped : grow.
#[export] Hint Extern 1 (grows _ _) => (apply grows_same, mkdir_log || apply grows_same, write_log || apply grows_same, nofollow_log ||
  apply grows_same, append_log || apply grows_same, string_log || apply grows_same, temp_log || apply grows_same, chmod_log ||
  apply grows_same, fsync_log || apply grows_same, fclose_log || apply grows_same, frename_log || apply grows_same, fremove_log ||
  apply fw_init_log || apply fw_nat_log || apply fw_remove_log || apply fw_ports_log) : grow.

(** The next machine of a computation, with what is known of it. *)
Ltac advance :=
  match goal with
  | |- context [match ?t with pair _ _ => _ end] =>
      let E := fresh "E" in eassert (grows _ (fst t)) as E by (eauto with grow); destruct t; cbn [fst snd] in E
  end.
Ltac chain :=
  first [assumption | apply grows_refl
        | match goal with H : grows ?c ?b |- grows _ ?b => apply (grows_trans _ c); [clear H; chain|exact H] end
        | eapply grows_trans; [|solve [eauto with grow]]; chain].
Ltac grow := repeat first [apply g_and_then; [|intros ? ?] | apply g_wrapped | progress cbn [fst snd] | advance | case_match; simplify_eq]; chain.

(** ** The operations of a start create nothing but epairs and the jail *)

Section quiet_ops.
Context {W : Type} `{Host W, FileOps W, LinkHost W, JailFirewall W, !CommandLog W, Json JailConfig}.
Implicit Types w : W.

Lemma g_save w c f : grows w (saveJailConfig w c f).1.
Proof.
  unfold saveJailConfig. destruct (Marshal c) as [data|e]; [|apply grows_refl]. advance. case_match; [|chain].
  match goal with |- context [let '(_, _) := ?r in _] => assert (grows w0 (fst r)) by grow; destruct r end. cbn [fst] in *. chain.
Qed.
Lemma g_ensure_dirs path l w : grows w (ensure_dirs path l w).1.
Proof.
  revert w. induction l as [|d l IH]; intros w; cbn [ensure_dirs]; [apply grows_refl|].
  destruct (Lstat _ _); [case_match; [apply IH|apply grows_refl]|]. advance. case_match; [chain|]. eapply grows_trans; [eassumption|apply IH].
Qed.
Lemma g_running w name : grows w (isJailRunning w name).1.
Proof. unfold isJailRunning. grow. Qed.
Lemma g_ips w name : grows w (getJailIPs w name).1.
Proof. unfold getJailIPs. grow. Qed.
Lemma g_bridge cfg w b pool : grows w (EnsureBridge cfg w b pool).1.
Proof. unfold EnsureBridge, bridgeExists, bridgeHasAddress, DetectAndWarnIPConflicts, CheckIPConflicts. grow. Qed.
Lemma g_dns w path gw : grows w (ConfigureDNS w path gw).1.
Proof. unfold ConfigureDNS. grow. Qed.
Lemma g_cleanup cfg w name : grows w (CleanupFirewallRules cfg w name).1.
Proof. unfold CleanupFirewallRules. grow. Qed.
Lemma g_forward cfg w : grows w (EnableIPForwarding cfg w).1.
Proof. unfold EnableIPForwarding. grow. Qed.
Lemma g_nat cfg w name ip : grows w (ConfigureNAT cfg w name ip).1.
Proof. unfold ConfigureNAT, getDefaultInterface. grow. Qed.
Lemma g_gateway w path gw : grows w (ConfigureGateway w path gw).1.
Proof. unfold ConfigureGateway. grow. Qed.
Lemma g_ports cfg w name : grows w (ApplyPortForwards cfg w name).1.
Proof. unfold ApplyPortForwards. grow. Qed.
Lemma g_setup cfg w name path ip gw : grows w (SetupNetworking cfg w name path ip gw).
Proof.
  unfold SetupNetworking. eapply grows_trans; [|apply g_ports]. eapply grows_trans; [|apply g_dns].
  assert (forall b (w1 w2 : W), grows w1 w2 -> grows w1 (if b : bool then w2 else w1)) as Hif by (intros []; auto using grows_refl).
  assert (forall b (w1 w2 : W), grows w1 w2 -> grows w1 (if b : bool then w1 else w2)) as Hif' by (intros []; auto using grows_refl).
  eapply grows_trans; [|apply Hif', g_gateway]. eapply grows_trans; [|apply Hif, g_nat]. apply Hif, g_forward.
Qed.
Lemma g_destroy w n : grows w (DestroyVNetInterface w n).1.
Proof. unfold DestroyVNetInterface. grow. Qed.
Lemma g_flags b i flags w : grows w (set_flags b i flags w).1.
Proof.
  revert w. induction flags as [|f l IH]; intros w; cbn [set_flags]; [apply grows_refl|]. case_match; [apply grows_refl|].
  apply g_and_then; [apply g_run_msg; be_quiet|]. intros. eapply grows_trans; [eassumption|apply IH].
Qed.
Lemma g_attach w i spec : grows w (attachInterfaceToBridge w i spec).1.
Proof.
  unfold attachInterfaceToBridge. repeat (case_match; try apply grows_refl); (apply g_and_then; [apply g_run_msg; be_quiet|]); intros;
    (eapply grows_trans; [eassumption|apply g_flags]).
Qed.
Lemma g_vnet cfg w name b i ip rt route : grows w (ConfigureVNetJailNetwork cfg w name b i ip rt route).1.
Proof.
  unfold ConfigureVNetJailNetwork. case_match; [apply grows_refl|]. set (host := streq rt "crossarch" || streq rt "linux").
  assert (forall args, quiet (if host then ["ifconfig"; "-j"; name] ++ args else ["jexec"; name; "ifconfig"] ++ args)) as Hq by (intros; destruct host; be_quiet).
  eapply grows_trans; [apply g_run, (Hq ["lo0"; "inet"; loopbackCIDR; "up"])|]. apply g_and_then; [apply g_run_msg, Hq|]. intros w1 Hw1.
  unfold EnsureGatewayOnBridge, hasIPOnInterface. grow.
Qed.
Lemma g_rename w j e n : grows w (renameJailInterface w j e n).
Proof. unfold renameJailInterface. grow. Qed.
Lemma g_quota p w ds n : grows w (applyZFSQuotas p w ds n).1.
Proof. unfold applyZFSQuotas. grow. Qed.
Lemma g_limits_of w id : grows w (getResourceLimitsLocked w id).1.
Proof. unfold getResourceLimitsLocked. grow. Qed.
Lemma g_unlimit w id : grows w (removeResourceLimitsLocked w id).1.
Proof. unfold removeResourceLimitsLocked. grow. Qed.
Lemma g_add_rule w id l : grows w (add_rule w id l).1.
Proof. unfold add_rule. grow. Qed.
Lemma g_restore w id l : grows w (restoreResourceLimits w id l).
Proof.
  unfold restoreResourceLimits. pose proof (g_unlimit w id). destruct (removeResourceLimitsLocked w id) as [w1 [e|]]; [done|].
  eapply grows_trans; [eassumption|]. apply g_foldl. intros. apply g_add_rule.
Qed.
Lemma g_add_rules id prev failed l w : grows w (add_rules id prev failed l w).1.
Proof.
  revert w. induction l as [|r l IH]; intros w; cbn [add_rules]; [apply grows_refl|]. pose proof (g_add_rule w id r.1).
  destruct (add_rule w id r.1) as [w1 [e|]]; (eapply grows_trans; [eassumption|]); [apply g_restore|apply IH].
Qed.
Lemma g_limits w name r : grows w (applyRCTLLimits w name r).1.
Proof.
  unfold applyRCTLLimits. case_match; [apply grows_refl|]. advance. case_match; [done|]. eapply grows_trans; [eassumption|].
  unfold replace_rules. pose proof (g_limits_of w0 name). destruct (getResourceLimitsLocked w0 name) as [w1 [prev|e1]]; [|done].
  eapply grows_trans; [eassumption|]. apply g_and_then; [apply g_wrapped, g_unlimit|]. intros. eapply grows_trans; [eassumption|apply g_add_rules].
Qed.
End quiet_ops.
#[export] Hint Resolve g_save g_running g_ips g_bridge g_dns g_cleanup g_setup g_destroy g_attach g_vnet g_rename g_quota g_limits : grow.

Section start_ops.
Context {W : Type} `{Host W, FileOps W, LinkHost W, JailFirewall W, !CommandLog W, Json JailConfig}.
Context (GOARCH : string) (sprint : value -> string) (cwd : path) (ctx_err : W -> option error) (p : JailProvider).
Implicit Types w : W.

(** *** Hooks *)

Lemma g_hook w path env f : grows w (executeHook w path env f).1.
Proof.
  unfold executeHook. set (c := {| argv := _; cmd_env := _; cmd_stdin := _; cmd_stdout := _ |}).
  pose proof (g_exec (Chmod w path 448).1 c ltac:(be_quiet)) as He. destruct (exec _ c) as [w1 x]. cbn [fst] in *.
  eapply grows_trans; [apply grows_same, chmod_log|exact He].
Qed.
Lemma g_scripts ty env l w : grows w (run_scripts cwd p ty env l w).1.1.
Proof.
  revert w. induction l as [|s l IH]; intros w; cbn [run_scripts]; [apply grows_refl|].
  assert (grows w (runDiscoveredHook cwd p w ty s env).1) as Hr by (unfold runDiscoveredHook; case_match; [apply g_hook|apply grows_refl]).
  destruct (runDiscoveredHook _ _ _ _ _ _) as [w1 r]. cbn [fst] in Hr. specialize (IH w1).
  destruct (run_scripts cwd p ty env l w1) as [[w2 l2] e2]. cbn [fst] in IH. repeat case_match; cbn [fst]; chain.
Qed.
Lemma g_config_hooks ty env l w : grows w (config_hooks cwd p ty env l w).1.1.
Proof.
  revert w. induction l as [|s l IH]; intros w; cbn [config_hooks]; [apply grows_refl|]. case_match; [apply IH|].
  match goal with |- context [let '(_, _) := ?r in _] => assert (grows w (fst r)) as Hr by (case_match; [apply g_hook|apply grows_refl]); destruct r as [w1 r'] end.
  cbn [fst] in Hr. specialize (IH w1). destruct (config_hooks cwd p ty env l w1) as [[w2 l2] e2]. cbn [fst] in IH. repeat case_match; cbn [fst]; chain.
Qed.
Lemma g_dir w ty dir env : grows w (executeHooksFromDir cwd p w ty dir env).1.1.
Proof.
  unfold executeHooksFromDir. case_match; [apply grows_refl|].
  set (r := if fileExists _ _ then _ else _).
  assert (grows w r.1.1) as Hr by (subst r; case_match; [apply g_scripts|apply grows_refl]). destruct r as [[w1 l1] e1].
  cbn [fst] in Hr. repeat (case_match; try (cbn [fst]; chain)). pose proof (g_scripts ty env (hook_scripts (path_Join dir ty) a) w1) as Hs.
  destruct (run_scripts _ _ _ _ _ w1) as [[w2 l2] e2]. cbn [fst] in *. simplify_eq. chain.
Qed.
Lemma g_hooks w ty env : grows w (ExecuteHooks GOARCH cwd p w ty env).1.1.
Proof.
  unfold ExecuteHooks. assert (grows w (live_env w env).1) as Hl.
  { unfold live_env. pose proof (g_running w (HE_JailName env)) as Hr. destruct (isJailRunning _ _) as [w1 r]. cbn [fst] in Hr.
    pose proof (g_ips w1 (HE_JailName env)) as Hi. destruct (getJailIPs _ _) as [w2 i]. cbn [fst] in Hi. repeat case_match; cbn [fst]; chain. }
  destruct (live_env w env) as [w1 env1]. cbn [fst] in Hl.
  pose proof (g_dir w1 ty (getGlobalHooksDir w1) env1) as H1'. destruct (executeHooksFromDir _ _ w1 _ _ _) as [[w2 l2] e2]. cbn [fst] in H1'.
  pose proof (g_dir w2 ty (getJailHooksDir p (HE_JailName env1)) env1) as H2'. destruct (executeHooksFromDir _ _ w2 _ _ _) as [[w3 l3] e3]. cbn [fst] in H2'.
  case_match; [|cbn [fst]; chain]. pose proof (g_config_hooks ty env1 (configured_hooks a ty) w3) as H3'. unfold executeConfigHooks.
  destruct (config_hooks _ _ _ _ _ w3) as [[w4 l4] e4]. cbn [fst] in *. chain.
Qed.

(** *** Mounts *)

Lemma g_fstab w f s t r : grows w (addToJailFstab w f s t r).1.
Proof. unfold addToJailFstab. grow. Qed.
Hint Resolve g_fstab : grow.
Lemma g_mount c w m : grows w (apply_mount cwd p c w m).1.
Proof.
  unfold apply_mount. destruct m; try apply grows_refl. repeat (case_match; try apply grows_refl); grow.
Qed.
Lemma g_mounts w c : grows w (applyMounts cwd p w c).1.
Proof.
  unfold applyMounts. apply g_and_then; [|intros w1 Hw; grow]. generalize (default [] (Podman.slice_at "mounts" (Spec_ProviderConfig (JC_Spec c)))). intros l.
  revert w. induction l as [|m l IH]; intros w; cbn [apply_each]; [apply grows_refl|]. apply g_and_then; [apply g_mount|]. intros w1 Hw1.
  eapply grows_trans; [exact Hw1|apply IH].
Qed.
Lemma g_umount w name : grows w (umountJail GOARCH p w name).
Proof.
  unfold umountJail. destruct (ValidateInstanceName name); [apply grows_refl|]. destruct (loadJailConfig _ _ _) as [c|]; [|apply grows_refl].
  destruct (streq (JC_Path c) ""); [apply grows_refl|]. unfold jailMounts. advance. eapply grows_trans; [eassumption|]. apply g_foldl.
  intros. apply g_run. be_quiet.
Qed.
Lemma g_mount_dirs w c : grows w (mount_dirs w c).
Proof.
  unfold mount_dirs. case_match; [|apply grows_refl]. apply g_foldl. intros w1 d. unfold mount_dir. set (r := if is_symlink _ _ then _ else _).
  assert (grows w1 r.1) as Hr by (subst r; case_match; [eauto with grow|apply grows_refl]). destruct r as [w2 [e|]]; cbn [fst] in *; chain.
Qed.

(** *** After the jail was created *)

Lemma g_configure name c route first l w : grows w (configure_interfaces p name c route first l w).1.
Proof.
  revert first w. induction l as [|[[i v] ip] l IH]; intros first w; cbn [configure_interfaces]; [apply grows_refl|].
  match goal with |- context [ConfigureVNetJailNetwork ?a ?b ?c ?d ?e ?f ?g ?h] => pose proof (g_vnet a b c d e f g h) as Hv; destruct (ConfigureVNetJailNetwork a b c d e f g h) as [w1 [e1|]] end; cbn [fst] in Hv; [done|].
  eapply grows_trans; [exact Hv|]. eapply grows_trans; [|apply IH].
  assert (forall (b : bool) (w1 w2 : W), grows w1 w2 -> grows w1 (if b then w2 else w1)) as Hif by (intros []; auto using grows_refl).
  eapply grows_trans; [|apply Hif, g_dns]. repeat case_match; first [apply grows_refl|apply g_rename].
Qed.
Lemma g_services w name cmd : grows w (start_services w name cmd).
Proof. unfold start_services. case_match; [apply grows_refl|]. apply g_run. be_quiet. Qed.
Lemma g_after name route d w st : grows w (after_start GOARCH cwd ctx_err p name route d w st).1.
Proof.
  unfold after_start. apply g_and_then.
  - repeat (case_match; try apply grows_refl). apply g_and_then; [apply g_configure|]. intros w1 Hw1. cbn [fst]. eapply grows_trans; [exact Hw1|apply g_services].
  - intros w1 Hw1.
    assert (forall (b : bool) (w1 w2 : W), grows w1 w2 -> grows w1 (if b then w2 else w1)) as Hif by (intros []; auto using grows_refl).
    match goal with |- context [ExecuteHooks ?a ?b ?c ?w ?d ?e] => pose proof (g_hooks w d e) as Hh; destruct (ExecuteHooks a b c w d e) as [[w2 l2] e2] end.
    cbn [fst] in *. eapply grows_trans; [exact Hw1|]. eapply grows_trans; [|exact Hh]. eapply grows_trans; [|apply Hif, g_limits]. apply Hif, g_quota.
Qed.
End start_ops.

(** ** The start as a whole *)

Section start.
Context {W : Type} `{Host W, FileOps W, LinkHost W, JailFirewall W, !CommandLog W, Json JailConfig}.
Context (GOARCH : string) (sprint : value -> string) (cwd : path) (ctx_err : W -> option error) (p : JailProvider).
Implicit Types w : W.

(** Since [w0], nothing was created that the state of the start does not hold. *)
Definition tracked (name : string) (w0 w : W) (held : list string) (running : bool) : Prop :=
  exists l, log w = log w0 ++ l /\ covered name held running l.

Lemma tracked_more name w0 w w' held held' running running' l : tracked name w0 w held running -> held ⊆ held' -> (running = true -> running' = true) ->
  log w' = log w ++ l -> covered name held' running' l -> tracked name w0 w' held' running'.
Proof.
  intros (l0 & E & Hl) Hh Hr E' Hl'. exists (l0 ++ l). rewrite E', E, app_assoc. split; [done|]. apply covered_app; [by eapply covered_mono|done].
Qed.
Lemma tracked_grows name w0 w w' held running : tracked name w0 w held running -> grows w w' -> tracked name w0 w' held running.
Proof. intros Ht (l & E & Hq). by eapply tracked_more, covered_quiet. Qed.

(** An interface is made and returned, or destroyed, or was never there. *)
Lemma vnet_created w spec name : exists l, log (CreateVNetInterface w spec).1 = log w ++ l /\
  forall held running, match (CreateVNetInterface w spec).2 with Ok v => EpairA v ∈ held | Err _ => True end -> covered name held running l.
Proof.
  unfold CreateVNetInterface. pose proof (exec_log w (Command epair_create)) as El. fold epair_create. destruct (exec w _) as [w1 x]. cbn [fst snd argv Command] in El.
  assert (started (epair_create, x) = false) as Hs by done.
  destruct (ex_err x) as [e|] eqn:Ee.
  { eexists. split; [exact El|]. intros held running _. cbn [covered]. rewrite Hs. split_and!; [|done|done]. unfold made. cbn [fst snd]. by rewrite Ee. }
  set (a := TrimSpace (ex_combined x)). destruct (streq a "") eqn:Ea.
  { eexists. split; [exact El|]. intros held running _. cbn [covered]. rewrite Hs. split_and!; [|done|done]. unfold made. cbn [fst snd]. subst a. by rewrite Ea, Ee. }
  assert (made (epair_create, x) = Some a) as Hm by (unfold made; cbn [fst snd]; rewrite Ee; fold a; by rewrite Ea).
  assert (forall w2 l, log w2 = log w1 ++ l -> log w2 = log w ++ (epair_create, x) :: l) as Hlog by (intros w2 l E2; by rewrite E2, El, <- app_assoc).
  assert (forall l held running, Forall (fun e => quiet e.1) l -> a ∈ held \/ done_later (destroy a) l -> covered name held running ((epair_create, x) :: l)) as Hgo.
  { intros l held running Hq Ha. cbn [covered]. rewrite Hm, Hs. split_and!; [by intros n [= <-]|done|by apply covered_quiet]. }
  set (wm := if 0 <? Net_MTU spec then _ else w1).
  assert (grows w1 wm) as Hwm by (subst wm; case_match; [|apply grows_refl]; eapply grows_trans; apply g_run; be_quiet).
  assert (forall w2, grows w1 w2 -> exists l, log (DestroyVNetInterface w2 a).1 = log w ++ l /\ forall held running, True -> covered name held running l) as Hfail.
  { intros w2 (l2 & E2 & Hq2). unfold DestroyVNetInterface, run_msg, run. pose proof (exec_log w2 (Command ["ifconfig"; a; "destroy"])) as Ed.
    destruct (exec w2 _) as [w3 y]. cbn [fst snd argv Command] in *. rewrite E2, <- app_assoc in Ed.
    assert (Forall (fun e : event => quiet e.1) (l2 ++ [(["ifconfig"; a; "destroy"], y)])) as Hq by (apply Forall_app; split; [done|]; constructor; [be_quiet|done]).
    eexists. split; [by apply Hlog|]. intros held running _. apply Hgo; [done|]. right. apply later_app_r. by left. }
  pose proof (g_run_msg "failed to bring up %s: %w" [a] wm ["ifconfig"; a; "up"] ltac:(be_quiet)) as Hup. unfold bringUpInterface.
  destruct (run_msg _ _ wm _) as [w2 [e|]]; cbn [fst] in Hup; [apply Hfail; by eapply grows_trans|].
  set (r := if streq (Net_Bridge spec) "" then (w2, None) else attachInterfaceToBridge w2 a spec).
  assert (grows w2 r.1) as Hr by (subst r; case_match; [apply grows_refl|apply g_attach]).
  destruct r as [w3 [e|]]; cbn [fst] in Hr; [apply Hfail; by do 2 (eapply grows_trans; [eassumption|])|].
  assert (grows w1 w3) as (l3 & E3 & Hq3) by (do 2 (eapply grows_trans; [eassumption|]); done).
  eexists. split; [by apply Hlog|]. cbn [snd EpairA]. intros held running Ha. apply Hgo; auto.
Qed.

Local Abbreviation safe name w0 r := (let '(w', st', _) := r in tracked name w0 w' (st_rollback st') (st_created st')).

Lemma lease_grows name w c i n : grows w (lease GOARCH p name w c i n).1.
Proof.
  unfold lease. destruct (negb _); [apply grows_refl|]. destruct (allocateDHCPAddress _ _ _); [|apply grows_refl].
  match goal with |- context [saveJailConfig ?w ?c ?f] => pose proof (g_save w c f) as Hs; destruct (saveJailConfig w c f) as [w1 [e|]] end; done.
Qed.
Lemma network_safe name route i w0 w st : tracked name w0 w (st_rollback st) (st_created st) -> safe name w0 (start_network GOARCH p name route i w st).
Proof.
  intros Ht. unfold start_network. destruct (JC_Networks (st_config st) !! i) as [n|]; [|done]. destruct (streq (Net_IPv4 n) ""); [done|].
  pose proof (lease_grows name w (st_config st) i n) as Hl. destruct (lease _ _ _ _ _ _ _) as [w1 [[c ip]|e]]; cbn [fst] in Hl; [|by eapply tracked_grows].
  apply (tracked_grows _ _ _ w1) in Ht; [|done]. destruct (refuseAddressInUse _ _ _ _); [done|]. set (bridge := if streq (Net_Bridge n) "" then _ else _).
  match goal with |- context [EnsureBridge ?a ?b ?c ?d] => pose proof (g_bridge a b c d) as Hb; destruct (EnsureBridge a b c d) as [w2 [e|]] end;
    cbn [fst] in Hb; (apply (tracked_grows _ _ _ w2) in Ht; [|done]); [done|].
  match goal with |- context [CreateVNetInterface ?w ?s] => destruct (vnet_created w s name) as (l & El & Hc); destruct (CreateVNetInterface w s) as [w3 [v|e]] end;
    cbn [fst snd] in El, Hc.
  - eapply tracked_grows; [|apply g_setup]. eapply tracked_more; [exact Ht| |done|exact El|]; cbn [st_add_vnet st_rollback st_created st_with_config].
    + apply list_subseteq_app_l. reflexivity.
    + apply Hc. apply elem_of_app. right. by left.
  - eapply tracked_more; [exact Ht|done|done|exact El|]. by apply Hc.
Qed.
Lemma networks_safe name route idx w0 w st : tracked name w0 w (st_rollback st) (st_created st) -> safe name w0 (start_networks GOARCH p name route idx w st).
Proof.
  revert w st. induction idx as [|i idx IH]; intros w st Ht; cbn [start_networks]; [done|]. apply (network_safe _ route i) in Ht.
  destruct (start_network _ _ _ _ _ _ _) as [[w1 st1] [e|]]; [done|]. by apply IH.
Qed.

Lemma launch_safe name route w0 w st : tracked name w0 w (st_rollback st) (st_created st) -> safe name w0 (launch GOARCH sprint cwd ctx_err p name route w st).
Proof.
  intros Ht. unfold launch. set (w1 := if st_save st then _ else w).
  assert (grows w w1) as Hw1 by (subst w1; case_match; [apply g_save|apply grows_refl]). apply (tracked_grows _ _ _ w1) in Ht; [|done]. clearbody w1.
  destruct (ApplyJailParameterMap _ _ _) as [merged|]; [|done]. destruct (runtime_parameters _ _ _) as [params deferred].
  destruct (start_args _ _ _ _ _ _ _) as [args|]; [|done]. set (c := with_params _ _).
  pose proof (g_mounts cwd p w1 c) as Hm. destruct (applyMounts _ _ _ _) as [w2 [e|]]; cbn [fst] in Hm; [by eapply tracked_grows|].
  assert (tracked name w0 (mount_dirs w2 c) (st_rollback st) (st_created st)) as Ht2 by (do 2 (eapply tracked_grows; [|by eauto using g_mount_dirs]); done).
  pose proof (exec_log (mount_dirs w2 c) (Command ("jail" :: args))) as El. destruct (exec _ _) as [w3 x]. cbn [fst snd argv Command] in El.
  assert (made ("jail" :: args, x) = None) as Hmade by done.
  destruct (ex_err x) as [e|] eqn:Ex.
  - eapply tracked_more; [exact Ht2|done|done|exact El|]. cbn [covered]. rewrite Hmade. split_and!; [done| |done].
    unfold started. cbn [fst snd]. rewrite Ex. repeat case_match; done.
  - set (st' := st_running _). match goal with |- context [after_start ?a ?b ?c ?d ?e ?f ?g ?h ?i] => pose proof (g_after a b c d e f g h i) as Ha; destruct (after_start a b c d e f g h i) as [w4 e4] end.
    cbn [fst] in Ha. eapply tracked_grows; [|exact Ha]. eapply tracked_more; [exact Ht2|done|done|exact El|]. cbn [covered]. rewrite Hmade. split_and!; [done| |done].
    by left.
Qed.

(** The rollback creates nothing and destroys what the state holds. *)
Lemma run_logged w a : exists x, log (run w a).1 = log w ++ [(a, x)].
Proof. unfold run. pose proof (exec_log w (Command a)) as El. destruct (exec w _) as [w1 x]. by exists x. Qed.
Lemma destroys_logged l : forall w, exists d, log (foldl (fun w e => if streq e "" then w else (DestroyVNetInterface w e).1) w l) = log w ++ d /\
  Forall (fun e => quiet e.1) d /\ forall n, n ∈ l -> n <> "" -> done_later (destroy n) d.
Proof.
  induction l as [|e l IH]; intros w; cbn [foldl].
  { exists []. rewrite app_nil_r. split_and!; [done|done|by intros n ?%not_elem_of_nil]. }
  destruct (streq e "") eqn:Ee.
  { apply streq_true in Ee as ->. destruct (IH w) as (d & E & Hq & Hd). exists d. split_and!; [done|done|]. intros n [->|?]%elem_of_cons Hn; [done|by apply Hd]. }
  destruct (run_logged w (destroy e)) as [x Ex]. assert ((DestroyVNetInterface w e).1 = (run w (destroy e)).1) as -> by (unfold DestroyVNetInterface, run_msg; by destruct (run w _)).
  destruct (IH (run w (destroy e)).1) as (d & E & Hq & Hd). exists ((destroy e, x) :: d). rewrite E, Ex, <- app_assoc. split_and!; [done|constructor; [be_quiet|done]|].
  intros n [->|Hn]%elem_of_cons Hne; [by left|right; by apply Hd].
Qed.
Lemma rollback_safe name w0 w st : tracked name w0 w (st_rollback st) (st_created st) -> tracked name w0 (rollback_start GOARCH p name st w) [] false.
Proof.
  intros (l & E & Hl). unfold rollback_start.
  assert (exists d, log (if st_created st then (run w ["jail"; "-r"; name]).1 else w) = log w ++ d /\ Forall (fun e => quiet e.1) d /\
    (st_created st = true -> done_later (remove name) d)) as (d1 & E1 & Hq1 & Hr1).
  { destruct (st_created st); [|exists []; by rewrite app_nil_r]. destruct (run_logged w ["jail"; "-r"; name]) as [x Ex]. eexists. split; [exact Ex|].
    split; [constructor; [be_quiet|done]|]. intros _. by left. }
  set (w1 := if st_created st then _ else w) in *.
  assert (forall (b : bool) (w1 w2 : W), grows w1 w2 -> grows w1 (if b then w2 else w1)) as Hif by (intros []; auto using grows_refl).
  set (w2 := if st_mounts st then _ else w1). set (w3 := if st_firewall st then _ else w2).
  assert (grows w1 w3) as (d2 & E2 & Hq2) by (eapply grows_trans; [apply Hif, g_umount|apply Hif, g_cleanup]).
  destruct (destroys_logged (st_rollback st) w3) as (d3 & E3 & Hq3 & Hd3). exists (l ++ d1 ++ d2 ++ d3). rewrite E3, E2, E1, E, <- !app_assoc. split; [done|].
  eapply covered_settled; [exact Hl| | |by rewrite !Forall_app].
  - intros n Hn Hne. by apply later_app_r, later_app_r, Hd3.
  - intros Hc. apply later_app. by apply Hr1.
Qed.
Lemma setup_safe name c save meta w w' m e : set_up GOARCH sprint cwd ctx_err p name c save meta w = (w', m, Some e) -> tracked name w w' [] false.
Proof.
  unfold set_up. set (c' := if bool_decide _ then c else _). set (st := {| st_config := _ |}). set (route := defaultRouteNetwork _ _).
  assert (tracked name w w (st_rollback st) (st_created st)) as Ht by (exists []; by rewrite app_nil_r).
  apply (networks_safe _ route (seq 0 (length (JC_Networks c')))) in Ht. destruct (start_networks _ _ _ _ _ _ _) as [[w1 st1] [e1|]].
  - intros [= <- <- <-]. by apply rollback_safe.
  - apply (launch_safe _ route) in Ht. destruct (launch _ _ _ _ _ _ _ _ _) as [[w2 st2] [e2|]]; [|done]. intros [= <- <- <-]. by apply rollback_safe.
Qed.
End start.

Lemma created_undone name pre a x post : covered name [] false (pre ++ (a, x) :: post) -> ex_err x = None ->
  (a = epair_create -> TrimSpace (ex_combined x) <> "" -> destroy (TrimSpace (ex_combined x)) ∈ map fst post) /\
  (forall args, a = "jail" :: "-c" :: args -> remove name ∈ map fst post).
Proof.
  intros Hc Ex. apply covered_split in Hc as [Hm Hs]. split.
  - intros -> Hn. apply Hm. unfold made. cbn [fst snd]. rewrite Ex. apply streq_false in Hn. by rewrite Hn.
  - intros args ->. apply Hs. unfold started. cbn [fst snd]. by rewrite Ex.
Qed.


(** A machine that answers as a script says and remembers it: an epair is made, the
    jail is created, and its interface cannot be configured. *)
Definition script (argv : list string) : exit :=
  match argv with
  | "jls" :: _ => said "" (Some (Sentinel "exit status 1"))
  | ["ifconfig"; "epair"; "create"] => said ("epair0a" +:+ String newline "") None
  | ["jexec"; _; "ifconfig"; "epair0b"; _; "up"] => said "" (Some (Sentinel "exit status 1"))
  | _ => said "" None
  end.
Definition nowhere : error := Sentinel ErrNotExist.
#[local] Instance script_host : Host (list event) := {
  exec l c := (l ++ [(argv c, script (argv c))], script (argv c)); pipeline l _ _ := (l, NoPipe nowhere); LookPath _ _ := None;
  Stat _ _ := Err nowhere; Lstat _ _ := Err nowhere; EvalSymlinks _ f := Ok f; MkdirAll l _ := (l, None); CreateExcl l _ := (l, None); Close l _ := (l, None);
  OpenRead _ _ := None; Remove l _ := (l, None); Geteuid _ := 0 }.
#[local] Instance script_files : FileOps (list event) := {
  ReadFile _ f := if HasSuffix f ".json" then Ok "web" else Err nowhere; WriteFile l _ _ := (l, None); OpenAppend l _ := (l, None); WriteString l _ _ := (l, None);
  CreateTemp l _ _ := (l, Ok "tmp"); Chmod l _ _ := (l, None); Sync l _ := (l, None); CloseFile l _ := (l, None); Rename l _ _ := (l, None);
  RemoveFile l _ := (l, None); MakeDirs l _ := (l, None); ReadDir _ _ := Ok [] }.
#[local] Instance script_links : LinkHost (list event) := { is_symlink _ _ := false; write_nofollow l _ _ := (l, None) }.
#[local] Instance script_firewall : JailFirewall (list event) := {
  fw_init l := (l, None); fw_SetupNAT l _ _ _ := (l, None); fw_RemoveAllRules l _ := (l, None); fw_restore_ports l _ := (l, None) }.
#[local] Instance script_log : CommandLog (list event).
Proof. by refine {| log := fun l => l |}; intros; try (exists []; rewrite app_nil_r). Defined.

Definition one_network : NetworkSpec :=
  {| Net_ID := ""; Net_Type := ""; Net_Bridge := ""; Net_BridgeFlags := []; Net_VLAN := 0; Net_MAC := ""; Net_IPv4 := "10.0.0.5/24"; Net_IPv6 := ""; Net_IPPool := "";
     Net_MTU := 0 |}.
Definition web_config : JailConfig := buildJailConfig "amd64" (fun _ => "") (spec_networks (plain_spec [] 0 0) [one_network]) "/var/db/hospitus/jails/web".
#[local] Instance web_json : Json JailConfig := { Marshal _ := Ok "web"; Unmarshal _ := Ok web_config }.
Definition web_handle : InstanceHandle := {| Handle_ID := "web"; Handle_Provider := "jail"; Handle_Metadata := [] |}.
Definition failed_run : list event * metadata * option error := StartInstance "amd64" (fun _ => "") [] (fun _ => None) sample_jails [] web_handle.

